(* ===== verification/_CoqProject ===== *)
-Q . S2P
Prelude.v
Config.v
Types.v
IntUtil.v
Varint.v
Keccak.v
Base58.v
FormatUtils.v
CheckDifficulty.v
Currency.v
Difficulty.v
TreeHash.v
Serialization.v
StringTools.v
TransactionExtra.v
Block.v
Limbs.v
Field.v
FieldPow.v
Primes.v
Group.v
Curve.v
Edwards.v
PointCodec.v
ScalarMult.v
BaseTable.v
BasePoint.v
Slide.v
DoubleScalarMult.v
Scalar.v
ScalarSpec.v
HashToPoint.v
GroupOrder.v
Crypto.v
CryptoSpec.v
Signatures.v
RingSignatures.v
CachedTransaction.v
TransactionPool.v
ChainRules.v
BlockchainCache.v
ChainView.v
ChainSplit.v
ChainPush.v
Validation.v
ValidationSpec.v
Ledger.v
PoolValidation.v
Core.v
CoreTree.v
CoreSpec.v
Consensus.v
Mining.v
MiningSpec.v
Startup.v
StartupSpec.v
Addresses.v
Wallet.v
WalletSpec.v
WalletChain.v
WalletSelection.v
