(* ===== verification/Prelude.v ===== *)
(** * Crygcoin: a verification development

    The program is a CryptoNote node, with the libraries its wallets share.  A block refers to
    its predecessor and carries a coinbase and transactions; a transaction spends outputs that
    it hides in rings of other outputs, each spent output being marked by its key image.  The
    node keeps a tree of chains, follows the one with the most work, and holds waiting
    transactions in a pool.  Paths below are relative to src/src.

    ** Parts, files and how they correspond to the code

    Every file has one Module of its name.  Definitions keep the names of the functions and
    members they translate.

    - Machine integers and generic lemmas: this file.  [wrap], [u32], [u64], [swrap] write out the
      widths; [result], [rbind] and [let!] are the error monad of all components.
    - Constants and data: [Config] (config/CryptoNoteConfig.h), [Types] (CryptoNote.h).
    - Bytes and text: [IntUtil] (Common/int-util.h), [Varint] (Common/Varint.h, StreamTools.cpp),
      [Base58] (Common/Base58.cpp), [StringTools] (Common/StringTools), [Serialization] and [Block]
      (CryptoNoteCore/CryptoNoteSerialization.cpp, CachedBlock.cpp, the serializers of
      Serialization/), [TransactionExtra].
    - Hashes: [Keccak] (crypto/keccak.c), [TreeHash] (crypto/tree-hash.c), [CheckDifficulty].  The
      class [FastHash] is what the others use of cn_fast_hash: 32 bytes for every input; keccak
      is an instance.
    - Curve arithmetic (crypto/crypto-ops.c, crypto-ops-data.c): [Limbs], [Field], [FieldPow] for fe_*;
      [Primes], [Group], [Curve] for the specification, the group of points of the curve 25519;
      [Edwards], [PointCodec], [ScalarMult], [BaseTable], [BasePoint], [Slide], [DoubleScalarMult],
      [HashToPoint], [GroupOrder] for ge_*; [Scalar], [ScalarSpec] for sc_*.
    - Keys and signatures (crypto/crypto.cpp): [Crypto], with [CryptoSpec], [Signatures] and
      [RingSignatures] for what they mean.
    - Rules of the currency: [FormatUtils], [Currency], [Difficulty], [ChainRules] (Checkpoints.cpp,
      UpgradeManager.cpp), [CachedTransaction] (with TransactionValidatiorState.cpp and Mixins.h).
    - The pool: [TransactionPool] (TransactionPool.cpp, TransactionPoolCleaner.cpp).
    - A chain: [BlockchainCache] (BlockchainCache.cpp); a cache is the list of a segment and its
      parents.  [ChainView], [ChainSplit], [ChainPush] relate it to one list of blocks.
    - The node (Core.cpp): [Validation] and [ValidationSpec] for what is accepted, [Ledger] for the
      meaning of an accepted chain, [PoolValidation] for the pool beside the chain, [Core] with
      [CoreTree], [CoreSpec] and [Consensus] for the tree of chains, [Mining] and [MiningSpec] for block
      templates, [Startup] and [StartupSpec] for the start of a node from its storage.
    - Wallets: [Addresses] (Utilities/Addresses.cpp) for account addresses as text; [Wallet]
      (SubWallets/, WalletBackend/WalletSynchronizer.cpp, SynchronizationStatus.cpp) for the
      subwallets and the scanning of blocks, with [WalletSpec], [WalletChain] and
      [WalletSelection] for what they mean.  Here too the answers of the daemon are arguments.

    An effect of the source is explicit: the state is passed, an exception is an [Err] value with
    its kind, undefined behaviour (a failed assertion where [ndebug] is false, a null or end
    pointer, signed overflow) is [Undefined] or [None].  The clock and random bytes are arguments.

    ** What the theorems show

    - Consensus: in every state a node reaches from its genesis block, the main chain has the
      most work, the marks of main segments are exact, and on no chain a key image is spent
      twice; supply and spent tests are those of the ledger, whose entries are the blocks that
      have arrived and that the chain stores, the class [Arrived] of [Ledger] ([reachable_consensus],
      [no_double_spend], [block_extends_ledger]).  addBlock keeps the tree sound on every branch
      ([block_tree_sound]) and adds a block that passes the checks wherever it belongs, except
      inside a database segment with children, where it fails ([checked_block_added]); the
      storage of raw blocks follows ([main_storage_follows], with its exact limit in
      [storage_switch_exact]); a restart rebuilds the chain ([load_restores]).
    - Validation: an accepted transaction meets a declarative specification, and one that does
      is accepted unless its ring offsets wrap around ([transaction_validation_exact]); above the
      checkpoints the pool holds only what the chain has not spent ([pool_follows_chain],
      [pool_invariant], [pool_clean_exact]).
    - Mining: the coinbase mints the reward and belongs to the miner, the template fits and
      passes the checks of addBlock ([miner_transaction_correct], [block_template_consistent],
      [mined_template_passes]).
    - Wallets: scanning finds exactly the outputs made for the wallet ([wallet_finds_outputs]);
      in every run, over blocks, forks, sent and cancelled transactions, the wallet has exactly
      the inputs that the scanned blocks bring it, and if every one-time key comes once, it holds
      as unspent what the chain does not spend ([wallet_follows_chain]); an amount is found
      exactly when the unlocked balance covers it ([wallet_selection_exact]).  Where the
      code falls short of this is exact too: what a fork leaves behind ([wallet_rollback_exact])
      and what follows a missing answer of the daemon ([missing_indexes_stop]).
    - Segments: pushing, splitting and all queries of a cache refine operations on one list
      ([cache_push_refines], [cache_split_preserves], [cache_queries_refine]).
    - Cryptography: limb arithmetic never overflows within its bounds and computes in the field
      and modulo the group order; point operations, scalar multiplications and codecs compute
      in the group of the curve; signatures, ring signatures and stealth addresses satisfy and
      decide their equations ([field_arithmetic_correct], [scalar_arithmetic_correct],
      [point_operations_refine], [ring_check_exact], [ring_signature_complete] and others).
    - Codecs and hashes: parsers accept exactly what the writers produce; Merkle branches and
      merge-mining commitments bind; Keccak is the FIPS 202 permutation.
    - Rules: emission stays below the money supply; difficulty stays within its limits.

    Hypotheses are of four kinds: ranges the C++ types and the configuration guarantee; the room
    that counters of 16, 32 and 64 bits leave, and transaction hashes that are not repeated
    ([room], [fits], [admissible]); for a block below the last checkpoint, whose inputs the code
    does not check, that its key images are new ([room_zone], [fits_zone]); and for a wallet, that
    the daemon sends the blocks of a chain which spends no key image twice ([next_block]) and
    that forks find nothing locked or undone ([clean_fork]).

    ** Bounds and fuel

    Loops that are not structural have fuel, and the theorems show that it suffices: 21 digits
    for a 64-bit amount; the length of the input for parsers; the number of objects of the heap
    for a walk over parents, which ends in a heap without cycles, an invariant of [CoreTree]; the
    length of the range for the bisection of findCommonRoot; ten tries, as in the source, for
    the coinbase of a template.

    ** Not modelled

    - The slow hashes (crypto/slow-hash.c and the finalists) are parameters of the proof-of-work
      check: they are written in intrinsics and assembly, and no property here depends on them.
    - DatabaseBlockchainCache keeps the data of a segment in RocksDB; what it stores is taken to
      be what the in-memory class stores.  The root of the tree is of this class, as in the
      daemon: its links to parent and children, its split and its load are modelled as they are.
    - The files and programs of the wallets, the JSON and key-value codecs, peer-to-peer and RPC
      servers, threads and event loops: input and output around the parts above.  Of the wallets
      also the fusion inputs, which are chosen by logarithms on double.
    - Core's answers to wallets and peers, getRandomOutsByAmount (its result is random), and the
      notification of observers: they read the state and do not change it.
    - Core::save and the merging of segments before it: they run once, when the node stops, to
      write the database. *)

From stdpp Require Export base tactics option list numbers gmap strings sorting.
From Stdlib Require Export ZArith Lia.

#[global] Open Scope Z_scope.

(** ** Machine integers

    An unsigned integer of width [w] is a [Z] in [0, 2^w); every operation
    of the source that can leave the range is followed by [wrap]. *)

Declare Scope machine_scope.
Delimit Scope machine_scope with mach.

Definition wrap (w z : Z) : Z := z mod 2 ^ w.

Notation u8 := (wrap 8).
Notation u16 := (wrap 16).
Notation u32 := (wrap 32).
Notation u64 := (wrap 64).

(** Conversion of the unsigned pattern to the two's complement value. *)
Definition swrap (w z : Z) : Z :=
  let m := z mod 2 ^ w in if m <? 2 ^ (w - 1) then m else m - 2 ^ w.

Notation s8 := (swrap 8).
Notation s32 := (swrap 32).
Notation s64 := (swrap 64).

Definition in_u (w z : Z) : Prop := 0 <= z < 2 ^ w.
Definition in_s (w z : Z) : Prop := - 2 ^ (w - 1) <= z < 2 ^ (w - 1).

Notation "x '∈u' w" := (in_u w x) (at level 70) : machine_scope.
Open Scope machine_scope.

#[global] Instance in_u_dec w z : Decision (in_u w z).
Proof. unfold in_u. apply _. Defined.

#[global] Instance in_s_dec w z : Decision (in_s w z).
Proof. unfold in_s. apply _. Defined.

Create HintDb mach.

Lemma wrap_small w z : in_u w z -> wrap w z = z.
Proof. intros H. apply Z.mod_small, H. Qed.

Lemma wrap_range w z : 0 <= w -> in_u w (wrap w z).
Proof. intros H. apply Z.mod_pos_bound, Z.pow_pos_nonneg; lia. Qed.

Lemma wrap_wrap w z : wrap w (wrap w z) = wrap w z.
Proof. unfold wrap. apply Zmod_mod. Qed.

Lemma in_u_mono w w' z : w <= w' -> in_u w z -> in_u w' z.
Proof.
  intros Hle [H1 H2]. split; [done|].
  eapply Z.lt_le_trans; [done|]. apply Z.pow_le_mono_r; lia.
Qed.

Lemma swrap_mod w z : 0 < w -> swrap w (z mod 2 ^ w) = swrap w z.
Proof.
  intros Hw; unfold swrap; rewrite Z.mod_mod; [done|].
  apply Z.pow_nonzero; lia.
Qed.

Lemma swrap_small w z : 0 < w -> in_s w z -> swrap w z = z.
Proof.
  intros Hw [H1 H2]. unfold swrap.
  assert (Hp : 2 ^ w = 2 * 2 ^ (w - 1)).
  { rewrite <- Z.pow_succ_r by lia. f_equal. lia. }
  assert (0 < 2 ^ (w - 1)) by (apply Z.pow_pos_nonneg; lia).
  destruct (decide (0 <= z)).
  - rewrite Z.mod_small by lia. destruct (Z.ltb_spec z (2 ^ (w - 1))); lia.
  - replace (z mod 2 ^ w) with (z + 2 ^ w).
    + destruct (Z.ltb_spec (z + 2 ^ w) (2 ^ (w - 1))); lia.
    + apply (Z.mod_unique_pos z (2 ^ w) (-1)); lia.
Qed.

#[export] Hint Resolve wrap_range : mach.

(** Normalises the constants [2 ^ k] and unfolds range predicates, then
    calls [lia]. *)
Ltac zpow_norm :=
  repeat match goal with
  | |- context [2 ^ ?k] =>
      lazymatch k with
      | Z0 => change (2 ^ 0) with 1
      | Zpos _ => let v := eval vm_compute in (2 ^ k) in change (2 ^ k) with v
      end
  | H : context [2 ^ ?k] |- _ =>
      lazymatch k with
      | Z0 => change (2 ^ 0) with 1 in H
      | Zpos _ => let v := eval vm_compute in (2 ^ k) in change (2 ^ k) with v in H
      end
  end.

(** Evaluates sums and differences of literals. *)
Ltac zlit_norm :=
  repeat match goal with
  | |- context [Zpos ?a + Zpos ?b] =>
      let v := eval vm_compute in (Zpos a + Zpos b) in change (Zpos a + Zpos b) with v
  | |- context [Zpos ?a - Zpos ?b] =>
      let v := eval vm_compute in (Zpos a - Zpos b) in change (Zpos a - Zpos b) with v
  | H : context [Zpos ?a + Zpos ?b] |- _ =>
      let v := eval vm_compute in (Zpos a + Zpos b) in change (Zpos a + Zpos b) with v in H
  | H : context [Zpos ?a - Zpos ?b] |- _ =>
      let v := eval vm_compute in (Zpos a - Zpos b) in change (Zpos a - Zpos b) with v in H
  end.

Ltac ranges := unfold in_u, in_s in *; zpow_norm.

Ltac mlia := ranges; lia.

(** Eliminates every [wrap] whose argument is in range. *)
Ltac unwrap :=
  repeat match goal with
  | |- context [wrap ?w ?z] => rewrite (wrap_small w z) by (solve [mlia])
  | H : context [wrap ?w ?z] |- _ => rewrite (wrap_small w z) in H by (solve [mlia])
  end.

(** ** Bits and bytes *)

(** Conjunctions of closed (in)equalities, by evaluation. *)
Ltac closed_arith :=
  vm_compute; repeat match goal with |- _ /\ _ => split end;
  first [reflexivity | congruence | done].

Lemma land_low_shiftl w a b : 0 <= w -> in_u w a -> Z.land a (Z.shiftl b w) = 0.
Proof.
  intros Hw [Ha0 Ha]. apply Z.bits_inj'. intros n Hn.
  rewrite Z.land_spec, Z.bits_0, Z.shiftl_spec by done.
  destruct (decide (n < w)).
  - rewrite (Z.testbit_neg_r b) by lia. apply andb_false_r.
  - rewrite (proj1 (Z.bounded_iff_bits_nonneg w a Hw Ha0) Ha n) by lia. done.
Qed.

Lemma in_u_lor w a b : 0 <= w -> in_u w a -> in_u w b -> in_u w (Z.lor a b).
Proof.
  intros Hw [Ha Ha'] [Hb Hb']. split; [by apply Z.lor_nonneg|].
  apply Z.bounded_iff_bits_nonneg; [done|by apply Z.lor_nonneg|]. intros l Hl. rewrite Z.lor_spec.
  by rewrite (proj1 (Z.bounded_iff_bits_nonneg w a Hw Ha) Ha'),
    (proj1 (Z.bounded_iff_bits_nonneg w b Hw Hb) Hb').
Qed.

Lemma in_u_shiftr w a n : 0 <= w -> 0 <= n -> in_u w a -> in_u w (Z.shiftr a n).
Proof.
  intros Hw Hn [Ha Ha']. rewrite Z.shiftr_div_pow2 by done.
  assert (0 < 2 ^ n) by (apply Z.pow_pos_nonneg; lia).
  split; [by apply Z.div_pos|]. eapply Z.le_lt_trans; [|done].
  apply Z.div_le_upper_bound; nia.
Qed.

Lemma in_u_land_r w a b : 0 <= w -> in_u w b -> in_u w (Z.land a b).
Proof.
  intros Hw [Hb Hb']. assert (0 <= Z.land a b) by (apply Z.land_nonneg; by right).
  split; [done|]. apply Z.bounded_iff_bits_nonneg; [done|done|]. intros l Hl. rewrite Z.land_spec.
  rewrite (proj1 (Z.bounded_iff_bits_nonneg w b Hw Hb) Hb') by done. apply andb_false_r.
Qed.

Lemma in_u_lxor w a b : 0 <= w -> in_u w a -> in_u w b -> in_u w (Z.lxor a b).
Proof.
  intros Hw [Ha Ha'] [Hb Hb']. assert (0 <= Z.lxor a b) by (apply Z.lxor_nonneg; lia).
  split; [done|]. apply Z.bounded_iff_bits_nonneg; [done|done|]. intros l Hl. rewrite Z.lxor_spec.
  by rewrite (proj1 (Z.bounded_iff_bits_nonneg w a Hw Ha) Ha'),
    (proj1 (Z.bounded_iff_bits_nonneg w b Hw Hb) Hb').
Qed.

#[export] Hint Resolve in_u_lor in_u_lxor in_u_land_r in_u_shiftr : mach.

(** Disjoint bit fields: or is addition. *)
Lemma lor_shiftl_add w a b : 0 <= w -> in_u w a -> Z.lor a (Z.shiftl b w) = a + b * 2 ^ w.
Proof.
  intros Hw Ha. rewrite <- Z.shiftl_mul_pow2 by done.
  symmetry. apply Z.add_nocarry_lor. by apply land_low_shiftl.
Qed.

Lemma lor_shiftl_add_l w a b : 0 <= w -> in_u w a -> Z.lor (Z.shiftl b w) a = b * 2 ^ w + a.
Proof. intros. rewrite Z.lor_comm, lor_shiftl_add by done. lia. Qed.

(** The [n] little-endian bytes of [z], and the value of a list of bytes:
    the object representation of an integer on the (little-endian) target. *)
Fixpoint le_bytes (n : nat) (z : Z) : list Z :=
  match n with
  | O => []
  | S n => z mod 256 :: le_bytes n (z / 256)
  end.

Fixpoint le_val (bs : list Z) : Z :=
  match bs with
  | [] => 0
  | b :: bs => b + 256 * le_val bs
  end.

Abbreviation is_byte := (in_u 8).

Lemma le_bytes_length n z : length (le_bytes n z) = n.
Proof. revert z. induction n; simpl; auto. Qed.

Lemma le_bytes_range n z : Forall is_byte (le_bytes n z).
Proof.
  revert z. induction n as [|n IH]; intros z; simpl; constructor; [|apply IH].
  apply Z.mod_pos_bound. lia.
Qed.

Lemma pow256_S (n : nat) : 256 ^ Z.of_nat (S n) = 256 * 256 ^ Z.of_nat n.
Proof. rewrite Nat2Z.inj_succ. apply Z.pow_succ_r. lia. Qed.

Lemma pow256_pos (n : nat) : 0 < 256 ^ Z.of_nat n.
Proof. apply Z.pow_pos_nonneg; lia. Qed.

Lemma le_val_le_bytes n z : le_val (le_bytes n z) = z mod 256 ^ Z.of_nat n.
Proof.
  revert z. induction n as [|n IH]; intros z.
  - cbn. by rewrite Z.mod_1_r.
  - cbn [le_bytes le_val]. rewrite IH, pow256_S.
    rewrite Z.rem_mul_r by (pose proof (pow256_pos n); lia). done.
Qed.

Lemma le_val_range bs : Forall is_byte bs -> 0 <= le_val bs < 256 ^ Z.of_nat (length bs).
Proof.
  induction 1 as [|b bs Hb _ IH]; cbn [le_val length]; [cbn; lia|].
  rewrite pow256_S. ranges. lia.
Qed.

Lemma le_bytes_le_val bs : Forall is_byte bs -> le_bytes (length bs) (le_val bs) = bs.
Proof.
  induction 1 as [|b bs Hb _ IH]; cbn [le_val length le_bytes]; [done|]. ranges.
  rewrite (Z.mul_comm 256), Z_mod_plus_full, Z.div_add, (Z.div_small b), (Z.mod_small b) by lia.
  by rewrite Z.add_0_l, IH.
Qed.

Lemma le_val_app l1 l2 : le_val (l1 ++ l2) = le_val l1 + 256 ^ Z.of_nat (length l1) * le_val l2.
Proof.
  induction l1 as [|b l1 IH]; cbn [le_val app length]; [cbn; lia|]. rewrite IH, pow256_S. lia.
Qed.

Lemma map_reverse {A B} (f : A -> B) l : map f (reverse l) = reverse (map f l).
Proof. unfold reverse. by rewrite <- !rev_alt, map_rev. Qed.

(** Two folds whose steps agree on an invariant agree, and keep it. *)
Lemma fold_left_agree {A B} (f g : A -> B -> A) (P : A -> Prop) l a :
  (forall a b, P a -> f a b = g a b /\ P (f a b)) -> P a ->
  fold_left f l a = fold_left g l a /\ P (fold_left f l a).
Proof.
  intros H. revert a. induction l as [|b l IH]; intros a Ha; [done|]. cbn.
  destruct (H a b Ha) as [E Hb]. rewrite <- E. by apply IH.
Qed.

(** A property of all [i] below a literal bound holds if it holds of each. *)
Lemma all_below (n : nat) (P : Z -> Prop) :
  Forall P (seqZ 0 (Z.of_nat n)) -> forall i, 0 <= i < Z.of_nat n -> P i.
Proof. intros H i Hi. rewrite Forall_forall in H. apply H, elem_of_seqZ. lia. Qed.

(** Filters that keep everything or nothing. *)
Lemma list_filter_all {A} (P : A -> Prop) `{forall x, Decision (P x)} l : Forall P l -> filter P l = l.
Proof. induction 1 as [|x l Hx _ IH]; [done|]; rewrite filter_cons_True by done; by rewrite IH. Qed.

Lemma list_filter_none {A} (P : A -> Prop) `{forall x, Decision (P x)} l :
  Forall (fun x => ~ P x) l -> filter P l = [].
Proof. induction 1 as [|x l Hx _ IH]; [done|]; by rewrite filter_cons_False. Qed.

(** ** Errors

    The outcome of a fallible operation: a value, or the error the source
    returns or throws. *)

Inductive result (E A : Type) : Type :=
| Ok (a : A)
| Err (e : E).
Arguments Ok {E A} a.
Arguments Err {E A} e.

Definition rbind {E A B} (m : result E A) (k : A -> result E B) : result E B :=
  match m with Ok a => k a | Err e => Err e end.

Definition is_Ok {E A} (m : result E A) : bool :=
  match m with Ok _ => true | Err _ => false end.

Declare Scope result_scope.
Delimit Scope result_scope with res.
Notation "'let!' x := m 'in' k" := (rbind m (fun x => k))
  (at level 200, x pattern, m at level 100, k at level 200) : result_scope.
Open Scope result_scope.

Lemma rbind_Ok {E A B} (m : result E A) (k : A -> result E B) b :
  rbind m k = Ok b <-> exists a, m = Ok a /\ k a = Ok b.
Proof. destruct m; simpl; split; [eauto|intros (? & [= ->] & ?)|done|intros (? & [=] & _)]; done. Qed.
