(* ===== verification/Config.v ===== *)
(** Constants of src/src/config/CryptoNoteConfig.h, under the names the code
    gives them.  Every value is a non-negative integer that fits its declared C
    type ([config_ranges] checks the width of each). *)

From S2P Require Import Prelude.

Module parameters.

Definition DIFFICULTY_TARGET : Z := 30.
Definition CRYPTONOTE_MAX_BLOCK_NUMBER : Z := 500000000.
Definition CRYPTONOTE_MAX_BLOCK_BLOB_SIZE : Z := 500000000.
Definition CRYPTONOTE_MAX_TX_SIZE : Z := 1000000000.
Definition CRYPTONOTE_PUBLIC_ADDRESS_BASE58_PREFIX : Z := 3728339.
Definition CRYPTONOTE_MINED_MONEY_UNLOCK_WINDOW : Z := 40.
Definition CRYPTONOTE_BLOCK_FUTURE_TIME_LIMIT : Z := 60 * 60 * 2.
Definition CRYPTONOTE_BLOCK_FUTURE_TIME_LIMIT_V3 : Z := 3 * DIFFICULTY_TARGET.
Definition CRYPTONOTE_BLOCK_FUTURE_TIME_LIMIT_V4 : Z := 6 * DIFFICULTY_TARGET.
Definition BLOCKCHAIN_TIMESTAMP_CHECK_WINDOW : Z := 60.
Definition BLOCKCHAIN_TIMESTAMP_CHECK_WINDOW_V3 : Z := 11.
Definition MONEY_SUPPLY : Z := 100000000000.
Definition ZAWY_DIFFICULTY_BLOCK_INDEX : Z := 187000.
Definition ZAWY_DIFFICULTY_V2 : Z := 0.
Definition ZAWY_DIFFICULTY_DIFFICULTY_BLOCK_VERSION : Z := 3.
Definition LWMA_2_DIFFICULTY_BLOCK_INDEX : Z := 620000.
Definition LWMA_2_DIFFICULTY_BLOCK_INDEX_V2 : Z := 700000.
Definition LWMA_2_DIFFICULTY_BLOCK_INDEX_V3 : Z := 800000.
Definition EMISSION_SPEED_FACTOR : Z := 25.
Definition GENESIS_BLOCK_REWARD : Z := 15000000000.
Definition GENESIS_BLOCK_TIMESTAMP : Z := 1557660201.
Definition CRYPTONOTE_REWARD_BLOCKS_WINDOW : Z := 100.
Definition CRYPTONOTE_BLOCK_GRANTED_FULL_REWARD_ZONE : Z := 100000.
Definition CRYPTONOTE_BLOCK_GRANTED_FULL_REWARD_ZONE_V2 : Z := 20000.
Definition CRYPTONOTE_BLOCK_GRANTED_FULL_REWARD_ZONE_V1 : Z := 10000.
Definition CRYPTONOTE_BLOCK_GRANTED_FULL_REWARD_ZONE_CURRENT : Z := CRYPTONOTE_BLOCK_GRANTED_FULL_REWARD_ZONE.
Definition CRYPTONOTE_COINBASE_BLOB_RESERVED_SIZE : Z := 600.
Definition CRYPTONOTE_DISPLAY_DECIMAL_POINT : Z := 2.
Definition MINIMUM_FEE : Z := 10.
Definition MINIMUM_MIXIN_V1 : Z := 0.
Definition MAXIMUM_MIXIN_V1 : Z := 100.
Definition MINIMUM_MIXIN_V2 : Z := 7.
Definition MAXIMUM_MIXIN_V2 : Z := 7.
Definition MINIMUM_MIXIN_V3 : Z := 3.
Definition MAXIMUM_MIXIN_V3 : Z := 3.
Definition MIXIN_LIMITS_V1_HEIGHT : Z := 440000.
Definition MIXIN_LIMITS_V2_HEIGHT : Z := 620000.
Definition MIXIN_LIMITS_V3_HEIGHT : Z := 800000.
Definition DEFAULT_MIXIN_V0 : Z := 3.
Definition DEFAULT_MIXIN_V1 : Z := MAXIMUM_MIXIN_V1.
Definition DEFAULT_MIXIN_V2 : Z := MAXIMUM_MIXIN_V2.
Definition DEFAULT_MIXIN_V3 : Z := MAXIMUM_MIXIN_V3.
Definition DEFAULT_DUST_THRESHOLD : Z := 10.
Definition DEFAULT_DUST_THRESHOLD_V2 : Z := 0.
Definition DUST_THRESHOLD_V2_HEIGHT : Z := MIXIN_LIMITS_V2_HEIGHT.
Definition FUSION_DUST_THRESHOLD_HEIGHT_V2 : Z := 800000.
Definition EXPECTED_NUMBER_OF_BLOCKS_PER_DAY : Z := 24 * 60 * 60 / DIFFICULTY_TARGET.
Definition DIFFICULTY_WINDOW : Z := 17.
Definition DIFFICULTY_WINDOW_V1 : Z := 2880.
Definition DIFFICULTY_WINDOW_V2 : Z := 2880.
Definition DIFFICULTY_WINDOW_V3 : Z := 51103.
Definition DIFFICULTY_BLOCKS_COUNT_V3 : Z := DIFFICULTY_WINDOW_V3 + 1.
Definition DIFFICULTY_CUT : Z := 0.
Definition DIFFICULTY_CUT_V1 : Z := 60.
Definition DIFFICULTY_CUT_V2 : Z := 60.
Definition DIFFICULTY_LAG : Z := 0.
Definition DIFFICULTY_LAG_V1 : Z := 15.
Definition DIFFICULTY_LAG_V2 : Z := 15.
Definition MAX_BLOCK_SIZE_INITIAL : Z := 100000.
Definition MAX_BLOCK_SIZE_GROWTH_SPEED_NUMERATOR : Z := 100 * 1024.
Definition MAX_BLOCK_SIZE_GROWTH_SPEED_DENOMINATOR : Z := 365 * 24 * 60 * 60 / DIFFICULTY_TARGET.
Definition MAX_EXTRA_SIZE : Z := 140000.
Definition MAX_EXTRA_SIZE_V2 : Z := 1024.
Definition MAX_EXTRA_SIZE_V2_HEIGHT : Z := 1300000.
Definition TRANSACTION_SIGNATURE_COUNT_VALIDATION_HEIGHT : Z := 1400000.
Definition CRYPTONOTE_LOCKED_TX_ALLOWED_DELTA_BLOCKS : Z := 1.
Definition CRYPTONOTE_LOCKED_TX_ALLOWED_DELTA_SECONDS : Z := DIFFICULTY_TARGET * CRYPTONOTE_LOCKED_TX_ALLOWED_DELTA_BLOCKS.
Definition CRYPTONOTE_MEMPOOL_TX_LIVETIME : Z := 60 * 60 * 24.
Definition CRYPTONOTE_MEMPOOL_TX_FROM_ALT_BLOCK_LIVETIME : Z := 60 * 60 * 24 * 7.
Definition CRYPTONOTE_NUMBER_OF_PERIODS_TO_FORGET_TX_DELETED_FROM_POOL : Z := 7.
Definition FUSION_TX_MAX_SIZE : Z := CRYPTONOTE_BLOCK_GRANTED_FULL_REWARD_ZONE_CURRENT * 30 / 100.
Definition FUSION_TX_MIN_INPUT_COUNT : Z := 12.
Definition FUSION_TX_MIN_IN_OUT_COUNT_RATIO : Z := 4.
Definition UPGRADE_HEIGHT_V2 : Z := 1.
Definition UPGRADE_HEIGHT_V3 : Z := 2.
Definition UPGRADE_HEIGHT_V4 : Z := 3.
Definition UPGRADE_HEIGHT_V5 : Z := 4.
Definition UPGRADE_VOTING_THRESHOLD : Z := 90.
Definition UPGRADE_VOTING_WINDOW : Z := EXPECTED_NUMBER_OF_BLOCKS_PER_DAY.
Definition UPGRADE_WINDOW : Z := EXPECTED_NUMBER_OF_BLOCKS_PER_DAY.

End parameters.

Import parameters.

Definition TRANSACTION_VERSION_1 : Z := 1.
Definition TRANSACTION_VERSION_2 : Z := 2.
Definition CURRENT_TRANSACTION_VERSION : Z := TRANSACTION_VERSION_1.
Definition BLOCK_MAJOR_VERSION_1 : Z := 1.
Definition BLOCK_MAJOR_VERSION_2 : Z := 2.
Definition BLOCK_MAJOR_VERSION_3 : Z := 3.
Definition BLOCK_MAJOR_VERSION_4 : Z := 4.
Definition BLOCK_MAJOR_VERSION_5 : Z := 5.
Definition BLOCK_MINOR_VERSION_0 : Z := 0.
Definition BLOCK_MINOR_VERSION_1 : Z := 1.

Definition GENESIS_COINBASE_TX_HEX : string :=
  "012801ff000180acc7f037025ed503b88623a9a460e4d2e950bce65435ce62a6611bfc58a6bc9c9cebd25bde21012494553a6d2cf9a7d801ace0ea35069524efe788b77c1c8a3dda35671554c529".

(** Each constant with the width of its C type. *)
Definition config_widths : list (Z * Z) :=
  [(64, DIFFICULTY_TARGET);
   (32, CRYPTONOTE_MAX_BLOCK_NUMBER);
   (64, CRYPTONOTE_MAX_BLOCK_BLOB_SIZE);
   (64, CRYPTONOTE_MAX_TX_SIZE);
   (64, CRYPTONOTE_PUBLIC_ADDRESS_BASE58_PREFIX);
   (32, CRYPTONOTE_MINED_MONEY_UNLOCK_WINDOW);
   (64, CRYPTONOTE_BLOCK_FUTURE_TIME_LIMIT);
   (64, CRYPTONOTE_BLOCK_FUTURE_TIME_LIMIT_V3);
   (64, CRYPTONOTE_BLOCK_FUTURE_TIME_LIMIT_V4);
   (64, BLOCKCHAIN_TIMESTAMP_CHECK_WINDOW);
   (64, BLOCKCHAIN_TIMESTAMP_CHECK_WINDOW_V3);
   (64, MONEY_SUPPLY);
   (32, ZAWY_DIFFICULTY_BLOCK_INDEX);
   (64, ZAWY_DIFFICULTY_V2);
   (8, ZAWY_DIFFICULTY_DIFFICULTY_BLOCK_VERSION);
   (64, LWMA_2_DIFFICULTY_BLOCK_INDEX);
   (64, LWMA_2_DIFFICULTY_BLOCK_INDEX_V2);
   (64, LWMA_2_DIFFICULTY_BLOCK_INDEX_V3);
   (32, EMISSION_SPEED_FACTOR);
   (64, GENESIS_BLOCK_REWARD);
   (64, GENESIS_BLOCK_TIMESTAMP);
   (64, CRYPTONOTE_REWARD_BLOCKS_WINDOW);
   (64, CRYPTONOTE_BLOCK_GRANTED_FULL_REWARD_ZONE);
   (64, CRYPTONOTE_BLOCK_GRANTED_FULL_REWARD_ZONE_V2);
   (64, CRYPTONOTE_BLOCK_GRANTED_FULL_REWARD_ZONE_V1);
   (64, CRYPTONOTE_BLOCK_GRANTED_FULL_REWARD_ZONE_CURRENT);
   (64, CRYPTONOTE_COINBASE_BLOB_RESERVED_SIZE);
   (64, CRYPTONOTE_DISPLAY_DECIMAL_POINT);
   (64, MINIMUM_FEE);
   (64, MINIMUM_MIXIN_V1);
   (64, MAXIMUM_MIXIN_V1);
   (64, MINIMUM_MIXIN_V2);
   (64, MAXIMUM_MIXIN_V2);
   (64, MINIMUM_MIXIN_V3);
   (64, MAXIMUM_MIXIN_V3);
   (32, MIXIN_LIMITS_V1_HEIGHT);
   (32, MIXIN_LIMITS_V2_HEIGHT);
   (32, MIXIN_LIMITS_V3_HEIGHT);
   (64, DEFAULT_MIXIN_V0);
   (64, DEFAULT_MIXIN_V1);
   (64, DEFAULT_MIXIN_V2);
   (64, DEFAULT_MIXIN_V3);
   (64, DEFAULT_DUST_THRESHOLD);
   (64, DEFAULT_DUST_THRESHOLD_V2);
   (32, DUST_THRESHOLD_V2_HEIGHT);
   (32, FUSION_DUST_THRESHOLD_HEIGHT_V2);
   (64, EXPECTED_NUMBER_OF_BLOCKS_PER_DAY);
   (64, DIFFICULTY_WINDOW);
   (64, DIFFICULTY_WINDOW_V1);
   (64, DIFFICULTY_WINDOW_V2);
   (64, DIFFICULTY_WINDOW_V3);
   (64, DIFFICULTY_BLOCKS_COUNT_V3);
   (64, DIFFICULTY_CUT);
   (64, DIFFICULTY_CUT_V1);
   (64, DIFFICULTY_CUT_V2);
   (64, DIFFICULTY_LAG);
   (64, DIFFICULTY_LAG_V1);
   (64, DIFFICULTY_LAG_V2);
   (64, MAX_BLOCK_SIZE_INITIAL);
   (64, MAX_BLOCK_SIZE_GROWTH_SPEED_NUMERATOR);
   (64, MAX_BLOCK_SIZE_GROWTH_SPEED_DENOMINATOR);
   (64, MAX_EXTRA_SIZE);
   (64, MAX_EXTRA_SIZE_V2);
   (64, MAX_EXTRA_SIZE_V2_HEIGHT);
   (64, TRANSACTION_SIGNATURE_COUNT_VALIDATION_HEIGHT);
   (64, CRYPTONOTE_LOCKED_TX_ALLOWED_DELTA_BLOCKS);
   (64, CRYPTONOTE_LOCKED_TX_ALLOWED_DELTA_SECONDS);
   (64, CRYPTONOTE_MEMPOOL_TX_LIVETIME);
   (64, CRYPTONOTE_MEMPOOL_TX_FROM_ALT_BLOCK_LIVETIME);
   (64, CRYPTONOTE_NUMBER_OF_PERIODS_TO_FORGET_TX_DELETED_FROM_POOL);
   (64, FUSION_TX_MAX_SIZE);
   (64, FUSION_TX_MIN_INPUT_COUNT);
   (64, FUSION_TX_MIN_IN_OUT_COUNT_RATIO);
   (32, UPGRADE_HEIGHT_V2);
   (32, UPGRADE_HEIGHT_V3);
   (32, UPGRADE_HEIGHT_V4);
   (32, UPGRADE_HEIGHT_V5);
   (32, UPGRADE_VOTING_THRESHOLD);
   (32, UPGRADE_VOTING_WINDOW);
   (32, UPGRADE_WINDOW);
   (8, TRANSACTION_VERSION_1);
   (8, TRANSACTION_VERSION_2);
   (8, CURRENT_TRANSACTION_VERSION);
   (8, BLOCK_MAJOR_VERSION_1);
   (8, BLOCK_MAJOR_VERSION_2);
   (8, BLOCK_MAJOR_VERSION_3);
   (8, BLOCK_MAJOR_VERSION_4);
   (8, BLOCK_MAJOR_VERSION_5);
   (8, BLOCK_MINOR_VERSION_0);
   (8, BLOCK_MINOR_VERSION_1)].

Lemma config_ranges : Forall (fun p => in_u (fst p) (snd p)) config_widths.
Proof. repeat first [apply List.Forall_nil | apply List.Forall_cons]; vm_compute; split; congruence. Qed.
