(* ===== verification/Types.v ===== *)
(** Data types of src/include/CryptoNote.h and src/include/CryptoTypes.h.

    Hashes, keys, key images and signatures are byte strings ([list Z] with
    every element in [0, 255]); their sizes are part of the well-formedness
    predicates, as the C++ types are fixed-size arrays.  boost::variant becomes
    an inductive type with one constructor per alternative.  A C++ subclass
    ([Transaction : TransactionPrefix]) is a record with the base as its first
    field and a coercion. *)

From S2P Require Import Prelude.

Abbreviation Hash := (list Z).
Abbreviation PublicKey := (list Z).
Abbreviation SecretKey := (list Z).
Abbreviation KeyDerivation := (list Z).
Abbreviation KeyImage := (list Z).
Abbreviation Signature := (list Z).
Abbreviation BinaryArray := (list Z).

Record KeyInput := mkKeyInput {
  ki_amount : Z;
  ki_outputIndexes : list Z;
  ki_keyImage : KeyImage }.

Inductive TransactionInput :=
  | InBase (blockIndex : Z)
  | InKey (k : KeyInput).

(** boost::variant<KeyOutput> has a single alternative. *)
Inductive TransactionOutputTarget :=
  | OutKey (key : PublicKey).

Record TransactionOutput := mkOutput {
  o_amount : Z;
  o_target : TransactionOutputTarget }.

Record TransactionPrefix := mkPrefix {
  tx_version : Z;
  tx_unlockTime : Z;
  tx_inputs : list TransactionInput;
  tx_outputs : list TransactionOutput;
  tx_extra : BinaryArray }.

Record Transaction := mkTransaction {
  tx_prefix :> TransactionPrefix;
  tx_signatures : list (list Signature) }.

Abbreviation BaseTransaction := TransactionPrefix.

Record ParentBlock := mkParentBlock {
  pb_majorVersion : Z;
  pb_minorVersion : Z;
  pb_previousBlockHash : Hash;
  pb_transactionCount : Z;
  pb_baseTransactionBranch : list Hash;
  pb_baseTransaction : BaseTransaction;
  pb_blockchainBranch : list Hash }.

Record BlockHeader := mkBlockHeader {
  bh_majorVersion : Z;
  bh_minorVersion : Z;
  bh_nonce : Z;
  bh_timestamp : Z;
  bh_previousBlockHash : Hash }.

Record BlockTemplate := mkBlockTemplate {
  bt_header :> BlockHeader;
  bt_parentBlock : ParentBlock;
  bt_baseTransaction : Transaction;
  bt_transactionHashes : list Hash }.

Record AccountPublicAddress := mkAddress {
  spendPublicKey : PublicKey;
  viewPublicKey : PublicKey }.

Record KeyPair := mkKeyPair {
  kp_publicKey : PublicKey;
  kp_secretKey : SecretKey }.

#[export] Instance KeyInput_eq_dec : EqDecision KeyInput.
Proof. solve_decision. Defined.
#[export] Instance TransactionInput_eq_dec : EqDecision TransactionInput.
Proof. solve_decision. Defined.
#[export] Instance TransactionOutputTarget_eq_dec : EqDecision TransactionOutputTarget.
Proof. solve_decision. Defined.
#[export] Instance TransactionOutput_eq_dec : EqDecision TransactionOutput.
Proof. solve_decision. Defined.
#[export] Instance TransactionPrefix_eq_dec : EqDecision TransactionPrefix.
Proof. solve_decision. Defined.
#[export] Instance Transaction_eq_dec : EqDecision Transaction.
Proof. solve_decision. Defined.

(** ** Well-formedness: every field is a value of its C++ type *)

Definition wf_blob (n : nat) (bs : list Z) : Prop :=
  length bs = n /\ Forall is_byte bs.

Abbreviation wf_key := (wf_blob 32).
Abbreviation wf_hash := (wf_blob 32).
Abbreviation wf_signature := (wf_blob 64).

Definition wf_KeyInput (k : KeyInput) : Prop :=
  in_u 64 (ki_amount k) /\ Forall (in_u 32) (ki_outputIndexes k) /\
  wf_key (ki_keyImage k).

Definition wf_input (i : TransactionInput) : Prop :=
  match i with
  | InBase b => in_u 32 b
  | InKey k => wf_KeyInput k
  end.

Definition wf_output (o : TransactionOutput) : Prop :=
  in_u 64 (o_amount o) /\ match o_target o with OutKey k => wf_key k end.

Definition wf_prefix (t : TransactionPrefix) : Prop :=
  in_u 8 (tx_version t) /\ in_u 64 (tx_unlockTime t) /\
  Forall wf_input (tx_inputs t) /\ Forall wf_output (tx_outputs t) /\
  Forall is_byte (tx_extra t).

Definition wf_address (a : AccountPublicAddress) : Prop :=
  wf_key (spendPublicKey a) /\ wf_key (viewPublicKey a).

#[export] Instance wf_blob_dec n bs : Decision (wf_blob n bs).
Proof. unfold wf_blob; apply _. Defined.
#[export] Instance wf_KeyInput_dec k : Decision (wf_KeyInput k).
Proof. unfold wf_KeyInput; apply _. Defined.
#[export] Instance wf_input_dec i : Decision (wf_input i).
Proof. destruct i; simpl; apply _. Defined.
#[export] Instance wf_output_dec o : Decision (wf_output o).
Proof. destruct o as [a [k]]; unfold wf_output; simpl; apply _. Defined.
#[export] Instance wf_prefix_dec t : Decision (wf_prefix t).
Proof. unfold wf_prefix; apply _. Defined.
