(* ===== verification/IntUtil.v ===== *)
(** Fixed-width arithmetic helpers of [src/src/Common/int-util.h]: 64x64 to
    128 bit multiplication, long division of a 128-bit number by a 32-bit
    one, rotations and byte swaps. *)

From S2P Require Import Prelude.

Module IntUtil.

Definition rol32 (x r : Z) : Z :=
  Z.lor (u32 (Z.shiftl x (Z.land r 31))) (Z.shiftr x (Z.land (- r) 31)).

Definition rol64 (x r : Z) : Z :=
  Z.lor (u64 (Z.shiftl x (Z.land r 63))) (Z.shiftr x (Z.land (- r) 63)).

Definition hi_dword (val : Z) : Z := Z.shiftr val 32.

Definition lo_dword (val : Z) : Z := Z.land val 0xFFFFFFFF.

(** Returns the pair (product_lo, product_hi). *)
Definition mul128 (multiplier multiplicand : Z) : Z * Z :=
  let a := hi_dword multiplier in
  let b := lo_dword multiplier in
  let c := hi_dword multiplicand in
  let d := lo_dword multiplicand in
  let ac := u64 (a * c) in
  let ad := u64 (a * d) in
  let bc := u64 (b * c) in
  let bd := u64 (b * d) in
  let adbc := u64 (ad + bc) in
  let adbc_carry := if adbc <? ad then 1 else 0 in
  let product_lo := u64 (bd + u64 (Z.shiftl adbc 32)) in
  let product_lo_carry := if product_lo <? bd then 1 else 0 in
  let product_hi :=
    u64 (ac + Z.shiftr adbc 32 + u64 (Z.shiftl adbc_carry 32) + product_lo_carry) in
  (product_lo, product_hi).

(** [dividend |= remainder << 32] and the two results of the division. *)
Definition div_with_reminder (dividend divisor remainder : Z) : Z * Z :=
  let dividend := Z.lor dividend (Z.shiftl remainder 32) in
  (dividend / divisor, u32 (dividend mod divisor)).

(** Returns (remainder, quotient_hi, quotient_lo). *)
Definition div128_32 (dividend_hi dividend_lo divisor : Z) : Z * Z * Z :=
  let d3 := hi_dword dividend_hi in
  let d2 := lo_dword dividend_hi in
  let d1 := hi_dword dividend_lo in
  let d0 := lo_dword dividend_lo in
  let '(q3, r3) := div_with_reminder d3 divisor 0 in
  let quotient_hi := u64 (Z.shiftl q3 32) in
  let '(q2, r2) := div_with_reminder d2 divisor r3 in
  let quotient_hi := Z.lor quotient_hi q2 in
  let '(q1, r1) := div_with_reminder d1 divisor r2 in
  let quotient_lo := u64 (Z.shiftl q1 32) in
  let '(q0, r0) := div_with_reminder d0 divisor r1 in
  let quotient_lo := Z.lor quotient_lo q0 in
  (r0, quotient_hi, quotient_lo).

Definition SWAP64 (x : Z) : Z :=
  Z.lor (Z.lor (Z.lor (Z.lor (Z.lor (Z.lor (Z.lor
    (u64 (Z.shiftl (Z.land x 0x00000000000000ff) 56))
    (u64 (Z.shiftl (Z.land x 0x000000000000ff00) 40)))
    (u64 (Z.shiftl (Z.land x 0x0000000000ff0000) 24)))
    (u64 (Z.shiftl (Z.land x 0x00000000ff000000) 8)))
    (Z.shiftr (Z.land x 0x000000ff00000000) 8))
    (Z.shiftr (Z.land x 0x0000ff0000000000) 24))
    (Z.shiftr (Z.land x 0x00ff000000000000) 40))
    (Z.shiftr (Z.land x 0xff00000000000000) 56).

Definition swap32 (x : Z) : Z :=
  let x := Z.lor (u32 (Z.shiftl (Z.land x 0x00ff00ff) 8)) (Z.shiftr (Z.land x 0xff00ff00) 8) in
  Z.lor (u32 (Z.shiftl x 16)) (Z.shiftr x 16).

Definition swap64 (x : Z) : Z :=
  let x := Z.lor (u64 (Z.shiftl (Z.land x 0x00ff00ff00ff00ff) 8))
                 (Z.shiftr (Z.land x 0xff00ff00ff00ff00) 8) in
  let x := Z.lor (u64 (Z.shiftl (Z.land x 0x0000ffff0000ffff) 16))
                 (Z.shiftr (Z.land x 0xffff0000ffff0000) 16) in
  Z.lor (u64 (Z.shiftl x 32)) (Z.shiftr x 32).

(** [BYTE_ORDER == LITTLE_ENDIAN]: the [le] accessors are the identity. *)
Definition swap64le (x : Z) : Z := x.
Definition SWAP64BE (x : Z) : Z := SWAP64 x.

Lemma hi_dword_div x : hi_dword x = x / 2 ^ 32.
Proof. apply Z.shiftr_div_pow2. lia. Qed.

Lemma lo_dword_mod x : lo_dword x = x mod 2 ^ 32.
Proof. unfold lo_dword. change 0xFFFFFFFF with (Z.ones 32). apply Z.land_ones. lia. Qed.

Lemma dword_split x :
  in_u 64 x ->
  x = hi_dword x * 2 ^ 32 + lo_dword x /\ in_u 32 (hi_dword x) /\ in_u 32 (lo_dword x).
Proof.
  intros H. rewrite hi_dword_div, lo_dword_mod.
  pose proof (Z.div_mod x (2 ^ 32) ltac:(lia)).
  pose proof (Z.mod_pos_bound x (2 ^ 32) ltac:(lia)). ranges.
  assert (0 <= x / 4294967296 < 4294967296); [|lia].
  split; [apply Z.div_pos; lia | apply Z.div_lt_upper_bound; lia].
Qed.

Lemma mul_dwords_range a b : in_u 32 a -> in_u 32 b -> 0 <= a * b <= (2 ^ 32 - 1) * (2 ^ 32 - 1).
Proof. intros Ha Hb. ranges. nia. Qed.

Lemma shiftl32_wrap x : u64 (Z.shiftl x 32) = (x mod 2 ^ 32) * 2 ^ 32.
Proof.
  unfold wrap. rewrite Z.shiftl_mul_pow2 by lia.
  change (2 ^ 64) with (2 ^ 32 * 2 ^ 32). apply Zmult_mod_distr_r.
Qed.

(** The two words are the halves of the exact product. *)
Lemma mul128_spec x y :
  in_u 64 x -> in_u 64 y ->
  x * y = snd (mul128 x y) * 2 ^ 64 + fst (mul128 x y)
  /\ in_u 64 (fst (mul128 x y)) /\ in_u 64 (snd (mul128 x y))
  /\ hi_dword x * hi_dword y <= snd (mul128 x y).
Proof.
  intros Hx Hy.
  destruct (dword_split x Hx) as (Ex & Ha & Hb).
  destruct (dword_split y Hy) as (Ey & Hc & Hd).
  unfold mul128.
  set (a := hi_dword x) in *. set (b := lo_dword x) in *.
  set (c := hi_dword y) in *. set (d := lo_dword y) in *.
  pose proof (mul_dwords_range a c Ha Hc). pose proof (mul_dwords_range a d Ha Hd).
  pose proof (mul_dwords_range b c Hb Hc). pose proof (mul_dwords_range b d Hb Hd).
  assert (Exy : x * y = a * c * 2 ^ 64 + (a * d + b * c) * 2 ^ 32 + b * d)
    by (rewrite Ex, Ey; ring).
  revert Exy H H0 H1 H2.
  generalize (a * c) (a * d) (b * c) (b * d). intros ac ad bc bd Exy Hac Had Hbc Hbd.
  rewrite !(wrap_small 64 ac), !(wrap_small 64 ad), !(wrap_small 64 bc), !(wrap_small 64 bd) by mlia.
  rewrite Exy, !shiftl32_wrap, Z.shiftr_div_pow2 by lia. clear -Hac Had Hbc Hbd.
  unfold wrap. zpow_norm. simpl fst. simpl snd.
  set (adbc := (ad + bc) mod 18446744073709551616).
  assert (Hadbc : ad + bc = adbc + (if adbc <? ad then 18446744073709551616 else 0)
                  /\ 0 <= adbc < 18446744073709551616).
  { subst adbc. split; [|apply Z.mod_pos_bound; lia].
    destruct (Z.ltb_spec ((ad + bc) mod 18446744073709551616) ad); Z.div_mod_to_equations; lia. }
  set (t := adbc mod 4294967296 * 4294967296).
  set (lo := (bd + t) mod 18446744073709551616).
  assert (Ht : 0 <= t <= 18446744069414584320) by (subst t; Z.div_mod_to_equations; lia).
  assert (Hlo : bd + t = lo + (if lo <? bd then 18446744073709551616 else 0)
                /\ 0 <= lo < 18446744073709551616).
  { subst lo. split; [|apply Z.mod_pos_bound; lia].
    destruct (Z.ltb_spec ((bd + t) mod 18446744073709551616) bd); Z.div_mod_to_equations; lia. }
  assert (Hq : adbc = 4294967296 * (adbc / 4294967296) + t / 4294967296 /\ t = 4294967296 * (t / 4294967296)
               /\ 0 <= adbc / 4294967296 < 4294967296).
  { subst t. rewrite Z.div_mul by lia. Z.div_mod_to_equations; lia. }
  destruct (Z.ltb_spec adbc ad), (Z.ltb_spec lo bd);
    [change (1 mod 4294967296 * 4294967296) with 4294967296
    |change (1 mod 4294967296 * 4294967296) with 4294967296
    |change (0 mod 4294967296 * 4294967296) with 0
    |change (0 mod 4294967296 * 4294967296) with 0];
    rewrite !(Z.mod_small (_ + _ + _ + _)) by lia; mlia.
Qed.

(** ** Long division *)

Lemma div_with_reminder_spec x d r :
  in_u 32 x -> 0 < d -> 0 <= r < d -> d < 2 ^ 32 ->
  let (q, r') := div_with_reminder x d r in
  r * 2 ^ 32 + x = q * d + r' /\ 0 <= r' < d /\ in_u 32 q.
Proof.
  intros Hx Hd Hr Hd'. unfold div_with_reminder. rewrite lor_shiftl_add by (done || lia).
  pose proof (Z.mod_pos_bound (x + r * 2 ^ 32) d Hd).
  rewrite wrap_small by mlia.
  pose proof (Z.div_mod (x + r * 2 ^ 32) d ltac:(lia)). ranges. split_and!; try lia.
  - apply Z.div_pos; lia.
  - apply Z.div_lt_upper_bound; lia.
Qed.

Lemma join_dwords q1 q0 : in_u 32 q1 -> in_u 32 q0 -> Z.lor (u64 (Z.shiftl q1 32)) q0 = q1 * 2 ^ 32 + q0.
Proof.
  intros H1 H0. rewrite wrap_small; [by apply lor_shiftl_add_l|].
  rewrite Z.shiftl_mul_pow2 by lia. mlia.
Qed.

(** The quotient and the remainder are those of the 128-bit dividend. *)
Lemma div128_32_spec hi lo d :
  in_u 64 hi -> in_u 64 lo -> 0 < d < 2 ^ 32 ->
  exists r qhi qlo, div128_32 hi lo d = (r, qhi, qlo) /\
  hi * 2 ^ 64 + lo = (qhi * 2 ^ 64 + qlo) * d + r /\ 0 <= r < d /\ in_u 64 qhi /\ in_u 64 qlo.
Proof.
  intros Hhi Hlo Hd.
  destruct (dword_split hi Hhi) as (Eh & Hh1 & Hh0), (dword_split lo Hlo) as (El & Hl1 & Hl0).
  unfold div128_32.
  pose proof (div_with_reminder_spec (hi_dword hi) d 0 Hh1 ltac:(lia) ltac:(lia) ltac:(lia)) as S3.
  destruct (div_with_reminder (hi_dword hi) d 0) as [q3 r3], S3 as (E3 & R3 & Q3).
  pose proof (div_with_reminder_spec (lo_dword hi) d r3 Hh0 ltac:(lia) R3 ltac:(lia)) as S2.
  destruct (div_with_reminder (lo_dword hi) d r3) as [q2 r2], S2 as (E2 & R2 & Q2).
  pose proof (div_with_reminder_spec (hi_dword lo) d r2 Hl1 ltac:(lia) R2 ltac:(lia)) as S1.
  destruct (div_with_reminder (hi_dword lo) d r2) as [q1 r1], S1 as (E1 & R1 & Q1).
  pose proof (div_with_reminder_spec (lo_dword lo) d r1 Hl0 ltac:(lia) R1 ltac:(lia)) as S0.
  destruct (div_with_reminder (lo_dword lo) d r1) as [q0 r0], S0 as (E0 & R0 & Q0).
  rewrite !join_dwords by done.
  exists r0, (q3 * 2 ^ 32 + q2), (q1 * 2 ^ 32 + q0). ranges. split_and!; try done; try lia.
Qed.

Lemma div128_32_quot hi lo d r qhi qlo :
  in_u 64 hi -> in_u 64 lo -> 0 < d < 2 ^ 32 -> div128_32 hi lo d = (r, qhi, qlo) ->
  qhi * 2 ^ 64 + qlo = (hi * 2 ^ 64 + lo) / d /\ r = (hi * 2 ^ 64 + lo) mod d
  /\ in_u 64 qhi /\ in_u 64 qlo.
Proof.
  intros Hhi Hlo Hd E.
  destruct (div128_32_spec hi lo d Hhi Hlo Hd) as (r' & q1 & q2 & E' & V & R & Q1 & Q2).
  rewrite E in E'. simplify_eq. split_and!; try done.
  - apply (Z.div_unique_pos _ _ _ r'); lia.
  - apply (Z.mod_unique_pos _ _ (q1 * 2 ^ 64 + q2)); lia.
Qed.

(** ** Byte swaps, bit by bit *)

Lemma testbit_wrap w x i : 0 <= i < w -> Z.testbit (wrap w x) i = Z.testbit x i.
Proof. intros. unfold wrap. rewrite Z.mod_pow2_bits_low; done || lia. Qed.

Lemma testbit_wrap_high w x i : 0 <= w <= i -> Z.testbit (wrap w x) i = false.
Proof. intros. unfold wrap. apply Z.mod_pow2_bits_high; lia. Qed.

(** Rewrites the bits of a combination of masks and shifts at a literal position. *)
Ltac bit_at :=
  repeat first
    [ match goal with
      | |- context [Z.testbit ?x (?a + ?b)] => let c := eval vm_compute in (a + b) in change (a + b) with c
      | |- context [Z.testbit ?x (?a - ?b)] => let c := eval vm_compute in (a - b) in change (a - b) with c
      | |- context [Z.testbit (Zpos ?m) ?i] =>
          let c := eval vm_compute in (Z.testbit (Zpos m) i) in change (Z.testbit (Zpos m) i) with c
      | |- context [Z.testbit ?x (Zneg ?m)] => rewrite (Z.testbit_neg_r x (Zneg m)) by lia
      end
    | rewrite Z.lor_spec | rewrite Z.land_spec
    | rewrite Z.shiftr_spec by lia | rewrite testbit_wrap by lia
    | rewrite testbit_wrap_high by lia | rewrite Z.shiftl_spec by lia
    | rewrite andb_true_r | rewrite andb_false_r | rewrite orb_false_r | rewrite orb_false_l ].

Ltac bits_below n :=
  apply (all_below n);
  match goal with |- Forall ?P ?l => let l' := eval vm_compute in l in change (Forall P l') end;
  repeat (apply List.Forall_cons; [cbv beta|]); [..|apply List.Forall_nil].

Lemma SWAP64_bit x i :
  0 <= i < 64 -> Z.testbit (SWAP64 x) i = Z.testbit x (8 * (7 - i / 8) + i mod 8).
Proof.
  revert i. bits_below 64%nat; unfold SWAP64; bit_at; reflexivity.
Qed.

Lemma swap64_bit x i :
  0 <= i < 64 -> Z.testbit (swap64 x) i = Z.testbit x (8 * (7 - i / 8) + i mod 8).
Proof.
  revert i. bits_below 64%nat; unfold swap64; bit_at; reflexivity.
Qed.

Lemma swap32_bit x i :
  0 <= i < 32 -> Z.testbit (swap32 x) i = Z.testbit x (8 * (3 - i / 8) + i mod 8).
Proof.
  revert i. bits_below 32%nat; unfold swap32; bit_at; reflexivity.
Qed.

(** Range of a combination of masks and shifts. *)
Ltac bit_range :=
  repeat first
    [ apply wrap_range; lia | apply in_u_lor; [lia| |]
    | apply in_u_shiftr; [lia|lia|] | apply in_u_land_r; [lia|mlia] ].

Lemma swap64_range x : in_u 64 (swap64 x).
Proof. unfold swap64. bit_range. Qed.

Lemma SWAP64_range x : in_u 64 (SWAP64 x).
Proof. unfold SWAP64. bit_range. Qed.

Lemma bits_eq_below w a b :
  0 <= w -> in_u w a -> in_u w b -> (forall i, 0 <= i < w -> Z.testbit a i = Z.testbit b i) -> a = b.
Proof.
  intros Hw [Ha Ha'] [Hb Hb'] H. apply Z.bits_inj'. intros i Hi.
  destruct (decide (i < w)); [apply H; lia|].
  rewrite (proj1 (Z.bounded_iff_bits_nonneg w a Hw Ha) Ha') by lia.
  by rewrite (proj1 (Z.bounded_iff_bits_nonneg w b Hw Hb) Hb') by lia.
Qed.

Lemma swap64_SWAP64 x : swap64 x = SWAP64 x.
Proof.
  apply (bits_eq_below 64); [lia|apply swap64_range|apply SWAP64_range|].
  intros i Hi. by rewrite swap64_bit, SWAP64_bit.
Qed.

Lemma swap64_involutive x : in_u 64 x -> swap64 (swap64 x) = x.
Proof.
  intros Hx. apply (bits_eq_below 64); [lia|apply swap64_range|done|].
  intros i Hi. rewrite !swap64_bit by (Z.div_mod_to_equations; lia).
  f_equal. Z.div_mod_to_equations; lia.
Qed.

(** A byte swap reverses the object representation. *)
Lemma le_bytes_lookup n z (j : nat) :
  (j < n)%nat -> le_bytes n z !! j = Some ((z / 256 ^ Z.of_nat j) mod 256).
Proof.
  revert z j. induction n as [|n IH]; intros z j Hj; [lia|]. destruct j as [|j]; cbn [le_bytes].
  - change (256 ^ Z.of_nat 0) with 1. by rewrite Z.div_1_r.
  - change ((z / 256) :: ?l) with ((z/256) :: l). cbn [lookup list_lookup].
    rewrite IH by lia. rewrite pow256_S, Z.div_div by (pose proof (pow256_pos j); lia). done.
Qed.

Lemma byte_at_bits a b ja jb :
  0 <= ja -> 0 <= jb ->
  (forall i, 0 <= i < 8 -> Z.testbit a (8 * ja + i) = Z.testbit b (8 * jb + i)) ->
  (a / 256 ^ ja) mod 256 = (b / 256 ^ jb) mod 256.
Proof.
  intros Ha Hb H. change 256 with (2 ^ 8). rewrite <- !Z.pow_mul_r by lia.
  apply (bits_eq_below 8); [lia|apply Z.mod_pos_bound; lia|apply Z.mod_pos_bound; lia|].
  intros i Hi. rewrite !Z.mod_pow2_bits_low by lia.
  rewrite <- !Z.shiftr_div_pow2, !Z.shiftr_spec by lia.
  rewrite (Z.add_comm i (8 * ja)), (Z.add_comm i (8 * jb)). by apply H.
Qed.

Lemma SWAP64_bytes x : le_bytes 8 (SWAP64 x) = reverse (le_bytes 8 x).
Proof.
  apply list_eq. intros j. destruct (decide (j < 8)%nat).
  - rewrite reverse_lookup by (by rewrite le_bytes_length).
    rewrite le_bytes_length, !le_bytes_lookup by lia.
    f_equal. apply byte_at_bits; [lia..|]. intros i Hi. rewrite SWAP64_bit by lia.
    f_equal. Z.div_mod_to_equations; lia.
  - rewrite !lookup_ge_None_2; [done|rewrite length_reverse|]; rewrite le_bytes_length; lia.
Qed.

(** mul128 returns the two words of the exact 128-bit product, and
    div128_32 the quotient and the remainder of a 128-bit dividend by a 32-bit
    divisor. *)
Theorem wide_arithmetic_correct x y hi lo d :
  in_u 64 x -> in_u 64 y -> in_u 64 hi -> in_u 64 lo -> 0 < d < 2 ^ 32 ->
  (let (plo, phi) := mul128 x y in
   phi * 2 ^ 64 + plo = x * y /\ in_u 64 plo /\ in_u 64 phi) /\
  (let '(r, qhi, qlo) := div128_32 hi lo d in
   qhi * 2 ^ 64 + qlo = (hi * 2 ^ 64 + lo) / d /\ r = (hi * 2 ^ 64 + lo) mod d /\
   in_u 64 qhi /\ in_u 64 qlo).
Proof.
  intros Hx Hy Hh Hl Hd; split.
  - pose proof (mul128_spec x y Hx Hy) as (E & Hlo & Hhi & _).
    by destruct (mul128 x y) as [plo phi]; simpl in *.
  - destruct (div128_32 hi lo d) as [[r qhi] qlo] eqn:E; by apply div128_32_quot in E.
Qed.

Lemma wide_arithmetic_correct_witness :
  mul128 (2 ^ 64 - 1) (2 ^ 64 - 1) = (1, 2 ^ 64 - 2) /\
  (2 ^ 64 - 2) * 2 ^ 64 + 1 = (2 ^ 64 - 1) * (2 ^ 64 - 1).
Proof.
  split; [vm_compute; reflexivity|].
  refine (proj1 (proj1 (wide_arithmetic_correct (2 ^ 64 - 1) (2 ^ 64 - 1) 5 7 3 _ _ _ _ _)));
    unfold in_u; lia.
Defined.
End IntUtil.
