(* ===== verification/Varint.v ===== *)
(** Variable-length integers: [write_varint]/[read_varint] of
    [src/src/Common/Varint.h] (used by Base58 addresses) and
    [writeVarint]/[readVarint] of [src/src/Common/StreamTools.cpp] (used by
    the binary serializers). *)

From S2P Require Import Prelude.

(** What reading from an [IInputStream] can throw. *)
Inductive stream_error : Type :=
| FailedToRead            (* "Failed to read from IInputStream" *)
| VarintOverflow          (* "readVarint, value overflow" *)
| VarintInvalid           (* "readVarint, invalid value representation" *)
| SerializationError.     (* "serialization error" and the other serializer failures *)

#[global] Instance stream_error_eq_dec : EqDecision stream_error.
Proof. solve_decision. Defined.

Module Varint.

(** The loop of [write_varint]; [fuel] bounds the iterations, and
    [write_varint_step] shows that the bound of [write_varint] never stops it. *)
Fixpoint write_varint_loop (fuel : nat) (i : Z) : list Z :=
  match fuel with
  | O => []
  | S fuel =>
      if i >=? 0x80
      then Z.lor (Z.land (u8 i) 0x7f) 0x80 :: write_varint_loop fuel (Z.shiftr i 7)
      else [u8 i]
  end.

Definition write_varint (i : Z) : list Z := write_varint_loop (S (Z.to_nat (Z.log2 i))) i.

(** [get_varint_data]: the bytes as a string. *)
Definition get_varint_data (v : Z) : list Z := write_varint v.

(** The loop of [read_varint<bits>]: the returned code (a byte count, -1 or
    -2), the output parameter [i] and the unread input. *)
Fixpoint read_varint_loop (bits shift read i : Z) (input : list Z) : Z * Z * list Z :=
  match input with
  | [] => (read, i, [])
  | byte :: rest =>
      let read := read + 1 in
      if (bits <=? shift + 7) && (Z.shiftl 1 (bits - shift) <=? byte) then (-1, i, rest)
      else if (byte =? 0) && negb (shift =? 0) then (-2, i, rest)
      else
        let i := Z.lor i (wrap bits (Z.shiftl (Z.land byte 0x7f) shift)) in
        if Z.land byte 0x80 =? 0 then (read, i, rest)
        else read_varint_loop bits (shift + 7) read i rest
  end.

Definition read_varint (bits : Z) (input : list Z) : Z * Z * list Z :=
  read_varint_loop bits 0 0 0 input.

(** Stream version: [writeVarint] writes the byte [value | 0x80]. *)
Fixpoint writeVarint_loop (fuel : nat) (value : Z) : list Z :=
  match fuel with
  | O => []
  | S fuel =>
      if value >=? 0x80
      then u8 (Z.lor value 0x80) :: writeVarint_loop fuel (Z.shiftr value 7)
      else [u8 value]
  end.

Definition writeVarint (value : Z) : list Z := writeVarint_loop (S (Z.to_nat (Z.log2 value))) value.

(** [readVarint] for an unsigned type of width [w] (8, 16, 32 or 64). *)
Fixpoint readVarint_loop (w shift temp : Z) (input : list Z) : result stream_error (Z * list Z) :=
  match input with
  | [] => Err FailedToRead
  | piece :: rest =>
      if (w - 7 <=? shift) && (Z.shiftl 1 (w - shift) <=? piece) then Err VarintOverflow
      else
        let temp := wrap w (Z.lor temp (u64 (Z.shiftl (Z.land piece 0x7f) shift))) in
        if Z.land piece 0x80 =? 0 then
          if (piece =? 0) && negb (shift =? 0) then Err VarintInvalid else Ok (temp, rest)
        else readVarint_loop w (u8 (shift + 7)) temp rest
  end.

Definition readVarint (w : Z) (input : list Z) : result stream_error (Z * list Z) :=
  readVarint_loop w 0 0 input.

(** ** Facts about the pieces *)

Lemma land_7f b : Z.land b 0x7f = b mod 128.
Proof. change 0x7f with (Z.ones 7). apply Z.land_ones. lia. Qed.

Lemma land_80 b : is_byte b -> (Z.land b 0x80 =? 0) = (b <? 128).
Proof.
  revert b. intros b Hb. unfold in_u in Hb. change (2 ^ 8) with (Z.of_nat 256) in Hb. revert b Hb.
  apply all_below. vm_compute seqZ. repeat constructor.
Qed.

Lemma cont_byte i : Z.lor (Z.land (u8 i) 0x7f) 0x80 = i mod 128 + 128.
Proof.
  rewrite land_7f. unfold wrap. change (2 ^ 8) with (128 * 2).
  replace ((i mod (128 * 2)) mod 128) with (i mod 128)
    by (rewrite Z.rem_mul_r by lia; rewrite Z.mul_comm, Z_mod_plus_full, Zmod_mod; done).
  change (Z.lor (i mod 128) 128) with (Z.lor (i mod 128) (Z.shiftl 1 7)).
  rewrite lor_shiftl_add; [lia|lia|].
  apply Z.mod_pos_bound. lia.
Qed.

Lemma cont_byte' i : u8 (Z.lor i 0x80) = i mod 128 + 128.
Proof.
  rewrite <- cont_byte. unfold wrap. rewrite <- !Z.land_ones by lia.
  change 0x7f with (Z.ones 7). apply Z.bits_inj'. intros n Hn.
  rewrite !Z.land_spec, !Z.lor_spec, !Z.land_spec, !Z.testbit_ones_nonneg by lia.
  change 128 with (2 ^ 7). rewrite Z.pow2_bits_eqb by lia.
  destruct (Z.ltb_spec n 8), (Z.ltb_spec n 7), (Z.eqb_spec 7 n); try lia;
    destruct (Z.testbit i n); done.
Qed.

Lemma log2_shiftr7 i : 128 <= i -> (S (Z.to_nat (Z.log2 (i / 128))) <= Z.to_nat (Z.log2 i))%nat.
Proof.
  intros Hi. assert (Z.log2 (i / 128) = Z.log2 i - 7); [|pose proof (Z.log2_le_mono 128 i Hi); cbn in *; lia].
  change 128 with (2 ^ 7). rewrite <- Z.shiftr_div_pow2 by lia.
  rewrite Z.log2_shiftr by lia. pose proof (Z.log2_le_mono 128 i Hi). cbn in *. lia.
Qed.

Lemma write_loop_fuel fuel i :
  0 <= i -> (S (Z.to_nat (Z.log2 i)) <= fuel)%nat ->
  write_varint_loop fuel i =
    if i >=? 128 then (i mod 128 + 128) :: write_varint (i / 128) else [i].
Proof.
  revert i. induction fuel as [fuel IH] using lt_wf_ind. intros i Hi Hf.
  destruct fuel as [|fuel]; [lia|]. cbn [write_varint_loop].
  rewrite cont_byte, Z.shiftr_div_pow2 by lia. change (2 ^ 7) with 128.
  rewrite Z.geb_leb. destruct (Z.leb_spec 128 i).
  - f_equal. unfold write_varint. pose proof (log2_shiftr7 i ltac:(lia)).
    rewrite !IH; try lia; try done; apply Z.div_pos; lia.
  - rewrite wrap_small by mlia. done.
Qed.

Lemma write_varint_step i :
  0 <= i ->
  write_varint i = if i >=? 128 then (i mod 128 + 128) :: write_varint (i / 128) else [i].
Proof. intros Hi. by apply write_loop_fuel. Qed.

(** Both writers produce the same bytes. *)
Lemma writeVarint_loop_eq fuel i : writeVarint_loop fuel i = write_varint_loop fuel i.
Proof. revert i. induction fuel as [|fuel IH]; intros i; cbn; [done|]. by rewrite cont_byte, cont_byte', IH. Qed.

Lemma writeVarint_eq i : writeVarint i = write_varint i.
Proof. apply writeVarint_loop_eq. Qed.

Lemma write_varint_bytes i : 0 <= i -> Forall is_byte (write_varint i).
Proof.
  revert i. apply (well_founded_induction (Z.lt_wf 0) (fun i => 0 <= i -> Forall is_byte (write_varint i))).
  intros i IH Hi. rewrite write_varint_step by done. rewrite Z.geb_leb.
  destruct (Z.leb_spec 128 i).
  - pose proof (Z.mod_pos_bound i 128 ltac:(lia)).
    constructor; [mlia|]. apply IH; Z.div_mod_to_equations; lia.
  - constructor; [mlia|done].
Qed.

Lemma write_varint_pos i : 0 <= i -> write_varint i <> [].
Proof. intros Hi. rewrite write_varint_step by done. by destruct (i >=? 128). Qed.

(** ** The reading loops, arithmetically *)

Lemma acc_piece shift temp p :
  0 <= shift -> in_u shift temp -> Z.lor temp (Z.shiftl p shift) = temp + p * 2 ^ shift.
Proof. intros. by apply lor_shiftl_add. Qed.

Lemma pow2_split a b : 0 <= a <= b -> 2 ^ b = 2 ^ a * 2 ^ (b - a).
Proof. intros. rewrite <- Z.pow_add_r by lia. f_equal. lia. Qed.

(** One accepted piece: it fits the width and the accumulator stays exact. *)
Lemma piece_fits w shift temp p :
  0 <= shift -> shift <= w -> in_u shift temp -> 0 <= p < 128 ->
  (shift < w - 7 \/ p < 2 ^ (w - shift)) ->
  in_u w (temp + p * 2 ^ shift) /\ in_u w (p * 2 ^ shift) /\ in_u (shift + 7) (temp + p * 2 ^ shift).
Proof.
  intros Hs Hw [Ht0 Ht] Hp Hfit. assert (0 < 2 ^ shift) by (apply Z.pow_pos_nonneg; lia).
  assert (Hw' : p + 1 <= 2 ^ (w - shift)).
  { destruct Hfit as [Hlt|]; [|lia]. transitivity (2 ^ 7); [cbn; lia|]. apply Z.pow_le_mono_r; lia. }
  assert (E : 2 ^ w = 2 ^ shift * 2 ^ (w - shift)) by (apply pow2_split; lia).
  assert (E7 : 2 ^ (shift + 7) = 2 ^ shift * 128) by (rewrite Z.pow_add_r by lia; done).
  unfold in_u. rewrite E, E7. nia.
Qed.

Section readVarint.
Context (w : Z) (Hw8 : 8 <= w <= 64).

Lemma readVarint_step shift temp piece rest :
  0 <= shift <= w -> in_u shift temp -> is_byte piece ->
  readVarint_loop w shift temp (piece :: rest) =
    if (w - 7 <=? shift) && (2 ^ (w - shift) <=? piece) then Err VarintOverflow
    else if piece <? 128 then
      if (piece =? 0) && negb (shift =? 0) then Err VarintInvalid
      else Ok (temp + piece * 2 ^ shift, rest)
    else readVarint_loop w (shift + 7) (temp + (piece - 128) * 2 ^ shift) rest.
Proof using Hw8.
  intros Hs Ht Hp. cbn [readVarint_loop].
  rewrite Z.shiftl_mul_pow2, Z.mul_1_l, land_80 by (done || lia).
  destruct ((w - 7 <=? shift) && (2 ^ (w - shift) <=? piece)) eqn:Eov; [done|].
  rewrite land_7f.
  assert (Hfit : shift < w - 7 \/ piece < 2 ^ (w - shift)).
  { apply andb_false_iff in Eov as [E|E]; [apply Z.leb_gt in E | apply Z.leb_gt in E]; lia. }
  assert (Hfit' : shift < w - 7 \/ piece mod 128 < 2 ^ (w - shift)).
  { destruct Hfit; [by left|right]. pose proof (Z.mod_le piece 128). ranges. lia. }
  destruct (piece_fits w shift temp (piece mod 128)) as (F1 & F2 & F3);
    [lia|lia|done|apply Z.mod_pos_bound; lia|done|].
  rewrite (wrap_small 64).
  2: { rewrite Z.shiftl_mul_pow2 by lia. apply (in_u_mono w); [lia|done]. }
  rewrite acc_piece, (wrap_small w) by (done || lia).
  destruct (Z.ltb_spec piece 128) as [Hlt|Hge].
  - by rewrite Z.mod_small by (ranges; lia).
  - assert (E : piece mod 128 = piece - 128).
    { symmetry. apply (Z.mod_unique_pos _ _ 1); ranges; lia. }
    rewrite E. rewrite wrap_small by mlia. done.
Qed.

(** Whatever is accepted is the encoding of the value returned. *)
Lemma readVarint_loop_sound input shift temp v rest :
  0 <= shift <= w -> in_u shift temp -> Forall is_byte input ->
  readVarint_loop w shift temp input = Ok (v, rest) ->
  exists u, 0 <= u /\ v = temp + u * 2 ^ shift /\ in_u w v /\
    input = write_varint u ++ rest /\ (shift <> 0 -> u <> 0).
Proof using Hw8.
  revert shift temp. induction input as [|piece input IH]; intros shift temp Hs Ht Hb; [done|].
  inversion_clear Hb as [|?? Hp Hrest].
  rewrite readVarint_step by done.
  destruct ((w - 7 <=? shift) && (2 ^ (w - shift) <=? piece)) eqn:Eov; [done|].
  assert (Hfit : shift < w - 7 \/ piece < 2 ^ (w - shift)).
  { apply andb_false_iff in Eov as [E|E]; apply Z.leb_gt in E; lia. }
  destruct (Z.ltb_spec piece 128) as [Hlt|Hge].
  - destruct ((piece =? 0) && negb (shift =? 0)) eqn:Ez; [done|]. intros [= <- <-].
    destruct (piece_fits w shift temp piece) as (F1 & _ & _); [lia|lia|done|ranges; lia|done|].
    exists piece. split_and!; [ranges; lia|done|done| |].
    + rewrite write_varint_step by (ranges; lia). rewrite Z.geb_leb.
      destruct (Z.leb_spec 128 piece); [lia|done].
    + intros Hne ->. apply andb_false_iff in Ez as [E|E]; [done|].
      apply negb_false_iff, Z.eqb_eq in E. done.
  - assert (Hs7 : shift < w - 7).
    { destruct Hfit as [|Hfit]; [done|].
      destruct (decide (shift < w - 7)); [done|].
      assert (2 ^ (w - shift) <= 2 ^ 7) by (apply Z.pow_le_mono_r; lia). cbn in *. lia. }
    destruct (piece_fits w shift temp (piece - 128)) as (_ & _ & F3);
      [lia|lia|done|ranges; lia|by left|].
    intros Hr. apply IH in Hr as (u & Hu & -> & Hv & -> & Hnz); [|lia|done|done].
    specialize (Hnz ltac:(lia)).
    exists ((piece - 128) + 128 * u). split_and!; [ranges; lia| |done| |lia].
    + rewrite Z.pow_add_r by lia. change (2 ^ 7) with 128. ring.
    + rewrite (write_varint_step (piece - 128 + 128 * u)) by (ranges; lia). rewrite Z.geb_leb.
      destruct (Z.leb_spec 128 (piece - 128 + 128 * u)); [|ranges; lia].
      rewrite (Z.mul_comm 128 u), Z.div_add, Z_mod_plus_full by lia.
      rewrite Z.mod_small, Z.div_small by (ranges; lia).
      cbn [app]. f_equal. lia.
Qed.

(** Every encoding is accepted, whatever follows it. *)
Lemma readVarint_loop_complete u shift temp rest :
  0 <= u -> 0 <= shift -> shift <= w -> in_u shift temp -> in_u w (temp + u * 2 ^ shift) ->
  (shift <> 0 -> u <> 0) ->
  readVarint_loop w shift temp (write_varint u ++ rest) = Ok (temp + u * 2 ^ shift, rest).
Proof using Hw8.
  intros Hu. revert shift temp. revert u Hu.
  refine (well_founded_induction (Z.lt_wf 0) _ _). intros u IH Hu shift temp Hs Hsw Ht Hv Hnz.
  assert (0 < 2 ^ shift) by (apply Z.pow_pos_nonneg; lia).
  assert (E : 2 ^ w = 2 ^ shift * 2 ^ (w - shift)) by (apply pow2_split; lia).
  assert (Hfit : u < 2 ^ (w - shift)) by (unfold in_u in Hv, Ht; rewrite E in Hv; nia).
  rewrite write_varint_step by done. rewrite Z.geb_leb. destruct (Z.leb_spec 128 u) as [Hge|Hlt].
  - pose proof (Z.mod_pos_bound u 128 ltac:(lia)).
    assert (Hs7 : shift < w - 7).
    { destruct (decide (shift < w - 7)); [done|].
      assert (2 ^ (w - shift) <= 2 ^ 7) by (apply Z.pow_le_mono_r; lia). cbn in *. lia. }
    cbn [app]. rewrite readVarint_step by (done || lia || mlia).
    destruct (Z.leb_spec (w - 7) shift); [lia|]. cbn [andb].
    destruct (Z.ltb_spec (u mod 128 + 128) 128); [lia|].
    replace (u mod 128 + 128 - 128) with (u mod 128) by lia.
    destruct (piece_fits w shift temp (u mod 128)) as (_ & _ & F3); [lia|lia|done|lia|by left|].
    assert (Ev : temp + u * 2 ^ shift = temp + u mod 128 * 2 ^ shift + u / 128 * 2 ^ (shift + 7)).
    { rewrite Z.pow_add_r by lia. change (2 ^ 7) with 128.
      rewrite (Z.div_mod u 128) at 1 by lia. ring. }
    rewrite Ev in *. apply IH; try done; Z.div_mod_to_equations; lia.
  - cbn [app]. rewrite readVarint_step by (done || lia || mlia).
    rewrite (proj2 (Z.leb_gt (2 ^ (w - shift)) u)), andb_false_r by lia.
    destruct (Z.ltb_spec u 128); [|lia].
    destruct (Z.eqb_spec u 0), (Z.eqb_spec shift 0); try done. exfalso. by apply Hnz.
Qed.
End readVarint.

Lemma readVarint_complete w v rest :
  8 <= w <= 64 -> in_u w v -> readVarint w (writeVarint v ++ rest) = Ok (v, rest).
Proof.
  intros Hw Hv. rewrite writeVarint_eq. unfold readVarint.
  rewrite (readVarint_loop_complete w Hw v 0 0 rest); try done;
    rewrite ?Z.mul_1_r, ?Z.add_0_l; try done; unfold in_u in *; lia.
Qed.

Lemma readVarint_sound w input v rest :
  8 <= w <= 64 -> Forall is_byte input -> readVarint w input = Ok (v, rest) ->
  in_u w v /\ input = writeVarint v ++ rest.
Proof.
  intros Hw Hb Hr.
  destruct (readVarint_loop_sound w Hw input 0 0 v rest) as (u & Hu & -> & Hv & -> & _);
    [lia|unfold in_u; lia|done|done|].
  change (2 ^ 0) with 1 in *. rewrite Z.mul_1_r, Z.add_0_l in *. by rewrite writeVarint_eq.
Qed.

(** On what the stream reader accepts, [read_varint] returns the same value
    and the number of bytes consumed. *)
Lemma read_varint_loop_agrees w input shift read temp v rest :
  8 <= w <= 64 -> 0 <= shift <= w -> in_u shift temp -> Forall is_byte input ->
  readVarint_loop w shift temp input = Ok (v, rest) ->
  read_varint_loop w shift read temp input = (read + (Z.of_nat (length input) - Z.of_nat (length rest)), v, rest).
Proof.
  intros Hw. revert shift read temp.
  induction input as [|piece input IH]; intros shift read temp Hs Ht Hb; [done|].
  inversion_clear Hb as [|?? Hp Hrest].
  rewrite readVarint_step by done. cbn [read_varint_loop length].
  rewrite Z.shiftl_mul_pow2, Z.mul_1_l, land_80, land_7f by (done || lia).
  replace (w <=? shift + 7) with (w - 7 <=? shift) by (destruct (Z.leb_spec (w - 7) shift), (Z.leb_spec w (shift + 7)); lia).
  destruct ((w - 7 <=? shift) && (2 ^ (w - shift) <=? piece)) eqn:Eov; [done|].
  assert (Hfit : shift < w - 7 \/ piece < 2 ^ (w - shift)).
  { apply andb_false_iff in Eov as [E|E]; apply Z.leb_gt in E; lia. }
  assert (Hfit' : shift < w - 7 \/ piece mod 128 < 2 ^ (w - shift)).
  { destruct Hfit; [by left|right]. pose proof (Z.mod_le piece 128). ranges. lia. }
  destruct (piece_fits w shift temp (piece mod 128)) as (F1 & F2 & F3);
    [lia|lia|done|apply Z.mod_pos_bound; lia|done|].
  rewrite (wrap_small w) by (rewrite Z.shiftl_mul_pow2 by lia; done).
  rewrite acc_piece by (done || lia).
  destruct (Z.ltb_spec piece 128).
  - destruct ((piece =? 0) && negb (shift =? 0)); [done|]. intros [= <- <-].
    rewrite Z.mod_small by (ranges; lia). f_equal. f_equal. lia.
  - destruct (Z.eqb_spec piece 0); [lia|]. cbn [andb].
    assert (E : piece mod 128 = piece - 128).
    { symmetry. apply (Z.mod_unique_pos _ _ 1); ranges; lia. }
    rewrite E in *.
    assert (Hs7 : shift + 7 <= w).
    { destruct (decide (shift + 7 <= w)); [done|]. destruct Hfit as [|Hfit]; [lia|].
      assert (2 ^ (w - shift) <= 2 ^ 7) by (apply Z.pow_le_mono_r; lia). cbn in *. lia. }
    intros Hr. rewrite (IH (shift + 7) (read + 1) _ ltac:(lia) F3 Hrest Hr).
    f_equal. f_equal. lia.
Qed.

Lemma read_varint_complete w v rest :
  8 <= w <= 64 -> in_u w v -> Forall is_byte rest ->
  read_varint w (write_varint v ++ rest) = (Z.of_nat (length (write_varint v)), v, rest).
Proof.
  intros Hw Hv Hrest. unfold read_varint.
  rewrite (read_varint_loop_agrees w _ 0 0 0 v rest).
  - rewrite length_app, Nat2Z.inj_add. f_equal. f_equal. lia.
  - done.
  - lia.
  - unfold in_u. lia.
  - apply Forall_app. split; [|done]. apply write_varint_bytes. unfold in_u in Hv. lia.
  - rewrite <- writeVarint_eq. by apply readVarint_complete.
Qed.

(** On a byte string, readVarint of width w returns v and the remaining
    bytes exactly when v fits in w bits and the string starts with writeVarint
    v: decoding inverts encoding, accepts nothing but the canonical encoding,
    and never overflows. *)
Theorem readVarint_exact w input v rest :
  8 <= w <= 64 -> Forall is_byte input ->
  readVarint w input = Ok (v, rest) <-> in_u w v /\ input = writeVarint v ++ rest.
Proof.
  intros Hw Hb. split; [by apply readVarint_sound|].
  intros [Hv ->]. by apply readVarint_complete.
Qed.

Lemma readVarint_exact_witness :
  readVarint 32 [172; 2; 9] = Ok (300, [9]) <-> in_u 32 300 /\ [172; 2; 9] = writeVarint 300 ++ [9].
Proof. apply (readVarint_exact 32 [172; 2; 9] 300 [9]); [lia|]. repeat constructor; mlia. Defined.

End Varint.
