(* ===== verification/Keccak.v ===== *)
(** The Keccak permutation and sponge of [src/src/crypto/keccak.c] and
    [cn_fast_hash] of [src/src/crypto/hash.c], with the interface
    [FastHash] through which the other components use the hash. *)

From S2P Require Import Prelude.

(** What the users of [cn_fast_hash] rely on: [HASH_SIZE] bytes. *)
Class FastHash := {
  cn_fast_hash : list Z -> list Z;
  cn_fast_hash_length m : length (cn_fast_hash m) = 32%nat;
  cn_fast_hash_bytes m : Forall is_byte (cn_fast_hash m);
}.

Module Keccak.

Definition keccakf_rndc : list Z :=
  [0x0000000000000001; 0x0000000000008082; 0x800000000000808a;
   0x8000000080008000; 0x000000000000808b; 0x0000000080000001;
   0x8000000080008081; 0x8000000000008009; 0x000000000000008a;
   0x0000000000000088; 0x0000000080008009; 0x000000008000000a;
   0x000000008000808b; 0x800000000000008b; 0x8000000000008089;
   0x8000000000008003; 0x8000000000008002; 0x8000000000000080;
   0x000000000000800a; 0x800000008000000a; 0x8000000080008081;
   0x8000000000008080; 0x0000000080000001; 0x8000000080008008].

Definition keccakf_rotc : list Z :=
  [1; 3; 6; 10; 15; 21; 28; 36; 45; 55; 2; 14;
   27; 41; 56; 8; 25; 43; 62; 18; 39; 61; 20; 44].

Definition keccakf_piln : list nat :=
  [10; 7; 11; 17; 18; 3; 5; 16; 8; 21; 24; 4;
   15; 23; 19; 13; 12; 2; 20; 14; 22; 9; 6; 1]%nat.

Definition ROTL64 (x y : Z) : Z := Z.lor (u64 (Z.shiftl x y)) (Z.shiftr x (64 - y)).

(** [~x] on 64 bits. *)
Definition not64 (x : Z) : Z := Z.lxor x 0xffffffffffffffff.

(** Reading a lane; the state always has 25. *)
Definition lane (st : list Z) (i : nat) : Z := nth i st 0.

Definition theta (st : list Z) : list Z :=
  let bc := map (fun i => Z.lxor (Z.lxor (Z.lxor (Z.lxor (lane st i) (lane st (i + 5)))
                                   (lane st (i + 10))) (lane st (i + 15))) (lane st (i + 20))) (seq 0 5) in
  fold_left
    (fun st i =>
       let t := Z.lxor (lane bc ((i + 4) mod 5)) (ROTL64 (lane bc ((i + 1) mod 5)) 1) in
       fold_left (fun st j => <[(j + i)%nat := Z.lxor (lane st (j + i)) t]> st) [0; 5; 10; 15; 20]%nat st)
    (seq 0 5) st.

Definition rho_pi (st : list Z) : list Z :=
  fst (fold_left
    (fun '(st, t) i =>
       let j := nth i keccakf_piln 0%nat in
       let bc0 := lane st j in
       (<[j := ROTL64 t (nth i keccakf_rotc 0)]> st, bc0))
    (seq 0 24) (st, lane st 1)).

Definition chi (st : list Z) : list Z :=
  fold_left
    (fun st j =>
       let bc := map (fun i => lane st (j + i)) (seq 0 5) in
       fold_left
         (fun st i => <[(j + i)%nat := Z.lxor (lane st (j + i))
            (Z.land (not64 (lane bc ((i + 1) mod 5))) (lane bc ((i + 2) mod 5)))]> st)
         (seq 0 5) st)
    [0; 5; 10; 15; 20]%nat st.

Definition iota (rndc : Z) (st : list Z) : list Z := <[0%nat := Z.lxor (lane st 0) rndc]> st.

(** [None]: the round reads past the end of [keccakf_rndc]. *)
Definition keccakf_round (st : list Z) (round : nat) : option (list Z) :=
  rndc ← keccakf_rndc !! round; Some (iota rndc (chi (rho_pi (theta st)))).

Fixpoint keccakf_rounds (rounds : list nat) (st : list Z) : option (list Z) :=
  match rounds with
  | [] => Some st
  | round :: rounds => st ← keccakf_round st round; keccakf_rounds rounds st
  end.

Definition keccakf (st : list Z) (rounds : nat) : option (list Z) := keccakf_rounds (seq 0 rounds) st.

Definition KECCAK_ROUNDS : nat := 24.

(** keccakf(st, KECCAK_ROUNDS), which has all its constants ([permute_spec]). *)
Definition permute (st : list Z) : list Z := default st (keccakf st KECCAK_ROUNDS).

(** [st[i] ^= ((uint64_t * ) in)[i]] for the first [rsizw] lanes. *)
Definition absorb (st : list Z) (block : list Z) (rsizw : nat) : list Z :=
  fold_left
    (fun st i => <[i := Z.lxor (lane st i) (le_val (take 8 (drop (8 * i) block)))]> st)
    (seq 0 rsizw) st.

(** The loop over full blocks, then the padded last block. *)
Fixpoint keccak_loop (fuel : nat) (st : list Z) (rsiz : nat) (input : list Z) : list Z :=
  match fuel with
  | O => st
  | S fuel =>
      if (rsiz <=? length input)%nat
      then keccak_loop fuel (permute (absorb st input (rsiz / 8))) rsiz (drop rsiz input)
      else
        let temp := input ++ [1] in
        let temp := temp ++ replicate (rsiz - length temp) 0 in
        let temp := <[(rsiz - 1)%nat := Z.lor (nth (rsiz - 1) temp 0) 0x80]> temp in
        permute (absorb st temp (rsiz / 8))
  end.

Definition keccak (input : list Z) (mdlen : nat) : list Z :=
  let rsiz := if (mdlen =? 200)%nat then 136%nat else (200 - 2 * mdlen)%nat in
  let st := keccak_loop (S (length input)) (replicate 25 0) rsiz input in
  take mdlen (flat_map (le_bytes 8) st).

Definition keccak1600 (input : list Z) : list Z := keccak input 200.

Definition HASH_SIZE : nat := 32.

Definition fast_hash (data : list Z) : list Z := take HASH_SIZE (keccak1600 data).

(** Keccak-256 of the empty message. *)
Example fast_hash_empty :
  fast_hash [] =
  [0xc5; 0xd2; 0x46; 0x01; 0x86; 0xf7; 0x23; 0x3c; 0x92; 0x7e; 0x7d; 0xb2; 0xdc; 0xc7; 0x03; 0xc0;
   0xe5; 0x00; 0xb6; 0x53; 0xca; 0x82; 0x27; 0x3b; 0x7b; 0xfa; 0xd8; 0x04; 0x5d; 0x85; 0xa4; 0x70].
Proof. vm_compute. reflexivity. Qed.

(** ** The step mappings of the Keccak standard (FIPS 202)

    A lane has coordinates (x, y) and index x + 5 y; each mapping gives the
    new value of every lane from the old state. *)
Module Fips.
Section fips.
(** Cyclic left rotation of a 64-bit lane. *)
Context (rot : Z -> Z -> Z).

Definition A (st : list Z) (x y : nat) : Z := lane st (x mod 5 + 5 * (y mod 5)).
Definition from_lanes (f : nat -> nat -> Z) : list Z :=
  map (fun i => f (i mod 5)%nat (i / 5)%nat) (seq 0 25).

Definition C (st : list Z) (x : nat) : Z :=
  Z.lxor (Z.lxor (Z.lxor (Z.lxor (A st x 0) (A st x 1)) (A st x 2)) (A st x 3)) (A st x 4).
Definition theta (st : list Z) : list Z :=
  from_lanes (fun x y => Z.lxor (A st x y) (Z.lxor (C st (x + 4)) (rot (C st (x + 1)) 1))).

(** Offsets: start at (1, 0); at step t the offset is (t+1)(t+2)/2 and the
    walk continues at (y, 2x + 3y). *)
Fixpoint rho_walk (n : nat) (t : Z) (x y : nat) (x0 y0 : nat) : Z :=
  match n with
  | O => 0
  | S n => if (x =? x0)%nat && (y =? y0)%nat then ((t + 1) * (t + 2) / 2) mod 64
           else rho_walk n (t + 1) y ((2 * x + 3 * y) mod 5) x0 y0
  end.
Definition rho (st : list Z) : list Z :=
  from_lanes (fun x y => rot (A st x y) (rho_walk 24 0 1 0 x y)).

Definition pi (st : list Z) : list Z := from_lanes (fun x y => A st (x + 3 * y) x).

Definition chi (st : list Z) : list Z :=
  from_lanes (fun x y => Z.lxor (A st x y) (Z.land (not64 (A st (x + 1) y)) (A st (x + 2) y))).

(** The round constants: bit 2^j - 1 of the constant of round ir is rc(j + 7 ir), where rc is the
    output of the shift register with the polynomial x^8 + x^6 + x^5 + x^4 + 1. *)
Definition rc_step (R : list bool) : list bool :=
  match R with
  | [r0; r1; r2; r3; r4; r5; r6; r7] => [r7; r0; r1; r2; xorb r3 r7; xorb r4 r7; xorb r5 r7; r6]
  | _ => R
  end.
Definition rc (t : nat) : bool :=
  hd false (Nat.iter (t mod 255) rc_step [true; false; false; false; false; false; false; false]).
Definition RC (ir : nat) : Z :=
  fold_right Z.lxor 0 (map (fun j => if rc (j + 7 * ir) then 2 ^ (2 ^ Z.of_nat j - 1) else 0) (seq 0 7)).

Definition iota (round : nat) (st : list Z) : list Z :=
  from_lanes (fun x y => if (x =? 0)%nat && (y =? 0)%nat
                         then Z.lxor (A st x y) (RC round) else A st x y).

Definition round (st : list Z) (ir : nat) : list Z := iota ir (chi (pi (rho (theta st)))).
End fips.

(** Rotation as arithmetic: the bits shifted out come back at the bottom. *)
Definition rot64 (x r : Z) : Z := (x * 2 ^ r) mod 2 ^ 64 + (x * 2 ^ r) / 2 ^ 64.
End Fips.

Ltac lanes st H :=
  do 25 (destruct st as [|? st]; [discriminate H|]); destruct st; [clear H|discriminate H].

Lemma theta_fips st : length st = 25%nat -> theta st = Fips.theta ROTL64 st.
Proof. intros H. lanes st H. cbv -[Z.lxor ROTL64]. reflexivity. Qed.

Lemma chi_fips st : length st = 25%nat -> chi st = Fips.chi st.
Proof. intros H. lanes st H. cbv -[Z.lxor Z.land not64]. reflexivity. Qed.

(** The table of the code has the constants of the standard. *)
Lemma rndc_fips : keccakf_rndc = map Fips.RC (seq 0 24).
Proof. vm_compute. reflexivity. Qed.

Lemma rndc_lookup r : keccakf_rndc !! r = if (r <? 24)%nat then Some (Fips.RC r) else None.
Proof.
  rewrite rndc_fips, list_lookup_fmap. destruct (Nat.ltb_spec r 24).
  - by rewrite lookup_seq_lt by done.
  - by rewrite lookup_seq_ge by done.
Qed.

Lemma iota_fips st r : length st = 25%nat -> iota (Fips.RC r) st = Fips.iota r st.
Proof. intros H. lanes st H. cbv -[Z.lxor Fips.RC]. reflexivity. Qed.

Lemma ROTL64_0 x : in_u 64 x -> ROTL64 x 0 = x.
Proof.
  intros H. unfold ROTL64. rewrite Z.shiftl_0_r, wrap_small, Z.shiftr_div_pow2 by (done || lia).
  rewrite Z.div_small by done. apply Z.lor_0_r.
Qed.

Lemma rho_pi_fips st :
  length st = 25%nat -> in_u 64 (lane st 0) -> rho_pi st = Fips.pi (Fips.rho ROTL64 st).
Proof.
  intros H H0. lanes st H. apply ROTL64_0 in H0. cbn [lane nth] in H0.
  cbv -[ROTL64]. by rewrite H0.
Qed.

Lemma ROTL64_rot64 x r : in_u 64 x -> 0 <= r < 64 -> ROTL64 x r = Fips.rot64 x r.
Proof.
  intros Hx Hr. unfold ROTL64, Fips.rot64, wrap.
  assert (0 < 2 ^ r) by (apply Z.pow_pos_nonneg; lia).
  assert (E : 2 ^ 64 = 2 ^ (64 - r) * 2 ^ r) by (rewrite <- Z.pow_add_r by lia; f_equal; lia).
  assert (0 < 2 ^ (64 - r)) by (apply Z.pow_pos_nonneg; lia).
  rewrite Z.shiftl_mul_pow2, Z.shiftr_div_pow2, E by lia.
  rewrite Zmult_mod_distr_r, Z.div_mul_cancel_r by lia.
  assert (Hq : in_u r (x / 2 ^ (64 - r))).
  { unfold in_u in *. split; [apply Z.div_pos; lia|apply Z.div_lt_upper_bound; lia]. }
  rewrite <- Z.shiftl_mul_pow2, lor_shiftl_add_l, <- Z.shiftl_mul_pow2 by (done || lia). done.
Qed.

(** ** Well-formed states: 25 lanes of 64 bits *)

Definition wf_state (st : list Z) : Prop := length st = 25%nat /\ Forall (in_u 64) st.

Lemma lane_range st i : Forall (in_u 64) st -> in_u 64 (lane st i).
Proof.
  intros H. unfold lane. destruct (nth_in_or_default i st 0) as [Hin| ->]; [|mlia].
  rewrite List.Forall_forall in H. by apply H.
Qed.

Lemma ROTL64_range x r : in_u 64 x -> 0 <= r <= 64 -> in_u 64 (ROTL64 x r).
Proof.
  intros Hx Hr. unfold ROTL64. apply in_u_lor; [lia|apply wrap_range; lia|].
  apply in_u_shiftr; [lia|lia|done].
Qed.

Lemma from_lanes_wf f : (forall x y, in_u 64 (f x y)) -> wf_state (Fips.from_lanes f).
Proof.
  intros H. split; [reflexivity|]. unfold Fips.from_lanes. apply Forall_map, Forall_true. auto.
Qed.

Lemma rho_walk_range n t x y x0 y0 : 0 <= Fips.rho_walk n t x y x0 y0 < 64.
Proof.
  revert t x y. induction n as [|n IH]; intros t x y; cbn; [lia|].
  destruct (_ && _); [apply Z.mod_pos_bound; lia|apply IH].
Qed.

#[local] Hint Resolve lane_range : mach.

Lemma C_range st x : Forall (in_u 64) st -> in_u 64 (Fips.C st x).
Proof. intros H. unfold Fips.C, Fips.A. repeat (apply in_u_lxor; [lia| |]); by apply lane_range. Qed.

Lemma fips_theta_wf st : Forall (in_u 64) st -> wf_state (Fips.theta ROTL64 st).
Proof.
  intros H. apply from_lanes_wf. intros x y. unfold Fips.A.
  repeat (apply in_u_lxor; [lia| |]); try by apply lane_range; try by apply C_range.
  apply ROTL64_range; [by apply C_range|lia].
Qed.

Lemma fips_rho_wf st : Forall (in_u 64) st -> wf_state (Fips.rho ROTL64 st).
Proof.
  intros H. apply from_lanes_wf. intros x y. pose proof (rho_walk_range 24 0 1 0 x y).
  apply ROTL64_range; [by apply lane_range|lia].
Qed.

Lemma fips_pi_wf st : Forall (in_u 64) st -> wf_state (Fips.pi st).
Proof. intros H. apply from_lanes_wf. intros x y. by apply lane_range. Qed.

Lemma fips_chi_wf st : Forall (in_u 64) st -> wf_state (Fips.chi st).
Proof.
  intros H. apply from_lanes_wf. intros x y. unfold Fips.A.
  apply in_u_lxor; [lia|by apply lane_range|]. apply in_u_land_r; [lia|by apply lane_range].
Qed.

Lemma rndc_range r : (r < 24)%nat -> in_u 64 (Fips.RC r).
Proof.
  intros Hr. assert (H : Forall (in_u 64) keccakf_rndc) by (apply (bool_decide_unpack _); vm_compute; exact I).
  rewrite Forall_lookup in H. apply (H r). rewrite rndc_lookup. by rewrite (proj2 (Nat.ltb_lt _ _)) by done.
Qed.

Lemma fips_iota_wf r st : (r < 24)%nat -> Forall (in_u 64) st -> wf_state (Fips.iota r st).
Proof.
  intros Hr H. apply from_lanes_wf. intros x y. destruct (_ && _); [|by apply lane_range].
  apply in_u_lxor; [lia|by apply lane_range|by apply rndc_range].
Qed.

Lemma fips_theta_rot st : Forall (in_u 64) st -> Fips.theta ROTL64 st = Fips.theta Fips.rot64 st.
Proof.
  intros H. apply map_ext. intros i. f_equal. f_equal.
  apply ROTL64_rot64; [by apply C_range|lia].
Qed.

Lemma fips_rho_rot st : Forall (in_u 64) st -> Fips.rho ROTL64 st = Fips.rho Fips.rot64 st.
Proof.
  intros H. apply map_ext. intros i. apply ROTL64_rot64; [by apply lane_range|apply rho_walk_range].
Qed.

(** One round of the code is one round of the standard, on every state. *)
Lemma keccakf_round_fips st r :
  wf_state st -> (r < 24)%nat ->
  keccakf_round st r = Some (Fips.round Fips.rot64 st r) /\ wf_state (Fips.round Fips.rot64 st r).
Proof.
  intros [Hl Hr] H24. unfold keccakf_round, Fips.round.
  rewrite rndc_lookup, (proj2 (Nat.ltb_lt _ _)) by done. cbn [mbind option_bind].
  rewrite theta_fips by done. destruct (fips_theta_wf st Hr) as [Hl1 Hr1].
  rewrite rho_pi_fips by (try done; by apply lane_range).
  destruct (fips_rho_wf _ Hr1) as [_ Hr2]. destruct (fips_pi_wf _ Hr2) as [Hl3 Hr3].
  rewrite chi_fips by done. destruct (fips_chi_wf _ Hr3) as [Hl4 Hr4].
  rewrite iota_fips by done. rewrite fips_rho_rot, fips_theta_rot in * by done.
  split; [done|]. by apply fips_iota_wf.
Qed.

Lemma rounds_fips l st :
  wf_state st -> Forall (fun r => r < 24)%nat l ->
  keccakf_rounds l st = Some (fold_left (Fips.round Fips.rot64) l st) /\
  wf_state (fold_left (Fips.round Fips.rot64) l st).
Proof.
  intros H Hl. revert st H. induction Hl as [|r l Hr _ IH]; intros st H; [done|]. cbn [keccakf_rounds fold_left].
  destruct (keccakf_round_fips st r H Hr) as [-> W]. cbn [mbind option_bind]. by apply IH.
Qed.

Lemma rounds_past l : forall st, (24%nat ∈ l) -> keccakf_rounds l st = None.
Proof.
  induction l as [|r l IH]; intros st H24; [by apply not_elem_of_nil in H24|]. cbn [keccakf_rounds].
  apply elem_of_cons in H24 as [<-|H24]; [done|]. destruct (keccakf_round st r); cbn [mbind option_bind]; [by apply IH|done].
Qed.

Lemma seq_24 n : (n <= 24)%nat -> Forall (fun r => r < 24)%nat (seq 0 n).
Proof. intros H. apply Forall_seq. lia. Qed.

Lemma keccakf_some n st :
  wf_state st -> (n <= 24)%nat ->
  keccakf st n = Some (default st (keccakf st n)) /\ wf_state (default st (keccakf st n)).
Proof.
  intros H Hn. destruct (rounds_fips (seq 0 n) st H (seq_24 n Hn)) as [E W]. unfold keccakf. by rewrite E.
Qed.

Lemma permute_spec st : wf_state st -> keccakf st KECCAK_ROUNDS = Some (permute st) /\ wf_state (permute st).
Proof. intros H. exact (keccakf_some KECCAK_ROUNDS st H (le_n 24)). Qed.

(** C40. keccakf computes, for up to 24 rounds and on every state of 25 64-bit
    lanes, the rounds of the FIPS 202 standard, written as lane equations over
    (x, y) coordinates with arithmetic rotation and with round constants from
    the shift register of the standard, and the state stays well formed; for
    more than 24 rounds it reads outside the table of constants. *)
Theorem keccakf_fips202 st rounds :
  wf_state st ->
  ((rounds <= 24)%nat -> keccakf st rounds = Some (fold_left (Fips.round Fips.rot64) (seq 0 rounds) st) /\
     wf_state (fold_left (Fips.round Fips.rot64) (seq 0 rounds) st)) /\
  ((24 < rounds)%nat -> keccakf st rounds = None).
Proof.
  intros H. split; intros Hr; [exact (rounds_fips (seq 0 rounds) st H (seq_24 rounds Hr))|].
  apply rounds_past, elem_of_seq. lia.
Qed.

Lemma keccakf_fips202_witness :
  keccakf (replicate 25 0) 24 = Some (fold_left (Fips.round Fips.rot64) (seq 0 24) (replicate 25 0)).
Proof.
  assert (W : wf_state (replicate 25 0)) by (split; [reflexivity|apply Forall_replicate; mlia]).
  exact (proj1 (proj1 (keccakf_fips202 (replicate 25 0) 24 W) (le_n 24))).
Defined.

(** ** The sponge *)

Lemma wf_insert st i v : wf_state st -> in_u 64 v -> wf_state (<[i := v]> st).
Proof. intros [Hl Hr] Hv. split; [by rewrite length_insert|]. by apply Forall_insert. Qed.

Lemma absorb_wf st block n :
  wf_state st -> Forall is_byte block -> wf_state (absorb st block n).
Proof.
  intros H Hb. unfold absorb. generalize (seq 0 n). intros l. revert st H.
  induction l as [|i l IH]; intros st H; [done|]. cbn [fold_left]. apply IH, wf_insert; [done|].
  apply in_u_lxor; [lia|apply lane_range, H|].
  pose proof (le_val_range (take 8 (drop (8 * i) block)) ltac:(by apply Forall_take, Forall_drop)) as Hv.
  split; [lia|]. eapply Z.lt_le_trans; [apply Hv|]. change (2 ^ 64) with (256 ^ 8).
  apply Z.pow_le_mono_r; [lia|]. rewrite length_take. lia.
Qed.

Lemma keccak_loop_wf fuel st rsiz input :
  wf_state st -> Forall is_byte input -> wf_state (keccak_loop fuel st rsiz input).
Proof.
  revert st input. induction fuel as [|fuel IH]; intros st input H Hb; [done|]. cbn [keccak_loop].
  destruct (rsiz <=? length input)%nat.
  - apply IH; [|by apply Forall_drop]. by apply permute_spec, absorb_wf.
  - apply permute_spec, absorb_wf; [done|].
    assert (Ht : Forall is_byte ((input ++ [1]) ++ replicate (rsiz - length (input ++ [1])) 0)).
    { apply Forall_app. split; [apply Forall_app; split; [done|]|apply Forall_replicate; mlia].
      constructor; [mlia|done]. }
    apply Forall_insert; [done|]. apply in_u_lor; [lia| |mlia].
    destruct (nth_in_or_default (rsiz - 1) ((input ++ [1]) ++ replicate (rsiz - length (input ++ [1])) 0) 0)
      as [Hin| ->]; [|mlia].
    rewrite List.Forall_forall in Ht. by apply Ht.
Qed.

Lemma flat_map_le_bytes_length st : length (flat_map (le_bytes 8) st) = (8 * length st)%nat.
Proof. induction st as [|x st IH]; [done|]. cbn [flat_map length]. rewrite length_app, le_bytes_length, IH. lia. Qed.

(** Every step keeps the number of lanes. *)
Lemma fold_left_length {B} (f : list Z -> B -> list Z) l st :
  (forall st x, length (f st x) = length st) -> length (fold_left f l st) = length st.
Proof. intros H. revert st. induction l as [|x l IH]; intros st; cbn; [done|]. by rewrite IH, H. Qed.

Lemma rho_pi_length st : length (rho_pi st) = length st.
Proof.
  unfold rho_pi. generalize (lane st 1), (seq 0 24). intros t l. revert st t.
  induction l as [|i l IH]; intros st t; [done|]. cbn [fold_left]. rewrite IH. apply length_insert.
Qed.

Lemma keccakf_round_length st r st' : keccakf_round st r = Some st' -> length st' = length st.
Proof.
  unfold keccakf_round. destruct (keccakf_rndc !! r) as [c|]; cbn [mbind option_bind]; [|done].
  intros E%Some_inj. subst st'. unfold iota. rewrite length_insert. unfold chi. rewrite fold_left_length.
  - rewrite rho_pi_length. apply fold_left_length. intros st' i. apply fold_left_length.
    intros. apply length_insert.
  - intros st' j. apply fold_left_length. intros. apply length_insert.
Qed.

Lemma keccakf_rounds_length l : forall st st', keccakf_rounds l st = Some st' -> length st' = length st.
Proof.
  induction l as [|r l IH]; intros st st'; cbn [keccakf_rounds]; [by intros [= <-]|].
  destruct (keccakf_round st r) as [st1|] eqn:E; cbn [mbind option_bind]; [|done].
  intros ->%IH. by apply keccakf_round_length in E.
Qed.

Lemma permute_length st : length (permute st) = length st.
Proof.
  unfold permute, keccakf. generalize (seq 0 KECCAK_ROUNDS). intros l.
  destruct (keccakf_rounds l st) as [st'|] eqn:E; [by apply keccakf_rounds_length in E|done].
Qed.

Lemma keccak_loop_length fuel st rsiz input : length (keccak_loop fuel st rsiz input) = length st.
Proof.
  assert (Ha : forall st block n, length (absorb st block n) = length st).
  { intros. apply fold_left_length. intros. apply length_insert. }
  revert st input. induction fuel as [|fuel IH]; intros st input; [done|]. cbn [keccak_loop].
  destruct (rsiz <=? length input)%nat; rewrite ?IH; by rewrite permute_length, Ha.
Qed.

Lemma fast_hash_size data : length (fast_hash data) = HASH_SIZE.
Proof.
  unfold fast_hash, keccak1600, keccak.
  by rewrite !length_take, flat_map_le_bytes_length, keccak_loop_length.
Qed.

Lemma fast_hash_bytes data : Forall is_byte (fast_hash data).
Proof.
  unfold fast_hash, keccak1600, keccak. apply Forall_take, Forall_take.
  induction (keccak_loop _ _ _ _) as [|x st IH]; [constructor|]. cbn [flat_map].
  apply Forall_app. split; [apply le_bytes_range|done].
Qed.

#[export] Instance keccak_FastHash : FastHash := {
  cn_fast_hash := fast_hash;
  cn_fast_hash_length := fast_hash_size;
  cn_fast_hash_bytes := fast_hash_bytes;
}.
End Keccak.
