(* ===== verification/Base58.v ===== *)
(** Base58 block coding and checksummed addresses: [src/src/Common/Base58.cpp].
    Strings are lists of byte values. *)

From S2P Require Import Prelude IntUtil Varint Keccak.
Import IntUtil Varint.

Module Base58.

Definition alphabet : list Z :=
  [49; 50; 51; 52; 53; 54; 55; 56; 57;
   65; 66; 67; 68; 69; 70; 71; 72; 74; 75; 76; 77; 78; 80; 81; 82; 83; 84; 85; 86; 87; 88; 89; 90;
   97; 98; 99; 100; 101; 102; 103; 104; 105; 106; 107; 109; 110; 111; 112; 113; 114; 115; 116; 117;
   118; 119; 120; 121; 122].

Definition alphabet_size : Z := Z.of_nat (length alphabet).

Definition encoded_block_sizes : list Z := [0; 2; 3; 5; 6; 7; 9; 10; 11].

Definition full_block_size : Z := Z.of_nat (length encoded_block_sizes) - 1.

(** Array reads of the source; the indices are in range wherever they are used. *)
Definition at_ (l : list Z) (i : Z) : Z := nth (Z.to_nat i) l 0.

Definition full_encoded_block_size : Z := at_ encoded_block_sizes full_block_size.

Definition addr_checksum_size : Z := 4.

(** [reverse_alphabet]: a table of digit values indexed from ['1'], and its
    call operator, in which [letter] is a signed [char]. *)
Definition reverse_alphabet_data : list Z :=
  fold_left
    (fun m_data i => <[Z.to_nat (at_ alphabet i - at_ alphabet 0) := i]> m_data)
    (seqZ 0 alphabet_size)
    (replicate (Z.to_nat (at_ alphabet (alphabet_size - 1) - at_ alphabet 0 + 1)) (-1)).

Definition reverse_alphabet (letter : Z) : Z :=
  let idx := u64 (s8 letter - at_ alphabet 0) in
  if idx <? Z.of_nat (length reverse_alphabet_data) then at_ reverse_alphabet_data idx else -1.

(** [decoded_block_sizes]: the table from encoded to decoded block size, -1 elsewhere. *)
Definition decoded_block_sizes_data : list Z :=
  fold_left
    (fun m_data i => <[Z.to_nat (at_ encoded_block_sizes i) := i]> m_data)
    (seqZ 0 (full_block_size + 1))
    (replicate (Z.to_nat (at_ encoded_block_sizes full_block_size + 1)) (-1)).

Definition decoded_block_sizes (encoded_block_size : Z) : Z :=
  at_ decoded_block_sizes_data encoded_block_size.

(** The [switch] with fallthrough: one shift-and-or per byte of the block. *)
Definition uint_8be_to_64 (data : list Z) : Z :=
  fold_left (fun res b => Z.lor (u64 (Z.shiftl res 8)) b) data 0.

Definition uint_64_to_8be (num size : Z) : list Z :=
  let num_be := SWAP64BE num in
  drop (Z.to_nat (8 - size)) (le_bytes 8 num_be).

(** The division loop of [encode_block]. [res] is the output block, [i] the
    position written next; a write outside the block is an error ([None]). *)
Fixpoint encode_block_loop (fuel : nat) (num i : Z) (res : list Z) : option (list Z) :=
  if 0 <? num then
    match fuel with
    | O => None
    | S fuel =>
        let remainder := num mod alphabet_size in
        let num := num / alphabet_size in
        if (0 <=? i) && (i <? Z.of_nat (length res))
        then encode_block_loop fuel num (i - 1) (<[Z.to_nat i := at_ alphabet remainder]> res)
        else None
    end
  else Some res.

(** [encode_block] on its region of the result string, filled with
    [alphabet[0]] by [encode]. *)
Definition encode_block (block : list Z) : option (list Z) :=
  let size := Z.of_nat (length block) in
  let num := uint_8be_to_64 block in
  let res_size := at_ encoded_block_sizes size in
  encode_block_loop (S (Z.to_nat (Z.log2 num))) num (res_size - 1)
    (replicate (Z.to_nat res_size) (at_ alphabet 0)).

(** The loop of [decode_block] over the block read from its end. *)
Fixpoint decode_block_loop (order res_num : Z) (rblock : list Z) : option Z :=
  match rblock with
  | [] => Some res_num
  | c :: rblock =>
      let digit := reverse_alphabet c in
      if digit <? 0 then None
      else
        let '(product_lo, product_hi) := mul128 order digit in
        let tmp := u64 (res_num + product_lo) in
        if (tmp <? res_num) || negb (product_hi =? 0) then None
        else decode_block_loop (u64 (order * alphabet_size)) tmp rblock
  end.

Definition decode_block (block : list Z) : option (list Z) :=
  let res_size := decoded_block_sizes (Z.of_nat (length block)) in
  if res_size <=? 0 then None
  else
    match decode_block_loop 1 0 (reverse block) with
    | None => None
    | Some res_num =>
        if (res_size <? full_block_size) && (Z.shiftl 1 (8 * res_size) <=? res_num) then None
        else Some (uint_64_to_8be res_num res_size)
    end.

(** The [i]-th block of [size] characters of a string. *)
Definition block_at (data : list Z) (size i : Z) : list Z :=
  take (Z.to_nat size) (drop (Z.to_nat (i * size)) data).

Definition encode (data : list Z) : option (list Z) :=
  if decide (data = []) then Some []
  else
    let full_block_count := Z.of_nat (length data) / full_block_size in
    let last_block_size := Z.of_nat (length data) mod full_block_size in
    full ← mapM (fun i => encode_block (block_at data full_block_size i)) (seqZ 0 full_block_count);
    last ← (if 0 <? last_block_size
            then encode_block (drop (Z.to_nat (full_block_count * full_block_size)) data)
            else Some []);
    Some (mjoin full ++ last).

Definition decode (enc : list Z) : option (list Z) :=
  if decide (enc = []) then Some []
  else
    let full_block_count := Z.of_nat (length enc) / full_encoded_block_size in
    let last_block_size := Z.of_nat (length enc) mod full_encoded_block_size in
    let last_block_decoded_size := decoded_block_sizes last_block_size in
    if last_block_decoded_size <? 0 then None
    else
      full ← mapM (fun i => decode_block (block_at enc full_encoded_block_size i)) (seqZ 0 full_block_count);
      last ← (if 0 <? last_block_size
              then decode_block (drop (Z.to_nat (full_block_count * full_encoded_block_size)) enc)
              else Some []);
      Some (mjoin full ++ last).

Section address.
(** [Crypto::cn_fast_hash], through its interface. *)
Context `{FH : FastHash}.

Definition encode_addr (tag : Z) (data : list Z) : option (list Z) :=
  let buf := get_varint_data tag ++ data in
  let hash := cn_fast_hash buf in
  encode (buf ++ take (Z.to_nat addr_checksum_size) hash).

Definition decode_addr (addr : list Z) : option (Z * list Z) :=
  addr_data ← decode addr;
  let size := length addr_data in
  if Z.of_nat size <=? addr_checksum_size then None
  else
    let n := (size - Z.to_nat addr_checksum_size)%nat in
    let checksum := drop n addr_data in
    let addr_data := take n addr_data in
    let hash := cn_fast_hash addr_data in
    let expected_checksum := take (Z.to_nat addr_checksum_size) hash in
    if decide (expected_checksum = checksum) then
      let '(read, tag, _) := read_varint 64 addr_data in
      if read <=? 0 then None else Some (tag, drop (Z.to_nat read) addr_data)
    else None.
End address.

(** ** Base 58 digits *)

(** The [n] digits of a number, most significant first, and their value. *)
Fixpoint digits58 (n : nat) (num : Z) : list Z :=
  match n with
  | O => []
  | S n => digits58 n (num / 58) ++ [num mod 58]
  end.

Fixpoint val58 (ds : list Z) : Z :=   (* least significant first *)
  match ds with
  | [] => 0
  | d :: ds => d + 58 * val58 ds
  end.

Lemma digits58_length n num : length (digits58 n num) = n.
Proof. revert num. induction n as [|n IH]; intros num; cbn; [done|]. rewrite length_app, IH. cbn. lia. Qed.

Lemma digits58_range n num : Forall (fun d => 0 <= d < 58) (digits58 n num).
Proof.
  revert num. induction n as [|n IH]; intros num; cbn; [done|].
  apply Forall_app. split; [done|]. constructor; [|done]. apply Z.mod_pos_bound. lia.
Qed.

Lemma pow58_S (n : nat) : 58 ^ Z.of_nat (S n) = 58 * 58 ^ Z.of_nat n.
Proof. rewrite Nat2Z.inj_succ. apply Z.pow_succ_r. lia. Qed.

Lemma pow58_pos (n : nat) : 0 < 58 ^ Z.of_nat n.
Proof. apply Z.pow_pos_nonneg; lia. Qed.

Lemma val58_digits58 n num :
  0 <= num < 58 ^ Z.of_nat n -> val58 (reverse (digits58 n num)) = num.
Proof.
  revert num. induction n as [|n IH]; intros num Hn; [cbn in *; lia|].
  cbn [digits58]. rewrite reverse_app. cbn [reverse rev_append app val58].
  rewrite pow58_S in Hn. rewrite IH by (Z.div_mod_to_equations; lia).
  Z.div_mod_to_equations; lia.
Qed.

Lemma digits58_val58 ds :
  Forall (fun d => 0 <= d < 58) ds -> digits58 (length ds) (val58 ds) = reverse ds.
Proof.
  induction 1 as [|d ds Hd _ IH]; [done|]. cbn [length digits58 val58].
  rewrite (Z.mul_comm 58), Z.div_add, Z_mod_plus_full, Z.div_small, Z.mod_small by lia.
  rewrite Z.add_0_l, IH. by rewrite reverse_cons.
Qed.

Lemma val58_range ds : Forall (fun d => 0 <= d < 58) ds -> 0 <= val58 ds < 58 ^ Z.of_nat (length ds).
Proof.
  induction 1 as [|d ds Hd _ IH]; [cbn; lia|]. cbn [val58 length]. rewrite pow58_S. lia.
Qed.

(** ** The alphabet is a bijection between digits and letters *)

Lemma reverse_alphabet_alphabet d : 0 <= d < 58 -> reverse_alphabet (at_ alphabet d) = d.
Proof.
  change 58 with (Z.of_nat 58). revert d. apply all_below.
  apply (bool_decide_unpack _). vm_compute. exact I.
Qed.

Lemma alphabet_reverse_alphabet c :
  is_byte c -> 0 <= reverse_alphabet c ->
  at_ alphabet (reverse_alphabet c) = c /\ reverse_alphabet c < 58.
Proof.
  intros Hc. unfold in_u in Hc. change (2 ^ 8) with (Z.of_nat 256) in Hc. revert c Hc.
  apply (all_below 256 (fun c => 0 <= reverse_alphabet c ->
    at_ alphabet (reverse_alphabet c) = c /\ reverse_alphabet c < 58)).
  apply (bool_decide_unpack _). vm_compute. exact I.
Qed.

Lemma alphabet_byte d : 0 <= d < 58 -> is_byte (at_ alphabet d).
Proof.
  change 58 with (Z.of_nat 58). revert d. apply all_below.
  apply (bool_decide_unpack _). vm_compute. exact I.
Qed.

(** ** Blocks *)

Lemma at_alphabet_0 : at_ alphabet 0 = 49.
Proof. done. Qed.

Lemma digits58_0 n : digits58 n 0 = replicate n 0.
Proof.
  induction n as [|n IH]; [done|]. cbn [digits58]. change (0 / 58) with 0. rewrite IH.
  symmetry. apply replicate_S_end.
Qed.

Lemma log2_div58 num : 0 < num / 58 -> 0 <= Z.log2 (num / 58) < Z.log2 num.
Proof.
  intros H. assert (58 <= num) by (Z.div_mod_to_equations; lia). split; [apply Z.log2_nonneg|].
  assert (Hle : num / 58 <= num / 2) by (Z.div_mod_to_equations; lia).
  apply Z.log2_le_mono in Hle. change 2 with (2 ^ 1) in Hle.
  rewrite <- Z.shiftr_div_pow2, Z.log2_shiftr in Hle by lia.
  pose proof (Z.log2_pos num). lia.
Qed.

Lemma encode_block_loop_spec k fuel num suf :
  0 <= num < 58 ^ Z.of_nat k -> (0 < num -> (Z.to_nat (Z.log2 num) < fuel)%nat) ->
  encode_block_loop fuel num (Z.of_nat k - 1) (replicate k (at_ alphabet 0) ++ suf) =
    Some (map (at_ alphabet) (digits58 k num) ++ suf).
Proof.
  revert fuel num suf. induction k as [|k IH]; intros fuel num suf Hn Hf.
  - assert (num = 0) as -> by (cbn in Hn; lia). by destruct fuel.
  - destruct (Z.ltb_spec 0 num) as [Hpos|Hz].
    + specialize (Hf Hpos). destruct fuel as [|fuel]; [lia|]. cbn [encode_block_loop].
      destruct (Z.ltb_spec 0 num); [|lia].
      replace (Z.of_nat (S k) - 1) with (Z.of_nat k) by lia.
      rewrite length_app, length_replicate.
      destruct (Z.leb_spec 0 (Z.of_nat k)); [|lia].
      destruct (Z.ltb_spec (Z.of_nat k) (Z.of_nat (S k + length suf))); [|lia]. cbn [andb].
      rewrite Nat2Z.id, replicate_S_end, <- app_assoc.
      rewrite insert_app_r_alt by (rewrite length_replicate; lia).
      rewrite length_replicate, Nat.sub_diag. cbn [app list_insert insert].
      change alphabet_size with 58. rewrite pow58_S in Hn.
      rewrite IH; [|Z.div_mod_to_equations; lia|].
      * cbn [digits58]. rewrite map_app, <- app_assoc. done.
      * intros Hq. pose proof (log2_div58 num). lia.
    + assert (num = 0) as -> by lia. rewrite digits58_0.
      assert (E : map (at_ alphabet) (replicate (S k) 0) = replicate (S k) (at_ alphabet 0)).
      { clear. induction (S k) as [|n IHn]; cbn; [done|]. by rewrite IHn. }
      rewrite E. by destruct fuel.
Qed.

Lemma uint_8be_app data b : uint_8be_to_64 (data ++ [b]) = Z.lor (u64 (Z.shiftl (uint_8be_to_64 data) 8)) b.
Proof. unfold uint_8be_to_64. by rewrite fold_left_app. Qed.

(** The big-endian value of a block of at most eight bytes. *)
Lemma uint_8be_to_64_spec data :
  Forall is_byte data -> (length data <= 8)%nat -> uint_8be_to_64 data = le_val (reverse data).
Proof.
  intros Hb. induction data as [|b data IH] using rev_ind; intros Hl; [done|].
  apply Forall_app in Hb as [Hd Hb]. apply (Forall_singleton is_byte b) in Hb.
  rewrite length_app in Hl. cbn in Hl.
  rewrite uint_8be_app, IH by (done || lia). rewrite reverse_app. cbn [reverse rev_append app le_val].
  assert (Hr : 0 <= le_val (reverse data) < 256 ^ Z.of_nat (length data)).
  { rewrite <- length_reverse. apply le_val_range. by apply Forall_reverse. }
  assert (Hp : 256 ^ Z.of_nat (length data) <= 256 ^ 7) by (apply Z.pow_le_mono_r; lia).
  rewrite wrap_small.
  - rewrite lor_shiftl_add_l by (done || lia). change (2 ^ 8) with 256. lia.
  - rewrite Z.shiftl_mul_pow2 by lia. change (256 ^ 7) with (2 ^ 56) in Hp. mlia.
Qed.

Lemma le_bytes_take n m num : (n <= m)%nat -> take n (le_bytes m num) = le_bytes n num.
Proof.
  revert m num. induction n as [|n IH]; intros m num Hm; [done|].
  destruct m as [|m]; [lia|]. cbn. by rewrite IH by lia.
Qed.

Lemma uint_64_to_8be_spec num (size : nat) :
  (size <= 8)%nat -> uint_64_to_8be num (Z.of_nat size) = reverse (le_bytes size num).
Proof.
  intros Hs. unfold uint_64_to_8be, SWAP64BE. rewrite SWAP64_bytes.
  replace (Z.to_nat (8 - Z.of_nat size)) with (8 - size)%nat by lia.
  rewrite <- (le_bytes_take size 8) by done.
  rewrite <- (take_drop size (le_bytes 8 num)) at 1. rewrite reverse_app.
  apply drop_app_length'. rewrite length_reverse, length_drop, le_bytes_length. done.
Qed.

(** [size] decoded bytes take [enc_size size] letters; the table lookups agree with it. *)
Definition enc_size (size : nat) : nat := Z.to_nat (at_ encoded_block_sizes (Z.of_nat size)).

Lemma enc_size_facts (size : nat) :
  (1 <= size <= 8)%nat ->
  at_ encoded_block_sizes (Z.of_nat size) = Z.of_nat (enc_size size) /\
  decoded_block_sizes (Z.of_nat (enc_size size)) = Z.of_nat size /\
  256 ^ Z.of_nat size <= 58 ^ Z.of_nat (enc_size size) /\ (enc_size size <= 11)%nat.
Proof.
  intros H. do 9 (destruct size as [|size]; [first [lia | repeat split; (reflexivity || vm_compute; congruence || (vm_compute; lia))]|]). lia.
Qed.

Lemma decoded_block_sizes_pos (n : nat) :
  (n <= 11)%nat -> 0 < decoded_block_sizes (Z.of_nat n) ->
  exists size, (1 <= size <= 8)%nat /\ n = enc_size size.
Proof.
  intros Hn H. do 12 (destruct n as [|n]; [first
    [ vm_compute in H; discriminate
    | match goal with |- exists _, _ /\ ?m = _ =>
        first [exists 1%nat; split; [lia|reflexivity] | exists 2%nat; split; [lia|reflexivity]
              |exists 3%nat; split; [lia|reflexivity] | exists 4%nat; split; [lia|reflexivity]
              |exists 5%nat; split; [lia|reflexivity] | exists 6%nat; split; [lia|reflexivity]
              |exists 7%nat; split; [lia|reflexivity] | exists 8%nat; split; [lia|reflexivity]] end]|]). lia.
Qed.

(** Every block of 1 to 8 bytes is encoded, into the digits of its big-endian value. *)
Lemma encode_block_spec block :
  Forall is_byte block -> (1 <= length block <= 8)%nat ->
  encode_block block =
    Some (map (at_ alphabet) (digits58 (enc_size (length block)) (le_val (reverse block)))).
Proof.
  intros Hb Hl. destruct (enc_size_facts (length block) Hl) as (E1 & _ & Hle & _).
  unfold encode_block. rewrite E1, uint_8be_to_64_spec, Nat2Z.id by (done || lia).
  rewrite <- (app_nil_r (replicate _ _)), encode_block_loop_spec; [by rewrite app_nil_r| |lia].
  pose proof (le_val_range (reverse block) ltac:(by apply Forall_reverse)) as Hr.
  rewrite length_reverse in Hr. lia.
Qed.

Lemma map_reverse_alphabet_range cs :
  Forall is_byte cs -> Forall (fun c => 0 <= reverse_alphabet c) cs ->
  Forall (fun d => 0 <= d < 58) (map reverse_alphabet cs).
Proof.
  intros Hb Hall. rewrite Forall_forall in *. intros x Hx. apply list_elem_of_fmap in Hx as (y & -> & Hy).
  pose proof (alphabet_reverse_alphabet y (Hb y Hy) (Hall y Hy)) as [_ ?]. split; auto.
Qed.

Lemma decode_block_loop_spec cs (k : nat) order res_num v :
  Forall is_byte cs -> (k + length cs <= 11)%nat ->
  (cs = [] \/ order = 58 ^ Z.of_nat k) -> in_u 64 res_num ->
  decode_block_loop order res_num cs = Some v <->
  Forall (fun c => 0 <= reverse_alphabet c) cs /\
  v = res_num + 58 ^ Z.of_nat k * val58 (map reverse_alphabet cs) /\ in_u 64 v.
Proof.
  intros Hb. revert k order res_num. induction Hb as [|c cs Hc Hb IH]; intros k order res_num Hk Ho Hr.
  - cbn. split; [intros [= <-]; split_and!; [done|lia|done] | intros (_ & -> & _); f_equal; lia].
  - destruct Ho as [?| ->]; [done|]. cbn [length] in Hk. cbn [decode_block_loop map val58].
    destruct (Z.ltb_spec (reverse_alphabet c) 0) as [Hneg|Hdig].
    { split; [done|]. intros (Hall & _). inversion Hall. lia. }
    pose proof (alphabet_reverse_alphabet c Hc Hdig) as [_ Hd58].
    set (d := reverse_alphabet c) in *. pose proof (pow58_pos k).
    assert (Hord : in_u 64 (58 ^ Z.of_nat k)).
    { split; [lia|]. apply Z.le_lt_trans with (58 ^ 10); [apply Z.pow_le_mono_r; lia|mlia]. }
    destruct (mul128_spec (58 ^ Z.of_nat k) d Hord ltac:(mlia)) as (E & Hlo & Hhi & _).
    destruct (mul128 (58 ^ Z.of_nat k) d) as [lo hi]. cbn [fst snd] in *.
    assert (Htail : Forall (fun c => 0 <= reverse_alphabet c) cs -> 0 <= val58 (map reverse_alphabet cs)).
    { intros Hall. by apply val58_range, map_reverse_alphabet_range. }
    destruct ((u64 (res_num + lo) <? res_num) || negb (hi =? 0)) eqn:Eov.
    + split; [done|]. intros (Hall & -> & Hv). exfalso. inversion_clear Hall as [|?? _ Hall'].
      specialize (Htail Hall').
      assert (Hnn : 0 <= 58 ^ Z.of_nat k * (58 * val58 (map reverse_alphabet cs))) by nia.
      rewrite Z.mul_add_distr_l, E in Hv. apply orb_true_iff in Eov as [Eo|Eo].
      * apply Z.ltb_lt in Eo. destruct (decide (res_num + lo < 2 ^ 64)); [|mlia].
        rewrite wrap_small in Eo; mlia.
      * apply negb_true_iff, Z.eqb_neq in Eo. mlia.
    + apply orb_false_iff in Eov as [Eo Eh]. apply negb_false_iff, Z.eqb_eq in Eh as ->.
      apply Z.ltb_ge in Eo.
      assert (Et : u64 (res_num + lo) = res_num + lo /\ in_u 64 (res_num + lo)).
      { destruct (decide (res_num + lo < 2 ^ 64)); [split; [apply wrap_small|]; mlia|].
        exfalso. unfold wrap in Eo. ranges. Z.div_mod_to_equations. lia. }
      destruct Et as [Et Ht]. rewrite Et. rewrite Z.mul_0_l, Z.add_0_l in E.
      rewrite (IH (S k)); [|lia| |done].
      * rewrite pow58_S, Forall_cons, Z.mul_add_distr_l, E. 
        split; [intros (? & -> & Hv)|intros ((? & ?) & -> & Hv)]; split_and!; try done; try lia;
          replace (res_num + (lo + 58 ^ Z.of_nat k * (58 * val58 (map reverse_alphabet cs))))
            with (res_num + lo + 58 * 58 ^ Z.of_nat k * val58 (map reverse_alphabet cs)) in * by ring; done.
      * destruct cs as [|c' cs]; [by left|right]. cbn [length] in Hk. change alphabet_size with 58.
        rewrite pow58_S, wrap_small; [ring|]. split; [lia|].
        apply Z.le_lt_trans with (58 ^ 10); [|mlia].
        rewrite Z.mul_comm, <- pow58_S. apply Z.pow_le_mono_r; lia.
Qed.

Lemma map_alphabet_reverse cs :
  Forall is_byte cs -> Forall (fun c => 0 <= reverse_alphabet c) cs ->
  map (at_ alphabet) (map reverse_alphabet cs) = cs.
Proof.
  intros Hb Hall. induction cs as [|c cs IH]; [done|].
  inversion_clear Hb. inversion_clear Hall. cbn. rewrite IH by done. f_equal.
  by apply alphabet_reverse_alphabet.
Qed.

Lemma map_reverse_alphabet ds :
  Forall (fun d => 0 <= d < 58) ds -> map reverse_alphabet (map (at_ alphabet) ds) = ds.
Proof.
  induction 1 as [|d ds Hd _ IH]; [done|]. cbn [map]. by rewrite IH, reverse_alphabet_alphabet.
Qed.

(** Decoding a block is the exact inverse of encoding one. *)
Lemma decode_block_exact block data :
  Forall is_byte block -> (length block <= 11)%nat ->
  decode_block block = Some data <->
  Forall is_byte data /\ (1 <= length data <= 8)%nat /\ encode_block data = Some block.
Proof.
  intros Hb Hl. split.
  - unfold decode_block. destruct (Z.leb_spec (decoded_block_sizes (Z.of_nat (length block))) 0) as [|Hpos]; [done|].
    destruct (decoded_block_sizes_pos _ Hl Hpos) as (size & Hsize & Elen).
    destruct (enc_size_facts size Hsize) as (E1 & E2 & Hle & _).
    rewrite Elen, E2. destruct (decode_block_loop 1 0 (reverse block)) as [num|] eqn:El; [|done].
    apply (decode_block_loop_spec _ 0) in El as (Hall & -> & Hnum);
      [|by apply Forall_reverse|by rewrite length_reverse|by right|unfold in_u; lia].
    rewrite Z.add_0_l, Z.mul_1_l in *. set (num := val58 (map reverse_alphabet (reverse block))) in *.
    destruct ((Z.of_nat size <? full_block_size) && (Z.shiftl 1 (8 * Z.of_nat size) <=? num)) eqn:Eov; [done|].
    intros [= <-]. rewrite uint_64_to_8be_spec by lia.
    rewrite length_reverse, le_bytes_length.
    split_and!; [apply Forall_reverse, le_bytes_range|lia|lia|].
    assert (Hn : 0 <= num < 256 ^ Z.of_nat size).
    { unfold in_u in Hnum. split; [lia|]. apply andb_false_iff in Eov as [E|E].
      - apply Z.ltb_ge in E. change full_block_size with 8 in E.
        replace size with 8%nat by lia. change (256 ^ Z.of_nat 8) with (2 ^ 64). lia.
      - apply Z.leb_gt in E. rewrite Z.shiftl_mul_pow2, Z.mul_1_l in E by lia.
        change 256 with (2 ^ 8). by rewrite <- Z.pow_mul_r by lia. }
    rewrite encode_block_spec; [|apply Forall_reverse, le_bytes_range|by rewrite length_reverse, le_bytes_length].
    rewrite length_reverse, le_bytes_length, reverse_involutive, le_val_le_bytes, Z.mod_small by done.
    f_equal. subst num. rewrite <- Elen.
    replace (length block) with (length (map reverse_alphabet (reverse block)))
      by (rewrite length_map; apply length_reverse).
    rewrite digits58_val58 by (apply map_reverse_alphabet_range; [by apply Forall_reverse|done]).
    rewrite <- (map_reverse reverse_alphabet), reverse_involutive.
    apply map_alphabet_reverse; [done|]. rewrite <- (reverse_involutive block). by apply Forall_reverse.
  - intros (Hd & Hld & Henc). rewrite encode_block_spec in Henc by done. injection Henc as <-.
    set (size := length data) in *. set (num := le_val (reverse data)).
    destruct (enc_size_facts size Hld) as (E1 & E2 & Hle & H11).
    assert (Hnum : 0 <= num < 256 ^ Z.of_nat size).
    { subst num size. rewrite <- length_reverse. apply le_val_range. by apply Forall_reverse. }
    assert (Hn64 : in_u 64 num).
    { split; [lia|]. eapply Z.lt_le_trans; [apply Hnum|]. change (2 ^ 64) with (256 ^ 8). apply Z.pow_le_mono_r; lia. }
    unfold decode_block. rewrite length_map, digits58_length, E2.
    destruct (Z.leb_spec (Z.of_nat size) 0); [lia|].
    assert (Hds := digits58_range (enc_size size) num).
    assert (Hlet : Forall is_byte (map (at_ alphabet) (digits58 (enc_size size) num))).
    { apply Forall_map. eapply Forall_impl; [done|]. apply alphabet_byte. }
    rewrite (proj2 (decode_block_loop_spec (reverse (map (at_ alphabet) (digits58 (enc_size size) num))) 0 1 0 num
      ltac:(by apply Forall_reverse) ltac:(rewrite length_reverse, length_map, digits58_length; lia)
      ltac:(by right) ltac:(unfold in_u; lia))).
    2: { rewrite <- map_reverse, map_reverse_alphabet by (by apply Forall_reverse).
         rewrite val58_digits58, Z.add_0_l, Z.mul_1_l by lia.
         split_and!; [|done|done]. apply Forall_map, Forall_reverse. eapply Forall_impl; [done|].
         intros d Hd'. cbn beta in *. rewrite reverse_alphabet_alphabet by done. lia. }
    replace ((Z.of_nat size <? full_block_size) && (Z.shiftl 1 (8 * Z.of_nat size) <=? num)) with false.
    2: { symmetry. apply andb_false_iff. right. apply Z.leb_gt.
         rewrite Z.shiftl_mul_pow2, Z.mul_1_l, Z.pow_mul_r by lia. apply Hnum. }
    rewrite uint_64_to_8be_spec by lia. f_equal. subst num size.
    rewrite <- length_reverse, le_bytes_le_val, reverse_involutive by (by apply Forall_reverse). done.
Qed.

(** ** Whole strings *)

(** Both directions cut the string into blocks of a fixed size, with a shorter
    last one, and concatenate the images of the blocks. *)
Definition blockwise (f : list Z -> option (list Z)) (size : Z) (s : list Z) : option (list Z) :=
  let full_block_count := Z.of_nat (length s) / size in
  let last_block_size := Z.of_nat (length s) mod size in
  full ← mapM (fun i => f (block_at s size i)) (seqZ 0 full_block_count);
  last ← (if 0 <? last_block_size then f (drop (Z.to_nat (full_block_count * size)) s) else Some []);
  Some (mjoin full ++ last).

Section blockwise.
Context (f : list Z -> option (list Z)) (size : nat) (Hsize : (0 < size)%nat).

Lemma blockwise_short s :
  (length s < size)%nat -> blockwise f (Z.of_nat size) s = if decide (s = []) then Some [] else f s.
Proof using Hsize.
  intros Hl. unfold blockwise. rewrite Z.div_small, Z.mod_small by lia.
  change (seqZ 0 0) with (@nil Z). change (Z.to_nat (0 * Z.of_nat size)) with 0%nat. rewrite drop_0.
  destruct s as [|c s]; [done|]. rewrite (proj2 (Z.ltb_lt 0 (Z.of_nat (length (c :: s))))) by (cbn; lia).
  cbn. by destruct (f (c :: s)).
Qed.

Lemma blockwise_step s :
  (size <= length s)%nat ->
  blockwise f (Z.of_nat size) s =
    b ← f (take size s); rest ← blockwise f (Z.of_nat size) (drop size s); Some (b ++ rest).
Proof using Hsize.
  intros Hl. unfold blockwise. rewrite length_drop.
  set (n := Z.of_nat (length s - size) / Z.of_nat size).
  assert (Hn : 0 <= n) by (apply Z.div_pos; lia).
  assert (Ed : Z.of_nat (length s) / Z.of_nat size = Z.succ n).
  { subst n. rewrite Nat2Z.inj_sub, <- Z.add_1_r by done.
    rewrite <- (Z.div_add _ 1) by lia. f_equal. lia. }
  assert (Em : Z.of_nat (length s) mod Z.of_nat size = Z.of_nat (length s - size) mod Z.of_nat size).
  { rewrite Nat2Z.inj_sub by done. rewrite <- (Z_mod_plus_full (_ - _) 1). f_equal. lia. }
  rewrite Ed, Em, seqZ_cons, Z.pred_succ by lia.
  change (Z.succ 0) with (1 + 0). rewrite <- (fmap_add_seqZ 1 0 n).
  assert (E0 : block_at s (Z.of_nat size) 0 = take size s).
  { unfold block_at. cbn. by rewrite Nat2Z.id. }
  assert (E1 : mapM (fun i => f (block_at s (Z.of_nat size) i)) (Z.add 1 <$> seqZ 0 n) =
               mapM (fun i => f (block_at (drop size s) (Z.of_nat size) i)) (seqZ 0 n)).
  { assert (Hpos : Forall (fun i => 0 <= i) (seqZ 0 n)).
    { apply Forall_forall. intros i Hi. apply elem_of_seqZ in Hi. lia. }
    induction Hpos as [|i l Hi _ IH]; [done|]. cbn [fmap list_fmap mapM]. rewrite IH.
    replace (block_at s (Z.of_nat size) (1 + i)) with (block_at (drop size s) (Z.of_nat size) i); [done|].
    unfold block_at. rewrite drop_drop. do 2 f_equal. lia. }
  set (l := seqZ 0 n) in *. cbn [mapM]. rewrite E0, E1.
  destruct (f (take size s)) as [b|]; cbn [mbind option_bind]; [|done].
  destruct (mapM _ l) as [full|]; cbn [mbind option_bind]; [|done].
  rewrite drop_drop.
  replace (Z.to_nat (Z.succ n * Z.of_nat size)) with (size + Z.to_nat (n * Z.of_nat size))%nat by lia.
  destruct (if _ <? _ then _ else _) as [last|]; cbn; [|done]. by rewrite app_assoc.
Qed.
End blockwise.

(** If [g] inverts [f] on full blocks and on shorter ones, then so do the
    string versions. *)
Lemma blockwise_inverse f g (A B : nat) s t :
  (0 < A)%nat -> (0 < B)%nat -> Forall is_byte s ->
  (forall x y, Forall is_byte x -> length x = A -> f x = Some y -> length y = B /\ g y = Some x) ->
  (forall x y, Forall is_byte x -> (0 < length x < A)%nat -> f x = Some y ->
     (0 < length y < B)%nat /\ g y = Some x) ->
  blockwise f (Z.of_nat A) s = Some t -> blockwise g (Z.of_nat B) t = Some s.
Proof.
  intros HA HB Hs Hfull Hlast. revert t.
  remember (length s) as n eqn:En. revert s Hs En.
  induction n as [n IH] using lt_wf_ind. intros s Hs -> t.
  destruct (decide (length s < A)%nat) as [Hlt|Hge].
  - rewrite blockwise_short by done. destruct (decide (s = [])) as [->|Hne]; intros Ht.
    + injection Ht as <-. by rewrite blockwise_short.
    + assert (0 < length s)%nat by (destruct s; [done|cbn; lia]).
      apply Hlast in Ht as [Hy Hg]; [|done|lia].
      rewrite blockwise_short by lia. destruct (decide (t = [])) as [->|]; [cbn in Hy; lia|done].
  - rewrite blockwise_step by lia.
    destruct (f (take A s)) as [b|] eqn:Eb; cbn; [|done].
    destruct (blockwise f (Z.of_nat A) (drop A s)) as [rest|] eqn:Er; cbn; [|done].
    intros [= <-].
    apply Hfull in Eb as [Hb Hg]; [|by apply Forall_take|rewrite length_take; lia].
    rewrite blockwise_step by (rewrite ?length_app; lia).
    rewrite take_app_length', drop_app_length', Hg by done. cbn.
    rewrite (IH (length (drop A s)) ltac:(rewrite length_drop; lia) (drop A s) ltac:(by apply Forall_drop) eq_refl rest Er).
    cbn. by rewrite take_drop.
Qed.

Lemma encode_block_inv data block :
  Forall is_byte data -> (1 <= length data <= 8)%nat -> encode_block data = Some block ->
  length block = enc_size (length data) /\ Forall is_byte block /\ decode_block block = Some data.
Proof.
  intros Hd Hl He. pose proof He as He'. rewrite encode_block_spec in He' by done. injection He' as Eb.
  destruct (enc_size_facts _ Hl) as (_ & _ & _ & H11).
  assert (Hlb : length block = enc_size (length data)) by (subst block; by rewrite length_map, digits58_length).
  assert (Hbb : Forall is_byte block).
  { subst block. apply Forall_map. eapply Forall_impl; [apply digits58_range|]. apply alphabet_byte. }
  split_and!; [done|done|]. apply decode_block_exact; [done|lia|done].
Qed.

Lemma enc_size_mono size : (1 <= size < 8)%nat -> (0 < enc_size size < 11)%nat.
Proof. intros H. do 8 (destruct size as [|size]; [first [lia | vm_compute; lia]|]). lia. Qed.

Lemma encode_blockwise data : encode data = blockwise encode_block 8 data.
Proof. unfold encode. destruct (decide (data = [])) as [->|]; done. Qed.

(** Decoding a string whose last block has an impossible size fails either way. *)
Lemma decode_blockwise enc data :
  blockwise decode_block 11 enc = Some data -> decode enc = Some data.
Proof.
  unfold decode. destruct (decide (enc = [])) as [->|]; [done|].
  change full_encoded_block_size with 11. unfold blockwise. cbv zeta.
  destruct (mapM _ _) as [full|]; cbn [mbind option_bind]; [|done].
  destruct (Z.ltb_spec 0 (Z.of_nat (length enc) mod 11)) as [Hlast|Hz].
  - intros H. destruct (Z.ltb_spec (decoded_block_sizes (Z.of_nat (length enc) mod 11)) 0) as [Hneg|]; [|done].
    exfalso. unfold decode_block in H. rewrite length_drop in H.
    replace (Z.of_nat (length enc - Z.to_nat (Z.of_nat (length enc) / 11 * 11)))
      with (Z.of_nat (length enc) mod 11) in H by (Z.div_mod_to_equations; lia).
    destruct (Z.leb_spec (decoded_block_sizes (Z.of_nat (length enc) mod 11)) 0); [done|lia].
  - assert (E : Z.of_nat (length enc) mod 11 = 0) by (Z.div_mod_to_equations; lia).
    rewrite E. done.
Qed.

Lemma blockwise_decode enc data : decode enc = Some data -> blockwise decode_block 11 enc = Some data.
Proof.
  unfold decode. destruct (decide (enc = [])) as [->|]; [done|].
  destruct (Z.ltb_spec (decoded_block_sizes (Z.of_nat (length enc) mod full_encoded_block_size)) 0); done.
Qed.

Lemma decode_encode data enc :
  Forall is_byte data -> encode data = Some enc -> decode enc = Some data.
Proof.
  intros Hd. rewrite encode_blockwise. intros He. apply decode_blockwise.
  change 8 with (Z.of_nat 8) in He. change 11 with (Z.of_nat 11).
  refine (blockwise_inverse _ _ 8 11 data enc _ _ Hd _ _ He); [lia|lia| |].
  - intros x y Hx Hl Hf. apply encode_block_inv in Hf as (Hy & _ & Hg); [|done|lia]. by rewrite Hl in Hy.
  - intros x y Hx Hl Hf. apply encode_block_inv in Hf as (Hy & _ & Hg); [|done|lia].
    split; [|done]. rewrite Hy. apply enc_size_mono. lia.
Qed.

Lemma encode_decode enc data :
  Forall is_byte enc -> decode enc = Some data -> encode data = Some enc.
Proof.
  intros Hd He. apply blockwise_decode in He. rewrite encode_blockwise.
  change 11 with (Z.of_nat 11) in He. change 8 with (Z.of_nat 8).
  refine (blockwise_inverse _ _ 11 8 enc data _ _ Hd _ _ He); [lia|lia| |];
    intros x y Hx Hl Hf; apply decode_block_exact in Hf as (Hy & Hly & Hg); try done; try lia;
    (split; [|done]); apply encode_block_inv in Hg as (Hlx & _); try done; rewrite Hlx in Hl.
  - destruct (decide (length y = 8)%nat); [done|]. pose proof (enc_size_mono (length y)). lia.
  - destruct (decide (length y = 8)%nat) as [E|]; [rewrite E in Hl; vm_compute in Hl; lia|lia].
Qed.

Lemma encode_total data : Forall is_byte data -> is_Some (encode data).
Proof.
  intros Hd. rewrite encode_blockwise. change 8 with (Z.of_nat 8).
  remember (length data) as n eqn:En. revert data Hd En.
  induction n as [n IH] using lt_wf_ind. intros data Hd ->.
  destruct (decide (length data < 8)%nat) as [Hlt|Hge].
  - rewrite blockwise_short by lia. destruct (decide (data = [])) as [->|Hne]; [by eexists|].
    rewrite encode_block_spec; [by eexists|done|]. destruct data; [done|cbn in *; lia].
  - rewrite blockwise_step by lia.
    rewrite encode_block_spec; [|by apply Forall_take|rewrite length_take; lia]. cbn.
    destruct (IH (length (drop 8 data)) ltac:(rewrite length_drop; lia) (drop 8 data) ltac:(by apply Forall_drop) eq_refl) as [r ->].
    by eexists.
Qed.

(** Base58 coding is a bijection onto the strings decode accepts: every
    byte string is encoded (no write leaves the output block), decoding the
    result gives the string back, and no other byte string decodes to it, so
    every overflow and block-size check of decode_block is exact. *)
Theorem base58_bijection data :
  Forall is_byte data ->
  exists enc, encode data = Some enc /\ decode enc = Some data /\
    forall enc', Forall is_byte enc' -> decode enc' = Some data -> enc' = enc.
Proof.
  intros Hd. destruct (encode_total data Hd) as [enc He]. exists enc.
  split_and!; [done|by apply decode_encode|]. intros enc' Hb Hdec.
  apply encode_decode in Hdec; [|done]. congruence.
Qed.

Lemma base58_bijection_witness :
  exists enc, encode [1; 2; 3] = Some enc /\ decode enc = Some [1; 2; 3] /\
    forall enc', Forall is_byte enc' -> decode enc' = Some [1; 2; 3] -> enc' = enc.
Proof. apply (base58_bijection [1; 2; 3]). repeat constructor; mlia. Defined.

(** ** Addresses *)

Section address_facts.
Context `{FH : FastHash}.

Definition checksum (buf : list Z) : list Z := take (Z.to_nat addr_checksum_size) (cn_fast_hash buf).

Lemma checksum_length buf : length (checksum buf) = 4%nat.
Proof using Type. unfold checksum. rewrite length_take, cn_fast_hash_length. done. Qed.

Lemma checksum_bytes buf : Forall is_byte (checksum buf).
Proof using Type. apply Forall_take, cn_fast_hash_bytes. Qed.

(** What [decode_addr] does to a well-formed, correctly checksummed buffer. *)
Lemma decode_addr_checksummed buf addr :
  Forall is_byte buf -> buf <> [] -> encode (buf ++ checksum buf) = Some addr ->
  decode_addr addr =
    let '(read, tag, _) := read_varint 64 buf in
    if read <=? 0 then None else Some (tag, drop (Z.to_nat read) buf).
Proof using Type.
  intros Hb Hne He. unfold decode_addr.
  rewrite (decode_encode (buf ++ checksum buf) addr).
  2: { apply Forall_app. split; [done|apply checksum_bytes]. }
  2: done.
  cbn [mbind option_bind]. rewrite length_app, checksum_length.
  replace (length buf + 4 - Z.to_nat addr_checksum_size)%nat with (length buf)
    by (change (Z.to_nat addr_checksum_size) with 4%nat; lia).
  rewrite take_app_length, drop_app_length. fold (checksum buf).
  destruct (decide (checksum buf = checksum buf)); [|done].
  destruct (Z.leb_spec (Z.of_nat (length buf + 4)) addr_checksum_size) as [H|]; [|done].
  exfalso. destruct buf; [done|]. cbn in H. unfold addr_checksum_size in H. lia.
Qed.

(** For every 64-bit tag and every payload, encode_addr produces an
    address that decode_addr accepts, and decode_addr returns the same tag and
    payload, for any hash satisfying the cn_fast_hash interface. *)
Theorem address_roundtrip tag data :
  in_u 64 tag -> Forall is_byte data ->
  exists addr, encode_addr tag data = Some addr /\ decode_addr addr = Some (tag, data).
Proof using Type.
  intros Ht Hd. unfold encode_addr, get_varint_data.
  assert (Hv : Forall is_byte (write_varint tag)) by (apply write_varint_bytes; unfold in_u in Ht; lia).
  assert (Hb : Forall is_byte (write_varint tag ++ data)) by (by apply Forall_app).
  destruct (encode_total ((write_varint tag ++ data) ++ checksum (write_varint tag ++ data))) as [addr He].
  { apply Forall_app. split; [done|apply checksum_bytes]. }
  exists addr. split; [done|].
  pose proof (write_varint_pos tag ltac:(unfold in_u in Ht; lia)) as Hpos.
  rewrite (decode_addr_checksummed (write_varint tag ++ data)); [|done| |done].
  - rewrite read_varint_complete by (done || lia).
    destruct (Z.leb_spec (Z.of_nat (length (write_varint tag))) 0).
    + destruct (write_varint tag); [done|cbn in *; lia].
    + by rewrite Nat2Z.id, drop_app_length.
  - destruct (write_varint tag); done.
Qed.

(** A tag cut short by the end of the data is accepted. *)
(** decode_addr accepts an address whose varint tag is cut off by the end
    of the data: there is a correctly checksummed string that decodes to tag 0
    with an empty payload and is not the encoding of that pair. *)
Theorem decode_addr_truncated_tag :
  exists addr, decode_addr addr = Some (0, []) /\ encode_addr 0 [] <> Some addr.
Proof using Type.
  destruct (encode_total ([128] ++ checksum [128])) as [addr He].
  { apply Forall_app. split; [repeat constructor; mlia|apply checksum_bytes]. }
  exists addr. split.
  - rewrite (decode_addr_checksummed [128]); [reflexivity|repeat constructor; mlia|done|done].
  - intros H.
    assert (Hb : Forall is_byte ([128] ++ checksum [128])).
    { apply Forall_app. split; [repeat constructor; mlia|apply checksum_bytes]. }
    assert (Hb' : Forall is_byte ([0] ++ checksum [0])).
    { apply Forall_app. split; [repeat constructor; mlia|apply checksum_bytes]. }
    pose proof (decode_encode _ _ Hb He) as E1.
    pose proof (decode_encode _ _ Hb' H) as E2. rewrite E1 in E2. discriminate.
Qed.
End address_facts.

Lemma address_roundtrip_witness :
  exists addr, encode_addr (FH := Keccak.keccak_FastHash) 3728339 (repeat 7 64) = Some addr
    /\ decode_addr (FH := Keccak.keccak_FastHash) addr = Some (3728339, repeat 7 64).
Proof.
  apply (address_roundtrip 3728339 (repeat 7 64)); [mlia|].
  change (repeat 7 64) with (replicate 64 7). apply Forall_replicate. mlia.
Defined.
End Base58.
