(* ===== verification/FormatUtils.v ===== *)
(** Amounts and transaction checks
    (src/src/CryptoNoteCore/CryptoNoteFormatUtils.{h,cpp} and the amount helpers
    of src/src/CryptoNoteCore/CryptoNoteTools.cpp).

    [decompose_amount_into_digits] calls two handlers; the model returns the
    sequence of calls, in order, as a list of [part]s.  The loop runs on 64-bit
    unsigned values; 21 iterations are enough because 2^64 < 10^20. *)

From S2P Require Import Prelude.
From S2P Require Import Types.

Module FormatUtils.

(** ** Decomposition of an amount into decimal digits *)

Inductive part := Chunk (a : Z) | Dust (a : Z).

Definition part_amount (p : part) : Z :=
  match p with Chunk a => a | Dust a => a end.

Fixpoint decompose_loop (fuel : nat) (amount order dust dust_threshold : Z)
    (is_dust_handled : bool) : list part :=
  match fuel with
  | O => []
  | S fuel =>
    let flush := negb is_dust_handled && negb (dust =? 0) in
    if amount =? 0 then (if flush then [Dust dust] else [])
    else
      let chunk := u64 (amount mod 10 * order) in
      let amount := amount / 10 in
      let order := u64 (order * 10) in
      if u64 (dust + chunk) <=? dust_threshold then
        decompose_loop fuel amount order (u64 (dust + chunk)) dust_threshold
          is_dust_handled
      else
        (if flush then [Dust dust] else []) ++
        (if negb (chunk =? 0) then [Chunk chunk] else []) ++
        decompose_loop fuel amount order dust dust_threshold
          (is_dust_handled || flush)
  end.

Definition decompose_amount_into_digits (amount dust_threshold : Z) : list part :=
  if amount =? 0 then []
  else decompose_loop 21 amount 1 0 dust_threshold false.

(** CryptoNoteTools.cpp: both handlers append to the result. *)
Definition decomposeAmount (amount dustThreshold : Z) : list Z :=
  map part_amount (decompose_amount_into_digits amount dustThreshold).

(** ** Sums over a transaction *)

Definition key_input_amount (i : TransactionInput) : option Z :=
  match i with InKey k => Some (ki_amount k) | InBase _ => None end.

Definition getInputAmount (tx : TransactionPrefix) : Z :=
  fold_left (fun amount i =>
    match key_input_amount i with Some a => u64 (amount + a) | None => amount end)
    (tx_inputs tx) 0.

Definition getInputsAmounts (tx : TransactionPrefix) : list Z :=
  omap key_input_amount (tx_inputs tx).

Definition getOutputAmount (tx : TransactionPrefix) : Z :=
  fold_left (fun amount o => u64 (amount + o_amount o)) (tx_outputs tx) 0.

(** [get_tx_fee (tx, fee)]: [None] is the [false] result. *)
Definition get_tx_fee_opt (tx : TransactionPrefix) : option Z :=
  let amount_in := getInputAmount tx in
  let amount_out := getOutputAmount tx in
  if negb (amount_in >=? amount_out) then None
  else Some (u64 (amount_in - amount_out)).

Definition get_tx_fee (tx : TransactionPrefix) : Z :=
  match get_tx_fee_opt tx with None => 0 | Some r => r end.

Fixpoint checkInputsOverflow_loop (money : Z) (ins : list TransactionInput) : bool :=
  match ins with
  | [] => true
  | i :: ins =>
    let amount := match key_input_amount i with Some a => a | None => 0 end in
    if money >? u64 (amount + money) then false
    else checkInputsOverflow_loop (u64 (money + amount)) ins
  end.

Definition checkInputsOverflow (tx : TransactionPrefix) : bool :=
  checkInputsOverflow_loop 0 (tx_inputs tx).

Fixpoint checkOutsOverflow_loop (money : Z) (outs : list TransactionOutput) : bool :=
  match outs with
  | [] => true
  | o :: outs =>
    if money >? u64 (o_amount o + money) then false
    else checkOutsOverflow_loop (u64 (money + o_amount o)) outs
  end.

Definition checkOutsOverflow (tx : TransactionPrefix) : bool :=
  checkOutsOverflow_loop 0 (tx_outputs tx).

Definition checkInputTypesSupported (tx : TransactionPrefix) : bool :=
  forallb (fun i => match i with InKey _ => true | InBase _ => false end)
    (tx_inputs tx).

(** [check_key] is Crypto::check_key; the error string is the [Err] value. *)
Fixpoint checkOutsValid_loop (check_key : PublicKey -> bool)
    (outs : list TransactionOutput) : result string unit :=
  match outs with
  | [] => Ok tt
  | out :: outs =>
    match o_target out with
    | OutKey key =>
      if o_amount out =? 0 then Err "Zero amount ouput"%string
      else if negb (check_key key) then Err "Output with invalid key"%string
      else checkOutsValid_loop check_key outs
    end
  end.

Definition checkOutsValid (check_key : PublicKey -> bool) (tx : TransactionPrefix)
  : result string unit := checkOutsValid_loop check_key (tx_outputs tx).

(** ** Ring-member offsets *)

(** [res[i] += res[i-1]] in place, left to right. *)
Fixpoint accumulate_offsets (prev : Z) (off : list Z) : list Z :=
  match off with
  | [] => []
  | x :: off => let y := u32 (x + prev) in y :: accumulate_offsets y off
  end.

Definition relativeOutputOffsetsToAbsolute (off : list Z) : list Z :=
  match off with [] => [] | x :: off => x :: accumulate_offsets x off end.

Fixpoint difference_offsets (prev : Z) (off : list Z) : list Z :=
  match off with
  | [] => []
  | x :: off => u32 (x - prev) :: difference_offsets x off
  end.

Definition absolute_output_offsets_to_relative (off : list Z) : list Z :=
  match off with [] => [] | x :: off => x :: difference_offsets x off end.

(** ** Specification of the decomposition *)

(** The [i]-th decimal digit of [amount], at its place. *)
Definition digit_at (amount i : Z) : Z := amount / 10 ^ i mod 10 * 10 ^ i.

Definition chunk_parts (amount m n : Z) : list part :=
  map Chunk (filter (fun c => c <> 0) (map (digit_at amount) (seqZ m n))).

Definition dust_part (d : Z) : list part := if d =? 0 then [] else [Dust d].

Definition sum_parts (ps : list part) : Z := foldr (fun p s => part_amount p + s) 0 ps.

Definition sumZ (l : list Z) : Z := foldr Z.add 0 l.

Lemma sumZ_app l k : sumZ (l ++ k) = sumZ l + sumZ k.
Proof. induction l; simpl; lia. Qed.

Lemma sumZ_perm l k : l ≡ₚ k -> sumZ l = sumZ k.
Proof. induction 1; simpl; lia. Qed.

Lemma sumZ_nonneg l : Forall (fun x => 0 <= x) l -> 0 <= sumZ l.
Proof. induction 1; simpl; lia. Qed.

Lemma pow10_S k : 0 <= k -> 10 ^ (k + 1) = 10 * 10 ^ k.
Proof. intros; rewrite Z.pow_add_r by lia; lia. Qed.

Lemma pow10_pos k : 0 <= k -> 0 < 10 ^ k.
Proof. intros; apply Z.pow_pos_nonneg; lia. Qed.

Lemma mod_pow10_S a k : 0 <= k ->
  a mod 10 ^ (k + 1) = a mod 10 ^ k + digit_at a k.
Proof.
  intros Hk; unfold digit_at; rewrite pow10_S, (Z.mul_comm 10) by lia.
  pose proof (pow10_pos k Hk); rewrite Z.rem_mul_r by lia; lia.
Qed.

Lemma digit_at_range a k : 0 <= a -> 0 <= k ->
  digit_at a k = 0 \/ 10 ^ k <= digit_at a k <= 9 * 10 ^ k.
Proof.
  intros Ha Hk; unfold digit_at; pose proof (pow10_pos k Hk).
  pose proof (Z.mod_pos_bound (a / 10 ^ k) 10 ltac:(lia)).
  destruct (decide (a / 10 ^ k mod 10 = 0)); [left | right]; nia.
Qed.

Lemma digit_at_small a k : 0 <= a < 10 ^ k -> 0 <= k -> digit_at a k = 0.
Proof. intros; unfold digit_at; rewrite Z.div_small by lia; done. Qed.

Lemma chunk_parts_cons a m n : 0 < n ->
  chunk_parts a m n =
  (if negb (digit_at a m =? 0) then [Chunk (digit_at a m)] else []) ++
  chunk_parts a (m + 1) (n - 1).
Proof.
  intros; unfold chunk_parts; rewrite seqZ_cons by done.
  rewrite map_cons, filter_cons, <- Z.add_1_r, <- Z.sub_1_r.
  destruct (Z.eqb_spec (digit_at a m) 0), (decide (digit_at a m <> 0)); done.
Qed.

Lemma chunk_parts_small a m n : 0 <= m -> 0 <= a < 10 ^ m -> chunk_parts a m n = [].
Proof.
  intros Hm Ha; destruct (Z.lt_ge_cases n 0) as [Hn|Hn].
  { unfold chunk_parts; rewrite seqZ_nil by lia; done. }
  revert m Hm Ha; pattern n; apply natlike_ind; [done| |done]; clear n Hn.
  intros n Hn IH m Hm Ha; rewrite chunk_parts_cons by lia.
  rewrite digit_at_small by lia; simpl.
  replace (Z.succ n - 1) with n by lia; apply IH; [lia|].
  rewrite pow10_S by lia; lia.
Qed.

Lemma sum_chunk_parts a n m : 0 <= m -> 0 <= n ->
  sum_parts (chunk_parts a m n) = a mod 10 ^ (m + n) - a mod 10 ^ m.
Proof.
  intros Hm Hn; revert m Hm; pattern n; apply natlike_ind; [| |done]; clear n Hn.
  - intros; rewrite Z.add_0_r; simpl; lia.
  - intros n Hn IH m Hm; rewrite chunk_parts_cons by lia.
    replace (Z.succ n - 1) with n by lia.
    replace (m + Z.succ n) with (m + 1 + n) by lia.
    pose proof (IH (m + 1) ltac:(lia)) as H; rewrite mod_pow10_S in H by lia.
    destruct (Z.eqb_spec (digit_at a m) 0); simpl; fold (sum_parts (chunk_parts a (m + 1) n)); lia.
Qed.

(** State of the loop before digit [k] of [a]: [m] is the number of digits
    already counted as dust, [m = k] until the first chunk. *)
Lemma decompose_loop_chunks a thr k m (fuel : nat) handled :
  in_u 64 a -> in_u 64 thr -> 0 <= m <= k -> 20 <= k + Z.of_nat fuel - 1 ->
  k <= 20 ->
  thr < a mod 10 ^ m + 10 ^ k ->
  (handled = negb (a mod 10 ^ m =? 0)) ->
  decompose_loop fuel (a / 10 ^ k) (u64 (10 ^ k)) (a mod 10 ^ m) thr handled
  = chunk_parts a k (20 - k).
Proof.
  intros Ha Ht Hm Hf Hk Hbig Hh.
  revert k Hm Hf Hk Hbig; induction fuel as [|fuel IH]; intros k Hm Hf Hk Hbig; [lia|].
  assert (Ha20 : a < 10 ^ 20) by (unfold in_u in Ha; lia).
  pose proof (pow10_pos k ltac:(lia)) as Hp.
  assert (Hflush : negb handled && negb (a mod 10 ^ m =? 0) = false).
  { rewrite Hh; destruct (a mod 10 ^ m =? 0); done. }
  cbn [decompose_loop]; rewrite Hflush, orb_false_r.
  destruct (Z.eqb_spec (a / 10 ^ k) 0) as [E|E].
  { symmetry; apply chunk_parts_small; [lia|].
    apply Z.div_small_iff in E; unfold in_u in Ha; lia. }
  assert (Hka : 10 ^ k <= a).
  { unfold in_u in Ha; destruct (Z.lt_ge_cases a (10 ^ k)); [|lia].
    rewrite Z.div_small in E by lia; done. }
  assert (k < 20).
  { destruct (Z.lt_ge_cases k 20); [lia|]. assert (k = 20) by lia; subst; lia. }
  rewrite (wrap_small 64 (10 ^ k)) by (unfold in_u in *; lia).
  fold (digit_at a k).
  pose proof (Z.mod_pos_bound a (10 ^ m) ltac:(apply pow10_pos; lia)).
  assert (Hle : a mod 10 ^ m + digit_at a k <= a).
  { pose proof (mod_pow10_S a k ltac:(lia)) as HS.
    pose proof (pow10_pos (k + 1) ltac:(lia)).
    pose proof (Z.mod_le a (10 ^ (k + 1)) ltac:(unfold in_u in Ha; lia) ltac:(lia)).
    assert (a mod 10 ^ m <= a mod 10 ^ k); [|lia].
    replace k with (m + (k - m)) by lia; rewrite Z.pow_add_r, Z.rem_mul_r by lia.
    pose proof (pow10_pos (k - m) ltac:(lia)).
    pose proof (Z.mod_pos_bound (a / 10 ^ m) (10 ^ (k - m)) ltac:(lia)).
    pose proof (pow10_pos m ltac:(lia)); nia. }
  pose proof (digit_at_range a k ltac:(unfold in_u in Ha; lia) ltac:(lia)) as Hd.
  rewrite !(wrap_small 64) with (z := digit_at a k) by (unfold in_u in *; lia).
  rewrite (wrap_small 64 (_ + digit_at a k)) by (unfold in_u in *; lia).
  rewrite chunk_parts_cons by lia.
  rewrite Zdiv.Zdiv_Zdiv by lia.
  replace (10 ^ k * 10) with (10 ^ (k + 1)) by (rewrite pow10_S; lia).
  replace (20 - k - 1) with (20 - (k + 1)) by lia.
  rewrite <- IH by (rewrite ?pow10_S by lia; lia).
  destruct (Z.leb_spec (a mod 10 ^ m + digit_at a k) thr).
  - assert (digit_at a k = 0) as -> by lia; simpl; rewrite Z.add_0_r; done.
  - done.
Qed.

Lemma decompose_loop_dust a thr k (fuel : nat) :
  in_u 64 a -> in_u 64 thr -> 0 <= k <= 20 -> 20 <= k + Z.of_nat fuel - 1 ->
  a mod 10 ^ k <= thr ->
  exists m, k <= m <= 20 /\ a mod 10 ^ m <= thr /\
    (m = 20 \/ thr < a mod 10 ^ (m + 1)) /\
    decompose_loop fuel (a / 10 ^ k) (u64 (10 ^ k)) (a mod 10 ^ k) thr false
    = dust_part (a mod 10 ^ m) ++ chunk_parts a m (20 - m).
Proof.
  intros Ha Ht; revert k; induction fuel as [|fuel IH]; intros k Hk Hf Hdust; [lia|].
  assert (Ha20 : a < 10 ^ 20) by (unfold in_u in Ha; lia).
  pose proof (pow10_pos k ltac:(lia)) as Hp.
  cbn [decompose_loop]; rewrite andb_true_l.
  destruct (Z.eqb_spec (a / 10 ^ k) 0) as [E|E].
  { apply Z.div_small_iff in E; [|lia]. assert (Hak : 0 <= a < 10 ^ k) by (unfold in_u in Ha; lia).
    exists 20; split; [lia|].
    rewrite (Z.mod_small a (10 ^ k)) in Hdust |- * by lia.
    rewrite (Z.mod_small a (10 ^ 20)) by lia.
    repeat split; [lia|by left|].
    rewrite (chunk_parts_small a 20) by lia; rewrite app_nil_r.
    unfold dust_part; destruct (a =? 0); done. }
  assert (Hka : 10 ^ k <= a).
  { unfold in_u in Ha; destruct (Z.lt_ge_cases a (10 ^ k)); [|lia].
    rewrite Z.div_small in E by lia; done. }
  assert (k < 20).
  { destruct (Z.lt_ge_cases k 20); [lia|]. assert (k = 20) by lia; subst; lia. }
  rewrite (wrap_small 64 (10 ^ k)) by (unfold in_u in *; lia).
  fold (digit_at a k).
  pose proof (Z.mod_pos_bound a (10 ^ k) ltac:(lia)).
  pose proof (mod_pow10_S a k ltac:(lia)) as HS.
  pose proof (pow10_pos (k + 1) ltac:(lia)).
  pose proof (Z.mod_le a (10 ^ (k + 1)) ltac:(unfold in_u in Ha; lia) ltac:(lia)).
  pose proof (digit_at_range a k ltac:(unfold in_u in Ha; lia) ltac:(lia)) as Hd.
  rewrite !(wrap_small 64) with (z := digit_at a k) by (unfold in_u in *; lia).
  rewrite (wrap_small 64 (_ + digit_at a k)) by (unfold in_u in *; lia).
  rewrite Zdiv.Zdiv_Zdiv, <- HS by lia.
  replace (10 ^ k * 10) with (10 ^ (k + 1)) by (rewrite pow10_S; lia).
  destruct (Z.leb_spec (a mod 10 ^ (k + 1)) thr) as [Hle|Hgt].
  - destruct (IH (k + 1) ltac:(lia) ltac:(lia) Hle) as (m & Hm & ? & ? & ->).
    exists m; split; [lia|]; done.
  - exists k; split; [lia|]; repeat split; [done|by right|].
    rewrite chunk_parts_cons by lia; simpl orb.
    replace (20 - k - 1) with (20 - (k + 1)) by lia.
    rewrite (decompose_loop_chunks a thr (k + 1) k fuel) by
      (try done; rewrite ?pow10_S by lia; lia).
    unfold dust_part; destruct (a mod 10 ^ k =? 0); done.
Qed.

(** The decomposition of [amount]: one dust part holding the longest run of low
    digits that stays within the threshold, then the other non-zero digits. *)
Lemma decompose_spec amount thr :
  in_u 64 amount -> in_u 64 thr ->
  exists m, 0 <= m <= 20 /\ amount mod 10 ^ m <= thr /\
    (m = 20 \/ thr < amount mod 10 ^ (m + 1)) /\
    decompose_amount_into_digits amount thr
    = dust_part (amount mod 10 ^ m) ++ chunk_parts amount m (20 - m).
Proof.
  intros Ha Ht; unfold decompose_amount_into_digits.
  destruct (decompose_loop_dust amount thr 0 21 Ha Ht ltac:(lia) ltac:(lia)) as (m & Hm).
  { rewrite Z.mod_1_r; unfold in_u in Ht; lia. }
  exists m; destruct Hm as (? & ? & ? & E); split_and!; try done; try lia.
  rewrite <- E, Z.div_1_r, Z.mod_1_r.
  destruct (Z.eqb_spec amount 0) as [->|]; done.
Qed.

Lemma sum_parts_app p q : sum_parts (p ++ q) = sum_parts p + sum_parts q.
Proof. induction p; unfold sum_parts in *; simpl; lia. Qed.

Lemma sum_dust_part d : sum_parts (dust_part d) = d.
Proof. unfold dust_part, sum_parts; destruct (Z.eqb_spec d 0); simpl; lia. Qed.

Lemma sumZ_parts ps : sumZ (map part_amount ps) = sum_parts ps.
Proof. induction ps; unfold sumZ, sum_parts in *; simpl; lia. Qed.

Lemma decomposeAmount_sum amount thr : in_u 64 amount -> in_u 64 thr ->
  sumZ (decomposeAmount amount thr) = amount.
Proof.
  intros Ha Ht; unfold decomposeAmount; rewrite sumZ_parts.
  destruct (decompose_spec amount thr Ha Ht) as (m & Hm & _ & _ & ->).
  rewrite sum_parts_app, sum_dust_part, sum_chunk_parts by lia.
  replace (m + (20 - m)) with 20 by lia.
  rewrite (Z.mod_small amount (10 ^ 20)) by (unfold in_u in Ha; lia); lia.
Qed.

(** decompose_amount_into_digits splits an amount into one dust part, the
    longest run of low digits within the dust threshold, followed by the
    non-zero decimal digits above it in increasing order, and the parts sum to
    the amount. *)
Theorem decompose_correct amount thr :
  in_u 64 amount -> in_u 64 thr ->
  (exists m, 0 <= m <= 20 /\ amount mod 10 ^ m <= thr /\
    (m = 20 \/ thr < amount mod 10 ^ (m + 1)) /\
    decompose_amount_into_digits amount thr
    = dust_part (amount mod 10 ^ m) ++ chunk_parts amount m (20 - m)) /\
  sumZ (decomposeAmount amount thr) = amount.
Proof. eauto using decompose_spec, decomposeAmount_sum. Qed.

Lemma decompose_correct_witness :
  decompose_amount_into_digits 62387455827 455827 =
    [Dust 455827; Chunk 7000000; Chunk 80000000; Chunk 300000000;
     Chunk 2000000000; Chunk 60000000000] /\
  sumZ (decomposeAmount 62387455827 455827) = 62387455827.
Proof.
  split; [vm_compute; reflexivity|].
  apply (decompose_correct 62387455827 455827); mlia.
Defined.

(** ** Sums, overflow checks and fees *)

Definition outputs_total (outs : list TransactionOutput) : Z :=
  sumZ (map o_amount outs).

Definition inputs_total (ins : list TransactionInput) : Z :=
  sumZ (omap key_input_amount ins).

Lemma wf_input_amount i a : wf_input i -> key_input_amount i = Some a -> in_u 64 a.
Proof. destruct i as [|k]; simpl; [done|]; intros (? & _) [= <-]; done. Qed.

Lemma sumZ_in_u l : Forall (in_u 64) l -> 0 <= sumZ l.
Proof. intros H; apply sumZ_nonneg; eapply Forall_impl; [done|]; unfold in_u; lia. Qed.

Lemma wf_inputs_amounts ins : Forall wf_input ins ->
  Forall (in_u 64) (omap key_input_amount ins).
Proof.
  induction 1 as [|i ins Hi _ IH]; simpl; [constructor|].
  destruct (key_input_amount i) eqn:E; simpl; [|done].
  constructor; [eapply wf_input_amount|]; done.
Qed.

(** [money > amount + money] on 64-bit integers detects exactly a carry. *)
Lemma overflow_test money a : in_u 64 money -> in_u 64 a ->
  (money >? u64 (a + money)) = (2 ^ 64 <=? money + a).
Proof.
  intros Hm Ha; rewrite Z.gtb_ltb; destruct (Z.leb_spec (2 ^ 64) (money + a)).
  - replace (u64 (a + money)) with (a + money - 2 ^ 64); [apply Z.ltb_lt; mlia|].
    unfold wrap; apply Z.mod_unique with 1; mlia.
  - rewrite wrap_small by mlia; apply Z.ltb_ge; mlia.
Qed.

Lemma outputs_total_nonneg outs : Forall wf_output outs -> 0 <= outputs_total outs.
Proof.
  intros H; apply sumZ_in_u, Forall_map; eapply Forall_impl; [done|].
  intros ? [? _]; done.
Qed.

Lemma inputs_total_nonneg ins : Forall wf_input ins -> 0 <= inputs_total ins.
Proof. intros H; apply sumZ_in_u, wf_inputs_amounts, H. Qed.

Lemma inputs_total_cons i ins : inputs_total (i :: ins) =
  match key_input_amount i with Some a => a | None => 0 end + inputs_total ins.
Proof.
  unfold inputs_total; cbn [omap list_omap]; destruct (key_input_amount i); [done|].
  rewrite Z.add_0_l; done.
Qed.

Lemma input_amount_range i : wf_input i ->
  in_u 64 match key_input_amount i with Some a => a | None => 0 end.
Proof.
  intros Hi; destruct (key_input_amount i) eqn:E; [|mlia].
  by eapply wf_input_amount.
Qed.

Lemma checkOuts_loop_spec outs money :
  in_u 64 money -> Forall wf_output outs ->
  checkOutsOverflow_loop money outs = (money + outputs_total outs <? 2 ^ 64).
Proof.
  intros Hm Ho; revert money Hm; induction Ho as [|o outs [Ho _] Hos IH]; intros money Hm.
  { symmetry; apply Z.ltb_lt; unfold outputs_total, in_u in *; simpl; lia. }
  simpl; rewrite overflow_test by done.
  pose proof (outputs_total_nonneg outs Hos).
  replace (outputs_total (o :: outs)) with (o_amount o + outputs_total outs) by done.
  destruct (Z.leb_spec (2 ^ 64) (money + o_amount o)).
  - symmetry; apply Z.ltb_ge; lia.
  - rewrite wrap_small, IH by (unfold in_u in *; lia); f_equal; lia.
Qed.

Lemma checkInputs_loop_spec ins money :
  in_u 64 money -> Forall wf_input ins ->
  checkInputsOverflow_loop money ins = (money + inputs_total ins <? 2 ^ 64).
Proof.
  intros Hm Ho; revert money Hm; induction Ho as [|i ins Hi His IH]; intros money Hm.
  { symmetry; apply Z.ltb_lt; unfold inputs_total, in_u in *; simpl; lia. }
  pose proof (input_amount_range i Hi) as Hr.
  pose proof (inputs_total_nonneg ins His).
  cbn [checkInputsOverflow_loop]; rewrite inputs_total_cons.
  revert Hr; generalize (match key_input_amount i with Some a => a | None => 0 end).
  intros a Ha; rewrite overflow_test by done.
  destruct (Z.leb_spec (2 ^ 64) (money + a)).
  - symmetry; apply Z.ltb_ge; lia.
  - rewrite wrap_small, IH by (unfold in_u in *; lia); f_equal; lia.
Qed.

Lemma getOutputAmount_spec tx : Forall wf_output (tx_outputs tx) ->
  getOutputAmount tx = u64 (outputs_total (tx_outputs tx)).
Proof.
  intros Ho; unfold getOutputAmount.
  enough (forall s, fold_left (fun amount o => u64 (amount + o_amount o))
            (tx_outputs tx) (u64 s) = u64 (s + outputs_total (tx_outputs tx))) as H.
  { pose proof (H 0) as H0; rewrite Z.add_0_l in H0; exact H0. }
  induction Ho as [|o outs _ _ IH]; intros s; [by rewrite Z.add_0_r|].
  simpl; unfold wrap at 2 3; rewrite Zplus_mod_idemp_l.
  fold (wrap 64 (s + o_amount o)); rewrite IH.
  replace (outputs_total (o :: outs)) with (o_amount o + outputs_total outs) by done.
  f_equal; lia.
Qed.

Lemma getInputAmount_spec tx :
  getInputAmount tx = u64 (inputs_total (tx_inputs tx)).
Proof.
  unfold getInputAmount.
  enough (forall s, fold_left (fun amount i =>
      match key_input_amount i with Some a => u64 (amount + a) | None => amount end)
      (tx_inputs tx) (u64 s) = u64 (s + inputs_total (tx_inputs tx))) as H.
  { pose proof (H 0) as H0; rewrite Z.add_0_l in H0; exact H0. }
  induction (tx_inputs tx) as [|i ins IH]; intros s; [by rewrite Z.add_0_r|].
  cbn [fold_left]; rewrite inputs_total_cons.
  destruct (key_input_amount i) as [a|].
  - unfold wrap at 2 3; rewrite Zplus_mod_idemp_l; fold (wrap 64 (s + a)).
    rewrite IH; f_equal; lia.
  - rewrite IH; f_equal; lia.
Qed.

(** For every transaction whose fields fit their types,
    checkInputsOverflow and checkOutsOverflow accept exactly the transactions
    whose amounts sum to less than 2^64, and then get_tx_fee returns inputs
    minus outputs, failing exactly when the outputs exceed the inputs. *)
Theorem tx_fee_correct tx :
  wf_prefix tx ->
  let ins := inputs_total (tx_inputs tx) in
  let outs := outputs_total (tx_outputs tx) in
  (checkInputsOverflow tx = true <-> ins < 2 ^ 64) /\
  (checkOutsOverflow tx = true <-> outs < 2 ^ 64) /\
  (checkInputsOverflow tx = true -> checkOutsOverflow tx = true ->
     get_tx_fee_opt tx = (if decide (outs <= ins) then Some (ins - outs) else None)).
Proof.
  intros (_ & _ & Hi & Ho & _) ins outs.
  assert (Ci : checkInputsOverflow tx = true <-> ins < 2 ^ 64).
  { unfold checkInputsOverflow; rewrite checkInputs_loop_spec by (done || mlia).
    rewrite Z.ltb_lt, Z.add_0_l; done. }
  assert (Co : checkOutsOverflow tx = true <-> outs < 2 ^ 64).
  { unfold checkOutsOverflow; rewrite checkOuts_loop_spec by (done || mlia).
    rewrite Z.ltb_lt, Z.add_0_l; done. }
  split_and!; [done..|]; intros Hci%Ci Hco%Co.
  pose proof (inputs_total_nonneg _ Hi); pose proof (outputs_total_nonneg _ Ho).
  unfold get_tx_fee_opt; rewrite getInputAmount_spec, getOutputAmount_spec by done.
  fold ins outs; rewrite !(wrap_small 64 ins), !(wrap_small 64 outs) by mlia.
  rewrite Z.geb_leb; destruct (Z.leb_spec outs ins), (decide (outs <= ins)); try lia; simpl.
  - rewrite wrap_small by mlia; done.
  - done.
Qed.

Definition fee_example : TransactionPrefix :=
  mkPrefix 1 0 [InKey (mkKeyInput (2 ^ 63) [1; 2] (repeat 0 32)); InBase 7]
    [mkOutput 5 (OutKey (repeat 1 32)); mkOutput (2 ^ 62) (OutKey (repeat 2 32))] [].

Lemma tx_fee_correct_witness :
  get_tx_fee_opt fee_example = Some (2 ^ 63 - 5 - 2 ^ 62) /\
  checkInputsOverflow fee_example = true.
Proof.
  split.
  - rewrite (proj2 (proj2 (tx_fee_correct fee_example
      ltac:(apply (bool_decide_unpack _); vm_compute; done)))); vm_compute; done.
  - vm_compute; reflexivity.
Defined.

(** ** Offsets *)

Lemma wrap_add_sub w x y : in_u w x -> wrap w (wrap w (x - y) + y) = x.
Proof.
  intros Hx; unfold wrap; rewrite Zplus_mod_idemp_l.
  replace (x - y + y) with x by lia; apply Z.mod_small; done.
Qed.

Lemma wrap_sub_add w x y : in_u w x -> wrap w (wrap w (x + y) - y) = x.
Proof.
  intros Hx; unfold wrap; rewrite Zminus_mod_idemp_l.
  replace (x + y - y) with x by lia; apply Z.mod_small; done.
Qed.

Lemma accumulate_difference off prev : Forall (in_u 32) off ->
  accumulate_offsets prev (difference_offsets prev off) = off.
Proof.
  intros H; revert prev; induction H as [|x off Hx _ IH]; intros prev; [done|].
  cbn [accumulate_offsets difference_offsets]; rewrite wrap_add_sub, IH; done.
Qed.

Lemma difference_accumulate off prev : Forall (in_u 32) off ->
  difference_offsets prev (accumulate_offsets prev off) = off.
Proof.
  intros H; revert prev; induction H as [|x off Hx _ IH]; intros prev; [done|].
  cbn [accumulate_offsets difference_offsets]; rewrite wrap_sub_add, IH; done.
Qed.

(** Without wrap-around the absolute offsets are the prefix sums. *)
Lemma accumulate_lookup off prev i : Forall (in_u 32) off -> in_u 32 prev ->
  prev + sumZ off < 2 ^ 32 -> (i < length off)%nat ->
  accumulate_offsets prev off !! i = Some (prev + sumZ (take (S i) off)).
Proof.
  intros H; revert prev i; induction H as [|x off Hx Hoff IH]; intros prev i Hp Hs Hi;
    simpl in Hi; [lia|].
  cbn [accumulate_offsets]; simpl in Hs.
  assert (0 <= sumZ off).
  { apply sumZ_nonneg; eapply Forall_impl; [done|]; unfold in_u; lia. }
  rewrite wrap_small by (unfold in_u in *; lia).
  destruct i as [|i]; simpl; [f_equal; lia|].
  rewrite IH by (unfold in_u in *; lia); simpl; f_equal; lia.
Qed.

(** Relative and absolute output offsets convert into each other without
    loss at 32 bits, and the absolute offsets are the prefix sums when these
    fit. *)
Theorem offsets_roundtrip off :
  Forall (in_u 32) off ->
  absolute_output_offsets_to_relative (relativeOutputOffsetsToAbsolute off) = off /\
  relativeOutputOffsetsToAbsolute (absolute_output_offsets_to_relative off) = off /\
  (sumZ off < 2 ^ 32 -> forall i, (i < length off)%nat ->
     relativeOutputOffsetsToAbsolute off !! i = Some (sumZ (take (S i) off))).
Proof.
  intros H; destruct H as [|x off Hx Hoff]; [split_and!; [done..|]; simpl; lia|].
  unfold absolute_output_offsets_to_relative, relativeOutputOffsetsToAbsolute.
  rewrite difference_accumulate, accumulate_difference by done.
  split_and!; [done..|]; intros Hs [|i] Hi.
  - simpl; f_equal; lia.
  - simpl in *; rewrite accumulate_lookup by (done || lia); done.
Qed.

Lemma offsets_roundtrip_witness :
  relativeOutputOffsetsToAbsolute [3; 2; 4294967295] = [3; 5; 4] /\
  absolute_output_offsets_to_relative (relativeOutputOffsetsToAbsolute [3; 2; 4294967295])
  = [3; 2; 4294967295].
Proof.
  split; [vm_compute; reflexivity|].
  apply (offsets_roundtrip [3; 2; 4294967295]).
  apply (bool_decide_unpack _); vm_compute; done.
Defined.

End FormatUtils.
