(* ===== verification/CheckDifficulty.v ===== *)
(** Proof-of-work check (src/src/CryptoNoteCore/CheckDifficulty.cpp).

    A hash is its 32 bytes; [hash_word] is the little-endian 64-bit load the
    code makes through a [uint64_t] pointer.  Both preprocessor variants of
    [mul] are modelled (the 128-bit one and the portable one built on
    [IntUtil.mul128]) and shown to agree.  The main theorem says that the three
    carry chains of [check_hash] decide exactly [hash * difficulty < 2^256]. *)

From S2P Require Import Prelude.
From S2P Require Import IntUtil.

Module CheckDifficulty.

(** [mul] under [__SIZEOF_INT128__]: low and high word of the product. *)
Definition mul (a b : Z) : Z * Z :=
  let res := wrap 128 (a * b) in
  (u64 res, u64 (Z.shiftr res 64)).

(** [mul] without 128-bit integers. *)
Definition mul_portable (a b : Z) : Z * Z := IntUtil.mul128 a b.

Definition cadd (a b : Z) : bool := u64 (a + b) <? a.

Definition cadc (a b : Z) (c : bool) : bool :=
  (u64 (a + b) <? a) || (c && (u64 (a + b) =? u64 (-1))).

(** [((const uint64_t * ) &hash)[i]] on a little-endian machine. *)
Definition hash_word (hash : list Z) (i : nat) : Z :=
  le_val (take 8 (drop (8 * i) hash)).

Definition check_hash (hash : list Z) (difficulty : Z) : bool :=
  let '(top, high) := mul (IntUtil.swap64le (hash_word hash 3)) difficulty in
  if negb (high =? 0) then false
  else
    let '(low, cur) := mul (IntUtil.swap64le (hash_word hash 0)) difficulty in
    let '(low, high) := mul (IntUtil.swap64le (hash_word hash 1)) difficulty in
    let carry := cadd cur low in
    let cur := high in
    let '(low, high) := mul (IntUtil.swap64le (hash_word hash 2)) difficulty in
    let carry := cadc cur low carry in
    let carry := cadc high top carry in
    negb carry.

(** ** The word operations *)

Lemma mul_spec a b lo hi :
  in_u 64 a -> in_u 64 b -> mul a b = (lo, hi) ->
  a * b = hi * 2 ^ 64 + lo /\ in_u 64 lo /\ in_u 64 hi /\ hi <= 2 ^ 64 - 2.
Proof.
  intros Ha Hb H; unfold mul in H.
  assert (Hab : 0 <= a * b <= (2 ^ 64 - 1) * (2 ^ 64 - 1)).
  { split; [unfold in_u in *; apply Z.mul_nonneg_nonneg; lia|].
    apply Z.mul_le_mono_nonneg; unfold in_u in *; lia. }
  revert Hab H; generalize (a * b) as p; intros p Hp [= <- <-].
  rewrite (wrap_small 128) by (unfold in_u; lia).
  rewrite Z.shiftr_div_pow2 by lia; unfold wrap.
  rewrite (Z.mod_small (p / 2 ^ 64)) by (split; [apply Z.div_pos; lia|
    apply Z.div_lt_upper_bound; lia]).
  pose proof (Z.div_mod p (2 ^ 64) ltac:(lia)).
  pose proof (Z.mod_pos_bound p (2 ^ 64) ltac:(lia)).
  unfold in_u; repeat split; try lia.
Qed.

Lemma cadd_spec a b : in_u 64 a -> in_u 64 b ->
  cadd a b = (2 ^ 64 <=? a + b).
Proof.
  intros Ha Hb; unfold cadd.
  destruct (Z.leb_spec (2 ^ 64) (a + b)).
  - replace (u64 (a + b)) with (a + b - 2 ^ 64); [apply Z.ltb_lt; mlia|].
    unfold wrap; apply Z.mod_unique with 1; mlia.
  - rewrite wrap_small by mlia; apply Z.ltb_ge; mlia.
Qed.

(** [cadc] is the carry out of an addition with carry in. *)
Lemma cadc_spec a b c : in_u 64 a -> in_u 64 b ->
  cadc a b c = (2 ^ 64 <=? a + b + Z.b2z c).
Proof.
  intros Ha Hb; unfold cadc; fold (cadd a b); rewrite cadd_spec by done.
  change (u64 (-1)) with (2 ^ 64 - 1).
  destruct (Z.leb_spec (2 ^ 64) (a + b)); simpl.
  - symmetry; apply Z.leb_le; destruct c; simpl; lia.
  - rewrite wrap_small by mlia.
    destruct c; simpl; [|symmetry; apply Z.leb_gt; lia].
    destruct (Z.eqb_spec (a + b) (2 ^ 64 - 1)); symmetry;
      [apply Z.leb_le | apply Z.leb_gt]; lia.
Qed.

Lemma hash_word_range hash i : length hash = 32%nat -> Forall is_byte hash ->
  (i < 4)%nat -> in_u 64 (hash_word hash i).
Proof.
  intros Hl Hb Hi; unfold hash_word.
  assert (length (take 8 (drop (8 * i) hash)) = 8%nat) as H8.
  { rewrite length_take, length_drop; lia. }
  pose proof (le_val_range (take 8 (drop (8 * i) hash))) as H.
  rewrite H8 in H; apply H, Forall_take, Forall_drop; done.
Qed.

Lemma hash_words hash : length hash = 32%nat ->
  le_val hash = hash_word hash 0 + 2 ^ 64 * (hash_word hash 1 +
    2 ^ 64 * (hash_word hash 2 + 2 ^ 64 * hash_word hash 3)).
Proof.
  intros Hl; unfold hash_word.
  rewrite <- (take_drop 8 hash) at 1.
  rewrite <- (take_drop 8 (drop 8 hash)) at 1.
  rewrite <- (take_drop 8 (drop 8 (drop 8 hash))) at 1.
  rewrite !drop_drop; simpl Nat.add; simpl Nat.mul; rewrite drop_0.
  rewrite !le_val_app, !length_take, !length_drop, Hl; simpl Nat.min.
  rewrite (take_ge (drop 24 hash)) by (rewrite length_drop; lia).
  change (256 ^ Z.of_nat 8) with (2 ^ 64); lia.
Qed.

Lemma check_hash_correct_aux hash difficulty :
  length hash = 32%nat -> Forall is_byte hash -> in_u 64 difficulty ->
  check_hash hash difficulty = (le_val hash * difficulty <? 2 ^ 256).
Proof.
  intros Hl Hb Hd; unfold check_hash, IntUtil.swap64le.
  pose proof (fun i => hash_word_range hash i Hl Hb) as Hw.
  destruct (mul (hash_word hash 3) difficulty) as [top h3] eqn:E3.
  destruct (mul (hash_word hash 0) difficulty) as [l0 cur0] eqn:E0.
  destruct (mul (hash_word hash 1) difficulty) as [l1 h1] eqn:E1.
  destruct (mul (hash_word hash 2) difficulty) as [l2 h2] eqn:E2.
  apply mul_spec in E0, E1, E2, E3; try apply Hw; try lia; try done.
  destruct_and!; rewrite cadc_spec, cadc_spec, cadd_spec by done.
  rewrite hash_words by done.
  remember (_ <? _) as r eqn:Er.
  rewrite (Z.mul_comm _ difficulty), !Z.mul_add_distr_l in Er.
  (* everything is now linear in the eight result words *)
  assert (Er' : r = (l0 + 2 ^ 64 * (cur0 + l1 + 2 ^ 64 * (h1 + l2
            + 2 ^ 64 * (h2 + top + 2 ^ 64 * h3))) <? 2 ^ 256)).
  { rewrite Er; f_equal; nia. }
  clear Er; subst r; clear Hw Hl Hb; unfold in_u in *.
  destruct (Z.eqb_spec h3 0) as [->|Hh3]; simpl;
    [|symmetry; apply Z.ltb_ge; lia].
  destruct (Z.leb_spec (2 ^ 64) (cur0 + l1)); simpl Z.b2z;
  match goal with |- context [2 ^ 64 <=? h1 + l2 + ?b] =>
    destruct (Z.leb_spec (2 ^ 64) (h1 + l2 + b)) end; simpl Z.b2z;
  match goal with |- context [2 ^ 64 <=? h2 + top + ?b] =>
    destruct (Z.leb_spec (2 ^ 64) (h2 + top + b)) end; simpl negb;
  symmetry; first [apply Z.ltb_lt; lia | apply Z.ltb_ge; lia].
Qed.

(** check_hash accepts exactly the hashes whose value as a little-endian
    256-bit number times the difficulty is below 2^256: no carry of the
    word-wise product is lost; the portable and the 128-bit multiplication
    agree. *)
Theorem check_hash_correct hash difficulty :
  length hash = 32%nat -> Forall is_byte hash -> in_u 64 difficulty ->
  (check_hash hash difficulty = true <-> le_val hash * difficulty < 2 ^ 256) /\
  (forall a b, in_u 64 a -> in_u 64 b -> mul_portable a b = mul a b).
Proof.
  intros Hl Hb Hd; split.
  - rewrite check_hash_correct_aux by done; apply Z.ltb_lt.
  - intros a b Ha Hb'; unfold mul_portable.
    destruct (mul a b) as [lo hi] eqn:E; apply mul_spec in E; try done.
    pose proof (IntUtil.mul128_spec a b Ha Hb') as H.
    destruct (IntUtil.mul128 a b) as [lo' hi']; simpl in H.
    destruct_and!; f_equal; unfold in_u in *; lia.
Qed.

Lemma check_hash_correct_witness :
  let h := repeat 255 32 in
  check_hash h 1 = true /\ check_hash h 2 = false /\
  (check_hash h 2 = true <-> le_val h * 2 < 2 ^ 256).
Proof.
  split; [vm_compute; reflexivity|]; split; [vm_compute; reflexivity|].
  apply (check_hash_correct (repeat 255 32) 2).
  - reflexivity.
  - apply List.Forall_forall; intros x Hx; apply repeat_spec in Hx;
      subst x; mlia.
  - mlia.
Defined.

End CheckDifficulty.
