(* ===== verification/Currency.v ===== *)
(** Consensus rules of src/src/CryptoNoteCore/Currency.{h,cpp} and
    [getPenalizedAmount] of src/src/CryptoNoteCore/CryptoNoteBasicImpl.cpp.

    [Currency] has one field per member the rules read.  [CurrencyBuilder] is the
    constructor with its validating setters; a setter is modelled by the value it
    stores or the exception it throws.  Sizes and amounts are 64-bit, heights 32-
    bit.  Assertions are not part of the definitions: the theorems show that the
    asserted conditions hold. *)

From S2P Require Import Prelude.
From S2P Require Import Config.
From S2P Require Import Types.
From S2P Require Import IntUtil.
From S2P Require Import FormatUtils.
From S2P Require Import CheckDifficulty.

Module Currency.

Import parameters.

Record Currency := mkCurrency {
  m_maxBlockHeight : Z;
  m_maxBlockBlobSize : Z;
  m_maxTxSize : Z;
  m_publicAddressBase58Prefix : Z;
  m_minedMoneyUnlockWindow : Z;
  m_timestampCheckWindow : Z;
  m_blockFutureTimeLimit : Z;
  m_moneySupply : Z;
  m_emissionSpeedFactor : Z;
  m_genesisBlockReward : Z;
  m_rewardBlocksWindow : Z;
  m_zawyDifficultyBlockIndex : Z;
  m_zawyDifficultyV2 : Z;
  m_zawyDifficultyBlockVersion : Z;
  m_blockGrantedFullRewardZone : Z;
  m_minerTxBlobReservedSize : Z;
  m_numberOfDecimalPlaces : Z;
  m_coin : Z;
  m_mininumFee : Z;
  m_defaultDustThreshold : Z;
  m_difficultyTarget : Z;
  m_difficultyWindow : Z;
  m_difficultyLag : Z;
  m_difficultyCut : Z;
  m_maxBlockSizeInitial : Z;
  m_maxBlockSizeGrowthSpeedNumerator : Z;
  m_maxBlockSizeGrowthSpeedDenominator : Z;
  m_lockedTxAllowedDeltaSeconds : Z;
  m_lockedTxAllowedDeltaBlocks : Z;
  m_mempoolTxLiveTime : Z;
  m_mempoolTxFromAltBlockLiveTime : Z;
  m_numberOfPeriodsToForgetTxDeletedFromPool : Z;
  m_fusionTxMaxSize : Z;
  m_fusionTxMinInputCount : Z;
  m_fusionTxMinInOutCountRatio : Z;
  m_upgradeHeightV2 : Z;
  m_upgradeHeightV3 : Z;
  m_upgradeHeightV4 : Z;
  m_upgradeHeightV5 : Z;
  m_upgradeVotingThreshold : Z;
  m_upgradeVotingWindow : Z;
  m_upgradeWindow : Z;
  m_testnet : bool;
  m_isBlockexplorer : bool }.

(** ** CurrencyBuilder: setters that validate their argument *)

Definition emissionSpeedFactor (val : Z) : result string Z :=
  if (val <=? 0) || (val >? 64) then Err "val at emissionSpeedFactor()"%string
  else Ok val.

(** The decimal places and the resulting [m_coin]. *)
Definition numberOfDecimalPlaces (val : Z) : Z * Z :=
  (val, Nat.iter (Z.to_nat val) (fun coin => u64 (coin * 10)) 1).

Definition difficultyWindow (val : Z) : result string Z :=
  if val <? 2 then Err "val at difficultyWindow()"%string else Ok val.

Definition upgradeVotingThreshold (val : Z) : result string Z :=
  if (val <=? 0) || (val >? 100) then Err "val at upgradeVotingThreshold()"%string
  else Ok val.

Definition upgradeWindow (val : Z) : result string Z :=
  if val <=? 0 then Err "val at upgradeWindow()"%string else Ok val.

(** The constructor: every setter applied to its configured value. *)
Definition CurrencyBuilder : result string Currency :=
  let! esf := emissionSpeedFactor EMISSION_SPEED_FACTOR in
  let '(places, coin) := numberOfDecimalPlaces CRYPTONOTE_DISPLAY_DECIMAL_POINT in
  let! window := difficultyWindow DIFFICULTY_WINDOW in
  let! threshold := upgradeVotingThreshold UPGRADE_VOTING_THRESHOLD in
  let! upwindow := upgradeWindow UPGRADE_WINDOW in
  Ok {|
    m_maxBlockHeight := CRYPTONOTE_MAX_BLOCK_NUMBER;
    m_maxBlockBlobSize := CRYPTONOTE_MAX_BLOCK_BLOB_SIZE;
    m_maxTxSize := CRYPTONOTE_MAX_TX_SIZE;
    m_publicAddressBase58Prefix := CRYPTONOTE_PUBLIC_ADDRESS_BASE58_PREFIX;
    m_minedMoneyUnlockWindow := CRYPTONOTE_MINED_MONEY_UNLOCK_WINDOW;
    m_timestampCheckWindow := BLOCKCHAIN_TIMESTAMP_CHECK_WINDOW;
    m_blockFutureTimeLimit := CRYPTONOTE_BLOCK_FUTURE_TIME_LIMIT;
    m_moneySupply := MONEY_SUPPLY;
    m_emissionSpeedFactor := esf;
    m_genesisBlockReward := GENESIS_BLOCK_REWARD;
    m_rewardBlocksWindow := CRYPTONOTE_REWARD_BLOCKS_WINDOW;
    m_zawyDifficultyBlockIndex := ZAWY_DIFFICULTY_BLOCK_INDEX;
    m_zawyDifficultyV2 := ZAWY_DIFFICULTY_V2;
    m_zawyDifficultyBlockVersion := ZAWY_DIFFICULTY_DIFFICULTY_BLOCK_VERSION;
    m_blockGrantedFullRewardZone := CRYPTONOTE_BLOCK_GRANTED_FULL_REWARD_ZONE;
    m_minerTxBlobReservedSize := CRYPTONOTE_COINBASE_BLOB_RESERVED_SIZE;
    m_numberOfDecimalPlaces := places;
    m_coin := coin;
    m_mininumFee := MINIMUM_FEE;
    m_defaultDustThreshold := DEFAULT_DUST_THRESHOLD;
    m_difficultyTarget := DIFFICULTY_TARGET;
    m_difficultyWindow := window;
    m_difficultyLag := DIFFICULTY_LAG;
    m_difficultyCut := DIFFICULTY_CUT;
    m_maxBlockSizeInitial := MAX_BLOCK_SIZE_INITIAL;
    m_maxBlockSizeGrowthSpeedNumerator := MAX_BLOCK_SIZE_GROWTH_SPEED_NUMERATOR;
    m_maxBlockSizeGrowthSpeedDenominator := MAX_BLOCK_SIZE_GROWTH_SPEED_DENOMINATOR;
    m_lockedTxAllowedDeltaSeconds := CRYPTONOTE_LOCKED_TX_ALLOWED_DELTA_SECONDS;
    m_lockedTxAllowedDeltaBlocks := CRYPTONOTE_LOCKED_TX_ALLOWED_DELTA_BLOCKS;
    m_mempoolTxLiveTime := CRYPTONOTE_MEMPOOL_TX_LIVETIME;
    m_mempoolTxFromAltBlockLiveTime := CRYPTONOTE_MEMPOOL_TX_FROM_ALT_BLOCK_LIVETIME;
    m_numberOfPeriodsToForgetTxDeletedFromPool :=
      CRYPTONOTE_NUMBER_OF_PERIODS_TO_FORGET_TX_DELETED_FROM_POOL;
    m_fusionTxMaxSize := FUSION_TX_MAX_SIZE;
    m_fusionTxMinInputCount := FUSION_TX_MIN_INPUT_COUNT;
    m_fusionTxMinInOutCountRatio := FUSION_TX_MIN_IN_OUT_COUNT_RATIO;
    m_upgradeHeightV2 := UPGRADE_HEIGHT_V2;
    m_upgradeHeightV3 := UPGRADE_HEIGHT_V3;
    m_upgradeHeightV4 := UPGRADE_HEIGHT_V4;
    m_upgradeHeightV5 := UPGRADE_HEIGHT_V5;
    m_upgradeVotingThreshold := threshold;
    m_upgradeVotingWindow := UPGRADE_VOTING_WINDOW;
    m_upgradeWindow := upwindow;
    m_testnet := false;
    m_isBlockexplorer := false |}.

(** [Currency::Currency(Currency&&)], through which [CurrencyBuilder::currency]
    returns.  The member initialiser list has no entry for
    [m_mempoolTxFromAltBlockLiveTime]; [uninit] is the indeterminate value the
    new object has there. *)
Definition Currency_move (uninit : Z) (c : Currency) : Currency :=
  {| m_maxBlockHeight := m_maxBlockHeight c;
     m_maxBlockBlobSize := m_maxBlockBlobSize c;
     m_maxTxSize := m_maxTxSize c;
     m_publicAddressBase58Prefix := m_publicAddressBase58Prefix c;
     m_minedMoneyUnlockWindow := m_minedMoneyUnlockWindow c;
     m_timestampCheckWindow := m_timestampCheckWindow c;
     m_blockFutureTimeLimit := m_blockFutureTimeLimit c;
     m_moneySupply := m_moneySupply c;
     m_emissionSpeedFactor := m_emissionSpeedFactor c;
     m_genesisBlockReward := m_genesisBlockReward c;
     m_rewardBlocksWindow := m_rewardBlocksWindow c;
     m_zawyDifficultyBlockIndex := m_zawyDifficultyBlockIndex c;
     m_zawyDifficultyV2 := m_zawyDifficultyV2 c;
     m_zawyDifficultyBlockVersion := m_zawyDifficultyBlockVersion c;
     m_blockGrantedFullRewardZone := m_blockGrantedFullRewardZone c;
     m_minerTxBlobReservedSize := m_minerTxBlobReservedSize c;
     m_numberOfDecimalPlaces := m_numberOfDecimalPlaces c;
     m_coin := m_coin c;
     m_mininumFee := m_mininumFee c;
     m_defaultDustThreshold := m_defaultDustThreshold c;
     m_difficultyTarget := m_difficultyTarget c;
     m_difficultyWindow := m_difficultyWindow c;
     m_difficultyLag := m_difficultyLag c;
     m_difficultyCut := m_difficultyCut c;
     m_maxBlockSizeInitial := m_maxBlockSizeInitial c;
     m_maxBlockSizeGrowthSpeedNumerator := m_maxBlockSizeGrowthSpeedNumerator c;
     m_maxBlockSizeGrowthSpeedDenominator := m_maxBlockSizeGrowthSpeedDenominator c;
     m_lockedTxAllowedDeltaSeconds := m_lockedTxAllowedDeltaSeconds c;
     m_lockedTxAllowedDeltaBlocks := m_lockedTxAllowedDeltaBlocks c;
     m_mempoolTxLiveTime := m_mempoolTxLiveTime c;
     m_mempoolTxFromAltBlockLiveTime := uninit;
     m_numberOfPeriodsToForgetTxDeletedFromPool :=
       m_numberOfPeriodsToForgetTxDeletedFromPool c;
     m_fusionTxMaxSize := m_fusionTxMaxSize c;
     m_fusionTxMinInputCount := m_fusionTxMinInputCount c;
     m_fusionTxMinInOutCountRatio := m_fusionTxMinInOutCountRatio c;
     m_upgradeHeightV2 := m_upgradeHeightV2 c;
     m_upgradeHeightV3 := m_upgradeHeightV3 c;
     m_upgradeHeightV4 := m_upgradeHeightV4 c;
     m_upgradeHeightV5 := m_upgradeHeightV5 c;
     m_upgradeVotingThreshold := m_upgradeVotingThreshold c;
     m_upgradeVotingWindow := m_upgradeVotingWindow c;
     m_upgradeWindow := m_upgradeWindow c;
     m_testnet := m_testnet c;
     m_isBlockexplorer := m_isBlockexplorer c |}.

(** ** Parameters by block version or height *)

Definition difficultyWindowByBlockVersion (c : Currency) (blockMajorVersion : Z) : Z :=
  if blockMajorVersion >=? BLOCK_MAJOR_VERSION_3 then m_difficultyWindow c
  else if blockMajorVersion =? BLOCK_MAJOR_VERSION_2 then DIFFICULTY_WINDOW_V2
  else DIFFICULTY_WINDOW_V1.

Definition difficultyLagByBlockVersion (c : Currency) (blockMajorVersion : Z) : Z :=
  if blockMajorVersion >=? BLOCK_MAJOR_VERSION_3 then m_difficultyLag c
  else if blockMajorVersion =? BLOCK_MAJOR_VERSION_2 then DIFFICULTY_LAG_V2
  else DIFFICULTY_LAG_V1.

Definition difficultyCutByBlockVersion (c : Currency) (blockMajorVersion : Z) : Z :=
  if blockMajorVersion >=? BLOCK_MAJOR_VERSION_3 then m_difficultyCut c
  else if blockMajorVersion =? BLOCK_MAJOR_VERSION_2 then DIFFICULTY_CUT_V2
  else DIFFICULTY_CUT_V1.

Definition difficultyBlocksCountByBlockVersion (c : Currency)
    (blockMajorVersion height : Z) : Z :=
  if height >=? LWMA_2_DIFFICULTY_BLOCK_INDEX then DIFFICULTY_BLOCKS_COUNT_V3
  else u64 (difficultyWindowByBlockVersion c blockMajorVersion
            + difficultyLagByBlockVersion c blockMajorVersion).

Definition blockGrantedFullRewardZoneByBlockVersion (c : Currency)
    (blockMajorVersion : Z) : Z :=
  if blockMajorVersion >=? BLOCK_MAJOR_VERSION_3 then m_blockGrantedFullRewardZone c
  else if blockMajorVersion =? BLOCK_MAJOR_VERSION_2 then
    CRYPTONOTE_BLOCK_GRANTED_FULL_REWARD_ZONE_V2
  else CRYPTONOTE_BLOCK_GRANTED_FULL_REWARD_ZONE_V1.

Definition upgradeHeight (c : Currency) (majorVersion : Z) : Z :=
  if majorVersion =? BLOCK_MAJOR_VERSION_2 then m_upgradeHeightV2 c
  else if majorVersion =? BLOCK_MAJOR_VERSION_3 then m_upgradeHeightV3 c
  else if majorVersion =? BLOCK_MAJOR_VERSION_4 then m_upgradeHeightV4 c
  else if majorVersion =? BLOCK_MAJOR_VERSION_5 then m_upgradeHeightV5 c
  else u32 (-1).

Definition timestampCheckWindow (c : Currency) (blockHeight : Z) : Z :=
  if blockHeight >=? LWMA_2_DIFFICULTY_BLOCK_INDEX_V3 then
    BLOCKCHAIN_TIMESTAMP_CHECK_WINDOW_V3
  else m_timestampCheckWindow c.

Definition blockFutureTimeLimit (c : Currency) (blockHeight : Z) : Z :=
  if blockHeight >=? LWMA_2_DIFFICULTY_BLOCK_INDEX_V2 then
    CRYPTONOTE_BLOCK_FUTURE_TIME_LIMIT_V4
  else if blockHeight >=? LWMA_2_DIFFICULTY_BLOCK_INDEX then
    CRYPTONOTE_BLOCK_FUTURE_TIME_LIMIT_V3
  else m_blockFutureTimeLimit c.

Definition defaultDustThreshold (c : Currency) (height : Z) : Z :=
  if height >=? DUST_THRESHOLD_V2_HEIGHT then DEFAULT_DUST_THRESHOLD_V2
  else m_defaultDustThreshold c.

Definition defaultFusionDustThreshold (c : Currency) (height : Z) : Z :=
  if height >=? FUSION_DUST_THRESHOLD_HEIGHT_V2 then DEFAULT_DUST_THRESHOLD_V2
  else m_defaultDustThreshold c.

Definition minNumberVotingBlocks (c : Currency) : Z :=
  u32 (u32 (m_upgradeVotingWindow c * m_upgradeVotingThreshold c) + 99) / 100.

Definition maxUpgradeDistance (c : Currency) : Z := u32 (7 * m_upgradeWindow c).

Definition calculateUpgradeHeight (c : Currency) (voteCompleteHeight : Z) : Z :=
  u32 (voteCompleteHeight + m_upgradeWindow c).

(** ** Block reward *)

(** High and low word of the penalised amount. *)
Definition penalized_words (amount medianSize currentBlockSize : Z) : Z * Z :=
  let '(productLo, productHi) :=
    IntUtil.mul128 amount
      (u64 (currentBlockSize * u64 (u64 (2 * medianSize) - currentBlockSize))) in
  let '(_, hi, lo) := IntUtil.div128_32 productHi productLo (u32 medianSize) in
  let '(_, hi, lo) := IntUtil.div128_32 hi lo (u32 medianSize) in
  (hi, lo).

(** [None]: an assertion fails in a debug build, or the division by the lower 32 bits of the median
    is a division by zero. *)
Definition getPenalizedAmount (ndebug : bool) (amount medianSize currentBlockSize : Z) : option Z :=
  if negb (ndebug || ((currentBlockSize <=? u64 (2 * medianSize)) && (medianSize <=? 2 ^ 32 - 1) &&
                      (currentBlockSize <=? 2 ^ 32 - 1))) then None
  else if amount =? 0 then Some 0
  else if currentBlockSize <=? medianSize then Some amount
  else if u32 medianSize =? 0 then None
  else
    let '(penalizedAmountHi, penalizedAmountLo) := penalized_words amount medianSize currentBlockSize in
    if negb (ndebug || ((penalizedAmountHi =? 0) && (penalizedAmountLo <? amount))) then None
    else Some penalizedAmountLo.

(** The subsidy before the size penalty. *)
Definition base_reward (c : Currency) (alreadyGeneratedCoins : Z) : Z :=
  if (alreadyGeneratedCoins =? 0) && negb (m_genesisBlockReward c =? 0)
  then m_genesisBlockReward c
  else Z.shiftr (u64 (m_moneySupply c - alreadyGeneratedCoins)) (m_emissionSpeedFactor c).

(** [None] as in [getPenalizedAmount]; [Some None] when the block is too big, where the code returns
    false; else [Some (Some (reward, emissionChange))]. *)
Definition getBlockReward (ndebug : bool) (c : Currency) (blockMajorVersion medianSize
    currentBlockSize alreadyGeneratedCoins fee : Z) : option (option (Z * Z)) :=
  if negb (ndebug || ((alreadyGeneratedCoins <=? m_moneySupply c) && (0 <? m_emissionSpeedFactor c) &&
                      (m_emissionSpeedFactor c <=? 8 * 8))) then None
  else
    let baseReward := base_reward c alreadyGeneratedCoins in
    let medianSize :=
      Z.max medianSize (blockGrantedFullRewardZoneByBlockVersion c blockMajorVersion) in
    if currentBlockSize >? u64 (2 * medianSize) then Some None
    else
      penalizedBaseReward ← getPenalizedAmount ndebug baseReward medianSize currentBlockSize;
      penalizedFee ←
        (if blockMajorVersion >=? BLOCK_MAJOR_VERSION_2
         then getPenalizedAmount ndebug fee medianSize currentBlockSize else Some fee);
      let emissionChange := s64 (u64 (penalizedBaseReward - u64 (fee - penalizedFee))) in
      let reward := u64 (penalizedBaseReward + penalizedFee) in
      Some (Some (reward, emissionChange)).

(** BlockchainCache::pushBlock: the running total of generated coins. *)
Definition pushed_coins (alreadyGeneratedCoins generatedCoins : Z) : Z :=
  u64 (alreadyGeneratedCoins + generatedCoins).

Definition maxBlockCumulativeSize (c : Currency) (height : Z) : Z :=
  u64 (m_maxBlockSizeInitial c +
       u64 (height * m_maxBlockSizeGrowthSpeedNumerator c)
       / m_maxBlockSizeGrowthSpeedDenominator c).

(** ** Fusion transactions *)

Definition PRETTY_AMOUNTS : list Z :=
  flat_map (fun k => map (fun d => d * 10 ^ k) [1; 2; 3; 4; 5; 6; 7; 8; 9]) (seqZ 0 19)
  ++ [10000000000000000000].

Definition fusionInputs_ok (c : Currency) (height : Z) (inputsAmounts : list Z) : bool :=
  forallb (fun amount => negb (amount <? defaultFusionDustThreshold c height)) inputsAmounts.

Definition isFusionTransaction (c : Currency) (inputsAmounts outputsAmounts : list Z)
    (size height : Z) : bool :=
  if size >? m_fusionTxMaxSize c then false
  else if Z.of_nat (length inputsAmounts) <? m_fusionTxMinInputCount c then false
  else if Z.of_nat (length inputsAmounts)
          <? u64 (Z.of_nat (length outputsAmounts) * m_fusionTxMinInOutCountRatio c)
  then false
  else if negb (fusionInputs_ok c height inputsAmounts) then false
  else
    let inputAmount := fold_left (fun s a => u64 (s + a)) inputsAmounts 0 in
    let expectedOutputsAmounts :=
      FormatUtils.decomposeAmount inputAmount (defaultFusionDustThreshold c height) in
    bool_decide (merge_sort Z.le expectedOutputsAmounts = outputsAmounts).

Definition isFusionTransaction_tx (c : Currency) (transaction : TransactionPrefix)
    (size height : Z) : bool :=
  isFusionTransaction c (FormatUtils.getInputsAmounts transaction)
    (map o_amount (tx_outputs transaction)) size height.

(** std::lower_bound: the first position whose element is not below [x]. *)
Fixpoint lower_bound (l : list Z) (x : Z) : nat :=
  match l with
  | [] => O
  | y :: l => if y <? x then S (lower_bound l x) else O
  end.

(** [Some amountPowerOfTen] for the [true] result. *)
Definition isAmountApplicableInFusionTransactionInput (c : Currency)
    (amount threshold height : Z) : option Z :=
  if amount >=? threshold then None
  else if amount <? defaultFusionDustThreshold c height then None
  else
    let it := lower_bound PRETTY_AMOUNTS amount in
    match PRETTY_AMOUNTS !! it with
    | None => None
    | Some p => if negb (amount =? p) then None else Some (u8 (Z.of_nat it / 9))
    end.

Definition getApproximateMaximumInputCount (transactionSize outputCount mixinCount : Z) : Z :=
  let outputsSize := u64 (outputCount * (1 + 32 + (8 + 2))) in
  let headerSize := 1 + 8 + 1 + 32 in
  let inputSize := u64 (1 + (8 + 2) + 32 + 64 + 1 + 4 + u64 (mixinCount * (4 + 64))) in
  u64 (transactionSize - headerSize - outputsSize) / inputSize.

(** ** Amounts as text *)

Definition isspace (ch : Z) : bool := (ch =? 32) || ((9 <=? ch) && (ch <=? 13)).
Definition isdigit (ch : Z) : bool := (48 <=? ch) && (ch <=? 57).

Fixpoint drop_spaces (s : list Z) : list Z :=
  match s with
  | [] => []
  | ch :: s' => if isspace ch then drop_spaces s' else s
  end.

(** boost::algorithm::trim *)
Definition trim (s : list Z) : list Z := reverse (drop_spaces (reverse (drop_spaces s))).

(** std::to_string *)
Fixpoint to_string_loop (fuel : nat) (n : Z) (acc : list Z) : list Z :=
  match fuel with
  | O => acc
  | S fuel =>
    let acc := (48 + n mod 10) :: acc in
    if n / 10 =? 0 then acc else to_string_loop fuel (n / 10) acc
  end.

Definition to_string (n : Z) : list Z := to_string_loop 20 n [].

Definition formatAmount (c : Currency) (amount : Z) : list Z :=
  let places := Z.to_nat (m_numberOfDecimalPlaces c) in
  let s := to_string amount in
  let s := if (length s <? places + 1)%nat
           then repeat 48 (places + 1 - length s) ++ s else s in
  take (length s - places) s ++ [46] ++ drop (length s - places) s.

Definition formatAmount_signed (c : Currency) (amount : Z) : list Z :=
  let s := formatAmount c (u64 (Z.abs amount)) in
  if amount <? 0 then 45 :: s else s.

(** Removes trailing zeros while the fraction is longer than [places]. *)
Fixpoint strip_zeros (places : nat) (rev_s : list Z) (fractionSize : nat) : list Z * nat :=
  match rev_s with
  | ch :: s' =>
    if (places <? fractionSize)%nat && (ch =? 48)
    then strip_zeros places s' (fractionSize - 1) else (rev_s, fractionSize)
  | [] => (rev_s, fractionSize)
  end.

Definition dec_val (s : list Z) : Z := fold_left (fun v ch => 10 * v + (ch - 48)) s 0.

(** Common::fromString<uint64_t> on a string of digits. *)
Definition fromString_u64 (s : list Z) : option Z :=
  if dec_val s <? 2 ^ 64 then Some (dec_val s) else None.

Definition parse_digits (places : nat) (s : list Z) (fractionSize : nat) : option Z :=
  match s with
  | [] => None
  | _ =>
    if negb (forallb isdigit s) then None
    else fromString_u64
           (if (fractionSize <? places)%nat then s ++ repeat 48 (places - fractionSize) else s)
  end.

Definition parseAmount (c : Currency) (str : list Z) : option Z :=
  let places := Z.to_nat (m_numberOfDecimalPlaces c) in
  let strAmount := trim str in
  match list_find (eq 46) strAmount with
  | Some (pointIndex, _) =>
    let '(rev_s, fractionSize) :=
      strip_zeros places (reverse strAmount) (length strAmount - pointIndex - 1) in
    if (places <? fractionSize)%nat then None
    else
      let s := reverse rev_s in
      parse_digits places (take pointIndex s ++ drop (S pointIndex) s) fractionSize
  | None => parse_digits places strAmount 0
  end.

(** ** The size penalty *)

Lemma penalty_factor m s : 0 < m -> m <= s -> s <= 2 * m ->
  0 <= s * (2 * m - s) <= m * m /\ (m < s -> s * (2 * m - s) < m * m).
Proof. intros; assert (s * (2 * m - s) = m * m - (s - m) * (s - m)) by lia; nia. Qed.

Lemma penalized_words_spec amount m s :
  in_u 64 amount -> 0 < m < 2 ^ 32 -> 0 <= s < 2 ^ 32 -> m < s <= 2 * m ->
  penalized_words amount m s = (0, amount * (s * (2 * m - s)) / (m * m)).
Proof.
  intros Ha Hm Hs Hsm; unfold penalized_words.
  destruct (penalty_factor m s) as [Hf Hf']; [lia..|]; specialize (Hf' ltac:(lia)).
  assert (m * m <= (2 ^ 32 - 1) * (2 ^ 32 - 1)) by (apply Z.mul_le_mono_nonneg; lia).
  rewrite (wrap_small 64 (2 * m)), (wrap_small 64 (2 * m - s)) by mlia.
  rewrite (wrap_small 64 (s * _)), (wrap_small 32 m) by mlia.
  set (f := s * (2 * m - s)) in *.
  pose proof (IntUtil.mul128_spec amount f Ha ltac:(mlia)) as HM.
  destruct (IntUtil.mul128 amount f) as [lo hi]; simpl in HM.
  destruct HM as (HM & Hlo & Hhi & _).
  destruct (IntUtil.div128_32 hi lo m) as [[r1 h1] l1] eqn:D1.
  apply IntUtil.div128_32_quot in D1; try done; destruct D1 as (Q1 & _ & Hh1 & Hl1).
  destruct (IntUtil.div128_32 h1 l1 m) as [[r2 h2] l2] eqn:D2.
  apply IntUtil.div128_32_quot in D2; try done; destruct D2 as (Q2 & _ & Hh2 & Hl2).
  rewrite Q1, <- HM, Z.div_div in Q2 by lia.
  assert (amount * f / (m * m) <= amount).
  { apply Z.div_le_upper_bound; [nia|]; rewrite (Z.mul_comm (m * m)).
    apply Z.mul_le_mono_nonneg_l; unfold in_u in Ha; lia. }
  assert (0 <= amount * f / (m * m)).
  { apply Z.div_pos; [apply Z.mul_nonneg_nonneg; unfold in_u in Ha|]; nia. }
  unfold in_u in *; f_equal; lia.
Qed.

Definition penalty_spec (amount m s : Z) : Z :=
  if s <=? m then amount else amount * (s * (2 * m - s)) / (m * m).

Lemma penalty_spec_below amount m s :
  0 < amount -> 0 < m -> m < s <= 2 * m -> penalty_spec amount m s < amount.
Proof.
  intros Ha Hm Hs. unfold penalty_spec. destruct (Z.leb_spec s m); [lia|].
  destruct (penalty_factor m s) as [_ Hf]; [lia..|]. apply Z.div_lt_upper_bound; nia.
Qed.

(** In the ranges the assertions ask for, no assertion fails and nothing is divided by zero. *)
Lemma getPenalizedAmount_spec ndebug amount m s :
  in_u 64 amount -> 0 <= m < 2 ^ 32 -> 0 <= s < 2 ^ 32 -> s <= 2 * m ->
  getPenalizedAmount ndebug amount m s = Some (penalty_spec amount m s).
Proof.
  intros Ha Hm Hs Hsm. unfold getPenalizedAmount. rewrite wrap_small by mlia.
  rewrite !(proj2 (Z.leb_le _ _)), orb_true_r by lia. cbn [negb].
  destruct (Z.eqb_spec amount 0) as [->|].
  { unfold penalty_spec. destruct (s <=? m); [done|]. by rewrite Z.mul_0_l, Zdiv_0_l. }
  destruct (Z.leb_spec s m) as [|Hms]; [by unfold penalty_spec; rewrite (proj2 (Z.leb_le _ _))|].
  rewrite wrap_small, (proj2 (Z.eqb_neq _ _)) by mlia.
  pose proof (penalty_spec_below amount m s ltac:(unfold in_u in Ha; lia)) as Hlt.
  rewrite penalized_words_spec by (done || lia). cbv beta iota.
  unfold penalty_spec in *. rewrite (proj2 (Z.leb_gt _ _)) in * by lia.
  by rewrite (proj2 (Z.ltb_lt _ _)), orb_true_r by (apply Hlt; lia).
Qed.

(** A release build fails only when the lower 32 bits of the median are zero. *)
Lemma getPenalizedAmount_release amount m s :
  0 < u32 m \/ s <= m -> getPenalizedAmount true amount m s <> None.
Proof.
  intros H. unfold getPenalizedAmount. cbn [orb negb].
  destruct (amount =? 0); [done|]. destruct (Z.leb_spec s m); [done|].
  destruct (Z.eqb_spec (u32 m) 0); [lia|]. by destruct (penalized_words amount m s).
Qed.

Lemma penalty_spec_bounds amount m s :
  0 <= amount -> 0 <= m -> 0 <= s <= 2 * m -> 0 <= penalty_spec amount m s <= amount.
Proof.
  intros Ha Hm Hs; unfold penalty_spec; destruct (Z.leb_spec s m); [lia|].
  destruct (penalty_factor m s) as [Hf _]; [lia..|]; split.
  - apply Z.div_pos; nia.
  - apply Z.div_le_upper_bound; nia.
Qed.

(** A larger block never earns more. *)
Lemma penalty_spec_antitone amount m s s' :
  0 <= amount -> 0 <= m -> 0 <= s <= s' -> s' <= 2 * m ->
  penalty_spec amount m s' <= penalty_spec amount m s.
Proof.
  intros Ha Hm Hs Hs'; unfold penalty_spec at 2.
  destruct (Z.leb_spec s m); [apply penalty_spec_bounds; lia|].
  unfold penalty_spec; destruct (Z.leb_spec s' m); [lia|].
  apply Z.div_le_mono; [nia|]; apply Z.mul_le_mono_nonneg_l; [lia|].
  assert (s * (2 * m - s) - s' * (2 * m - s') = (s' - s) * (s + s' - 2 * m)) by lia.
  assert (0 <= (s' - s) * (s + s' - 2 * m)) by (apply Z.mul_nonneg_nonneg; lia); lia.
Qed.

(** getPenalizedAmount is the floor of amount * size * (2 * median -
    size) / median^2 above the median and the amount below it; it never
    exceeds the amount and decreases as the block grows. *)
Theorem penalized_amount_correct ndebug amount m s s' :
  in_u 64 amount -> 0 <= m < 2 ^ 32 -> 0 <= s <= s' -> s' < 2 ^ 32 -> s' <= 2 * m ->
  exists p p', getPenalizedAmount ndebug amount m s = Some p /\ getPenalizedAmount ndebug amount m s' = Some p' /\
    p = penalty_spec amount m s /\ 0 <= p' <= p /\ p <= amount.
Proof.
  intros Ha Hm Hs Hs2 Hs'. rewrite !getPenalizedAmount_spec by (done || lia).
  pose proof (penalty_spec_bounds amount m s ltac:(unfold in_u in Ha; lia)).
  pose proof (penalty_spec_bounds amount m s' ltac:(unfold in_u in Ha; lia)).
  pose proof (penalty_spec_antitone amount m s s' ltac:(unfold in_u in Ha; lia)).
  eexists _, _. split_and!; try done; lia.
Qed.

(** ** Emission *)

Definition wf_currency (c : Currency) : Prop :=
  0 <= m_moneySupply c < 2 ^ 63 /\ 0 < m_emissionSpeedFactor c < 64 /\
  0 <= m_genesisBlockReward c <= m_moneySupply c /\
  0 <= m_blockGrantedFullRewardZone c < 2 ^ 31.

Record block_size_info := mkBlockSizes {
  b_version : Z; b_median : Z; b_size : Z; b_fee : Z }.

Definition wf_sizes (b : block_size_info) : Prop :=
  0 <= b_median b < 2 ^ 31 /\ 0 <= b_size b < 2 ^ 32 /\ 0 <= b_fee b.

Lemma base_reward_range c coins : wf_currency c -> 0 <= coins <= m_moneySupply c ->
  0 <= base_reward c coins <= m_moneySupply c - coins.
Proof.
  intros (Hs & He & Hg & _) Hc; unfold base_reward.
  destruct (Z.eqb_spec coins 0) as [->|]; [destruct (Z.eqb_spec (m_genesisBlockReward c) 0)|];
    simpl; try lia;
  rewrite wrap_small, Z.shiftr_div_pow2 by mlia;
  (split; [apply Z.div_pos; lia|]); apply Z.div_le_upper_bound; nia.
Qed.

Lemma zone_range c v : wf_currency c ->
  0 <= blockGrantedFullRewardZoneByBlockVersion c v < 2 ^ 31.
Proof.
  intros (_ & _ & _ & Hz); unfold blockGrantedFullRewardZoneByBlockVersion.
  repeat case_match; try lia; vm_compute; split; congruence.
Qed.

(** The whole of [getBlockReward] on blocks whose fees are existing coins. *)
Lemma getBlockReward_spec ndebug c coins b :
  wf_currency c -> 0 <= coins <= m_moneySupply c -> wf_sizes b -> b_fee b <= coins ->
  let m := Z.max (b_median b) (blockGrantedFullRewardZoneByBlockVersion c (b_version b)) in
  let pb := penalty_spec (base_reward c coins) m (b_size b) in
  let pf := if b_version b >=? BLOCK_MAJOR_VERSION_2
            then penalty_spec (b_fee b) m (b_size b) else b_fee b in
  getBlockReward ndebug c (b_version b) (b_median b) (b_size b) coins (b_fee b) =
    Some (if b_size b >? 2 * m then None else Some (pb + pf, pb + pf - b_fee b)) /\
  (b_size b <= 2 * m -> 0 <= pb <= base_reward c coins /\ 0 <= pf <= b_fee b).
Proof.
  intros Hc Hcoins (Hm & Hs & Hf) Hfc m pb pf.
  pose proof (zone_range c (b_version b) Hc) as Hz.
  pose proof (base_reward_range c coins Hc Hcoins) as Hb.
  destruct Hc as (Hsup & Hsf & _).
  assert (Hm' : 0 <= m < 2 ^ 31) by (subst m; lia).
  assert (Hpen : b_size b <= 2 * m ->
            0 <= pb <= base_reward c coins /\ 0 <= pf <= b_fee b).
  { intros Hle; split; [apply penalty_spec_bounds; lia|].
    subst pf; case_match; [apply penalty_spec_bounds|]; lia. }
  split; [|exact Hpen].
  unfold getBlockReward; rewrite !(proj2 (Z.leb_le _ _)), (proj2 (Z.ltb_lt 0 _)), orb_true_r by lia.
  cbn [negb]; fold m; rewrite (wrap_small 64 (2 * m)) by mlia.
  rewrite Z.gtb_ltb; destruct (Z.ltb_spec (2 * m) (b_size b)) as [|Hle]; [done|].
  specialize (Hpen Hle); rewrite !getPenalizedAmount_spec by mlia; fold pb; cbn [mbind option_bind].
  transitivity (Some (Some (u64 (pb + pf), s64 (u64 (pb - u64 (b_fee b - pf)))))); [by subst pf; case_match|]. rewrite (wrap_small 64 (b_fee b - pf)), (wrap_small 64 (pb + pf)) by mlia.
  replace (pb - (b_fee b - pf)) with (pb + pf - b_fee b) by lia.
  unfold wrap at 1; rewrite swrap_mod, swrap_small by (unfold in_s; lia); done.
Qed.

(** Adding a block to a chain that has generated [coins]. *)
Definition apply_block (ndebug : bool) (c : Currency) (coins : Z) (b : block_size_info) : option Z :=
  match getBlockReward ndebug c (b_version b) (b_median b) (b_size b) coins (b_fee b) with
  | Some (Some (_, emissionChange)) => Some (pushed_coins coins emissionChange)
  | _ => None
  end.

(** Chains in which every block is granted a reward and pays fees of existing coins. *)
Inductive emission (ndebug : bool) (c : Currency) : list block_size_info -> Z -> Prop :=
  | emission_nil : emission ndebug c [] 0
  | emission_snoc bs b coins coins' :
      emission ndebug c bs coins -> wf_sizes b -> b_fee b <= coins ->
      apply_block ndebug c coins b = Some coins' -> emission ndebug c (bs ++ [b]) coins'.

Lemma apply_block_spec ndebug c coins b :
  wf_currency c -> 0 <= coins <= m_moneySupply c -> wf_sizes b -> b_fee b <= coins ->
  let m := Z.max (b_median b) (blockGrantedFullRewardZoneByBlockVersion c (b_version b)) in
  if b_size b >? 2 * m then
    getBlockReward ndebug c (b_version b) (b_median b) (b_size b) coins (b_fee b) = Some None
  else exists reward coins', getBlockReward ndebug c (b_version b) (b_median b) (b_size b) coins (b_fee b)
      = Some (Some (reward, reward - b_fee b)) /\
    apply_block ndebug c coins b = Some coins' /\ coins' = coins + reward - b_fee b /\
    0 <= coins' <= m_moneySupply c /\ 0 <= reward <= base_reward c coins + b_fee b.
Proof.
  intros Hc Hcoins Hb Hf m. unfold apply_block.
  pose proof (getBlockReward_spec ndebug c coins b Hc Hcoins Hb Hf) as [E Hr].
  pose proof (base_reward_range c coins Hc Hcoins) as Hbr.
  revert E Hr; fold m; set (pb := penalty_spec (base_reward c coins) _ _).
  set (pf := if b_version b >=? BLOCK_MAJOR_VERSION_2 then _ else _ : Z).
  intros E Hr; rewrite E; clear E. rewrite Z.gtb_ltb in *. destruct (Z.ltb_spec (2 * m) (b_size b)) as [|Hle]; [done|].
  specialize (Hr Hle). destruct Hc as (Hs & _), Hb as (_ & _ & Hfee).
  unfold pushed_coins; rewrite wrap_small by mlia.
  exists (pb + pf); eexists; split_and!; try done; lia.
Qed.

(** C27. Along any chain of blocks from zero coins whose rewards
    getBlockReward grants, with the configured ranges of currency and sizes
    and fees that never exceed the coins generated before, the coins generated
    stay between zero and the money supply; on such a chain the reward is
    always defined, with and without assertions: it is refused exactly for a
    block of more than twice the median or granted size, and otherwise it is
    at most the base reward plus the fee and adds reward minus fee to the
    coins. *)
Theorem emission_bounded ndebug c bs coins :
  wf_currency c -> emission ndebug c bs coins ->
  0 <= coins <= m_moneySupply c /\
  forall b, wf_sizes b -> b_fee b <= coins ->
    let m := Z.max (b_median b) (blockGrantedFullRewardZoneByBlockVersion c (b_version b)) in
    if b_size b >? 2 * m then
      getBlockReward ndebug c (b_version b) (b_median b) (b_size b) coins (b_fee b) = Some None
    else exists reward coins', getBlockReward ndebug c (b_version b) (b_median b) (b_size b) coins (b_fee b)
        = Some (Some (reward, reward - b_fee b)) /\
      apply_block ndebug c coins b = Some coins' /\ coins' = coins + reward - b_fee b /\
      0 <= coins' <= m_moneySupply c /\ 0 <= reward <= base_reward c coins + b_fee b.
Proof.
  intros Hc He; assert (Hcoins : 0 <= coins <= m_moneySupply c).
  { induction He as [|bs b coins coins' _ IH Hb Hf Happ]; [destruct Hc; lia|].
    pose proof (apply_block_spec ndebug c coins b Hc IH Hb Hf) as H; cbv zeta in H.
    destruct (_ >? _).
    - unfold apply_block in Happ; by rewrite H in Happ.
    - destruct H as (reward & coins1 & _ & E & _ & ? & _); rewrite E in Happ; by injection Happ as <-. }
  split; [done|]; intros b Hb Hf; by apply apply_block_spec.
Qed.

(** The configured currency. *)
Definition mainnet : Currency :=
  match CurrencyBuilder with Ok c => Currency_move 0 c | Err _ =>
    mkCurrency 0 0 0 0 0 0 0 0 0 0 0 0 0 0 0 0 0 0 0 0 0 0 0 0 0 0 0 0 0 0 0 0 0 0 0 0 0 0 0 0 0 0
      false false end.

Lemma mainnet_wf : wf_currency mainnet.
Proof. unfold wf_currency; closed_arith. Qed.

Lemma emission_bounded_witness :
  exists reward coins', apply_block false mainnet 15000000000 (mkBlockSizes 5 90000 120000 1000)
      = Some coins' /\
    getBlockReward false mainnet 5 90000 120000 15000000000 1000 = Some (Some (reward, reward - 1000)) /\
    coins' = 15000000000 + reward - 1000.
Proof.
  assert (He : emission false mainnet [mkBlockSizes 1 0 0 0] 15000000000).
  { apply (emission_snoc false mainnet [] (mkBlockSizes 1 0 0 0) 0); [apply emission_nil|..];
      closed_arith. }
  destruct (emission_bounded false mainnet _ _ mainnet_wf He) as [_ H].
  destruct (H (mkBlockSizes 5 90000 120000 1000)) as (r & coins & Hr & Ha & Hc & _); [closed_arith..|].
  exists r, coins; split_and!; [exact Ha|exact Hr|exact Hc].
Defined.

(** ** Fusion transactions *)

Lemma fold_sum_small l s :
  Forall (in_u 64) l -> 0 <= s -> s + FormatUtils.sumZ l < 2 ^ 64 ->
  fold_left (fun s a => u64 (s + a)) l s = s + FormatUtils.sumZ l.
Proof.
  intros H; revert s; induction H as [|a l Ha Hl IH]; intros s Hs Hb; simpl in *; [lia|].
  pose proof (FormatUtils.sumZ_in_u l Hl).
  rewrite wrap_small, IH by (unfold in_u in *; lia); lia.
Qed.

(** A transaction accepted as a fusion transaction creates no value and
    pays no fee: its outputs are sorted, are the decomposition of the sum of
    the inputs and sum to it, all inputs are above the dust threshold, and the
    size and input-count limits hold. *)
Theorem fusion_transaction_sound c ins outs size height :
  Forall (in_u 64) ins -> FormatUtils.sumZ ins < 2 ^ 64 ->
  in_u 64 (m_defaultDustThreshold c) ->
  isFusionTransaction c ins outs size height = true ->
  FormatUtils.sumZ outs = FormatUtils.sumZ ins /\ Sorted Z.le outs /\
  outs ≡ₚ FormatUtils.decomposeAmount (FormatUtils.sumZ ins)
            (defaultFusionDustThreshold c height) /\
  size <= m_fusionTxMaxSize c /\ m_fusionTxMinInputCount c <= Z.of_nat (length ins) /\
  Forall (fun a => defaultFusionDustThreshold c height <= a) ins.
Proof.
  intros Hi Hsum Hd; unfold isFusionTransaction.
  pose proof (FormatUtils.sumZ_in_u ins Hi).
  rewrite fold_sum_small, Z.add_0_l by (done || lia).
  rewrite Z.gtb_ltb; destruct (Z.ltb_spec (m_fusionTxMaxSize c) size); [done|].
  destruct (Z.ltb_spec (Z.of_nat (length ins)) (m_fusionTxMinInputCount c)); [done|].
  destruct (_ <? u64 _); [done|].
  destruct (fusionInputs_ok c height ins) eqn:Hok; simpl; [|done].
  intros <-%bool_decide_eq_true.
  assert (Hp : merge_sort Z.le (FormatUtils.decomposeAmount (FormatUtils.sumZ ins)
                 (defaultFusionDustThreshold c height))
               ≡ₚ FormatUtils.decomposeAmount (FormatUtils.sumZ ins)
                 (defaultFusionDustThreshold c height)) by apply merge_sort_Permutation.
  split_and!; try done; try lia.
  - rewrite (FormatUtils.sumZ_perm _ _ Hp); apply FormatUtils.decomposeAmount_sum; [mlia|].
    unfold defaultFusionDustThreshold; case_match; [vm_compute; done|done].
  - apply Sorted_merge_sort; intros x y; lia.
  - unfold fusionInputs_ok in Hok; apply List.Forall_forall.
    rewrite forallb_forall in Hok; intros x Hx; specialize (Hok x Hx).
    apply negb_true_iff, Z.ltb_ge in Hok; done.
Qed.

Definition fusion_inputs : list Z := repeat 5000 6 ++ repeat 300 6.

Lemma fusion_transaction_sound_witness :
  isFusionTransaction mainnet fusion_inputs [800; 1000; 30000] 1000 900000 = true /\
  FormatUtils.sumZ [800; 1000; 30000] = FormatUtils.sumZ fusion_inputs.
Proof.
  assert (H : isFusionTransaction mainnet fusion_inputs [800; 1000; 30000] 1000 900000
              = true) by (vm_compute; reflexivity).
  split; [exact H|].
  apply (fusion_transaction_sound mainnet fusion_inputs _ 1000 900000);
    [apply (bool_decide_unpack _); vm_compute; done | closed_arith.. | exact H].
Defined.

(** The table holds [d * 10^k] at position [9 k + d - 1]. *)
Lemma pretty_lookup i : 0 <= i < 172 ->
  PRETTY_AMOUNTS !! Z.to_nat i = Some ((i mod 9 + 1) * 10 ^ (i / 9)) /\
  lower_bound PRETTY_AMOUNTS ((i mod 9 + 1) * 10 ^ (i / 9)) = Z.to_nat i.
Proof.
  revert i; refine (all_below 172 (fun i =>
    PRETTY_AMOUNTS !! Z.to_nat i = Some ((i mod 9 + 1) * 10 ^ (i / 9)) /\
    lower_bound PRETTY_AMOUNTS ((i mod 9 + 1) * 10 ^ (i / 9)) = Z.to_nat i) _).
  apply (bool_decide_unpack _); vm_compute; exact I.
Qed.

Lemma pretty_length : length PRETTY_AMOUNTS = 172%nat.
Proof. reflexivity. Qed.

(** isAmountApplicableInFusionTransactionInput accepts exactly the
    amounts d * 10^k with one non-zero digit d between the dust threshold and
    the given threshold, and returns the power k. *)
Theorem fusion_input_applicable c amount threshold height k :
  in_u 64 amount ->
  isAmountApplicableInFusionTransactionInput c amount threshold height = Some k <->
  defaultFusionDustThreshold c height <= amount < threshold /\
  0 <= k /\ exists d, 1 <= d <= 9 /\ amount = d * 10 ^ k.
Proof.
  intros Ha; unfold isAmountApplicableInFusionTransactionInput; split.
  - rewrite Z.geb_leb; destruct (Z.leb_spec threshold amount); [done|].
    destruct (Z.ltb_spec amount (defaultFusionDustThreshold c height)); [done|].
    generalize (lower_bound PRETTY_AMOUNTS amount); intros it.
    destruct (PRETTY_AMOUNTS !! it) as [p|] eqn:E; [|done].
    destruct (Z.eqb_spec amount p) as [->|]; cbn [negb]; [|done]; intros [= <-].
    assert (it < 172)%nat by (rewrite <- pretty_length; eapply lookup_lt_Some, E).
    destruct (pretty_lookup (Z.of_nat it) ltac:(lia)) as [E' _].
    rewrite Nat2Z.id, E in E'; injection E' as Ep.
    assert (0 <= Z.of_nat it / 9 < 20) by
      (split; [apply Z.div_pos|apply Z.div_lt_upper_bound]; lia).
    rewrite wrap_small by (unfold in_u; lia); split; [lia|]; split; [lia|].
    pose proof (Z.mod_pos_bound (Z.of_nat it) 9 ltac:(lia)).
    exists (Z.of_nat it mod 9 + 1); split; [lia|done].
  - intros (Hr & Hk & d & Hd & ->).
    rewrite Z.geb_leb, (proj2 (Z.leb_gt _ _)), (proj2 (Z.ltb_ge _ _)) by lia.
    assert (Hk19 : k <= 19).
    { destruct (Z.le_gt_cases k 19); [done|]; exfalso.
      pose proof (Z.pow_le_mono_r 10 20 k ltac:(lia) ltac:(lia)); unfold in_u in Ha; nia. }
    assert (Hi : 0 <= 9 * k + (d - 1) < 172).
    { destruct (decide (k = 19)) as [->|]; [|lia].
      assert (d = 1) by (unfold in_u in Ha; lia); lia. }
    destruct (pretty_lookup _ Hi) as [E1 E2].
    rewrite (Z.mul_comm 9 k), Z.div_add_l, (Z.div_small (d - 1)) in * by lia.
    rewrite (Z.add_comm (k * 9)), Z.mod_add, (Z.mod_small (d - 1)), Z.add_0_r,
      Z.sub_add in * by lia.
    rewrite E2, E1, Z.eqb_refl; cbn [negb]; rewrite Z2Nat.id by lia.
    rewrite Z.div_add, (Z.div_small (d - 1)), Z.add_0_l, wrap_small by mlia; done.
Qed.

Lemma fusion_input_applicable_witness :
  isAmountApplicableInFusionTransactionInput mainnet 700000 1000000 900000 = Some 5.
Proof.
  apply (fusion_input_applicable mainnet 700000 1000000 900000 5); [closed_arith|].
  split; [closed_arith|]; split; [lia|]; exists 7; split; [lia|reflexivity].
Defined.

(** ** Amounts as text *)

Lemma dec_val_acc s v : fold_left (fun v ch => 10 * v + (ch - 48)) s v
  = v * 10 ^ Z.of_nat (length s) + dec_val s.
Proof.
  unfold dec_val; revert v; induction s as [|ch s IH]; intros v; [simpl; lia|].
  cbn [fold_left length]; rewrite IH, (IH (10 * 0 + _)), Nat2Z.inj_succ, Z.pow_succ_r; lia.
Qed.

Lemma dec_val_app s t : dec_val (s ++ t) = dec_val s * 10 ^ Z.of_nat (length t) + dec_val t.
Proof. unfold dec_val at 1; rewrite fold_left_app; fold (dec_val s); apply dec_val_acc. Qed.

Lemma dec_val_zeros n : dec_val (repeat 48 n) = 0.
Proof.
  induction n as [|n IH]; [done|].
  change (repeat 48 (S n)) with ([48] ++ repeat 48 n); rewrite dec_val_app, IH; done.
Qed.

Lemma forallb_repeat (f : Z -> bool) x n : f x = true -> forallb f (repeat x n) = true.
Proof. intros; induction n; simpl; [done|]; rewrite H, IHn; done. Qed.

Lemma to_string_loop_spec fuel n acc :
  (0 < fuel)%nat -> 0 <= n < 10 ^ Z.of_nat fuel ->
  exists ds, to_string_loop fuel n acc = ds ++ acc /\ forallb isdigit ds = true /\
    ds <> [] /\ dec_val ds = n.
Proof.
  revert n acc; induction fuel as [|fuel IH]; intros n acc Hf Hn; [lia|].
  cbn [to_string_loop]; pose proof (Z.mod_pos_bound n 10 ltac:(lia)) as Hmod.
  assert (Hd : isdigit (48 + n mod 10) = true).
  { unfold isdigit; rewrite !(proj2 (Z.leb_le _ _)) by lia; done. }
  pose proof (Z.div_mod n 10 ltac:(lia)) as Hdm.
  destruct (Z.eqb_spec (n / 10) 0) as [E|E].
  - exists [48 + n mod 10]; split_and!; [done|simpl; by rewrite Hd|done|].
    unfold dec_val; simpl; lia.
  - rewrite Nat2Z.inj_succ, Z.pow_succ_r in Hn by lia.
    assert (0 <= n / 10 < 10 ^ Z.of_nat fuel) as Hq.
    { split; [apply Z.div_pos; lia|apply Z.div_lt_upper_bound; lia]. }
    assert (0 < fuel)%nat by (destruct fuel; [simpl in Hq; lia|lia]).
    destruct (IH (n / 10) ((48 + n mod 10) :: acc)) as (ds & -> & Hds & Hne & Hv); [done..|].
    exists (ds ++ [48 + n mod 10]); split_and!.
    + by rewrite <- app_assoc.
    + rewrite forallb_app, Hds; simpl; by rewrite Hd.
    + by destruct ds.
    + rewrite dec_val_app, Hv; unfold dec_val; simpl; lia.
Qed.

Lemma to_string_spec n : in_u 64 n ->
  forallb isdigit (to_string n) = true /\ to_string n <> [] /\ dec_val (to_string n) = n.
Proof.
  intros Hn; unfold to_string.
  destruct (to_string_loop_spec 20 n []) as (ds & -> & H); [lia|unfold in_u in Hn; lia|].
  rewrite app_nil_r; done.
Qed.

Lemma digit_not_space ch : isdigit ch = true -> isspace ch = false.
Proof.
  unfold isdigit, isspace; intros [H1 H2]%andb_true_iff.
  apply Z.leb_le in H1, H2; rewrite (proj2 (Z.eqb_neq _ _)), (proj2 (Z.leb_gt ch 13)) by lia.
  by rewrite andb_false_r.
Qed.

Lemma drop_spaces_id s : forallb (fun ch => negb (isspace ch)) s = true -> drop_spaces s = s.
Proof. destruct s as [|ch s]; simpl; [done|]; destruct (isspace ch); done. Qed.

Lemma forallb_reverse (f : Z -> bool) s : forallb f (reverse s) = forallb f s.
Proof.
  induction s as [|x s IH]; [done|].
  rewrite reverse_cons, forallb_app, IH; simpl; rewrite andb_true_r; apply andb_comm.
Qed.

Lemma trim_id s : forallb (fun ch => negb (isspace ch)) s = true -> trim s = s.
Proof.
  intros H; unfold trim; rewrite (drop_spaces_id s) by done.
  rewrite drop_spaces_id by (by rewrite forallb_reverse); apply reverse_involutive.
Qed.

Lemma forallb_imp (f g : Z -> bool) s : (forall x, f x = true -> g x = true) ->
  forallb f s = true -> forallb g s = true.
Proof. intros H; induction s; simpl; [done|]; rewrite !andb_true_iff; intuition. Qed.

Lemma find_point ip fp : forallb isdigit ip = true ->
  list_find (eq 46) (ip ++ 46 :: fp) = Some (length ip, 46).
Proof.
  induction ip as [|ch ip IH]; intros H; [done|].
  simpl in H; apply andb_true_iff in H as [Hch H]; simpl.
  rewrite decide_False; [by rewrite IH|].
  intros <-; done.
Qed.

Lemma strip_zeros_id places s fractionSize : (fractionSize <= places)%nat ->
  strip_zeros places s fractionSize = (s, fractionSize).
Proof.
  intros; destruct s as [|ch s]; simpl; [done|].
  rewrite (proj2 (Nat.ltb_ge _ _)) by done; done.
Qed.

(** Parsing a decimal with at most the allowed number of fraction digits. *)
Lemma parse_decimal c ip fp :
  let places := m_numberOfDecimalPlaces c in
  0 <= places -> forallb isdigit ip = true -> forallb isdigit fp = true ->
  ip ++ fp <> [] -> Z.of_nat (length fp) <= places ->
  let v := dec_val (ip ++ fp) * 10 ^ (places - Z.of_nat (length fp)) in
  parseAmount c (ip ++ 46 :: fp) = (if v <? 2 ^ 64 then Some v else None).
Proof.
  intros places Hp Hip Hfp Hne Hlen v; unfold parseAmount; fold places.
  assert (Hns : forall s, forallb isdigit s = true ->
            forallb (fun ch => negb (isspace ch)) s = true).
  { intros s; apply forallb_imp; intros x Hx; by rewrite digit_not_space. }
  rewrite trim_id by (rewrite forallb_app; simpl; rewrite !Hns; done).
  rewrite find_point by done.
  rewrite length_app; cbn [length].
  replace (length ip + S (length fp) - length ip - 1)%nat with (length fp) by lia.
  rewrite strip_zeros_id by lia; rewrite (proj2 (Nat.ltb_ge _ _)) by lia.
  rewrite reverse_involutive, take_app_length.
  replace (drop (S (length ip)) (ip ++ 46 :: fp)) with fp; cycle 1.
  { change (46 :: fp) with ([46] ++ fp); rewrite app_assoc.
    replace (S (length ip)) with (length (ip ++ [46])) by (rewrite length_app; simpl; lia).
    by rewrite drop_app_length. }
  unfold parse_digits, fromString_u64; case_match eqn:E; [done|rewrite <- E].
  rewrite forallb_app, Hip, Hfp; simpl.
  replace (dec_val (if _ : bool then _ else _)) with v; [done|].
  destruct (Nat.ltb_spec (length fp) (Z.to_nat places)).
  - rewrite dec_val_app, dec_val_zeros, repeat_length, Z.add_0_r; subst v; rewrite E; f_equal; f_equal; lia.
  - subst v; rewrite E; replace (places - Z.of_nat (length fp)) with 0 by lia; lia.
Qed.

Lemma formatAmount_shape c amount : 0 <= m_numberOfDecimalPlaces c -> in_u 64 amount ->
  exists ip fp, formatAmount c amount = ip ++ 46 :: fp /\
    forallb isdigit ip = true /\ forallb isdigit fp = true /\ ip <> [] /\
    Z.of_nat (length fp) = m_numberOfDecimalPlaces c /\ dec_val (ip ++ fp) = amount.
Proof.
  intros Hp Ha; destruct (to_string_spec amount Ha) as (Hd & Hne & Hv).
  unfold formatAmount; set (places := Z.to_nat (m_numberOfDecimalPlaces c)).
  set (s := if (_ <? _)%nat then _ else _).
  assert (Hs : (places + 1 <= length s)%nat /\ forallb isdigit s = true /\ dec_val s = amount).
  { subst s; destruct (Nat.ltb_spec (length (to_string amount)) (places + 1)); [|by split_and!].
    rewrite length_app, repeat_length, forallb_app, forallb_repeat, Hd, dec_val_app,
      dec_val_zeros by done; split_and!; [lia|done|lia]. }
  destruct Hs as (Hl & Hds & Hval).
  exists (take (length s - places) s), (drop (length s - places) s).
  rewrite <- (take_drop (length s - places) s) in Hds.
  rewrite forallb_app, andb_true_iff in Hds; destruct Hds as [Ht Hdr].
  split_and!; try done.
  - intros E%(f_equal length); rewrite length_take in E; simpl in E; lia.
  - rewrite length_drop; subst places; lia.
  - by rewrite take_drop.
Qed.

(** parseAmount reads what formatAmount prints for every 64-bit amount,
    and for digits with at most the configured number of decimal places it
    returns their value scaled to atomic units, failing exactly when that does
    not fit in 64 bits. *)
Theorem amount_text_roundtrip c amount ip fp :
  let places := m_numberOfDecimalPlaces c in
  0 <= places -> in_u 64 amount ->
  forallb isdigit ip = true -> forallb isdigit fp = true -> ip ++ fp <> [] ->
  Z.of_nat (length fp) <= places ->
  parseAmount c (formatAmount c amount) = Some amount /\
  let v := dec_val (ip ++ fp) * 10 ^ (places - Z.of_nat (length fp)) in
  parseAmount c (ip ++ 46 :: fp) = (if v <? 2 ^ 64 then Some v else None).
Proof.
  intros places Hp Ha Hip Hfp Hne Hl; split; [|by apply parse_decimal].
  destruct (formatAmount_shape c amount Hp Ha) as (ip' & fp' & -> & H1 & H2 & H3 & H4 & H5).
  rewrite parse_decimal by first [done | lia | by destruct ip'].
  rewrite H4, H5, Z.sub_diag, Z.mul_1_r.
  rewrite (proj2 (Z.ltb_lt _ _)); [done|unfold in_u in Ha; lia].
Qed.

Lemma amount_text_roundtrip_witness :
  formatAmount mainnet 7 = [48; 46; 48; 55] /\
  parseAmount mainnet (formatAmount mainnet 7) = Some 7 /\
  parseAmount mainnet [49; 50; 46; 53] = Some 1250.
Proof.
  split; [vm_compute; reflexivity|].
  apply (amount_text_roundtrip mainnet 7 [49; 50] [53]); try closed_arith; done.
Defined.

(** ** Block size limit and the move constructor *)

(** maxBlockCumulativeSize is the initial size plus the growth up to the
    height, without overflow in the stated range, and grows with the height.
    *)
Theorem max_block_size_correct c height height' :
  0 <= m_maxBlockSizeInitial c < 2 ^ 63 ->
  0 < m_maxBlockSizeGrowthSpeedDenominator c ->
  0 <= m_maxBlockSizeGrowthSpeedNumerator c ->
  0 <= height <= height' ->
  height' * m_maxBlockSizeGrowthSpeedNumerator c < 2 ^ 63 ->
  m_maxBlockSizeInitial c <= maxBlockCumulativeSize c height
    <= maxBlockCumulativeSize c height' /\
  maxBlockCumulativeSize c height = m_maxBlockSizeInitial c
    + height * m_maxBlockSizeGrowthSpeedNumerator c / m_maxBlockSizeGrowthSpeedDenominator c.
Proof.
  intros Hi Hd Hn Hh Hb; unfold maxBlockCumulativeSize.
  set (n := m_maxBlockSizeGrowthSpeedNumerator c) in *.
  set (d := m_maxBlockSizeGrowthSpeedDenominator c) in *.
  assert (0 <= height * n <= height' * n).
  { split; [apply Z.mul_nonneg_nonneg|apply Z.mul_le_mono_nonneg_r]; lia. }
  rewrite !(wrap_small 64 (_ * n)) by mlia.
  assert (Hdiv : forall x, 0 <= x < 2 ^ 63 -> 0 <= x / d < 2 ^ 63).
  { intros x Hx; split; [apply Z.div_pos; lia|apply Z.div_lt_upper_bound; nia]. }
  pose proof (Hdiv (height * n) ltac:(lia)); pose proof (Hdiv (height' * n) ltac:(lia)).
  rewrite !wrap_small by mlia.
  pose proof (Z.div_le_mono (height * n) (height' * n) d); lia.
Qed.

Lemma max_block_size_correct_witness :
  maxBlockCumulativeSize mainnet 800000 = 177929 /\
  m_maxBlockSizeInitial mainnet <= maxBlockCumulativeSize mainnet 800000
    <= maxBlockCumulativeSize mainnet 900000.
Proof.
  split; [vm_compute; reflexivity|].
  apply (max_block_size_correct mainnet 800000 900000); closed_arith.
Defined.

(** The move constructor loses one member: the alternative-block pool life time
    of the returned object does not depend on the configured one. *)
Lemma Currency_move_livetime uninit c :
  m_mempoolTxFromAltBlockLiveTime (Currency_move uninit c) = uninit /\
  (m_mempoolTxFromAltBlockLiveTime c = uninit -> Currency_move uninit c = c).
Proof. split; [done|]; destruct c; simpl; intros ->; done. Qed.

End Currency.
