(* ===== verification/Difficulty.v ===== *)
(** Difficulty of the next block: the three LWMA versions of
    src/src/CryptoNoteCore/Difficulty.{h,cpp}, and [Currency::nextDifficulty] and
    [Currency::getNextDifficulty] of src/src/CryptoNoteCore/Currency.cpp.

    The LWMA functions compute in [int64_t].  Signed overflow, division by zero
    and reads outside a vector are undefined there: the models return [None] at
    exactly those points, so [Some] means that the execution is defined.
    [Currency::nextDifficulty] computes in [uint64_t], with wrap-around. *)

From S2P Require Import Prelude.
From S2P Require Import Config.
From S2P Require Import IntUtil.
From S2P Require Import Currency.

Module Difficulty.

Import parameters Currency.

(** ** int64_t arithmetic *)

Definition ck64 (z : Z) : option Z := if decide (in_s 64 z) then Some z else None.

Definition div64 (a b : Z) : option Z := if b =? 0 then None else ck64 (Z.quot a b).

Definition clamp (n lower upper : Z) : Z := Z.max lower (Z.min n upper).

(** The solve-time limits of the three versions. *)
Definition T : Z := s64 DIFFICULTY_TARGET.
Definition N : Z := s64 DIFFICULTY_WINDOW_V3.
Definition FTL : Z := s64 CRYPTONOTE_BLOCK_FUTURE_TIME_LIMIT_V3.

Definition ST_V5 (ST : Z) : Z := Z.max (-4 * T) (Z.min ST (6 * T)).
Definition ST_V4 (ST : Z) : Z := clamp (-6 * T) ST (6 * T).
Definition ST_V3 (ST : Z) : Z := Z.max (- FTL) (Z.min ST (6 * T)).

(** The loop shared by the three functions: [ts] starts at [timestamps[i - 1]]. *)
Fixpoint lwma_loop (lim : Z -> Z) (i : Z) (ts : list Z) (L sum_3_ST : Z)
  : option (Z * Z) :=
  match ts with
  | t0 :: (t1 :: _) as rest =>
    if i <=? N then
      ST ← ck64 (s64 t1 - s64 t0);
      let ST := lim ST in
      p ← ck64 (ST * i);
      L ← ck64 (L + p);
      s ← (if i >? N - 3 then ck64 (sum_3_ST + ST) else Some sum_3_ST);
      lwma_loop lim (i + 1) rest L s
    else Some (L, sum_3_ST)
  | _ => if i <=? N then None else Some (L, sum_3_ST)
  end.

(** [next_D] before the limits, and [prev_D]. *)
Definition lwma_work (cumulativeDifficulties : list Z) (L : Z) : option (Z * Z) :=
  cdN ← cumulativeDifficulties !! Z.to_nat N;
  cd0 ← cumulativeDifficulties !! O;
  cdP ← cumulativeDifficulties !! Z.to_nat (N - 1);
  a ← ck64 (s64 (u64 (cdN - cd0)) * T);
  b ← ck64 (a * (N + 1));
  n ← ck64 (b * 99);
  d ← ck64 (100 * 2 * L);
  next_D ← div64 n d;
  Some (next_D, s64 (u64 (cdN - cdP))).

Definition percent (prev_D p : Z) : option Z :=
  m ← ck64 (prev_D * p); Some (Z.quot m 100).

Definition nextDifficultyV5 (timestamps cumulativeDifficulties : list Z) : option Z :=
  if Z.of_nat (length timestamps) <? u64 (N + 1) then Some 10000
  else
    '(L, sum_3_ST) ← lwma_loop ST_V5 1 timestamps 0 0;
    '(next_D, prev_D) ← lwma_work cumulativeDifficulties L;
    lo ← percent prev_D 67;
    hi ← percent prev_D 150;
    let next_D := Z.max lo (Z.min next_D hi) in
    if sum_3_ST <? Z.quot (8 * T) 10 then
      up ← percent prev_D 108; Some (u64 (Z.max next_D up))
    else Some (u64 next_D).

Definition nextDifficultyV4 (timestamps cumulativeDifficulties : list Z) : option Z :=
  if Z.of_nat (length timestamps) <=? u64 N then Some 1000
  else
    '(L, sum_3_ST) ← lwma_loop ST_V4 1 timestamps 0 0;
    '(next_D, prev_D) ← lwma_work cumulativeDifficulties L;
    lo ← percent prev_D 67;
    hi ← percent prev_D 150;
    let next_D := Z.max lo (Z.min next_D hi) in
    if sum_3_ST <? Z.quot (8 * T) 10 then
      up ← percent prev_D 110; Some (u64 (Z.max next_D up))
    else Some (u64 next_D).

Definition nextDifficultyV3 (timestamps cumulativeDifficulties : list Z) : option Z :=
  if Z.of_nat (length timestamps) <=? u64 N then Some 1000
  else
    '(L, sum_3_ST) ← lwma_loop ST_V3 1 timestamps 0 0;
    '(next_D, prev_D) ← lwma_work cumulativeDifficulties L;
    lo ← percent prev_D 70;
    hi ← percent prev_D 107;
    let next_D := Z.max lo (Z.min next_D hi) in
    if sum_3_ST <? Z.quot (8 * T) 10 then
      up ← percent prev_D 110; Some (u64 up)
    else Some (u64 next_D).

(** ** Currency::nextDifficulty *)

(** std::vector<uint64_t>::resize *)
Definition resize (n : nat) (l : list Z) : list Z :=
  take n l ++ repeat 0 (n - length l).

(** The cut of the sorted window: [(cutBegin, cutEnd)]. *)
Definition cut_range (window cut length_ : Z) : Z * Z :=
  if length_ <=? u64 (window - u64 (2 * cut)) then (0, length_)
  else
    let cutBegin := u64 (u64 (length_ - u64 (window - u64 (2 * cut))) + 1) / 2 in
    (cutBegin, u64 (cutBegin + u64 (window - u64 (2 * cut)))).

Definition at_ (l : list Z) (i : Z) : Z := nth (Z.to_nat i) l 0.

(** Time span and total work of the window [cutBegin, cutEnd). *)
Definition span_work (ts cds : list Z) (cutBegin cutEnd : Z) : Z * Z :=
  let timeSpan := u64 (at_ ts (cutEnd - 1) - at_ ts cutBegin) in
  let timeSpan := if timeSpan =? 0 then 1 else timeSpan in
  (timeSpan, u64 (at_ cds (cutEnd - 1) - at_ cds cutBegin)).

Definition nextDifficulty (c : Currency) (version blockIndex : Z)
    (timestamps_o cumulativeDifficulties_o : list Z) : Z :=
  let c_difficultyWindow := difficultyWindowByBlockVersion c version in
  let c_difficultyCut := difficultyCutByBlockVersion c version in
  let '(timestamps, cumulativeDifficulties) :=
    if Z.of_nat (length timestamps_o) >? c_difficultyWindow
    then (resize (Z.to_nat c_difficultyWindow) timestamps_o,
          resize (Z.to_nat c_difficultyWindow) cumulativeDifficulties_o)
    else (timestamps_o, cumulativeDifficulties_o) in
  let length_ := Z.of_nat (length timestamps) in
  if length_ <=? 1 then 1
  else
    let timestamps := merge_sort Z.le timestamps in
    let '(cutBegin, cutEnd) := cut_range c_difficultyWindow c_difficultyCut length_ in
    let '(timeSpan, totalWork) :=
      span_work timestamps cumulativeDifficulties cutBegin cutEnd in
    let '(low, high) := IntUtil.mul128 totalWork (m_difficultyTarget c) in
    if negb (high =? 0) || (2 ^ 64 - 1 - low <? timeSpan - 1) then 0
    else
      let zawyVersion :=
        if negb (m_zawyDifficultyV2 c =? 0) then 2 else m_zawyDifficultyBlockVersion c in
      if (version >=? zawyVersion) && negb (zawyVersion =? 0) then
        (if negb (high =? 0) then 0 else low / timeSpan)
      else if negb (m_zawyDifficultyBlockIndex c =? 0)
              && (m_zawyDifficultyBlockIndex c <=? blockIndex) then
        if negb (high =? 0) then 0
        else
          let t_difficultyWindow := Z.min 17 (Z.of_nat (length timestamps)) in
          let timestamps_tmp :=
            drop (length timestamps_o - Z.to_nat t_difficultyWindow) timestamps_o in
          let cumulativeDifficulties_tmp :=
            drop (length cumulativeDifficulties_o - Z.to_nat t_difficultyWindow)
              cumulativeDifficulties_o in
          let length_ := Z.of_nat (length timestamps_tmp) in
          if length_ <=? 1 then 1
          else
            let timestamps_tmp := merge_sort Z.le timestamps_tmp in
            let '(cutBegin, cutEnd) := cut_range 17 0 length_ in
            let '(timeSpan, totalWork) :=
              span_work timestamps_tmp cumulativeDifficulties_tmp cutBegin cutEnd in
            let '(low, high) := IntUtil.mul128 totalWork (m_difficultyTarget c) in
            if negb (high =? 0) || (2 ^ 64 - 1 - low <? timeSpan - 1) then 0
            else
              let nextDiffZ := low / timeSpan in
              if nextDiffZ <=? 100 then 100 else nextDiffZ
      else u64 (u64 (low + timeSpan) - 1) / timeSpan.

(** [None] when the selected version has undefined behaviour. *)
Definition getNextDifficulty (c : Currency) (version blockIndex : Z)
    (timestamps cumulativeDifficulties : list Z) : option Z :=
  if blockIndex >=? LWMA_2_DIFFICULTY_BLOCK_INDEX_V3 then
    nextDifficultyV5 timestamps cumulativeDifficulties
  else if blockIndex >=? LWMA_2_DIFFICULTY_BLOCK_INDEX_V2 then
    nextDifficultyV4 timestamps cumulativeDifficulties
  else if blockIndex >=? LWMA_2_DIFFICULTY_BLOCK_INDEX then
    nextDifficultyV3 timestamps cumulativeDifficulties
  else Some (nextDifficulty c version blockIndex timestamps cumulativeDifficulties).

(** ** The LWMA sums without machine arithmetic *)

(** Weighted sum of the limited solve times [i .. N], and the sum of the last
    three. *)
Fixpoint lwma_sums (lim : Z -> Z) (i : Z) (ts : list Z) : Z * Z :=
  match ts with
  | t0 :: (t1 :: _) as rest =>
    if i <=? N then
      let '(L, s) := lwma_sums lim (i + 1) rest in
      let ST := lim (t1 - t0) in
      (ST * i + L, if i >? N - 3 then ST + s else s)
    else (0, 0)
  | _ => (0, 0)
  end.

Lemma ck64_ok z : in_s 64 z -> ck64 z = Some z.
Proof. intros; unfold ck64; by rewrite decide_True. Qed.

Lemma div64_ok a b : b <> 0 -> in_s 64 (Z.quot a b) -> div64 a b = Some (Z.quot a b).
Proof. intros; unfold div64; rewrite (proj2 (Z.eqb_neq _ _)), ck64_ok; done. Qed.

Lemma ST_V5_range ST : -180 <= ST_V5 ST <= 180.
Proof. unfold ST_V5; change T with 30; lia. Qed.

Lemma ST_V3_range ST : -180 <= ST_V3 ST <= 180.
Proof. unfold ST_V3; change T with 30; change FTL with 90; lia. Qed.

Lemma N_val : N = 51103.
Proof. reflexivity. Qed.

Lemma lwma_loop_step lim i t0 t1 ts L s :
  lwma_loop lim i (t0 :: t1 :: ts) L s =
  if i <=? N then
    ST ← ck64 (s64 t1 - s64 t0);
    p ← ck64 (lim ST * i);
    L ← ck64 (L + p);
    s ← (if i >? N - 3 then ck64 (s + lim ST) else Some s);
    lwma_loop lim (i + 1) (t1 :: ts) L s
  else Some (L, s).
Proof. reflexivity. Qed.

Lemma lwma_sums_step lim i t0 t1 ts :
  lwma_sums lim i (t0 :: t1 :: ts) =
  if i <=? N then
    (lim (t1 - t0) * i + (lwma_sums lim (i + 1) (t1 :: ts)).1,
     if i >? N - 3 then lim (t1 - t0) + (lwma_sums lim (i + 1) (t1 :: ts)).2
     else (lwma_sums lim (i + 1) (t1 :: ts)).2)
  else (0, 0).
Proof.
  change (lwma_sums lim i (t0 :: t1 :: ts)) with
    (if i <=? N then
       let '(L, s) := lwma_sums lim (i + 1) (t1 :: ts) in
       (lim (t1 - t0) * i + L, if i >? N - 3 then lim (t1 - t0) + s else s)
     else (0, 0)).
  destruct (lwma_sums lim (i + 1) (t1 :: ts)); done.
Qed.

(** With solve times of at most [10^7] the loop never overflows, and it
    computes the mathematical sums. *)
Lemma lwma_loop_sums lim base D i ts L s :
  (forall x, Z.abs x <= D -> Z.abs (lim x) <= 10 ^ 7) ->
  0 <= base -> base + D < 2 ^ 62 ->
  Forall (fun t => base <= t <= base + D) ts ->
  1 <= i <= N + 1 -> N + 1 - i < Z.of_nat (length ts) ->
  Z.abs L <= 10 ^ 7 * N * (i - 1) -> Z.abs s <= 10 ^ 7 * (i - 1) ->
  lwma_loop lim i ts L s
    = Some (L + (lwma_sums lim i ts).1, s + (lwma_sums lim i ts).2) /\
  Z.abs (L + (lwma_sums lim i ts).1) <= 10 ^ 7 * N * N.
Proof.
  intros Hlim Hbase HD Hts; rewrite N_val.
  revert i L s; induction Hts as [|t0 ts Ht0 Hts IH]; intros i L s Hi Hlen HL Hs;
    simpl length in Hlen; [lia|].
  destruct ts as [|t1 ts].
  { assert (i = 51104) by (simpl in Hlen; lia); subst i.
    cbn [lwma_sums lwma_loop]; rewrite N_val; simpl; rewrite !Z.add_0_r; split; [done|lia]. }
  rewrite lwma_sums_step, lwma_loop_step, N_val.
  destruct (Z.leb_spec i 51103) as [Hle|Hgt]; cycle 1.
  { cbn [fst snd]; rewrite !Z.add_0_r; split; [done|lia]. }
  assert (Ht1 : base <= t1 <= base + D) by (inversion Hts; done).
  rewrite !(swrap_small 64) by (unfold in_s; lia).
  rewrite ck64_ok by (unfold in_s; lia).
  cbn [mbind option_bind]; set (ST := lim (t1 - t0)).
  pose proof (Hlim (t1 - t0) ltac:(lia)) as HST; fold ST in HST.
  assert (HSi : Z.abs (ST * i) <= 10 ^ 7 * 51103) by nia.
  rewrite (ck64_ok (ST * i)) by (unfold in_s; lia); cbn [mbind option_bind].
  rewrite (ck64_ok (L + ST * i)) by (unfold in_s; lia); cbn [mbind option_bind].
  specialize (IH (i + 1) (L + ST * i)).
  destruct (lwma_sums lim (i + 1) (t1 :: ts)) as [L' s']; cbn [fst snd] in *.
  destruct (Z.gtb_spec i (51103 - 3)).
  - rewrite (ck64_ok (s + ST)) by (unfold in_s; lia); cbn [mbind option_bind].
    destruct (IH (s + ST)) as (-> & HB); [lia..|]; rewrite <- !Z.add_assoc in *; done.
  - cbn [mbind option_bind]; destruct (IH s) as (-> & HB); [lia..|].
    rewrite <- !Z.add_assoc in *; done.
Qed.

(** A full window: timestamps within [D] seconds of [base], non-decreasing
    cumulative difficulties with a total work below [2^63 / (T (N+1) 99)]. *)
Definition full_window (base D : Z) (ts cds : list Z) (cd0 cdP cdN : Z) : Prop :=
  N < Z.of_nat (length ts) /\ 0 <= base /\ base + D < 2 ^ 62 /\
  Forall (fun t => base <= t <= base + D) ts /\
  cds !! O = Some cd0 /\ cds !! Z.to_nat (N - 1) = Some cdP /\
  cds !! Z.to_nat N = Some cdN /\
  0 <= cd0 <= cdP /\ cdP <= cdN < 2 ^ 64 /\ cdN - cd0 <= 60000000000.

Lemma lwma_work_spec base D ts cds cd0 cdP cdN L :
  full_window base D ts cds cd0 cdP cdN -> Z.abs L <= 10 ^ 7 * N * N ->
  lwma_work cds L =
    (if L =? 0 then None
     else Some (Z.quot ((cdN - cd0) * T * (N + 1) * 99) (200 * L), cdN - cdP)).
Proof.
  intros (_ & _ & _ & _ & H0 & HP & HN & H1 & H2 & HW) HL; unfold lwma_work.
  rewrite H0, HP, HN; cbn [mbind option_bind]; rewrite N_val in *.
  rewrite !(wrap_small 64), !(swrap_small 64) by (unfold in_s, in_u; lia).
  change T with 30.
  rewrite (ck64_ok ((cdN - cd0) * 30)) by (unfold in_s; lia); cbn [mbind option_bind].
  rewrite (ck64_ok (_ * (51103 + 1))) by (unfold in_s; lia); cbn [mbind option_bind].
  rewrite (ck64_ok (_ * 99)) by (unfold in_s; lia); cbn [mbind option_bind].
  rewrite (ck64_ok (100 * 2 * L)) by (unfold in_s; lia); cbn [mbind option_bind].
  replace (100 * 2 * L) with (200 * L) by lia.
  set (n := (cdN - cd0) * 30 * (51103 + 1) * 99).
  assert (0 <= n < 2 ^ 63) by (subst n; lia).
  destruct (Z.eqb_spec L 0) as [->|HL0]; [done|].
  rewrite div64_ok; [done|lia|].
  assert (Z.abs (Z.quot n (200 * L)) <= n); [|unfold in_s; lia].
  rewrite <- Z.quot_abs, (Z.abs_eq n) by lia.
  rewrite Z.quot_div_nonneg by lia; apply Z.div_le_upper_bound; nia.
Qed.

Lemma percent_spec prev p : 0 <= prev <= 60000000000 -> 0 <= p <= 150 ->
  percent prev p = Some (prev * p / 100).
Proof.
  intros; unfold percent; rewrite ck64_ok by (unfold in_s; nia); cbn [mbind option_bind].
  rewrite Z.quot_div_nonneg by nia; done.
Qed.

Lemma percent_mono prev p q : 0 <= prev -> 0 <= p <= q ->
  0 <= prev * p / 100 <= prev * q / 100.
Proof. intros; split; [apply Z.div_pos; nia|apply Z.div_le_mono; nia]. Qed.

(** What each version promises for a previous difficulty [prev] and the sum [s]
    of the last three solve times: limits, and the fast-block response. *)
Definition promise_V5 (prev s d : Z) : Prop :=
  prev * 67 / 100 <= d <= prev * 150 / 100 /\ (s < 24 -> prev * 108 / 100 <= d).
Definition promise_V4 (prev s d : Z) : Prop :=
  prev * 67 / 100 <= d <= prev * 150 / 100 /\ (s < 24 -> prev * 110 / 100 <= d).
Definition promise_V3 (prev s d : Z) : Prop :=
  (24 <= s -> prev * 70 / 100 <= d <= prev * 107 / 100) /\
  (s < 24 -> d = prev * 110 / 100).

Ltac lwma_limits prev :=
  pose proof (percent_mono prev 67 108 ltac:(lia) ltac:(lia));
  pose proof (percent_mono prev 67 110 ltac:(lia) ltac:(lia));
  pose proof (percent_mono prev 70 107 ltac:(lia) ltac:(lia));
  pose proof (percent_mono prev 107 150 ltac:(lia) ltac:(lia));
  pose proof (percent_mono prev 108 150 ltac:(lia) ltac:(lia));
  pose proof (percent_mono prev 110 150 ltac:(lia) ltac:(lia));
  assert (prev * 150 / 100 < 2 ^ 63) by (apply Z.div_lt_upper_bound; lia).

Ltac lwma_version lim :=
  match goal with H : full_window ?base ?D ?ts ?cds ?cd0 ?cdP ?cdN |- _ =>
    let Hw := fresh in pose proof H as Hw;
    destruct Hw as (Hlen & Hb & HD & Hts & _ & _ & _ & H1 & H2 & HW);
    rewrite N_val in Hlen;
    destruct (lwma_loop_sums lim base D 1 ts 0 0) as [Eloop HL];
      [try done; auto .. | rewrite N_val; lia | rewrite N_val; lia | simpl; lia | simpl; lia |];
    rewrite Eloop, !Z.add_0_l in *; cbn [mbind option_bind];
    rewrite (lwma_work_spec _ _ _ _ _ _ _ _ H HL);
    destruct (lwma_sums lim 1 ts) as [L s]; cbn [fst snd] in *;
    destruct (Z.eqb_spec L 0); [split; [done|by intros []]|];
    split; [done|intros _]; cbn [mbind option_bind];
    rewrite !percent_spec by lia; cbn [mbind option_bind];
    lwma_limits (cdN - cdP)
  end.

Lemma nextDifficultyV5_spec base D ts cds cd0 cdP cdN :
  full_window base D ts cds cd0 cdP cdN ->
  let '(L, s) := lwma_sums ST_V5 1 ts in
  (L = 0 -> nextDifficultyV5 ts cds = None) /\
  (L <> 0 -> exists d, nextDifficultyV5 ts cds = Some d /\ promise_V5 (cdN - cdP) s d).
Proof.
  intros H; unfold nextDifficultyV5, promise_V5; change (u64 (N + 1)) with 51104.
  rewrite (proj2 (Z.ltb_ge _ _)) by (destruct H as [H _]; rewrite N_val in *; lia).
  assert (forall x, Z.abs x <= D -> Z.abs (ST_V5 x) <= 10 ^ 7) by
    (intros x _; pose proof (ST_V5_range x); lia).
  lwma_version ST_V5; change (Z.quot (8 * T) 10) with 24.
  destruct (Z.ltb_spec s 24); rewrite ?percent_spec by lia; eexists;
    (split; [reflexivity|]); rewrite wrap_small by (unfold in_u; lia); lia.
Qed.

Lemma nextDifficultyV4_spec base D ts cds cd0 cdP cdN :
  full_window base D ts cds cd0 cdP cdN -> D <= 10 ^ 7 ->
  let '(L, s) := lwma_sums ST_V4 1 ts in
  (L = 0 -> nextDifficultyV4 ts cds = None) /\
  (L <> 0 -> exists d, nextDifficultyV4 ts cds = Some d /\ promise_V4 (cdN - cdP) s d).
Proof.
  intros H HD7; unfold nextDifficultyV4, promise_V4; change (u64 N) with 51103.
  rewrite (proj2 (Z.leb_gt _ _)) by (destruct H as [H _]; rewrite N_val in *; lia).
  assert (forall x, Z.abs x <= D -> Z.abs (ST_V4 x) <= 10 ^ 7) by
    (intros x ?; unfold ST_V4, clamp; change T with 30; lia).
  lwma_version ST_V4; change (Z.quot (8 * T) 10) with 24.
  destruct (Z.ltb_spec s 24); rewrite ?percent_spec by lia; eexists;
    (split; [reflexivity|]); rewrite wrap_small by (unfold in_u; lia); lia.
Qed.

Lemma nextDifficultyV3_spec base D ts cds cd0 cdP cdN :
  full_window base D ts cds cd0 cdP cdN ->
  let '(L, s) := lwma_sums ST_V3 1 ts in
  (L = 0 -> nextDifficultyV3 ts cds = None) /\
  (L <> 0 -> exists d, nextDifficultyV3 ts cds = Some d /\ promise_V3 (cdN - cdP) s d).
Proof.
  intros H; unfold nextDifficultyV3, promise_V3; change (u64 N) with 51103.
  rewrite (proj2 (Z.leb_gt _ _)) by (destruct H as [H _]; rewrite N_val in *; lia).
  assert (forall x, Z.abs x <= D -> Z.abs (ST_V3 x) <= 10 ^ 7) by
    (intros x _; pose proof (ST_V3_range x); lia).
  lwma_version ST_V3; change (Z.quot (8 * T) 10) with 24.
  destruct (Z.ltb_spec s 24); rewrite ?percent_spec by lia; eexists;
    (split; [reflexivity|]); rewrite wrap_small by (unfold in_u; lia); lia.
Qed.

(** Either the weighted sum is zero and the division is undefined, or the
    version keeps its promise. *)
Definition lwma_outcome (promise : Z -> Z -> Z -> Prop) (prev L s : Z) (r : option Z) : Prop :=
  (L = 0 -> r = None) /\ (L <> 0 -> exists d, r = Some d /\ promise prev s d).

Lemma getNextDifficulty_lwma c version height ts cds : 620000 <= height ->
  getNextDifficulty c version height ts cds =
  if 800000 <=? height then nextDifficultyV5 ts cds
  else if 700000 <=? height then nextDifficultyV4 ts cds else nextDifficultyV3 ts cds.
Proof.
  intros; unfold getNextDifficulty; rewrite !Z.geb_leb.
  change LWMA_2_DIFFICULTY_BLOCK_INDEX with 620000.
  rewrite (proj2 (Z.leb_le 620000 height)) by lia; done.
Qed.

(** C33. On a full window of 51104 time stamps spread over at most 10^7
    seconds, with a total work up to 6 * 10^10, the LWMA difficulty of
    versions 3, 4 and 5 overflows no intermediate value, is undefined exactly
    when the weighted sum of solve times is zero, and otherwise lies within
    the limits and the fast-block response each version sets around the
    previous difficulty. *)
Theorem lwma_limits_correct c version height base D ts cds cd0 cdP cdN L s :
  full_window base D ts cds cd0 cdP cdN -> D <= 10 ^ 7 ->
  let next := getNextDifficulty c version height ts cds in
  (800000 <= height -> lwma_sums ST_V5 1 ts = (L, s) ->
     lwma_outcome promise_V5 (cdN - cdP) L s next) /\
  (700000 <= height < 800000 -> lwma_sums ST_V4 1 ts = (L, s) ->
     lwma_outcome promise_V4 (cdN - cdP) L s next) /\
  (620000 <= height < 700000 -> lwma_sums ST_V3 1 ts = (L, s) ->
     lwma_outcome promise_V3 (cdN - cdP) L s next).
Proof.
  intros Hw HD next; subst next; unfold lwma_outcome.
  pose proof (nextDifficultyV5_spec _ _ _ _ _ _ _ Hw) as H5.
  pose proof (nextDifficultyV4_spec _ _ _ _ _ _ _ Hw HD) as H4.
  pose proof (nextDifficultyV3_spec _ _ _ _ _ _ _ Hw) as H3.
  split_and!; intros Hh E; rewrite getNextDifficulty_lwma, E in * by lia.
  - rewrite (proj2 (Z.leb_le _ _)) by lia; exact H5.
  - rewrite (proj2 (Z.leb_gt _ _)), (proj2 (Z.leb_le _ _)) by lia; exact H4.
  - rewrite !(proj2 (Z.leb_gt _ _)) by lia; exact H3.
Qed.

(** Blocks found every 30 seconds at constant difficulty 1000. *)
Fixpoint arithmetic (n : nat) (x step : Z) : list Z :=
  match n with O => [] | S n => x :: arithmetic n (x + step) step end.

Definition steady_ts : list Z := arithmetic (Z.to_nat 51104) 1600000000 30.
Definition steady_cds : list Z := arithmetic (Z.to_nat 51104) 0 1000.

Lemma arithmetic_bounds n x step : 0 <= step ->
  Forall (fun t => x <= t <= x + step * Z.of_nat n) (arithmetic n x step).
Proof.
  intros Hs; revert x; induction n as [|n IH]; intros x; cbn [arithmetic]; constructor.
  - nia.
  - eapply Forall_impl; [apply IH|]; cbv beta; intros; nia.
Qed.

Lemma steady_window :
  full_window 1600000000 2000000 steady_ts steady_cds 0 51102000 51103000.
Proof.
  split; [vm_compute; reflexivity|]; split; [lia|]; split; [lia|]; split.
  - eapply Forall_impl; [apply (arithmetic_bounds (Z.to_nat 51104)); lia|].
    cbv beta; intros; lia.
  - split; [vm_compute; reflexivity|]; split; [vm_compute; reflexivity|].
    split; [vm_compute; reflexivity|]; lia.
Qed.

Lemma lwma_limits_correct_witness :
  exists d, getNextDifficulty mainnet 5 900000 steady_ts steady_cds = Some d /\
    promise_V5 (51103000 - 51102000) 90 d.
Proof.
  assert (E : lwma_sums ST_V5 1 steady_ts = (39173515680, 90)) by (vm_compute; reflexivity).
  apply (proj1 (lwma_limits_correct mainnet 5 900000 _ _ _ _ _ _ _ 39173515680 90
    steady_window ltac:(lia)) ltac:(lia) E); lia.
Defined.

Lemma lwma_sums_equal lim t n i : lim 0 = 0 -> lwma_sums lim i (repeat t n) = (0, 0).
Proof.
  intros Hl; revert i; induction n as [|n IH]; intros i; [done|].
  destruct n as [|n]; [done|].
  change (repeat t (S (S n))) with (t :: t :: repeat t n); rewrite lwma_sums_step.
  change (t :: repeat t n) with (repeat t (S n)); rewrite IH, Z.sub_diag, Hl.
  cbn [fst snd]; destruct (i <=? N), (i >? N - 3); done.
Qed.

(** From height 620000 on, a window of equal time stamps makes
    getNextDifficulty divide by zero: the result is undefined for every
    version of the LWMA. *)
Theorem lwma_equal_timestamps_undefined c version height t n cds cd0 cdP cdN :
  full_window t 0 (repeat t n) cds cd0 cdP cdN -> 620000 <= height ->
  getNextDifficulty c version height (repeat t n) cds = None.
Proof.
  intros Hw Hh; rewrite getNextDifficulty_lwma by done.
  pose proof (nextDifficultyV5_spec _ _ _ _ _ _ _ Hw) as H5.
  pose proof (nextDifficultyV4_spec _ _ _ _ _ _ _ Hw ltac:(lia)) as H4.
  pose proof (nextDifficultyV3_spec _ _ _ _ _ _ _ Hw) as H3.
  rewrite !lwma_sums_equal in * by done.
  destruct (800000 <=? height); [by apply H5|].
  destruct (700000 <=? height); [by apply H4|by apply H3].
Qed.

Lemma lwma_equal_timestamps_undefined_witness :
  getNextDifficulty mainnet 5 900000 (repeat 1600000000 (Z.to_nat 51104)) steady_cds = None.
Proof.
  apply (lwma_equal_timestamps_undefined mainnet 5 900000 1600000000 (Z.to_nat 51104)
    steady_cds 0 51102000 51103000); [|lia].
  split; [vm_compute; reflexivity|]; split; [lia|]; split; [lia|]; split.
  - apply List.Forall_forall; intros x Hx; apply repeat_spec in Hx; cbv beta; lia.
  - split; [vm_compute; reflexivity|]; split; [vm_compute; reflexivity|].
    split; [vm_compute; reflexivity|]; lia.
Defined.

(** The limit of version 4 does not bound a solve time from above. *)
Lemma ST_V4_unbounded ST : -180 <= ST -> ST_V4 ST = ST.
Proof. unfold ST_V4, clamp; change T with 30; lia. Qed.

(** ** Currency::nextDifficulty *)

(** The cut, the span and the work without machine arithmetic. *)
Definition cut_spec (window cut n : Z) : Z * Z :=
  let w := window - 2 * cut in
  if n <=? w then (0, n) else ((n - w + 1) / 2, (n - w + 1) / 2 + w).

Definition zawy (c : Currency) (version : Z) : bool :=
  let v := if negb (m_zawyDifficultyV2 c =? 0) then 2 else m_zawyDifficultyBlockVersion c in
  (version >=? v) && negb (v =? 0).

Definition difficulty_spec (c : Currency) (version : Z) (ts cds : list Z) : Z :=
  let '(b, e) := cut_spec (difficultyWindowByBlockVersion c version)
                   (difficultyCutByBlockVersion c version) (Z.of_nat (length ts)) in
  let sorted := merge_sort Z.le ts in
  let span := Z.max 1 (at_ sorted (e - 1) - at_ sorted b) in
  let work := at_ cds (e - 1) - at_ cds b in
  let total := work * m_difficultyTarget c in
  if 2 ^ 64 <=? total + span - 1 then 0
  else if zawy c version then total / span else (total + span - 1) / span.

Definition wf_window_params (c : Currency) (version : Z) : Prop :=
  let w := difficultyWindowByBlockVersion c version in
  let k := difficultyCutByBlockVersion c version in
  0 <= k /\ 2 * k + 2 <= w /\ w < 2 ^ 63 /\ in_u 64 (m_difficultyTarget c).

Lemma cut_spec_range w k n : 0 <= k -> 2 * k + 2 <= w -> 2 <= n <= w ->
  let '(b, e) := cut_spec w k n in 0 <= b /\ b + 2 <= e <= n.
Proof.
  intros Hk Hw Hn; unfold cut_spec; destruct (Z.leb_spec n (w - 2 * k)); [lia|].
  pose proof (Z.div_pos (n - (w - 2 * k) + 1) 2 ltac:(lia) ltac:(lia)).
  pose proof (Z.mul_div_le (n - (w - 2 * k) + 1) 2 ltac:(lia)); lia.
Qed.

Lemma cut_range_spec w k n : 0 <= k -> 2 * k + 2 <= w < 2 ^ 63 -> 2 <= n <= w ->
  cut_range w k n = cut_spec w k n.
Proof.
  intros Hk Hw Hn; unfold cut_range; pose proof (cut_spec_range w k n Hk ltac:(lia) Hn) as H.
  unfold cut_spec in *; rewrite (wrap_small 64 (2 * k)), !(wrap_small 64 (w - 2 * k)) by mlia.
  destruct (Z.leb_spec n (w - 2 * k)); [done|].
  rewrite (wrap_small 64 (n - _)), (wrap_small 64 (n - _ + 1)), wrap_small by mlia; done.
Qed.

Lemma at_elem l i : 0 <= i < Z.of_nat (length l) -> at_ l i ∈ l.
Proof. intros; unfold at_; apply list_elem_of_In, nth_In; lia. Qed.

Lemma sorted_nth (R : Z -> Z -> Prop) l (i j : nat) :
  StronglySorted R l -> (i < j < length l)%nat -> R (nth i l 0) (nth j l 0).
Proof.
  intros Hs; revert i j; induction Hs as [|x l Hs IH Hx]; intros i j Hij; simpl in Hij; [lia|].
  destruct j as [|j]; [lia|]; destruct i as [|i]; simpl.
  - rewrite List.Forall_forall in Hx; apply Hx, nth_In; lia.
  - apply IH; lia.
Qed.

Lemma sorted_at (R : Z -> Z -> Prop) l i j :
  StronglySorted R l -> 0 <= i < j -> j < Z.of_nat (length l) -> R (at_ l i) (at_ l j).
Proof. intros; unfold at_; apply (sorted_nth R); [done|lia]. Qed.

(** Span and work of a valid cut of a sorted window. *)
Lemma span_work_spec sorted cds b e :
  Forall (in_u 64) sorted -> StronglySorted Z.le sorted ->
  Forall (in_u 64) cds -> StronglySorted Z.lt cds ->
  0 <= b -> b + 2 <= e -> e <= Z.of_nat (length sorted) -> e <= Z.of_nat (length cds) ->
  let span := Z.max 1 (at_ sorted (e - 1) - at_ sorted b) in
  let work := at_ cds (e - 1) - at_ cds b in
  span_work sorted cds b e = (span, work) /\ in_u 64 span /\ 0 < work < 2 ^ 64.
Proof.
  intros Hts Hss Hcs Hsc Hb He Hle Hle' span work.
  pose proof (sorted_at _ _ b (e - 1) Hss ltac:(lia) ltac:(lia)) as Ht.
  pose proof (sorted_at _ _ b (e - 1) Hsc ltac:(lia) ltac:(lia)) as Hc.
  rewrite !Forall_forall in *.
  pose proof (Hts _ (at_elem sorted (e - 1) ltac:(lia))).
  pose proof (Hts _ (at_elem sorted b ltac:(lia))).
  pose proof (Hcs _ (at_elem cds (e - 1) ltac:(lia))).
  pose proof (Hcs _ (at_elem cds b ltac:(lia))).
  unfold span_work; rewrite !wrap_small by mlia; fold work.
  split; [|subst span work; unfold in_u in *; lia].
  f_equal; subst span; destruct (Z.eqb_spec (at_ sorted (e - 1) - at_ sorted b) 0); lia.
Qed.

Lemma merge_sort_sorted l : StronglySorted Z.le (merge_sort Z.le l).
Proof. apply StronglySorted_merge_sort; [intros x y z; lia|intros x y; lia]. Qed.

Lemma merge_sort_perm l l' : l ≡ₚ l' -> merge_sort Z.le l = merge_sort Z.le l'.
Proof.
  intros H; apply (StronglySorted_unique Z.le); try apply merge_sort_sorted.
  by rewrite !merge_sort_Permutation.
Qed.

Lemma nextDifficulty_spec c version h ts cds :
  wf_window_params c version ->
  zawy c version = true \/ m_zawyDifficultyBlockIndex c = 0 \/ h < m_zawyDifficultyBlockIndex c ->
  Forall (in_u 64) ts -> Forall (in_u 64) cds -> StronglySorted Z.lt cds ->
  length cds = length ts ->
  2 <= Z.of_nat (length ts) <= difficultyWindowByBlockVersion c version ->
  nextDifficulty c version h ts cds = difficulty_spec c version ts cds.
Proof.
  intros (Hk & Hw & Hw' & HT) Hz Hts Hcds Hs Hlen Hn; unfold nextDifficulty, difficulty_spec.
  set (w := difficultyWindowByBlockVersion c version) in *.
  set (k := difficultyCutByBlockVersion c version) in *.
  rewrite Z.gtb_ltb, (proj2 (Z.ltb_ge w _)) by lia.
  rewrite (proj2 (Z.leb_gt _ _)), cut_range_spec by lia.
  pose proof (cut_spec_range w k (Z.of_nat (length ts)) Hk Hw Hn) as Hcut.
  destruct (cut_spec w k (Z.of_nat (length ts))) as [b e]; destruct Hcut as (Hb & Hbe & He).
  pose proof (merge_sort_Permutation Z.le ts) as Hp.
  destruct (span_work_spec (merge_sort Z.le ts) cds b e) as (-> & Hspan & Hwork);
    rewrite ?Hp; try done; try lia; [apply merge_sort_sorted|].
  set (span := Z.max 1 _) in *; set (work := at_ cds (e - 1) - at_ cds b) in *.
  pose proof (IntUtil.mul128_spec work (m_difficultyTarget c) ltac:(mlia) HT) as HM.
  destruct (IntUtil.mul128 work (m_difficultyTarget c)) as [low high]; simpl in HM.
  destruct HM as (HM & Hlo & Hhi & _); rewrite HM; fold (zawy c version).
  assert (1 <= span) by (subst span; lia).
  destruct (Z.eqb_spec high 0) as [->|Hh]; cbn [negb orb]; cycle 1.
  { rewrite (proj2 (Z.leb_le (2 ^ 64) _)) by mlia; done. }
  rewrite Z.mul_0_l, Z.add_0_l; destruct (Z.ltb_spec (2 ^ 64 - 1 - low) (span - 1)).
  { rewrite (proj2 (Z.leb_le (2 ^ 64) _)) by lia; done. }
  rewrite (proj2 (Z.leb_gt (2 ^ 64) _)) by lia.
  destruct (zawy c version); [done|]; destruct Hz as [|Hz]; [done|].
  replace (_ && _) with false; cycle 1.
  { destruct Hz as [->|Hz]; [done|]; rewrite (proj2 (Z.leb_gt _ h)) by done.
    by rewrite andb_false_r. }
  unfold wrap at 1 2; rewrite Zminus_mod_idemp_l, Z.mod_small by (unfold in_u in *; lia).
  done.
Qed.

(** Currency::nextDifficulty sorts the time stamps, cuts the outliers and
    returns the rounded-up quotient of work and time span, or zero when that
    does not fit in 64 bits; the order of the time stamps does not matter. *)
Theorem classic_difficulty_correct c version h ts ts' cds :
  wf_window_params c version ->
  zawy c version = true \/ m_zawyDifficultyBlockIndex c = 0 \/ h < m_zawyDifficultyBlockIndex c ->
  Forall (in_u 64) ts -> Forall (in_u 64) cds -> StronglySorted Z.lt cds ->
  length cds = length ts ->
  2 <= Z.of_nat (length ts) <= difficultyWindowByBlockVersion c version ->
  ts' ≡ₚ ts ->
  nextDifficulty c version h ts cds = difficulty_spec c version ts cds /\
  nextDifficulty c version h ts' cds = nextDifficulty c version h ts cds.
Proof.
  intros Hw Hz Hts Hcds Hs Hl Hn Hp.
  assert (E : nextDifficulty c version h ts cds = difficulty_spec c version ts cds)
    by (apply nextDifficulty_spec; done).
  split; [done|]; rewrite E.
  rewrite nextDifficulty_spec; rewrite ?Hp; try done.
  unfold difficulty_spec; rewrite (merge_sort_perm ts' ts Hp), Hp; done.
Qed.

Lemma classic_difficulty_correct_witness :
  nextDifficulty mainnet 3 1000 [100; 130; 120; 190] [5; 15; 30; 50] = 15 /\
  nextDifficulty mainnet 3 1000 [130; 100; 120; 190] [5; 15; 30; 50]
  = nextDifficulty mainnet 3 1000 [100; 130; 120; 190] [5; 15; 30; 50].
Proof.
  split; [vm_compute; reflexivity|].
  apply (classic_difficulty_correct mainnet 3 1000 [100; 130; 120; 190]);
    [closed_arith|left; reflexivity|..].
  - apply (bool_decide_unpack _); vm_compute; exact I.
  - apply (bool_decide_unpack _); vm_compute; exact I.
  - repeat constructor.
  - reflexivity.
  - closed_arith.
  - apply perm_swap.
Defined.

End Difficulty.
