(* ===== verification/TreeHash.v ===== *)
(** Merkle trees (src/src/crypto/tree-hash.c).

    An array of hashes is a list of byte strings.  The functions reduce a level
    of the tree in place; the model performs the same writes ([pair_loop]) and
    the lemmas show that they compute the level above.  Everything is proved for
    any hash satisfying the [FastHash] interface.

    The theorems: [tree_hash] is the root of the balanced tree whose last leaves
    are paired first; the branch produced by [tree_branch] leads from the first
    leaf to that root; and a branch is binding, in that two different leaves or
    branches with the same root give a collision of the hash. *)

From S2P Require Import Prelude.
From S2P Require Import Types.
From S2P Require Import Keccak.

Module TreeHash.

Definition at_ (l : list Hash) (i : nat) : Hash := default [] (l !! i).

(** *** Shape of the tree *)

(** The smearing loop of [tree_hash]: [for (i = 1; i < 64; i <<= 1) cnt |= cnt >> i]. *)
Definition smear (cnt : Z) : Z :=
  fold_left (fun cnt i => Z.lor cnt (Z.shiftr cnt i)) [1; 2; 4; 8; 16; 32] cnt.

(** The largest power of two below [count], as [tree_hash] computes it. *)
Definition tree_hash_cnt (count : Z) : Z :=
  let cnt := smear (u64 (count - 1)) in
  Z.land cnt (u64 (Z.lnot (Z.shiftr cnt 1))).

(** [tree_depth]: binary search with [i = 32, 16, 8, 4, 2, 1]. *)
Definition tree_depth (count : Z) : Z :=
  snd (fold_left (fun '(count, depth) i =>
         if Z.shiftr count i >? 0 then (Z.shiftr count i, depth + i) else (count, depth))
       [32; 16; 8; 4; 2; 1] (count, 0)).

(** The same search in [tree_branch]: [(cnt, depth)]. *)
Definition branch_cnt (count : Z) : Z * Z :=
  fold_left (fun '(cnt, depth) i =>
    if u64 (Z.shiftl cnt i) <=? count then (u64 (Z.shiftl cnt i), depth + i)
    else (cnt, depth)) [32; 16; 8; 4; 2; 1] (1, 0).

Section Tree.
Context {FH : FastHash}.

(** [cn_fast_hash(hashes[i], 2 * HASH_SIZE, out)]: two adjacent hashes. *)
Definition hash2 (a b : Hash) : Hash := cn_fast_hash (a ++ b).

(** [for (i, j; ...; i += 2, ++j) cn_fast_hash(ints[i], 2 * HASH_SIZE, ints[j])],
    [n] iterations, in place. *)
Fixpoint pair_loop (ints : list Hash) (i j n : nat) : list Hash :=
  match n with
  | O => ints
  | S n => pair_loop (<[j := hash2 (at_ ints i) (at_ ints (i + 1))]> ints) (i + 2) (j + 1) n
  end.

(** The first loop, which reads the leaves and fills [ints]. *)
Fixpoint pair_leaves (hashes : list Hash) (i n : nat) : list Hash :=
  match n with
  | O => []
  | S n => hash2 (at_ hashes i) (at_ hashes (i + 1)) :: pair_leaves hashes (i + 2) n
  end.

Fixpoint tree_hash_loop (fuel : nat) (ints : list Hash) (cnt : nat) : list Hash :=
  match fuel with
  | O => ints
  | S fuel =>
    if (2 <? cnt)%nat then
      let cnt := (cnt / 2)%nat in
      tree_hash_loop fuel (pair_loop ints 0 0 cnt) cnt
    else ints
  end.

Definition tree_hash (hashes : list Hash) : Hash :=
  let count := length hashes in
  if (count =? 1)%nat then at_ hashes 0
  else if (count =? 2)%nat then hash2 (at_ hashes 0) (at_ hashes 1)
  else
    let cnt := Z.to_nat (tree_hash_cnt (Z.of_nat count)) in
    let k := (2 * cnt - count)%nat in
    let ints := take k hashes ++ pair_leaves hashes k (cnt - k) in
    let ints := tree_hash_loop 64 ints cnt in
    hash2 (at_ ints 0) (at_ ints 1).

(** [branch[depth] = ints[0]] for [depth] counting down; the result lists
    [branch[0]], [branch[1]], ... *)
Fixpoint tree_branch_loop (depth : nat) (ints : list Hash) (cnt : nat) : list Hash :=
  match depth with
  | O => []
  | S depth =>
    let cnt := (cnt / 2)%nat in
    tree_branch_loop depth (pair_loop ints 1 0 (cnt - 1)) cnt ++ [at_ ints 0]
  end.

Definition tree_branch (hashes : list Hash) : list Hash :=
  let count := length hashes in
  let '(cnt, depth) := branch_cnt (Z.of_nat count) in
  let cnt := Z.to_nat cnt in
  let k := (2 * cnt - count)%nat in
  let ints := take (k - 1) (drop 1 hashes) ++ pair_leaves hashes k (cnt - k) in
  tree_branch_loop (Z.to_nat depth) ints cnt.

(** Bit [depth] of the path; no path means the leaf is always on the left. *)
Definition path_bit (path : option (list Z)) (depth : nat) : bool :=
  match path with
  | None => false
  | Some p => negb (Z.land (nth (depth / 8) p 0) (Z.shiftl 1 (Z.of_nat (depth mod 8))) =? 0)
  end.

(** The loop over [depth]; [buffer] holds the two hashes, [from_leaf] is set until
    the leaf has been copied. *)
Fixpoint from_branch_loop (path : option (list Z)) (branch : list Hash) (leaf : Hash)
    (depth : nat) (buffer : Hash * Hash) (from_leaf : bool) : Hash * Hash :=
  match depth with
  | O => buffer
  | S depth =>
    let node := if from_leaf then leaf else hash2 buffer.1 buffer.2 in
    let buffer :=
      if path_bit path depth then (at_ branch depth, node) else (node, at_ branch depth) in
    from_branch_loop path branch leaf depth buffer false
  end.

Definition tree_hash_from_branch (branch : list Hash) (depth : nat) (leaf : Hash)
    (path : option (list Z)) : Hash :=
  match depth with
  | O => leaf
  | S _ =>
    let buffer := from_branch_loop path branch leaf depth ([], []) true in
    hash2 buffer.1 buffer.2
  end.

(** *** The tree as a specification *)

Fixpoint pairs (l : list Hash) : list Hash :=
  match l with
  | a :: b :: l => hash2 a b :: pairs l
  | _ => []
  end.

(** Root of a complete tree of [2^k] nodes. *)
Fixpoint merkle (k : nat) (l : list Hash) : Hash :=
  match k with
  | O => at_ l 0
  | S k => merkle k (pairs l)
  end.

(** The lowest complete level: the last leaves are paired, the others kept. *)
Definition leaf_level (k : nat) (hashes : list Hash) : list Hash :=
  let keep := (2 * 2 ^ k - length hashes)%nat in
  take keep hashes ++ pairs (drop keep hashes).

Lemma pairs_length l : length (pairs l) = (length l / 2)%nat.
Proof.
  assert (forall n l, length l <= n -> length (pairs l) = length l / 2)%nat as H.
  { clear l; induction n as [|n IH]; intros [|a [|b l]] Hl; cbn [length] in Hl; try done; [lia|].
    cbn [pairs length]; rewrite IH by lia.
    replace (S (S (length l))) with (length l + 1 * 2)%nat by lia.
    rewrite Nat.div_add; lia. }
  by apply (H (length l)).
Qed.

Lemma pairs_lookup l j : (2 * j + 1 < length l)%nat ->
  pairs l !! j = Some (hash2 (at_ l (2 * j)) (at_ l (2 * j + 1))).
Proof.
  revert l; induction j as [|j IH]; intros [|a [|b l]] Hj; simpl in Hj; try lia; [done|].
  cbn [pairs lookup list_lookup]; rewrite IH by lia.
  unfold at_; replace (2 * S j)%nat with (S (S (2 * j))) by lia; done.
Qed.

Lemma pair_leaves_length hashes i n : length (pair_leaves hashes i n) = n.
Proof. revert i; induction n; intros i; simpl; [done|]; by rewrite IHn. Qed.

Lemma pair_leaves_lookup hashes i n j : (j < n)%nat ->
  pair_leaves hashes i n !! j
  = Some (hash2 (at_ hashes (i + 2 * j)) (at_ hashes (i + 2 * j + 1))).
Proof.
  revert i j; induction n as [|n IH]; intros i [|j] Hj; try lia; simpl.
  - by rewrite Nat.add_0_r.
  - rewrite IH by lia; do 3 f_equal; lia.
Qed.

Lemma at_drop l k i : at_ (drop k l) i = at_ l (k + i).
Proof. unfold at_; by rewrite lookup_drop. Qed.

Lemma at_take l k i : (i < k)%nat -> at_ (take k l) i = at_ l i.
Proof. intros; unfold at_; by rewrite lookup_take_lt. Qed.

Lemma pair_leaves_pairs hashes i n : (i + 2 * n <= length hashes)%nat ->
  pair_leaves hashes i n = pairs (take (2 * n) (drop i hashes)).
Proof.
  intros Hi; apply list_eq_same_length with n.
  - rewrite pairs_length, length_take, length_drop.
    replace (Nat.min (2 * n) (length hashes - i))%nat with (n * 2)%nat by lia.
    by rewrite Nat.div_mul.
  - by rewrite pair_leaves_length.
  - intros j x y Hj; rewrite pair_leaves_lookup, pairs_lookup by
      (rewrite ?length_take, ?length_drop; lia).
    rewrite !at_take, !at_drop by lia; intros [= <-] [= <-]; f_equal; f_equal; lia.
Qed.

(** The in-place loop writes the pairs of what it reads: reads stay ahead of
    writes because [j <= i]. *)
Lemma pair_loop_spec ints i j n : (j <= i)%nat -> (i + 2 * n <= length ints)%nat ->
  pair_loop ints i j n
  = take j ints ++ pairs (take (2 * n) (drop i ints)) ++ drop (j + n) ints.
Proof.
  revert ints i j; induction n as [|n IH]; intros ints i j Hij Hn.
  { simpl; rewrite Nat.add_0_r; symmetry; apply take_drop. }
  cbn [pair_loop]; rewrite IH by (rewrite ?length_insert; lia).
  set (h := hash2 (at_ ints i) (at_ ints (i + 1))).
  rewrite (drop_insert_lt _ (i + 2)), (drop_insert_lt _ (j + 1 + n)) by lia.
  rewrite (Nat.add_1_r j), (take_S_r _ _ h) by (apply list_lookup_insert_eq; lia).
  rewrite take_insert_ge by lia; rewrite <- app_assoc; f_equal.
  replace (take (2 * S n) (drop i ints)) with
    (at_ ints i :: at_ ints (i + 1) :: take (2 * n) (drop (i + 2) ints)).
  - cbn [pairs]; fold h; cbn; do 2 f_equal; f_equal; lia.
  - replace (2 * S n)%nat with (S (S (2 * n))) by lia.
    rewrite (drop_S _ (at_ ints i) i), (drop_S _ (at_ ints (i + 1)) (S i)).
    + cbn [take]; do 4 f_equal; lia.
    + unfold at_; rewrite Nat.add_1_r; destruct (ints !! S i) eqn:E; [done|].
      apply lookup_ge_None in E; lia.
    + unfold at_; destruct (ints !! i) eqn:E; [done|]; apply lookup_ge_None in E; lia.
Qed.

(** *** The root *)

Lemma pow2_S k : (2 ^ S k = 2 * 2 ^ k)%nat.
Proof. apply Nat.pow_succ_r'. Qed.

Lemma pow2_pos k : (1 <= 2 ^ k)%nat.
Proof. induction k; rewrite ?pow2_S; simpl in *; lia. Qed.

Lemma pairs_full l k : length l = (2 ^ S k)%nat -> length (pairs l) = (2 ^ k)%nat.
Proof.
  intros H; rewrite pairs_length, H, pow2_S, Nat.mul_comm; apply Nat.div_mul; done.
Qed.

Lemma tree_hash_loop_spec k fuel ints :
  (k <= fuel)%nat -> (2 ^ S k <= length ints)%nat ->
  let r := tree_hash_loop fuel ints (2 ^ S k) in
  hash2 (at_ r 0) (at_ r 1) = merkle (S k) (take (2 ^ S k) ints).
Proof.
  revert fuel ints; induction k as [|k IH]; intros fuel ints Hf Hl.
  - assert (E : tree_hash_loop fuel ints (2 ^ 1) = ints) by (destruct fuel; done).
    cbv zeta; rewrite E; destruct ints as [|a [|b l]]; simpl in Hl; try lia; done.
  - destruct fuel as [|fuel]; [lia|]; cbv zeta; cbn [tree_hash_loop].
    pose proof (pow2_pos k); pose proof (pow2_S k); pose proof (pow2_S (S k)).
    rewrite (proj2 (Nat.ltb_lt _ _)) by lia.
    replace (2 ^ S (S k) / 2)%nat with (2 ^ S k)%nat by
      (rewrite (pow2_S (S k)), Nat.mul_comm, Nat.div_mul; done).
    rewrite pair_loop_spec by lia; rewrite take_0, drop_0; cbn [app].
    rewrite <- (pow2_S (S k)).
    assert (Hp : length (pairs (take (2 ^ S (S k)) ints)) = (2 ^ S k)%nat).
    { apply pairs_full; rewrite length_take; lia. }
    rewrite IH by (rewrite ?length_app; lia).
    rewrite take_app_le, take_ge by lia; done.
Qed.

Lemma leaf_level_length k hashes :
  (2 ^ k <= length hashes)%nat -> (length hashes <= 2 * 2 ^ k)%nat ->
  length (leaf_level k hashes) = (2 ^ k)%nat.
Proof.
  intros H1 H2; unfold leaf_level.
  rewrite length_app, length_take, pairs_length, length_drop.
  replace (length hashes - (2 * 2 ^ k - length hashes))%nat
    with ((length hashes - 2 ^ k) * 2)%nat by lia.
  rewrite Nat.div_mul; lia.
Qed.

(** What both [tree_hash] and [tree_branch] put into [ints]. *)
Lemma leaf_level_ints k hashes :
  (2 ^ k <= length hashes)%nat -> (length hashes <= 2 * 2 ^ k)%nat ->
  let keep := (2 * 2 ^ k - length hashes)%nat in
  take keep hashes ++ pair_leaves hashes keep (2 ^ k - keep) = leaf_level k hashes.
Proof.
  intros H1 H2 keep; unfold leaf_level; f_equal; fold keep.
  rewrite pair_leaves_pairs by lia; rewrite take_ge; [done|].
  rewrite length_drop; lia.
Qed.

(** *** Sizes *)

Lemma testbit_pow2 k b : 0 <= k -> Z.testbit (2 ^ k) b = (b =? k).
Proof. intros; rewrite Z.eqb_sym; by apply Z.pow2_bits_eqb. Qed.

(** [x] has all its bits in [(k - m, k]] set and none above [k]. *)
Definition top_ones (k m x : Z) : Prop :=
  forall b, 0 <= b -> (k - m < b <= k -> Z.testbit x b = true) /\
                      (k < b -> Z.testbit x b = false).

Lemma top_ones_step k m x : 0 < m -> top_ones k m x ->
  top_ones k (2 * m) (Z.lor x (Z.shiftr x m)).
Proof.
  intros Hm H b Hb; rewrite Z.lor_spec, Z.shiftr_spec by done; split; intros Hk.
  - destruct (Z.lt_ge_cases (k - m) b).
    + by rewrite (proj1 (H b Hb)) by lia.
    + rewrite (proj1 (H (b + m) ltac:(lia))) by lia; apply orb_true_r.
  - rewrite (proj2 (H b Hb)), (proj2 (H (b + m) ltac:(lia))) by lia; done.
Qed.

Lemma smear_spec n : 0 < n < 2 ^ 64 -> smear n = Z.ones (Z.log2 n + 1).
Proof.
  intros Hn; set (k := Z.log2 n).
  assert (Hk : 0 <= k < 64).
  { split; [apply Z.log2_nonneg|]; apply Z.log2_lt_pow2; lia. }
  assert (H1 : top_ones k 1 n).
  { intros b Hb; split; intros Hbk.
    - replace b with k by lia; apply Z.bit_log2; lia.
    - apply Z.bits_above_log2; subst k; lia. }
  assert (H64 : top_ones k 64 (smear n)).
  { unfold smear; cbn [fold_left].
    do 5 (apply top_ones_step in H1; [|lia]).
    apply top_ones_step in H1; [|lia]; exact H1. }
  apply Z.bits_inj_iff'; intros b Hb; rewrite Z.testbit_ones_nonneg by lia.
  destruct (H64 b Hb) as [Hlo Hhi]; destruct (Z.ltb_spec b (k + 1)).
  - apply Hlo; lia.
  - apply Hhi; lia.
Qed.

Lemma tree_hash_cnt_spec count : 2 <= count < 2 ^ 63 ->
  tree_hash_cnt count = 2 ^ Z.log2 (count - 1).
Proof.
  intros Hc; unfold tree_hash_cnt; rewrite (wrap_small 64 (count - 1)) by mlia.
  rewrite smear_spec by lia; set (k := Z.log2 (count - 1)).
  assert (Hk : 0 <= k < 63).
  { split; [apply Z.log2_nonneg|]; apply Z.log2_lt_pow2; lia. }
  apply Z.bits_inj_iff'; intros b Hb; rewrite testbit_pow2, Z.land_spec by lia.
  unfold wrap; rewrite Z.testbit_ones_nonneg by lia.
  destruct (Z.lt_ge_cases b 64).
  - rewrite Z.mod_pow2_bits_low, Z.lnot_spec, Z.shiftr_spec, Z.testbit_ones_nonneg by lia.
    destruct (Z.ltb_spec b (k + 1)), (Z.ltb_spec (b + 1) (k + 1)), (Z.eqb_spec b k);
      try lia; done.
  - rewrite Z.mod_pow2_bits_high, andb_false_r by lia; symmetry; apply Z.eqb_neq; lia.
Qed.

Lemma branch_step count depth i : 0 < count < 2 ^ 63 -> 0 < i <= 32 ->
  0 <= depth <= 64 - 2 * i -> depth <= Z.log2 count < depth + 2 * i ->
  let d' := if depth + i <=? Z.log2 count then depth + i else depth in
  (if u64 (Z.shiftl (2 ^ depth) i) <=? count then (u64 (Z.shiftl (2 ^ depth) i), depth + i)
   else (2 ^ depth, depth)) = (2 ^ d', d') /\
  0 <= d' <= 64 - i /\ d' <= Z.log2 count < d' + i.
Proof.
  intros Hc Hi Hd Hl d'.
  rewrite Z.shiftl_mul_pow2, <- Z.pow_add_r by lia.
  rewrite wrap_small by (split; [lia|apply Z.pow_lt_mono_r; lia]).
  assert (E : (2 ^ (depth + i) <=? count) = (depth + i <=? Z.log2 count)).
  { apply eq_true_iff_eq; rewrite !Z.leb_le, Z.log2_le_pow2 by lia; done. }
  rewrite E; subst d'; destruct (Z.leb_spec (depth + i) (Z.log2 count)); (split; [done|lia]).
Qed.

Lemma branch_cnt_spec count : 0 < count < 2 ^ 63 ->
  branch_cnt count = (2 ^ Z.log2 count, Z.log2 count).
Proof.
  intros Hc; unfold branch_cnt; change (1, 0) with (2 ^ 0, 0); cbn [fold_left].
  assert (H0 : 0 <= Z.log2 count < 64).
  { split; [apply Z.log2_nonneg|]; apply Z.log2_lt_pow2; lia. }
  destruct (branch_step count 0 32 Hc) as (E1 & R1 & L1); [lia..|]; rewrite E1; clear E1.
  revert R1 L1; generalize (if 0 + 32 <=? Z.log2 count then 0 + 32 else 0); intros d1 R1 L1.
  destruct (branch_step count d1 16 Hc) as (E2 & R2 & L2); [lia..|]; rewrite E2; clear E2.
  revert R2 L2; generalize (if d1 + 16 <=? Z.log2 count then d1 + 16 else d1); intros d2 R2 L2.
  destruct (branch_step count d2 8 Hc) as (E3 & R3 & L3); [lia..|]; rewrite E3; clear E3.
  revert R3 L3; generalize (if d2 + 8 <=? Z.log2 count then d2 + 8 else d2); intros d3 R3 L3.
  destruct (branch_step count d3 4 Hc) as (E4 & R4 & L4); [lia..|]; rewrite E4; clear E4.
  revert R4 L4; generalize (if d3 + 4 <=? Z.log2 count then d3 + 4 else d3); intros d4 R4 L4.
  destruct (branch_step count d4 2 Hc) as (E5 & R5 & L5); [lia..|]; rewrite E5; clear E5.
  revert R5 L5; generalize (if d4 + 2 <=? Z.log2 count then d4 + 2 else d4); intros d5 R5 L5.
  destruct (branch_step count d5 1 Hc) as (E6 & R6 & L6); [lia..|]; rewrite E6; clear E6.
  revert R6 L6; generalize (if d5 + 1 <=? Z.log2 count then d5 + 1 else d5); intros d6 R6 L6.
  replace d6 with (Z.log2 count) by lia; done.
Qed.

(** [tree_depth] halves the range of the logarithm at each step. *)
Lemma tree_depth_step c d i : 0 < c -> 0 < i -> Z.log2 c < 2 * i ->
  exists c' d', (if Z.shiftr c i >? 0 then (Z.shiftr c i, d + i) else (c, d)) = (c', d') /\
    0 < c' /\ Z.log2 c' < i /\ d' + Z.log2 c' = d + Z.log2 c.
Proof.
  intros Hc Hi Hl; rewrite Z.gtb_ltb; destruct (Z.ltb_spec 0 (Z.shiftr c i)) as [H|H].
  - eexists _, _; split; [done|]; split; [done|].
    rewrite Z.log2_shiftr by done; pose proof (Z.log2_nonneg (Z.shiftr c i)) as Hn.
    assert (i <= Z.log2 c); [|lia].
    apply Z.log2_le_pow2; [done|]; rewrite Z.shiftr_div_pow2 in H by lia.
    destruct (Z.lt_ge_cases c (2 ^ i)) as [G|]; [|done].
    rewrite Z.div_small in H; lia.
  - exists c, d; split_and!; try done; apply Z.log2_lt_pow2; [done|].
    rewrite Z.shiftr_div_pow2 in H by lia; pose proof (Z.pow_pos_nonneg 2 i).
    destruct (Z.lt_ge_cases c (2 ^ i)) as [|G]; [done|].
    pose proof (Z.div_str_pos c (2 ^ i)); lia.
Qed.

Lemma tree_depth_log2 count : 0 < count < 2 ^ 64 -> tree_depth count = Z.log2 count.
Proof.
  intros Hc; unfold tree_depth; cbn [fold_left].
  assert (Z.log2 count < 2 * 32) by (apply Z.log2_lt_pow2; lia).
  destruct (tree_depth_step count 0 32) as (c1 & d1 & -> & ? & ? & ?); [lia..|].
  destruct (tree_depth_step c1 d1 16) as (c2 & d2 & -> & ? & ? & ?); [lia..|].
  destruct (tree_depth_step c2 d2 8) as (c3 & d3 & -> & ? & ? & ?); [lia..|].
  destruct (tree_depth_step c3 d3 4) as (c4 & d4 & -> & ? & ? & ?); [lia..|].
  destruct (tree_depth_step c4 d4 2) as (c5 & d5 & -> & ? & ? & ?); [lia..|].
  destruct (tree_depth_step c5 d5 1) as (c6 & d6 & -> & ? & ? & ?); [lia..|].
  pose proof (Z.log2_nonneg c6); simpl; lia.
Qed.

(** The depth used for a list of hashes. *)
Definition depth_of (hashes : list Hash) : nat := Z.to_nat (Z.log2 (Z.of_nat (length hashes))).

Lemma log2_nat_bounds n : (0 < n)%nat ->
  let d := Z.to_nat (Z.log2 (Z.of_nat n)) in (2 ^ d <= n < 2 * 2 ^ d)%nat.
Proof.
  intros Hn d; pose proof (Z.log2_spec (Z.of_nat n) ltac:(lia)) as H.
  pose proof (Z.log2_nonneg (Z.of_nat n)); rewrite Z.pow_succ_r in H by lia.
  assert (E : Z.of_nat (2 ^ d) = 2 ^ Z.log2 (Z.of_nat n)).
  { rewrite Nat2Z.inj_pow; subst d; rewrite Z2Nat.id by lia; done. }
  lia.
Qed.

Lemma pow2_to_nat k : 0 <= k -> Z.to_nat (2 ^ k) = (2 ^ Z.to_nat k)%nat.
Proof. intros; rewrite Z2Nat.inj_pow by lia; done. Qed.

Lemma tree_hash_spec hashes :
  (2 <= length hashes)%nat -> Z.of_nat (length hashes) < 2 ^ 63 ->
  let k := Z.to_nat (Z.log2 (Z.of_nat (length hashes) - 1)) in
  tree_hash hashes = merkle k (leaf_level k hashes).
Proof.
  intros H2 H63 k; unfold tree_hash.
  rewrite (proj2 (Nat.eqb_neq _ _)) by lia.
  destruct (Nat.eqb_spec (length hashes) 2) as [E|E].
  { destruct hashes as [|a [|b [|]]]; simpl in E; try lia; done. }
  rewrite tree_hash_cnt_spec, pow2_to_nat by (lia || apply Z.log2_nonneg); fold k.
  pose proof (log2_nat_bounds (length hashes - 1) ltac:(lia)) as Hb.
  rewrite Nat2Z.inj_sub in Hb by lia; change (Z.of_nat 1) with 1 in Hb; fold k in Hb.
  cbv zeta in Hb |- *; rewrite leaf_level_ints by lia.
  assert (Hlen := leaf_level_length k hashes ltac:(lia) ltac:(lia)).
  destruct k as [|k'] eqn:Ek; [simpl in Hb; lia|].
  assert (k' <= 64)%nat.
  { assert (Z.log2 (Z.of_nat (length hashes) - 1) < 63) by (apply Z.log2_lt_pow2; lia). lia. }
  rewrite tree_hash_loop_spec by lia; rewrite take_ge by lia; done.
Qed.

(** *** Branches *)

(** Climbing from a node with the hashes [branch[depth-1] .. branch[0]]. *)
Fixpoint climb (path : option (list Z)) (branch : list Hash) (depth : nat) (node : Hash) : Hash :=
  match depth with
  | O => node
  | S depth =>
    climb path branch depth
      (if path_bit path depth then hash2 (at_ branch depth) node
       else hash2 node (at_ branch depth))
  end.

Lemma from_branch_loop_climb path branch leaf depth buffer :
  let b := from_branch_loop path branch leaf depth buffer false in
  hash2 b.1 b.2 = climb path branch depth (hash2 buffer.1 buffer.2).
Proof.
  revert buffer; induction depth as [|d IH]; intros buffer; [done|].
  cbn [from_branch_loop climb]; cbv zeta; rewrite IH.
  destruct (path_bit path d); done.
Qed.

Lemma tree_hash_from_branch_climb path branch leaf depth :
  tree_hash_from_branch branch depth leaf path = climb path branch depth leaf.
Proof.
  destruct depth as [|d]; [done|]; unfold tree_hash_from_branch.
  cbn [from_branch_loop climb]; rewrite from_branch_loop_climb.
  destruct (path_bit path d); done.
Qed.

Lemma tree_branch_loop_length d ints cnt : length (tree_branch_loop d ints cnt) = d.
Proof.
  revert ints cnt; induction d as [|d IH]; intros ints cnt; simpl; [done|].
  rewrite length_app, IH; simpl; lia.
Qed.

Lemma climb_ext path br br' d node :
  (forall i, (i < d)%nat -> at_ br i = at_ br' i) -> climb path br d node = climb path br' d node.
Proof.
  revert node; induction d as [|d IH]; intros node H; [done|].
  simpl; rewrite H by lia; destruct (path_bit path d); apply IH; auto.
Qed.

Lemma climb_tree_branch d level ints :
  length level = (2 ^ d)%nat -> take (2 ^ d - 1) ints = drop 1 level ->
  climb None (tree_branch_loop d ints (2 ^ d)) d (at_ level 0) = merkle d level.
Proof.
  revert level ints; induction d as [|d IH]; intros level ints Hl Hi; [done|].
  pose proof (pow2_pos d); pose proof (pow2_S d) as HS.
  cbn [tree_branch_loop climb merkle path_bit].
  replace (2 ^ S d / 2)%nat with (2 ^ d)%nat by
    (rewrite HS, Nat.mul_comm, Nat.div_mul; done).
  destruct level as [|a [|b level]]; cbn [length] in Hl; try lia.
  cbn [drop] in Hi; set (n := (2 ^ d - 1)%nat).
  assert (Hlen : (2 * n + 1 <= length ints)%nat).
  { apply (f_equal length) in Hi; rewrite length_take in Hi; cbn [length] in Hi; lia. }
  destruct ints as [|b' ints]; [cbn [length] in Hlen; lia|].
  replace (2 ^ S d - 1)%nat with (S (2 * n)) in Hi by lia; cbn [take] in Hi.
  injection Hi as -> Hi; change (n + (n + 0))%nat with (2 * n)%nat in Hi; cbn [length] in Hlen.
  rewrite (climb_ext _ _ (tree_branch_loop d (pair_loop (b :: ints) 1 0 n) (2 ^ d))); cycle 1.
  { intros i Hid; unfold at_; rewrite lookup_app_l; [done|]; by rewrite tree_branch_loop_length. }
  unfold at_ at 2; rewrite lookup_app_r by (rewrite tree_branch_loop_length; lia).
  rewrite tree_branch_loop_length, Nat.sub_diag; cbn [lookup list_lookup default].
  apply (IH (pairs (a :: b :: level))).
  - apply pairs_full; cbn [length]; lia.
  - fold n; rewrite pair_loop_spec by (cbn [length]; lia).
    cbn [take app drop pairs]; rewrite !drop_0, Hi.
    assert (Hp : length (pairs level) = n).
    { rewrite pairs_length; replace (length level) with (n * 2)%nat by lia.
      by rewrite Nat.div_mul. }
    rewrite take_app_le, take_ge by lia; done.
Qed.

Lemma tree_branch_spec hashes :
  (1 <= length hashes)%nat -> Z.of_nat (length hashes) < 2 ^ 63 ->
  let d := depth_of hashes in
  climb None (tree_branch hashes) d (at_ hashes 0) = merkle d (leaf_level d hashes) /\
  length (tree_branch hashes) = d.
Proof.
  intros H1 H63 d; unfold tree_branch.
  rewrite branch_cnt_spec, pow2_to_nat by (lia || apply Z.log2_nonneg).
  fold (depth_of hashes); fold d.
  pose proof (log2_nat_bounds (length hashes) ltac:(lia)) as Hb; cbv zeta in Hb.
  fold (depth_of hashes) in Hb; fold d in Hb.
  split; [|apply tree_branch_loop_length].
  assert (Hlen := leaf_level_length d hashes ltac:(lia) ltac:(lia)).
  rewrite <- (leaf_level_ints d hashes) in * by lia; cbv zeta in *.
  set (keep := (2 * 2 ^ d - length hashes)%nat) in *.
  set (rest := pair_leaves hashes keep (2 ^ d - keep)) in *.
  destruct hashes as [|h hashes]; [simpl in H1; lia|].
  destruct keep as [|keep'] eqn:Ek; [lia|]; cbn [take drop app Nat.sub] in *.
  rewrite Nat.sub_0_r; change (at_ (h :: hashes) 0) with (at_ (h :: take keep' hashes ++ rest) 0).
  apply climb_tree_branch; [done|]; cbn [drop length] in *; rewrite !drop_0; apply take_ge; lia.
Qed.

(** [tree_hash_cnt] and the search of [tree_branch] agree on the tree. *)
Lemma tree_hash_merkle hashes :
  (1 <= length hashes)%nat -> Z.of_nat (length hashes) < 2 ^ 63 ->
  let d := depth_of hashes in tree_hash hashes = merkle d (leaf_level d hashes).
Proof.
  intros H1 H63 d.
  destruct (decide (length hashes = 1)%nat) as [E|E].
  { destruct hashes as [|h [|]]; simpl in E; done. }
  rewrite tree_hash_spec by lia; cbv zeta.
  pose proof (log2_nat_bounds (length hashes) ltac:(lia)) as Hb; cbv zeta in Hb.
  fold (depth_of hashes) in Hb; fold d in Hb.
  assert (HZ : Z.of_nat (2 ^ d) = 2 ^ Z.of_nat d) by (by rewrite Nat2Z.inj_pow).
  destruct (decide (length hashes = 2 ^ d)%nat) as [Ed|Ed].
  - (* a power of two: the leaves are a complete level themselves *)
    destruct d as [|d']; [simpl in Ed; lia|]; pose proof (pow2_S d') as HS.
    replace (Z.log2 (Z.of_nat (length hashes) - 1)) with (Z.of_nat d').
    + rewrite Nat2Z.id; unfold leaf_level.
      replace (2 * 2 ^ d' - length hashes)%nat with O by lia.
      replace (2 * 2 ^ S d' - length hashes)%nat with (length hashes) by lia.
      rewrite take_0, drop_0, firstn_all, drop_all; simpl; by rewrite app_nil_r.
    + symmetry; apply Z.log2_unique; [lia|]; rewrite <- Nat2Z.inj_succ.
      rewrite <- !(Nat2Z.inj_pow 2); lia.
  - replace (Z.log2 (Z.of_nat (length hashes) - 1)) with (Z.of_nat d); [by rewrite Nat2Z.id|].
    symmetry; apply Z.log2_unique; [lia|]; rewrite <- Nat2Z.inj_succ.
    rewrite <- !(Nat2Z.inj_pow 2), pow2_S; lia.
Qed.

(** tree_hash computes the Merkle root of the leaf level (the last hashes
    are paired until a power of two is left), tree_branch has tree_depth
    elements, and tree_hash_from_branch rebuilds the root from the first leaf
    and its branch, for every number of hashes from 1 to 2^63. *)
Theorem merkle_branch_correct hashes :
  (1 <= length hashes)%nat -> Z.of_nat (length hashes) < 2 ^ 63 ->
  let d := depth_of hashes in
  tree_hash hashes = merkle d (leaf_level d hashes) /\
  length (tree_branch hashes) = d /\ tree_depth (Z.of_nat (length hashes)) = Z.of_nat d /\
  tree_hash_from_branch (tree_branch hashes) d (at_ hashes 0) None = tree_hash hashes.
Proof.
  intros H1 H63 d; rewrite tree_hash_from_branch_climb.
  destruct (tree_branch_spec hashes H1 H63) as [E1 E2].
  rewrite tree_hash_merkle, tree_depth_log2 by (done || lia); split_and!; try done.
  symmetry; apply Z2Nat.id, Z.log2_nonneg.
Qed.

(** *** Binding *)

Definition branch_input (path : option (list Z)) (branch : list Hash) (depth : nat)
    (node : Hash) : list Z :=
  if path_bit path depth then at_ branch depth ++ node else node ++ at_ branch depth.

(** The first level at which two branches hash different inputs to the same value. *)
Fixpoint find_collision (path : option (list Z)) (br br' : list Hash) (depth : nat)
    (node node' : Hash) : option (list Z * list Z) :=
  match depth with
  | O => None
  | S depth =>
    let x := branch_input path br depth node in
    let y := branch_input path br' depth node' in
    if decide (x <> y /\ cn_fast_hash x = cn_fast_hash y) then Some (x, y)
    else find_collision path br br' depth (cn_fast_hash x) (cn_fast_hash y)
  end.

Lemma climb_step path br d node :
  climb path br (S d) node = climb path br d (cn_fast_hash (branch_input path br d node)).
Proof. simpl; unfold branch_input, hash2; destruct (path_bit path d); done. Qed.

Lemma branch_input_inj path br br' d node node' :
  length node = 32%nat -> length node' = 32%nat ->
  length (at_ br d) = 32%nat -> length (at_ br' d) = 32%nat ->
  branch_input path br d node = branch_input path br' d node' ->
  node = node' /\ at_ br d = at_ br' d.
Proof.
  intros; unfold branch_input in *; destruct (path_bit path d);
    match goal with H : _ ++ _ = _ ++ _ |- _ => apply app_inj_1 in H; [|lia] end; naive_solver.
Qed.

Lemma climb_binding path br br' depth leaf leaf' :
  length leaf = 32%nat -> length leaf' = 32%nat ->
  (forall i, (i < depth)%nat -> length (at_ br i) = 32%nat /\ length (at_ br' i) = 32%nat) ->
  climb path br depth leaf = climb path br' depth leaf' ->
  (leaf <> leaf' \/ exists i, (i < depth)%nat /\ at_ br i <> at_ br' i) ->
  exists x y, find_collision path br br' depth leaf leaf' = Some (x, y) /\
    x <> y /\ cn_fast_hash x = cn_fast_hash y.
Proof.
  revert leaf leaf'.
  induction depth as [|d IH]; intros leaf leaf' Hl Hl' Hbr Heq Hdiff.
  { simpl in Heq; destruct Hdiff as [|(i & Hi & _)]; [done|lia]. }
  rewrite !climb_step in Heq; cbn [find_collision].
  destruct (Hbr d ltac:(lia)) as [Hd Hd'].
  set (x := branch_input path br d leaf) in *; set (y := branch_input path br' d leaf') in *.
  case_decide as Hc; [exists x, y; naive_solver|].
  apply IH; try apply cn_fast_hash_length; [intros; apply Hbr; lia|done|].
  destruct (decide (cn_fast_hash x = cn_fast_hash y)) as [E|E]; [right|by left].
  assert (x = y) as Exy by (destruct (decide (x = y)); naive_solver).
  apply branch_input_inj in Exy as [-> Ed]; try done.
  destruct Hdiff as [|(i & Hi & Hne)]; [done|]; exists i; split; [|done].
  destruct (decide (i = d)) as [->|]; [done|lia].
Qed.

(** Two different leaves or branches of the same depth and path that
    tree_hash_from_branch maps to one root give a collision of the hash
    function, found by walking the two branches. *)
Theorem merkle_branch_binding path br br' depth leaf leaf' :
  length leaf = 32%nat -> length leaf' = 32%nat ->
  (forall i, (i < depth)%nat -> length (at_ br i) = 32%nat /\ length (at_ br' i) = 32%nat) ->
  tree_hash_from_branch br depth leaf path = tree_hash_from_branch br' depth leaf' path ->
  (leaf <> leaf' \/ exists i, (i < depth)%nat /\ at_ br i <> at_ br' i) ->
  exists x y, find_collision path br br' depth leaf leaf' = Some (x, y) /\
    x <> y /\ cn_fast_hash x = cn_fast_hash y.
Proof. rewrite !tree_hash_from_branch_climb; apply climb_binding. Qed.

End Tree.

#[local] Existing Instance Keccak.keccak_FastHash.

Lemma merkle_branch_correct_witness :
  let hashes := map (fun i => repeat i 32) [1; 2; 3; 4; 5] in
  tree_hash_from_branch (tree_branch hashes) 2 (repeat 1 32) None = tree_hash hashes.
Proof. intros hashes; apply (merkle_branch_correct hashes); simpl; lia.
Defined.

(** A hash that keeps the first byte: two branches that collide. *)
Definition weak_hash (m : list Z) : list Z := u8 (hd 0 m) :: repeat 0 31.

Program Definition weak_FastHash : FastHash :=
  {| cn_fast_hash := weak_hash |}.
Next Obligation. done. Qed.
Next Obligation.
  intros; unfold weak_hash; apply List.Forall_cons; [apply wrap_range; lia|].
  apply List.Forall_forall; intros x Hx; apply repeat_spec in Hx; subst; mlia.
Qed.

Lemma merkle_branch_binding_witness :
  exists x y, find_collision (FH := weak_FastHash) None [repeat 1 32] [repeat 2 32] 1
      (repeat 7 32) (repeat 7 32) = Some (x, y) /\ x <> y.
Proof.
  destruct (merkle_branch_binding (FH := weak_FastHash) None [repeat 1 32] [repeat 2 32] 1
    (repeat 7 32) (repeat 7 32)) as (x & y & H1 & H2 & _).
  - reflexivity.
  - reflexivity.
  - intros [|i] Hi; [split; reflexivity|lia].
  - vm_compute; reflexivity.
  - right; exists O; split; [lia|vm_compute; congruence].
  - exists x, y; split; assumption.
Defined.

End TreeHash.
