(* ===== verification/Serialization.v ===== *)
(** Binary serialization of transactions
    (src/src/CryptoNoteCore/CryptoNoteSerialization.cpp, the binary serializers
    under src/src/Serialization, and to/fromBinaryArray of
    src/src/CryptoNoteCore/CryptoNoteTools.h).

    The C++ code has one [serialize] function per type, run against an output or
    an input serializer.  The model has the two runs: a writer ([put_*], a byte
    string or an error) and a reader ([get_*], a parser in an error monad over the
    remaining input).  The class [Exact] states the law of such a pair: the reader
    accepts exactly the strings the writer produces on valid values; [Writes]
    states that the writer succeeds on valid values and produces bytes. *)

From S2P Require Import Prelude.
From S2P Require Import Config.
From S2P Require Import Types.
From S2P Require Import Varint.

Module Serialization.

(** ** Writers and parsers *)

Abbreviation writer := (result stream_error (list Z)).
Definition parser (A : Type) : Type := list Z -> result stream_error (A * list Z).

Definition wseq (a b : writer) : writer := let! x := a in let! y := b in Ok (x ++ y).
Infix "+++" := wseq (at level 60, right associativity).

Fixpoint wconcat (l : list writer) : writer :=
  match l with [] => Ok [] | w :: l => w +++ wconcat l end.

#[export] Instance parser_ret : MRet parser := fun A a bs => Ok (a, bs).
#[export] Instance parser_bind : MBind parser := fun A B k m bs =>
  match m bs with Ok (a, rest) => k a rest | Err e => Err e end.

Definition pfail {A} (e : stream_error) : parser A := fun _ => Err e.

(** A size read from the stream that exceeds the bytes left fails, in an
    allocation or in a later read. *)
Definition sized {A} (size : Z) (p : parser A) : parser A := fun bs =>
  if Z.of_nat (length bs) <? size then Err FailedToRead else p bs.

(** ** Primitive types *)

(** BinaryOutputStreamSerializer and BinaryInputStreamSerializer on unsigned
    integers of width [w]. *)
Definition put_varint (v : Z) : writer := Ok (Varint.writeVarint v).
Definition get_varint (w : Z) : parser Z := Varint.readVarint w.

(** [binary(void*, size)]: Common::read of exactly [n] bytes. *)
Definition put_binary (data : list Z) : writer := Ok data.
Definition get_binary (n : nat) : parser (list Z) := fun bs =>
  if (length bs <? n)%nat then Err FailedToRead else Ok (take n bs, drop n bs).

(** [std::string] with its size, under any name but "mm_tag". *)
Definition put_string (value : list Z) : writer :=
  put_varint (Z.of_nat (length value)) +++ Ok value.
Definition get_string : parser (list Z) :=
  size ← get_varint 64; sized size (get_binary (Z.to_nat size)).

(** serializeContainer: the size, then the elements, each of at least a byte. *)
Definition put_vector {A} (put : A -> writer) (l : list A) : writer :=
  put_varint (Z.of_nat (length l)) +++ wconcat (map put l).

Fixpoint get_n {A} (get : parser A) (n : nat) : parser (list A) :=
  match n with
  | O => mret []
  | S n => x ← get; l ← get_n get n; mret (x :: l)
  end.

Definition get_vector {A} (get : parser A) : parser (list A) :=
  size ← get_varint 64; sized size (get_n get (Z.to_nat size)).

(** ** Transactions *)

Definition put_KeyInput (k : KeyInput) : writer :=
  put_varint (ki_amount k) +++ put_vector put_varint (ki_outputIndexes k)
  +++ put_binary (ki_keyImage k).

Definition get_KeyInput : parser KeyInput :=
  amount ← get_varint 64;
  outputIndexes ← get_vector (get_varint 32);
  keyImage ← get_binary 32;
  mret (mkKeyInput amount outputIndexes keyImage).

(** BinaryVariantTagGetter *)
Definition input_tag (i : TransactionInput) : Z :=
  match i with InBase _ => 255 | InKey _ => 2 end.

Definition put_TransactionInput (i : TransactionInput) : writer :=
  put_binary [input_tag i] +++
  match i with InBase blockIndex => put_varint blockIndex | InKey k => put_KeyInput k end.

Definition get_TransactionInput : parser TransactionInput :=
  tag ← get_binary 1;
  if decide (tag = [255]) then blockIndex ← get_varint 32; mret (InBase blockIndex)
  else if decide (tag = [2]) then k ← get_KeyInput; mret (InKey k)
  else pfail SerializationError.

Definition put_TransactionOutput (o : TransactionOutput) : writer :=
  put_varint (o_amount o) +++ put_binary [2] +++
  match o_target o with OutKey key => put_binary key end.

Definition get_TransactionOutput : parser TransactionOutput :=
  amount ← get_varint 64;
  tag ← get_binary 1;
  if decide (tag = [2]) then key ← get_binary 32; mret (mkOutput amount (OutKey key))
  else pfail SerializationError.

Definition put_TransactionPrefix (t : TransactionPrefix) : writer :=
  put_varint (tx_version t) +++ put_varint (tx_unlockTime t) +++
  put_vector put_TransactionInput (tx_inputs t) +++
  put_vector put_TransactionOutput (tx_outputs t) +++
  put_string (tx_extra t).

Definition get_TransactionPrefix : parser TransactionPrefix :=
  version ← get_varint 8;
  if CURRENT_TRANSACTION_VERSION <? version then pfail SerializationError
  else
    unlockTime ← get_varint 64;
    inputs ← get_vector get_TransactionInput;
    outputs ← get_vector get_TransactionOutput;
    extra ← get_string;
    mret (mkPrefix version unlockTime inputs outputs extra).

Definition getSignaturesCount (i : TransactionInput) : nat :=
  match i with InBase _ => O | InKey k => length (ki_outputIndexes k) end.

(** Writing the signatures: none expected, or one list per input. *)
Definition put_signatures (inputs : list TransactionInput)
    (signatures : list (list Signature)) : writer :=
  let signaturesNotExpected := (length signatures =? 0)%nat in
  if negb signaturesNotExpected && negb (length inputs =? length signatures)%nat
  then Err SerializationError
  else if signaturesNotExpected then
    (if forallb (fun i => (getSignaturesCount i =? 0)%nat) inputs then Ok []
     else Err SerializationError)
  else wconcat (zip_with (fun i sigs =>
         if negb (getSignaturesCount i =? length sigs)%nat then Err SerializationError
         else wconcat (map put_binary sigs)) inputs signatures).

Fixpoint get_signatures (inputs : list TransactionInput) : parser (list (list Signature)) :=
  match inputs with
  | [] => mret []
  | i :: inputs =>
    sigs ← get_n (get_binary 64) (getSignaturesCount i);
    rest ← get_signatures inputs;
    mret (sigs :: rest)
  end.

(** [sigSize == 1 && tx.inputs[0].type() == typeid(BaseInput)] *)
Definition is_base (inputs : list TransactionInput) : bool :=
  match inputs with [InBase _] => true | _ => false end.

Definition put_Transaction (t : Transaction) : writer :=
  put_TransactionPrefix (tx_prefix t) +++ put_signatures (tx_inputs t) (tx_signatures t).

Definition get_Transaction : parser Transaction :=
  p ← get_TransactionPrefix;
  if is_base (tx_inputs p) then mret (mkTransaction p [])
  else sigs ← get_signatures (tx_inputs p); mret (mkTransaction p sigs).

Definition put_AccountPublicAddress (a : AccountPublicAddress) : writer :=
  put_binary (spendPublicKey a) +++ put_binary (viewPublicKey a).

Definition get_AccountPublicAddress : parser AccountPublicAddress :=
  spend ← get_binary 32; view ← get_binary 32; mret (mkAddress spend view).

(** fromBinaryArray: everything must be consumed. *)
Definition fromBinaryArray {A} (get : parser A) (binaryArray : BinaryArray)
  : result stream_error A :=
  match get binaryArray with
  | Ok (a, []) => Ok a
  | Ok (_, _ :: _) => Err SerializationError
  | Err e => Err e
  end.

(** ** The interface *)

(** Readers accept exactly what the writer produces for a valid value. *)
Definition exact {A} (ok : A -> Prop) (put : A -> writer) (get : parser A) : Prop :=
  forall bs a rest, Forall is_byte bs ->
    (get bs = Ok (a, rest) <-> ok a /\ exists pre, put a = Ok pre /\ bs = pre ++ rest).

(** A writer that succeeds and produces bytes. *)
Definition written (w : writer) : Prop := exists pre, w = Ok pre /\ Forall is_byte pre.

Class Writes {A} (ok : A -> Prop) (put : A -> writer) :=
  writes : forall a, ok a -> written (put a).

Lemma wseq_Ok a b bs : a +++ b = Ok bs <-> exists x y, a = Ok x /\ b = Ok y /\ bs = x ++ y.
Proof.
  unfold wseq; rewrite rbind_Ok; split.
  - intros (x & -> & H); apply rbind_Ok in H as (y & -> & [= <-]); eauto.
  - intros (x & y & -> & -> & ->); eexists; split; [done|]; simpl; done.
Qed.

Lemma pbind_Ok {A B} (m : parser A) (k : A -> parser B) bs b rest :
  (m ≫= k) bs = Ok (b, rest) <->
  exists a mid, m bs = Ok (a, mid) /\ k a mid = Ok (b, rest).
Proof.
  unfold mbind, parser_bind; destruct (m bs) as [[a mid]|e]; split.
  - eauto.
  - intros (? & ? & [= <- <-] & H); done.
  - done.
  - intros (? & ? & ? & _); done.
Qed.

Lemma pret_Ok {A} (a b : A) bs rest : mret (M := parser) a bs = Ok (b, rest) <-> b = a /\ rest = bs.
Proof. unfold mret, parser_ret; split; [intros [= <- <-]; done|intros [-> ->]; done]. Qed.

Lemma written_Ok l : Forall is_byte l -> written (Ok l).
Proof. intros; by exists l. Qed.

Lemma written_seq a b : written a -> written b -> written (a +++ b).
Proof.
  intros (x & -> & Hx) (y & -> & Hy); exists (x ++ y); split; [done|by apply Forall_app].
Qed.

Lemma written_concat {A} (put : A -> writer) l :
  Forall (fun a => written (put a)) l -> written (wconcat (map put l)).
Proof.
  induction 1; [by apply written_Ok|]; by apply written_seq.
Qed.

Lemma written_varint v : 0 <= v -> written (put_varint v).
Proof.
  intros Hv; apply written_Ok; rewrite Varint.writeVarint_eq; by apply Varint.write_varint_bytes.
Qed.

#[export] Hint Resolve written_Ok written_seq written_varint : written.

(** Readers known to be exact, found by their parser. *)
Class Exact {A} (get : parser A) (ok : A -> Prop) (put : A -> writer) :=
  exactness : exact ok put get.
#[export] Hint Mode Exact ! ! - - : typeclass_instances.

Lemma exact_elim {A} (get : parser A) ok put `{!Exact get ok put} bs a rest :
  Forall is_byte bs -> get bs = Ok (a, rest) ->
  ok a /\ exists pre, put a = Ok pre /\ bs = pre ++ rest.
Proof. intros Hbs H; by apply exactness in H. Qed.

Lemma exact_intro {A} (get : parser A) ok put `{!Exact get ok put} a pre rest :
  Forall is_byte (pre ++ rest) -> ok a -> put a = Ok pre -> get (pre ++ rest) = Ok (a, rest).
Proof. intros Hbs H1 H2; apply exactness; [done|]; eauto. Qed.

(** Replaces [H : get bs = Ok (a, rest)] by what exactness says of it. *)
Ltac get_exact H Hbs :=
  let Hok := fresh "Hok" in let pre := fresh "pre" in let Hp := fresh "Hp" in
  match type of H with
  | ?get ?bs = Ok _ =>
    destruct (exact_elim get _ _ bs _ _ Hbs H) as (Hok & pre & Hp & ->); clear H
  end.

(** Takes one bind of [H : (m ≫= k) bs = Ok _] apart; [Hbs : Forall is_byte bs]. *)
Ltac get_step H Hbs :=
  let a := fresh "v" in let mid := fresh "mid" in let Ha := fresh "Hv" in
  apply pbind_Ok in H as (a & mid & Ha & H);
  get_exact Ha Hbs;
  apply Forall_app in Hbs as [_ Hbs].

(** Proves [w1 +++ ... +++ wn = Ok ?pre] from the [wi = Ok _] in the context. *)
Ltac put_seq :=
  lazymatch goal with
  | |- (_ +++ _) = Ok _ =>
    apply wseq_Ok; do 2 eexists; split; [put_seq|split; [put_seq|reflexivity]]
  | |- _ => first [eassumption | reflexivity]
  end.

(** Takes [H : w1 +++ ... +++ wn = Ok pre] apart. *)
Ltac put_inv H :=
  repeat (lazymatch type of H with (_ +++ _) = Ok _ =>
            let x := fresh "pre" in let Hx := fresh "Hp" in
            apply wseq_Ok in H as (x & ? & Hx & H & ->) end).

Ltac bytes_app :=
  repeat match goal with
  | H : Forall is_byte (_ ++ _) |- _ => apply Forall_app in H as [? ?]
  end.

Ltac bytes_solve :=
  repeat (apply Forall_app; split); assumption.

(** Runs a reader on the concatenation of what the writers produced, leaving the
    validity of the value read. *)
Ltac run_step :=
  apply pbind_Ok; do 2 eexists;
  split; [eapply exact_intro; [apply _|bytes_solve| |cbv beta; eassumption]|].

(** *** Primitive types *)

#[export] Instance varint_exact w : TCEq (bool_decide (8 <= w <= 64)) true ->
  Exact (get_varint w) (in_u w) put_varint.
Proof.
  intros Hw%TCEq_eq%bool_decide_eq_true bs v rest Hbs; unfold get_varint, put_varint; split.
  - intros [? ->]%Varint.readVarint_sound; [|done..]; eauto.
  - intros (Hv & pre & [= <-] & ->); by apply Varint.readVarint_complete.
Qed.

#[export] Instance binary_exact n : Exact (get_binary n) (wf_blob n) put_binary.
Proof.
  intros bs v rest Hbs; unfold get_binary, put_binary, wf_blob.
  destruct (Nat.ltb_spec (length bs) n); split.
  - done.
  - intros ((Hl & _) & pre & [= ->] & ->); rewrite length_app in *; lia.
  - intros [= <- <-]; rewrite length_take; split; [split; [lia|by apply Forall_take]|].
    eexists; split; [done|]; by rewrite take_drop.
  - intros ((Hl & _) & pre & [= ->] & ->); by rewrite <- Hl, take_app_length, drop_app_length.
Qed.

Lemma put_varint_nonempty v : 0 <= v -> put_varint v <> Ok [].
Proof. intros Hv [= H]; rewrite Varint.writeVarint_eq in H; by apply Varint.write_varint_pos in H. Qed.

#[export] Instance get_n_exact {A} (get : parser A) ok put n `{!Exact get ok put} :
  Exact (get_n get n) (fun l => length l = n /\ Forall ok l) (fun l => wconcat (map put l)).
Proof.
  induction n as [|n IH]; intros bs l rest Hbs; cbn [get_n].
  { rewrite pret_Ok; split.
    - intros [-> ->]; split; [done|]; by exists [].
    - intros ((Hl & _) & pre & Hp & ->); destruct l; [|done].
      injection Hp as <-; done. }
  split.
  - intros H; get_step H Hbs.
    apply pbind_Ok in H as (l' & mid' & Hl & H); apply pret_Ok in H as [-> ->].
    apply IH in Hl as ((Hlen & Hall) & pre' & Hp' & ->); [|done].
    split; [split; [simpl; lia|by constructor]|].
    eexists; split; [cbn [map wconcat]; put_seq|]; by rewrite <- app_assoc.
  - intros ((Hl & Hall) & pre & Hp & ->); destruct l as [|x l]; [done|].
    apply Forall_cons in Hall as [Hx Hall]; cbn [map wconcat] in Hp; apply wseq_Ok in Hp
      as (p1 & p2 & H1 & H2 & ->); rewrite <- app_assoc in *; bytes_app.
    run_step; [done|]; apply pbind_Ok; exists l, rest; split; [|by apply pret_Ok].
    bytes_app; apply IH; [by apply Forall_app|]; split; [simpl in Hl; split; [lia|done]|eauto].
Qed.

Lemma wconcat_length {A} (ok : A -> Prop) (put : A -> writer) l pre :
  (forall a, ok a -> put a <> Ok []) -> Forall ok l -> wconcat (map put l) = Ok pre ->
  (length l <= length pre)%nat.
Proof.
  intros Hne Hall; revert pre; induction Hall as [|x l Hx _ IH]; intros pre Hp; [simpl; lia|].
  cbn [map wconcat] in Hp; apply wseq_Ok in Hp as (p1 & p2 & H1 & H2 & ->).
  apply IH in H2; rewrite length_app; cbn [length].
  destruct p1; [by apply Hne in H1|simpl; lia].
Qed.

(** Vectors of values of at least a byte. *)
Class NonEmpty {A} (ok : A -> Prop) (put : A -> writer) :=
  nonempty : forall a, ok a -> put a <> Ok [].

Definition ok_vector {A} (ok : A -> Prop) (l : list A) : Prop :=
  Forall ok l /\ Z.of_nat (length l) < 2 ^ 64.

#[export] Instance vector_exact {A} (get : parser A) ok put
    `{!Exact get ok put, !NonEmpty ok put} :
  Exact (get_vector get) (ok_vector ok) (put_vector put).
Proof.
  intros bs l rest Hbs; unfold get_vector, put_vector, ok_vector; split.
  - intros H; get_step H Hbs; unfold sized in H; case_match; [done|].
    get_exact H Hbs; destruct Hok0 as [Hl Hall].
    assert (Z.of_nat (length l) = v) as <- by (unfold in_u in Hok; lia).
    split; [unfold in_u in Hok; split; [done|lia]|].
    eexists; split; [put_seq|]; by rewrite <- app_assoc.
  - intros ((Hall & Hlen) & pre & (p1 & p2 & H1 & H2 & ->)%wseq_Ok & ->).
    rewrite <- app_assoc in *; bytes_app; run_step; [unfold in_u; lia|].
    bytes_app; pose proof (wconcat_length ok put l p2 nonempty Hall H2).
    unfold sized; rewrite (proj2 (Z.ltb_ge _ _)) by (rewrite length_app; lia).
    rewrite Nat2Z.id; eapply exact_intro; [apply _|by apply Forall_app|split; done|done].
Qed.

Definition ok_string (s : list Z) : Prop := Forall is_byte s /\ Z.of_nat (length s) < 2 ^ 64.

#[export] Instance string_exact : Exact get_string ok_string put_string.
Proof.
  intros bs l rest Hbs; unfold get_string, put_string, ok_string; split.
  - intros H; get_step H Hbs; unfold sized in H; case_match; [done|].
    get_exact H Hbs; destruct Hok0 as [Hl Hall]; injection Hp0 as <-.
    assert (Z.of_nat (length l) = v) as <- by (unfold in_u in Hok; lia).
    split; [unfold in_u in Hok; split; [done|lia]|].
    eexists; split; [put_seq|]; by rewrite <- app_assoc.
  - intros ((Hall & Hlen) & pre & (p1 & p2 & H1 & [= <-] & ->)%wseq_Ok & ->).
    rewrite <- app_assoc in *; bytes_app; run_step; [unfold in_u; lia|].
    bytes_app; unfold sized; rewrite (proj2 (Z.ltb_ge _ _)) by (rewrite length_app; lia).
    rewrite Nat2Z.id; eapply exact_intro; [apply _|by apply Forall_app|split; done|done].
Qed.

#[export] Instance varint_nonempty w : NonEmpty (in_u w) put_varint.
Proof. intros v [Hv _]; by apply put_varint_nonempty. Qed.

(** *** Transactions *)

Definition ok_KeyInput (k : KeyInput) : Prop :=
  in_u 64 (ki_amount k) /\ ok_vector (in_u 32) (ki_outputIndexes k) /\ wf_key (ki_keyImage k).

(** Closes the reading half once all binds are taken apart. *)
Ltac get_done H :=
  apply pret_Ok in H as [-> ->];
  split; [|eexists; split; [put_seq|rewrite <- ?app_assoc; reflexivity]].

(** Opens the writing half. *)
Ltac put_open :=
  let pre := fresh "pre" in let Hp := fresh "Hp" in
  intros (Hok & pre & Hp & ->); put_inv Hp; rewrite <- ?app_assoc in *; bytes_app.

#[export] Instance KeyInput_exact : Exact get_KeyInput ok_KeyInput put_KeyInput.
Proof.
  intros bs k rest Hbs; unfold get_KeyInput, put_KeyInput, ok_KeyInput; split.
  - intros H; get_step H Hbs; get_step H Hbs; get_step H Hbs; get_done H; done.
  - put_open; destruct Hok as (Ha & Ho & Hk), k.
    do 3 (run_step; [done|]); by apply pret_Ok.
Qed.

Definition ok_input (i : TransactionInput) : Prop :=
  match i with InBase b => in_u 32 b | InKey k => ok_KeyInput k end.

Lemma wf_blob_1 b : is_byte b -> wf_blob 1 [b].
Proof. intros; split; [done|by apply List.Forall_cons]. Qed.

#[export] Instance TransactionInput_exact :
  Exact get_TransactionInput ok_input put_TransactionInput.
Proof.
  intros bs i rest Hbs; unfold get_TransactionInput, put_TransactionInput; split.
  - intros H; get_step H Hbs; injection Hp as <-.
    case_decide as E; [|case_decide as E'; [|done]]; subst; get_step H Hbs; get_done H; done.
  - put_open; destruct i as [b|k]; simpl in *; run_step; try (apply wf_blob_1; mlia).
    + cbn [input_tag] in *; rewrite decide_True by done; run_step; [done|]; by apply pret_Ok.
    + cbn [input_tag] in *; rewrite decide_False, decide_True by done.
      run_step; [done|]; by apply pret_Ok.
Qed.

#[export] Instance input_nonempty : NonEmpty ok_input put_TransactionInput.
Proof. intros i _; unfold put_TransactionInput; intros (x & y & [= <-] & _ & ?)%wseq_Ok; done. Qed.

Definition ok_output (o : TransactionOutput) : Prop :=
  in_u 64 (o_amount o) /\ match o_target o with OutKey k => wf_key k end.

#[export] Instance TransactionOutput_exact :
  Exact get_TransactionOutput ok_output put_TransactionOutput.
Proof.
  intros bs o rest Hbs; unfold get_TransactionOutput, put_TransactionOutput, ok_output; split.
  - intros H; get_step H Hbs; get_step H Hbs; injection Hp0 as <-.
    case_decide; [subst|done]; get_step H Hbs; get_done H; done.
  - put_open; destruct o as [a [k]], Hok as [Ha Hk]; simpl in *.
    run_step; [done|]; run_step; [apply wf_blob_1; mlia|].
    rewrite decide_True by done; run_step; [done|]; by apply pret_Ok.
Qed.

#[export] Instance output_nonempty : NonEmpty ok_output put_TransactionOutput.
Proof.
  intros o _; unfold put_TransactionOutput.
  intros (x & y & _ & (x' & y' & [= <-] & _ & ->)%wseq_Ok & E)%wseq_Ok; by destruct x.
Qed.

Definition ok_prefix (t : TransactionPrefix) : Prop :=
  0 <= tx_version t <= CURRENT_TRANSACTION_VERSION /\ in_u 64 (tx_unlockTime t) /\
  ok_vector ok_input (tx_inputs t) /\ ok_vector ok_output (tx_outputs t) /\
  ok_string (tx_extra t).

#[export] Instance TransactionPrefix_exact :
  Exact get_TransactionPrefix ok_prefix put_TransactionPrefix.
Proof.
  intros bs t rest Hbs; unfold get_TransactionPrefix, put_TransactionPrefix, ok_prefix; split.
  - intros H; get_step H Hbs; destruct (Z.ltb_spec CURRENT_TRANSACTION_VERSION v); [done|].
    do 4 get_step H Hbs; get_done H; simpl; unfold in_u in Hok; split_and!; done || lia.
  - put_open; destruct Hok as (Hv & Hu & Hi & Ho & He), t; simpl in *.
    change CURRENT_TRANSACTION_VERSION with 1 in *.
    run_step; [mlia|]; rewrite (proj2 (Z.ltb_ge _ _)) by lia.
    do 4 (run_step; [done|]); by apply pret_Ok.
Qed.

(** One list of signatures per input, of the size the input asks for. *)
Definition ok_signatures (inputs : list TransactionInput) (sigs : list (list Signature)) : Prop :=
  Forall2 (fun i s => length s = getSignaturesCount i /\ Forall wf_signature s) inputs sigs.

Lemma get_signatures_exact inputs :
  Exact (get_signatures inputs) (ok_signatures inputs)
    (fun sigs => wconcat (zip_with (fun i sigs =>
         if negb (getSignaturesCount i =? length sigs)%nat then Err SerializationError
         else wconcat (map put_binary sigs)) inputs sigs)).
Proof.
  induction inputs as [|i inputs IH]; intros bs sigs rest Hbs; cbn [get_signatures].
  { rewrite pret_Ok; split.
    - intros [-> ->]; split; [constructor|]; by exists [].
    - intros (H & pre & Hp & ->); inversion H; subst; injection Hp as <-; done. }
  split.
  - intros H; get_step H Hbs; destruct Hok as [Hl Hs].
    apply pbind_Ok in H as (l' & mid' & Hr & H); apply pret_Ok in H as [-> ->].
    apply IH in Hr as (Hok' & pre' & Hp' & ->); [|done].
    split; [by constructor|]; eexists; split; [cbn [zip_with wconcat]|by rewrite <- app_assoc].
    rewrite Hl, Nat.eqb_refl; put_seq.
  - intros (Hok & pre & Hp & ->); inversion Hok as [|? s ? l' [Hl Hs] Hok']; subst.
    cbn [zip_with wconcat] in Hp; rewrite Hl, Nat.eqb_refl in Hp; cbn [negb] in Hp.
    apply wseq_Ok in Hp as (p1 & p2 & H1 & H2 & ->); rewrite <- app_assoc in *; bytes_app.
    run_step; [done|]; apply pbind_Ok; exists l', rest; split; [|by apply pret_Ok].
    apply IH; [bytes_solve|]; eauto.
Qed.
#[export] Existing Instance get_signatures_exact.

Definition ok_transaction (t : Transaction) : Prop :=
  ok_prefix (tx_prefix t) /\
  if is_base (tx_inputs t) then tx_signatures t = []
  else ok_signatures (tx_inputs t) (tx_signatures t).

(** On valid transactions the writer's special case agrees with the reader's. *)
Lemma put_signatures_ok inputs sigs : ok_signatures inputs sigs ->
  put_signatures inputs sigs = wconcat (zip_with (fun i sigs =>
         if negb (getSignaturesCount i =? length sigs)%nat then Err SerializationError
         else wconcat (map put_binary sigs)) inputs sigs).
Proof.
  intros H; unfold put_signatures; rewrite (Forall2_length _ _ _ H), Nat.eqb_refl, andb_false_r.
  destruct (Nat.eqb_spec (length sigs) 0) as [E|]; [|done].
  destruct sigs; [|done]; inversion H; done.
Qed.

#[export] Instance Transaction_exact : Exact get_Transaction ok_transaction put_Transaction.
Proof.
  intros bs t rest Hbs; unfold get_Transaction, put_Transaction, ok_transaction; split.
  - intros H; get_step H Hbs; destruct (is_base (tx_inputs v)) eqn:Eb.
    + apply pret_Ok in H as [-> ->]; simpl; rewrite Eb; split; [done|].
      exists (pre ++ []); split; [apply wseq_Ok; exists pre, []|by rewrite app_nil_r].
      split_and!; [done| |done]; destruct (tx_inputs v) as [|[] []]; done.
    + get_step H Hbs; apply pret_Ok in H as [-> ->]; simpl; rewrite Eb; split; [done|].
      eexists; split; [rewrite put_signatures_ok by done; put_seq|by rewrite <- app_assoc].
  - put_open; destruct t as [p sigs], Hok as [Hpfx Hs]; simpl in *.
    run_step; [done|]; destruct (is_base (tx_inputs p)) eqn:Eb.
    + subst sigs; destruct (tx_inputs p) as [|[] []]; try done.
      injection Hp as <-; by apply pret_Ok.
    + rewrite put_signatures_ok in Hp by done; run_step; [done|]; by apply pret_Ok.
Qed.

Definition ok_address (a : AccountPublicAddress) : Prop :=
  wf_key (spendPublicKey a) /\ wf_key (viewPublicKey a).

#[export] Instance AccountPublicAddress_exact :
  Exact get_AccountPublicAddress ok_address put_AccountPublicAddress.
Proof.
  intros bs a rest Hbs; unfold get_AccountPublicAddress, put_AccountPublicAddress, ok_address; split.
  - intros H; do 2 get_step H Hbs; get_done H; done.
  - put_open; destruct Hok, a; simpl in *; do 2 (run_step; [done|]); by apply pret_Ok.
Qed.

(** *** Validity is decidable *)

#[export] Instance ok_vector_dec {A} (ok : A -> Prop) `{!forall a, Decision (ok a)} l :
  Decision (ok_vector ok l).
Proof. unfold ok_vector; apply _. Defined.
#[export] Instance ok_string_dec s : Decision (ok_string s).
Proof. unfold ok_string; apply _. Defined.
#[export] Instance ok_input_dec i : Decision (ok_input i).
Proof. destruct i; unfold ok_input, ok_KeyInput; apply _. Defined.
#[export] Instance ok_output_dec o : Decision (ok_output o).
Proof. destruct o as [a [k]]; unfold ok_output; simpl; apply _. Defined.
#[export] Instance ok_prefix_dec t : Decision (ok_prefix t).
Proof. unfold ok_prefix; apply _. Defined.
#[export] Instance ok_transaction_dec t : Decision (ok_transaction t).
Proof. unfold ok_transaction, ok_signatures; destruct (is_base _); apply _. Defined.

(** *** The writers succeed on valid values *)

#[export] Instance varint_writes w : Writes (in_u w) put_varint.
Proof. intros v [Hv _]; by apply written_varint. Qed.

#[export] Instance binary_writes n : Writes (wf_blob n) put_binary.
Proof. intros v [_ Hv]; by apply written_Ok. Qed.

Lemma written_map {A} (ok : A -> Prop) put `{!Writes ok put} l :
  Forall ok l -> written (wconcat (map put l)).
Proof. intros H; apply written_concat; eapply Forall_impl; [exact H|]; apply writes. Qed.

#[export] Instance vector_writes {A} (ok : A -> Prop) put `{!Writes ok put} :
  Writes (ok_vector ok) (put_vector put).
Proof.
  intros l [Hl _]; apply written_seq; [apply written_varint; lia|by eapply written_map].
Qed.

#[export] Instance string_writes : Writes ok_string put_string.
Proof. intros s [Hs _]; apply written_seq; [apply written_varint; lia|by apply written_Ok]. Qed.

(** Splits a sequence of writers and closes the parts that are values of a valid type. *)
Ltac writes_seq :=
  repeat lazymatch goal with |- written (_ +++ _) => apply written_seq end;
  try (lazymatch goal with
  | |- written (?put ?a) =>
    match goal with H : ?ok a |- _ => exact (writes (ok := ok) (put := put) a H) end
  end).

#[export] Instance input_writes : Writes ok_input put_TransactionInput.
Proof.
  intros [b|k] Hi; cbn [ok_input] in Hi; unfold put_TransactionInput, put_KeyInput; cbn [input_tag].
  - writes_seq; apply (writes (ok := wf_blob 1)), wf_blob_1; mlia.
  - destruct Hi as (? & ? & ?); writes_seq; apply (writes (ok := wf_blob 1)), wf_blob_1; mlia.
Qed.

#[export] Instance output_writes : Writes ok_output put_TransactionOutput.
Proof.
  intros [a [k]] [Ha Hk]; unfold put_TransactionOutput; cbn [o_amount o_target] in *; writes_seq.
  apply (writes (ok := wf_blob 1)), wf_blob_1; mlia.
Qed.

Lemma prefix_written t : in_u 8 (tx_version t) -> in_u 64 (tx_unlockTime t) ->
  ok_vector ok_input (tx_inputs t) -> ok_vector ok_output (tx_outputs t) ->
  ok_string (tx_extra t) -> written (put_TransactionPrefix t).
Proof. intros; unfold put_TransactionPrefix; writes_seq. Qed.

#[export] Instance prefix_writes : Writes ok_prefix put_TransactionPrefix.
Proof.
  intros t (Hv & ? & ? & ? & ?); change CURRENT_TRANSACTION_VERSION with 1 in Hv.
  apply prefix_written; try done; unfold in_u; lia.
Qed.

#[export] Instance transaction_writes : Writes ok_transaction put_Transaction.
Proof.
  intros t [Hp Hs]; apply written_seq; [by eapply writes|].
  destruct (is_base (tx_inputs t)) eqn:E.
  - rewrite Hs; destruct (tx_inputs t) as [|[] []]; try done; by exists [].
  - rewrite put_signatures_ok by done; clear E.
    induction Hs as [|i s ins sigs [Hl Hs] _ IH]; [by apply written_Ok|]; cbn [zip_with wconcat].
    rewrite Hl, Nat.eqb_refl; apply written_seq; [|done]; exact (written_map wf_signature put_binary s Hs).
Qed.

#[export] Instance address_writes : Writes ok_address put_AccountPublicAddress.
Proof. intros a [? ?]; unfold put_AccountPublicAddress; writes_seq. Qed.

(** What [Exact] and [Writes] give for whole arrays. *)
Lemma fromBinaryArray_exact {A} (get : parser A) ok put `{!Exact get ok put} blob a :
  Forall is_byte blob -> fromBinaryArray get blob = Ok a <-> ok a /\ put a = Ok blob.
Proof.
  intros Hb; unfold fromBinaryArray; split.
  - destruct (get blob) as [[a' [|]]|] eqn:E; try done; intros [= ->].
    destruct (exact_elim get _ _ _ _ _ Hb E) as (Hok & pre & Hp & ->).
    by rewrite app_nil_r.
  - intros [Hok Hp]; rewrite <- (app_nil_r blob) in *.
    by rewrite (exact_intro get ok put a blob []) by (rewrite ?app_nil_r in *; done).
Qed.

Lemma fromBinaryArray_roundtrip {A} (get : parser A) ok put
    `{!Exact get ok put, !Writes ok put} a : ok a ->
  exists blob, put a = Ok blob /\ Forall is_byte blob /\ fromBinaryArray get blob = Ok a.
Proof.
  intros Hok; destruct (writes a Hok) as (blob & Hp & Hb).
  exists blob; split_and!; [done..|]; by apply (fromBinaryArray_exact get ok put).
Qed.

(** C22. Every valid transaction is serialized, and reading the bytes gives it
    back; conversely a byte array is read as a transaction only if it is the
    serialization of a valid transaction, so a transaction has exactly one
    encoding. *)
Theorem transaction_serialization_exact t blob :
  Forall is_byte blob ->
  (ok_transaction t -> exists blob', put_Transaction t = Ok blob' /\ Forall is_byte blob' /\
     fromBinaryArray get_Transaction blob' = Ok t) /\
  (fromBinaryArray get_Transaction blob = Ok t <->
     ok_transaction t /\ put_Transaction t = Ok blob).
Proof.
  intros Hb; split; [apply fromBinaryArray_roundtrip; apply _|].
  by apply fromBinaryArray_exact; first apply _.
Qed.

Definition sample_transaction : Transaction :=
  mkTransaction
    (mkPrefix 1 10 [InKey (mkKeyInput 1000 [3; 1] (repeat 7 32))]
       [mkOutput 900 (OutKey (repeat 9 32)); mkOutput 90 (OutKey (repeat 8 32))] [1; 2; 3])
    [[repeat 5 64; repeat 6 64]].

Lemma transaction_serialization_exact_witness :
  exists blob, put_Transaction sample_transaction = Ok blob /\ (length blob > 200)%nat /\
    fromBinaryArray get_Transaction blob = Ok sample_transaction.
Proof.
  eexists; split; [vm_compute; reflexivity|]; split; [cbn; lia|].
  apply transaction_serialization_exact; [apply (bool_decide_unpack _); vm_compute; exact I|].
  split; [apply (bool_decide_unpack _); vm_compute; exact I|vm_compute; reflexivity].
Defined.
End Serialization.
