(* ===== verification/StringTools.v ===== *)
(** Hexadecimal text and delimiters (src/src/Common/StringTools.{h,cpp}).

    A string is the list of its character codes.  The throwing and the boolean
    overloads of [fromHex] have the same body; [None] is the exception or the
    [false] result. *)

From S2P Require Import Prelude.

Module StringTools.

(** Characters of a Rocq string literal. *)
Fixpoint chars (s : string) : list Z :=
  match s with
  | EmptyString => []
  | String.String c s => Z.of_N (Ascii.N_of_ascii c) :: chars s
  end.

(** The 256-entry table [characterValues]. *)
Definition characterValues : list Z :=
  map (fun c =>
    if (48 <=? c) && (c <=? 57) then c - 48
    else if (65 <=? c) && (c <=? 70) then c - 55
    else if (97 <=? c) && (c <=? 102) then c - 87
    else 0xff) (seqZ 0 256).

Definition fromHexChar (character : Z) : option Z :=
  let value := nth (Z.to_nat character) characterValues 0 in
  if value >? 0x0f then None else Some value.

(** The loop over pairs of characters; an odd length is rejected first. *)
Fixpoint fromHex_loop (text : list Z) : option (list Z) :=
  match text with
  | a :: b :: text =>
    value1 ← fromHexChar a;
    value2 ← fromHexChar b;
    data ← fromHex_loop text;
    Some (u8 (Z.lor (Z.shiftl value1 4) value2) :: data)
  | _ => Some []
  end.

Definition fromHex (text : list Z) : option (list Z) :=
  if negb (Z.land (Z.of_nat (length text)) 1 =? 0) then None else fromHex_loop text.

Definition hex_digits : list Z := chars "0123456789abcdef".

Definition toHex (data : list Z) : list Z :=
  flat_map (fun b =>
    [nth (Z.to_nat (Z.shiftr b 4)) hex_digits 0; nth (Z.to_nat (Z.land b 15)) hex_digits 0]) data.

(** podFromHex into an object of [n] bytes. *)
Definition podFromHex (n : nat) (text : list Z) : option (list Z) :=
  if negb (Z.land (Z.of_nat (length text)) 1 =? 0) then None
  else if Z.of_nat n <? Z.shiftr (Z.of_nat (length text)) 1 then None
  else
    data ← fromHex_loop text;
    if (length data =? n)%nat then Some data else None.

Definition podToHex (data : list Z) : list Z := toHex data.

(** [std::string::find(delimiter, offset)] *)
Definition find_from (delimiter : Z) (text : list Z) (offset : nat) : option nat :=
  '(i, _) ← list_find (eq delimiter) (drop offset text); Some (offset + i)%nat.

(** [std::string::substr(pos, count)] *)
Definition substr (text : list Z) (pos count : nat) : list Z := take count (drop pos text).

(** [extract(text, delimiter)]: the part before the delimiter and the rest. *)
Definition extract (text : list Z) (delimiter : Z) : list Z * list Z :=
  match find_from delimiter text 0 with
  | Some p => (substr text 0 p, drop (p + 1) text)
  | None => (text, [])
  end.

(** [extract(text, delimiter, offset)]: the part and the new offset. *)
Definition extract_at (text : list Z) (delimiter : Z) (offset : nat) : list Z * nat :=
  match find_from delimiter text offset with
  | Some p => let offset := (p + 1)%nat in (substr text offset p, offset)
  | None => let offset := length text in (drop offset text, offset)
  end.

(** ** Hexadecimal round trip *)

Definition is_hex (c : Z) : bool :=
  ((48 <=? c) && (c <=? 57)) || ((65 <=? c) && (c <=? 70)) || ((97 <=? c) && (c <=? 102)).

Definition to_lower (c : Z) : Z := if (65 <=? c) && (c <=? 70) then c + 32 else c.

Definition nibble (v : Z) : Z := nth (Z.to_nat v) hex_digits 0.

Definition char_ok (c : Z) : Prop :=
  match fromHexChar c with
  | Some v => 0 <= v < 16 /\ nibble v = to_lower c
  | None => True
  end.

#[local] Instance char_ok_dec c : Decision (char_ok c).
Proof. unfold char_ok; destruct (fromHexChar c); apply _. Defined.

Lemma fromHexChar_sound c : 0 <= c < 256 -> char_ok c.
Proof.
  revert c; refine (all_below 256 char_ok _).
  apply (bool_decide_unpack _); vm_compute; exact I.
Qed.

Lemma fromHexChar_nibble v : 0 <= v < 16 -> fromHexChar (nibble v) = Some v /\ is_byte (nibble v).
Proof.
  revert v; refine (all_below 16 (fun v => fromHexChar (nibble v) = Some v /\ is_byte (nibble v)) _).
  apply (bool_decide_unpack _); vm_compute; exact I.
Qed.

Lemma join_nibbles a b : 0 <= a < 16 -> 0 <= b < 16 ->
  u8 (Z.lor (Z.shiftl a 4) b) = 16 * a + b.
Proof.
  intros Ha Hb; rewrite Z.lor_comm, lor_shiftl_add by mlia.
  rewrite wrap_small by mlia; lia.
Qed.

Lemma byte_nibbles b : is_byte b ->
  Z.shiftr b 4 = b / 16 /\ Z.land b 15 = b mod 16 /\ 0 <= b / 16 < 16 /\ 0 <= b mod 16 < 16.
Proof.
  intros Hb; unfold in_u in Hb; rewrite Z.shiftr_div_pow2 by lia.
  change 15 with (Z.ones 4); rewrite Z.land_ones by lia; change (2 ^ 4) with 16.
  pose proof (Z.mod_pos_bound b 16 ltac:(lia)).
  split_and!; try lia; [apply Z.div_pos; lia|apply Z.div_lt_upper_bound; lia].
Qed.

Lemma toHex_cons b data :
  toHex (b :: data) = nibble (Z.shiftr b 4) :: nibble (Z.land b 15) :: toHex data.
Proof. reflexivity. Qed.

Lemma fromHex_loop_toHex data : Forall is_byte data -> fromHex_loop (toHex data) = Some data.
Proof.
  induction 1 as [|b data Hb _ IH]; [done|].
  rewrite toHex_cons; cbn [fromHex_loop].
  destruct (byte_nibbles b Hb) as (-> & -> & Hq & Hr).
  destruct (fromHexChar_nibble _ Hq) as [-> _], (fromHexChar_nibble _ Hr) as [-> _].
  rewrite IH; cbn [mbind option_bind]; rewrite join_nibbles by done.
  pose proof (Z.div_mod b 16 ltac:(lia)); do 2 f_equal; lia.
Qed.

Lemma toHex_length data : length (toHex data) = (2 * length data)%nat.
Proof. induction data; [done|]; rewrite toHex_cons; simpl; lia. Qed.

Lemma toHex_even data : negb (Z.land (Z.of_nat (length (toHex data))) 1 =? 0) = false.
Proof.
  rewrite toHex_length; change 1 with (Z.ones 1); rewrite Z.land_ones by lia.
  rewrite Nat2Z.inj_mul, Z.mul_comm, Z.mod_mul; done.
Qed.

Lemma fromHex_loop_sound text : forall data, Forall is_byte text ->
  Nat.Even (length text) -> fromHex_loop text = Some data ->
  Forall is_byte data /\ toHex data = map to_lower text.
Proof.
  assert (H : forall n text, (length text <= n)%nat -> forall data, Forall is_byte text ->
    Nat.Even (length text) -> fromHex_loop text = Some data ->
    Forall is_byte data /\ toHex data = map to_lower text);
    [|by apply (H (length text))].
  clear text; induction n as [|n IH]; intros [|a [|b text]] Hn data Hb He Hd; cbn [length] in *;
    try lia; try (injection Hd as <-; done); try (destruct He as [k Hk]; lia).
  apply Forall_cons in Hb as [Ha Hb]; apply Forall_cons in Hb as [Hb' Hb].
  cbn [fromHex_loop] in Hd.
  pose proof (fromHexChar_sound a Ha) as Sa; pose proof (fromHexChar_sound b Hb') as Sb.
  unfold char_ok in *; destruct (fromHexChar a) as [va|]; [|done].
  destruct (fromHexChar b) as [vb|]; [|done]; cbn [mbind option_bind] in Hd.
  destruct (fromHex_loop text) as [data'|] eqn:E; [|done]; injection Hd as <-.
  destruct (IH text ltac:(lia) data' Hb) as [Hbytes Hhex]; [|done|].
  { destruct He as [k Hk]; exists (k - 1)%nat; lia. }
  destruct Sa as [Ra Na], Sb as [Rb Nb]; rewrite join_nibbles by done.
  assert (Hbyte : is_byte (16 * va + vb)) by mlia.
  split; [by constructor|]; rewrite toHex_cons.
  destruct (byte_nibbles _ Hbyte) as (-> & -> & _).
  rewrite Z.mul_comm, Z.div_add_l, (Z.div_small vb), Z.add_0_r by lia.
  rewrite Z.add_comm, Z.mod_add, (Z.mod_small vb), Na, Nb, Hhex by lia; done.
Qed.

(** Hexadecimal coding: fromHex inverts toHex, podFromHex inverts
    podToHex, and a text fromHex accepts is the coding of its value up to the
    case of the letters. *)
Theorem hex_roundtrip data text :
  Forall is_byte data -> Forall is_byte text ->
  fromHex (toHex data) = Some data /\
  podFromHex (length data) (podToHex data) = Some data /\
  (fromHex text = Some data -> toHex data = map to_lower text).
Proof.
  intros Hd Ht; split_and!.
  - unfold fromHex; rewrite toHex_even; by apply fromHex_loop_toHex.
  - unfold podFromHex, podToHex; rewrite toHex_even, toHex_length, fromHex_loop_toHex by done.
    rewrite Z.shiftr_div_pow2, Nat2Z.inj_mul, Z.mul_comm, Z.div_mul by lia.
    rewrite Z.ltb_irrefl; cbn [mbind option_bind]; by rewrite Nat.eqb_refl.
  - unfold fromHex; case_match eqn:E; [done|]; intros H.
    apply fromHex_loop_sound in H as [_ H]; [done..|].
    apply negb_false_iff, Z.eqb_eq in E; change 1 with (Z.ones 1) in E.
    rewrite Z.land_ones in E by lia; apply Z.mod_divide in E as [k Hk]; [|lia].
    exists (Z.to_nat k); lia.
Qed.

Lemma hex_roundtrip_witness :
  toHex [0; 171; 255] = chars "00abff" /\ fromHex (chars "00ABff") = Some [0; 171; 255] /\
  fromHex (toHex [0; 171; 255]) = Some [0; 171; 255].
Proof.
  split; [reflexivity|]; split; [reflexivity|].
  apply (hex_roundtrip [0; 171; 255] []); [|constructor].
  apply (bool_decide_unpack _); vm_compute; exact I.
Defined.

(** ** Splitting at a delimiter *)

Lemma find_from_head delimiter part rest :
  delimiter ∉ part -> find_from delimiter (part ++ delimiter :: rest) 0 = Some (length part).
Proof.
  intros H; unfold find_from; rewrite drop_0.
  enough (list_find (eq delimiter) (part ++ delimiter :: rest) = Some (length part, delimiter))
    as -> by done.
  induction part as [|c part IH]; simpl; [by rewrite decide_True|].
  apply not_elem_of_cons in H as [Hc H]; rewrite decide_False by done.
  rewrite IH; done.
Qed.

(** The two overloads disagree: the one with an offset returns the text after the
    delimiter, cut to the length of the part before it. *)
Lemma extract_overloads delimiter part rest :
  delimiter ∉ part ->
  extract (part ++ delimiter :: rest) delimiter = (part, rest) /\
  extract_at (part ++ delimiter :: rest) delimiter 0 = (take (length part) rest, S (length part)).
Proof.
  intros H; unfold extract, extract_at; rewrite find_from_head by done.
  assert (Hd : drop (length part + 1) (part ++ delimiter :: rest) = rest).
  { change (delimiter :: rest) with ([delimiter] ++ rest); rewrite app_assoc.
    replace (length part + 1)%nat with (length (part ++ [delimiter])) by (rewrite length_app; done).
    apply drop_app_length. }
  unfold substr; rewrite Hd, drop_0, take_app_length, Nat.add_1_r; done.
Qed.

End StringTools.
