(* ===== verification/TransactionExtra.v ===== *)
(** Transaction extra fields (src/src/CryptoNoteCore/TransactionExtra.{h,cpp} and
    the merge-mining tag of CryptoNoteSerialization.cpp).

    [parseTransactionExtra] returns its boolean result and the fields parsed so
    far: the callers that ignore the result still see those fields.  An exception
    of the stream is the [false] result.  The loop consumes at least a byte per
    turn, so the length of the input is enough fuel. *)

From S2P Require Import Prelude.
From S2P Require Import Config.
From S2P Require Import Types.
From S2P Require Import Varint.
From S2P Require Import StringTools.
From S2P Require Import Serialization.

Module TransactionExtra.

Import Serialization.

Definition TX_EXTRA_PADDING_MAX_COUNT : Z := 255.
Definition TX_EXTRA_NONCE_MAX_COUNT : Z := 255.
Definition TX_EXTRA_TAG_PADDING : Z := 0.
Definition TX_EXTRA_TAG_PUBKEY : Z := 1.
Definition TX_EXTRA_NONCE : Z := 2.
Definition TX_EXTRA_MERGE_MINING_TAG : Z := 3.
Definition TX_EXTRA_NONCE_PAYMENT_ID : Z := 0.

Record TransactionExtraMergeMiningTag := mkTag {
  mm_depth : Z;
  mm_merkleRoot : Hash }.

Inductive TransactionExtraField :=
  | ExtraPadding (size : Z)
  | ExtraPublicKey (publicKey : PublicKey)
  | ExtraNonce (nonce : BinaryArray)
  | ExtraMergeMiningTag (tag : TransactionExtraMergeMiningTag).

(** ** The merge-mining tag *)

(** doSerialize *)
Definition put_tag_fields (tag : TransactionExtraMergeMiningTag) : writer :=
  put_varint (mm_depth tag) +++ put_binary (mm_merkleRoot tag).
Definition get_tag_fields : parser TransactionExtraMergeMiningTag :=
  depth ← get_varint 64; merkleRoot ← get_binary 32; mret (mkTag depth merkleRoot).

(** A string read under the name "mm_tag": longer than [MAX_EXTRA_SIZE] it is
    read and thrown away. *)
Definition get_mm_string : parser (list Z) :=
  size ← get_varint 64;
  if parameters.MAX_EXTRA_SIZE <? size
  then _ ← sized size (get_binary (Z.to_nat size)); mret []
  else sized size (get_binary (Z.to_nat size)).

Definition put_MergeMiningTag (tag : TransactionExtraMergeMiningTag) : writer :=
  let! field := put_tag_fields tag in put_string field.

Definition get_MergeMiningTag : parser TransactionExtraMergeMiningTag :=
  field ← get_mm_string;
  match get_tag_fields field with
  | Ok (tag, _) => mret tag
  | Err e => pfail e
  end.

(** ** Parsing *)

Record seen_tags := mkSeen {
  seen_tx_extra_tag_padding : bool;
  seen_tx_extra_tag_pubkey : bool;
  seen_tx_extra_nonce : bool;
  seen_tx_extra_merge_mining_tag : bool }.

Definition no_tags : seen_tags := mkSeen false false false false.

(** The padding loop: [None] when a byte is not zero, else the size reached. *)
Fixpoint padding_loop (iss : list Z) (size : Z) : option (Z * list Z) :=
  match iss with
  | [] => Some (size, [])
  | b :: rest =>
    if size <=? TX_EXTRA_PADDING_MAX_COUNT
    then (if negb (b =? 0) then None else padding_loop rest (size + 1))
    else Some (size, iss)
  end.

Definition get_nonce : parser BinaryArray :=
  size ← get_binary 1; get_binary (Z.to_nat (hd 0 size)).

Fixpoint parse_loop (fuel : nat) (seen : seen_tags) (fields : list TransactionExtraField)
    (iss : list Z) : bool * list TransactionExtraField :=
  match fuel with
  | O => (true, fields)
  | S fuel =>
    match iss with
    | [] => (true, fields)
    | c :: iss =>
      if c =? TX_EXTRA_TAG_PADDING then
        if seen_tx_extra_tag_padding seen then (true, fields)
        else
          match padding_loop iss 1 with
          | None => (false, fields)
          | Some (size, iss) =>
            if size >? TX_EXTRA_PADDING_MAX_COUNT then (false, fields)
            else parse_loop fuel
                   (mkSeen true (seen_tx_extra_tag_pubkey seen) (seen_tx_extra_nonce seen)
                      (seen_tx_extra_merge_mining_tag seen))
                   (fields ++ [ExtraPadding size]) iss
          end
      else if c =? TX_EXTRA_TAG_PUBKEY then
        if seen_tx_extra_tag_pubkey seen then (true, fields)
        else
          match get_binary 32 iss with
          | Err _ => (false, fields)
          | Ok (publicKey, iss) =>
            parse_loop fuel
              (mkSeen (seen_tx_extra_tag_padding seen) true (seen_tx_extra_nonce seen)
                 (seen_tx_extra_merge_mining_tag seen))
              (fields ++ [ExtraPublicKey publicKey]) iss
          end
      else if c =? TX_EXTRA_NONCE then
        if seen_tx_extra_nonce seen then (true, fields)
        else
          match get_nonce iss with
          | Err _ => (false, fields)
          | Ok (nonce, iss) =>
            parse_loop fuel
              (mkSeen (seen_tx_extra_tag_padding seen) (seen_tx_extra_tag_pubkey seen) true
                 (seen_tx_extra_merge_mining_tag seen))
              (fields ++ [ExtraNonce nonce]) iss
          end
      else if c =? TX_EXTRA_MERGE_MINING_TAG then
        if seen_tx_extra_merge_mining_tag seen then parse_loop fuel seen fields iss
        else
          match get_MergeMiningTag iss with
          | Err _ => (false, fields)
          | Ok (tag, iss) =>
            parse_loop fuel
              (mkSeen (seen_tx_extra_tag_padding seen) (seen_tx_extra_tag_pubkey seen)
                 (seen_tx_extra_nonce seen) true)
              (fields ++ [ExtraMergeMiningTag tag]) iss
          end
      else parse_loop fuel seen fields iss
    end
  end.

Definition parseTransactionExtra (transactionExtra : list Z)
  : bool * list TransactionExtraField :=
  parse_loop (S (length transactionExtra)) no_tags [] transactionExtra.

(** ** Writing *)

Definition addTransactionPublicKeyToExtra (tx_extra : list Z) (tx_pub_key : PublicKey) : list Z :=
  tx_extra ++ TX_EXTRA_TAG_PUBKEY :: tx_pub_key.

Definition addExtraNonceToTransactionExtra (tx_extra extra_nonce : list Z) : option (list Z) :=
  if Z.of_nat (length extra_nonce) >? TX_EXTRA_NONCE_MAX_COUNT then None
  else Some (tx_extra ++ TX_EXTRA_NONCE :: u8 (Z.of_nat (length extra_nonce)) :: extra_nonce).

Definition appendMergeMiningTagToExtra (tx_extra : list Z)
    (mm_tag : TransactionExtraMergeMiningTag) : option (list Z) :=
  match put_MergeMiningTag mm_tag with
  | Err _ => None
  | Ok blob => Some (tx_extra ++ TX_EXTRA_MERGE_MINING_TAG :: blob)
  end.

(** ExtraSerializerVisitor *)
Definition write_field (extra : list Z) (f : TransactionExtraField) : option (list Z) :=
  match f with
  | ExtraPadding size =>
    if size >? TX_EXTRA_PADDING_MAX_COUNT then None
    else Some (extra ++ repeat 0 (Z.to_nat size))
  | ExtraPublicKey publicKey => Some (addTransactionPublicKeyToExtra extra publicKey)
  | ExtraNonce nonce => addExtraNonceToTransactionExtra extra nonce
  | ExtraMergeMiningTag tag => appendMergeMiningTagToExtra extra tag
  end.

Fixpoint writeTransactionExtra (tx_extra : list Z) (fields : list TransactionExtraField)
  : option (list Z) :=
  match fields with
  | [] => Some tx_extra
  | f :: fields => tx_extra ← write_field tx_extra f; writeTransactionExtra tx_extra fields
  end.

(** ** Finding fields *)

Fixpoint find_public_key (fields : list TransactionExtraField) : option PublicKey :=
  match fields with
  | [] => None
  | ExtraPublicKey k :: _ => Some k
  | _ :: fields => find_public_key fields
  end.

Fixpoint find_nonce (fields : list TransactionExtraField) : option BinaryArray :=
  match fields with
  | [] => None
  | ExtraNonce n :: _ => Some n
  | _ :: fields => find_nonce fields
  end.

Fixpoint find_tag (fields : list TransactionExtraField) : option TransactionExtraMergeMiningTag :=
  match fields with
  | [] => None
  | ExtraMergeMiningTag t :: _ => Some t
  | _ :: fields => find_tag fields
  end.

Definition getTransactionPublicKeyFromExtra (tx_extra : list Z) : PublicKey :=
  match find_public_key (snd (parseTransactionExtra tx_extra)) with
  | None => repeat 0 32
  | Some k => k
  end.

Definition getMergeMiningTagFromExtra (tx_extra : list Z) : option TransactionExtraMergeMiningTag :=
  find_tag (snd (parseTransactionExtra tx_extra)).

(** ** Payment ids *)

Definition setPaymentIdToTransactionExtraNonce (payment_id : Hash) : list Z :=
  TX_EXTRA_NONCE_PAYMENT_ID :: payment_id.

Definition getPaymentIdFromTransactionExtraNonce (extra_nonce : list Z) : option Hash :=
  if negb (33 =? length extra_nonce)%nat then None
  else if negb (TX_EXTRA_NONCE_PAYMENT_ID =? hd 0 extra_nonce) then None
  else Some (tl extra_nonce).

Definition parsePaymentId (paymentIdString : list Z) : option Hash :=
  StringTools.podFromHex 32 paymentIdString.

Definition createTxExtraWithPaymentId (paymentIdString extra : list Z) : option (list Z) :=
  paymentIdBin ← parsePaymentId paymentIdString;
  addExtraNonceToTransactionExtra extra (setPaymentIdToTransactionExtraNonce paymentIdBin).

Definition getPaymentIdFromTxExtra (extra : list Z) : option Hash :=
  let '(r, fields) := parseTransactionExtra extra in
  if negb r then None
  else n ← find_nonce fields; getPaymentIdFromTransactionExtraNonce n.

(** ** Round trips *)

Inductive kind := KPadding | KPublicKey | KNonce | KTag.

#[export] Instance kind_eq_dec : EqDecision kind.
Proof. solve_decision. Defined.

Definition field_kind (f : TransactionExtraField) : kind :=
  match f with
  | ExtraPadding _ => KPadding
  | ExtraPublicKey _ => KPublicKey
  | ExtraNonce _ => KNonce
  | ExtraMergeMiningTag _ => KTag
  end.

Definition seen_kind (s : seen_tags) (k : kind) : bool :=
  match k with
  | KPadding => seen_tx_extra_tag_padding s
  | KPublicKey => seen_tx_extra_tag_pubkey s
  | KNonce => seen_tx_extra_nonce s
  | KTag => seen_tx_extra_merge_mining_tag s
  end.

Definition ok_tag (t : TransactionExtraMergeMiningTag) : Prop :=
  in_u 64 (mm_depth t) /\ wf_hash (mm_merkleRoot t).

Definition ok_field (f : TransactionExtraField) : Prop :=
  match f with
  | ExtraPadding size => 1 <= size <= 255
  | ExtraPublicKey k => wf_key k
  | ExtraNonce n => Forall is_byte n /\ Z.of_nat (length n) <= 255
  | ExtraMergeMiningTag t => ok_tag t
  end.

(** Fields that survive a round trip: each kind once, padding at the end. *)
Fixpoint canonical (fields : list TransactionExtraField) : Prop :=
  match fields with
  | [] => True
  | f :: rest =>
    ok_field f /\ field_kind f ∉ map field_kind rest /\
    (field_kind f = KPadding -> rest = []) /\ canonical rest
  end.

#[export] Instance tag_eq_dec : EqDecision TransactionExtraMergeMiningTag.
Proof. solve_decision. Defined.
#[export] Instance field_eq_dec : EqDecision TransactionExtraField.
Proof. solve_decision. Defined.
#[export] Instance ok_field_dec f : Decision (ok_field f).
Proof. destruct f; simpl; unfold ok_tag; apply _. Defined.
#[export] Instance canonical_dec fields : Decision (canonical fields).
Proof. induction fields; simpl; apply _. Defined.

#[export] Instance tag_fields_exact : Exact get_tag_fields ok_tag put_tag_fields.
Proof.
  intros bs t rest Hbs; unfold get_tag_fields, put_tag_fields, ok_tag; split.
  - intros H; do 2 get_step H Hbs; get_done H; done.
  - put_open; destruct Hok, t; simpl in *; do 2 (run_step; [done|]); by apply pret_Ok.
Qed.

Lemma write_varint_length n i : (0 < n)%nat -> 0 <= i < 128 ^ Z.of_nat n ->
  (length (Varint.write_varint i) <= n)%nat.
Proof.
  revert i; induction n as [|n IH]; intros i Hn Hi; [lia|].
  rewrite Varint.write_varint_step by lia; rewrite Z.geb_leb.
  destruct (Z.leb_spec 128 i); [|simpl; lia]; cbn [length].
  rewrite Nat2Z.inj_succ, Z.pow_succ_r in Hi by lia.
  assert (0 <= i / 128 < 128 ^ Z.of_nat n).
  { split; [apply Z.div_pos|apply Z.div_lt_upper_bound]; lia. }
  destruct n as [|n]; [simpl in *; lia|]; specialize (IH (i / 128)); lia.
Qed.

(** The size of a well-formed tag is far below the limit of the reader. *)
Lemma get_tag_complete t blob rest : ok_tag t -> put_MergeMiningTag t = Ok blob ->
  Forall is_byte (blob ++ rest) -> get_MergeMiningTag (blob ++ rest) = Ok (t, rest).
Proof.
  intros Hok Hput Hbs; unfold put_MergeMiningTag in Hput.
  apply rbind_Ok in Hput as (field & Hf & Hput).
  pose proof Hf as Hf'; unfold put_tag_fields in Hf'; put_inv Hf'; injection Hf' as <-.
  injection Hp as <-; rewrite Varint.writeVarint_eq in *.
  pose proof Hok as [Hd [Hl Hroot]].
  pose proof (write_varint_length 10 (mm_depth t) ltac:(lia) ltac:(unfold in_u in Hd; lia)) as Hlen.
  pose proof (Varint.write_varint_bytes (mm_depth t) ltac:(unfold in_u in Hd; lia)) as Hvb.
  set (field := Varint.write_varint (mm_depth t) ++ mm_merkleRoot t) in *.
  assert (Hfl : (length field <= 42)%nat) by (subst field; rewrite length_app; lia).
  assert (Hfb : Forall is_byte field) by (subst field; apply Forall_app; done).
  unfold put_string in Hput; put_inv Hput; injection Hput as <-.
  rewrite <- app_assoc in *; bytes_app; unfold get_MergeMiningTag.
  apply pbind_Ok; exists field, rest; split.
  - unfold get_mm_string; run_step; [unfold in_u; lia|].
    rewrite (proj2 (Z.ltb_ge _ _)) by (change parameters.MAX_EXTRA_SIZE with 140000; lia).
    unfold sized; rewrite (proj2 (Z.ltb_ge _ _)) by (rewrite length_app; lia).
    eapply exact_intro; [apply _|bytes_solve| |done]; rewrite Nat2Z.id; done.
  - enough (get_tag_fields field = Ok (t, [])) as -> by (by apply pret_Ok).
    rewrite <- (app_nil_r field) at 1; eapply exact_intro; [apply _| |done|].
    + apply Forall_app; done.
    + exact Hf.
Qed.

Lemma padding_loop_zeros n size : size + Z.of_nat n <= 256 ->
  padding_loop (repeat 0 n) size = Some (size + Z.of_nat n, []).
Proof.
  revert size; induction n as [|n IH]; intros size Hs; cbn [repeat padding_loop].
  { by rewrite Z.add_0_r. }
  rewrite (proj2 (Z.leb_le _ _)) by (change TX_EXTRA_PADDING_MAX_COUNT with 255; lia).
  cbn [Z.eqb negb]; rewrite IH by lia; do 2 f_equal; lia.
Qed.

Lemma get_nonce_complete n rest : Z.of_nat (length n) <= 255 ->
  get_nonce (u8 (Z.of_nat (length n)) :: n ++ rest) = Ok (n, rest).
Proof.
  intros Hl; rewrite wrap_small by mlia; unfold get_nonce; apply pbind_Ok.
  eexists [_], (n ++ rest); split; [done|]; cbn [hd]; rewrite Nat2Z.id.
  unfold get_binary; rewrite length_app, (proj2 (Nat.ltb_ge _ _)) by lia.
  by rewrite take_app_length, drop_app_length.
Qed.

Lemma get_key_complete k rest : length k = 32%nat -> get_binary 32 (k ++ rest) = Ok (k, rest).
Proof.
  intros Hl; unfold get_binary; rewrite length_app, (proj2 (Nat.ltb_ge _ _)) by lia.
  by rewrite <- Hl, take_app_length, drop_app_length.
Qed.

(** A written field is appended to what was there. *)
Lemma write_field_app extra f b : write_field extra f = Some b <->
  exists fb, write_field [] f = Some fb /\ b = extra ++ fb.
Proof.
  assert (E : write_field extra f = (fun fb => extra ++ fb) <$> write_field [] f).
  { destruct f as [size|k|n|tag]; cbn [write_field];
      unfold addExtraNonceToTransactionExtra, appendMergeMiningTagToExtra.
    - by destruct (size >? _).
    - done.
    - by destruct (_ >? _).
    - by destruct (put_MergeMiningTag tag). }
  rewrite E, fmap_Some; naive_solver.
Qed.

Lemma write_fields_cons extra f fields b :
  writeTransactionExtra extra (f :: fields) = Some b <->
  exists fb rest, write_field [] f = Some fb /\
    writeTransactionExtra [] fields = Some rest /\ b = extra ++ fb ++ rest.
Proof.
  revert extra f b; induction fields as [|g fields IH]; intros extra f b;
    cbn [writeTransactionExtra]; rewrite bind_Some.
  - split.
    + intros (x & (fb & Hf & ->)%write_field_app & [= <-]).
      exists fb, []; rewrite app_nil_r; split_and!; done.
    + intros (fb & rest & Hf & [= <-] & ->); rewrite app_nil_r.
      exists (extra ++ fb); split; [apply write_field_app; eauto|done].
  - split.
    + intros (x & (fb & Hf & ->)%write_field_app & H).
      apply IH in H as (fb' & rest & Hg & Hr & ->).
      exists fb, (fb' ++ rest); split_and!; [done| |by rewrite <- app_assoc].
      apply (IH [] g); eauto.
    + intros (fb & rest & Hf & H & ->); apply (IH [] g) in H as (fb' & rest' & Hg & Hr & ->).
      exists (extra ++ fb); split; [apply write_field_app; eauto|].
      apply IH; exists fb', rest'; split_and!; [done..|]; by rewrite <- !app_assoc.
Qed.

Lemma write_field_bytes f fb : ok_field f -> write_field [] f = Some fb ->
  Forall is_byte fb /\ fb <> [].
Proof.
  intros Hok; destruct f as [size|k|n|t]; simpl in *.
  - case_match; [done|]; intros [= <-]; split.
    + apply List.Forall_forall; intros x Hx; apply repeat_spec in Hx; subst; mlia.
    + destruct (Z.to_nat size) eqn:E; [lia|done].
  - intros [= <-]; destruct Hok; split; [apply List.Forall_cons; [closed_arith|done]|done].
  - unfold addExtraNonceToTransactionExtra; case_match; [done|]; intros [= <-]; split; [|done].
    apply List.Forall_cons; [closed_arith|]; apply List.Forall_cons; [apply wrap_range; lia|by destruct Hok].
  - unfold appendMergeMiningTagToExtra; case_match eqn:E; [|done]; intros [= <-]; split; [|done].
    apply List.Forall_cons; [closed_arith|]; unfold put_MergeMiningTag in E.
    apply rbind_Ok in E as (field & Hf & E); unfold put_tag_fields in Hf; put_inv Hf.
    unfold put_string in E; put_inv E; destruct Hok as [Hd [_ Hr]].
    injection Hp as <-; injection Hf as <-; injection Hp0 as <-; injection E as <-.
    rewrite !Varint.writeVarint_eq; repeat (apply Forall_app; split); try done;
      apply Varint.write_varint_bytes; unfold in_u in Hd; lia.
Qed.

(** One turn of the loop on a written field. *)
Definition mark (s : seen_tags) (k : kind) : seen_tags :=
  match k with
  | KPadding => mkSeen true (seen_tx_extra_tag_pubkey s) (seen_tx_extra_nonce s)
                  (seen_tx_extra_merge_mining_tag s)
  | KPublicKey => mkSeen (seen_tx_extra_tag_padding s) true (seen_tx_extra_nonce s)
                    (seen_tx_extra_merge_mining_tag s)
  | KNonce => mkSeen (seen_tx_extra_tag_padding s) (seen_tx_extra_tag_pubkey s) true
                (seen_tx_extra_merge_mining_tag s)
  | KTag => mkSeen (seen_tx_extra_tag_padding s) (seen_tx_extra_tag_pubkey s)
              (seen_tx_extra_nonce s) true
  end.

Lemma seen_mark s k k' : k <> k' -> seen_kind (mark s k) k' = seen_kind s k'.
Proof. by destruct k, k'. Qed.

Lemma parse_field fuel seen acc f fb rest :
  ok_field f -> write_field [] f = Some fb -> seen_kind seen (field_kind f) = false ->
  Forall is_byte (fb ++ rest) -> (field_kind f = KPadding -> rest = []) ->
  parse_loop (S fuel) seen acc (fb ++ rest)
  = parse_loop fuel (mark seen (field_kind f)) (acc ++ [f]) rest.
Proof.
  intros Hok Hw Hseen Hbs Hpad; destruct f as [size|k|n|t]; simpl in Hok, Hseen, Hpad.
  - rewrite Hpad in * by done; cbn [write_field] in Hw.
    change TX_EXTRA_PADDING_MAX_COUNT with 255 in Hw; rewrite Z.gtb_ltb in Hw.
    rewrite (proj2 (Z.ltb_ge _ _)) in Hw by lia; injection Hw as <-; cbn [app].
    destruct (Z.to_nat size) as [|n] eqn:En; [lia|]; cbn [repeat app parse_loop].
    change (0 =? TX_EXTRA_TAG_PADDING) with true; rewrite Hseen, app_nil_r.
    rewrite padding_loop_zeros by lia; change TX_EXTRA_PADDING_MAX_COUNT with 255.
    rewrite Z.gtb_ltb, (proj2 (Z.ltb_ge _ _)) by lia.
    replace (1 + Z.of_nat n) with size by lia; done.
  - injection Hw as <-; destruct Hok as [Hl _].
    change (addTransactionPublicKeyToExtra [] k ++ rest) with (1 :: k ++ rest).
    cbn [parse_loop]; change (1 =? TX_EXTRA_TAG_PADDING) with false.
    change (1 =? TX_EXTRA_TAG_PUBKEY) with true; rewrite Hseen, get_key_complete by done; done.
  - cbn [write_field] in Hw; unfold addExtraNonceToTransactionExtra in Hw.
    change TX_EXTRA_NONCE_MAX_COUNT with 255 in Hw; rewrite Z.gtb_ltb in Hw.
    destruct Hok as [_ Hl]; rewrite (proj2 (Z.ltb_ge _ _)) in Hw by lia; injection Hw as <-.
    match goal with |- parse_loop _ _ _ ?x = _ =>
      change x with (2 :: u8 (Z.of_nat (length n)) :: n ++ rest) end.
    cbn [parse_loop]; change (2 =? TX_EXTRA_TAG_PADDING) with false.
    change (2 =? TX_EXTRA_TAG_PUBKEY) with false; change (2 =? TX_EXTRA_NONCE) with true.
    rewrite Hseen, get_nonce_complete by done; done.
  - cbn [write_field] in Hw; unfold appendMergeMiningTagToExtra in Hw.
    destruct (put_MergeMiningTag t) as [blob|] eqn:Et; [|done]; injection Hw as <-.
    match goal with |- parse_loop _ _ _ ?x = _ => change x with (3 :: blob ++ rest) in * end.
    apply Forall_cons in Hbs as [_ Hbs].
    cbn [parse_loop]; change (3 =? TX_EXTRA_TAG_PADDING) with false.
    change (3 =? TX_EXTRA_TAG_PUBKEY) with false; change (3 =? TX_EXTRA_NONCE) with false.
    change (3 =? TX_EXTRA_MERGE_MINING_TAG) with true.
    rewrite Hseen, (get_tag_complete t blob rest) by done; done.
Qed.

Lemma write_fields_bytes fields b : canonical fields ->
  writeTransactionExtra [] fields = Some b -> Forall is_byte b.
Proof.
  revert b; induction fields as [|f fields IH]; intros b Hc Hw; [injection Hw as <-; done|].
  destruct Hc as (Hok & _ & _ & Hc).
  apply write_fields_cons in Hw as (fb & rest & Hf & Hr & ->).
  destruct (write_field_bytes f fb Hok Hf) as [Hfb _].
  rewrite app_nil_l; apply Forall_app; split; [done|by apply IH].
Qed.

Lemma parse_write fields fuel seen acc b :
  canonical fields -> (forall f, f ∈ fields -> seen_kind seen (field_kind f) = false) ->
  writeTransactionExtra [] fields = Some b -> (length b < fuel)%nat ->
  parse_loop fuel seen acc b = (true, acc ++ fields).
Proof.
  revert fuel seen acc b; induction fields as [|f fields IH]; intros fuel seen acc b Hc Hs Hw Hl.
  { injection Hw as <-; destruct fuel; simpl; by rewrite app_nil_r. }
  pose proof (write_fields_bytes _ _ Hc Hw) as Hbs.
  destruct Hc as (Hok & Hnew & Hpad & Hc).
  apply write_fields_cons in Hw as (fb & rest & Hf & Hr & ->); rewrite app_nil_l in *.
  destruct (write_field_bytes f fb Hok Hf) as [_ Hne].
  destruct fuel as [|fuel]; [lia|]; rewrite (parse_field fuel seen acc f fb rest); try done.
  - rewrite (IH fuel) with (b := rest); try done.
    + by rewrite <- app_assoc.
    + intros g Hg; rewrite seen_mark; [apply Hs; by right|].
      intros E; apply Hnew; rewrite E; apply list_elem_of_fmap; eauto.
    + rewrite length_app in Hl; destruct fb; [done|simpl in Hl; lia].
  - apply Hs; by left.
  - intros Hk; specialize (Hpad Hk); subst fields; by injection Hr as <-.
Qed.

Lemma canonical_written fields : canonical fields ->
  exists b, writeTransactionExtra [] fields = Some b.
Proof.
  induction fields as [|f fields IH]; intros Hc; [by eexists|].
  destruct Hc as (Hok & _ & _ & Hc); destruct (IH Hc) as [rest Hr].
  assert (exists fb, write_field [] f = Some fb) as [fb Hf].
  { destruct f as [size|k|n|t]; simpl in *.
    - change TX_EXTRA_PADDING_MAX_COUNT with 255; rewrite Z.gtb_ltb, (proj2 (Z.ltb_ge _ _)) by lia.
      by eexists.
    - by eexists.
    - unfold addExtraNonceToTransactionExtra; change TX_EXTRA_NONCE_MAX_COUNT with 255.
      rewrite Z.gtb_ltb, (proj2 (Z.ltb_ge _ _)) by lia; by eexists.
    - unfold appendMergeMiningTagToExtra, put_MergeMiningTag; by eexists. }
  exists (fb ++ rest); apply write_fields_cons; eauto.
Qed.

(** Writing a canonical list of extra fields and parsing the bytes gives
    the list back, and the merge-mining tag and the transaction public key
    read from the bytes are those of the list. *)
Theorem extra_roundtrip fields :
  canonical fields ->
  exists extra, writeTransactionExtra [] fields = Some extra /\
    parseTransactionExtra extra = (true, fields) /\
    getMergeMiningTagFromExtra extra = find_tag fields /\
    getTransactionPublicKeyFromExtra extra
      = match find_public_key fields with Some k => k | None => repeat 0 32 end.
Proof.
  intros Hc; destruct (canonical_written fields Hc) as [extra Hw]; exists extra.
  assert (E : parseTransactionExtra extra = (true, fields)).
  { apply (parse_write fields (S (length extra)) no_tags []); [done|by intros []|done|lia]. }
  unfold getMergeMiningTagFromExtra, getTransactionPublicKeyFromExtra; rewrite E; done.
Qed.

Definition extra_example : list TransactionExtraField :=
  [ExtraPublicKey (repeat 9 32); ExtraNonce [1; 2; 3];
   ExtraMergeMiningTag (mkTag 0 (repeat 7 32)); ExtraPadding 4].

Lemma extra_roundtrip_witness :
  exists extra, writeTransactionExtra [] extra_example = Some extra /\
    parseTransactionExtra extra = (true, extra_example) /\ length extra = 77%nat.
Proof.
  destruct (extra_roundtrip extra_example) as (extra & Hw & Hp & _).
  - apply (bool_decide_unpack _); vm_compute; exact I.
  - exists extra; split_and!; [exact Hw|exact Hp|].
    assert (Some (length extra) = Some 77%nat) as [= ->]; [|reflexivity].
    transitivity (length <$> writeTransactionExtra [] extra_example);
      [by rewrite Hw|vm_compute; reflexivity].
Defined.

(** The extra field made for a payment id in hexadecimal gives the
    payment id back, also after a transaction public key is appended, and the
    public key is found behind the payment id. *)
Theorem payment_id_roundtrip id key :
  wf_hash id -> wf_key key ->
  exists extra, createTxExtraWithPaymentId (StringTools.podToHex id) [] = Some extra /\
    getPaymentIdFromTxExtra extra = Some id /\
    getPaymentIdFromTxExtra (addTransactionPublicKeyToExtra extra key) = Some id /\
    getTransactionPublicKeyFromExtra (addTransactionPublicKeyToExtra extra key) = key.
Proof.
  intros [Hl Hb] Hk.
  set (n := setPaymentIdToTransactionExtraNonce id).
  assert (Hc : canonical [ExtraNonce n; ExtraPublicKey key]).
  { subst n; simpl; split_and!; try done; try lia; try apply not_elem_of_nil;
      [apply List.Forall_cons; [closed_arith|done]|].
    by intros ?%list_elem_of_singleton. }
  assert (Hc' : canonical [ExtraNonce n]).
  { destruct Hc as (Hn & _); split_and!; try done; apply not_elem_of_nil. }
  assert (Hw : writeTransactionExtra [] [ExtraNonce n] = Some (2 :: 33 :: n)).
  { subst n; simpl; unfold addExtraNonceToTransactionExtra, setPaymentIdToTransactionExtraNonce.
    cbn [length]; rewrite Hl; reflexivity. }
  assert (Hw2 : writeTransactionExtra [] [ExtraNonce n; ExtraPublicKey key]
            = Some (addTransactionPublicKeyToExtra (2 :: 33 :: n) key)).
  { cbn [writeTransactionExtra] in Hw |- *; apply bind_Some in Hw as (x & -> & [= ->]); done. }
  assert (P1 : parseTransactionExtra (2 :: 33 :: n) = (true, [ExtraNonce n])).
  { apply (parse_write _ _ no_tags []); [done|by intros []|done|lia]. }
  assert (P2 : parseTransactionExtra (addTransactionPublicKeyToExtra (2 :: 33 :: n) key)
               = (true, [ExtraNonce n; ExtraPublicKey key])).
  { apply (parse_write _ _ no_tags []); [done|by intros []|done|lia]. }
  assert (Hn : getPaymentIdFromTransactionExtraNonce n = Some id).
  { subst n; unfold getPaymentIdFromTransactionExtraNonce, setPaymentIdToTransactionExtraNonce.
    cbn [length hd tl]; rewrite Hl; done. }
  exists (2 :: 33 :: n); split_and!.
  - unfold createTxExtraWithPaymentId, parsePaymentId, StringTools.podFromHex, StringTools.podToHex.
    rewrite StringTools.toHex_even, StringTools.toHex_length, StringTools.fromHex_loop_toHex by done.
    rewrite Hl; cbn [mbind option_bind]; rewrite Hl.
    change (Z.of_nat 32 <? Z.shiftr (Z.of_nat (2 * 32)) 1) with false; cbn [Nat.eqb mbind option_bind].
    simpl in Hw; apply bind_Some in Hw as (x & Hx & [= ->]); exact Hx.
  - unfold getPaymentIdFromTxExtra; rewrite P1; exact Hn.
  - unfold getPaymentIdFromTxExtra; rewrite P2; exact Hn.
  - unfold getTransactionPublicKeyFromExtra; rewrite P2; done.
Qed.

Lemma payment_id_roundtrip_witness :
  exists extra, createTxExtraWithPaymentId (StringTools.podToHex (repeat 171 32)) [] = Some extra /\
    getPaymentIdFromTxExtra extra = Some (repeat 171 32).
Proof.
  destruct (payment_id_roundtrip (repeat 171 32) (repeat 3 32)) as (extra & H1 & H2 & _).
  - split; [reflexivity|apply (bool_decide_unpack _); vm_compute; exact I].
  - split; [reflexivity|apply (bool_decide_unpack _); vm_compute; exact I].
  - exists extra; split; assumption.
Defined.

End TransactionExtra.
