(* ===== verification/Block.v ===== *)
(** Blocks: serialization (src/src/CryptoNoteCore/CryptoNoteSerialization.cpp), the
    hashes of src/src/CryptoNoteCore/CachedBlock.cpp, and the proof-of-work check of
    src/src/CryptoNoteCore/Currency.cpp.

    The slow hashes of src/src/crypto/slow-hash.c are parameters of the definitions
    that use them.  An exception of a serializer is an [Err] value. *)

From S2P Require Import Prelude.
From S2P Require Import Config.
From S2P Require Import Types.
From S2P Require Import Varint.
From S2P Require Import Keccak.
From S2P Require Import CheckDifficulty.
From S2P Require Import TreeHash.
From S2P Require Import Serialization.
From S2P Require Import TransactionExtra.

Module Block.

Import Serialization TransactionExtra TreeHash.

(** ** Serialization *)

(** [serialize(BaseTransaction&)]: version 2 carries one more number, ignored. *)
Definition put_BaseTransaction (tx : BaseTransaction) : writer :=
  put_TransactionPrefix tx +++
  (if tx_version tx >=? TRANSACTION_VERSION_2 then put_varint 0 else Ok []).

Definition get_BaseTransaction : parser BaseTransaction :=
  version ← get_varint 8;
  unlockTime ← get_varint 64;
  inputs ← get_vector get_TransactionInput;
  outputs ← get_vector get_TransactionOutput;
  extra ← get_string;
  if version >=? TRANSACTION_VERSION_2
  then _ ← get_varint 64; mret (mkPrefix version unlockTime inputs outputs extra)
  else mret (mkPrefix version unlockTime inputs outputs extra).

(** [serializer.binary(&nonce, sizeof(nonce))] on a little-endian machine. *)
Definition put_nonce (nonce : Z) : writer := put_binary (le_bytes 4 nonce).
Definition get_nonce4 : parser Z := b ← get_binary 4; mret (le_val b).

(** serializeBlockHeader *)
Definition put_BlockHeader (h : BlockHeader) : writer :=
  put_varint (bh_majorVersion h) +++
  (if bh_majorVersion h >? BLOCK_MAJOR_VERSION_5 then Err SerializationError
   else put_varint (bh_minorVersion h) +++
     (if bh_majorVersion h =? BLOCK_MAJOR_VERSION_1 then
        put_varint (bh_timestamp h) +++ put_binary (bh_previousBlockHash h)
        +++ put_nonce (bh_nonce h)
      else if bh_majorVersion h >=? BLOCK_MAJOR_VERSION_2 then
        put_binary (bh_previousBlockHash h)
      else Err SerializationError)).

(** Reading leaves the members that are not in the stream as they were. *)
Definition get_BlockHeader (h0 : BlockHeader) : parser BlockHeader :=
  majorVersion ← get_varint 8;
  if majorVersion >? BLOCK_MAJOR_VERSION_5 then pfail SerializationError
  else
    minorVersion ← get_varint 8;
    if majorVersion =? BLOCK_MAJOR_VERSION_1 then
      timestamp ← get_varint 64;
      previousBlockHash ← get_binary 32;
      nonce ← get_nonce4;
      mret (mkBlockHeader majorVersion minorVersion nonce timestamp previousBlockHash)
    else if majorVersion >=? BLOCK_MAJOR_VERSION_2 then
      previousBlockHash ← get_binary 32;
      mret (mkBlockHeader majorVersion minorVersion (bh_nonce h0) (bh_timestamp h0)
              previousBlockHash)
    else pfail SerializationError.

Section Blocks.
Context {FH : FastHash}.

(** getObjectHash of a serializable object. *)
Definition getObjectHash (w : writer) : result stream_error Hash :=
  let! ba := w in Ok (cn_fast_hash ba).

(** getBaseTransactionHash *)
Definition v2_hash_tail : list Z :=
  [0xbc; 0x36; 0x78; 0x9e; 0x7a; 0x1e; 0x28; 0x14; 0x36; 0x46; 0x42; 0x29; 0x82; 0x8f; 0x81; 0x7d;
   0x66; 0x12; 0xf7; 0xb4; 0x77; 0xd6; 0x65; 0x91; 0xff; 0x96; 0xa9; 0xe0; 0x64; 0xbc; 0xc9; 0x8a]
  ++ repeat 0 32.

Definition getBaseTransactionHash (tx : BaseTransaction) : result stream_error Hash :=
  if tx_version tx <? TRANSACTION_VERSION_2 then getObjectHash (put_BaseTransaction tx)
  else let! h := getObjectHash (put_TransactionPrefix tx) in
       Ok (cn_fast_hash (h ++ v2_hash_tail)).

(** [serialize(ParentBlockSerializer&)] against an output serializer. *)
Definition put_ParentBlock (hashingSerialization headerOnly : bool) (pb : ParentBlock)
    (timestamp nonce : Z) : writer :=
  put_varint (pb_majorVersion pb) +++ put_varint (pb_minorVersion pb) +++
  put_varint timestamp +++ put_binary (pb_previousBlockHash pb) +++ put_nonce nonce +++
  (if hashingSerialization then
     let! minerTxHash := getBaseTransactionHash (pb_baseTransaction pb) in
     put_binary (tree_hash_from_branch (pb_baseTransactionBranch pb)
       (length (pb_baseTransactionBranch pb)) minerTxHash None)
   else Ok []) +++
  put_varint (pb_transactionCount pb) +++
  (if pb_transactionCount pb <? 1 then Err SerializationError
   else if headerOnly then Ok []
   else if negb (Z.of_nat (length (pb_baseTransactionBranch pb))
                 =? tree_depth (pb_transactionCount pb)) then Err SerializationError
   else
     wconcat (map put_binary (pb_baseTransactionBranch pb)) +++
     put_BaseTransaction (pb_baseTransaction pb) +++
     match getMergeMiningTagFromExtra (tx_extra (pb_baseTransaction pb)) with
     | None => Err SerializationError
     | Some mmTag =>
       if mm_depth mmTag >? 8 * 32 then Err SerializationError
       else if negb (mm_depth mmTag =? Z.of_nat (length (pb_blockchainBranch pb)))
       then Err SerializationError
       else wconcat (map put_binary (pb_blockchainBranch pb))
     end).

(** The same against an input serializer, without hashing: the parent block, the
    time stamp and the nonce. *)
Definition get_ParentBlock : parser (ParentBlock * Z * Z) :=
  majorVersion ← get_varint 8;
  minorVersion ← get_varint 8;
  timestamp ← get_varint 64;
  previousBlockHash ← get_binary 32;
  nonce ← get_nonce4;
  txNum ← get_varint 64;
  let transactionCount := u16 txNum in
  if transactionCount <? 1 then pfail SerializationError
  else
    baseTransactionBranch ← get_n (get_binary 32) (Z.to_nat (tree_depth transactionCount));
    baseTransaction ← get_BaseTransaction;
    match getMergeMiningTagFromExtra (tx_extra baseTransaction) with
    | None => pfail SerializationError
    | Some mmTag =>
      if mm_depth mmTag >? 8 * 32 then pfail SerializationError
      else
        blockchainBranch ← get_n (get_binary 32) (Z.to_nat (mm_depth mmTag));
        mret (mkParentBlock majorVersion minorVersion previousBlockHash transactionCount
                baseTransactionBranch baseTransaction blockchainBranch, timestamp, nonce)
    end.

Definition put_BlockTemplate (b : BlockTemplate) : writer :=
  put_BlockHeader b +++
  (if bh_majorVersion b >=? BLOCK_MAJOR_VERSION_2
   then put_ParentBlock false false (bt_parentBlock b) (bh_timestamp b) (bh_nonce b)
   else Ok []) +++
  put_Transaction (bt_baseTransaction b) +++
  put_vector put_binary (bt_transactionHashes b).

Definition get_BlockTemplate (b0 : BlockTemplate) : parser BlockTemplate :=
  h ← get_BlockHeader b0;
  '(pb, timestamp, nonce) ←
    (if bh_majorVersion h >=? BLOCK_MAJOR_VERSION_2 then get_ParentBlock
     else mret (bt_parentBlock b0, bh_timestamp h, bh_nonce h));
  baseTransaction ← get_Transaction;
  transactionHashes ← get_vector (get_binary 32);
  mret (mkBlockTemplate
    (mkBlockHeader (bh_majorVersion h) (bh_minorVersion h) nonce timestamp
       (bh_previousBlockHash h)) pb baseTransaction transactionHashes).

(** ** CachedBlock *)

Definition getTransactionTreeHash (b : BlockTemplate) : Hash :=
  (* getObjectHash leaves the null hash when serialization fails *)
  let h := match getObjectHash (put_Transaction (bt_baseTransaction b)) with
           | Ok h => h | Err _ => repeat 0 32 end in
  tree_hash (h :: bt_transactionHashes b).

Definition getBlockHashingBinaryArray (b : BlockTemplate) : result stream_error BinaryArray :=
  let! header := put_BlockHeader b in
  Ok (header ++ getTransactionTreeHash b ++
      Varint.get_varint_data (u64 (Z.of_nat (length (bt_transactionHashes b)) + 1))).

Definition getParentBlockHashingBinaryArray (headerOnly : bool) (b : BlockTemplate)
  : result stream_error BinaryArray :=
  put_ParentBlock true headerOnly (bt_parentBlock b) (bh_timestamp b) (bh_nonce b).

(** getObjectHash of a BinaryArray: the array is serialized as a string first. *)
Definition getBlockHash (b : BlockTemplate) : result stream_error Hash :=
  let! ba := getBlockHashingBinaryArray b in
  let! ba := (if BLOCK_MAJOR_VERSION_2 <=? bh_majorVersion b then
                let! parent := getParentBlockHashingBinaryArray false b in Ok (ba ++ parent)
              else Ok ba) in
  getObjectHash (put_string ba).

Definition getAuxiliaryBlockHeaderHash (b : BlockTemplate) : result stream_error Hash :=
  let! ba := getBlockHashingBinaryArray b in getObjectHash (put_string ba).

Definition getBlockIndex (b : BlockTemplate) : Z :=
  match tx_inputs (bt_baseTransaction b) with
  | [InBase blockIndex] => blockIndex
  | _ => 0
  end.

Section LongHash.
Context (cn_slow_hash_v0 cn_lite_slow_hash_v1 cn_turtle_lite_slow_hash_v2 : list Z -> Hash).

Definition getBlockLongHash (b : BlockTemplate) : result stream_error Hash :=
  let v := bh_majorVersion b in
  if v =? BLOCK_MAJOR_VERSION_1 then
    let! raw := getBlockHashingBinaryArray b in Ok (cn_slow_hash_v0 raw)
  else if (v =? BLOCK_MAJOR_VERSION_2) || (v =? BLOCK_MAJOR_VERSION_3) then
    let! raw := getParentBlockHashingBinaryArray true b in Ok (cn_slow_hash_v0 raw)
  else if v =? BLOCK_MAJOR_VERSION_4 then
    let! raw := getParentBlockHashingBinaryArray true b in Ok (cn_lite_slow_hash_v1 raw)
  else if v >=? BLOCK_MAJOR_VERSION_5 then
    let! raw := getParentBlockHashingBinaryArray true b in Ok (cn_turtle_lite_slow_hash_v2 raw)
  else Err SerializationError.

(** ** Currency::checkProofOfWork *)

Definition checkProofOfWorkV1 (b : BlockTemplate) (currentDifficulty : Z)
  : result stream_error bool :=
  if negb (BLOCK_MAJOR_VERSION_1 =? bh_majorVersion b) then Ok false
  else let! h := getBlockLongHash b in Ok (CheckDifficulty.check_hash h currentDifficulty).

Definition checkProofOfWorkV2 (genesisBlockHash : Hash) (b : BlockTemplate)
    (currentDifficulty : Z) : result stream_error bool :=
  if bh_majorVersion b <? BLOCK_MAJOR_VERSION_2 then Ok false
  else
    let! h := getBlockLongHash b in
    if negb (CheckDifficulty.check_hash h currentDifficulty) then Ok false
    else
      let pb := bt_parentBlock b in
      match getMergeMiningTagFromExtra (tx_extra (pb_baseTransaction pb)) with
      | None => Ok false
      | Some mmTag =>
        if 8 * 32 <? Z.of_nat (length (pb_blockchainBranch pb)) then Ok false
        else
          let! aux := getAuxiliaryBlockHeaderHash b in
          let auxBlocksMerkleRoot :=
            tree_hash_from_branch (pb_blockchainBranch pb) (length (pb_blockchainBranch pb))
              aux (Some genesisBlockHash) in
          Ok (bool_decide (auxBlocksMerkleRoot = mm_merkleRoot mmTag))
      end.

Definition checkProofOfWork (genesisBlockHash : Hash) (b : BlockTemplate)
    (currentDifficulty : Z) : result stream_error bool :=
  let v := bh_majorVersion b in
  if v =? BLOCK_MAJOR_VERSION_1 then checkProofOfWorkV1 b currentDifficulty
  else if (v =? BLOCK_MAJOR_VERSION_2) || (v =? BLOCK_MAJOR_VERSION_3)
          || (v =? BLOCK_MAJOR_VERSION_4) || (v =? BLOCK_MAJOR_VERSION_5)
  then checkProofOfWorkV2 genesisBlockHash b currentDifficulty
  else Ok false.
End LongHash.

(** ** Round trip *)

Definition ok_BaseTransaction (t : BaseTransaction) : Prop :=
  in_u 8 (tx_version t) /\ in_u 64 (tx_unlockTime t) /\
  ok_vector ok_input (tx_inputs t) /\ ok_vector ok_output (tx_outputs t) /\
  ok_string (tx_extra t).

Definition ok_ParentBlock (pb : ParentBlock) : Prop :=
  in_u 8 (pb_majorVersion pb) /\ in_u 8 (pb_minorVersion pb) /\
  wf_hash (pb_previousBlockHash pb) /\ 1 <= pb_transactionCount pb < 2 ^ 16 /\
  Z.of_nat (length (pb_baseTransactionBranch pb)) = tree_depth (pb_transactionCount pb) /\
  Forall wf_hash (pb_baseTransactionBranch pb) /\
  ok_BaseTransaction (pb_baseTransaction pb) /\
  (exists mmTag, getMergeMiningTagFromExtra (tx_extra (pb_baseTransaction pb)) = Some mmTag /\
     mm_depth mmTag = Z.of_nat (length (pb_blockchainBranch pb))) /\
  (length (pb_blockchainBranch pb) <= 256)%nat /\ Forall wf_hash (pb_blockchainBranch pb).

Definition ok_BlockHeader (h : BlockHeader) : Prop :=
  1 <= bh_majorVersion h <= 5 /\ in_u 8 (bh_minorVersion h) /\
  in_u 64 (bh_timestamp h) /\ in_u 32 (bh_nonce h) /\ wf_hash (bh_previousBlockHash h).

Definition ok_BlockTemplate (b : BlockTemplate) : Prop :=
  ok_BlockHeader b /\ (2 <= bh_majorVersion b -> ok_ParentBlock (bt_parentBlock b)) /\
  ok_transaction (bt_baseTransaction b) /\ ok_vector wf_hash (bt_transactionHashes b).

#[export] Instance exists_Some_dec {A} (o : option A) (P : A -> Prop) `{!forall a, Decision (P a)} :
  Decision (exists a, o = Some a /\ P a).
Proof.
  destruct o as [a|]; [destruct (decide (P a))|].
  - left; by exists a.
  - right; intros (? & [= <-] & ?); done.
  - right; intros (? & ? & _); done.
Defined.
#[export] Instance ok_BlockTemplate_dec b : Decision (ok_BlockTemplate b).
Proof. unfold ok_BlockTemplate, ok_BlockHeader, ok_ParentBlock, ok_BaseTransaction; apply _. Defined.
#[export] Instance ok_ParentBlock_dec pb : Decision (ok_ParentBlock pb).
Proof. unfold ok_ParentBlock, ok_BaseTransaction; apply _. Defined.

#[local] Instance hash_nonempty : NonEmpty wf_hash put_binary.
Proof. intros h [Hl _] [= ->]; done. Qed.

Lemma get_nonce4_complete nonce rest : in_u 32 nonce ->
  get_nonce4 (le_bytes 4 nonce ++ rest) = Ok (nonce, rest).
Proof.
  intros Hn; unfold get_nonce4; apply pbind_Ok; exists (le_bytes 4 nonce), rest; split.
  - unfold get_binary; rewrite length_app, le_bytes_length, (proj2 (Nat.ltb_ge _ _)) by lia.
    rewrite take_app_length', drop_app_length' by (symmetry; apply le_bytes_length); done.
  - apply pret_Ok; rewrite le_val_le_bytes, Z.mod_small; done.
Qed.

Lemma get_BaseTransaction_complete tx pre rest :
  ok_BaseTransaction tx -> put_BaseTransaction tx = Ok pre -> Forall is_byte (pre ++ rest) ->
  get_BaseTransaction (pre ++ rest) = Ok (tx, rest).
Proof.
  intros (Hv & Hu & Hi & Ho & He) Hp Hbs.
  unfold put_BaseTransaction, put_TransactionPrefix, get_BaseTransaction in *.
  apply wseq_Ok in Hp as (p1 & p2 & Hp & Hp2 & ->); put_inv Hp.
  rewrite <- !app_assoc in *; bytes_app.
  do 5 (run_step; [done|]).
  destruct (tx_version tx >=? TRANSACTION_VERSION_2).
  - run_step; [unfold in_u; lia|]; apply pret_Ok; by destruct tx.
  - injection Hp2 as <-; apply pret_Ok; by destruct tx.
Qed.

Lemma put_hashes_Ok l : exists pre, wconcat (map put_binary l) = Ok pre.
Proof.
  induction l as [|h l [pre IH]]; [by eexists|].
  exists (h ++ pre); cbn [map wconcat]; by rewrite IH.
Qed.

Lemma get_ParentBlock_complete pb ts nonce pre rest :
  ok_ParentBlock pb -> in_u 64 ts -> in_u 32 nonce ->
  put_ParentBlock false false pb ts nonce = Ok pre -> Forall is_byte (pre ++ rest) ->
  get_ParentBlock (pre ++ rest) = Ok ((pb, ts, nonce), rest).
Proof.
  intros (Hma & Hmi & Hprev & Hcount & Hbr & Hbrs & Htx & (tag & Htag & Hdepth) & Hbl & Hbc)
    Hts Hn Hp Hbs.
  destruct pb as [ma mi prev count br tx bc];
    cbn [pb_majorVersion pb_minorVersion pb_previousBlockHash pb_transactionCount
      pb_baseTransactionBranch pb_baseTransaction pb_blockchainBranch] in *.
  unfold put_ParentBlock in Hp;
    cbn [pb_majorVersion pb_minorVersion pb_previousBlockHash pb_transactionCount
      pb_baseTransactionBranch pb_baseTransaction pb_blockchainBranch] in Hp.
  rewrite (proj2 (Z.ltb_ge count 1)), Hbr, Z.eqb_refl, Htag, Hdepth in Hp by lia.
  rewrite Z.gtb_ltb, (proj2 (Z.ltb_ge _ _)), Z.eqb_refl in Hp by lia; cbn [negb] in Hp.
  put_inv Hp; unfold put_nonce, put_binary in Hp4; simplify_eq Hp4; simplify_eq Hp5; intros <- <-.
  rewrite <- ?app_assoc, ?app_nil_l in *; bytes_app; unfold get_ParentBlock.
  do 4 (run_step; [done|]).
  apply pbind_Ok; do 2 eexists; split; [by apply get_nonce4_complete|].
  run_step; [unfold in_u; lia|].
  rewrite (wrap_small 16), (proj2 (Z.ltb_ge count 1)) by (unfold in_u; lia).
  run_step; [split; [lia|done]|].
  apply pbind_Ok; do 2 eexists; split; [apply (get_BaseTransaction_complete tx); [done..|bytes_solve]|].
  rewrite Htag, Hdepth, Z.gtb_ltb, (proj2 (Z.ltb_ge _ _)) by lia.
  run_step; [split; [lia|done]|]; by apply pret_Ok.
Qed.

Lemma get_BlockHeader_complete h h0 pre rest :
  ok_BlockHeader h -> put_BlockHeader h = Ok pre -> Forall is_byte (pre ++ rest) ->
  get_BlockHeader h0 (pre ++ rest) =
    Ok (mkBlockHeader (bh_majorVersion h) (bh_minorVersion h)
          (if bh_majorVersion h =? 1 then bh_nonce h else bh_nonce h0)
          (if bh_majorVersion h =? 1 then bh_timestamp h else bh_timestamp h0)
          (bh_previousBlockHash h), rest).
Proof.
  intros (Hma & Hmi & Hts & Hn & Hprev) Hp Hbs.
  unfold put_BlockHeader, get_BlockHeader in *; rewrite Z.gtb_ltb in Hp.
  change BLOCK_MAJOR_VERSION_5 with 5 in *; change BLOCK_MAJOR_VERSION_1 with 1 in *.
  rewrite (proj2 (Z.ltb_ge _ _)) in Hp by lia.
  apply wseq_Ok in Hp as (p1 & p2 & Hp1 & Hp & ->).
  apply wseq_Ok in Hp as (p3 & p4 & Hp3 & Hp & ->); rewrite <- !app_assoc in *; bytes_app.
  run_step; [unfold in_u; lia|]; rewrite Z.gtb_ltb, (proj2 (Z.ltb_ge _ _)) by lia.
  run_step; [done|]; destruct (Z.eqb_spec (bh_majorVersion h) 1) as [E|E].
  - put_inv Hp; unfold put_nonce, put_binary in Hp; simplify_eq Hp; intros <-.
    rewrite <- ?app_assoc in *; bytes_app; do 2 (run_step; [done|]).
    apply pbind_Ok; do 2 eexists; split; [by apply get_nonce4_complete|]; by apply pret_Ok.
  - change BLOCK_MAJOR_VERSION_2 with 2 in *; rewrite Z.geb_leb in *.
    rewrite (proj2 (Z.leb_le _ _)) in * by lia.
    run_step; [done|]; by apply pret_Ok.
Qed.

Lemma get_BlockTemplate_complete b b0 pre rest :
  ok_BlockTemplate b -> (bh_majorVersion b = 1 -> bt_parentBlock b = bt_parentBlock b0) ->
  put_BlockTemplate b = Ok pre -> Forall is_byte (pre ++ rest) ->
  get_BlockTemplate b0 (pre ++ rest) = Ok (b, rest).
Proof.
  intros (Hh & Hpb & Htx & Hhs) H1 Hp Hbs; unfold put_BlockTemplate, get_BlockTemplate in *.
  put_inv Hp; rewrite <- ?app_assoc in *; bytes_app.
  apply pbind_Ok; do 2 eexists; split; [apply (get_BlockHeader_complete b); [done..|bytes_solve]|].
  cbn [bh_majorVersion bh_minorVersion bh_nonce bh_timestamp bh_previousBlockHash].
  pose proof Hh as (Hma & _ & Hts & Hn & _).
  change BLOCK_MAJOR_VERSION_2 with 2 in *; rewrite Z.geb_leb in *.
  destruct (Z.leb_spec 2 (bh_majorVersion b)) as [Hge|Hlt].
  - apply pbind_Ok; do 2 eexists; split;
      [eapply get_ParentBlock_complete; [by apply Hpb|exact Hts|exact Hn|exact Hp1|bytes_solve]|].
    cbv beta iota; do 2 (run_step; [done|]); apply pret_Ok.
    destruct b as [[] ? ? ?]; done.
  - assert (E : bh_majorVersion b = 1) by lia; injection Hp1 as <-; specialize (H1 E).
    apply pbind_Ok; do 2 eexists; split; [by apply pret_Ok|].
    cbv beta iota; rewrite app_nil_l; do 2 (run_step; [done|]); apply pret_Ok.
    rewrite <- H1, E; destruct b as [[] ? ? ?]; simpl in *; by subst.
Qed.

(** The writers succeed on valid blocks. *)
Lemma nonce_written n : written (put_nonce n).
Proof. apply written_Ok, le_bytes_range. Qed.

#[local] Instance BaseTransaction_writes : Writes ok_BaseTransaction put_BaseTransaction.
Proof.
  intros t (? & ? & ? & ? & ?); apply written_seq; [by apply prefix_written|].
  case_match; [by apply written_varint|by apply written_Ok].
Qed.

Lemma header_written h : ok_BlockHeader h -> written (put_BlockHeader h).
Proof.
  intros ([H1 H5] & ? & ? & ? & ?); unfold put_BlockHeader; rewrite Z.gtb_ltb, Z.geb_leb.
  change BLOCK_MAJOR_VERSION_5 with 5; change BLOCK_MAJOR_VERSION_2 with 2;
    change BLOCK_MAJOR_VERSION_1 with 1.
  rewrite (proj2 (Z.ltb_ge _ _)) by lia.
  apply written_seq; [apply written_varint; lia|]; apply written_seq; [by eapply writes|].
  destruct (Z.eqb_spec (bh_majorVersion h) 1); [writes_seq; apply nonce_written|].
  rewrite (proj2 (Z.leb_le _ _)) by lia; by eapply writes.
Qed.

Lemma ParentBlock_written pb ts nonce : ok_ParentBlock pb -> in_u 64 ts ->
  written (put_ParentBlock false false pb ts nonce).
Proof.
  intros (? & ? & ? & Hc & Hbr & Hbrs & Htx & (tag & Htag & Hd) & Hbl & Hbc) Hts.
  unfold put_ParentBlock.
  rewrite (proj2 (Z.ltb_ge _ 1)), Hbr, Z.eqb_refl, Htag, Hd by lia.
  rewrite Z.gtb_ltb, (proj2 (Z.ltb_ge _ _)), Z.eqb_refl by lia; cbn [negb].
  writes_seq; try apply nonce_written; try (apply written_varint; lia).
  - by apply written_Ok.
  - by apply (written_map wf_hash put_binary).
  - by apply (written_map wf_hash put_binary).
Qed.

#[local] Instance BlockTemplate_writes : Writes ok_BlockTemplate put_BlockTemplate.
Proof.
  intros b (Hh & Hpb & Htx & Hhs); unfold put_BlockTemplate; writes_seq.
  - by apply header_written.
  - destruct (Z.geb_spec (bh_majorVersion b) BLOCK_MAJOR_VERSION_2) as [Hge|]; [|by apply written_Ok].
    apply ParentBlock_written; [by apply Hpb|apply Hh].
Qed.

(** C23. A valid block of any of the five major versions, with its
    merge-mining parent block from version 2 on, is serialized, and reading
    the bytes gives the block back. *)
Theorem block_roundtrip b b0 : ok_BlockTemplate b ->
  (bh_majorVersion b = 1 -> bt_parentBlock b = bt_parentBlock b0) ->
  exists blob, put_BlockTemplate b = Ok blob /\ Forall is_byte blob /\
    fromBinaryArray (get_BlockTemplate b0) blob = Ok b.
Proof.
  intros Hok H1; destruct (writes b Hok) as (blob & Hp & Hb); exists blob; split_and!; try done.
  unfold fromBinaryArray; rewrite <- (app_nil_r blob) in Hb |- *.
  by rewrite (get_BlockTemplate_complete b b0 blob []).
Qed.

(** ** Proof of work *)

Section ProofOfWork.
Context (cn_slow_hash_v0 cn_lite_slow_hash_v1 cn_turtle_lite_slow_hash_v2 : list Z -> Hash).

(** The slow hash of a block version, and the bytes it is applied to. *)
Definition slow_hash (v : Z) : list Z -> Hash :=
  if v <=? 3 then cn_slow_hash_v0 else if v =? 4 then cn_lite_slow_hash_v1
  else cn_turtle_lite_slow_hash_v2.
Definition mined_bytes (b : BlockTemplate) : result stream_error BinaryArray :=
  if bh_majorVersion b =? 1 then getBlockHashingBinaryArray b
  else getParentBlockHashingBinaryArray true b.

(** The parent's coinbase commits to the block header [ba] under [genesis]. *)
Definition commits (genesis : Hash) (pb : ParentBlock) (ba : BinaryArray) : Prop :=
  exists mmTag blob, getMergeMiningTagFromExtra (tx_extra (pb_baseTransaction pb)) = Some mmTag /\
    (length (pb_blockchainBranch pb) <= 256)%nat /\ put_string ba = Ok blob /\
    climb (Some genesis) (pb_blockchainBranch pb) (length (pb_blockchainBranch pb))
      (cn_fast_hash blob) = mm_merkleRoot mmTag.

Lemma getBlockLongHash_spec (b : BlockTemplate) : 1 <= bh_majorVersion b <= 5 ->
  getBlockLongHash cn_slow_hash_v0 cn_lite_slow_hash_v1 cn_turtle_lite_slow_hash_v2 b =
  (let! raw := mined_bytes b in Ok (slow_hash (bh_majorVersion b) raw)).
Proof.
  intros Hv; assert (bh_majorVersion b = 1 \/ bh_majorVersion b = 2 \/ bh_majorVersion b = 3 \/
    bh_majorVersion b = 4 \/ bh_majorVersion b = 5) as Hc by lia.
  unfold getBlockLongHash, mined_bytes, slow_hash.
  destruct Hc as [E|[E|[E|[E|E]]]]; rewrite E; reflexivity.
Qed.

Lemma checkProofOfWorkV2_spec genesis (b : BlockTemplate) d : 2 <= bh_majorVersion b <= 5 ->
  checkProofOfWorkV2 cn_slow_hash_v0 cn_lite_slow_hash_v1 cn_turtle_lite_slow_hash_v2
    genesis b d = Ok true <->
  (exists raw, mined_bytes b = Ok raw /\
     CheckDifficulty.check_hash (slow_hash (bh_majorVersion b) raw) d = true) /\
  (exists ba, getBlockHashingBinaryArray b = Ok ba /\ commits genesis (bt_parentBlock b) ba).
Proof.
  intros Hv; unfold checkProofOfWorkV2, commits, getAuxiliaryBlockHeaderHash.
  change BLOCK_MAJOR_VERSION_2 with 2; rewrite (proj2 (Z.ltb_ge _ _)), getBlockLongHash_spec by lia.
  destruct (mined_bytes b) as [raw|e]; cbn [rbind]; [|split; [done|intros [(? & ? & _) _]; done]].
  destruct (CheckDifficulty.check_hash _ d) eqn:Ec; cbn [negb];
    [|split; [done|intros [(? & [= <-] & ?) _]; congruence]].
  destruct (getMergeMiningTagFromExtra _) as [tag|];
    [|split; [done|intros (_ & ? & _ & ? & ? & ? & _); done]].
  destruct (Z.ltb_spec (8 * 32) (Z.of_nat (length (pb_blockchainBranch (bt_parentBlock b)))));
    [split; [done|intros (_ & ba & _ & ? & ? & _ & ? & _); lia]|].
  destruct (getBlockHashingBinaryArray b) as [ba|e]; cbn [rbind];
    [|split; [done|intros (_ & ? & ? & _); done]].
  unfold getObjectHash; change (put_string ba) with (Ok (E := stream_error)
    (Varint.writeVarint (Z.of_nat (length ba)) ++ ba)); cbn [rbind].
  rewrite tree_hash_from_branch_climb; split.
  - intros [= Hr%bool_decide_eq_true]; split; [eauto|].
    exists ba; split; [done|]; eexists _, _; split_and!; [done|lia|reflexivity|exact Hr].
  - intros (_ & ? & [= <-] & ? & ? & [= <-] & _ & [= <-] & Hr).
    f_equal; by apply bool_decide_eq_true.
Qed.

(** C24. checkProofOfWork accepts a block exactly when its major version is 1
    to 5, the slow hash of that version over the mined bytes times the
    difficulty is below 2^256, and from version 2 on the coinbase of the
    parent block commits, along the block-chain branch, to the hash of the
    block header. *)
Theorem proof_of_work_correct genesis (b : BlockTemplate) d :
  (forall v m, wf_hash (slow_hash v m)) -> in_u 64 d -> in_u 8 (bh_majorVersion b) ->
  checkProofOfWork cn_slow_hash_v0 cn_lite_slow_hash_v1 cn_turtle_lite_slow_hash_v2
    genesis b d = Ok true <->
  1 <= bh_majorVersion b <= 5 /\
  (exists raw, mined_bytes b = Ok raw /\
     le_val (slow_hash (bh_majorVersion b) raw) * d < 2 ^ 256) /\
  (2 <= bh_majorVersion b -> exists ba, getBlockHashingBinaryArray b = Ok ba /\
     commits genesis (bt_parentBlock b) ba).
Proof.
  intros Hs Hd [H0 _].
  assert (Hc : forall v raw, CheckDifficulty.check_hash (slow_hash v raw) d = true <->
    le_val (slow_hash v raw) * d < 2 ^ 256).
  { intros v raw; destruct (Hs v raw); rewrite CheckDifficulty.check_hash_correct_aux by done.
    apply Z.ltb_lt. }
  assert (Hcase : bh_majorVersion b = 1 \/ 2 <= bh_majorVersion b <= 5 \/
    bh_majorVersion b = 0 \/ 5 < bh_majorVersion b) by lia.
  destruct Hcase as [E|[Hv|Hv]].
  - unfold checkProofOfWork, checkProofOfWorkV1; rewrite getBlockLongHash_spec, E by lia; cbn [Z.eqb negb].
    destruct (mined_bytes b) as [raw|e]; cbn [rbind]; [|split; [done|intros (_ & (? & ? & _) & _); done]].
    split.
    + intros [= H]; split; [lia|]; split; [|lia]; exists raw; split; [done|by apply Hc].
    + intros (_ & (? & [= <-] & H%Hc) & _); by rewrite <- H.
  - assert (Hp : checkProofOfWork cn_slow_hash_v0 cn_lite_slow_hash_v1 cn_turtle_lite_slow_hash_v2
      genesis b d = checkProofOfWorkV2 cn_slow_hash_v0 cn_lite_slow_hash_v1
      cn_turtle_lite_slow_hash_v2 genesis b d).
    { unfold checkProofOfWork; assert (bh_majorVersion b = 2 \/ bh_majorVersion b = 3 \/
        bh_majorVersion b = 4 \/ bh_majorVersion b = 5) as [E|[E|[E|E]]] by lia; by rewrite E. }
    rewrite Hp, checkProofOfWorkV2_spec by done; setoid_rewrite Hc.
    split; [intros [? ?]; split_and!; [lia..|done|done]|intros (_ & ? & H); split; [done|apply H; lia]].
  - unfold checkProofOfWork; split; [|lia].
    change BLOCK_MAJOR_VERSION_5 with 5; change BLOCK_MAJOR_VERSION_4 with 4;
    change BLOCK_MAJOR_VERSION_3 with 3; change BLOCK_MAJOR_VERSION_2 with 2;
    change BLOCK_MAJOR_VERSION_1 with 1.
    rewrite !(proj2 (Z.eqb_neq _ _)) by lia; done.
Qed.
End ProofOfWork.

(** The two strings with one hash that two headers under one commitment give. *)
Definition string_blob (ba : BinaryArray) : BinaryArray :=
  Varint.writeVarint (Z.of_nat (length ba)) ++ ba.
Definition commitment_collision (genesis : Hash) (ba ba' : BinaryArray) (br br' : list Hash)
  : option (list Z * list Z) :=
  if decide (cn_fast_hash (string_blob ba) = cn_fast_hash (string_blob ba'))
  then Some (string_blob ba, string_blob ba')
  else find_collision (Some genesis) br br' (length br)
         (cn_fast_hash (string_blob ba)) (cn_fast_hash (string_blob ba')).

Lemma at_hash_length br i : Forall wf_hash br -> (i < length br)%nat -> length (at_ br i) = 32%nat.
Proof.
  intros Hf Hi; destruct (lookup_lt_is_Some_2 br i Hi) as [h Hh].
  unfold at_; rewrite Hh; cbn.
  by destruct (Forall_lookup_1 _ _ _ _ Hf Hh).
Qed.

(** Equal strings with a size in front have equal contents. *)
Lemma string_blob_eq ba ba' : ok_string ba -> ok_string ba' ->
  string_blob ba = string_blob ba' -> ba = ba'.
Proof.
  intros H H' E.
  assert (Hb : Forall is_byte (string_blob ba)) by
    (destruct (writes (put := put_string) ba H) as (? & [= <-] & ?); done).
  assert (G : fromBinaryArray get_string (string_blob ba) = Ok ba) by
    (by apply (fromBinaryArray_exact get_string ok_string put_string)).
  assert (G' : fromBinaryArray get_string (string_blob ba) = Ok ba') by
    (apply (fromBinaryArray_exact get_string ok_string put_string); [done|]; by rewrite E).
  congruence.
Qed.

Lemma commitment_binding genesis pb pb' ba ba' :
  ok_ParentBlock pb -> ok_ParentBlock pb' -> ok_string ba -> ok_string ba' ->
  pb_baseTransaction pb = pb_baseTransaction pb' ->
  commits genesis pb ba -> commits genesis pb' ba' -> ba <> ba' ->
  exists x y, commitment_collision genesis ba ba' (pb_blockchainBranch pb)
      (pb_blockchainBranch pb') = Some (x, y) /\
    x <> y /\ cn_fast_hash x = cn_fast_hash y.
Proof.
  intros (_ & _ & _ & _ & _ & _ & _ & (t1 & Ht1 & Hd1) & _ & Hb1)
    (_ & _ & _ & _ & _ & _ & _ & (t2 & Ht2 & Hd2) & _ & Hb2) Hba Hba' Etx
    (tag & blob & Htag & _ & [= <-] & Hroot) (tag' & blob' & Htag' & _ & [= <-] & Hroot') Hne.
  rewrite Etx in *; assert (tag' = tag) as -> by congruence.
  assert (t1 = tag) as -> by congruence; assert (t2 = tag) as -> by congruence.
  fold (string_blob ba) in *; fold (string_blob ba') in *.
  assert (Hl : length (pb_blockchainBranch pb) = length (pb_blockchainBranch pb')) by lia.
  unfold commitment_collision; case_decide as E.
  { eexists _, _; split; [done|]; split; [|done]; intros Es; by apply Hne, string_blob_eq. }
  apply climb_binding; try apply cn_fast_hash_length; [|congruence|by left].
  intros i Hi; split; apply at_hash_length; [done|lia|done|lia].
Qed.

Section Binding.
Context (cn_slow_hash_v0 cn_lite_slow_hash_v1 cn_turtle_lite_slow_hash_v2 : list Z -> Hash).
Abbreviation checkV2 := (checkProofOfWorkV2 cn_slow_hash_v0 cn_lite_slow_hash_v1 cn_turtle_lite_slow_hash_v2).

(** What checkProofOfWorkV2 accepts is committed to. *)
Lemma checkProofOfWorkV2_commits genesis (b : BlockTemplate) d ba :
  checkV2 genesis b d = Ok true -> getBlockHashingBinaryArray b = Ok ba -> commits genesis (bt_parentBlock b) ba.
Proof.
  unfold checkProofOfWorkV2, commits, getAuxiliaryBlockHeaderHash; intros H E; rewrite E in H.
  destruct (_ <? BLOCK_MAJOR_VERSION_2); [done|]; destruct (getBlockLongHash _ _ _ b); cbn [rbind] in H; [|done].
  destruct (negb _); [done|]; destruct (getMergeMiningTagFromExtra _) as [tag|]; [|done].
  destruct (Z.ltb_spec (8 * 32) (Z.of_nat (length (pb_blockchainBranch (bt_parentBlock b))))); [done|].
  unfold getObjectHash in H; change (put_string ba) with (Ok (E := stream_error)
    (Varint.writeVarint (Z.of_nat (length ba)) ++ ba)) in H; cbn [rbind] in H.
  rewrite tree_hash_from_branch_climb in H; injection H as Hr%bool_decide_eq_true.
  eexists _, _; split_and!; [done|lia|reflexivity|exact Hr].
Qed.

(** C32. One parent coinbase commits to at most one block header: if
    checkProofOfWorkV2 accepts two blocks with the same coinbase of the parent
    block and the same genesis hash, at any difficulties and with any slow
    hashes, and the mined headers of the blocks differ, then a function of
    these inputs computes two different strings with the same hash. The parent
    blocks and headers are any that can be serialized. *)
Theorem merge_mining_binding genesis b b' d d' ba ba' :
  checkV2 genesis b d = Ok true -> checkV2 genesis b' d' = Ok true ->
  getBlockHashingBinaryArray b = Ok ba -> getBlockHashingBinaryArray b' = Ok ba' -> ok_string ba -> ok_string ba' ->
  ok_ParentBlock (bt_parentBlock b) -> ok_ParentBlock (bt_parentBlock b') ->
  pb_baseTransaction (bt_parentBlock b) = pb_baseTransaction (bt_parentBlock b') -> ba <> ba' ->
  exists x y, commitment_collision genesis ba ba' (pb_blockchainBranch (bt_parentBlock b))
      (pb_blockchainBranch (bt_parentBlock b')) = Some (x, y) /\
    x <> y /\ cn_fast_hash x = cn_fast_hash y.
Proof.
  intros H H' E E' Hs Hs' P P' Et Hne; apply (commitment_binding genesis (bt_parentBlock b) (bt_parentBlock b')); try done;
    by eapply checkProofOfWorkV2_commits.
Qed.
End Binding.
End Blocks.

(** ** Sample blocks *)

Definition sample_miner_tx : Transaction :=
  mkTransaction (mkPrefix 1 50 [InBase 10] [mkOutput 100 (OutKey (repeat 4 32))] []) [].
Definition sample_parent (depth : Z) (root : Hash) (branch : list Hash) : ParentBlock :=
  mkParentBlock 1 0 (repeat 3 32) 3 [repeat 5 32]
    (mkPrefix 2 0 [InBase 7] [] (default [] (appendMergeMiningTagToExtra [] (mkTag depth root))))
    branch.
Definition sample_block (version minor : Z) (pb : ParentBlock) : BlockTemplate :=
  mkBlockTemplate (mkBlockHeader version minor 77 1500000000 (repeat 2 32)) pb
    sample_miner_tx [repeat 6 32; repeat 7 32].

Definition empty_block : BlockTemplate :=
  mkBlockTemplate (mkBlockHeader 0 0 0 0 (repeat 0 32))
    (mkParentBlock 0 0 (repeat 0 32) 0 [] (mkPrefix 0 0 [] [] []) [])
    (mkTransaction (mkPrefix 0 0 [] [] []) []) [].

Lemma block_roundtrip_witness :
  let b := sample_block 4 1 (sample_parent 1 (repeat 9 32) [repeat 8 32]) in
  exists blob, put_BlockTemplate (FH := Keccak.keccak_FastHash) b = Ok blob /\
    fromBinaryArray (get_BlockTemplate empty_block) blob = Ok b.
Proof.
  intros b; destruct (block_roundtrip (FH := Keccak.keccak_FastHash) b empty_block)
    as (blob & H1 & _ & H2).
  - apply (bool_decide_unpack _); vm_compute; exact I.
  - intros E; vm_compute in E; discriminate E.
  - exists blob; split; assumption.
Defined.

(** With a hash that keeps one byte, one coinbase commits to two headers. *)
Definition weak_parent : ParentBlock := sample_parent 0 (67 :: repeat 0 31) [].
Definition weak_header (minor : Z) : BinaryArray :=
  match getBlockHashingBinaryArray (FH := TreeHash.weak_FastHash)
    (sample_block 2 minor weak_parent) with Ok ba => ba | Err _ => [] end.

Lemma merge_mining_binding_witness :
  exists x y, commitment_collision (FH := TreeHash.weak_FastHash) (repeat 0 32)
      (weak_header 0) (weak_header 1) [] [] = Some (x, y) /\ x <> y.
Proof.
  pose (zero := fun _ : list Z => repeat 0 32).
  destruct (merge_mining_binding (FH := TreeHash.weak_FastHash) zero zero zero (repeat 0 32) (sample_block 2 0 weak_parent)
    (sample_block 2 1 weak_parent) 5 7 (weak_header 0) (weak_header 1)) as (x & y & H1 & H2 & _).
  1-4: vm_compute; reflexivity.
  1-4: apply (bool_decide_unpack _); vm_compute; exact I.
  - reflexivity.
  - vm_compute; congruence.
  - exists x, y; split; assumption.
Defined.

(** A slow hash whose value is the first byte of the blob and zeroes. *)
Definition first_byte_hash (m : list Z) : Hash := u8 (hd 0 m) :: repeat 0 31.

Lemma proof_of_work_correct_witness :
  let h := first_byte_hash in
  exists raw, mined_bytes (FH := TreeHash.weak_FastHash) (sample_block 2 0 weak_parent) = Ok raw /\
    le_val (slow_hash h h h 2 raw) * 1000 < 2 ^ 256.
Proof.
  intros h.
  refine (proj1 (proj2 (proj1 (proof_of_work_correct (FH := TreeHash.weak_FastHash) h h h
    (repeat 0 32) (sample_block 2 0 weak_parent) 1000 _ _ _) _))).
  - intros v m; unfold slow_hash; destruct (v <=? 3), (v =? 4); split; try reflexivity;
      (apply List.Forall_cons; [apply wrap_range; lia|apply (bool_decide_unpack _); vm_compute; exact I]).
  - apply (bool_decide_unpack _); vm_compute; exact I.
  - apply (bool_decide_unpack _); vm_compute; exact I.
  - vm_compute; reflexivity.
Defined.
End Block.
