(* ===== verification/Limbs.v ===== *)
(** Signed machine arithmetic and radix-2^w limbs, shared by the field and scalar
    arithmetic of src/src/crypto/crypto-ops.c.

    A signed operation that leaves its type is undefined in C: it is [None] here.
    [>>] on a negative number is the arithmetic shift, [<<] the multiplication, as
    on every compiler the code is built with. *)

From S2P Require Import Prelude.

Module Limbs.

(** ** Checked operations *)

(** The value of an [intw_t] expression, if it fits. *)
Definition ck (w z : Z) : option Z := if decide (in_s w z) then Some z else None.
Notation ck32 := (ck 32).
Notation ck64 := (ck 64).

(** [a0 * b0 + a1 * b1 + ...] in 64 bits, from left to right. *)
Fixpoint dot64_loop (acc : Z) (l : list (Z * Z)) : option Z :=
  match l with
  | [] => Some acc
  | (a, b) :: l => p ← ck64 (a * b); s ← ck64 (acc + p); dot64_loop s l
  end.
Definition dot64 (l : list (Z * Z)) : option Z := dot64_loop 0 l.

(** [carry = (h + (1 << (w-1))) >> w; h' += carry; h -= carry << w], the pair
    [(h, h')]. *)
Definition carry_round (w h h' : Z) : option (Z * Z) :=
  t ← ck64 (h + Z.shiftl 1 (w - 1));
  let carry := Z.shiftr t w in
  h' ← ck64 (h' + carry);
  s ← ck64 (Z.shiftl carry w);
  h ← ck64 (h - s);
  Some (h, h').

(** The same with [h' += carry * 19]. *)
Definition carry_round19 (w h h' : Z) : option (Z * Z) :=
  t ← ck64 (h + Z.shiftl 1 (w - 1));
  let carry := Z.shiftr t w in
  p ← ck64 (carry * 19);
  h' ← ck64 (h' + p);
  s ← ck64 (Z.shiftl carry w);
  h ← ck64 (h - s);
  Some (h, h').

(** [carry = h >> w; h' += carry; h -= carry << w], at width [b] of the variables. *)
Definition carry_floor (b w h h' : Z) : option (Z * Z) :=
  let carry := Z.shiftr h w in
  h' ← ck b (h' + carry);
  s ← ck b (Z.shiftl carry w);
  h ← ck b (h - s);
  Some (h, h').

(** [x += y * k] in 64 bits. *)
Definition mac (x y k : Z) : option Z := p ← ck64 (y * k); ck64 (x + p).

(** [x -= y * k] in 64 bits. *)
Definition msb (x y k : Z) : option Z := p ← ck64 (y * k); ck64 (x - p).

(** ** Bounds *)

Lemma ck_ok w z A : 0 < w -> Z.abs z <= A -> A < 2 ^ (w - 1) -> ck w z = Some z.
Proof. intros Hw Hz HA; unfold ck; rewrite decide_True; [done|]; unfold in_s; lia. Qed.

Definition dot_abs (l : list (Z * Z)) : Z := fold_right (fun '(a, b) s => Z.abs a * Z.abs b + s) 0 l.
Definition dot (l : list (Z * Z)) : Z := fold_right (fun '(a, b) s => a * b + s) 0 l.

Lemma dot_abs_nonneg l : 0 <= dot_abs l.
Proof. induction l as [|[a b] l IH]; simpl; [lia|]; nia. Qed.

Lemma dot_le l : Z.abs (dot l) <= dot_abs l.
Proof. induction l as [|[a b] l IH]; simpl; [lia|]; rewrite <- Z.abs_mul; lia. Qed.

Lemma dot64_loop_ok l acc : Z.abs acc + dot_abs l < 2 ^ 63 -> dot64_loop acc l = Some (acc + dot l).
Proof.
  revert acc; induction l as [|[a b] l IH]; intros acc H; simpl in *; [f_equal; lia|].
  pose proof (dot_abs_nonneg l); rewrite <- Z.abs_mul in H.
  rewrite (ck_ok 64 (a * b) (Z.abs (a * b))) by lia; simpl.
  rewrite (ck_ok 64 (acc + a * b) (Z.abs acc + Z.abs (a * b))) by lia; simpl.
  rewrite IH by lia; f_equal; lia.
Qed.

Lemma dot64_ok l A : dot_abs l <= A -> A < 2 ^ 63 -> dot64 l = Some (dot l).
Proof. intros; unfold dot64; rewrite dot64_loop_ok by (simpl; lia); done. Qed.

Lemma shiftr_floor h w : 0 <= w -> exists r, h = Z.shiftr h w * 2 ^ w + r /\ 0 <= r < 2 ^ w.
Proof.
  intros; exists (h mod 2 ^ w); rewrite Z.shiftr_div_pow2 by done.
  pose proof (Z.pow_pos_nonneg 2 w); pose proof (Z.mod_pos_bound h (2 ^ w)).
  pose proof (Z.div_mod h (2 ^ w)); lia.
Qed.

Lemma pow2_half w : 0 < w -> 2 ^ w = 2 * 2 ^ (w - 1).
Proof. intros; rewrite <- Z.pow_succ_r by lia; f_equal; lia. Qed.

Lemma div_le_bound x y n : 0 < n -> Z.abs x * n <= y -> Z.abs x <= y / n.
Proof. intros; apply Z.div_le_lower_bound; lia. Qed.

Lemma carry_round_spec w h h' A A' : 0 < w -> Z.abs h <= A -> Z.abs h' <= A' ->
  A + 2 ^ w < 2 ^ 63 -> A' + (A + 2 ^ (w - 1)) / 2 ^ w < 2 ^ 63 ->
  exists c r, carry_round w h h' = Some (r, h' + c) /\ h = c * 2 ^ w + r /\
    - 2 ^ (w - 1) <= r < 2 ^ (w - 1) /\ Z.abs c <= (A + 2 ^ (w - 1)) / 2 ^ w.
Proof.
  intros Hw Hh Hh' HA HA'; unfold carry_round; rewrite Z.shiftl_1_l.
  pose proof (pow2_half w Hw); pose proof (Z.pow_pos_nonneg 2 (w - 1)).
  rewrite (ck_ok 64 _ (A + 2 ^ (w - 1))) by lia; cbn [mbind option_bind].
  destruct (shiftr_floor (h + 2 ^ (w - 1)) w) as (r & E & Hr); [lia|].
  set (c := Z.shiftr _ _) in *; cbv zeta; rewrite Z.shiftl_mul_pow2 by lia.
  assert (Hc : Z.abs c <= (A + 2 ^ (w - 1)) / 2 ^ w).
  { apply div_le_bound; [lia|].
    rewrite <- (Z.abs_eq (2 ^ w)) at 1 by lia; rewrite <- Z.abs_mul; lia. }
  rewrite (ck_ok 64 (h' + c) (A' + (A + 2 ^ (w - 1)) / 2 ^ w)) by lia; cbn [mbind option_bind].
  rewrite (ck_ok 64 (c * 2 ^ w) (A + 2 ^ (w - 1))) by lia; cbn [mbind option_bind].
  rewrite (ck_ok 64 _ (2 ^ (w - 1))) by lia; cbn [mbind option_bind].
  exists c, (h - c * 2 ^ w); split_and!; [done|lia..].
Qed.

Lemma carry_round19_spec w h h' A A' : 0 < w -> Z.abs h <= A -> Z.abs h' <= A' ->
  A + 2 ^ w < 2 ^ 63 -> A' + 19 * ((A + 2 ^ (w - 1)) / 2 ^ w) < 2 ^ 63 ->
  exists c r, carry_round19 w h h' = Some (r, h' + 19 * c) /\ h = c * 2 ^ w + r /\
    - 2 ^ (w - 1) <= r < 2 ^ (w - 1) /\ Z.abs c <= (A + 2 ^ (w - 1)) / 2 ^ w.
Proof.
  intros Hw Hh Hh' HA HA'; pose proof (pow2_half w Hw); pose proof (Z.pow_pos_nonneg 2 (w - 1)).
  assert (0 <= (A + 2 ^ (w - 1)) / 2 ^ w) by (apply Z.div_pos; lia).
  destruct (carry_round_spec w h h' A A') as (c & r & E & Eh & Hr & Hc); [lia..|].
  exists c, r; split; [|split_and!; done || lia]; revert E; unfold carry_round, carry_round19.
  rewrite Z.shiftl_1_l, (ck_ok 64 (h + 2 ^ (w - 1)) (A + 2 ^ (w - 1))) by lia; cbn [mbind option_bind].
  destruct (shiftr_floor (h + 2 ^ (w - 1)) w) as (q & Eq & Hq); [lia|].
  set (c' := Z.shiftr _ _) in *.
  assert (c' = c) as -> by nia.
  cbv zeta; rewrite Z.shiftl_mul_pow2 by lia.
  rewrite (ck_ok 64 (h' + c) (A' + (A + 2 ^ (w - 1)) / 2 ^ w)) by lia; cbn [mbind option_bind].
  rewrite (ck_ok 64 (c * 19) (19 * ((A + 2 ^ (w - 1)) / 2 ^ w))) by lia; cbn [mbind option_bind].
  rewrite (ck_ok 64 (h' + c * 19) (A' + 19 * ((A + 2 ^ (w - 1)) / 2 ^ w))) by lia;
    cbn [mbind option_bind].
  replace (h' + 19 * c) with (h' + c * 19) by lia.
  destruct (ck 64 (c * 2 ^ w)) as [s|]; cbn [mbind option_bind]; [|done].
  destruct (ck 64 (h - s)); cbn [mbind option_bind]; [|done]; intros [= ->]; done.
Qed.

Lemma carry_floor_spec b w h h' A A' : 0 < w -> 0 < b -> Z.abs h <= A -> Z.abs h' <= A' ->
  A + 2 ^ w < 2 ^ (b - 1) -> A' + (A / 2 ^ w + 1) < 2 ^ (b - 1) ->
  exists c r, carry_floor b w h h' = Some (r, h' + c) /\ h = c * 2 ^ w + r /\
    0 <= r < 2 ^ w /\ Z.abs c <= A / 2 ^ w + 1.
Proof.
  intros Hw Hb Hh Hh' HA HA'; unfold carry_floor; cbv zeta.
  pose proof (Z.pow_pos_nonneg 2 w).
  destruct (shiftr_floor h w) as (r & E & Hr); [lia|].
  set (c := Z.shiftr _ _) in *; rewrite Z.shiftl_mul_pow2 by lia.
  assert (Hc : Z.abs c <= A / 2 ^ w + 1).
  { rewrite <- Z.div_add by lia; apply div_le_bound; [lia|].
    rewrite <- (Z.abs_eq (2 ^ w)) at 1 by lia; rewrite <- Z.abs_mul; lia. }
  rewrite (ck_ok b (h' + c) (A' + (A / 2 ^ w + 1))) by lia; cbn [mbind option_bind].
  rewrite (ck_ok b (c * 2 ^ w) (A + 2 ^ w)) by lia; cbn [mbind option_bind].
  rewrite (ck_ok b _ (2 ^ w)) by lia; cbn [mbind option_bind].
  exists c, (h - c * 2 ^ w); split_and!; [done|lia..].
Qed.

Lemma mac_ok x y k A B : Z.abs x <= A -> Z.abs y <= B -> A + B * Z.abs k < 2 ^ 63 ->
  mac x y k = Some (x + y * k) /\ Z.abs (x + y * k) <= A + B * Z.abs k.
Proof.
  intros Hx Hy HA; unfold mac.
  assert (Z.abs (y * k) <= B * Z.abs k) by (rewrite Z.abs_mul; nia).
  rewrite (ck_ok 64 (y * k) (B * Z.abs k)) by lia; cbn [mbind option_bind].
  rewrite (ck_ok 64 _ (A + B * Z.abs k)) by lia; split; [done|lia].
Qed.

Lemma msb_ok x y k A B : Z.abs x <= A -> Z.abs y <= B -> A + B * Z.abs k < 2 ^ 63 ->
  msb x y k = Some (x - y * k) /\ Z.abs (x - y * k) <= A + B * Z.abs k.
Proof.
  intros Hx Hy HA; unfold msb.
  assert (Z.abs (y * k) <= B * Z.abs k) by (rewrite Z.abs_mul; nia).
  rewrite (ck_ok 64 (y * k) (B * Z.abs k)) by lia; cbn [mbind option_bind].
  rewrite (ck_ok 64 _ (A + B * Z.abs k)) by lia; split; [done|lia].
Qed.

(** ** Digits *)

(** The [n] bits of [V] from bit [a] on. *)
Definition digit (V a n : Z) : Z := (V / 2 ^ a) mod 2 ^ n.

Lemma digit_range V a n : 0 <= n -> in_u n (digit V a n).
Proof. intros; apply Z.mod_pos_bound, Z.pow_pos_nonneg; lia. Qed.

Lemma digit_split V a m n : 0 <= a -> 0 <= m -> 0 <= n ->
  digit V a (m + n) = digit V a m + 2 ^ m * digit V (a + m) n.
Proof.
  intros; unfold digit.
  rewrite Z.pow_add_r, Z.rem_mul_r by (try apply Z.pow_pos_nonneg; try apply Z.pow_nonzero; lia).
  rewrite Z.div_div, <- Z.pow_add_r by (try apply Z.pow_pos_nonneg; try apply Z.pow_nonzero; lia).
  done.
Qed.

Lemma digit_digit V a n b m : 0 <= a -> 0 <= b -> 0 <= m -> b + m <= n ->
  digit (digit V a n) b m = digit V (a + b) m.
Proof.
  intros; unfold digit; apply Z.bits_inj'; intros i Hi.
  rewrite <- !Z.shiftr_div_pow2 by lia.
  destruct (Z.lt_ge_cases i m).
  - rewrite !Z.mod_pow2_bits_low, !Z.shiftr_spec by lia.
    rewrite Z.mod_pow2_bits_low, Z.shiftr_spec by lia; f_equal; lia.
  - rewrite !Z.mod_pow2_bits_high by lia; done.
Qed.

Lemma digit_all V n : in_u n V -> digit V 0 n = V.
Proof. intros; unfold digit; rewrite Z.div_1_r; by apply Z.mod_small. Qed.

(** Four pieces of a value of at most [a + b + c + d] bits. *)
Lemma digit_split4 V a b c d : 0 <= a -> 0 <= b -> 0 <= c -> 0 <= d -> in_u (a + b + c + d) V ->
  V = digit V 0 a + 2 ^ a * digit V a b + 2 ^ (a + b) * digit V (a + b) c
      + 2 ^ (a + b + c) * digit V (a + b + c) d.
Proof.
  intros Ha Hb Hc Hd HV; rewrite <- (digit_all V (a + b + c + d) HV) at 1.
  rewrite digit_split, digit_split, digit_split, !Z.add_0_l by lia; done.
Qed.

(** *** Bytes cut out of limbs *)

Lemma u8_lor a b : u8 (Z.lor a b) = Z.lor (u8 a) (u8 b).
Proof. unfold wrap; rewrite <- !Z.land_ones by lia; apply Z.land_lor_distr_l. Qed.

Lemma u8_s32 x : u8 (s32 x) = u8 x.
Proof.
  unfold swrap, wrap; cbv zeta.
  assert (E : forall y, (y mod 2 ^ 32) mod 2 ^ 8 = y mod 2 ^ 8).
  { intros y; change (2 ^ 32) with (2 ^ 8 * 2 ^ 24); rewrite Z.rem_mul_r by lia.
    rewrite Z.mul_comm, Z.mod_add, Z.mod_mod by lia; done. }
  case_match; [apply E|].
  replace (x mod 2 ^ 32 - 2 ^ 32) with (x mod 2 ^ 32 + (- 2 ^ 24) * 2 ^ 8) by lia.
  rewrite Z.mod_add by lia; apply E.
Qed.

Lemma u8_shiftr h k : 0 <= k -> u8 (Z.shiftr h k) = digit h k 8.
Proof. intros; unfold wrap, digit; by rewrite Z.shiftr_div_pow2. Qed.

Lemma u8_join h k h' n : 0 <= k -> 0 <= n <= 8 -> in_u (k + n) h ->
  u8 (Z.lor (Z.shiftr h k) (Z.shiftl h' n)) = digit h k n + 2 ^ n * digit h' 0 (8 - n).
Proof.
  intros Hk Hn Hh.
  assert (Hd : Z.shiftr h k = digit h k n).
  { unfold digit; rewrite <- Z.shiftr_div_pow2 by done; symmetry; apply Z.mod_small.
    unfold in_u in Hh; rewrite Z.shiftr_div_pow2 by done.
    split; [apply Z.div_pos; [lia|apply Z.pow_pos_nonneg; lia]|].
    apply Z.div_lt_upper_bound; [apply Z.pow_pos_nonneg; lia|]; rewrite <- Z.pow_add_r by lia; lia. }
  rewrite Hd; pose proof (digit_range h k n ltac:(lia)) as Hr.
  rewrite (lor_shiftl_add n) by (done || lia); unfold wrap.
  replace (2 ^ 8) with (2 ^ n * 2 ^ (8 - n)) by (rewrite <- Z.pow_add_r by lia; f_equal; lia).
  pose proof (Z.pow_pos_nonneg 2 n); pose proof (Z.pow_pos_nonneg 2 (8 - n)).
  rewrite Z.rem_mul_r by lia; unfold in_u in Hr.
  rewrite Z.div_add, Z.mod_add, (Z.mod_small (digit h k n)), (Z.div_small (digit h k n)) by lia.
  replace (digit h' 0 (8 - n)) with (h' mod 2 ^ (8 - n)) by (unfold digit; by rewrite Z.div_1_r); by rewrite Z.add_0_l.
Qed.
End Limbs.
