(* ===== verification/Field.v ===== *)
(** Field arithmetic modulo p = 2^255 - 19 (the fe_* functions of
    src/src/crypto/crypto-ops.c).

    A field element is ten signed limbs of alternately 26 and 25 bits.  Every
    operation is the one of the source on [int32_t] and [int64_t] values; [None] is
    an overflow.  The theorems say that within the bounds the comments of the source
    state no operation overflows, the result stays within its bound, and the value is
    the field operation modulo [p]. *)

From S2P Require Import Prelude.
From S2P Require Import Limbs.

Module Field.

Import Limbs.

Inductive fe := Fe (l0 l1 l2 l3 l4 l5 l6 l7 l8 l9 : Z).

(** ** Operations *)

Definition fe_0 : fe := Fe 0 0 0 0 0 0 0 0 0 0.
Definition fe_1 : fe := Fe 1 0 0 0 0 0 0 0 0 0.

(** One operation on every limb. *)
Definition limbs2 (op : Z -> Z -> option Z) (f g : fe) : option fe :=
  let '(Fe f0 f1 f2 f3 f4 f5 f6 f7 f8 f9) := f in
  let '(Fe g0 g1 g2 g3 g4 g5 g6 g7 g8 g9) := g in
  h0 ← op f0 g0;
  h1 ← op f1 g1;
  h2 ← op f2 g2;
  h3 ← op f3 g3;
  h4 ← op f4 g4;
  h5 ← op f5 g5;
  h6 ← op f6 g6;
  h7 ← op f7 g7;
  h8 ← op f8 g8;
  h9 ← op f9 g9;
  Some (Fe h0 h1 h2 h3 h4 h5 h6 h7 h8 h9).

Definition fe_add (f g : fe) : option fe := limbs2 (fun a b => ck32 (a + b)) f g.
Definition fe_sub (f g : fe) : option fe := limbs2 (fun a b => ck32 (a - b)) f g.
Definition fe_neg (f : fe) : option fe := limbs2 (fun a _ => ck32 (- a)) f f.
Definition fe_copy (f : fe) : fe := f.

(** [x = f ^ g; x &= -b; f ^= x] on the 32-bit patterns; the assertion of the source
    allows only 0 and 1. *)
Definition cmov_limb (b f g : Z) : Z :=
  let x := Z.lxor f g in Z.lxor f (Z.land x (- b)).
Definition fe_cmov (f g : fe) (b : Z) : option fe :=
  if decide (b = 0 \/ b = 1) then limbs2 (fun x y => Some (cmov_limb b x y)) f g else None.

(** The carry chain of fe_mul, fe_sq and fe_sq2. *)
Definition fe_carry (h0 h1 h2 h3 h4 h5 h6 h7 h8 h9 : Z) : option fe :=
  '(h0, h1) ← carry_round 26 h0 h1;
  '(h4, h5) ← carry_round 26 h4 h5;
  '(h1, h2) ← carry_round 25 h1 h2;
  '(h5, h6) ← carry_round 25 h5 h6;
  '(h2, h3) ← carry_round 26 h2 h3;
  '(h6, h7) ← carry_round 26 h6 h7;
  '(h3, h4) ← carry_round 25 h3 h4;
  '(h7, h8) ← carry_round 25 h7 h8;
  '(h4, h5) ← carry_round 26 h4 h5;
  '(h8, h9) ← carry_round 26 h8 h9;
  '(h9, h0) ← carry_round19 25 h9 h0;
  '(h0, h1) ← carry_round 26 h0 h1;
  Some (Fe (s32 h0) (s32 h1) (s32 h2) (s32 h3) (s32 h4) (s32 h5) (s32 h6) (s32 h7) (s32 h8) (s32 h9)).

(** The 100 products of the source, each in the sum that uses it. *)
Definition fe_mul (f g : fe) : option fe :=
  let '(Fe f0 f1 f2 f3 f4 f5 f6 f7 f8 f9) := f in
  let '(Fe g0 g1 g2 g3 g4 g5 g6 g7 g8 g9) := g in
  g1_19 ← ck32 (19 * g1);
  g2_19 ← ck32 (19 * g2);
  g3_19 ← ck32 (19 * g3);
  g4_19 ← ck32 (19 * g4);
  g5_19 ← ck32 (19 * g5);
  g6_19 ← ck32 (19 * g6);
  g7_19 ← ck32 (19 * g7);
  g8_19 ← ck32 (19 * g8);
  g9_19 ← ck32 (19 * g9);
  f1_2 ← ck32 (2 * f1);
  f3_2 ← ck32 (2 * f3);
  f5_2 ← ck32 (2 * f5);
  f7_2 ← ck32 (2 * f7);
  f9_2 ← ck32 (2 * f9);
  h0 ← dot64 [(f0, g0); (f1_2, g9_19); (f2, g8_19); (f3_2, g7_19); (f4, g6_19);
              (f5_2, g5_19); (f6, g4_19); (f7_2, g3_19); (f8, g2_19); (f9_2, g1_19)];
  h1 ← dot64 [(f0, g1); (f1, g0); (f2, g9_19); (f3, g8_19); (f4, g7_19);
              (f5, g6_19); (f6, g5_19); (f7, g4_19); (f8, g3_19); (f9, g2_19)];
  h2 ← dot64 [(f0, g2); (f1_2, g1); (f2, g0); (f3_2, g9_19); (f4, g8_19);
              (f5_2, g7_19); (f6, g6_19); (f7_2, g5_19); (f8, g4_19); (f9_2, g3_19)];
  h3 ← dot64 [(f0, g3); (f1, g2); (f2, g1); (f3, g0); (f4, g9_19);
              (f5, g8_19); (f6, g7_19); (f7, g6_19); (f8, g5_19); (f9, g4_19)];
  h4 ← dot64 [(f0, g4); (f1_2, g3); (f2, g2); (f3_2, g1); (f4, g0);
              (f5_2, g9_19); (f6, g8_19); (f7_2, g7_19); (f8, g6_19); (f9_2, g5_19)];
  h5 ← dot64 [(f0, g5); (f1, g4); (f2, g3); (f3, g2); (f4, g1);
              (f5, g0); (f6, g9_19); (f7, g8_19); (f8, g7_19); (f9, g6_19)];
  h6 ← dot64 [(f0, g6); (f1_2, g5); (f2, g4); (f3_2, g3); (f4, g2);
              (f5_2, g1); (f6, g0); (f7_2, g9_19); (f8, g8_19); (f9_2, g7_19)];
  h7 ← dot64 [(f0, g7); (f1, g6); (f2, g5); (f3, g4); (f4, g3);
              (f5, g2); (f6, g1); (f7, g0); (f8, g9_19); (f9, g8_19)];
  h8 ← dot64 [(f0, g8); (f1_2, g7); (f2, g6); (f3_2, g5); (f4, g4);
              (f5_2, g3); (f6, g2); (f7_2, g1); (f8, g0); (f9_2, g9_19)];
  h9 ← dot64 [(f0, g9); (f1, g8); (f2, g7); (f3, g6); (f4, g5);
              (f5, g4); (f6, g3); (f7, g2); (f8, g1); (f9, g0)];
  fe_carry h0 h1 h2 h3 h4 h5 h6 h7 h8 h9.

Definition fe_sq (f : fe) : option fe :=
  let '(Fe f0 f1 f2 f3 f4 f5 f6 f7 f8 f9) := f in
  f0_2 ← ck32 (2 * f0);
  f1_2 ← ck32 (2 * f1);
  f2_2 ← ck32 (2 * f2);
  f3_2 ← ck32 (2 * f3);
  f4_2 ← ck32 (2 * f4);
  f5_2 ← ck32 (2 * f5);
  f6_2 ← ck32 (2 * f6);
  f7_2 ← ck32 (2 * f7);
  f5_38 ← ck32 (38 * f5);
  f6_19 ← ck32 (19 * f6);
  f7_38 ← ck32 (38 * f7);
  f8_19 ← ck32 (19 * f8);
  f9_38 ← ck32 (38 * f9);
  h0 ← dot64 [(f0, f0); (f1_2, f9_38); (f2_2, f8_19); (f3_2, f7_38); (f4_2, f6_19); (f5, f5_38)];
  h1 ← dot64 [(f0_2, f1); (f2, f9_38); (f3_2, f8_19); (f4, f7_38); (f5_2, f6_19)];
  h2 ← dot64 [(f0_2, f2); (f1_2, f1); (f3_2, f9_38); (f4_2, f8_19); (f5_2, f7_38); (f6, f6_19)];
  h3 ← dot64 [(f0_2, f3); (f1_2, f2); (f4, f9_38); (f5_2, f8_19); (f6, f7_38)];
  h4 ← dot64 [(f0_2, f4); (f1_2, f3_2); (f2, f2); (f5_2, f9_38); (f6_2, f8_19); (f7, f7_38)];
  h5 ← dot64 [(f0_2, f5); (f1_2, f4); (f2_2, f3); (f6, f9_38); (f7_2, f8_19)];
  h6 ← dot64 [(f0_2, f6); (f1_2, f5_2); (f2_2, f4); (f3_2, f3); (f7_2, f9_38); (f8, f8_19)];
  h7 ← dot64 [(f0_2, f7); (f1_2, f6); (f2_2, f5); (f3_2, f4); (f8, f9_38)];
  h8 ← dot64 [(f0_2, f8); (f1_2, f7_2); (f2_2, f6); (f3_2, f5_2); (f4, f4); (f9, f9_38)];
  h9 ← dot64 [(f0_2, f9); (f1_2, f8); (f2_2, f7); (f3_2, f6); (f4_2, f5)];
  fe_carry h0 h1 h2 h3 h4 h5 h6 h7 h8 h9.

Definition fe_sq2 (f : fe) : option fe :=
  let '(Fe f0 f1 f2 f3 f4 f5 f6 f7 f8 f9) := f in
  f0_2 ← ck32 (2 * f0);
  f1_2 ← ck32 (2 * f1);
  f2_2 ← ck32 (2 * f2);
  f3_2 ← ck32 (2 * f3);
  f4_2 ← ck32 (2 * f4);
  f5_2 ← ck32 (2 * f5);
  f6_2 ← ck32 (2 * f6);
  f7_2 ← ck32 (2 * f7);
  f5_38 ← ck32 (38 * f5);
  f6_19 ← ck32 (19 * f6);
  f7_38 ← ck32 (38 * f7);
  f8_19 ← ck32 (19 * f8);
  f9_38 ← ck32 (38 * f9);
  h0 ← dot64 [(f0, f0); (f1_2, f9_38); (f2_2, f8_19); (f3_2, f7_38); (f4_2, f6_19); (f5, f5_38)];
  h1 ← dot64 [(f0_2, f1); (f2, f9_38); (f3_2, f8_19); (f4, f7_38); (f5_2, f6_19)];
  h2 ← dot64 [(f0_2, f2); (f1_2, f1); (f3_2, f9_38); (f4_2, f8_19); (f5_2, f7_38); (f6, f6_19)];
  h3 ← dot64 [(f0_2, f3); (f1_2, f2); (f4, f9_38); (f5_2, f8_19); (f6, f7_38)];
  h4 ← dot64 [(f0_2, f4); (f1_2, f3_2); (f2, f2); (f5_2, f9_38); (f6_2, f8_19); (f7, f7_38)];
  h5 ← dot64 [(f0_2, f5); (f1_2, f4); (f2_2, f3); (f6, f9_38); (f7_2, f8_19)];
  h6 ← dot64 [(f0_2, f6); (f1_2, f5_2); (f2_2, f4); (f3_2, f3); (f7_2, f9_38); (f8, f8_19)];
  h7 ← dot64 [(f0_2, f7); (f1_2, f6); (f2_2, f5); (f3_2, f4); (f8, f9_38)];
  h8 ← dot64 [(f0_2, f8); (f1_2, f7_2); (f2_2, f6); (f3_2, f5_2); (f4, f4); (f9, f9_38)];
  h9 ← dot64 [(f0_2, f9); (f1_2, f8); (f2_2, f7); (f3_2, f6); (f4_2, f5)];
  h0 ← ck64 (h0 + h0);
  h1 ← ck64 (h1 + h1);
  h2 ← ck64 (h2 + h2);
  h3 ← ck64 (h3 + h3);
  h4 ← ck64 (h4 + h4);
  h5 ← ck64 (h5 + h5);
  h6 ← ck64 (h6 + h6);
  h7 ← ck64 (h7 + h7);
  h8 ← ck64 (h8 + h8);
  h9 ← ck64 (h9 + h9);
  fe_carry h0 h1 h2 h3 h4 h5 h6 h7 h8 h9.

(** [q = (h + q) >> w]. *)
Definition quot_step (w h q : Z) : option Z := t ← ck32 (h + q); Some (Z.shiftr t w).

(** [s[i] = h >> k] and [s[i] = (h >> k) | (h' << n)]: the low eight bits. *)
Definition byte_at (h k : Z) : Z := u8 (Z.shiftr h k).
Definition byte_join (h k h' n : Z) : Z := u8 (Z.lor (Z.shiftr h k) (s32 (Z.shiftl h' n))).

Definition fe_tobytes (h : fe) : option (list Z) :=
  let '(Fe h0 h1 h2 h3 h4 h5 h6 h7 h8 h9) := h in
  q ← ck32 (19 * h9);
  q ← ck32 (q + Z.shiftl 1 24);
  let q := Z.shiftr q 25 in
  q ← quot_step 26 h0 q;
  q ← quot_step 25 h1 q;
  q ← quot_step 26 h2 q;
  q ← quot_step 25 h3 q;
  q ← quot_step 26 h4 q;
  q ← quot_step 25 h5 q;
  q ← quot_step 26 h6 q;
  q ← quot_step 25 h7 q;
  q ← quot_step 26 h8 q;
  q ← quot_step 25 h9 q;
  q ← ck32 (19 * q);
  h0 ← ck32 (h0 + q);
  '(h0, h1) ← carry_floor 32 26 h0 h1;
  '(h1, h2) ← carry_floor 32 25 h1 h2;
  '(h2, h3) ← carry_floor 32 26 h2 h3;
  '(h3, h4) ← carry_floor 32 25 h3 h4;
  '(h4, h5) ← carry_floor 32 26 h4 h5;
  '(h5, h6) ← carry_floor 32 25 h5 h6;
  '(h6, h7) ← carry_floor 32 26 h6 h7;
  '(h7, h8) ← carry_floor 32 25 h7 h8;
  '(h8, h9) ← carry_floor 32 26 h8 h9;
  '(h9, _) ← carry_floor 32 25 h9 0;
  Some
    [byte_at h0 0; byte_at h0 8; byte_at h0 16; byte_join h0 24 h1 2;
     byte_at h1 6; byte_at h1 14; byte_join h1 22 h2 3; byte_at h2 5;
     byte_at h2 13; byte_join h2 21 h3 5; byte_at h3 3; byte_at h3 11;
     byte_join h3 19 h4 6; byte_at h4 2; byte_at h4 10; byte_at h4 18;
     byte_at h5 0; byte_at h5 8; byte_at h5 16; byte_join h5 24 h6 1;
     byte_at h6 7; byte_at h6 15; byte_join h6 23 h7 3; byte_at h7 5;
     byte_at h7 13; byte_join h7 21 h8 4; byte_at h8 4; byte_at h8 12;
     byte_join h8 20 h9 6; byte_at h9 2; byte_at h9 10; byte_at h9 18].

Definition fe_isnegative (f : fe) : option Z := s ← fe_tobytes f; Some (Z.land (nth 0 s 0) 1).

(** [((s[0] | ... | s[31]) - 1) >> 8) + 1] *)
Definition fe_isnonzero (f : fe) : option Z :=
  s ← fe_tobytes f; Some (Z.shiftr (fold_left Z.lor s 0 - 1) 8 + 1).

(** ** Values and bounds *)

Definition p : Z := 2 ^ 255 - 19.

Definition val10 (h0 h1 h2 h3 h4 h5 h6 h7 h8 h9 : Z) : Z :=
  h0 + 2 ^ 26 * h1 + 2 ^ 51 * h2 + 2 ^ 77 * h3 + 2 ^ 102 * h4 + 2 ^ 128 * h5 + 2 ^ 153 * h6 + 2 ^ 179 * h7 + 2 ^ 204 * h8 + 2 ^ 230 * h9.
Definition val (f : fe) : Z :=
  let '(Fe h0 h1 h2 h3 h4 h5 h6 h7 h8 h9) := f in val10 h0 h1 h2 h3 h4 h5 h6 h7 h8 h9.

(** Even limbs up to [2 * B], odd limbs up to [B]. *)
Definition fe_le (B : Z) (f : fe) : Prop :=
  let '(Fe f0 f1 f2 f3 f4 f5 f6 f7 f8 f9) := f in
  Z.abs f0 <= 2 * B /\ Z.abs f1 <= B /\ Z.abs f2 <= 2 * B /\ Z.abs f3 <= B /\ Z.abs f4 <= 2 * B /\ Z.abs f5 <= B /\ Z.abs f6 <= 2 * B /\ Z.abs f7 <= B /\ Z.abs f8 <= 2 * B /\ Z.abs f9 <= B.

(** 1.65 * 2^25 and 1.01 * 2^24, the bounds of fe_mul's arguments and result. *)
Definition loose : Z := 55364812.
Definition tight : Z := 16944988.

Definition eqp (a b : Z) : Prop := exists k, a = b + k * p.
Infix "≡p" := eqp (at level 70).

(** ** Carry chain *)

(** Runs a carry step, finding the bounds of the two limbs in the context. *)
Ltac carry_step :=
  match goal with
  | |- context [carry_round ?w ?h ?h' ≫= _] =>
    match goal with Hh : Z.abs h <= ?A, Hh' : Z.abs h' <= ?A' |- _ =>
      let c := fresh "c" in let r := fresh "r" in let E := fresh "E" in
      let Hr := fresh "Hr" in let Hc := fresh "Hc" in let s := fresh "s" in
      destruct (carry_round_spec w h h' A A') as (c & r & -> & E & Hr & Hc);
        [reflexivity|exact Hh|exact Hh'|reflexivity|reflexivity|];
      cbn [mbind option_bind];
      let bc := eval vm_compute in ((A + 2 ^ (w - 1)) / 2 ^ w) in
      let br := eval vm_compute in (2 ^ (w - 1)) in
      let bs := eval vm_compute in (A' + (A + 2 ^ (w - 1)) / 2 ^ w) in
      change (Z.abs c <= bc) in Hc;
      let Hr' := fresh "Hr" in
      assert (Hr' : Z.abs r <= br) by (clear - Hr; change (2 ^ (w - 1)) with br in Hr; lia);
      clear Hr;
      let Hs := fresh "Hs" in
      assert (Hs : Z.abs (h' + c) <= bs) by (clear - Hh' Hc; lia);
      let Es := fresh "Es" in
      remember (h' + c) as s eqn:Es; cbv beta iota
    end
  end.

Ltac carry19_step :=
  match goal with
  | |- context [carry_round19 ?w ?h ?h' ≫= _] =>
    match goal with Hh : Z.abs h <= ?A, Hh' : Z.abs h' <= ?A' |- _ =>
      let c := fresh "c" in let r := fresh "r" in let E := fresh "E" in
      let Hr := fresh "Hr" in let Hc := fresh "Hc" in let s := fresh "s" in
      destruct (carry_round19_spec w h h' A A') as (c & r & -> & E & Hr & Hc);
        [reflexivity|exact Hh|exact Hh'|reflexivity|reflexivity|];
      cbn [mbind option_bind];
      let bc := eval vm_compute in ((A + 2 ^ (w - 1)) / 2 ^ w) in
      let br := eval vm_compute in (2 ^ (w - 1)) in
      let bs := eval vm_compute in (A' + 19 * ((A + 2 ^ (w - 1)) / 2 ^ w)) in
      change (Z.abs c <= bc) in Hc;
      let Hr' := fresh "Hr" in
      assert (Hr' : Z.abs r <= br) by (clear - Hr; change (2 ^ (w - 1)) with br in Hr; lia);
      clear Hr;
      let Hs := fresh "Hs" in
      assert (Hs : Z.abs (h' + 19 * c) <= bs) by (clear - Hh' Hc; lia);
      let Es := fresh "Es" in
      remember (h' + 19 * c) as s eqn:Es; cbv beta iota
    end
  end.

Lemma s32_small x A : Z.abs x <= A -> (A <? 2 ^ 31) = true -> s32 x = x.
Proof. intros Hx HA%Z.ltb_lt; apply swrap_small; [done|]; unfold in_s; simpl Z.sub; lia. Qed.

Lemma abs_le_weaken x A B : Z.abs x <= A -> (A <=? B) = true -> Z.abs x <= B.
Proof. intros Hx HA%Z.leb_le; lia. Qed.

(** Drops the casts to [int32_t] of bounded limbs. *)
Ltac s32_all :=
  repeat match goal with
  | |- context [swrap 32 ?x] =>
    match goal with H : Z.abs x <= ?A |- _ => rewrite (s32_small x A H eq_refl) end
  end.

(** Closes [fe_le B (Fe ...)] for a literal [B] from bounds on the limbs. *)
Ltac fe_bounds :=
  repeat match goal with
  | |- fe_le _ (Fe _ _ _ _ _ _ _ _ _ _) => unfold fe_le
  | |- _ /\ _ => split
  | H : Z.abs ?x <= ?A |- Z.abs ?x <= _ => apply (abs_le_weaken x A _ H); reflexivity
  end.

Ltac drop_bounds := repeat match goal with H : Z.abs _ <= _ |- _ => clear H end.

Lemma fe_carry_spec h0 h1 h2 h3 h4 h5 h6 h7 h8 h9 :
  Z.abs h0 <= 2 ^ 62 -> Z.abs h1 <= 2 ^ 62 -> Z.abs h2 <= 2 ^ 62 -> Z.abs h3 <= 2 ^ 62 ->
  Z.abs h4 <= 2 ^ 62 -> Z.abs h5 <= 2 ^ 62 -> Z.abs h6 <= 2 ^ 62 -> Z.abs h7 <= 2 ^ 62 ->
  Z.abs h8 <= 2 ^ 62 -> Z.abs h9 <= 2 ^ 62 ->
  exists r, fe_carry h0 h1 h2 h3 h4 h5 h6 h7 h8 h9 = Some r /\ fe_le tight r /\
    val r ≡p val10 h0 h1 h2 h3 h4 h5 h6 h7 h8 h9.
Proof.
  intros H0 H1 H2 H3 H4 H5 H6 H7 H8 H9; unfold fe_carry.
  do 10 carry_step; carry19_step; carry_step.
  eexists; split; [reflexivity|]; s32_all; split; [fe_bounds|].
  exists (- c9); unfold val, val10, p; drop_bounds; lia.
Qed.

(** ** Products *)

Lemma abs_scale k x C : 0 <= k -> Z.abs x <= C -> Z.abs (k * x) <= k * C.
Proof. intros; rewrite Z.abs_mul, (Z.abs_eq k) by done; nia. Qed.

Lemma abs_prod_le a b A B : Z.abs a <= A -> Z.abs b <= B -> Z.abs a * Z.abs b <= A * B.
Proof. intros; apply Z.mul_le_mono_nonneg; lia. Qed.

Lemma dot_small l A B : dot_abs l <= A -> (A <=? B) = true -> Z.abs (dot l) <= B.
Proof. intros H HA%Z.leb_le; pose proof (dot_le l); lia. Qed.

Lemma dot_app l l' : dot (l ++ l') = dot l + dot l'.
Proof. induction l as [|[a b] l IH]; simpl; lia. Qed.

(** Finds a bound of a scaled limb or of a sum of products. *)
Ltac abs_bound :=
  repeat match goal with
  | |- Z.abs (Zpos _ * _) <= _ => apply abs_scale; [discriminate|]
  | |- Z.abs _ * Z.abs _ <= _ => apply abs_prod_le
  | |- _ + _ <= _ => apply Z.add_le_mono
  | |- 0 <= _ => reflexivity
  | H : Z.abs ?x <= _ |- Z.abs ?x <= _ => exact H
  end.

Ltac ck32_step :=
  match goal with
  | |- context [ck 32 ?e ≫= _] =>
    let H := fresh in
    eassert (H : ck 32 e = Some e) by
      (eapply ck_ok; [reflexivity|abs_bound|reflexivity]);
    rewrite H; clear H; cbn [mbind option_bind]
  end.

Ltac dot_step :=
  match goal with
  | |- context [dot64 ?l ≫= _] =>
    let H := fresh in
    eassert (H : dot64 l = Some (dot l)) by
      (eapply dot64_ok; [cbn [dot_abs fold_right]; abs_bound|reflexivity]);
    rewrite H; clear H; cbn [mbind option_bind]
  end.

(** Enters the carry chain with ten sums of products. *)
Ltac carry_dots :=
  match goal with
  | |- context [fe_carry ?h0 ?h1 ?h2 ?h3 ?h4 ?h5 ?h6 ?h7 ?h8 ?h9] =>
    let h := fresh "h" in let Hh := fresh "Hh" in let Hk := fresh "Hk" in
    destruct (fe_carry_spec h0 h1 h2 h3 h4 h5 h6 h7 h8 h9) as (h & -> & Hh & Hk);
    [eapply dot_small; [cbn [app dot_abs fold_right]; abs_bound|reflexivity]..|]
  end.

Lemma fe_mul_spec f g : fe_le loose f -> fe_le loose g ->
  exists h, fe_mul f g = Some h /\ fe_le tight h /\ val h ≡p val f * val g.
Proof.
  destruct f as [f0 f1 f2 f3 f4 f5 f6 f7 f8 f9], g as [g0 g1 g2 g3 g4 g5 g6 g7 g8 g9].
  intros (Hf0 & Hf1 & Hf2 & Hf3 & Hf4 & Hf5 & Hf6 & Hf7 & Hf8 & Hf9)
    (Hg0 & Hg1 & Hg2 & Hg3 & Hg4 & Hg5 & Hg6 & Hg7 & Hg8 & Hg9).
  unfold fe_mul; do 14 ck32_step; do 10 dot_step; carry_dots.
  destruct Hk as [k Hk]; exists h; split_and!; [done..|]; rewrite Hk.
  eexists (k - (2 ^ 1 * f1 * g9 + 2 ^ 0 * f2 * g8 + 2 ^ 26 * f2 * g9 + 2 ^ 1 * f3 * g7 + 2 ^ 26 * f3 * g8 +
    2 ^ 52 * f3 * g9 + 2 ^ 0 * f4 * g6 + 2 ^ 26 * f4 * g7 + 2 ^ 51 * f4 * g8 + 2 ^ 77 * f4 *
    g9 + 2 ^ 1 * f5 * g5 + 2 ^ 26 * f5 * g6 + 2 ^ 52 * f5 * g7 + 2 ^ 77 * f5 * g8 + 2 ^ 103
    * f5 * g9 + 2 ^ 0 * f6 * g4 + 2 ^ 26 * f6 * g5 + 2 ^ 51 * f6 * g6 + 2 ^ 77 * f6 * g7 + 2
    ^ 102 * f6 * g8 + 2 ^ 128 * f6 * g9 + 2 ^ 1 * f7 * g3 + 2 ^ 26 * f7 * g4 + 2 ^ 52 * f7 *
    g5 + 2 ^ 77 * f7 * g6 + 2 ^ 103 * f7 * g7 + 2 ^ 128 * f7 * g8 + 2 ^ 154 * f7 * g9 + 2 ^
    0 * f8 * g2 + 2 ^ 26 * f8 * g3 + 2 ^ 51 * f8 * g4 + 2 ^ 77 * f8 * g5 + 2 ^ 102 * f8 * g6
    + 2 ^ 128 * f8 * g7 + 2 ^ 153 * f8 * g8 + 2 ^ 179 * f8 * g9 + 2 ^ 1 * f9 * g1 + 2 ^ 26 *
    f9 * g2 + 2 ^ 52 * f9 * g3 + 2 ^ 77 * f9 * g4 + 2 ^ 103 * f9 * g5 + 2 ^ 128 * f9 * g6 +
    2 ^ 154 * f9 * g7 + 2 ^ 179 * f9 * g8 + 2 ^ 205 * f9 * g9)).
  unfold val, val10, dot, p; cbn [fold_right]; ring.
Qed.

Lemma fe_sq_spec f : fe_le loose f ->
  exists h, fe_sq f = Some h /\ fe_le tight h /\ val h ≡p val f * val f.
Proof.
  destruct f as [f0 f1 f2 f3 f4 f5 f6 f7 f8 f9].
  intros (Hf0 & Hf1 & Hf2 & Hf3 & Hf4 & Hf5 & Hf6 & Hf7 & Hf8 & Hf9).
  unfold fe_sq; do 13 ck32_step; do 10 dot_step; carry_dots.
  destruct Hk as [k Hk]; exists h; split_and!; [done..|]; rewrite Hk.
  eexists (k - (2 ^ 2 * f1 * f9 + 2 ^ 1 * f2 * f8 + 2 ^ 27 * f2 * f9 + 2 ^ 2 * f3 * f7 + 2 ^ 27 * f3 * f8 +
    2 ^ 53 * f3 * f9 + 2 ^ 1 * f4 * f6 + 2 ^ 27 * f4 * f7 + 2 ^ 52 * f4 * f8 + 2 ^ 78 * f4 *
    f9 + 2 ^ 1 * f5 * f5 + 2 ^ 27 * f5 * f6 + 2 ^ 53 * f5 * f7 + 2 ^ 78 * f5 * f8 + 2 ^ 104
    * f5 * f9 + 2 ^ 51 * f6 * f6 + 2 ^ 78 * f6 * f7 + 2 ^ 103 * f6 * f8 + 2 ^ 129 * f6 * f9
    + 2 ^ 103 * f7 * f7 + 2 ^ 129 * f7 * f8 + 2 ^ 155 * f7 * f9 + 2 ^ 153 * f8 * f8 + 2 ^
    180 * f8 * f9 + 2 ^ 205 * f9 * f9)).
  unfold val, val10, dot, p; cbn [fold_right]; ring.
Qed.

Ltac double_step :=
  match goal with
  | |- context [ck 64 (dot ?l + dot ?l) ≫= _] =>
    rewrite <- (dot_app l l);
    rewrite (ck_ok 64 (dot (l ++ l)) (2 ^ 62)); [|reflexivity| |reflexivity];
      [cbn [mbind option_bind]|eapply dot_small; [cbn [app dot_abs fold_right]; abs_bound|reflexivity]]
  end.

Lemma fe_sq2_spec f : fe_le loose f ->
  exists h, fe_sq2 f = Some h /\ fe_le tight h /\ val h ≡p 2 * (val f * val f).
Proof.
  destruct f as [f0 f1 f2 f3 f4 f5 f6 f7 f8 f9].
  intros (Hf0 & Hf1 & Hf2 & Hf3 & Hf4 & Hf5 & Hf6 & Hf7 & Hf8 & Hf9).
  unfold fe_sq2; do 13 ck32_step; do 10 dot_step; do 10 double_step; carry_dots.
  destruct Hk as [k Hk]; exists h; split_and!; [done..|]; rewrite Hk.
  eexists (k - 2 * (2 ^ 2 * f1 * f9 + 2 ^ 1 * f2 * f8 + 2 ^ 27 * f2 * f9 + 2 ^ 2 * f3 * f7 + 2 ^ 27 * f3 * f8 +
    2 ^ 53 * f3 * f9 + 2 ^ 1 * f4 * f6 + 2 ^ 27 * f4 * f7 + 2 ^ 52 * f4 * f8 + 2 ^ 78 * f4 *
    f9 + 2 ^ 1 * f5 * f5 + 2 ^ 27 * f5 * f6 + 2 ^ 53 * f5 * f7 + 2 ^ 78 * f5 * f8 + 2 ^ 104
    * f5 * f9 + 2 ^ 51 * f6 * f6 + 2 ^ 78 * f6 * f7 + 2 ^ 103 * f6 * f8 + 2 ^ 129 * f6 * f9
    + 2 ^ 103 * f7 * f7 + 2 ^ 129 * f7 * f8 + 2 ^ 155 * f7 * f9 + 2 ^ 153 * f8 * f8 + 2 ^
    180 * f8 * f9 + 2 ^ 205 * f9 * f9)).
  unfold val, val10, dot, p; cbn [app fold_right]; ring.
Qed.

(** ** Canonical bytes *)

Lemma quot_step_spec w h q A Q : 0 < w -> Z.abs h <= A -> Z.abs q <= Q -> A + Q < 2 ^ 31 ->
  exists q' e, quot_step w h q = Some q' /\ h + q = q' * 2 ^ w + e /\ 0 <= e < 2 ^ w /\
    Z.abs q' <= (A + Q) / 2 ^ w + 1.
Proof.
  intros Hw Hh Hq HA; unfold quot_step.
  rewrite (ck_ok 32 _ (A + Q)) by (simpl Z.sub; lia); cbn [mbind option_bind].
  destruct (shiftr_floor (h + q) w) as (e & E & He); [lia|].
  exists (Z.shiftr (h + q) w), e; split_and!; [done|lia..|].
  pose proof (Z.pow_pos_nonneg 2 w); rewrite <- Z.div_add by lia; apply div_le_bound; [lia|].
  rewrite <- (Z.abs_eq (2 ^ w)) at 1 by lia; rewrite <- Z.abs_mul; lia.
Qed.

Ltac quot_step_run :=
  match goal with
  | |- context [quot_step ?w ?h ?q ≫= _] =>
    match goal with Hh : Z.abs h <= ?A, Hq : Z.abs q <= ?Q |- _ =>
      let q' := fresh "q" in let e := fresh "e" in let E := fresh "Eq" in
      let He := fresh "He" in let Hq' := fresh "Hq" in
      destruct (quot_step_spec w h q A Q) as (q' & e & -> & E & He & Hq');
        [reflexivity|exact Hh|exact Hq|reflexivity|];
      cbn [mbind option_bind];
      let b := eval vm_compute in ((A + Q) / 2 ^ w + 1) in change (Z.abs q' <= b) in Hq'
    end
  end.

Ltac floor_step :=
  match goal with
  | |- context [carry_floor ?b ?w ?h ?h' ≫= _] =>
    match goal with Hh : Z.abs h <= ?A, Hh' : Z.abs h' <= ?A' |- _ =>
      let c := fresh "c" in let r := fresh "r" in let E := fresh "E" in
      let Hr := fresh "Hr" in let Hc := fresh "Hc" in let s := fresh "s" in
      destruct (carry_floor_spec b w h h' A A') as (c & r & -> & E & Hr & Hc);
        [reflexivity|reflexivity|exact Hh|exact Hh'|reflexivity|reflexivity|];
      cbn [mbind option_bind];
      let bc := eval vm_compute in (A / 2 ^ w + 1) in
      let bs := eval vm_compute in (A' + (A / 2 ^ w + 1)) in
      change (Z.abs c <= bc) in Hc;
      let Hs := fresh "Hs" in
      assert (Hs : Z.abs (h' + c) <= bs) by (clear - Hh' Hc; lia);
      let Es := fresh "Es" in
      remember (h' + c) as s eqn:Es; cbv beta iota
    end
  end.

(** [5 * tight], the bound of fe_tobytes: the sums that fe_isnonzero tests reach it, more than the
    1.1 * 2^25 that the comment of the source asks for. *)
Definition tobytes_bound : Z := 84724940.

Lemma byte_at_digit h k : 0 <= k -> byte_at h k = digit h k 8.
Proof. apply u8_shiftr. Qed.

Lemma byte_join_digit h k h' n : 0 <= k -> 0 <= n <= 8 -> in_u (k + n) h ->
  byte_join h k h' n = digit h k n + 2 ^ n * digit h' 0 (8 - n).
Proof.
  intros Hk Hn Hh; rewrite <- u8_join by done; unfold byte_join.
  rewrite !u8_lor; f_equal; apply u8_s32.
Qed.

Lemma fe_bytes_value h0 h1 h2 h3 h4 h5 h6 h7 h8 h9 :
  in_u 26 h0 -> in_u 25 h1 -> in_u 26 h2 -> in_u 25 h3 -> in_u 26 h4 -> in_u 25 h5 -> in_u 26 h6 -> in_u 25 h7 -> in_u 26 h8 -> in_u 25 h9 ->
  [byte_at h0 0; byte_at h0 8; byte_at h0 16; byte_join h0 24 h1 2;
   byte_at h1 6; byte_at h1 14; byte_join h1 22 h2 3; byte_at h2 5;
   byte_at h2 13; byte_join h2 21 h3 5; byte_at h3 3; byte_at h3 11;
   byte_join h3 19 h4 6; byte_at h4 2; byte_at h4 10; byte_at h4 18;
   byte_at h5 0; byte_at h5 8; byte_at h5 16; byte_join h5 24 h6 1;
   byte_at h6 7; byte_at h6 15; byte_join h6 23 h7 3; byte_at h7 5;
   byte_at h7 13; byte_join h7 21 h8 4; byte_at h8 4; byte_at h8 12;
   byte_join h8 20 h9 6; byte_at h9 2; byte_at h9 10; byte_at h9 18]
  = le_bytes 32 (val10 h0 h1 h2 h3 h4 h5 h6 h7 h8 h9).
Proof.
  intros H0 H1 H2 H3 H4 H5 H6 H7 H8 H9.
  match goal with |- ?l = _ =>
    rewrite <- (le_bytes_le_val l) by (repeat constructor; apply wrap_range; lia) end.
  change (length _) with 32%nat; f_equal; cbn [le_val]; unfold val10.
  rewrite !byte_at_digit, !byte_join_digit by (lia || (eapply in_u_mono; [|eassumption]; lia)).
  pose proof (digit_split4 h0 8 8 8 2 ltac:(lia) ltac:(lia) ltac:(lia) ltac:(lia) ltac:(clear - H0; mlia)) as E0.
  pose proof (digit_split4 h1 6 8 8 3 ltac:(lia) ltac:(lia) ltac:(lia) ltac:(lia) ltac:(clear - H1; mlia)) as E1.
  pose proof (digit_split4 h2 5 8 8 5 ltac:(lia) ltac:(lia) ltac:(lia) ltac:(lia) ltac:(clear - H2; mlia)) as E2.
  pose proof (digit_split4 h3 3 8 8 6 ltac:(lia) ltac:(lia) ltac:(lia) ltac:(lia) ltac:(clear - H3; mlia)) as E3.
  pose proof (digit_split4 h4 2 8 8 8 ltac:(lia) ltac:(lia) ltac:(lia) ltac:(lia) ltac:(clear - H4; mlia)) as E4.
  pose proof (digit_split4 h5 8 8 8 1 ltac:(lia) ltac:(lia) ltac:(lia) ltac:(lia) ltac:(clear - H5; mlia)) as E5.
  pose proof (digit_split4 h6 7 8 8 3 ltac:(lia) ltac:(lia) ltac:(lia) ltac:(lia) ltac:(clear - H6; mlia)) as E6.
  pose proof (digit_split4 h7 5 8 8 4 ltac:(lia) ltac:(lia) ltac:(lia) ltac:(lia) ltac:(clear - H7; mlia)) as E7.
  pose proof (digit_split4 h8 4 8 8 6 ltac:(lia) ltac:(lia) ltac:(lia) ltac:(lia) ltac:(clear - H8; mlia)) as E8.
  pose proof (digit_split4 h9 2 8 8 8 ltac:(lia) ltac:(lia) ltac:(lia) ltac:(lia) ltac:(clear - H9; mlia)) as E9.
  clear - E0 E1 E2 E3 E4 E5 E6 E7 E8 E9; zlit_norm; lia.
Qed.

(** The quotient by [p]: [V + q0 = q * 2^255 + e], where [q0] rounds 19 * h9 / 2^25
    and [V - 2^230 * h9] is small. *)
Lemma quotient_exact V h9 q0 e0 q e :
  19 * h9 + 2 ^ 24 = q0 * 2 ^ 25 + e0 -> 0 <= e0 < 2 ^ 25 -> Z.abs q0 <= 2 ^ 10 ->
  Z.abs (V - 2 ^ 230 * h9) <= 2 ^ 232 -> V + q0 = q * 2 ^ 255 + e -> 0 <= e < 2 ^ 255 ->
  0 <= V - q * p < p.
Proof. intros; unfold p; lia. Qed.

Lemma fe_tobytes_spec h : fe_le tobytes_bound h ->
  fe_tobytes h = Some (le_bytes 32 (val h mod p)).
Proof.
  destruct h as [h0 h1 h2 h3 h4 h5 h6 h7 h8 h9].
  intros (H0 & H1 & H2 & H3 & H4 & H5 & H6 & H7 & H8 & H9); unfold fe_tobytes.
  ck32_step.
  change (Z.shiftl 1 24) with (2 ^ 24).
  rewrite (ck_ok 32 (19 * h9 + 2 ^ 24) 1626551077)
    by (unfold tobytes_bound in *; zpow_norm; lia); cbn [mbind option_bind]; cbv zeta.
  destruct (shiftr_floor (19 * h9 + 2 ^ 24) 25) as (e & Ee & He); [done|].
  set (q0 := Z.shiftr _ 25) in *.
  assert (Hq0 : Z.abs q0 <= 50) by (unfold tobytes_bound in *; lia).
  clearbody q0.
  do 10 quot_step_run.
  assert (Hr : 0 <= val10 h0 h1 h2 h3 h4 h5 h6 h7 h8 h9 - q9 * p < p).
  { apply (quotient_exact _ h9 q0 e q9 (val10 e0 e1 e2 e3 e4 e5 e6 e7 e8 e9)).
    - exact Ee.
    - exact He.
    - clear - Hq0; lia.
    - clear - H0 H1 H2 H3 H4 H5 H6 H7 H8; unfold val10, tobytes_bound in *; lia.
    - clear - Eq Eq0 Eq1 Eq2 Eq3 Eq4 Eq5 Eq6 Eq7 Eq8; unfold val10; lia.
    - clear - He0 He1 He2 He3 He4 He5 He6 He7 He8 He9; unfold val10; lia. }
  clear - H0 H1 H2 H3 H4 H5 H6 H7 H8 H9 Hr Hq9; unfold tobytes_bound in *.
  ck32_step.
  assert (Hh : Z.abs (h0 + 19 * q9) <= 169450880) by lia.
  rewrite (ck_ok 32 _ _ ltac:(done) Hh) by reflexivity; cbn [mbind option_bind].
  remember (h0 + 19 * q9) as k0 eqn:Ek0.
  assert (Hz : Z.abs 0 <= 0) by done.
  do 10 floor_step.
  rewrite fe_bytes_value by assumption.
  f_equal; f_equal; unfold val.
  assert (EV : val10 r r0 r1 r2 r3 r4 r5 r6 r7 r8 + c8 * 2 ^ 255
    = val10 h0 h1 h2 h3 h4 h5 h6 h7 h8 h9 + 19 * q9).
  { clear - Ek0 E E0 E1 E2 E3 E4 E5 E6 E7 E8 Es Es0 Es1 Es2 Es3 Es4 Es5 Es6 Es7.
    unfold val10; lia. }
  assert (HV : 0 <= val10 r r0 r1 r2 r3 r4 r5 r6 r7 r8 < 2 ^ 255).
  { clear - Hr0 Hr1 Hr2 Hr3 Hr4 Hr5 Hr6 Hr7 Hr8 Hr9; unfold val10; lia. }
  clear - EV HV Hr; revert EV HV Hr.
  generalize (val10 r r0 r1 r2 r3 r4 r5 r6 r7 r8) (val10 h0 h1 h2 h3 h4 h5 h6 h7 h8 h9).
  intros R V EV HV Hr; apply (Z.mod_unique_pos _ _ q9); unfold p in *; lia.
Qed.

(** ** Congruence modulo [p] *)

#[export] Instance eqp_equiv : Equivalence eqp.
Proof.
  split.
  - intros a; exists 0; lia.
  - intros a b [k ->]; exists (- k); lia.
  - intros a b c [k ->] [l ->]; exists (k + l); lia.
Qed.

#[export] Instance eqp_add : Proper (eqp ==> eqp ==> eqp) Z.add.
Proof. intros a b [k ->] c d [l ->]; exists (k + l); lia. Qed.

#[export] Instance eqp_sub : Proper (eqp ==> eqp ==> eqp) Z.sub.
Proof. intros a b [k ->] c d [l ->]; exists (k - l); lia. Qed.

#[export] Instance eqp_opp : Proper (eqp ==> eqp) Z.opp.
Proof. intros a b [k ->]; exists (- k); lia. Qed.

#[export] Instance eqp_mul : Proper (eqp ==> eqp ==> eqp) Z.mul.
Proof. intros a b [k ->] c d [l ->]; exists (k * d + b * l + k * l * p); ring. Qed.

Lemma eqp_eq a b : a = b -> a ≡p b.
Proof. intros ->; reflexivity. Qed.

Lemma eqp_mod_iff a b : a ≡p b <-> a mod p = b mod p.
Proof.
  split; [intros [k ->]; apply Z.mod_add; done|].
  intros H; exists (a / p - b / p).
  pose proof (Z.div_mod a p ltac:(done)); pose proof (Z.div_mod b p ltac:(done)); lia.
Qed.

Lemma eqp_mod a : a mod p ≡p a.
Proof. apply eqp_mod_iff, Z.mod_mod; done. Qed.

(** ** Linear operations *)

Lemma fe_le_mono B B' f : B <= B' -> fe_le B f -> fe_le B' f.
Proof. destruct f; unfold fe_le; intros ? ?; destruct_and!; split_and!; by eapply Z.le_trans; [eassumption|lia]. Qed.

(** A limb-wise operation that is defined on bounded limbs. *)
Lemma limbs2_spec (op : Z -> Z -> option Z) (v : Z -> Z -> Z) B C f g :
  (forall a b, Z.abs a <= 2 * B -> Z.abs b <= 2 * C ->
     op a b = Some (v a b) /\ Z.abs (v a b) <= Z.abs a + Z.abs b) ->
  0 <= B -> 0 <= C -> fe_le B f -> fe_le C g ->
  exists h, limbs2 op f g = Some h /\ fe_le (B + C) h /\
    let '(Fe f0 f1 f2 f3 f4 f5 f6 f7 f8 f9) := f in
    let '(Fe g0 g1 g2 g3 g4 g5 g6 g7 g8 g9) := g in
    h = Fe (v f0 g0) (v f1 g1) (v f2 g2) (v f3 g3) (v f4 g4) (v f5 g5) (v f6 g6) (v f7 g7) (v f8 g8) (v f9 g9).
Proof.
  intros Hop HB HC.
  assert (Ho : forall K a b, (K = 1 \/ K = 2) -> Z.abs a <= K * B -> Z.abs b <= K * C ->
    op a b = Some (v a b) /\ Z.abs (v a b) <= K * (B + C)).
  { intros K a b HK Ha Hb; destruct (Hop a b) as [E H]; [nia..|]; split; [done|nia]. }
  destruct f as [f0 f1 f2 f3 f4 f5 f6 f7 f8 f9], g as [g0 g1 g2 g3 g4 g5 g6 g7 g8 g9].
  intros (Hf0 & Hf1 & Hf2 & Hf3 & Hf4 & Hf5 & Hf6 & Hf7 & Hf8 & Hf9)
    (Hg0 & Hg1 & Hg2 & Hg3 & Hg4 & Hg5 & Hg6 & Hg7 & Hg8 & Hg9).
  eexists; split; [|split; [|reflexivity]].
  - unfold limbs2; rewrite (proj1 (Ho 2 f0 g0 ltac:(by right) ltac:(clear - Hf0; lia) ltac:(clear - Hg0; lia))),
      (proj1 (Ho 1 f1 g1 ltac:(by left) ltac:(clear - Hf1; lia) ltac:(clear - Hg1; lia))),
      (proj1 (Ho 2 f2 g2 ltac:(by right) ltac:(clear - Hf2; lia) ltac:(clear - Hg2; lia))),
      (proj1 (Ho 1 f3 g3 ltac:(by left) ltac:(clear - Hf3; lia) ltac:(clear - Hg3; lia))),
      (proj1 (Ho 2 f4 g4 ltac:(by right) ltac:(clear - Hf4; lia) ltac:(clear - Hg4; lia))),
      (proj1 (Ho 1 f5 g5 ltac:(by left) ltac:(clear - Hf5; lia) ltac:(clear - Hg5; lia))),
      (proj1 (Ho 2 f6 g6 ltac:(by right) ltac:(clear - Hf6; lia) ltac:(clear - Hg6; lia))),
      (proj1 (Ho 1 f7 g7 ltac:(by left) ltac:(clear - Hf7; lia) ltac:(clear - Hg7; lia))),
      (proj1 (Ho 2 f8 g8 ltac:(by right) ltac:(clear - Hf8; lia) ltac:(clear - Hg8; lia))),
      (proj1 (Ho 1 f9 g9 ltac:(by left) ltac:(clear - Hf9; lia) ltac:(clear - Hg9; lia))).
    reflexivity.
  - unfold fe_le; split_and!;
      first [apply (Ho 2 _ _ ltac:(by right)); assumption
            |rewrite <- (Z.mul_1_l (B + C)); apply (Ho 1 _ _ ltac:(by left)); lia].
Qed.

Lemma fe_add_spec B C f g : (2 * (B + C) <? 2 ^ 31) = true -> 0 <= B -> 0 <= C ->
  fe_le B f -> fe_le C g ->
  exists h, fe_add f g = Some h /\ fe_le (B + C) h /\ val h = val f + val g.
Proof.
  intros HB%Z.ltb_lt HB0 HC0 Hf Hg.
  destruct (limbs2_spec (fun a b => ck32 (a + b)) Z.add B C f g) as (h & E & Hh & Ev); try done.
  { intros a b Ha Hb; split; [|lia]; apply (ck_ok 32 _ (2 * (B + C))); simpl Z.sub; lia. }
  exists h; split_and!; [done..|]; destruct f, g; rewrite Ev; unfold val, val10; ring.
Qed.

Lemma fe_sub_spec B C f g : (2 * (B + C) <? 2 ^ 31) = true -> 0 <= B -> 0 <= C ->
  fe_le B f -> fe_le C g ->
  exists h, fe_sub f g = Some h /\ fe_le (B + C) h /\ val h = val f - val g.
Proof.
  intros HB%Z.ltb_lt HB0 HC0 Hf Hg.
  destruct (limbs2_spec (fun a b => ck32 (a - b)) Z.sub B C f g) as (h & E & Hh & Ev); try done.
  { intros a b Ha Hb; split; [|lia]; apply (ck_ok 32 _ (2 * (B + C))); simpl Z.sub; lia. }
  exists h; split_and!; [done..|]; destruct f, g; rewrite Ev; unfold val, val10; ring.
Qed.

Lemma fe_neg_spec B f : (2 * B <? 2 ^ 31) = true -> fe_le B f ->
  exists h, fe_neg f = Some h /\ fe_le B h /\ val h = - val f.
Proof.
  intros HB%Z.ltb_lt; destruct f as [f0 f1 f2 f3 f4 f5 f6 f7 f8 f9].
  intros (Hf0 & Hf1 & Hf2 & Hf3 & Hf4 & Hf5 & Hf6 & Hf7 & Hf8 & Hf9).
  assert (Hn : forall a, Z.abs a <= 2 * B -> ck32 (- a) = Some (- a)).
  { intros a Ha; apply (ck_ok 32 _ (2 * B)); simpl Z.sub; lia. }
  assert (0 <= B) by lia; eexists; split; [|split].
  - unfold fe_neg, limbs2.
    rewrite (Hn f0 ltac:(clear - Hf0 H; lia)),
      (Hn f1 ltac:(clear - Hf1 H; lia)),
      (Hn f2 ltac:(clear - Hf2 H; lia)),
      (Hn f3 ltac:(clear - Hf3 H; lia)),
      (Hn f4 ltac:(clear - Hf4 H; lia)),
      (Hn f5 ltac:(clear - Hf5 H; lia)),
      (Hn f6 ltac:(clear - Hf6 H; lia)),
      (Hn f7 ltac:(clear - Hf7 H; lia)),
      (Hn f8 ltac:(clear - Hf8 H; lia)),
      (Hn f9 ltac:(clear - Hf9 H; lia)).
    reflexivity.
  - unfold fe_le; rewrite !Z.abs_opp; by split_and!.
  - unfold val, val10; ring.
Qed.

Lemma cmov_limb_0 a b : cmov_limb 0 a b = a.
Proof. unfold cmov_limb; cbv zeta; by rewrite Z.land_0_r, Z.lxor_0_r. Qed.
Lemma cmov_limb_1 a b : cmov_limb 1 a b = b.
Proof.
  unfold cmov_limb; cbv zeta; change (- (1)) with (-1).
  by rewrite Z.land_m1_r, <- Z.lxor_assoc, Z.lxor_nilpotent, Z.lxor_0_l.
Qed.

Lemma fe_cmov_spec f g b : b = 0 \/ b = 1 -> fe_cmov f g b = Some (if b =? 1 then g else f).
Proof.
  intros Hb; unfold fe_cmov; rewrite decide_True by done; destruct f, g; cbn [limbs2].
  destruct Hb as [-> | ->]; cbn [mbind option_bind Z.eqb Pos.eqb];
    by rewrite ?cmov_limb_0, ?cmov_limb_1.
Qed.

(** The low bit and zero test of the canonical value. *)
Lemma fe_isnegative_spec f : fe_le tobytes_bound f ->
  fe_isnegative f = Some ((val f mod p) mod 2).
Proof.
  intros H; unfold fe_isnegative; rewrite fe_tobytes_spec by done; cbn [mbind option_bind].
  f_equal; change (nth 0 (le_bytes 32 (val f mod p)) 0) with ((val f mod p) mod 256).
  change 1 with (Z.ones 1) at 1; rewrite Z.land_ones by done; change (2 ^ 1) with 2.
  change 256 with (2 * 128); rewrite Z.rem_mul_r by done.
  rewrite (Z.mul_comm 2), Z.mod_add, Z.mod_mod by done; done.
Qed.

Lemma fold_lor_zero l acc : 0 <= acc -> Forall (fun b => 0 <= b) l ->
  0 <= fold_left Z.lor l acc /\ (fold_left Z.lor l acc = 0 <-> acc = 0 /\ Forall (eq 0) l).
Proof.
  intros Ha Hl; revert acc Ha; induction Hl as [|b l Hb _ IH]; intros acc Ha; simpl.
  - split; [done|]; split; [done|by intros [? _]].
  - destruct (IH (Z.lor acc b)) as [H1 H2]; [by apply Z.lor_nonneg|]; split; [done|].
    rewrite H2, Z.lor_eq_0_iff, Forall_cons; naive_solver.
Qed.

Lemma fold_lor_range l acc : in_u 8 acc -> Forall is_byte l -> in_u 8 (fold_left Z.lor l acc).
Proof.
  intros Ha Hl; revert acc Ha; induction Hl; intros acc Ha; simpl; [done|]; apply IHHl.
  by apply in_u_lor.
Qed.

Lemma le_val_zero l : Forall (eq 0) l -> le_val l = 0.
Proof. induction 1 as [|b l <- _ IH]; simpl; [done|]; rewrite IH; done. Qed.

Lemma fe_isnonzero_spec f : fe_le tobytes_bound f ->
  fe_isnonzero f = Some (if val f mod p =? 0 then 0 else 1).
Proof.
  intros H; unfold fe_isnonzero; rewrite fe_tobytes_spec by done; cbn [mbind option_bind]; f_equal.
  set (v := val f mod p).
  assert (Hv : 0 <= v < 2 ^ 255) by
    (pose proof (Z.mod_pos_bound (val f) p ltac:(done)); subst v; unfold p in *; lia).
  pose proof (le_bytes_range 32 v) as Hb.
  assert (Hz : fold_left Z.lor (le_bytes 32 v) 0 = 0 <-> v = 0).
  { destruct (fold_lor_zero (le_bytes 32 v) 0) as [_ Hz];
      [done|by eapply Forall_impl; [exact Hb|intros ? []]|].
    rewrite Hz; split; [|intros ->; split; [done|by repeat constructor]].
    intros [_ Hl]; apply le_val_zero in Hl; rewrite le_val_le_bytes, Z.mod_small in Hl; [done|].
    change (256 ^ Z.of_nat 32) with (2 ^ 256); lia. }
  destruct (fold_lor_range (le_bytes 32 v) 0 ltac:(done) Hb) as [H0 H1].
  revert Hz H0 H1; generalize (fold_left Z.lor (le_bytes 32 v) 0); intros x Hz H0 H1.
  rewrite Z.shiftr_div_pow2 by done; change (2 ^ 8) with 256 in *.
  destruct (Z.eqb_spec v 0) as [E|E].
  - apply Hz in E as ->; done.
  - rewrite Z.div_small; [done|]; enough (x <> 0) by lia; by intros ?%Hz.
Qed.

(** ** Theorems *)

(** 1.1 * 2^24, the bound of the arguments of fe_add, fe_sub and fe_neg. *)
Definition linear_bound : Z := 18454937.

(** C34. Within the limb bounds the code states, fe_mul, fe_sq and fe_sq2
    overflow no 64-bit intermediate value and return a carried element that is
    the product, the square or twice the square modulo 2^255 - 19, and fe_add,
    fe_sub and fe_neg return the exact sum, difference and negation. *)
Theorem field_arithmetic_correct f g :
  (fe_le loose f -> fe_le loose g ->
     (exists h, fe_mul f g = Some h /\ fe_le tight h /\ val h ≡p val f * val g) /\
     (exists h, fe_sq f = Some h /\ fe_le tight h /\ val h ≡p val f * val f) /\
     (exists h, fe_sq2 f = Some h /\ fe_le tight h /\ val h ≡p 2 * (val f * val f))) /\
  (fe_le linear_bound f -> fe_le linear_bound g ->
     (exists h, fe_add f g = Some h /\ fe_le (2 * linear_bound) h /\ val h = val f + val g) /\
     (exists h, fe_sub f g = Some h /\ fe_le (2 * linear_bound) h /\ val h = val f - val g) /\
     (exists h, fe_neg f = Some h /\ fe_le linear_bound h /\ val h = - val f)).
Proof.
  split; intros Hf Hg; split_and!.
  - by apply fe_mul_spec.
  - by apply fe_sq_spec.
  - by apply fe_sq2_spec.
  - by apply (fe_add_spec linear_bound linear_bound).
  - by apply (fe_sub_spec linear_bound linear_bound).
  - by apply fe_neg_spec.
Qed.

Lemma field_arithmetic_correct_witness :
  exists h, fe_mul (Fe 1 2 3 4 5 6 7 8 9 10) (Fe (-1) 2 (-3) 4 (-5) 6 (-7) 8 (-9) 33000000) = Some h /\
    val h ≡p val (Fe 1 2 3 4 5 6 7 8 9 10) * val (Fe (-1) 2 (-3) 4 (-5) 6 (-7) 8 (-9) 33000000).
Proof.
  destruct (proj1 (field_arithmetic_correct (Fe 1 2 3 4 5 6 7 8 9 10)
    (Fe (-1) 2 (-3) 4 (-5) 6 (-7) 8 (-9) 33000000))) as [(h & E & _ & V) _].
  - unfold fe_le, loose; lia.
  - unfold fe_le, loose; lia.
  - exists h; split; assumption.
Defined.

(** fe_tobytes writes the unique representative below 2^255 - 19 of an
    element in 32 bytes, so two elements have the same bytes exactly when they
    are equal modulo p; fe_isnegative is its lowest bit and fe_isnonzero is
    zero exactly on zero. *)
Theorem field_bytes_canonical f g :
  fe_le tobytes_bound f -> fe_le tobytes_bound g ->
  fe_tobytes f = Some (le_bytes 32 (val f mod p)) /\
  (fe_tobytes f = fe_tobytes g <-> val f ≡p val g) /\
  fe_isnegative f = Some ((val f mod p) mod 2) /\
  (fe_isnonzero f = Some 0 <-> val f ≡p 0).
Proof.
  intros Hf Hg; rewrite fe_isnonzero_spec, fe_isnegative_spec, !fe_tobytes_spec by done.
  split_and!; [done| |done|].
  - rewrite eqp_mod_iff; split; [intros E%(inj Some)|by intros ->].
    apply (f_equal le_val) in E; rewrite !le_val_le_bytes in E.
    change (256 ^ Z.of_nat 32) with (2 ^ 256) in E.
    pose proof (Z.mod_pos_bound (val f) p ltac:(done)).
    pose proof (Z.mod_pos_bound (val g) p ltac:(done)).
    rewrite !(Z.mod_small _ (2 ^ 256)) in E by (unfold p in *; lia); done.
  - rewrite eqp_mod_iff; change (0 mod p) with 0.
    destruct (Z.eqb_spec (val f mod p) 0); split; congruence.
Qed.

Lemma field_bytes_canonical_witness :
  fe_tobytes (Fe (-19) 0 0 0 0 0 0 0 0 (2 ^ 25)) = fe_tobytes fe_0.
Proof.
  apply field_bytes_canonical; [unfold fe_le, tobytes_bound, fe_0; lia..|].
  exists 1; vm_compute; reflexivity.
Defined.
End Field.
