(* ===== verification/FieldPow.v ===== *)
(** Powers, inversion and decoding of field elements: fe_invert, fe_divpowm1 and the
    fe_frombytes part of ge_frombytes_vartime and ge_fromfe_frombytes_vartime
    (src/src/crypto/crypto-ops.c). *)

From S2P Require Import Prelude.
From S2P Require Import IntUtil.
From S2P Require Import Limbs.
From S2P Require Import Field.

Module FieldPow.

Import Limbs Field.

(** [for (i = 0; i < n; ++i) fe_sq(t, t)] *)
Fixpoint fe_sqn (n : nat) (t : fe) : option fe :=
  match n with O => Some t | S n => t ← fe_sq t; fe_sqn n t end.

Definition fe_invert (z : fe) : option fe :=
  t0 ← fe_sq z;
  t1 ← fe_sq t0;
  t1 ← fe_sq t1;
  t1 ← fe_mul z t1;
  t0 ← fe_mul t0 t1;
  t2 ← fe_sq t0;
  t1 ← fe_mul t1 t2;
  t2 ← fe_sq t1;
  t2 ← fe_sqn 4 t2;
  t1 ← fe_mul t2 t1;
  t2 ← fe_sq t1;
  t2 ← fe_sqn 9 t2;
  t2 ← fe_mul t2 t1;
  t3 ← fe_sq t2;
  t3 ← fe_sqn 19 t3;
  t2 ← fe_mul t3 t2;
  t2 ← fe_sq t2;
  t2 ← fe_sqn 9 t2;
  t1 ← fe_mul t2 t1;
  t2 ← fe_sq t1;
  t2 ← fe_sqn 49 t2;
  t2 ← fe_mul t2 t1;
  t3 ← fe_sq t2;
  t3 ← fe_sqn 99 t3;
  t2 ← fe_mul t3 t2;
  t2 ← fe_sq t2;
  t2 ← fe_sqn 49 t2;
  t1 ← fe_mul t2 t1;
  t1 ← fe_sq t1;
  t1 ← fe_sqn 4 t1;
  fe_mul t1 t0.

Definition fe_divpowm1 (u v : fe) : option fe :=
  v3 ← fe_sq v;
  v3 ← fe_mul v3 v;
  uv7 ← fe_sq v3;
  uv7 ← fe_mul uv7 v;
  uv7 ← fe_mul uv7 u;
  t0 ← fe_sq uv7;
  t1 ← fe_sq t0;
  t1 ← fe_sq t1;
  t1 ← fe_mul uv7 t1;
  t0 ← fe_mul t0 t1;
  t0 ← fe_sq t0;
  t0 ← fe_mul t1 t0;
  t1 ← fe_sq t0;
  t1 ← fe_sqn 4 t1;
  t0 ← fe_mul t1 t0;
  t1 ← fe_sq t0;
  t1 ← fe_sqn 9 t1;
  t1 ← fe_mul t1 t0;
  t2 ← fe_sq t1;
  t2 ← fe_sqn 19 t2;
  t1 ← fe_mul t2 t1;
  t1 ← fe_sqn 10 t1;
  t0 ← fe_mul t1 t0;
  t1 ← fe_sq t0;
  t1 ← fe_sqn 49 t1;
  t1 ← fe_mul t1 t0;
  t2 ← fe_sq t1;
  t2 ← fe_sqn 99 t2;
  t1 ← fe_mul t2 t1;
  t1 ← fe_sqn 50 t1;
  t0 ← fe_mul t1 t0;
  t0 ← fe_sq t0;
  t0 ← fe_sq t0;
  t0 ← fe_mul t0 uv7;
  t0 ← fe_mul t0 v3;
  fe_mul t0 u.

(** ** Evaluation modulo [p] *)

(** One reduction by [2^255 = 19], and powers by squaring. *)
Definition redp (x : Z) : Z := Z.land x (Z.ones 255) + 19 * Z.shiftr x 255.
Definition mulp (x y : Z) : Z := redp (redp (x * y)).
Fixpoint powp (a : Z) (e : positive) : Z :=
  match e with
  | xH => a
  | xO e => let z := powp a e in mulp z z
  | xI e => let z := powp a e in mulp (mulp z z) a
  end.

(** ** Loading bytes *)

Definition load_3 (s : list Z) (k : nat) : Z :=
  Z.lor (Z.lor (nth k s 0) (Z.shiftl (nth (k + 1) s 0) 8)) (Z.shiftl (nth (k + 2) s 0) 16).
Definition load_4 (s : list Z) (k : nat) : Z :=
  Z.lor (load_3 s k) (Z.shiftl (nth (k + 3) s 0) 24).

(** The carries of fe_frombytes. *)
Definition frombytes_carry (h0 h1 h2 h3 h4 h5 h6 h7 h8 h9 : Z) : option fe :=
  '(h9, h0) ← carry_round19 25 h9 h0;
  '(h1, h2) ← carry_round 25 h1 h2;
  '(h3, h4) ← carry_round 25 h3 h4;
  '(h5, h6) ← carry_round 25 h5 h6;
  '(h7, h8) ← carry_round 25 h7 h8;
  '(h0, h1) ← carry_round 26 h0 h1;
  '(h2, h3) ← carry_round 26 h2 h3;
  '(h4, h5) ← carry_round 26 h4 h5;
  '(h6, h7) ← carry_round 26 h6 h7;
  '(h8, h9) ← carry_round 26 h8 h9;
  Some (Fe (s32 h0) (s32 h1) (s32 h2) (s32 h3) (s32 h4) (s32 h5) (s32 h6) (s32 h7) (s32 h8) (s32 h9)).

(** ge_frombytes_vartime up to [/* End fe_frombytes.c */]: [None] is an overflow,
    [Some None] the rejection of a number that is not canonical. *)
Definition fe_frombytes_canonical (s : list Z) : option (option fe) :=
  let h0 := load_4 s 0 in
  let h1 := Z.shiftl (load_3 s 4) 6 in
  let h2 := Z.shiftl (load_3 s 7) 5 in
  let h3 := Z.shiftl (load_3 s 10) 3 in
  let h4 := Z.shiftl (load_3 s 13) 2 in
  let h5 := load_4 s 16 in
  let h6 := Z.shiftl (load_3 s 20) 7 in
  let h7 := Z.shiftl (load_3 s 23) 5 in
  let h8 := Z.shiftl (load_3 s 26) 4 in
  let h9 := Z.shiftl (Z.land (load_3 s 29) 8388607) 2 in
  if (h9 =? 33554428) && (h8 =? 268435440) && (h7 =? 536870880) && (h6 =? 2147483520)
     && (h5 =? 4294967295) && (h4 =? 67108860) && (h3 =? 134217720) && (h2 =? 536870880)
     && (h1 =? 1073741760) && (h0 >=? 4294967277)
  then Some None
  else f ← frombytes_carry h0 h1 h2 h3 h4 h5 h6 h7 h8 h9; Some (Some f).

(** The same part of ge_fromfe_frombytes_vartime: all 256 bits, no rejection. *)
Definition fe_frombytes_any (s : list Z) : option fe :=
  frombytes_carry (load_4 s 0) (Z.shiftl (load_3 s 4) 6) (Z.shiftl (load_3 s 7) 5)
    (Z.shiftl (load_3 s 10) 3) (Z.shiftl (load_3 s 13) 2) (load_4 s 16)
    (Z.shiftl (load_3 s 20) 7) (Z.shiftl (load_3 s 23) 5) (Z.shiftl (load_3 s 26) 4)
    (Z.shiftl (load_3 s 29) 2).

(** ** Powers *)

(** [f] can be multiplied and has the value [z ^ n]. *)
Definition power (z : Z) (f : fe) (n : Z) : Prop := 0 <= n /\ fe_le loose f /\ val f ≡p z ^ n.

Lemma tight_loose f : fe_le tight f -> fe_le loose f.
Proof. by apply fe_le_mono. Qed.

Lemma power_mul z f g m n : power z f m -> power z g n ->
  exists h, fe_mul f g = Some h /\ fe_le tight h /\ power z h (m + n).
Proof.
  intros (Hm & Hf & Ef) (Hn & Hg & Eg).
  destruct (fe_mul_spec f g) as (h & E & Hh & Eh); [done..|].
  exists h; split; [done|]; split; [done|]; split_and!; [lia|by apply tight_loose|].
  by rewrite Eh, Ef, Eg, Z.pow_add_r.
Qed.

Lemma power_sq z f n : power z f n -> exists h, fe_sq f = Some h /\ power z h (2 * n).
Proof.
  intros (Hn & Hf & Ef); destruct (fe_sq_spec f) as (h & E & Hh & Eh); [done|].
  exists h; split; [done|]; split_and!; [lia|by apply tight_loose|].
  rewrite Eh, Ef, <- Z.pow_add_r by done; apply eqp_eq; f_equal; lia.
Qed.

Lemma power_sqn k z f n : power z f n ->
  exists h, fe_sqn k f = Some h /\ power z h (2 ^ Z.of_nat k * n).
Proof.
  revert f n; induction k as [|k IH]; intros f n Hf; [exists f; by rewrite Z.mul_1_l|].
  destruct (power_sq z f n Hf) as (h & E & Hh); cbn [fe_sqn]; rewrite E; cbn [mbind option_bind].
  destruct (IH h _ Hh) as (h' & E' & Hh'); exists h'; split; [done|].
  by rewrite Nat2Z.inj_succ, Z.pow_succ_r, (Z.mul_comm 2), <- Z.mul_assoc by lia.
Qed.

Lemma eqp_pow a b n : a ≡p b -> a ^ n ≡p b ^ n.
Proof.
  intros H; destruct (Z.lt_ge_cases n 0); [by rewrite !Z.pow_neg_r|].
  pattern n; apply natlike_ind; [done|intros k Hk IH|done].
  rewrite !Z.pow_succ_r by done; by rewrite IH, H.
Qed.

Lemma redp_eqp x : redp x ≡p x.
Proof.
  unfold redp; rewrite Z.land_ones, Z.shiftr_div_pow2 by done.
  exists (- (x / 2 ^ 255)); pose proof (Z.div_mod x (2 ^ 255) ltac:(done)); unfold p; lia.
Qed.

Lemma mulp_eqp x y : mulp x y ≡p x * y.
Proof. unfold mulp; by rewrite !redp_eqp. Qed.

Lemma powp_eqp a e : powp a e ≡p a ^ Zpos e.
Proof.
  induction e as [e IH|e IH|]; cbn [powp]; rewrite ?mulp_eqp, ?IH; apply eqp_eq; [| |by rewrite Z.pow_1_r].
  - rewrite Pos2Z.inj_xI, Z.pow_add_r, Z.pow_1_r, Z.mul_comm, (Z.mul_comm 2), Z.pow_mul_r by done; ring.
  - rewrite Pos2Z.inj_xO, (Z.mul_comm 2), Z.pow_mul_r by done; ring.
Qed.

(** One step of a chain of powers of [z], with the exponent evaluated. *)
Ltac power_step :=
  let h := fresh "t" in let E := fresh "E" in let H := fresh "H" in
  let HT := fresh "HT" in let finish n :=
    (let v := eval vm_compute in n in
     rewrite E; clear E; cbn [mbind option_bind];
     match type of H with power ?z ?f _ => change (power z f v) in H end) in
  match goal with
  | |- context [fe_mul ?f ?g] =>
    match goal with Hf : power ?z f ?m, Hg : power ?z g ?n |- _ =>
      destruct (power_mul z f g m n Hf Hg) as (h & E & HT & H); finish (m + n) end
  | |- context [fe_sq ?f ≫= _] =>
    match goal with Hf : power ?z f ?n |- _ =>
      destruct (power_sq z f n Hf) as (h & E & H); finish (2 * n) end
  | |- context [fe_sqn ?k ?f ≫= _] =>
    match goal with Hf : power ?z f ?n |- _ =>
      destruct (power_sqn k z f n Hf) as (h & E & H); finish (2 ^ Z.of_nat k * n) end
  end.

Lemma power_1 z : fe_le loose z -> power (val z) z 1.
Proof. intros; split_and!; [done|done|by rewrite Z.pow_1_r]. Qed.

Lemma fe_invert_spec z : fe_le loose z ->
  exists h, fe_invert z = Some h /\ fe_le tight h /\ val h ≡p val z ^ (p - 2).
Proof.
  intros Hz; pose proof (power_1 z Hz); unfold fe_invert; do 31 power_step.
  eexists; split; [done|]; split; [eassumption|].
  match goal with H : power _ ?t _ |- val ?t ≡p _ => apply H end.
Qed.

Lemma fe_divpowm1_spec u v : fe_le loose u -> fe_le loose v ->
  exists h, fe_divpowm1 u v = Some h /\ fe_le tight h /\
    val h ≡p val u * val v ^ 3 * (val u * val v ^ 7) ^ ((p - 5) / 8).
Proof.
  intros Hu Hv; pose proof (power_1 v Hv) as Pv; unfold fe_divpowm1; do 4 power_step.
  destruct (fe_mul_spec t2 u) as (w & -> & Tw & Ew); [apply H2|done|]; cbn [mbind option_bind].
  pose proof (power_1 w (tight_loose w Tw)) as Pw.
  do 29 power_step.
  match goal with |- context [fe_mul ?f ?g ≫= _] =>
    match goal with Hf : power (val w) f _, Hg : power (val v) g _ |- _ =>
      destruct Hf as (_ & Lf & Ef), Hg as (_ & Lg & Eg);
      destruct (fe_mul_spec f g Lf Lg) as (a & -> & Ta & Ea) end end; cbn [mbind option_bind].
  destruct (fe_mul_spec a u) as (b & -> & Tb & Eb); [by apply tight_loose|done|].
  exists b; split_and!; [done..|].
  destruct H2 as (_ & _ & E2); rewrite Eb, Ea, Ef, Eg.
  rewrite (eqp_pow (val w) (val u * val v ^ 7)); [apply eqp_eq; change ((p - 5) / 8) with (2 ^ 252 - 3)|].
  - match goal with |- _ ^ ?n * _ * _ = _ => change (2 ^ 252 - 3) with n end.
    generalize ((val u * val v ^ 7) ^ 7237005577332262213973186563042994240829374041602535252466099000494570602493).
    intros x; ring.
  - rewrite Ew, E2; apply eqp_eq; ring.
Qed.

(** ** Decoding *)

Lemma nth_digit s k : Forall is_byte s -> (k < length s)%nat ->
  nth k s 0 = digit (le_val s) (8 * Z.of_nat k) 8.
Proof.
  intros Hs Hk; rewrite <- (le_bytes_le_val s Hs) at 1.
  apply nth_lookup_Some; rewrite IntUtil.le_bytes_lookup by done.
  unfold digit; do 3 f_equal; rewrite Z.pow_mul_r by lia; done.
Qed.

Lemma load_3_digit s k : Forall is_byte s -> (k + 2 < length s)%nat ->
  load_3 s k = digit (le_val s) (8 * Z.of_nat k) 24.
Proof.
  intros Hs Hk; unfold load_3; rewrite !nth_digit by (done || lia).
  change 24 with (8 + 8 + 8); rewrite !digit_split by lia.
  pose proof (digit_range (le_val s) (8 * Z.of_nat k) 8 ltac:(lia)).
  pose proof (digit_range (le_val s) (8 * Z.of_nat (k + 1)) 8 ltac:(lia)).
  rewrite (lor_shiftl_add 8) by (done || lia).
  rewrite (lor_shiftl_add 16) by (lia || (unfold in_u in *; zpow_norm; lia)).
  replace (8 * Z.of_nat (k + 1)) with (8 * Z.of_nat k + 8) by lia.
  replace (8 * Z.of_nat (k + 2)) with (8 * Z.of_nat k + (8 + 8)) by lia.
  change (2 ^ (8 + 8)) with (2 ^ 16); lia.
Qed.

Lemma load_4_digit s k : Forall is_byte s -> (k + 3 < length s)%nat ->
  load_4 s k = digit (le_val s) (8 * Z.of_nat k) 32.
Proof.
  intros Hs Hk; unfold load_4; rewrite load_3_digit, nth_digit by (done || lia).
  change 32 with (24 + 8); rewrite digit_split by lia.
  rewrite lor_shiftl_add by (lia || apply digit_range; lia).
  replace (8 * Z.of_nat (k + 3)) with (8 * Z.of_nat k + 24) by lia; lia.
Qed.

Lemma frombytes_carry_spec h0 h1 h2 h3 h4 h5 h6 h7 h8 h9 :
  in_u 32 h0 -> in_u 30 h1 -> in_u 30 h2 -> in_u 30 h3 -> in_u 30 h4 -> in_u 32 h5 ->
  in_u 31 h6 -> in_u 30 h7 -> in_u 30 h8 -> in_u 26 h9 ->
  exists f, frombytes_carry h0 h1 h2 h3 h4 h5 h6 h7 h8 h9 = Some f /\ fe_le tight f /\
    val f ≡p val10 h0 h1 h2 h3 h4 h5 h6 h7 h8 h9.
Proof.
  assert (Hu : forall w h, in_u w h -> Z.abs h <= 2 ^ w) by (unfold in_u; intros; lia).
  intros H0%Hu H1%Hu H2%Hu H3%Hu H4%Hu H5%Hu H6%Hu H7%Hu H8%Hu H9%Hu; unfold frombytes_carry.
  carry19_step; do 9 carry_step.
  eexists; split; [reflexivity|]; s32_all; split; [fe_bounds|].
  exists (- c); unfold val, val10, p; drop_bounds; lia.
Qed.

Lemma shiftl_range x w k : 0 <= w -> 0 <= k -> in_u w x -> in_u (w + k) (Z.shiftl x k).
Proof.
  intros Hw Hk [H0 H1]; rewrite Z.shiftl_mul_pow2 by done; unfold in_u; rewrite Z.pow_add_r by done.
  pose proof (Z.pow_pos_nonneg 2 k); nia.
Qed.

(** The limbs that the loads read, for a value [V] cut at bit [n]. *)
Lemma loads_value V n : 232 <= n <= 256 ->
  val10 (digit V 0 32) (Z.shiftl (digit V 32 24) 6) (Z.shiftl (digit V 56 24) 5)
    (Z.shiftl (digit V 80 24) 3) (Z.shiftl (digit V 104 24) 2) (digit V 128 32)
    (Z.shiftl (digit V 160 24) 7) (Z.shiftl (digit V 184 24) 5) (Z.shiftl (digit V 208 24) 4)
    (Z.shiftl (digit V 232 (n - 232)) 2) = digit V 0 n.
Proof.
  intros Hn; rewrite !Z.shiftl_mul_pow2 by done; unfold val10.
  replace n with (32 + (24 + (24 + (24 + (24 + (32 + (24 + (24 + (24 + (n - 232)))))))))) at 2 by lia.
  rewrite !digit_split by lia; rewrite ?Z.add_0_l; zlit_norm; zpow_norm; lia.
Qed.

Lemma fe_frombytes_any_spec s : length s = 32%nat -> Forall is_byte s ->
  exists f, fe_frombytes_any s = Some f /\ fe_le tight f /\ val f ≡p le_val s.
Proof.
  intros Hl Hs; unfold fe_frombytes_any.
  rewrite !load_3_digit, !load_4_digit by (done || lia); simpl Z.of_nat; simpl Z.mul.
  set (V := le_val s).
  destruct (frombytes_carry_spec (digit V 0 32) (Z.shiftl (digit V 32 24) 6)
    (Z.shiftl (digit V 56 24) 5) (Z.shiftl (digit V 80 24) 3) (Z.shiftl (digit V 104 24) 2)
    (digit V 128 32) (Z.shiftl (digit V 160 24) 7) (Z.shiftl (digit V 184 24) 5)
    (Z.shiftl (digit V 208 24) 4) (Z.shiftl (digit V 232 24) 2)) as (f & E & Hf & Ef);
    try (eapply in_u_mono; [|apply shiftl_range; [| |apply digit_range]]; lia);
    try (apply digit_range; lia).
  exists f; split_and!; [done..|]; rewrite Ef; apply eqp_eq.
  etransitivity; [apply (loads_value V 256); lia|]; apply digit_all.
  pose proof (le_val_range s Hs) as Hr; rewrite Hl in Hr; exact Hr.
Qed.

(** The rejection of numbers that are not canonical is exact. *)
Lemma canonical_check d0 d1 d2 d3 d4 d5 d6 d7 d8 d9 y :
  in_u 32 d0 -> in_u 24 d1 -> in_u 24 d2 -> in_u 24 d3 -> in_u 24 d4 -> in_u 32 d5 ->
  in_u 24 d6 -> in_u 24 d7 -> in_u 24 d8 -> in_u 23 d9 ->
  val10 d0 (Z.shiftl d1 6) (Z.shiftl d2 5) (Z.shiftl d3 3) (Z.shiftl d4 2) d5 (Z.shiftl d6 7)
    (Z.shiftl d7 5) (Z.shiftl d8 4) (Z.shiftl d9 2) = y ->
  (Z.shiftl d9 2 =? 33554428) && (Z.shiftl d8 4 =? 268435440) && (Z.shiftl d7 5 =? 536870880)
  && (Z.shiftl d6 7 =? 2147483520) && (d5 =? 4294967295) && (Z.shiftl d4 2 =? 67108860)
  && (Z.shiftl d3 3 =? 134217720) && (Z.shiftl d2 5 =? 536870880) && (Z.shiftl d1 6 =? 1073741760)
  && (d0 >=? 4294967277) = (p <=? y).
Proof.
  intros H0 H1 H2 H3 H4 H5 H6 H7 H8 H9; rewrite !Z.shiftl_mul_pow2 by done; unfold in_u, val10, p in *.
  intros E; zpow_norm; rewrite Z.geb_leb; apply eq_true_iff_eq.
  rewrite !andb_true_iff, !Z.eqb_eq, !Z.leb_le; split; [intros; lia|intros Hy].
  assert (d9 = 8388607) by lia; assert (d8 = 16777215) by lia; assert (d7 = 16777215) by lia.
  assert (d6 = 16777215) by lia; assert (d5 = 4294967295) by lia; assert (d4 = 16777215) by lia.
  assert (d3 = 16777215) by lia; assert (d2 = 16777215) by lia; assert (d1 = 16777215) by lia.
  lia.
Qed.

Lemma land_mask_digit V : Z.land (digit V 232 24) 8388607 = digit V 232 23.
Proof.
  change 8388607 with (Z.ones 23); rewrite Z.land_ones by lia.
  change (digit V 232 23) with (digit V (232 + 0) 23); rewrite <- (digit_digit V 232 24 0 23) by lia.
  unfold digit at 2; by rewrite Z.div_1_r.
Qed.

Lemma fe_frombytes_canonical_spec s : length s = 32%nat -> Forall is_byte s ->
  let y := le_val s mod 2 ^ 255 in
  if p <=? y then fe_frombytes_canonical s = Some None
  else exists f, fe_frombytes_canonical s = Some (Some f) /\ fe_le tight f /\ val f ≡p y.
Proof.
  intros Hl Hs y; unfold fe_frombytes_canonical.
  rewrite !load_3_digit, !load_4_digit by (done || lia); simpl Z.of_nat; simpl Z.mul; cbv zeta.
  set (V := le_val s) in *; rewrite land_mask_digit.
  assert (Ey : y = digit V 0 255) by (unfold y, digit; by rewrite Z.div_1_r).
  rewrite (canonical_check _ _ _ _ _ _ _ _ _ _ y)
    by (try (apply digit_range; lia); rewrite Ey; apply (loads_value V 255); lia).
  destruct (p <=? y); [done|].
  destruct (frombytes_carry_spec (digit V 0 32) (Z.shiftl (digit V 32 24) 6)
    (Z.shiftl (digit V 56 24) 5) (Z.shiftl (digit V 80 24) 3) (Z.shiftl (digit V 104 24) 2)
    (digit V 128 32) (Z.shiftl (digit V 160 24) 7) (Z.shiftl (digit V 184 24) 5)
    (Z.shiftl (digit V 208 24) 4) (Z.shiftl (digit V 232 23) 2)) as (f & E & Hf & Ef);
    try (eapply in_u_mono; [|apply shiftl_range; [| |apply digit_range]]; lia);
    try (apply digit_range; lia).
  exists f; split_and!; [|done|rewrite Ef, Ey].
  { replace (frombytes_carry _ _ _ _ _ _ _ _ _ _) with (Some f) by (symmetry; exact E); done. }
  apply eqp_eq, (loads_value V 255); lia.
Qed.
End FieldPow.
