(* ===== verification/Primes.v ===== *)
(** Primality by Pocklington certificates, up to the large prime divisor of [2^255 - 20]; the
    primality of [2^255 - 19], the characteristic of the field of src/src/crypto/crypto-ops.c,
    follows in [Edwards]. *)

From Stdlib Require Import Znumtheory Zpow_facts Zmod.
From S2P Require Import Prelude.

Module Primes.

(** ** Prime divisors *)

Lemma prime_divisor n : 1 < n -> exists r, prime r /\ (r | n).
Proof.
  intros Hn; assert (H0 : 0 <= n) by lia; revert Hn.
  pattern n; apply Z_lt_induction; [|done]; clear n H0; intros n IH Hn.
  destruct (prime_dec n) as [Hp|Hp]; [by exists n|].
  destruct (not_prime_divide n Hn Hp) as (m & Hm & Hd).
  destruct (IH m ltac:(lia) ltac:(lia)) as (r & Hr & Hrm).
  exists r; split; [done|]; by apply (Z.divide_trans _ m).
Qed.

(** A number whose prime divisors all exceed its square root is prime. *)
Lemma prime_of_large_divisors n : 1 < n ->
  (forall r, prime r -> (r | n) -> n < r * r) -> prime n.
Proof.
  intros Hn Hr; destruct (prime_dec n) as [|Hp]; [done|exfalso].
  destruct (not_prime_divide n Hn Hp) as (m & Hm & [k Hk]).
  assert (Hlow : forall a b, n = a * b -> 1 < a -> a <= b -> False).
  { intros a b E Ha Hab; destruct (prime_divisor a Ha) as (r & Hrp & Hra).
    assert (r <= a) by (apply Z.divide_pos_le; lia || done).
    pose proof (prime_ge_2 r Hrp).
    pose proof (Hr r Hrp ltac:(rewrite E; by apply Z.divide_mul_l)); nia. }
  destruct (Z.le_gt_cases m k).
  - apply (Hlow m k); lia.
  - apply (Hlow k m); nia.
Qed.

(** ** Orders *)

Lemma pow_mod_1 b e k r : 1 < r -> 0 <= e -> 0 <= k -> b ^ e mod r = 1 -> b ^ (e * k) mod r = 1.
Proof.
  intros Hr He Hk E; rewrite Z.pow_mul_r by done.
  rewrite <- Z.mod_pow_l, E, Z.pow_1_l by done; by apply Z.mod_1_l.
Qed.

(** If [b^q = 1] and [b <> 1] modulo a prime [r] and [q] is prime, then [q] divides [r - 1]. *)
Lemma order_divides b q r : prime q -> prime r -> b ^ q mod r = 1 -> b mod r <> 1 -> (q | r - 1).
Proof.
  intros Hq Hr Eq Hb; pose proof (prime_ge_2 _ Hq); pose proof (prime_ge_2 _ Hr).
  assert (Hb0 : b mod r <> 0).
  { intros E0; rewrite <- Z.mod_pow_l, E0, Z.pow_0_l in Eq by lia; by rewrite Z.mod_0_l in Eq by lia. }
  assert (Er : b ^ (r - 1) mod r = 1) by (apply Z.fermat_nz; [by apply prime_alt|done]).
  destruct (Zdivide_dec q (r - 1)) as [|Hn]; [done|exfalso; apply Hb].
  destruct (rel_prime_bezout _ _ (prime_rel_prime q Hq (r - 1) Hn)) as [u v E].
  (* shift the coefficients so that both exponents are non-negative *)
  set (t := Z.abs u + Z.abs v).
  assert (E' : (u + t * (r - 1)) * q = 1 + (t * q - v) * (r - 1)) by lia.
  assert (0 <= u + t * (r - 1)) by nia; assert (0 <= t * q - v) by nia.
  assert (X : b ^ (q * (u + t * (r - 1))) mod r = 1) by (apply pow_mod_1; lia || done).
  rewrite Z.mul_comm, E', Z.pow_add_r, Z.pow_1_r, <- Zmult_mod_idemp_r in X by nia.
  rewrite (Z.mul_comm _ (r - 1)), pow_mod_1, Z.mul_1_r in X by (lia || done); exact X.
Qed.

(** ** Pocklington's criterion *)

Fixpoint product (l : list Z) : Z := match l with [] => 1 | q :: l => q * product l end.

(** The certificate of [n]: the base [a], through a function [pw] that evaluates its powers
    modulo [n], and distinct primes [qs] that divide [n - 1] and whose product exceeds the
    square root of [n]. *)
Definition pocklington_step (pw : Z -> Z) (n q : Z) : bool :=
  ((n - 1) mod q =? 0) && (Z.gcd (pw ((n - 1) / q) - 1) n =? 1).
Definition pocklington (pw : Z -> Z) (n : Z) (qs : list Z) : bool :=
  (1 <? n) && (n <? product qs * product qs) && (pw (n - 1) mod n =? 1) && forallb (pocklington_step pw n) qs.

Lemma product_pos qs : Forall prime qs -> 0 < product qs.
Proof. induction 1 as [|q qs Hq _ IH]; simpl; [done|]; pose proof (prime_ge_2 q Hq); nia. Qed.

Lemma product_divides qs m : NoDup qs -> Forall prime qs -> Forall (fun q => (q | m)) qs ->
  (product qs | m).
Proof.
  intros Hnd; revert m; induction Hnd as [|q qs Hin Hnd IH]; intros m Hp Hd; [apply Z.divide_1_l|].
  inversion Hp as [|? ? Hq Hps]; inversion Hd as [|? ? [k Hk] Hds]; subst; simpl.
  rewrite (Z.mul_comm k); apply Z.mul_divide_mono_l, IH; [done|].
  rewrite Forall_forall in *; intros x Hx.
  assert (Hxq : rel_prime x q).
  { apply prime_rel_prime; [by apply Hps|]; intros Hxd.
    pose proof (prime_div_prime x q (Hps x Hx) Hq Hxd); by subst. }
  apply (Gauss x q k); [|done]; rewrite Z.mul_comm; by apply Hds.
Qed.

Lemma pocklington_prime pw a n qs : (forall e, 0 <= e -> pw e mod n = a ^ e mod n) ->
  NoDup qs -> Forall prime qs -> pocklington pw n qs = true -> prime n.
Proof.
  intros Hpw Hnd Hqs H; unfold pocklington in H; rewrite !andb_true_iff, !Z.ltb_lt, Z.eqb_eq in H.
  destruct H as [[[Hn Hprod] H1] Hf]; apply prime_of_large_divisors; [done|intros r Hr Hrn].
  pose proof (prime_ge_2 r Hr); rewrite Hpw in H1 by lia.
  assert (Hd : Forall (fun q => (q | r - 1)) qs).
  { rewrite Forall_forall in Hqs |- *; intros q Hq; rewrite forallb_forall in Hf.
    specialize (Hf q ltac:(by apply list_elem_of_In)); unfold pocklington_step in Hf.
    rewrite !andb_true_iff, !Z.eqb_eq in Hf; destruct Hf as [Hdq Hg]; pose proof (prime_ge_2 q (Hqs q Hq)).
    set (b := pw ((n - 1) / q)) in *.
    apply (order_divides b q r); [by apply Hqs|done| |intros E1].
    - rewrite (Zmod_div_mod r n), <- (Z.mod_pow_l b) by (lia || done); unfold b.
      rewrite Hpw, Z.mod_pow_l, <- Z.pow_mul_r by (lia || (apply Z.div_pos; lia)).
      rewrite (Z.mul_comm _ q), <- Zdivide_Zdiv_eq, H1 by (lia || (apply Zmod_divide; [lia|done])).
      apply Z.mod_1_l; lia.
    - assert (Hrb : (r | b - 1)).
      { apply Zmod_divide; [lia|]; rewrite Zminus_mod, E1, Z.mod_1_l, Z.sub_diag by lia; done. }
      assert (Hr1 : (r | 1)) by (rewrite <- Hg; by apply Z.gcd_greatest).
      apply Z.divide_pos_le in Hr1; lia. }
  apply product_divides in Hd; [|done..]; apply Z.divide_pos_le in Hd; [|lia].
  pose proof (product_pos qs Hqs); nia.
Qed.

(** ** Small primes, by trial division *)

Definition trial (n : Z) : bool :=
  (1 <? n) && forallb (fun m => negb (n mod Z.of_nat m =? 0)) (seq 2 (Z.to_nat (Z.sqrt n) - 1)).

Lemma trial_prime n : trial n = true -> prime n.
Proof.
  unfold trial; rewrite andb_true_iff, Z.ltb_lt; intros [Hn Hf].
  apply prime_of_large_divisors; [done|intros r Hr Hd].
  pose proof (prime_ge_2 r Hr).
  destruct (Z.le_gt_cases r (Z.sqrt n)) as [Hle|]; [exfalso|apply Z.sqrt_lt_square; lia].
  rewrite forallb_forall in Hf; specialize (Hf (Z.to_nat r) ltac:(apply in_seq; lia)).
  rewrite Z2Nat.id, Zdivide_mod in Hf by (lia || done); done.
Qed.

(** ** The certificate chain *)

Ltac small_prime := apply trial_prime; vm_compute; reflexivity.
Ltac pocklington_tac qs :=
  match goal with |- prime ?n => apply (pocklington_prime (fun e => Zpow_mod 2 e n) 2 n qs) end;
  [intros e _; rewrite Zpow_mod_correct, Z.mod_mod by done; reflexivity|apply (bool_decide_unpack _); vm_compute; exact I|repeat (apply Forall_cons_2; [assumption || small_prime|]); apply Forall_nil_2|vm_compute; reflexivity].

Lemma prime_8574133 : prime 8574133.
Proof. pocklington_tac [991; 103]. Qed.
Lemma prime_1919519569386763 : prime 1919519569386763.
Proof. pose proof prime_8574133; pocklington_tac [8574133; 127]. Qed.
Lemma prime_569003 : prime 569003.
Proof. pocklington_tac [419; 97]. Qed.
Lemma prime_2773320623 : prime 2773320623.
Proof. pose proof prime_569003; pocklington_tac [569003]. Qed.
Lemma prime_72106336199 : prime 72106336199.
Proof. pose proof prime_2773320623; pocklington_tac [2773320623]. Qed.
Lemma prime_75445702479781427272750846543864801 : prime 75445702479781427272750846543864801.
Proof.
  pose proof prime_1919519569386763; pose proof prime_72106336199.
  pocklington_tac [1919519569386763; 72106336199].
Qed.
Lemma prime_430751 : prime 430751.
Proof. pocklington_tac [1723]. Qed.
Lemma prime_31757755568855353 : prime 31757755568855353.
Proof. pose proof prime_430751; pocklington_tac [430751; 4153]. Qed.

(** The large prime divisor of [2^255 - 20]. *)
Definition big_prime : Z := 74058212732561358302231226437062788676166966415465897661863160754340907.

Lemma prime_big_prime : prime big_prime.
Proof.
  pose proof prime_75445702479781427272750846543864801; pose proof prime_31757755568855353.
  pocklington_tac [75445702479781427272750846543864801; 31757755568855353].
Qed.

End Primes.
