(* ===== verification/Group.v ===== *)
(** Abelian groups and integer multiples: the interface between the curve arithmetic of
    src/src/crypto/crypto-ops.c and the protocols of src/src/crypto/crypto.cpp. *)

From S2P Require Import Prelude.

Module Group.

Class AbGroup (G : Type) : Type := {
  gadd : G -> G -> G;
  gzero : G;
  gopp : G -> G;
  gadd_assoc x y z : gadd x (gadd y z) = gadd (gadd x y) z;
  gadd_comm x y : gadd x y = gadd y x;
  gadd_0_l x : gadd gzero x = x;
  gadd_opp_r x : gadd x (gopp x) = gzero;
}.

Declare Scope group_scope.
Delimit Scope group_scope with G.
Infix "⊕" := gadd (at level 50, left associativity) : group_scope.
Notation "x ⊖ y" := (gadd x (gopp y)) (at level 50, left associativity) : group_scope.
#[global] Open Scope group_scope.

Section Multiples.
Context `{AbGroup G}.
Implicit Types (x y z : G) (n m : Z).

Lemma gadd_0_r x : x ⊕ gzero = x.
Proof. rewrite gadd_comm; apply gadd_0_l. Qed.

Lemma gadd_opp_l x : gopp x ⊕ x = gzero.
Proof. rewrite gadd_comm; apply gadd_opp_r. Qed.

Lemma gadd_cancel_r x y z : x ⊕ z = y ⊕ z -> x = y.
Proof.
  intros E; rewrite <- (gadd_0_r x), <- (gadd_0_r y), <- (gadd_opp_r z), !gadd_assoc; congruence.
Qed.

Lemma gadd_cancel_l x y z : z ⊕ x = z ⊕ y -> x = y.
Proof. rewrite !(gadd_comm z); apply gadd_cancel_r. Qed.

Lemma gopp_unique x y : x ⊕ y = gzero -> y = gopp x.
Proof. intros E; apply (gadd_cancel_l _ _ x); by rewrite gadd_opp_r. Qed.

Lemma gopp_involutive x : gopp (gopp x) = x.
Proof. symmetry; apply gopp_unique, gadd_opp_l. Qed.

Lemma gopp_0 : gopp gzero = gzero.
Proof. symmetry; apply gopp_unique, gadd_0_l. Qed.

(** Four terms in any order. *)
Lemma gadd_swap x y z w : (x ⊕ y) ⊕ (z ⊕ w) = (x ⊕ z) ⊕ (y ⊕ w).
Proof. by rewrite !gadd_assoc, <- (gadd_assoc x y z), (gadd_comm y z), gadd_assoc. Qed.

Lemma gopp_add x y : gopp (x ⊕ y) = gopp x ⊕ gopp y.
Proof. symmetry; apply gopp_unique; by rewrite gadd_swap, !gadd_opp_r, gadd_0_l. Qed.

(** The integer multiple [n x]. *)
Fixpoint nmul (n : nat) (x : G) : G := match n with O => gzero | S n => x ⊕ nmul n x end.
Definition zmul (n : Z) (x : G) : G :=
  if n <? 0 then gopp (nmul (Z.to_nat (- n)) x) else nmul (Z.to_nat n) x.

Lemma zmul_0 x : zmul 0 x = gzero.
Proof. done. Qed.

Lemma zmul_succ n x : zmul (Z.succ n) x = x ⊕ zmul n x.
Proof.
  unfold zmul; destruct (Z.ltb_spec n 0), (Z.ltb_spec (Z.succ n) 0); try lia.
  - replace (Z.to_nat (- n)) with (S (Z.to_nat (- Z.succ n))) by lia; simpl.
    by rewrite gopp_add, gadd_assoc, gadd_opp_r, gadd_0_l.
  - replace n with (-1) by lia; simpl; by rewrite gadd_0_r, gadd_opp_r.
  - by rewrite Z2Nat.inj_succ by done.
Qed.

Lemma zmul_pred n x : zmul (Z.pred n) x = zmul n x ⊖ x.
Proof.
  rewrite <- (Z.succ_pred n) at 2; rewrite zmul_succ, (gadd_comm x), <- gadd_assoc, gadd_opp_r.
  by rewrite gadd_0_r.
Qed.

Lemma zmul_1 x : zmul 1 x = x.
Proof. change 1 with (Z.succ 0); by rewrite zmul_succ, zmul_0, gadd_0_r. Qed.

Lemma zmul_add n m x : zmul (n + m) x = zmul n x ⊕ zmul m x.
Proof.
  revert n; apply Z.peano_ind; [by rewrite Z.add_0_l, zmul_0, gadd_0_l|intros n IH..].
  - by rewrite Z.add_succ_l, !zmul_succ, IH, gadd_assoc.
  - by rewrite Z.add_pred_l, !zmul_pred, IH, <- !gadd_assoc, (gadd_comm (gopp x)).
Qed.

Lemma zmul_opp n x : zmul (- n) x = gopp (zmul n x).
Proof. apply gopp_unique; by rewrite <- zmul_add, Z.add_opp_diag_r. Qed.

Lemma zmul_sub n m x : zmul (n - m) x = zmul n x ⊖ zmul m x.
Proof. by rewrite <- Z.add_opp_r, zmul_add, zmul_opp. Qed.

Lemma zmul_gzero n : zmul n gzero = gzero.
Proof.
  revert n; apply Z.peano_ind; [done|intros n IH..].
  - by rewrite zmul_succ, IH, gadd_0_l.
  - by rewrite zmul_pred, IH, gadd_opp_r.
Qed.

Lemma zmul_gadd n x y : zmul n (x ⊕ y) = zmul n x ⊕ zmul n y.
Proof.
  revert n; apply Z.peano_ind; [by rewrite !zmul_0, gadd_0_l|intros n IH..].
  - by rewrite !zmul_succ, IH, gadd_swap.
  - by rewrite !zmul_pred, IH, gopp_add, gadd_swap.
Qed.

Lemma zmul_mul n m x : zmul (n * m) x = zmul n (zmul m x).
Proof.
  revert n; apply Z.peano_ind; [done|intros n IH..].
  - by rewrite Z.mul_succ_l, zmul_add, IH, zmul_succ, gadd_comm.
  - by rewrite Z.mul_pred_l, zmul_sub, IH, zmul_pred.
Qed.

Lemma zmul_gopp n x : zmul n (gopp x) = gopp (zmul n x).
Proof. by rewrite <- (zmul_1 x) at 1; rewrite <- zmul_opp, <- zmul_mul, <- zmul_opp; f_equal; lia. Qed.

Lemma zmul_comm n m x : zmul n (zmul m x) = zmul m (zmul n x).
Proof. by rewrite <- !zmul_mul, Z.mul_comm. Qed.

Lemma zmul_2 x : zmul 2 x = x ⊕ x.
Proof. change 2 with (1 + 1); by rewrite zmul_add, zmul_1. Qed.

(** Multiples of an element of order dividing [L] depend on the scalar modulo [L]. *)
Lemma zmul_mod L n x : L <> 0 -> zmul L x = gzero -> zmul (n mod L) x = zmul n x.
Proof.
  intros HL Hx; rewrite (Z.div_mod n L) at 2 by done.
  by rewrite zmul_add, (Z.mul_comm L), zmul_mul, Hx, zmul_gzero, gadd_0_l.
Qed.

End Multiples.
End Group.
