(* ===== verification/Curve.v ===== *)
(** The twisted Edwards curve [-x^2 + y^2 = 1 + d x^2 y^2] over a prime field and its group:
    the affine specification of the points that src/src/crypto/crypto-ops.c computes with. *)

From Stdlib Require Import Zmod Field.
From S2P Require Import Prelude.
From S2P Require Import Group.

Module Curve.

Import Group.
#[local] Open Scope Zmod_scope.
Infix "/" := Zmod.mdiv : Zmod_scope.

(** The curve's constants: [-1] has the square root [ed_i] and [ed_d] has none, which makes
    the addition law complete. *)
Class EdwardsCurve (m : Z) : Type := {
  ed_prime : Z.prime m;
  ed_odd : (2 < m)%Z;
  ed_d : Zmod m;
  ed_i : Zmod m;
  ed_i_square : ed_i * ed_i = Zmod.opp 1;
  ed_d_nonsquare r : r * r <> ed_d;
}.

Section Curve.
Context {m : Z} `{EC : EdwardsCurve m}.
Abbreviation F := (Zmod m).
Abbreviation d := (@ed_d m EC).
Abbreviation i := (@ed_i m EC).
Add Field curve_field : (Zmod.field_theory m ed_prime).
Implicit Types (x y z : F).

#[global] Instance F_eq_dec : EqDecision F.
Proof. intros x y; destruct (Zmod.eqb x y) eqn:E; [left|right]; by rewrite <- Zmod.eqb_eq, E. Defined.

(** ** The field *)

Lemma F_integral x y : x * y = 0 -> x = 0 \/ y = 0.
Proof. apply Zmod.mul_0_iff_prime, ed_prime. Qed.

Lemma F_mul_nz x y : x <> 0 -> y <> 0 -> x * y <> 0.
Proof. intros Hx Hy [|]%F_integral; done. Qed.

Lemma F_1_nz : (1 : F) <> 0.
Proof. apply Zmod.one_neq_zero; pose proof ed_odd; lia. Qed.

Lemma F_2_nz : (1 + 1 : F) <> 0.
Proof.
  pose proof ed_odd; rewrite <- Zmod.of_Z_1, <- Zmod.of_Z_add; apply Zmod.of_Z_nz.
  rewrite Z.mod_small; lia.
Qed.

Lemma i_nz : i <> 0.
Proof.
  intros E; pose proof ed_i_square as Hi; rewrite E in Hi; apply F_1_nz.
  transitivity (Zmod.opp (0 * 0) : F); [rewrite Hi; ring|ring].
Qed.

Lemma F_cancel_l x y z : x <> 0 -> x * y = x * z -> y = z.
Proof. intros Hx E; by apply (Zmod.mul_cancel_l_prime x y z ed_prime Hx E). Qed.

(** ** The curve *)

Definition on_curve x y : Prop := y * y - x * x = 1 + d * x * x * y * y.

#[global] Instance on_curve_dec x y : Decision (on_curve x y).
Proof. unfold on_curve; apply _. Defined.

(** The product that the denominators of the addition law contain. *)
Definition cross x1 y1 x2 y2 : F := d * x1 * x2 * y1 * y2.

Lemma on_curve_reduce x y : on_curve x y -> d * x * x * y * y = y * y - x * x - 1.
Proof.
  unfold on_curve; intros E; transitivity (1 + d * x * x * y * y - 1); [ring|rewrite <- E; ring].
Qed.

(** The relation of the squares of two points that does not mention [d]. *)
Lemma on_curve_pair x1 y1 x2 y2 : on_curve x1 y1 -> on_curve x2 y2 ->
  x1 * x1 * y1 * y1 * x2 * x2 =
  x1 * x1 * y1 * y1 * y2 * y2 + x1 * x1 * x2 * x2 * y2 * y2 - y1 * y1 * x2 * x2 * y2 * y2
  - x1 * x1 * y1 * y1 + x2 * x2 * y2 * y2.
Proof.
  intros H1%on_curve_reduce H2%on_curve_reduce.
  assert (E : x2 * x2 * y2 * y2 * (d * x1 * x1 * y1 * y1) = x1 * x1 * y1 * y1 * (d * x2 * x2 * y2 * y2))
    by ring.
  rewrite H1, H2 in E; apply Zmod.sub_eq_0.
  transitivity (x2 * x2 * y2 * y2 * (y1 * y1 - x1 * x1 - 1) - x1 * x1 * y1 * y1 * (y2 * y2 - x2 * x2 - 1));
    [ring|rewrite E; ring].
Qed.

(** Completeness: no sum of two points has a zero denominator. *)
Lemma square_step e x1 y1 x2 y2 : on_curve x1 y1 -> on_curve x2 y2 -> e * e = 1 ->
  cross x1 y1 x2 y2 = e ->
  (i * x1 + e * y1) * (i * x1 + e * y1) = d * (x1 * y1 * (i * x2 + y2)) * (x1 * y1 * (i * x2 + y2)).
Proof.
  unfold cross; intros H1%on_curve_reduce H2%on_curve_reduce He Hc; pose proof ed_i_square as Hi.
  transitivity (y1 * y1 - x1 * x1 + (1 + 1) * i * e * x1 * y1); [ring [He Hi]|].
  transitivity ((y2 * y2 - x2 * x2) * (d * x1 * x1 * y1 * y1)
    + (1 + 1) * i * x1 * y1 * (d * x1 * x2 * y1 * y2)); [|ring [Hi]].
  rewrite Hc; transitivity ((d * x2 * x2 * y2 * y2 + 1) * (d * x1 * x1 * y1 * y1) + (1 + 1) * i * e * x1 * y1).
  - transitivity (d * x1 * x1 * y1 * y1 + (d * x1 * x2 * y1 * y2) * (d * x1 * x2 * y1 * y2)
      + (1 + 1) * i * e * x1 * y1); [rewrite Hc, He, H1; ring|ring].
  - rewrite H2; ring.
Qed.

Lemma cross_square x1 y1 x2 y2 : on_curve x1 y1 -> on_curve x2 y2 ->
  cross x1 y1 x2 y2 * cross x1 y1 x2 y2 <> 1.
Proof.
  intros H1 H2 He; set (e := cross x1 y1 x2 y2) in *.
  assert (Hroot : forall a s, a * a = d * s * s -> s = 0).
  { intros a s E; destruct (decide (s = 0)) as [|Hs]; [done|exfalso].
    apply (ed_d_nonsquare (a / s)); transitivity ((d * s * s) / (s * s)); [rewrite <- E|]; by field. }
  assert (He0 : e <> 0) by (intros E; rewrite E in He; apply F_1_nz; rewrite <- He; ring).
  assert (Hxy : x1 * y1 <> 0) by (intros E; apply He0; unfold e, cross; transitivity (d * x2 * y2 * (x1 * y1));
    [ring|rewrite E; ring]).
  assert (Ha : i * x2 + y2 = 0).
  { pose proof (square_step e x1 y1 x2 y2 H1 H2 He eq_refl) as E.
    by apply Hroot, F_integral in E as [|]. }
  assert (Hb : i * x2 - y2 = 0).
  { pose proof (square_step (Zmod.opp e) x1 y1 x2 (Zmod.opp y2) H1) as E.
    transitivity (i * x2 + Zmod.opp y2); [ring|].
    destruct (F_integral (x1 * y1) (i * x2 + Zmod.opp y2)) as [|]; [|done..].
    apply (Hroot (i * x1 + Zmod.opp e * y1)), E; [|rewrite <- He; ring|unfold e, cross; ring].
    unfold on_curve in *; transitivity (y2 * y2 - x2 * x2); [ring|rewrite H2; ring]. }
  assert (Hx2 : x2 = 0).
  { apply (F_cancel_l ((1 + 1) * i)); [apply F_mul_nz; [apply F_2_nz|apply i_nz]|].
    transitivity ((i * x2 + y2) + (i * x2 - y2)); [ring|rewrite Ha, Hb; ring]. }
  apply He0; unfold e, cross; rewrite Hx2; ring.
Qed.

Lemma complete_plus x1 y1 x2 y2 : on_curve x1 y1 -> on_curve x2 y2 -> 1 + cross x1 y1 x2 y2 <> 0.
Proof.
  intros H1 H2 E; apply (cross_square x1 y1 x2 y2 H1 H2).
  apply Zmod.add_eq_0 in E; rewrite E; ring.
Qed.

Lemma complete_minus x1 y1 x2 y2 : on_curve x1 y1 -> on_curve x2 y2 -> 1 - cross x1 y1 x2 y2 <> 0.
Proof.
  intros H1 H2 E; apply (cross_square x1 y1 x2 y2 H1 H2).
  apply Zmod.sub_eq_0 in E; rewrite <- E; ring.
Qed.
(** ** Addition *)

Definition add_x x1 y1 x2 y2 : F := (x1 * y2 + x2 * y1) / (1 + cross x1 y1 x2 y2).
Definition add_y x1 y1 x2 y2 : F := (y1 * y2 + x1 * x2) / (1 - cross x1 y1 x2 y2).

Lemma closure_poly x1 y1 x2 y2 : on_curve x1 y1 -> on_curve x2 y2 ->
  let k := cross x1 y1 x2 y2 in let A := x1 * y2 + x2 * y1 in let B := y1 * y2 + x1 * x2 in
  B * B * (1 + k) * (1 + k) - A * A * (1 - k) * (1 - k)
  = (1 + k) * (1 + k) * (1 - k) * (1 - k) + d * A * A * B * B.
Proof.
  intros H1 H2; cbv zeta; unfold cross; pose proof (on_curve_pair _ _ _ _ H1 H2) as H12.
  apply on_curve_reduce in H1, H2; ring [H12 H1 H2].
Qed.

Lemma add_on_curve x1 y1 x2 y2 : on_curve x1 y1 -> on_curve x2 y2 ->
  on_curve (add_x x1 y1 x2 y2) (add_y x1 y1 x2 y2).
Proof.
  intros H1 H2; pose proof (complete_plus _ _ _ _ H1 H2) as Hp.
  pose proof (complete_minus _ _ _ _ H1 H2) as Hq; pose proof (closure_poly _ _ _ _ H1 H2) as E.
  unfold on_curve, add_x, add_y; cbv zeta in E; revert E Hp Hq.
  generalize (cross x1 y1 x2 y2) (x1 * y2 + x2 * y1) (y1 * y2 + x1 * x2); intros k A B E Hp Hq.
  transitivity ((B * B * (1 + k) * (1 + k) - A * A * (1 - k) * (1 - k)) / ((1 + k) * (1 + k) * (1 - k) * (1 - k)));
    [by field|rewrite E; by field].
Qed.

Record point : Type := Point { px : F; py : F; p_on : bool_decide (on_curve px py) }.

Lemma point_on (P : point) : on_curve (px P) (py P).
Proof. apply (bool_decide_unpack _), P. Qed.

Lemma point_eq (P Q : point) : px P = px Q -> py P = py Q -> P = Q.
Proof. destruct P as [x y H], Q as [x' y' H']; simpl; intros <- <-; f_equal; apply proof_irrel. Qed.

Definition point_of x y (H : on_curve x y) : point := Point x y (bool_decide_pack _ H).

Definition padd (P Q : point) : point :=
  point_of _ _ (add_on_curve (px P) (py P) (px Q) (py Q) (point_on P) (point_on Q)).

Lemma zero_on_curve : on_curve 0 1.
Proof. unfold on_curve; ring. Qed.
Definition pzero : point := point_of 0 1 zero_on_curve.

Lemma opp_on_curve x y : on_curve x y -> on_curve (Zmod.opp x) y.
Proof. unfold on_curve; intros E; transitivity (y * y - x * x); [ring|rewrite E; ring]. Qed.
Definition popp (P : point) : point := point_of _ _ (opp_on_curve _ _ (point_on P)).

Ltac point_simpl := cbn [px py padd popp pzero point_of].
Tactic Notation "point_simpl" "in" "*" := cbn [px py padd popp pzero point_of] in *.

Lemma frac_eq (k l a b c e : F) : b <> 0 -> e <> 0 -> k <> 0 -> l <> 0 ->
  (k * a) * (l * e) = (l * c) * (k * b) -> a / b = c / e.
Proof.
  intros Hb He Hk Hl E; apply (F_cancel_l ((k * b) * (l * e))); [by repeat apply F_mul_nz|].
  transitivity ((k * a) * (l * e)); [by field|rewrite E; by field].
Qed.

(** The two cross-multiplied coordinates of [(P + Q) + R = P + (Q + R)]. *)
Lemma assoc_poly x1 y1 x2 y2 x3 y3 : on_curve x1 y1 -> on_curve x2 y2 -> on_curve x3 y3 ->
  let k := cross x1 y1 x2 y2 in let A := x1 * y2 + x2 * y1 in let B := y1 * y2 + x1 * x2 in
  let l := cross x2 y2 x3 y3 in let C := x2 * y3 + x3 * y2 in let D := y2 * y3 + x2 * x3 in
  (A * (1 - k) * y3 + x3 * B * (1 + k)) * ((1 + l) * (1 - l) + d * x1 * y1 * C * D)
  = (x1 * D * (1 + l) + C * (1 - l) * y1) * ((1 + k) * (1 - k) + d * A * B * x3 * y3) /\
  (B * (1 + k) * y3 + A * (1 - k) * x3) * ((1 + l) * (1 - l) - d * x1 * y1 * C * D)
  = (y1 * D * (1 + l) + x1 * C * (1 - l)) * ((1 + k) * (1 - k) - d * A * B * x3 * y3).
Proof.
  intros H1 H2 H3; cbv zeta; unfold cross.
  pose proof (on_curve_pair _ _ _ _ H1 H2) as H12; pose proof (on_curve_pair _ _ _ _ H1 H3) as H13.
  pose proof (on_curve_pair _ _ _ _ H2 H3) as H23; apply on_curve_reduce in H1, H2, H3.
  split; ring [H12 H13 H23 H1 H2 H3].
Qed.

Lemma padd_assoc P Q R : padd P (padd Q R) = padd (padd P Q) R.
Proof.
  pose proof (point_on P) as H1; pose proof (point_on Q) as H2; pose proof (point_on R) as H3.
  pose proof (complete_plus _ _ _ _ H1 H2); pose proof (complete_minus _ _ _ _ H1 H2).
  pose proof (complete_plus _ _ _ _ H2 H3); pose proof (complete_minus _ _ _ _ H2 H3).
  pose proof (point_on (padd P Q)) as H12; pose proof (point_on (padd Q R)) as H23.
  pose proof (complete_plus _ _ _ _ H12 H3); pose proof (complete_minus _ _ _ _ H12 H3).
  pose proof (complete_plus _ _ _ _ H1 H23); pose proof (complete_minus _ _ _ _ H1 H23).
  destruct (assoc_poly _ _ _ _ _ _ H1 H2 H3) as [Ex Ey].
  set (k := cross (px P) (py P) (px Q) (py Q)) in *; set (l := cross (px Q) (py Q) (px R) (py R)) in *.
  symmetry; apply point_eq; simpl; [unfold add_x at 1 3|unfold add_y at 1 3];
    (apply (frac_eq ((1 + k) * (1 - k)) ((1 + l) * (1 - l))); [done..|by apply F_mul_nz|by apply F_mul_nz|]);
    unfold padd, add_x, add_y; simpl; fold k l; unfold cross at 1 2.
  - etransitivity; [|etransitivity; [exact Ex|]]; unfold add_x, add_y; fold k l; by field.
  - etransitivity; [|etransitivity; [exact Ey|]]; unfold add_x, add_y; fold k l; by field.
Qed.

Lemma padd_comm P Q : padd P Q = padd Q P.
Proof.
  apply point_eq; point_simpl; unfold add_x, add_y;
    (replace (cross (px Q) (py Q) (px P) (py P)) with (cross (px P) (py P) (px Q) (py Q))
       by (unfold cross; ring)); f_equal; ring.
Qed.

Lemma padd_0_l P : padd pzero P = P.
Proof.
  assert (E : cross 0 1 (px P) (py P) = 0) by (unfold cross; ring).
  apply point_eq; point_simpl; unfold add_x, add_y; rewrite E.
  - rewrite Zmod.add_0_r, Zmod.mdiv_1_r; ring.
  - rewrite Zmod.sub_0_r, Zmod.mdiv_1_r; ring.
Qed.

Lemma padd_opp_r P : padd P (popp P) = pzero.
Proof.
  pose proof (point_on P) as H1; pose proof (point_on (popp P)) as H2.
  pose proof (complete_plus _ _ _ _ H1 H2) as Hp; pose proof (complete_minus _ _ _ _ H1 H2) as Hq.
  point_simpl in *; apply point_eq; point_simpl; unfold add_x, add_y.
  - by field.
  - apply (F_cancel_l _ _ _ Hq); transitivity (py P * py P + px P * Zmod.opp (px P)); [by field|].
    transitivity (py P * py P - px P * px P); [ring|rewrite H1; unfold cross; ring].
Qed.

#[global] Instance point_group : AbGroup point := {|
  gadd := padd; gzero := pzero; gopp := popp;
  gadd_assoc := padd_assoc; gadd_comm := padd_comm; gadd_0_l := padd_0_l; gadd_opp_r := padd_opp_r |}.

(** ** Projective coordinates *)

Definition rep2 (P : point) (X Y Z : F) : Prop := Z <> 0 /\ X = px P * Z /\ Y = py P * Z.
Definition rep3 (P : point) (X Y Z T : F) : Prop :=
  Z <> 0 /\ X = px P * Z /\ Y = py P * Z /\ T = px P * py P * Z.
Definition rep1 (P : point) (X Y Z T : F) : Prop :=
  Z <> 0 /\ T <> 0 /\ X = px P * Z /\ Y = py P * T.
Definition repc (P : point) (A B Z T2d : F) : Prop :=
  Z <> 0 /\ A = (py P + px P) * Z /\ B = (py P - px P) * Z /\ T2d = (1 + 1) * d * px P * py P * Z.

Lemma add_proj P Q X Y Z T A B Z' T' : rep3 P X Y Z T -> repc Q A B Z' T' ->
  rep1 (P ⊕ Q) ((Y + X) * A - (Y - X) * B) ((Y + X) * A + (Y - X) * B)
    ((Z * Z' + Z * Z') + T' * T) ((Z * Z' + Z * Z') - T' * T).
Proof.
  intros (NZ & -> & -> & ->) (NZ' & -> & -> & ->).
  pose proof (complete_plus _ _ _ _ (point_on P) (point_on Q)) as C1.
  pose proof (complete_minus _ _ _ _ (point_on P) (point_on Q)) as C2.
  assert (E1 : Z * Z' + Z * Z' + (1 + 1) * d * px Q * py Q * Z' * (px P * py P * Z)
    = (1 + 1) * Z * Z' * (1 + cross (px P) (py P) (px Q) (py Q))) by (unfold cross; ring).
  assert (E2 : Z * Z' + Z * Z' - (1 + 1) * d * px Q * py Q * Z' * (px P * py P * Z)
    = (1 + 1) * Z * Z' * (1 - cross (px P) (py P) (px Q) (py Q))) by (unfold cross; ring).
  unfold rep1; rewrite E1, E2; cbn [gadd point_group]; point_simpl; unfold add_x, add_y; split_and!.
  - repeat apply F_mul_nz; done || apply F_2_nz.
  - repeat apply F_mul_nz; done || apply F_2_nz.
  - by field.
  - by field.
Qed.

Lemma repc_opp Q A B Z T : repc Q A B Z T -> repc (gopp Q) B A Z (Zmod.opp T).
Proof.
  intros (NZ & -> & -> & ->); unfold repc; cbn [gopp point_group]; point_simpl; split_and!; [done|ring..].
Qed.

Lemma sub_proj P Q X Y Z T A B Z' T' : rep3 P X Y Z T -> repc Q A B Z' T' ->
  rep1 (P ⊖ Q) ((Y + X) * B - (Y - X) * A) ((Y + X) * B + (Y - X) * A)
    ((Z * Z' + Z * Z') - T' * T) ((Z * Z' + Z * Z') + T' * T).
Proof.
  intros HP HQ%repc_opp.
  replace ((Z * Z' + Z * Z') - T' * T) with ((Z * Z' + Z * Z') + Zmod.opp T' * T) by ring.
  replace ((Z * Z' + Z * Z') + T' * T) with ((Z * Z' + Z * Z') - Zmod.opp T' * T) by ring.
  by apply add_proj.
Qed.

(** The mixed forms, with a second point of denominator 1. *)
Lemma madd_proj P Q X Y Z T A B T' : rep3 P X Y Z T -> repc Q A B 1 T' ->
  rep1 (P ⊕ Q) ((Y + X) * A - (Y - X) * B) ((Y + X) * A + (Y - X) * B) ((Z + Z) + T' * T) ((Z + Z) - T' * T).
Proof. intros HP HQ; pose proof (add_proj _ _ _ _ _ _ _ _ _ _ HP HQ) as H; by rewrite Zmod.mul_1_r in H. Qed.

Lemma msub_proj P Q X Y Z T A B T' : rep3 P X Y Z T -> repc Q A B 1 T' ->
  rep1 (P ⊖ Q) ((Y + X) * B - (Y - X) * A) ((Y + X) * B + (Y - X) * A) ((Z + Z) - T' * T) ((Z + Z) + T' * T).
Proof. intros HP HQ; pose proof (sub_proj _ _ _ _ _ _ _ _ _ _ HP HQ) as H; by rewrite Zmod.mul_1_r in H. Qed.

Lemma dbl_proj P X Y Z : rep2 P X Y Z ->
  rep1 (P ⊕ P) ((X + Y) * (X + Y) - (Y * Y + X * X)) (Y * Y + X * X) (Y * Y - X * X)
    ((1 + 1) * (Z * Z) - (Y * Y - X * X)).
Proof.
  intros (NZ & -> & ->).
  pose proof (complete_plus _ _ _ _ (point_on P) (point_on P)) as C1.
  pose proof (complete_minus _ _ _ _ (point_on P) (point_on P)) as C2.
  pose proof (point_on P) as E; unfold on_curve in E; set (k := cross _ _ _ _) in *.
  assert (E1 : py P * Z * (py P * Z) - px P * Z * (px P * Z) = Z * Z * (1 + k)).
  { transitivity (Z * Z * (py P * py P - px P * px P)); [ring|rewrite E; unfold k, cross; ring]. }
  assert (E2 : (1 + 1) * (Z * Z) - Z * Z * (1 + k) = Z * Z * (1 - k)) by ring.
  unfold rep1; rewrite E1, E2; cbn [gadd point_group]; point_simpl; unfold add_x, add_y; fold k; split_and!.
  - repeat apply F_mul_nz; done.
  - repeat apply F_mul_nz; done.
  - by field.
  - by field.
Qed.

Lemma rep1_rep2 P X Y Z T : rep1 P X Y Z T -> rep2 P (X * T) (Y * Z) (Z * T).
Proof. intros (NZ & NT & -> & ->); split_and!; [by apply F_mul_nz|ring..]. Qed.

Lemma rep1_rep3 P X Y Z T : rep1 P X Y Z T -> rep3 P (X * T) (Y * Z) (Z * T) (X * Y).
Proof. intros (NZ & NT & -> & ->); split_and!; [by apply F_mul_nz|ring..]. Qed.

Lemma rep3_rep2 P X Y Z T : rep3 P X Y Z T -> rep2 P X Y Z.
Proof. intros (NZ & EX & EY & _); by split_and!. Qed.

Lemma rep3_repc P X Y Z T : rep3 P X Y Z T -> repc P (Y + X) (Y - X) Z (T * ((1 + 1) * d)).
Proof. intros (NZ & -> & -> & ->); split_and!; [done|ring..]. Qed.

Lemma rep3_zero : rep3 gzero 0 1 1 0.
Proof. split_and!; [apply F_1_nz|cbn [gzero point_group]; point_simpl; ring..]. Qed.

Lemma repc_zero : repc gzero 1 1 1 0.
Proof. split_and!; [apply F_1_nz|cbn [gzero point_group]; point_simpl; ring..]. Qed.

(** The affine coordinates are recovered with the inverse. *)
Lemma rep2_affine P X Y Z : rep2 P X Y Z -> X * Zmod.inv Z = px P /\ Y * Zmod.inv Z = py P.
Proof. intros (NZ & -> & ->); split; rewrite Zmod.mul_inv_r; by field. Qed.

(** ** Table entries

    A triple [(A, B, T)] is the entry [(y + x, y - x, 2 d x y)] of a point when it satisfies
    equations without division. *)

Lemma repc_intro P A B T : A - B = (1 + 1) * px P -> A + B = (1 + 1) * py P ->
  (1 + 1) * T = d * (A * A - B * B) -> repc P A B 1 T.
Proof.
  intros HX HY HT; pose proof F_2_nz as H2; split_and!; [apply F_1_nz|apply (F_cancel_l _ _ _ H2)..].
  - transitivity ((A + B) + (A - B)); [ring|rewrite HX, HY; ring].
  - transitivity ((A + B) - (A - B)); [ring|rewrite HX, HY; ring].
  - rewrite HT; transitivity (d * ((A - B) * (A + B))); [ring|rewrite HX, HY; ring].
Qed.

Lemma repc_sum P Q A B T A' B' T' A3 B3 T3 K : repc P A B 1 T -> repc Q A' B' 1 T' ->
  (1 + 1) * ((1 + 1) * d) * K = T * T' ->
  (A3 - B3) * (1 + K) = A * A' - B * B' -> (A3 + B3) * (1 - K) = A * A' + B * B' ->
  (1 + 1) * T3 = d * (A3 * A3 - B3 * B3) -> repc (P ⊕ Q) A3 B3 1 T3.
Proof.
  intros (_ & -> & -> & ->) (_ & -> & -> & ->) HK HX HY HT.
  assert (Hd : d <> 0) by (intros E; apply (ed_d_nonsquare 0); rewrite E; ring).
  assert (EK : K = cross (px P) (py P) (px Q) (py Q)).
  { apply (F_cancel_l ((1 + 1) * ((1 + 1) * d))); [repeat apply F_mul_nz; done || apply F_2_nz|].
    rewrite HK; unfold cross; ring. }
  pose proof (complete_plus _ _ _ _ (point_on P) (point_on Q)) as C1.
  pose proof (complete_minus _ _ _ _ (point_on P) (point_on Q)) as C2.
  rewrite EK in *; apply repc_intro; [| |exact HT]; cbn [gadd point_group]; point_simpl; unfold add_x, add_y.
  - apply (F_cancel_l _ _ _ C1); rewrite Zmod.mul_comm, HX; by field.
  - apply (F_cancel_l _ _ _ C2); rewrite Zmod.mul_comm, HY; by field.
Qed.

Lemma repc_proj P X Y Z A B T : rep2 P X Y Z -> (A - B) * Z = (1 + 1) * X -> (A + B) * Z = (1 + 1) * Y ->
  (1 + 1) * T = d * (A * A - B * B) -> repc P A B 1 T.
Proof.
  intros (NZ & -> & ->) HX HY HT; apply repc_intro; [apply (F_cancel_l _ _ _ NZ)..|exact HT].
  - rewrite Zmod.mul_comm, HX; ring.
  - rewrite Zmod.mul_comm, HY; ring.
Qed.

Lemma repc_rep2 P A B T : repc P A B 1 T -> rep2 P (A - B) (A + B) (1 + 1).
Proof. intros (_ & -> & -> & _); split_and!; [apply F_2_nz|ring..]. Qed.

Lemma rep2_eq P Q X Y Z X' Y' Z' : rep2 P X Y Z -> rep2 Q X' Y' Z' ->
  X * Z' = X' * Z -> Y * Z' = Y' * Z -> P = Q.
Proof.
  intros (NZ & -> & ->) (NZ' & -> & ->) HX HY.
  assert (N : Z * Z' <> 0) by (by apply F_mul_nz).
  apply point_eq; apply (F_cancel_l _ _ _ N).
  - transitivity (px P * Z * Z'); [ring|rewrite HX; ring].
  - transitivity (py P * Z * Z'); [ring|rewrite HY; ring].
Qed.

Lemma rep2_opp P X Y Z : rep2 P X Y Z -> rep2 (gopp P) (Zmod.opp X) Y Z.
Proof. intros (NZ & -> & ->); cbn [gopp point_group]; split_and!; [done|point_simpl; ring..]. Qed.

(** ** Recovering [x] from [y]

    A field of order [8k + 5]: the candidate root of [u / v] is [u v^3 (u v^7)^k]. *)

Lemma square_one x : x * x = 1 -> x = 1 \/ x = Zmod.opp 1.
Proof.
  intros E; destruct (F_integral (x - 1) (x + 1)) as [H|H].
  - transitivity (x * x - 1); [ring|rewrite E; ring].
  - left; by apply Zmod.sub_eq_0.
  - right; transitivity (x + 1 - 1); [ring|rewrite H; ring].
Qed.

Definition curve_u y : F := y * y - 1.
Definition curve_v y : F := y * y * d + 1.

Lemma curve_v_nz y : curve_v y <> 0.
Proof.
  unfold curve_v; intros E; destruct (decide (y = 0)) as [->|Hy].
  - apply F_1_nz; refine (eq_trans _ E); ring.
  - apply (ed_d_nonsquare (i / y)); pose proof ed_i_square as Hi.
    transitivity ((i * i) / (y * y)); [by field|rewrite Hi].
    transitivity ((d * (y * y) - (y * y * d + 1)) / (y * y)); [by field|rewrite E; by field].
Qed.

Lemma on_curve_iff x y : on_curve x y <-> curve_v y * (x * x) = curve_u y.
Proof.
  unfold on_curve, curve_u, curve_v; split; intros E.
  - transitivity ((1 + d * x * x * y * y) + x * x - 1); [ring|rewrite <- E; ring].
  - transitivity (y * y - 1 - x * x + 1); [ring|rewrite <- E; ring].
Qed.

Definition root_candidate (k : Z) (u v : F) : F := u * Zmod.pow v 3 * Zmod.pow (u * Zmod.pow v 7) k.

Lemma pow_7 (v : F) : Zmod.pow v 7 = v * (v * v * v) * (v * v * v).
Proof.
  change 7%Z with (Z.succ (3 + 3)); rewrite Zmod.pow_succ_nonneg_r, Zmod.pow_add_r_nonneg by done.
  change 3%Z with (Z.succ (Z.succ 1)); rewrite !Zmod.pow_succ_nonneg_r, Zmod.pow_1_r by done; ring.
Qed.
Lemma pow_3 (v : F) : Zmod.pow v 3 = v * v * v.
Proof.
  change 3%Z with (Z.succ (Z.succ 1)); rewrite !Zmod.pow_succ_nonneg_r, Zmod.pow_1_r by done; ring.
Qed.

Lemma root_candidate_spec k (u v x : F) : m = (8 * k + 5)%Z -> (0 <= k)%Z -> v * (x * x) = u ->
  let c := root_candidate k u v in v * (c * c) = u \/ v * (c * c) = Zmod.opp u.
Proof.
  intros Hk Hk0 <-; cbv zeta; set (u := v * (x * x)); set (t := x * (v * v * v * v)).
  destruct (decide (t = 0)) as [Ht|Ht].
  { assert (Hu : u = 0).
    { unfold u; apply F_integral in Ht as [Hx|Hv]; [rewrite Hx; ring|].
      repeat (apply F_integral in Hv as [Hv|Hv]; [|rewrite Hv; ring]); rewrite Hv; ring. }
    left; unfold root_candidate; rewrite Hu; ring. }
  set (s := Zmod.pow t (4 * k + 2)).
  assert (Hs : s * s = 1).
  { unfold s; rewrite <- Zmod.pow_add_r_nonneg by lia.
    rewrite <- (Zmod.fermat_nz t Ht ed_prime); f_equal; lia. }
  assert (Ew : u * Zmod.pow v 7 = t * t) by (rewrite pow_7; unfold u, t; ring).
  assert (Es : s = t * t * (Zmod.pow (t * t) k * Zmod.pow (t * t) k)).
  { rewrite <- !Zmod.pow_2_r, <- !Zmod.pow_mul_r_nonneg, <- !Zmod.pow_add_r_nonneg by lia.
    unfold s; f_equal; lia. }
  assert (E : v * (root_candidate k u v * root_candidate k u v) = u * s).
  { rewrite Es; unfold root_candidate; rewrite Ew, pow_3, <- Ew, pow_7.
    generalize (Zmod.pow (u * (v * (v * v * v) * (v * v * v))) k); intros z; ring. }
  rewrite E; destruct (square_one s Hs) as [->| ->]; [left|right]; ring.
Qed.
End Curve.
End Curve.
