(* ===== verification/Edwards.v ===== *)
(** The point arithmetic of src/src/crypto/crypto-ops.c: the ge_* types and operations, which
    refine the group of points of the curve 25519 ([Curve]). *)

From Stdlib Require Import Zmod Field Zpow_facts Znumtheory.
From S2P Require Import Prelude.
From S2P Require Import IntUtil.
From S2P Require Import Limbs.
From S2P Require Import Field.
From S2P Require Import FieldPow.
From S2P Require Import Primes.
From S2P Require Import Group.
From S2P Require Import Curve.

Module Edwards.

Import Limbs Field FieldPow Group Curve.

(** ** Constants (src/src/crypto/crypto-ops-data.c) *)

Definition fe_d : fe :=
  Fe (-10913610) 13857413 (-15372611) 6949391 114729 (-8787816) (-6275908) (-3247719) (-18696448) (-12055116).
Definition fe_sqrtm1 : fe :=
  Fe (-32595792) (-7943725) 9377950 3500415 12389472 (-272473) (-25146209) (-2005654) 326686 11406482.
Definition fe_d2 : fe :=
  Fe (-21827239) (-5839606) (-30745221) 13898782 229458 15978800 (-12551817) (-6495438) 29715968 9444199.

(** ** Points (src/src/crypto/crypto-ops.h) *)

Record ge_p2 : Type := Ge_p2 { p2_X : fe; p2_Y : fe; p2_Z : fe }.
Record ge_p3 : Type := Ge_p3 { p3_X : fe; p3_Y : fe; p3_Z : fe; p3_T : fe }.
Record ge_p1p1 : Type := Ge_p1p1 { p1_X : fe; p1_Y : fe; p1_Z : fe; p1_T : fe }.
Record ge_precomp : Type := Ge_precomp { yplusx : fe; yminusx : fe; xy2d : fe }.
Record ge_cached : Type := Ge_cached { c_YplusX : fe; c_YminusX : fe; c_Z : fe; c_T2d : fe }.

(** ** Operations; [None] is a signed overflow. *)

Definition ge_add (p : ge_p3) (q : ge_cached) : option ge_p1p1 :=
  X ← fe_add (p3_Y p) (p3_X p);
  Y ← fe_sub (p3_Y p) (p3_X p);
  Z ← fe_mul X (c_YplusX q);
  Y ← fe_mul Y (c_YminusX q);
  T ← fe_mul (c_T2d q) (p3_T p);
  X ← fe_mul (p3_Z p) (c_Z q);
  t0 ← fe_add X X;
  X ← fe_sub Z Y;
  Y ← fe_add Z Y;
  Z ← fe_add t0 T;
  T ← fe_sub t0 T;
  Some (Ge_p1p1 X Y Z T).

Definition ge_sub (p : ge_p3) (q : ge_cached) : option ge_p1p1 :=
  X ← fe_add (p3_Y p) (p3_X p);
  Y ← fe_sub (p3_Y p) (p3_X p);
  Z ← fe_mul X (c_YminusX q);
  Y ← fe_mul Y (c_YplusX q);
  T ← fe_mul (c_T2d q) (p3_T p);
  X ← fe_mul (p3_Z p) (c_Z q);
  t0 ← fe_add X X;
  X ← fe_sub Z Y;
  Y ← fe_add Z Y;
  Z ← fe_sub t0 T;
  T ← fe_add t0 T;
  Some (Ge_p1p1 X Y Z T).

Definition ge_madd (p : ge_p3) (q : ge_precomp) : option ge_p1p1 :=
  X ← fe_add (p3_Y p) (p3_X p);
  Y ← fe_sub (p3_Y p) (p3_X p);
  Z ← fe_mul X (yplusx q);
  Y ← fe_mul Y (yminusx q);
  T ← fe_mul (xy2d q) (p3_T p);
  t0 ← fe_add (p3_Z p) (p3_Z p);
  X ← fe_sub Z Y;
  Y ← fe_add Z Y;
  Z ← fe_add t0 T;
  T ← fe_sub t0 T;
  Some (Ge_p1p1 X Y Z T).

Definition ge_msub (p : ge_p3) (q : ge_precomp) : option ge_p1p1 :=
  X ← fe_add (p3_Y p) (p3_X p);
  Y ← fe_sub (p3_Y p) (p3_X p);
  Z ← fe_mul X (yminusx q);
  Y ← fe_mul Y (yplusx q);
  T ← fe_mul (xy2d q) (p3_T p);
  t0 ← fe_add (p3_Z p) (p3_Z p);
  X ← fe_sub Z Y;
  Y ← fe_add Z Y;
  Z ← fe_sub t0 T;
  T ← fe_add t0 T;
  Some (Ge_p1p1 X Y Z T).

Definition ge_p1p1_to_p2 (p : ge_p1p1) : option ge_p2 :=
  X ← fe_mul (p1_X p) (p1_T p);
  Y ← fe_mul (p1_Y p) (p1_Z p);
  Z ← fe_mul (p1_Z p) (p1_T p);
  Some (Ge_p2 X Y Z).

Definition ge_p1p1_to_p3 (p : ge_p1p1) : option ge_p3 :=
  X ← fe_mul (p1_X p) (p1_T p);
  Y ← fe_mul (p1_Y p) (p1_Z p);
  Z ← fe_mul (p1_Z p) (p1_T p);
  T ← fe_mul (p1_X p) (p1_Y p);
  Some (Ge_p3 X Y Z T).

Definition ge_p2_0 : ge_p2 := Ge_p2 fe_0 fe_1 fe_1.

Definition ge_p2_dbl (p : ge_p2) : option ge_p1p1 :=
  X ← fe_sq (p2_X p);
  Z ← fe_sq (p2_Y p);
  T ← fe_sq2 (p2_Z p);
  Y ← fe_add (p2_X p) (p2_Y p);
  t0 ← fe_sq Y;
  Y ← fe_add Z X;
  Z ← fe_sub Z X;
  X ← fe_sub t0 Y;
  T ← fe_sub T Z;
  Some (Ge_p1p1 X Y Z T).

Definition ge_p3_0 : ge_p3 := Ge_p3 fe_0 fe_1 fe_1 fe_0.

Definition ge_p3_to_p2 (p : ge_p3) : ge_p2 :=
  Ge_p2 (fe_copy (p3_X p)) (fe_copy (p3_Y p)) (fe_copy (p3_Z p)).

Definition ge_p3_dbl (p : ge_p3) : option ge_p1p1 := ge_p2_dbl (ge_p3_to_p2 p).

Definition ge_p3_to_cached (p : ge_p3) : option ge_cached :=
  YplusX ← fe_add (p3_Y p) (p3_X p);
  YminusX ← fe_sub (p3_Y p) (p3_X p);
  let Z := fe_copy (p3_Z p) in
  T2d ← fe_mul (p3_T p) fe_d2;
  Some (Ge_cached YplusX YminusX Z T2d).

(** [s[31] ^= n << 7] *)
Definition set_sign (s : list Z) (n : Z) : list Z :=
  <[31%nat := Z.lxor (nth 31 s 0) (Z.shiftl n 7)]> s.

Definition ge_tobytes (h : ge_p2) : option (list Z) :=
  recip ← fe_invert (p2_Z h);
  x ← fe_mul (p2_X h) recip;
  y ← fe_mul (p2_Y h) recip;
  s ← fe_tobytes y;
  n ← fe_isnegative x;
  Some (set_sign s n).

Definition ge_p3_tobytes (h : ge_p3) : option (list Z) :=
  recip ← fe_invert (p3_Z h);
  x ← fe_mul (p3_X h) recip;
  y ← fe_mul (p3_Y h) recip;
  s ← fe_tobytes y;
  n ← fe_isnegative x;
  Some (set_sign s n).

(** ge_frombytes_vartime after [/* End fe_frombytes.c */]: the coordinate [X] for the given [Y]
    and sign; [Some None] is the return of -1. *)
Definition ge_frombytes_x (s : list Z) (Y : fe) : option (option ge_p3) :=
  let Z := fe_1 in
  u ← fe_sq Y;
  v ← fe_mul u fe_d;
  u ← fe_sub u Z;
  v ← fe_add v Z;
  X ← fe_divpowm1 u v;
  vxx ← fe_sq X;
  vxx ← fe_mul vxx v;
  check ← fe_sub vxx u;
  n ← fe_isnonzero check;
  root ← (if n =? 0 then Some (Some X) else
    check ← fe_add vxx u;
    n ← fe_isnonzero check;
    if n =? 0 then X ← fe_mul X fe_sqrtm1; Some (Some X) else Some None);
  match root with
  | None => Some None
  | Some X =>
    n ← fe_isnegative X;
    signed ← (if n =? Z.shiftr (nth 31 s 0) 7 then Some (Some X) else
      nz ← fe_isnonzero X;
      if nz =? 0 then Some None else X ← fe_neg X; Some (Some X));
    match signed with
    | None => Some None
    | Some X => T ← fe_mul X Y; Some (Some (Ge_p3 X Y Z T))
    end
  end.

Definition ge_frombytes_vartime (s : list Z) : option (option ge_p3) :=
  Y ← fe_frombytes_canonical s;
  match Y with None => Some None | Some Y => ge_frombytes_x s Y end.

Definition ge_mul8 (t : ge_p2) : option ge_p1p1 :=
  r ← ge_p2_dbl t;
  u ← ge_p1p1_to_p2 r;
  r ← ge_p2_dbl u;
  u ← ge_p1p1_to_p2 r;
  ge_p2_dbl u.
(** ** The curve 25519 *)

Definition fv (f : fe) : Zmod p := Zmod.of_Z p (val f).

Lemma prime_p : Z.prime p.
Proof.
  apply prime_alt, (Primes.pocklington_prime
    (fun e => match e with Zpos e => powp 2 e | _ => 1 end) 2 p [Primes.big_prime]).
  - intros [|e|e] He; [done|apply eqp_mod_iff, powp_eqp|done].
  - apply (bool_decide_unpack _); vm_compute; exact I.
  - apply Forall_cons_2; [apply Primes.prime_big_prime|apply Forall_nil_2].
  - vm_compute; reflexivity.
Qed.

Lemma eqp_F a b : a ≡p b <-> Zmod.of_Z p a = Zmod.of_Z p b.
Proof. by rewrite eqp_mod_iff, Zmod.of_Z_inj. Qed.

Lemma sqrtm1_square : (fv fe_sqrtm1 * fv fe_sqrtm1 = Zmod.opp 1)%Zmod.
Proof.
  unfold fv; rewrite <- Zmod.of_Z_mul, <- Zmod.of_Z_1, <- Zmod.of_Z_opp; apply eqp_F, eqp_mod_iff.
  vm_compute; reflexivity.
Qed.

(** Euler's criterion: [a^((p-1)/2) = -1] makes [a] a nonsquare. *)
Lemma nonsquare a r : powp a (2 ^ 254 - 10) mod p = -1 mod p -> (r * r)%Zmod <> Zmod.of_Z p a.
Proof.
  assert (He : exists e, (2 * Z.pos e = Z.pred p)%Z /\ e = (2 ^ 254 - 10)%positive).
  { exists (2 ^ 254 - 10)%positive; split; [vm_compute|]; reflexivity. }
  destruct He as (e & He & <-); intros Hd E; apply eqp_mod_iff in Hd; rewrite powp_eqp in Hd.
  apply eqp_F in Hd; rewrite Zmod.of_Z_pow in Hd by done.
  assert (Hr : r <> 0%Zmod).
  { intros ->; rewrite <- E, Zmod.mul_0_l, Zmod.pow_0_l in Hd by done; vm_compute in Hd; done. }
  rewrite <- E, <- Zmod.pow_2_r, <- Zmod.pow_mul_r_nonneg, He, (Zmod.fermat_nz r Hr prime_p) in Hd by done.
  vm_compute in Hd; done.
Qed.

Lemma d_nonsquare r : (r * r)%Zmod <> fv fe_d.
Proof. apply nonsquare; vm_compute; reflexivity. Qed.

#[export] Instance ed25519 : EdwardsCurve p := {|
  ed_prime := prime_p; ed_odd := eq_refl; ed_d := fv fe_d; ed_i := fv fe_sqrtm1;
  ed_i_square := sqrtm1_square; ed_d_nonsquare := d_nonsquare |}.

Abbreviation point := (@Curve.point p ed25519).
Add Field F25519 : (Zmod.field_theory p prime_p).

(** ** Field operations, in the field *)

#[local] Open Scope Zmod_scope.

Lemma eqp_fv f g : val f ≡p g -> fv f = Zmod.of_Z p g.
Proof. apply eqp_F. Qed.

Lemma fe_mul_F B C f g : (B <=? loose)%Z = true -> (C <=? loose)%Z = true -> fe_le B f -> fe_le C g ->
  exists h, fe_mul f g = Some h /\ fe_le tight h /\ fv h = fv f * fv g.
Proof.
  intros HB%Z.leb_le HC%Z.leb_le Hf Hg.
  destruct (fe_mul_spec f g) as (h & E & L & V); [by apply (fe_le_mono B)|by apply (fe_le_mono C)|].
  exists h; split_and!; [done..|]; by rewrite (eqp_fv _ _ V), Zmod.of_Z_mul.
Qed.

Lemma fe_sq_F B f : (B <=? loose)%Z = true -> fe_le B f ->
  exists h, fe_sq f = Some h /\ fe_le tight h /\ fv h = fv f * fv f.
Proof.
  intros HB%Z.leb_le Hf; destruct (fe_sq_spec f) as (h & E & L & V); [by apply (fe_le_mono B)|].
  exists h; split_and!; [done..|]; by rewrite (eqp_fv _ _ V), Zmod.of_Z_mul.
Qed.

Lemma fe_sq2_F B f : (B <=? loose)%Z = true -> fe_le B f ->
  exists h, fe_sq2 f = Some h /\ fe_le tight h /\ fv h = (1 + 1) * (fv f * fv f).
Proof.
  intros HB%Z.leb_le Hf; destruct (fe_sq2_spec f) as (h & E & L & V); [by apply (fe_le_mono B)|].
  exists h; split_and!; [done..|]; rewrite (eqp_fv _ _ V), !Zmod.of_Z_mul.
  change 2%Z with (1 + 1)%Z; by rewrite Zmod.of_Z_add, !Zmod.of_Z_1.
Qed.

Lemma fe_add_F B C f g : (2 * (B + C) <? 2 ^ 31)%Z && (0 <=? B)%Z && (0 <=? C)%Z = true ->
  fe_le B f -> fe_le C g -> exists h, fe_add f g = Some h /\ fe_le (B + C) h /\ fv h = fv f + fv g.
Proof.
  rewrite !andb_true_iff, !Z.leb_le; intros [[HB HB0] HC0] Hf Hg.
  destruct (fe_add_spec B C f g) as (h & E & L & V); [done..|].
  exists h; split_and!; [done..|]; unfold fv; by rewrite V, Zmod.of_Z_add.
Qed.

Lemma fe_sub_F B C f g : (2 * (B + C) <? 2 ^ 31)%Z && (0 <=? B)%Z && (0 <=? C)%Z = true ->
  fe_le B f -> fe_le C g -> exists h, fe_sub f g = Some h /\ fe_le (B + C) h /\ fv h = fv f - fv g.
Proof.
  rewrite !andb_true_iff, !Z.leb_le; intros [[HB HB0] HC0] Hf Hg.
  destruct (fe_sub_spec B C f g) as (h & E & L & V); [done..|].
  exists h; split_and!; [done..|]; unfold fv; by rewrite V, Zmod.of_Z_sub.
Qed.

Lemma fe_neg_F B f : (2 * B <? 2 ^ 31)%Z = true -> fe_le B f ->
  exists h, fe_neg f = Some h /\ fe_le B h /\ fv h = Zmod.opp (fv f).
Proof.
  intros HB Hf; destruct (fe_neg_spec B f) as (h & E & L & V); [done..|].
  exists h; split_and!; [done..|]; unfold fv; by rewrite V, Zmod.of_Z_opp.
Qed.

(** Runs the next field operation of a sequence; the bounds of its arguments are in the
    context and its bound is evaluated. *)
Ltac fe_lit L := match type of L with fe_le ?B ?h =>
  let v := eval vm_compute in B in change (fe_le v h) in L end.
Ltac fe_step :=
  let h := fresh "h" in let E := fresh "E" in let L := fresh "L" in let V := fresh "V" in
  match goal with
  | |- context [fe_mul ?f ?f ≫= _] => match goal with Hf : fe_le ?B f |- _ =>
      destruct (fe_mul_F B B f f eq_refl eq_refl Hf Hf) as (h & E & L & V) end
  | |- context [fe_mul ?f ?g ≫= _] => match goal with Hf : fe_le ?B f, Hg : fe_le ?C g |- _ =>
      destruct (fe_mul_F B C f g eq_refl eq_refl Hf Hg) as (h & E & L & V) end
  | |- context [fe_sq ?f ≫= _] => match goal with Hf : fe_le ?B f |- _ =>
      destruct (fe_sq_F B f eq_refl Hf) as (h & E & L & V) end
  | |- context [fe_sq2 ?f ≫= _] => match goal with Hf : fe_le ?B f |- _ =>
      destruct (fe_sq2_F B f eq_refl Hf) as (h & E & L & V) end
  | |- context [fe_add ?f ?f ≫= _] => match goal with Hf : fe_le ?B f |- _ =>
      destruct (fe_add_F B B f f eq_refl Hf Hf) as (h & E & L & V) end
  | |- context [fe_add ?f ?g ≫= _] => match goal with Hf : fe_le ?B f, Hg : fe_le ?C g |- _ =>
      destruct (fe_add_F B C f g eq_refl Hf Hg) as (h & E & L & V) end
  | |- context [fe_sub ?f ?g ≫= _] => match goal with Hf : fe_le ?B f, Hg : fe_le ?C g |- _ =>
      destruct (fe_sub_F B C f g eq_refl Hf Hg) as (h & E & L & V) end
  | |- context [fe_neg ?f ≫= _] => match goal with Hf : fe_le ?B f |- _ =>
      destruct (fe_neg_F B f eq_refl Hf) as (h & E & L & V) end
  end; rewrite E; clear E; fe_lit L; cbn [mbind option_bind].

(** ** Representation of points *)

Definition p2_rep (h : ge_p2) (P : point) : Prop :=
  fe_le tight (p2_X h) /\ fe_le tight (p2_Y h) /\ fe_le tight (p2_Z h) /\
  rep2 P (fv (p2_X h)) (fv (p2_Y h)) (fv (p2_Z h)).
Definition p3_rep (h : ge_p3) (P : point) : Prop :=
  fe_le tight (p3_X h) /\ fe_le tight (p3_Y h) /\ fe_le tight (p3_Z h) /\ fe_le tight (p3_T h) /\
  rep3 P (fv (p3_X h)) (fv (p3_Y h)) (fv (p3_Z h)) (fv (p3_T h)).
Definition p1p1_rep (h : ge_p1p1) (P : point) : Prop :=
  fe_le 50834964 (p1_X h) /\ fe_le 33889976 (p1_Y h) /\ fe_le 50834964 (p1_Z h) /\
  fe_le 50834964 (p1_T h) /\ rep1 P (fv (p1_X h)) (fv (p1_Y h)) (fv (p1_Z h)) (fv (p1_T h)).
Definition cached_rep (h : ge_cached) (P : point) : Prop :=
  fe_le 33889976 (c_YplusX h) /\ fe_le 33889976 (c_YminusX h) /\ fe_le tight (c_Z h) /\
  fe_le tight (c_T2d h) /\ repc P (fv (c_YplusX h)) (fv (c_YminusX h)) (fv (c_Z h)) (fv (c_T2d h)).
Definition precomp_rep (h : ge_precomp) (P : point) : Prop :=
  fe_le tight (yplusx h) /\ fe_le tight (yminusx h) /\ fe_le tight (xy2d h) /\
  repc P (fv (yplusx h)) (fv (yminusx h)) 1 (fv (xy2d h)).

Lemma fe_d2_val : fv fe_d2 = (1 + 1) * fv fe_d.
Proof.
  rewrite <- Zmod.of_Z_1; unfold fv; rewrite <- Zmod.of_Z_add, <- Zmod.of_Z_mul.
  apply eqp_F, eqp_mod_iff; vm_compute; reflexivity.
Qed.
Lemma fe_d2_le : fe_le tight fe_d2.
Proof. unfold fe_le, tight, fe_d2; lia. Qed.

Lemma fv_0 : fv fe_0 = 0.
Proof. apply Zmod.of_Z_0. Qed.
Lemma fv_1 : fv fe_1 = 1.
Proof. apply Zmod.of_Z_1. Qed.
Lemma fe_1_le B : (1 <=? B)%Z = true -> fe_le B fe_1.
Proof. intros H%Z.leb_le; unfold fe_le, fe_1; lia. Qed.
Lemma fe_0_le B : (0 <=? B)%Z = true -> fe_le B fe_0.
Proof. intros H%Z.leb_le; unfold fe_le, fe_0; lia. Qed.

Lemma fv_to_Z f : Zmod.to_Z (fv f) = (val f mod p)%Z.
Proof. apply Zmod.unsigned_of_Z. Qed.

Lemma fv_eqp f a : val f ≡p a -> fv f = Zmod.of_Z p a.
Proof. apply eqp_F. Qed.

Lemma fe_invert_F B f : (B <=? loose)%Z = true -> fe_le B f -> fv f <> 0 ->
  exists h, fe_invert f = Some h /\ fe_le tight h /\ fv h = Zmod.inv (fv f).
Proof.
  intros HB%Z.leb_le Hf Hnz; destruct (fe_invert_spec f) as (h & E & L & V); [by apply (fe_le_mono B)|].
  exists h; split_and!; [done..|].
  rewrite <- (Zmod.fermat_inv _ Hnz prime_p); apply eqp_fv in V; rewrite V.
  by apply Zmod.of_Z_pow.
Qed.

(** [p = 8 k + 5] *)
Definition root_exp : Z := (2 ^ 252 - 3)%Z.

Lemma fe_divpowm1_F B C u v : (B <=? loose)%Z = true -> (C <=? loose)%Z = true -> fe_le B u -> fe_le C v ->
  exists h, fe_divpowm1 u v = Some h /\ fe_le tight h /\ fv h = root_candidate root_exp (fv u) (fv v).
Proof.
  intros HB%Z.leb_le HC%Z.leb_le Hu Hv.
  destruct (fe_divpowm1_spec u v) as (h & E & L & V); [by apply (fe_le_mono B)|by apply (fe_le_mono C)|].
  exists h; split_and!; [done..|].
  apply eqp_fv in V; rewrite V; unfold root_candidate; change ((p - 5) / 8)%Z with root_exp.
  rewrite !Zmod.of_Z_mul, !Zmod.of_Z_pow by (vm_compute; discriminate).
  rewrite !Zmod.of_Z_mul, Zmod.of_Z_pow by (vm_compute; discriminate); done.
Qed.

(** The values are not evaluated from here on. *)
#[global] Opaque fv.

Ltac le_done := match goal with
  | H : fe_le ?B ?f |- fe_le ?C ?f => apply (fe_le_mono B C f); [by vm_compute|exact H] end.


Ltac rep_done := lazymatch goal with
  | |- exists r, Some ?x = Some r /\ _ => exists x; split; [reflexivity|] end;
  split_and!; [le_done..|cbn [p1_X p1_Y p1_Z p1_T p2_X p2_Y p2_Z p3_X p3_Y p3_Z p3_T
    c_YplusX c_YminusX c_Z c_T2d]; repeat match goal with V : fv _ = _ |- _ => rewrite V; clear V end].

Lemma ge_add_spec h c P Q : p3_rep h P -> cached_rep c Q ->
  exists r, ge_add h c = Some r /\ p1p1_rep r (P ⊕ Q).
Proof.
  intros (LX & LY & LZ & LT & HP) (MA & MB & MZ & MT & HQ).
  unfold ge_add; do 11 fe_step; rep_done; by apply add_proj.
Qed.

Lemma ge_sub_spec h c P Q : p3_rep h P -> cached_rep c Q ->
  exists r, ge_sub h c = Some r /\ p1p1_rep r (P ⊖ Q).
Proof.
  intros (LX & LY & LZ & LT & HP) (MA & MB & MZ & MT & HQ).
  unfold ge_sub; do 11 fe_step; rep_done; by apply sub_proj.
Qed.

Lemma ge_madd_spec h c P Q : p3_rep h P -> precomp_rep c Q ->
  exists r, ge_madd h c = Some r /\ p1p1_rep r (P ⊕ Q).
Proof.
  intros (LX & LY & LZ & LT & HP) (MA & MB & MT & HQ).
  unfold ge_madd; do 10 fe_step; rep_done; by apply madd_proj.
Qed.

Lemma ge_msub_spec h c P Q : p3_rep h P -> precomp_rep c Q ->
  exists r, ge_msub h c = Some r /\ p1p1_rep r (P ⊖ Q).
Proof.
  intros (LX & LY & LZ & LT & HP) (MA & MB & MT & HQ).
  unfold ge_msub; do 10 fe_step; rep_done; by apply msub_proj.
Qed.

Lemma ge_p1p1_to_p2_spec h P : p1p1_rep h P -> exists r, ge_p1p1_to_p2 h = Some r /\ p2_rep r P.
Proof.
  intros (LX & LY & LZ & LT & HP); unfold ge_p1p1_to_p2; do 3 fe_step; rep_done; by apply rep1_rep2.
Qed.

Lemma ge_p1p1_to_p3_spec h P : p1p1_rep h P -> exists r, ge_p1p1_to_p3 h = Some r /\ p3_rep r P.
Proof.
  intros (LX & LY & LZ & LT & HP); unfold ge_p1p1_to_p3; do 4 fe_step; rep_done; by apply rep1_rep3.
Qed.

Lemma ge_p3_to_p2_spec h P : p3_rep h P -> p2_rep (ge_p3_to_p2 h) P.
Proof. intros (LX & LY & LZ & LT & HP); split_and!; [done..|by eapply rep3_rep2]. Qed.

Lemma ge_p2_dbl_spec h P : p2_rep h P -> exists r, ge_p2_dbl h = Some r /\ p1p1_rep r (zmul 2 P).
Proof.
  intros (LX & LY & LZ & HP); unfold ge_p2_dbl; do 9 fe_step; rep_done.
  rewrite zmul_2; by apply dbl_proj.
Qed.

Lemma ge_p3_dbl_spec h P : p3_rep h P -> exists r, ge_p3_dbl h = Some r /\ p1p1_rep r (zmul 2 P).
Proof. intros H; by apply ge_p2_dbl_spec, ge_p3_to_p2_spec. Qed.

Lemma ge_p3_to_cached_spec h P : p3_rep h P -> exists r, ge_p3_to_cached h = Some r /\ cached_rep r P.
Proof.
  intros (LX & LY & LZ & LT & HP); pose proof fe_d2_le; unfold ge_p3_to_cached, fe_copy; do 3 fe_step; rep_done.
  rewrite fe_d2_val.
  exact (rep3_repc _ _ _ _ _ HP).
Qed.

Lemma ge_p3_0_spec : p3_rep ge_p3_0 gzero.
Proof.
  split_and!; try (by apply fe_0_le); try (by apply fe_1_le).
  cbn [ge_p3_0 p3_X p3_Y p3_Z p3_T]; rewrite fv_0, fv_1; apply rep3_zero.
Qed.

Lemma ge_p2_0_spec : p2_rep ge_p2_0 gzero.
Proof. apply (ge_p3_to_p2_spec ge_p3_0), ge_p3_0_spec. Qed.

(** Runs the next point operation of a sequence. *)
Ltac ge_step :=
  let r := fresh "r" in let E := fresh "E" in let R := fresh "R" in
  match goal with
  | |- context [ge_add ?h ?c] => match goal with H : p3_rep h ?P, K : cached_rep c ?Q |- _ =>
      destruct (ge_add_spec h c P Q H K) as (r & E & R) end
  | |- context [ge_sub ?h ?c] => match goal with H : p3_rep h ?P, K : cached_rep c ?Q |- _ =>
      destruct (ge_sub_spec h c P Q H K) as (r & E & R) end
  | |- context [ge_madd ?h ?c] => match goal with H : p3_rep h ?P, K : precomp_rep c ?Q |- _ =>
      destruct (ge_madd_spec h c P Q H K) as (r & E & R) end
  | |- context [ge_msub ?h ?c] => match goal with H : p3_rep h ?P, K : precomp_rep c ?Q |- _ =>
      destruct (ge_msub_spec h c P Q H K) as (r & E & R) end
  | |- context [ge_p1p1_to_p2 ?h] => match goal with H : p1p1_rep h ?P |- _ =>
      destruct (ge_p1p1_to_p2_spec h P H) as (r & E & R) end
  | |- context [ge_p1p1_to_p3 ?h] => match goal with H : p1p1_rep h ?P |- _ =>
      destruct (ge_p1p1_to_p3_spec h P H) as (r & E & R) end
  | |- context [ge_p2_dbl ?h] => match goal with H : p2_rep h ?P |- _ =>
      destruct (ge_p2_dbl_spec h P H) as (r & E & R) end
  | |- context [ge_p3_dbl ?h] => match goal with H : p3_rep h ?P |- _ =>
      destruct (ge_p3_dbl_spec h P H) as (r & E & R) end
  | |- context [ge_p3_to_cached ?h] => match goal with H : p3_rep h ?P |- _ =>
      destruct (ge_p3_to_cached_spec h P H) as (r & E & R) end
  end; rewrite E; clear E; cbn [mbind option_bind].

Lemma ge_mul8_spec h P : p2_rep h P -> exists r, ge_mul8 h = Some r /\ p1p1_rep r (zmul 8 P).
Proof.
  intros H; unfold ge_mul8; do 5 ge_step; eexists; split; [reflexivity|].
  by rewrite <- !zmul_mul in *.
Qed.
(** C28. The projective point operations implement the group law of the
    twisted Edwards curve: from representations of P and Q, ge_add, ge_sub,
    ge_madd, ge_msub and ge_p3_dbl with the conversions between the coordinate
    systems give representations of P + Q, P - Q and 2 P, and ge_mul8 of 8 P,
    overflowing no limb. *)
Theorem point_operations_refine h k P Q : p3_rep h P -> p3_rep k Q ->
  (exists c r s, ge_p3_to_cached k = Some c /\ ge_add h c = Some r /\ ge_p1p1_to_p3 r = Some s /\ p3_rep s (P ⊕ Q)) /\
  (exists c r s, ge_p3_to_cached k = Some c /\ ge_sub h c = Some r /\ ge_p1p1_to_p3 r = Some s /\ p3_rep s (P ⊖ Q)) /\
  (forall c, precomp_rep c Q ->
     (exists r s, ge_madd h c = Some r /\ ge_p1p1_to_p3 r = Some s /\ p3_rep s (P ⊕ Q)) /\
     (exists r s, ge_msub h c = Some r /\ ge_p1p1_to_p3 r = Some s /\ p3_rep s (P ⊖ Q))) /\
  (exists r s, ge_p3_dbl h = Some r /\ ge_p1p1_to_p3 r = Some s /\ p3_rep s (P ⊕ P)) /\
  (exists r s, ge_mul8 (ge_p3_to_p2 h) = Some r /\ ge_p1p1_to_p2 r = Some s /\ p2_rep s (zmul 8 P)).
Proof.
  intros HP HQ; destruct (ge_p3_to_cached_spec k Q HQ) as (c & Ec & Hc).
  split_and!.
  - destruct (ge_add_spec h c P Q HP Hc) as (r & Er & Hr), (ge_p1p1_to_p3_spec r _ Hr) as (s & Es & Hs).
    exists c, r, s; split_and!; assumption.
  - destruct (ge_sub_spec h c P Q HP Hc) as (r & Er & Hr), (ge_p1p1_to_p3_spec r _ Hr) as (s & Es & Hs).
    exists c, r, s; split_and!; assumption.
  - intros q Hq; split.
    + destruct (ge_madd_spec h q P Q HP Hq) as (r & Er & Hr), (ge_p1p1_to_p3_spec r _ Hr) as (s & Es & Hs).
      exists r, s; split_and!; assumption.
    + destruct (ge_msub_spec h q P Q HP Hq) as (r & Er & Hr), (ge_p1p1_to_p3_spec r _ Hr) as (s & Es & Hs).
      exists r, s; split_and!; assumption.
  - destruct (ge_p3_dbl_spec h P HP) as (r & Er & Hr), (ge_p1p1_to_p3_spec r _ Hr) as (s & Es & Hs).
    rewrite zmul_2 in Hs; exists r, s; split_and!; assumption.
  - destruct (ge_mul8_spec _ P (ge_p3_to_p2_spec h P HP)) as (r & Er & Hr), (ge_p1p1_to_p2_spec r _ Hr) as (s & Es & Hs).
    exists r, s; split_and!; assumption.
Qed.

Lemma point_operations_refine_witness :
  exists r s, ge_p3_dbl ge_p3_0 = Some r /\ ge_p1p1_to_p3 r = Some s /\ p3_rep s (gzero ⊕ gzero).
Proof. apply (point_operations_refine ge_p3_0 ge_p3_0 gzero gzero); exact ge_p3_0_spec. Defined.
End Edwards.
