(* ===== verification/PointCodec.v ===== *)
(** The encoding of points in 32 bytes: ge_tobytes, ge_p3_tobytes and ge_frombytes_vartime of
    src/src/crypto/crypto-ops.c ([Edwards]) against the points of the curve ([Curve]). *)

From Stdlib Require Import Zmod Field.
From S2P Require Import Prelude.
From S2P Require Import IntUtil.
From S2P Require Import Limbs.
From S2P Require Import Field.
From S2P Require Import FieldPow.
From S2P Require Import Group.
From S2P Require Import Curve.
From S2P Require Import Edwards.

Module PointCodec.

Import Limbs Field FieldPow Group Curve Edwards.

(** ** The specification: the integer [y], with the parity of [x] as bit 255. *)

Definition encode_val (P : point) : Z := Zmod.to_Z (py P) + 2 ^ 255 * (Zmod.to_Z (px P) mod 2).
Definition encode (P : point) : list Z := le_bytes 32 (encode_val P).

Lemma p_val : p = 2 ^ 255 - 19.
Proof. done. Qed.

Lemma F_range (x : Zmod p) : 0 <= Zmod.to_Z x < p.
Proof. apply Zmod.unsigned_pos_bound; done. Qed.

Lemma encode_val_range P : 0 <= encode_val P < 2 ^ 256.
Proof.
  pose proof (F_range (py P)); pose proof (Z.mod_pos_bound (Zmod.to_Z (px P)) 2 ltac:(done)).
  pose proof p_val; unfold encode_val; lia.
Qed.

Lemma encode_val_eq P : le_val (encode P) = encode_val P.
Proof.
  unfold encode; rewrite le_val_le_bytes; apply Z.mod_small.
  change (256 ^ Z.of_nat 32) with (2 ^ 256); apply encode_val_range.
Qed.

Lemma encode_length P : length (encode P) = 32%nat.
Proof. apply le_bytes_length. Qed.

Lemma encode_bytes P : Forall is_byte (encode P).
Proof. apply le_bytes_range. Qed.

(** The two parts of an encoding. *)
Lemma encode_parts P V y b : V = encode_val P -> y = V mod 2 ^ 255 -> b = V / 2 ^ 255 ->
  py P = Zmod.of_Z p y /\ Zmod.to_Z (px P) mod 2 = b /\ y < p.
Proof.
  intros -> -> ->; unfold encode_val.
  pose proof (F_range (py P)) as Hy; pose proof (Z.mod_pos_bound (Zmod.to_Z (px P)) 2 ltac:(done)).
  assert (Hy' : 0 <= Zmod.to_Z (py P) < 2 ^ 255) by (pose proof p_val; lia).
  rewrite (Z.mul_comm (2 ^ 255)), Z.mod_add, Z.div_add by done.
  rewrite (Z.mod_small (Zmod.to_Z (py P))), Z.div_small by done.
  split_and!; [by rewrite Zmod.of_Z_unsigned|lia|lia].
Qed.

(** ** Encoding *)

Lemma set_sign_spec v n : 0 <= v < 2 ^ 255 -> 0 <= n < 2 ->
  set_sign (le_bytes 32 v) n = le_bytes 32 (v + 2 ^ 255 * n).
Proof.
  intros Hv Hn; apply list_eq; intros j; unfold set_sign.
  destruct (decide (j < 32)%nat) as [Hj|Hj].
  2: { rewrite !lookup_ge_None_2; [done|rewrite ?length_insert, le_bytes_length; lia..]. }
  rewrite IntUtil.le_bytes_lookup by done; destruct (decide (j = 31%nat)) as [->|Hne].
  - rewrite list_lookup_insert_eq by (rewrite le_bytes_length; lia).
    rewrite (nth_lookup_Some _ _ _ _ (IntUtil.le_bytes_lookup 32 v 31 ltac:(lia))); f_equal.
    change (256 ^ Z.of_nat 31) with (2 ^ 248); replace (2 ^ 255 * n) with (128 * n * 2 ^ 248) by lia.
    rewrite Z.div_add, Z.shiftl_mul_pow2 by done; change (2 ^ 7) with 128.
    assert (Hb : 0 <= v / 2 ^ 248 < 128)
      by (split; [apply Z.div_pos|apply Z.div_lt_upper_bound]; lia).
    rewrite !(Z.mod_small _ 256) by lia; set (b := v / 2 ^ 248) in *; clearbody b.
    rewrite <- Z.add_nocarry_lxor; [lia|]; apply Z.bits_inj'; intros k Hk.
    rewrite Z.land_spec, Z.bits_0; change 128 with (2 ^ 7); rewrite <- Z.shiftl_mul_pow2 by done.
    destruct (Z.lt_ge_cases k 7); [by rewrite Z.shiftl_spec_low, andb_false_r|].
    rewrite <- (Z.mod_small b (2 ^ 7)) by lia; by rewrite Z.mod_pow2_bits_high by lia.
  - rewrite list_lookup_insert_ne, IntUtil.le_bytes_lookup by done; f_equal.
    replace (2 ^ 255 * n) with (2 ^ 7 * n * 256 ^ Z.of_nat (30 - j) * 256 * 256 ^ Z.of_nat j).
    + rewrite Z.div_add, Z.mod_add by (pose proof (pow256_pos j); lia); done.
    + replace (2 ^ 255) with (2 ^ 7 * 256 ^ Z.of_nat 31) by done.
      replace (Z.of_nat 31) with (Z.of_nat (30 - j) + 1 + Z.of_nat j) by lia.
      rewrite !Z.pow_add_r by lia; ring.
Qed.

(** The last four operations of ge_tobytes and ge_p3_tobytes. *)
Lemma affine_tobytes P X Y Z x y recip : fe_le tight X -> fe_le tight Y -> fe_le tight Z ->
  rep2 P (fv X) (fv Y) (fv Z) -> fe_le tight x -> fe_le tight y ->
  fv recip = Zmod.inv (fv Z) -> fv x = (fv X * fv recip)%Zmod -> fv y = (fv Y * fv recip)%Zmod ->
  (s ← fe_tobytes y; n ← fe_isnegative x; Some (set_sign s n)) = Some (encode P).
Proof.
  intros LX LY LZ HP Lx Ly Er Ex Ey; destruct (rep2_affine _ _ _ _ HP) as [Ax Ay].
  rewrite fe_tobytes_spec, fe_isnegative_spec by le_done; cbn [mbind option_bind]; f_equal.
  rewrite <- !fv_to_Z, Ex, Ey, Er, Ax, Ay; apply set_sign_spec.
  - pose proof (F_range (py P)); pose proof p_val; lia.
  - by apply Z.mod_pos_bound.
Qed.

Lemma ge_p3_tobytes_spec h P : p3_rep h P -> ge_p3_tobytes h = Some (encode P).
Proof.
  intros (LX & LY & LZ & LT & HP); apply rep3_rep2 in HP; pose proof (proj1 HP) as NZ; unfold ge_p3_tobytes.
  destruct (fe_invert_F tight _ eq_refl LZ NZ) as (recip & -> & Lr & Er); cbn [mbind option_bind].
  do 2 fe_step; apply (affine_tobytes P (p3_X h) (p3_Y h) (p3_Z h) _ _ recip); assumption.
Qed.

Lemma ge_tobytes_spec h P : p2_rep h P -> ge_tobytes h = Some (encode P).
Proof.
  intros (LX & LY & LZ & HP); pose proof (proj1 HP) as NZ; unfold ge_tobytes.
  destruct (fe_invert_F tight _ eq_refl LZ NZ) as (recip & -> & Lr & Er); cbn [mbind option_bind].
  do 2 fe_step; apply (affine_tobytes P (p2_X h) (p2_Y h) (p2_Z h) _ _ recip); assumption.
Qed.

(** ** Decoding *)

#[local] Open Scope Zmod_scope.

Lemma fe_isnonzero_F f : fe_le tobytes_bound f ->
  fe_isnonzero f = Some (if decide (fv f = 0) then 0%Z else 1%Z).
Proof.
  intros Hf; rewrite fe_isnonzero_spec, <- fv_to_Z by done; f_equal.
  destruct (decide (fv f = 0)) as [E|E], (Z.eqb_spec (Zmod.to_Z (fv f)) 0%Z) as [E'|E']; try done.
  - by rewrite E, Zmod.unsigned_0 in E'.
  - by apply Zmod.unsigned_0_iff in E'.
Qed.

Lemma fe_isnegative_F f : fe_le tobytes_bound f ->
  fe_isnegative f = Some (Zmod.to_Z (fv f) mod 2)%Z.
Proof. intros Hf; by rewrite fe_isnegative_spec, <- fv_to_Z. Qed.

(** The parity of [x] changes with its sign. *)
Lemma parity_opp (x : Zmod p) : x <> 0 ->
  (Zmod.to_Z (Zmod.opp x) mod 2 = 1 - Zmod.to_Z x mod 2)%Z.
Proof.
  intros Hx; pose proof (F_range x) as Hr; pose proof (Zmod.unsigned_nz x Hx) as Hnz; pose proof p_val as Hp.
  rewrite Zmod.unsigned_opp.
  replace (- Zmod.to_Z x mod p)%Z with (p - Zmod.to_Z x)%Z by (apply (Z.mod_unique_pos _ _ (-1)); lia).
  generalize dependent (Zmod.to_Z x); intros z Hr Hnz; rewrite Hp; Z.div_mod_to_equations; lia.
Qed.

(** Points of equal [y] have equal or opposite [x]. *)
Lemma same_y_x (P : point) x : on_curve x (py P) -> px P = x \/ px P = Zmod.opp x.
Proof.
  intros H; pose proof (point_on P) as HP; apply on_curve_iff in H, HP.
  assert (E : (px P - x) * (px P + x) = 0).
  { apply (F_cancel_l (curve_v (py P))); [apply curve_v_nz|].
    transitivity (curve_v (py P) * (px P * px P) - curve_v (py P) * (x * x)); [ring|].
    rewrite H, HP; ring. }
  apply F_integral in E as [E|E]; [left; by apply Zmod.sub_eq_0|right].
  transitivity (px P + x - x); [ring|rewrite E; ring].
Qed.

(** What a decoded point, or a rejection, means for [y] and the sign bit [b]. *)
Definition decodes (r : option (option ge_p3)) (y : Zmod p) (b : Z) : Prop :=
  (exists h P, r = Some (Some h) /\ p3_rep h P /\ py P = y /\ (Zmod.to_Z (px P) mod 2 = b)%Z) \/
  (r = Some None /\ forall P : point, py P = y -> (Zmod.to_Z (px P) mod 2 <> b)%Z).

Lemma decodes_point X Y T b : fe_le tight X -> fe_le tight Y -> fe_le tight T ->
  on_curve (fv X) (fv Y) -> fv T = fv X * fv Y -> (Zmod.to_Z (fv X) mod 2 = b)%Z ->
  decodes (Some (Some (Ge_p3 X Y fe_1 T))) (fv Y) b.
Proof.
  intros LX LY LT Hc ET Hb; left; exists (Ge_p3 X Y fe_1 T), (point_of _ _ Hc).
  split_and!; [done|split_and!; cbn [p3_X p3_Y p3_Z p3_T]|done|done].
  1-4: assumption || by apply fe_1_le.
  rewrite fv_1; split_and!; [apply F_1_nz|cbn [px py point_of]; rewrite ?ET; ring..].
Qed.

Lemma frombytes_sign s X Y b : fe_le tight X -> fe_le tight Y -> on_curve (fv X) (fv Y) ->
  Z.shiftr (nth 31 s 0%Z) 7 = b -> (0 <= b < 2)%Z ->
  decodes (n ← fe_isnegative X;
    signed ← (if (n =? Z.shiftr (nth 31 s 0%Z) 7)%Z then Some (Some X) else
      nz ← fe_isnonzero X;
      if (nz =? 0)%Z then Some None else X ← fe_neg X; Some (Some X));
    match signed with
    | None => Some None
    | Some X => T ← fe_mul X Y; Some (Some (Ge_p3 X Y fe_1 T))
    end) (fv Y) b.
Proof.
  intros LX LY Hc -> Hb; rewrite fe_isnegative_F, fe_isnonzero_F by le_done; cbn [mbind option_bind].
  destruct (Z.eqb_spec (Zmod.to_Z (fv X) mod 2)%Z b) as [E|E]; cbn [mbind option_bind].
  { fe_step; apply decodes_point; assumption. }
  pose proof (Z.mod_pos_bound (Zmod.to_Z (fv X)) 2 ltac:(done)).
  destruct (decide (fv X = 0)) as [Hx|Hx]; cbn [mbind option_bind Z.eqb].
  { right; split; [done|]; intros P HP EP; rewrite <- HP in Hc.
    apply E; destruct (same_y_x P (fv X) Hc) as [<-|Ho]; [done|].
    rewrite <- EP, Ho, Hx; done. }
  do 2 fe_step; apply decodes_point; try assumption.
  - rewrite V; by apply opp_on_curve.
  - rewrite V, parity_opp by done; lia.
Qed.

Lemma fe_d_le : fe_le tight fe_d.
Proof. unfold fe_le, tight, fe_d; lia. Qed.
Lemma fe_sqrtm1_le : fe_le tight fe_sqrtm1.
Proof. unfold fe_le, tight, fe_sqrtm1; lia. Qed.

Lemma frombytes_rejects y c (b : Z) : c = root_candidate root_exp (curve_u y) (curve_v y) ->
  c * c * curve_v y - curve_u y <> 0 -> c * c * curve_v y + curve_u y <> 0 ->
  forall P : point, py P = y -> (Zmod.to_Z (px P) mod 2 <> b)%Z.
Proof.
  intros Ec N1 N2 P <-; exfalso; pose proof (point_on P) as HP; apply on_curve_iff in HP.
  destruct (root_candidate_spec root_exp (curve_u (py P)) (curve_v (py P)) (px P)) as [E|E];
    [reflexivity|vm_compute; discriminate|exact HP|rewrite <- Ec in E..].
  - apply N1; rewrite <- E; ring.
  - apply N2; transitivity (curve_v (py P) * (c * c) + curve_u (py P)); [ring|rewrite E; ring].
Qed.

Lemma ge_frombytes_x_spec s Y b : fe_le tight Y -> Z.shiftr (nth 31 s 0%Z) 7 = b -> (0 <= b < 2)%Z ->
  decodes (ge_frombytes_x s Y) (fv Y) b.
Proof.
  intros LY Hb Hb2; pose proof fe_d_le; pose proof fe_sqrtm1_le; pose proof (fe_1_le 1 eq_refl).
  unfold ge_frombytes_x; cbv zeta; do 4 fe_step.
  destruct (fe_divpowm1_F 16944989 16944989 h2 h1) as (X & E & LX & VX); [reflexivity|reflexivity|assumption..|].
  rewrite E; clear E; cbn [mbind option_bind]; do 5 fe_step.
  rewrite V, fv_1 in V2; rewrite V0, V, fv_1 in V1.
  change (fv h2 = curve_u (fv Y)) in V2; change (fv h1 = curve_v (fv Y)) in V1.
  rewrite V4, V1 in V5; rewrite V5, V2 in V6, V7; rewrite V1, V2 in VX.
  rewrite !fe_isnonzero_F by le_done; cbn [mbind option_bind].
  destruct (decide (fv h7 = 0)) as [E7|E7]; cbn [Z.eqb mbind option_bind].
  { apply frombytes_sign; try assumption; apply on_curve_iff; rewrite V7 in E7.
    apply Zmod.sub_eq_0 in E7; rewrite <- E7; ring. }
  destruct (decide (fv h6 = 0)) as [E6|E6]; cbn [Z.eqb mbind option_bind].
  { apply frombytes_sign; try assumption; apply on_curve_iff; rewrite V6 in E6; rewrite V3.
    transitivity (fv X * fv X * curve_v (fv Y) * (fv fe_sqrtm1 * fv fe_sqrtm1)); [ring|].
    rewrite sqrtm1_square; transitivity (curve_u (fv Y) - (fv X * fv X * curve_v (fv Y) + curve_u (fv Y)));
      [ring|rewrite E6; ring]. }
  right; split; [reflexivity|]; apply (frombytes_rejects _ (fv X)); [exact VX|by rewrite <- V7|by rewrite <- V6].
Qed.

(** The sign bit. *)
Lemma top_bit s : length s = 32%nat -> Forall is_byte s ->
  (Z.shiftr (nth 31 s 0) 7 = le_val s / 2 ^ 255 /\ 0 <= le_val s / 2 ^ 255 < 2)%Z.
Proof.
  intros Hl Hs; rewrite nth_digit by (done || lia); pose proof (le_val_range s Hs) as Hr.
  rewrite Hl in Hr; change (256 ^ Z.of_nat 32)%Z with (2 ^ 256)%Z in Hr.
  change (8 * Z.of_nat 31)%Z with 248%Z; unfold digit; split; [|Z.div_mod_to_equations; lia].
  rewrite Z.shiftr_div_pow2, (Z.mod_small (_ / _)) by (done || (Z.div_mod_to_equations; lia)).
  rewrite Z.div_div by done; done.
Qed.

Lemma ge_frombytes_vartime_spec s : length s = 32%nat -> Forall is_byte s ->
  (exists h P, ge_frombytes_vartime s = Some (Some h) /\ p3_rep h P /\ encode P = s) \/
  (ge_frombytes_vartime s = Some None /\ forall P, encode P <> s).
Proof.
  intros Hl Hs; destruct (top_bit s Hl Hs) as [Hb Hb2].
  pose proof (fe_frombytes_canonical_spec s Hl Hs) as HY; cbv zeta in HY; unfold ge_frombytes_vartime.
  assert (Hval : forall P, encode P = s -> le_val s = encode_val P) by (intros P <-; apply encode_val_eq).
  destruct (Z.leb_spec p (le_val s mod 2 ^ 255)%Z) as [Hp|Hp].
  { right; rewrite HY; split; [done|]; intros P HP.
    destruct (encode_parts P _ _ _ (Hval P HP) eq_refl eq_refl) as (_ & _ & Hlt); lia. }
  destruct HY as (Y & -> & LY & VY); cbn [mbind option_bind]; apply fv_eqp in VY.
  destruct (ge_frombytes_x_spec s Y _ LY Hb Hb2) as [(h & P & E & HP & EY & EX)|[E HN]].
  - left; exists h, P; split_and!; [exact E|exact HP|].
    rewrite <- (le_bytes_le_val s Hs), Hl; unfold encode; f_equal; unfold encode_val; rewrite EX, EY, VY.
    rewrite Zmod.unsigned_of_Z, (Z.mod_small (_ mod _)) by
      (pose proof (Z.mod_pos_bound (le_val s) (2 ^ 255) ltac:(done)); lia).
    pose proof (Z.div_mod (le_val s) (2 ^ 255) ltac:(done)); lia.
  - right; split; [exact E|]; intros P HP.
    destruct (encode_parts P _ _ _ (Hval P HP) eq_refl eq_refl) as (Ey & Ex & _).
    apply (HN P); [by rewrite VY|exact Ex].
Qed.

(** Distinct points have distinct encodings. *)
Lemma encode_inj P Q : encode P = encode Q -> P = Q.
Proof.
  intros E; apply (f_equal le_val) in E; rewrite !encode_val_eq in E.
  destruct (encode_parts P _ _ _ eq_refl eq_refl eq_refl) as (Py & Px & _).
  destruct (encode_parts Q _ _ _ E eq_refl eq_refl) as (Qy & Qx & _).
  rewrite <- Py in Qy; pose proof (point_on Q) as HQ; rewrite Qy in HQ.
  apply point_eq; [|done]; destruct (same_y_x P (px Q) HQ) as [|Ho]; [done|].
  destruct (decide (px Q = 0)) as [H0|H0]; [rewrite Ho, H0; ring|exfalso].
  rewrite Ho, parity_opp, Qx in Px by done.
  pose proof (Z.mod_pos_bound (Zmod.to_Z (px Q)) 2 ltac:(done)); lia.
Qed.
(** C30. ge_frombytes_vartime returns on every 32-byte string: it decodes
    exactly the strings that ge_p3_tobytes and ge_tobytes write for a point of
    the curve, returns that point, and rejects every other string. *)
Theorem point_codec_exact s : length s = 32%nat -> Forall is_byte s ->
  ge_frombytes_vartime s <> None /\
  (forall h, ge_frombytes_vartime s = Some (Some h) ->
     exists P, p3_rep h P /\ ge_p3_tobytes h = Some s /\ ge_tobytes (ge_p3_to_p2 h) = Some s /\
       forall k Q, p3_rep k Q -> ge_p3_tobytes k = Some s -> Q = P) /\
  (ge_frombytes_vartime s = Some None -> forall h P, p3_rep h P -> ge_p3_tobytes h <> Some s).
Proof.
  intros Hl Hs; destruct (ge_frombytes_vartime_spec s Hl Hs) as [(h & P & E & Hh & EP)|[E HN]]; rewrite E.
  - split_and!; [discriminate| |discriminate]; intros h' [= <-]; exists P; subst s; split_and!.
    + assumption.
    + by apply ge_p3_tobytes_spec.
    + by apply ge_tobytes_spec, ge_p3_to_p2_spec.
    + intros k Q Hk; rewrite (ge_p3_tobytes_spec k Q Hk); intros EQ%(inj Some); by apply encode_inj.
  - split_and!; [discriminate..|]; intros _ h P Hh; rewrite (ge_p3_tobytes_spec h P Hh).
    intros EQ%(inj Some); exact (HN P EQ).
Qed.

Lemma point_codec_exact_witness : ge_frombytes_vartime (le_bytes 32 1) <> None.
Proof. apply point_codec_exact; [reflexivity|apply le_bytes_range]. Defined.
End PointCodec.
