(* ===== verification/ScalarMult.v ===== *)
(** Constant-time scalar multiplication of src/src/crypto/crypto-ops.c: the signed radix-16
    digits of a scalar, the selection of table entries, ge_scalarmult and ge_scalarmult_base. *)

From Stdlib Require Import Zmod.
From S2P Require Import Prelude.
From S2P Require Import Limbs.
From S2P Require Import Field.
From S2P Require Import Group.
From S2P Require Import Curve.
From S2P Require Import Edwards.

Module ScalarMult.

Import Limbs Field Group Curve Edwards.

(** ** Selection *)

Definition equal (b c : Z) : Z :=
  let x := Z.lxor (u8 b) (u8 c) in
  let y := u32 (x - 1) in
  u8 (Z.shiftr y 31).

Definition negative (b : Z) : Z := u8 (Z.shiftr (u64 b) 63).

(** [unsigned char babs = b - (((-bnegative) & b) << 1)] *)
Definition byte_abs (b : Z) : Z := u8 (b - Z.shiftl (Z.land (- negative b) b) 1).

Definition ge_precomp_0 : ge_precomp := Ge_precomp fe_1 fe_1 fe_0.
Definition ge_cached_0 : ge_cached := Ge_cached fe_1 fe_1 fe_1 fe_0.

Definition ge_precomp_cmov (t u : ge_precomp) (b : Z) : option ge_precomp :=
  a ← fe_cmov (yplusx t) (yplusx u) b;
  m ← fe_cmov (yminusx t) (yminusx u) b;
  x ← fe_cmov (xy2d t) (xy2d u) b;
  Some (Ge_precomp a m x).

Definition ge_cached_cmov (t u : ge_cached) (b : Z) : option ge_cached :=
  a ← fe_cmov (c_YplusX t) (c_YplusX u) b;
  m ← fe_cmov (c_YminusX t) (c_YminusX u) b;
  z ← fe_cmov (c_Z t) (c_Z u) b;
  x ← fe_cmov (c_T2d t) (c_T2d u) b;
  Some (Ge_cached a m z x).

(** The conditional moves from the entries [j], [j + 1], ... of a table. *)
Fixpoint pick {E} (cmov : E -> E -> Z -> option E) (t : E) (table : list E) (babs j : Z) : option E :=
  match table with
  | [] => Some t
  | u :: table => t ← cmov t u (equal (s8 babs) j); pick cmov t table babs (j + 1)
  end.

(** [select(t, pos, b)] with the row [ge_base[pos]]. *)
Definition select (row : list ge_precomp) (b : Z) : option ge_precomp :=
  let bnegative := negative b in
  let babs := byte_abs b in
  t ← pick ge_precomp_cmov ge_precomp_0 row babs 1;
  x ← fe_neg (xy2d t);
  let minust := Ge_precomp (fe_copy (yminusx t)) (fe_copy (yplusx t)) x in
  ge_precomp_cmov t minust bnegative.

(** The same part of the loop of ge_scalarmult. *)
Definition select_cached (Ai : list ge_cached) (b : Z) : option ge_cached :=
  let bnegative := negative b in
  let babs := byte_abs b in
  cur ← pick ge_cached_cmov ge_cached_0 Ai babs 1;
  x ← fe_neg (c_T2d cur);
  let minuscur := Ge_cached (fe_copy (c_YminusX cur)) (fe_copy (c_YplusX cur)) (fe_copy (c_Z cur)) x in
  ge_cached_cmov cur minuscur bnegative.

(** ** ge_scalarmult *)

(** The digits [e] of the bytes [a], with the incoming carry. *)
Fixpoint scalarmult_digits (a : list Z) (carry : Z) : list Z :=
  match a with
  | [] => []
  | [b] =>
    let carry := carry + b in
    let carry2 := Z.shiftr (carry + 8) 4 in
    [s8 (carry - Z.shiftl carry2 4); s8 carry2]
  | b :: a =>
    let carry := carry + b in
    let carry2 := Z.shiftr (carry + 8) 4 in
    let e0 := s8 (carry - Z.shiftl carry2 4) in
    let carry := Z.shiftr (carry2 + 8) 4 in
    let e1 := s8 (carry2 - Z.shiftl carry 4) in
    e0 :: e1 :: scalarmult_digits a carry
  end.

(** [n] more entries of the table [1 A, 2 A, ...], from the last one. *)
Fixpoint scalarmult_table (n : nat) (A : ge_p3) (last : ge_cached) : option (list ge_cached) :=
  match n with
  | O => Some []
  | S n =>
    t ← ge_add A last;
    u ← ge_p1p1_to_p3 t;
    c ← ge_p3_to_cached u;
    rest ← scalarmult_table n A c;
    Some (c :: rest)
  end.

(** One iteration of the main loop. *)
Definition scalarmult_step (Ai : list ge_cached) (r : ge_p2) (b : Z) : option ge_p2 :=
  t ← ge_p2_dbl r;
  r ← ge_p1p1_to_p2 t;
  t ← ge_p2_dbl r;
  r ← ge_p1p1_to_p2 t;
  t ← ge_p2_dbl r;
  r ← ge_p1p1_to_p2 t;
  t ← ge_p2_dbl r;
  u ← ge_p1p1_to_p3 t;
  cur ← select_cached Ai b;
  t ← ge_add u cur;
  ge_p1p1_to_p2 t.

Fixpoint scalarmult_loop (Ai : list ge_cached) (r : ge_p2) (e : list Z) : option ge_p2 :=
  match e with [] => Some r | b :: e => r ← scalarmult_step Ai r b; scalarmult_loop Ai r e end.

Definition ge_scalarmult (a : list Z) (A : ge_p3) : option ge_p2 :=
  let e := scalarmult_digits a 0 in
  A0 ← ge_p3_to_cached A;
  rest ← scalarmult_table 7 A A0;
  scalarmult_loop (A0 :: rest) ge_p2_0 (rev e).

(** ** ge_scalarmult_base *)

Fixpoint base_nibbles (a : list Z) : list Z :=
  match a with
  | [] => []
  | b :: a => Z.land (Z.shiftr b 0) 15 :: Z.land (Z.shiftr b 4) 15 :: base_nibbles a
  end.

(** The carries of the digits; the last digit takes the carry and passes none on. *)
Fixpoint base_carries (e : list Z) (carry : Z) : list Z :=
  match e with
  | [] => []
  | [d] => [s8 (d + carry)]
  | d :: e =>
    let d := s8 (d + carry) in
    let carry := Z.shiftr (s8 (d + 8)) 4 in
    s8 (d - Z.shiftl carry 4) :: base_carries e carry
  end.
Definition base_digits (a : list Z) : list Z := base_carries (base_nibbles a) 0.

(** The digits at the even and at the odd positions. *)
Fixpoint evens (e : list Z) : list Z := match e with x :: _ :: e => x :: evens e | _ => [] end.
Fixpoint odds (e : list Z) : list Z := match e with _ :: y :: e => y :: odds e | _ => [] end.

(** [for (i = ...; i < 64; i += 2) { select(&t, i / 2, e[i]); ge_madd(...); ge_p1p1_to_p3(...); }] *)
Fixpoint base_loop (base : list (list ge_precomp)) (h : ge_p3) (e : list Z) : option ge_p3 :=
  match e, base with
  | d :: e, row :: base =>
    t ← select row d;
    r ← ge_madd h t;
    h ← ge_p1p1_to_p3 r;
    base_loop base h e
  | _, _ => Some h
  end.

Definition ge_scalarmult_with (base : list (list ge_precomp)) (a : list Z) : option ge_p3 :=
  let e := base_digits a in
  h ← base_loop base ge_p3_0 (odds e);
  r ← ge_p3_dbl h;
  s ← ge_p1p1_to_p2 r;
  r ← ge_p2_dbl s;
  s ← ge_p1p1_to_p2 r;
  r ← ge_p2_dbl s;
  s ← ge_p1p1_to_p2 r;
  r ← ge_p2_dbl s;
  h ← ge_p1p1_to_p3 r;
  base_loop base h (evens e).

(** ** Selection, proved *)

(** A radix-16 digit. *)
Definition is_digit (b : Z) : Prop := -8 <= b <= 8.

Lemma digit_cases (P : Z -> bool) b : forallb P [-8; -7; -6; -5; -4; -3; -2; -1; 0; 1; 2; 3; 4; 5; 6; 7; 8] = true ->
  is_digit b -> P b = true.
Proof.
  intros HP Hb; rewrite forallb_forall in HP; apply HP; unfold is_digit in Hb; simpl; lia.
Qed.

Lemma negative_digit b : is_digit b -> negative b = (if b <? 0 then 1 else 0).
Proof.
  intros Hb; apply Z.eqb_eq; by apply (digit_cases (fun b => negative b =? (if b <? 0 then 1 else 0))).
Qed.

Lemma byte_abs_digit b : is_digit b -> byte_abs b = Z.abs b.
Proof. intros Hb; apply Z.eqb_eq; by apply (digit_cases (fun b => byte_abs b =? Z.abs b)). Qed.

Lemma equal_digit a j : 0 <= a <= 8 -> 1 <= j <= 8 -> equal (s8 a) j = (if a =? j then 1 else 0).
Proof.
  intros Ha Hj; apply Z.eqb_eq.
  assert (H : forallb (fun a => forallb (fun j => (j <? 1) || (a <? 0) ||
      (equal (s8 a) j =? (if a =? j then 1 else 0))) [-8; -7; -6; -5; -4; -3; -2; -1; 0; 1; 2; 3; 4; 5; 6; 7; 8])
      [-8; -7; -6; -5; -4; -3; -2; -1; 0; 1; 2; 3; 4; 5; 6; 7; 8] = true) by (vm_compute; reflexivity).
  apply (digit_cases _ a) in H; [|unfold is_digit; lia]; apply (digit_cases _ j) in H; [|unfold is_digit; lia].
  rewrite !orb_true_iff, !Z.ltb_lt in H; destruct H as [[|]|]; [lia..|done].
Qed.

Section Pick.
Context {E : Type} (cmov : E -> E -> Z -> option E) (rep : E -> point -> Prop).
Hypothesis cmov_ok : forall t u b, b = 0 \/ b = 1 -> cmov t u b = Some (if b =? 1 then u else t).

Lemma pick_spec Q table t P babs j : 0 <= babs <= 8 -> 1 <= j -> j + Z.of_nat (length table) <= 9 ->
  rep t P -> (forall k c, table !! k = Some c -> rep c (zmul (j + Z.of_nat k) Q)) ->
  exists r, pick cmov t table babs j = Some r /\
    rep r (if (j <=? babs) && (babs <? j + Z.of_nat (length table)) then zmul babs Q else P).
Proof.
  revert t P j; induction table as [|u table IH]; intros t P j Hb Hj Hl Ht Htab; cbn [pick length].
  - exists t; split; [done|]; replace (_ && _) with false; [done|].
    symmetry; apply andb_false_iff; destruct (Z.leb_spec j babs); [right; apply Z.ltb_ge; simpl; lia|by left].
  - cbn [length] in Hl; rewrite cmov_ok by (rewrite equal_digit by lia; case_match; auto).
    rewrite equal_digit by lia; cbn [mbind option_bind].
    assert (Htab' : forall k c, table !! k = Some c -> rep c (zmul (j + 1 + Z.of_nat k) Q)).
    { intros k c Hk; replace (j + 1 + Z.of_nat k) with (j + Z.of_nat (S k)) by lia; by apply Htab. }
    destruct (Z.eqb_spec babs j) as [->|Hne]; cbn [Z.eqb Pos.eqb].
    + destruct (IH u (zmul j Q) (j + 1)) as (r & -> & Hr); [lia..| |done|].
      { rewrite <- (Z.add_0_r j); by apply (Htab 0%nat). }
      exists r; split; [done|]; rewrite (proj2 (Z.leb_gt (j + 1) j)) in Hr by lia; cbn [andb] in Hr.
      by rewrite Z.leb_refl, (proj2 (Z.ltb_lt _ _)) by lia.
    + destruct (IH t P (j + 1)) as (r & -> & Hr); [lia..|done|done|].
      exists r; split; [done|].
      replace ((j <=? babs) && (babs <? j + Z.of_nat (S (length table))))
        with ((j + 1 <=? babs) && (babs <? j + 1 + Z.of_nat (length table))); [done|].
      apply eq_true_iff_eq; rewrite !andb_true_iff, !Z.leb_le, !Z.ltb_lt; lia.
Qed.

(** A whole table of eight entries. *)
Lemma pick_all Q table t babs : length table = 8%nat -> 0 <= babs <= 8 -> rep t gzero ->
  (forall k c, table !! k = Some c -> rep c (zmul (1 + Z.of_nat k) Q)) ->
  exists r, pick cmov t table babs 1 = Some r /\ rep r (zmul babs Q).
Proof.
  intros Hl Hb Ht Htab; destruct (pick_spec Q table t gzero babs 1) as (r & E' & Hr); [lia..|done|done|].
  exists r; split; [done|]; destruct (Z.leb_spec 1 babs); cbn [andb] in Hr.
  - by rewrite (proj2 (Z.ltb_lt _ _)) in Hr by lia.
  - replace babs with 0 by lia; by rewrite zmul_0.
Qed.
End Pick.

Lemma ge_precomp_cmov_ok t u b : b = 0 \/ b = 1 -> ge_precomp_cmov t u b = Some (if b =? 1 then u else t).
Proof.
  intros Hb; unfold ge_precomp_cmov; rewrite !fe_cmov_spec by done; cbn [mbind option_bind].
  destruct t, u; by destruct (b =? 1).
Qed.

Lemma ge_cached_cmov_ok t u b : b = 0 \/ b = 1 -> ge_cached_cmov t u b = Some (if b =? 1 then u else t).
Proof.
  intros Hb; unfold ge_cached_cmov; rewrite !fe_cmov_spec by done; cbn [mbind option_bind].
  destruct t, u; by destruct (b =? 1).
Qed.

Lemma ge_precomp_0_spec : precomp_rep ge_precomp_0 gzero.
Proof.
  split_and!; try (by apply fe_0_le); try (by apply fe_1_le).
  cbn [ge_precomp_0 yplusx yminusx xy2d]; rewrite fv_0, fv_1; apply repc_zero.
Qed.

Lemma ge_cached_0_spec : cached_rep ge_cached_0 gzero.
Proof.
  split_and!; try (by apply fe_0_le); try (by apply fe_1_le).
  cbn [ge_cached_0 c_YplusX c_YminusX c_Z c_T2d]; rewrite fv_0, fv_1; apply repc_zero.
Qed.

(** A selected entry with the sign of the digit. *)
Lemma zmul_abs_sign b (Q : point) :
  zmul b Q = if b <? 0 then gopp (zmul (Z.abs b) Q) else zmul (Z.abs b) Q.
Proof.
  destruct (Z.ltb_spec b 0); [|by rewrite Z.abs_eq].
  by rewrite <- zmul_opp, Z.abs_neq, Z.opp_involutive by lia.
Qed.

Lemma select_spec row b Q : length row = 8%nat -> is_digit b ->
  (forall k c, row !! k = Some c -> precomp_rep c (zmul (1 + Z.of_nat k) Q)) ->
  exists t, select row b = Some t /\ precomp_rep t (zmul b Q).
Proof.
  intros Hl Hb Hrow; unfold select; cbv zeta; rewrite byte_abs_digit, negative_digit by done.
  destruct (pick_all ge_precomp_cmov precomp_rep ge_precomp_cmov_ok Q row ge_precomp_0 (Z.abs b))
    as (t & -> & LA & LB & LT & Ht); [done|unfold is_digit in Hb; lia|apply ge_precomp_0_spec|done|].
  cbn [mbind option_bind]; fe_step; rewrite ge_precomp_cmov_ok by (case_match; auto).
  eexists; split; [reflexivity|]; rewrite zmul_abs_sign; destruct (b <? 0); cbn [Z.eqb Pos.eqb]; [|by split_and!].
  unfold fe_copy; split_and!; [assumption..|]; cbn [yplusx yminusx xy2d]; rewrite V; by apply repc_opp.
Qed.

Lemma select_cached_spec Ai b Q : length Ai = 8%nat -> is_digit b ->
  (forall k c, Ai !! k = Some c -> cached_rep c (zmul (1 + Z.of_nat k) Q)) ->
  exists t, select_cached Ai b = Some t /\ cached_rep t (zmul b Q).
Proof.
  intros Hl Hb Hrow; unfold select_cached; cbv zeta; rewrite byte_abs_digit, negative_digit by done.
  destruct (pick_all ge_cached_cmov cached_rep ge_cached_cmov_ok Q Ai ge_cached_0 (Z.abs b))
    as (t & -> & LA & LB & LZ & LT & Ht); [done|unfold is_digit in Hb; lia|apply ge_cached_0_spec|done|].
  cbn [mbind option_bind]; fe_step; rewrite ge_cached_cmov_ok by (case_match; auto).
  eexists; split; [reflexivity|]; rewrite zmul_abs_sign; destruct (b <? 0); cbn [Z.eqb Pos.eqb]; [|by split_and!].
  unfold fe_copy; split_and!; [assumption..|]; cbn [c_YplusX c_YminusX c_Z c_T2d]; rewrite V; by apply repc_opp.
Qed.

(** ** Digits *)

Fixpoint digits_val (e : list Z) : Z := match e with [] => 0 | d :: e => d + 16 * digits_val e end.

Lemma s8_digit z : -128 <= z <= 127 -> s8 z = z.
Proof. intros; apply swrap_small; [done|unfold in_s; simpl; lia]. Qed.

Lemma shiftr4 z : Z.shiftr z 4 = z / 16.
Proof. by rewrite Z.shiftr_div_pow2. Qed.
Lemma shiftl4 z : Z.shiftl z 4 = 16 * z.
Proof. rewrite Z.shiftl_mul_pow2 by done; change (2 ^ 4) with 16; lia. Qed.

Lemma scalarmult_digits_cons b b' a c :
  scalarmult_digits (b :: b' :: a) c =
    let q := Z.shiftr (c + b + 8) 4 in let c' := Z.shiftr (q + 8) 4 in
    s8 (c + b - Z.shiftl q 4) :: s8 (q - Z.shiftl c' 4) :: scalarmult_digits (b' :: a) c'.
Proof. done. Qed.

Lemma scalarmult_digits_spec a c : Forall is_byte a -> a <> [] -> le_val a < 2 ^ (8 * Z.of_nat (length a) - 1) ->
  0 <= c <= 1 ->
  digits_val (scalarmult_digits a c) = le_val a + c /\ Forall is_digit (scalarmult_digits a c).
Proof.
  intros Ha; revert c; induction Ha as [|b a Hb Ha IH]; intros c Hne Hv Hc; [done|].
  unfold is_byte, in_u in Hb; change (2 ^ 8) with 256 in Hb.
  destruct a as [|b' a]; [|rewrite scalarmult_digits_cons]; cbv zeta.
  - cbn [scalarmult_digits]; rewrite !shiftr4, !shiftl4; cbn [le_val length] in *; change (2 ^ (8 * Z.of_nat 1 - 1)) with 128 in Hv.
    rewrite !s8_digit by (Z.div_mod_to_equations; lia); unfold is_digit; split.
    + cbn [digits_val]; lia.
    + repeat apply Forall_cons_2; [Z.div_mod_to_equations; lia..|apply Forall_nil_2].
  - rewrite !shiftr4, !shiftl4; set (q := (c + b + 8) / 16); set (c' := (q + 8) / 16).
    destruct (IH c') as [Ev Ed]; [done| |subst c' q; Z.div_mod_to_equations; lia|].
    { change (le_val (b :: b' :: a)) with (b + 256 * le_val (b' :: a)) in Hv.
      replace (8 * Z.of_nat (length (b :: b' :: a)) - 1) with (8 + (8 * Z.of_nat (length (b' :: a)) - 1)) in Hv
        by (cbn [length]; lia).
      rewrite Z.pow_add_r in Hv by (cbn [length]; lia); change (2 ^ 8) with 256 in Hv; lia. }
    cbn [digits_val]; rewrite Ev, !s8_digit by (subst c' q; Z.div_mod_to_equations; lia).
    change (le_val (b :: b' :: a)) with (b + 256 * le_val (b' :: a)); split; [lia|].
    repeat apply Forall_cons_2; [unfold is_digit; subst c' q; Z.div_mod_to_equations; lia..|exact Ed].
Qed.

Lemma horner_rev e : fold_left (fun n d => 16 * n + d) (rev e) 0 = digits_val e.
Proof.
  rewrite <- fold_left_rev_right, rev_involutive; induction e as [|d e IH]; simpl; [done|].
  rewrite IH; lia.
Qed.

(** ** ge_scalarmult, proved *)

Lemma scalarmult_table_spec n A last P k : p3_rep A P -> cached_rep last (zmul k P) ->
  exists l, scalarmult_table n A last = Some l /\ length l = n /\
    forall i c, l !! i = Some c -> cached_rep c (zmul (k + 1 + Z.of_nat i) P).
Proof.
  intros HA; revert last k; induction n as [|n IH]; intros last k Hl; cbn [scalarmult_table];
    [by exists []|].
  do 3 ge_step; assert (HE : P ⊕ zmul k P = zmul (k + 1) P) by (by rewrite Z.add_comm, zmul_add, zmul_1).
  rewrite HE in *; destruct (IH r1 (k + 1)) as (l & -> & Hlen & Hc); [done|].
  exists (r1 :: l); cbn [mbind option_bind length]; split_and!; [done|lia|].
  intros [|i] c Hi; simpl in Hi; simplify_eq; [by rewrite Z.add_0_r|].
  replace (k + 1 + Z.of_nat (S i)) with (k + 1 + 1 + Z.of_nat i) by lia; by apply Hc.
Qed.

Section Loop.
Context (Ai : list ge_cached) (A : point).
Hypothesis Ai_length : length Ai = 8%nat.
Hypothesis Ai_rep : forall k c, Ai !! k = Some c -> cached_rep c (zmul (1 + Z.of_nat k) A).

Lemma scalarmult_step_spec r n b : p2_rep r (zmul n A) -> is_digit b ->
  exists r', scalarmult_step Ai r b = Some r' /\ p2_rep r' (zmul (16 * n + b) A).
Proof.
  intros Hr Hb; unfold scalarmult_step; do 8 ge_step.
  destruct (select_cached_spec Ai b A Ai_length Hb Ai_rep) as (cur & -> & Hcur); cbn [mbind option_bind].
  do 2 ge_step; eexists; split; [reflexivity|].
  rewrite <- !zmul_mul in R8; replace (16 * n + b) with (2 * 2 * 2 * 2 * n + b) by lia.
  rewrite zmul_add; exact R8.
Qed.

Lemma scalarmult_loop_spec r n e : p2_rep r (zmul n A) -> Forall is_digit e ->
  exists r', scalarmult_loop Ai r e = Some r' /\
    p2_rep r' (zmul (fold_left (fun n d => 16 * n + d) e n) A).
Proof.
  intros Hr He; revert r n Hr; induction He as [|b e Hb He IH]; intros r n Hr; [by exists r|].
  destruct (scalarmult_step_spec r n b Hr Hb) as (r' & E & Hr').
  cbn [scalarmult_loop fold_left]; rewrite E; by apply IH.
Qed.
End Loop.

Lemma ge_scalarmult_spec a A P : p3_rep A P -> length a = 32%nat -> Forall is_byte a ->
  le_val a < 2 ^ 255 -> exists r, ge_scalarmult a A = Some r /\ p2_rep r (zmul (le_val a) P).
Proof.
  intros HA Hl Ha Hv; unfold ge_scalarmult; cbv zeta; ge_step.
  destruct (scalarmult_table_spec 7 A r P 1) as (l & -> & Hlen & Hc); [done|by rewrite zmul_1|].
  cbn [mbind option_bind].
  destruct (scalarmult_digits_spec a 0) as [Ev Ed]; [done|by intros ->|by rewrite Hl|lia|].
  destruct (scalarmult_loop_spec (r :: l) P) with (r := ge_p2_0) (n := 0) (e := rev (scalarmult_digits a 0))
    as (r' & E & Hr').
  - cbn [length]; lia.
  - intros [|k] c Hk; simpl in Hk; simplify_eq; [by rewrite zmul_1|].
    replace (1 + Z.of_nat (S k)) with (1 + 1 + Z.of_nat k) by lia; by apply Hc.
  - apply ge_p2_0_spec.
  - by apply Forall_rev.
  - exists r'; split; [done|]; by rewrite horner_rev, Ev, Z.add_0_r in Hr'.
Qed.

(** ** ge_scalarmult_base, proved *)

Lemma base_nibbles_spec a : Forall is_byte a ->
  digits_val (base_nibbles a) = le_val a /\ Forall (in_u 4) (base_nibbles a) /\
  length (base_nibbles a) = (2 * length a)%nat.
Proof.
  induction 1 as [|b a Hb _ (IHv & IHf & IHl)]; [done|].
  unfold is_byte, in_u in Hb; change (2 ^ 8) with 256 in Hb; cbn [base_nibbles].
  change 15 with (Z.ones 4); rewrite !Z.land_ones, shiftr4, Z.shiftr_0_r by done; change (2 ^ 4) with 16.
  cbn [digits_val le_val length]; rewrite IHv; split_and!; [Z.div_mod_to_equations; lia| |lia].
  repeat apply Forall_cons_2; [unfold in_u; change (2 ^ 4) with 16; apply Z.mod_pos_bound; done..|exact IHf].
Qed.

Lemma base_carries_cons d d' e c :
  base_carries (d :: d' :: e) c =
    let x := s8 (d + c) in let c' := Z.shiftr (s8 (x + 8)) 4 in
    s8 (x - Z.shiftl c' 4) :: base_carries (d' :: e) c'.
Proof. done. Qed.

Lemma base_carries_spec e c : Forall (in_u 4) e -> e <> [] -> 0 <= c <= 1 ->
  digits_val e < 8 * 16 ^ (Z.of_nat (length e) - 1) ->
  digits_val (base_carries e c) = digits_val e + c /\ Forall is_digit (base_carries e c) /\
  length (base_carries e c) = length e.
Proof.
  intros He; revert c; induction He as [|d e Hd He IH]; intros c Hne Hc Hv; [done|].
  unfold in_u in Hd; change (2 ^ 4) with 16 in Hd.
  destruct e as [|d' e]; [|rewrite base_carries_cons]; cbv zeta; rewrite ?shiftr4, ?shiftl4.
  - cbn [base_carries digits_val length] in *; change (16 ^ (Z.of_nat 1 - 1)) with 1 in Hv.
    rewrite s8_digit by lia; split_and!; [lia| |done]; apply Forall_cons_2; [unfold is_digit; lia|apply Forall_nil_2].
  - rewrite !(s8_digit (d + c)), (s8_digit (d + c + 8)) by lia; set (c' := (d + c + 8) / 16).
    destruct (IH c') as (Ev & Ed & El); [done|subst c'; Z.div_mod_to_equations; lia| |].
    { change (digits_val (d :: d' :: e)) with (d + 16 * digits_val (d' :: e)) in Hv.
      replace (Z.of_nat (length (d :: d' :: e)) - 1) with (1 + (Z.of_nat (length (d' :: e)) - 1)) in Hv
        by (cbn [length]; lia).
      rewrite Z.pow_add_r in Hv by (cbn [length]; lia); lia. }
    rewrite s8_digit by (subst c'; Z.div_mod_to_equations; lia).
    change (digits_val (d + c - 16 * c' :: base_carries (d' :: e) c'))
      with (d + c - 16 * c' + 16 * digits_val (base_carries (d' :: e) c')); rewrite Ev.
    change (digits_val (d :: d' :: e)) with (d + 16 * digits_val (d' :: e)).
    split_and!; [lia| |cbn [length] in *; lia].
    apply Forall_cons_2; [unfold is_digit; subst c'; Z.div_mod_to_equations; lia|exact Ed].
Qed.

(** Values in radix 256. *)
Fixpoint wide_val (e : list Z) : Z := match e with [] => 0 | d :: e => d + 256 * wide_val e end.

Lemma evens_odds n e : length e = (2 * n)%nat -> Forall is_digit e ->
  digits_val e = wide_val (evens e) + 16 * wide_val (odds e) /\
  Forall is_digit (evens e) /\ Forall is_digit (odds e) /\ length (evens e) = n /\ length (odds e) = n.
Proof.
  revert e; induction n as [|n IH]; intros e Hl He; [destruct e; [done|simpl in Hl; lia]|].
  destruct e as [|x [|y e]]; [simpl in Hl; lia..|].
  apply Forall_cons in He as [Hx He]; apply Forall_cons in He as [Hy He].
  destruct (IH e) as (Ev & He1 & He2 & L1 & L2); [simpl in Hl; lia|done|].
  cbn [evens odds digits_val wide_val length]; rewrite Ev; split_and!; [lia|by apply Forall_cons_2..|lia|lia].
Qed.

(** The table: row [i] holds the multiples [1 .. 8] of [256^i B]. *)
Definition base_rep (base : list (list ge_precomp)) (B : point) : Prop :=
  forall i row, base !! i = Some row -> length row = 8%nat /\
    forall k c, row !! k = Some c -> precomp_rep c (zmul ((1 + Z.of_nat k) * 256 ^ Z.of_nat i) B).

Lemma base_loop_spec base B h P e : base_rep base B -> p3_rep h P -> Forall is_digit e ->
  (length e <= length base)%nat ->
  exists r, base_loop base h e = Some r /\ p3_rep r (P ⊕ zmul (wide_val e) B).
Proof.
  intros Hb Hh He; revert base B h P Hb Hh; induction He as [|d e Hd _ IH]; intros base B h P Hb Hh Hl.
  { exists h; rewrite zmul_0, gadd_0_r; by destruct base. }
  destruct base as [|row base]; [simpl in Hl; lia|]; cbn [base_loop].
  destruct (Hb 0%nat row eq_refl) as [Hlen Hrow].
  destruct (select_spec row d B Hlen Hd) as (t & -> & Ht).
  { intros k c Hk; specialize (Hrow k c Hk); by rewrite Z.mul_1_r in Hrow. }
  cbn [mbind option_bind]; do 2 ge_step.
  destruct (IH base (zmul 256 B) r0 (P ⊕ zmul d B)) as (r1 & E & Hr1); [|done|simpl in Hl; lia|].
  { intros i row' Hi; destruct (Hb (S i) row' Hi) as [Hlen' Hrow']; split; [done|].
    intros k c Hk; rewrite <- zmul_mul; specialize (Hrow' k c Hk).
    rewrite Nat2Z.inj_succ, Z.pow_succ_r in Hrow' by lia.
    by replace ((1 + Z.of_nat k) * 256 ^ Z.of_nat i * 256)
      with ((1 + Z.of_nat k) * (256 * 256 ^ Z.of_nat i)) by ring. }
  exists r1; split; [done|]; cbn [wide_val].
  by rewrite <- zmul_mul, <- gadd_assoc, <- zmul_add, (Z.mul_comm _ 256) in Hr1.
Qed.

Lemma ge_scalarmult_with_spec base B a : base_rep base B -> length base = 32%nat ->
  length a = 32%nat -> Forall is_byte a -> le_val a < 2 ^ 255 ->
  exists r, ge_scalarmult_with base a = Some r /\ p3_rep r (zmul (le_val a) B).
Proof.
  intros Hb Hbl Hl Ha Hv; unfold ge_scalarmult_with, base_digits; cbv zeta.
  destruct (base_nibbles_spec a Ha) as (En & Fn & Ln).
  destruct (base_carries_spec (base_nibbles a) 0) as (Ec & Fc & Lc);
    [done|intros E; rewrite E, Hl in Ln; discriminate|lia|by rewrite En, Ln, Hl|].
  destruct (evens_odds 32 (base_carries (base_nibbles a) 0)) as (Ev & F1 & F2 & L1 & L2); [lia|done|].
  destruct (base_loop_spec base B ge_p3_0 gzero _ Hb ge_p3_0_spec F2) as (h & -> & Hh); [lia|].
  rewrite gadd_0_l in Hh; cbn [mbind option_bind]; do 8 ge_step.
  destruct (base_loop_spec base B r6 _ _ Hb R6 F1) as (h' & -> & Hh'); [lia|].
  exists h'; split; [done|]; rewrite <- !zmul_mul, <- zmul_add in Hh'.
  rewrite Z.add_comm in Hh'; change (2 * 2 * 2 * 2) with 16 in Hh'.
  by rewrite <- Ev, Ec, En, Z.add_0_r in Hh'.
Qed.
End ScalarMult.
