(* ===== verification/BasePoint.v ===== *)
(** The base point and the tables of its multiples: ge_base and ge_Bi hold the multiples their
    comments promise, the base point has order [2^252 + 27742317777372353535851937790883648493],
    and ge_scalarmult_base multiplies it (src/src/crypto/crypto-ops.c, crypto-ops-data.c). *)

From Stdlib Require Import Zmod Field.
From S2P Require Import Prelude.
From S2P Require Import IntUtil.
From S2P Require Import Limbs.
From S2P Require Import Field.
From S2P Require Import FieldPow.
From S2P Require Import Group.
From S2P Require Import Curve.
From S2P Require Import Edwards.
From S2P Require Import ScalarMult.
From S2P Require Import BaseTable.

Module BasePoint.

Import Limbs Field FieldPow Group Curve Edwards ScalarMult BaseTable.

Definition ge_scalarmult_base (a : list Z) : option ge_p3 := ge_scalarmult_with ge_base a.

(** ** Checks modulo [p], on integers *)

(** Whether [x] is a small multiple of [p] after two reductions. *)
Definition is_zero (x : Z) : bool :=
  let r := redp (redp x) in (r =? 0) || (r =? p) || (r =? 2 * p).
Definition same (x y : Z) : bool := is_zero (x - y + 8 * p).

(** A representative of [val f] between 0 and [2^256]. *)
Definition nval (f : fe) : Z := redp (val f + 4 * p).

Record entry : Type := Entry { en_A : Z; en_B : Z; en_T : Z }.
Definition entry_of (c : ge_precomp) : entry := Entry (nval (yplusx c)) (nval (yminusx c)) (nval (xy2d c)).

Definition zd : Z := Eval vm_compute in val fe_d mod p.
(** [1 / (4 d)] *)
Definition inv_4d : Z := Eval vm_compute in Z.invmod (4 * zd) p.

Definition check_T (e : entry) : bool :=
  same (2 * en_T e) (mulp zd (mulp (en_A e - en_B e + 4 * p) (en_A e + en_B e))).

Definition check_sum (e1 e2 e3 : entry) : bool :=
  let a := mulp (en_A e1) (en_A e2) in
  let b := mulp (en_B e1) (en_B e2) in
  let K := mulp (mulp (en_T e1) (en_T e2)) inv_4d in
  same (mulp (en_A e3 - en_B e3 + 4 * p) (1 + K)) (a - b)
  && same (mulp (en_A e3 + en_B e3) (1 - K + 4 * p)) (a + b) && check_T e3.

(** [n] doublings of projective coordinates. *)
Fixpoint dbl_n (n : nat) (x y z : Z) : Z * Z * Z :=
  match n with
  | O => (x, y, z)
  | S n =>
    let xx := mulp x x in let yy := mulp y y in
    let s := yy + xx in let t := redp (yy - xx + 4 * p) in
    let e := redp (mulp (x + y) (x + y) - s + 8 * p) in
    let f := redp (2 * mulp z z - t + 8 * p) in
    dbl_n n (mulp e f) (mulp s t) (mulp t f)
  end.

Definition check_dbls (n : nat) (e1 e2 : entry) : bool :=
  let '(x, y, z) := dbl_n n (en_A e1 - en_B e1 + 4 * p) (en_A e1 + en_B e1) 2 in
  same (mulp (en_A e2 - en_B e2 + 4 * p) z) (2 * x) && same (mulp (en_A e2 + en_B e2) z) (2 * y) && check_T e2.

(** Extended coordinates, and the addition of a table entry. *)
Definition coords : Type := Z * Z * Z * Z.
Definition add_entry (h : coords) (e : entry) : coords :=
  let '(x, y, z, t) := h in
  let a := mulp (y + x) (en_A e) in
  let b := mulp (y - x + 4 * p) (en_B e) in
  let c := mulp (en_T e) t in
  let X := redp (a - b + 4 * p) in
  let Y := redp (a + b) in
  let Z' := redp (2 * z + c) in
  let T := redp (2 * z - c + 4 * p) in
  (mulp X T, mulp Y Z', mulp Z' T, mulp X Y).
Definition opp_entry (e : entry) : entry := Entry (en_B e) (en_A e) (4 * p - en_T e).

(** The successive sums of a table with a fixed step. *)
Fixpoint check_row (step e : entry) (row : list entry) : bool :=
  match row with [] => true | e' :: row => check_sum e step e' && check_row step e' row end.

(** The rows of ge_base: the head of each row is 32 times the last entry of the row before. *)
Fixpoint check_rows (rows : list (list entry)) : bool :=
  match rows with
  | [] => true
  | row :: rest =>
    match row with
    | [] => false
    | e :: tail => (length tail =? 7)%nat && check_row e e tail &&
      match rest with
      | [] => true
      | next :: _ => match head next with Some e' => check_dbls 5 (List.last tail e) e' | None => false end
      end
    end && check_rows rest
  end.

(** The sum of the digits [e] of the rows. *)
Fixpoint sum_rows (h : coords) (rows : list (list entry)) (e : list Z) : coords :=
  match e, rows with
  | d :: e, row :: rows =>
    sum_rows (match row !! Z.to_nat (Z.abs d - 1) with
      | Some en => if d =? 0 then h else add_entry h (if d <? 0 then opp_entry en else en)
      | None => h end) rows e
  | _, _ => h
  end.

(** [16 odd + even = 0], for the digits of a scalar. *)
Definition check_order (rows : list (list entry)) (n : Z) : bool :=
  let e := base_digits (le_bytes 32 n) in
  let '(x, y, z, _) := sum_rows (0, 1, 1, 0) rows (odds e) in
  let '(x, y, z) := dbl_n 4 x y z in
  let '(x', y', z', _) := sum_rows (0, 1, 1, 0) rows (evens e) in
  same (mulp x z') (0 - mulp x' z) && same (mulp y z') (mulp y' z).

Definition fe_leb (B : Z) (f : fe) : bool :=
  let '(Fe f0 f1 f2 f3 f4 f5 f6 f7 f8 f9) := f in
  forallb (fun x => Z.abs x <=? 2 * B) [f0; f2; f4; f6; f8] && forallb (fun x => Z.abs x <=? B) [f1; f3; f5; f7; f9].
Definition check_bounds (c : ge_precomp) : bool :=
  fe_leb tight (yplusx c) && fe_leb tight (yminusx c) && fe_leb tight (xy2d c).

(** ** Soundness of the checks *)

Definition zv (x : Z) : Zmod p := Zmod.of_Z p x.

Lemma zv_eqp x y : x ≡p y -> zv x = zv y.
Proof. apply eqp_F. Qed.
Lemma zv_add x y : zv (x + y) = (zv x + zv y)%Zmod.
Proof. apply Zmod.of_Z_add. Qed.
Lemma zv_sub x y : zv (x - y) = (zv x - zv y)%Zmod.
Proof. apply Zmod.of_Z_sub. Qed.
Lemma zv_mul x y : zv (x * y) = (zv x * zv y)%Zmod.
Proof. apply Zmod.of_Z_mul. Qed.
Lemma zv_redp x : zv (redp x) = zv x.
Proof. apply zv_eqp, redp_eqp. Qed.
Lemma zv_mulp x y : zv (mulp x y) = (zv x * zv y)%Zmod.
Proof. rewrite <- zv_mul; apply zv_eqp, mulp_eqp. Qed.
Lemma zv_kp k : zv (k * p) = 0%Zmod.
Proof. apply (zv_eqp _ 0); by exists k. Qed.
Lemma zv_0 : zv 0 = 0%Zmod.
Proof. apply Zmod.of_Z_0. Qed.
Lemma zv_1 : zv 1 = 1%Zmod.
Proof. apply Zmod.of_Z_1. Qed.
Lemma zv_2 : zv 2 = (1 + 1)%Zmod.
Proof. change 2 with (1 + 1); by rewrite zv_add, zv_1. Qed.
Lemma zv_nval f : zv (nval f) = fv f.
Proof.
  unfold nval; rewrite zv_redp, zv_add, zv_kp, Zmod.add_0_r; symmetry; apply eqp_fv; reflexivity.
Qed.
Lemma zv_d : zv zd = fv fe_d.
Proof. symmetry; apply eqp_fv, eqp_mod_iff; vm_compute; reflexivity. Qed.
Lemma zv_4d : ((1 + 1) * ((1 + 1) * fv fe_d) * zv inv_4d = 1)%Zmod.
Proof.
  rewrite <- zv_d, <- zv_2, <- !zv_mul, <- zv_1; apply zv_eqp, eqp_mod_iff; vm_compute; reflexivity.
Qed.

Lemma is_zero_sound x : is_zero x = true -> zv x = 0%Zmod.
Proof.
  unfold is_zero; cbv zeta; intros H; rewrite <- (zv_redp x), <- (zv_redp (redp x)).
  rewrite !orb_true_iff, !Z.eqb_eq in H; destruct H as [[-> | ->]| ->];
    [apply (zv_kp 0)|apply (zv_kp 1)|apply (zv_kp 2)].
Qed.

Lemma same_sound x y : same x y = true -> zv x = zv y.
Proof.
  intros H%is_zero_sound; rewrite zv_add, zv_sub, zv_kp, Zmod.add_0_r in H; by apply Zmod.sub_eq_0.
Qed.

#[local] Opaque zv same.
Ltac zv_norm := repeat first [rewrite zv_mulp | rewrite zv_redp | rewrite zv_add | rewrite zv_sub
  | rewrite zv_mul | rewrite zv_kp | rewrite zv_2 | rewrite zv_1 | rewrite Zmod.add_0_r].
Ltac zv_norm_in H := repeat first [rewrite zv_mulp in H | rewrite zv_redp in H | rewrite zv_add in H
  | rewrite zv_sub in H | rewrite zv_mul in H | rewrite zv_kp in H | rewrite zv_2 in H | rewrite zv_1 in H
  | rewrite Zmod.add_0_r in H].

Definition entry_rep (e : entry) (P : point) : Prop := repc P (zv (en_A e)) (zv (en_B e)) 1%Zmod (zv (en_T e)).

Lemma check_T_sound e : check_T e = true ->
  ((1 + 1) * zv (en_T e) = fv fe_d * (zv (en_A e) * zv (en_A e) - zv (en_B e) * zv (en_B e)))%Zmod.
Proof. intros H%same_sound; zv_norm_in H; rewrite H, zv_d; ring. Qed.

Lemma check_sum_sound e1 e2 e3 P Q : entry_rep e1 P -> entry_rep e2 Q ->
  check_sum e1 e2 e3 = true -> entry_rep e3 (P ⊕ Q).
Proof.
  intros HP HQ; unfold check_sum; cbv zeta; rewrite !andb_true_iff.
  intros [[H1%same_sound H2%same_sound] H3%check_T_sound]; zv_norm_in H1; zv_norm_in H2.
  eapply (repc_sum P Q _ _ _ _ _ _ _ _ _ (zv (en_T e1) * zv (en_T e2) * zv inv_4d)%Zmod HP HQ);
    [|exact H1|exact H2|exact H3].
  change (@ed_d p ed25519) with (fv fe_d).
  transitivity (zv (en_T e1) * zv (en_T e2) * ((1 + 1) * ((1 + 1) * fv fe_d) * zv inv_4d))%Zmod; [ring|].
  rewrite zv_4d; ring.
Qed.

Lemma dbl_n_sound n x y z P : rep2 P (zv x) (zv y) (zv z) ->
  let '(x', y', z') := dbl_n n x y z in rep2 (zmul (2 ^ Z.of_nat n) P) (zv x') (zv y') (zv z').
Proof.
  revert x y z P; induction n as [|n IH]; intros x y z P H; [by rewrite zmul_1|].
  cbn [dbl_n]; cbv zeta; apply dbl_proj, rep1_rep2 in H; rewrite <- zmul_2 in H.
  replace (2 ^ Z.of_nat (S n)) with (2 ^ Z.of_nat n * 2) by (rewrite Nat2Z.inj_succ, Z.pow_succ_r; lia).
  rewrite zmul_mul; apply IH; zv_norm; exact H.
Qed.

Lemma check_dbls_sound n e1 e2 P : entry_rep e1 P -> check_dbls n e1 e2 = true ->
  entry_rep e2 (zmul (2 ^ Z.of_nat n) P).
Proof.
  intros H%repc_rep2; unfold check_dbls.
  pose proof (dbl_n_sound n (en_A e1 - en_B e1 + 4 * p) (en_A e1 + en_B e1) 2 P) as Hd.
  destruct (dbl_n n _ _ 2) as [[x y] z]; rewrite !andb_true_iff; intros [[H1%same_sound H2%same_sound] H3%check_T_sound].
  zv_norm_in H1; zv_norm_in H2; apply (repc_proj _ (zv x) (zv y) (zv z)); [|exact H1|exact H2|exact H3].
  apply Hd; zv_norm; exact H.
Qed.
(** ** The base point, [(x, 4/5)] *)

Definition base_x : Z := 15112221349535400772501151409588531511454012693041857206046113283949847762202.
Definition base_y : Z := 46316835694926478169428394003475163141307993866256225615783033603165251855960.

Lemma base_on_curve : on_curve (zv base_x) (zv base_y).
Proof. apply (bool_decide_unpack _); vm_compute; exact I. Qed.

Definition base_point : point := point_of _ _ base_on_curve.

Lemma check_row_sound step Q e row P : entry_rep step Q -> entry_rep e P ->
  check_row step e row = true ->
  forall k c, row !! k = Some c -> entry_rep c (P ⊕ zmul (1 + Z.of_nat k) Q).
Proof.
  intros Hs; revert e P; induction row as [|e' row IH]; intros e P He Hc k c Hk; [done|].
  cbn [check_row] in Hc; apply andb_true_iff in Hc as [Hc Hr].
  pose proof (check_sum_sound _ _ _ _ _ He Hs Hc) as He'.
  destruct k as [|k]; simpl in Hk; simplify_eq; [by rewrite zmul_1|].
  replace (1 + Z.of_nat (S k)) with (1 + (1 + Z.of_nat k)) by lia.
  rewrite zmul_add, zmul_1, gadd_assoc; by apply (IH e').
Qed.

Lemma last_lookup_length {A} (l : list A) x n : length l = S n -> l !! n = Some (List.last l x).
Proof.
  revert n; induction l as [|y l IH]; intros n Hl; [done|]; simpl in Hl; simplify_eq.
  destruct l as [|z l]; [done|]; apply (IH (length l)); done.
Qed.

(** Every entry of the row [i] is the multiple of [256^i Q]. *)
Lemma check_rows_sound rows Q : check_rows rows = true ->
  (forall e row rest, rows = (e :: row) :: rest -> entry_rep e Q) ->
  forall i row, rows !! i = Some row -> length row = 8%nat /\
    forall k c, row !! k = Some c -> entry_rep c (zmul ((1 + Z.of_nat k) * 256 ^ Z.of_nat i) Q).
Proof.
  revert Q; induction rows as [|row0 rows IH]; intros Q Hc Hh i row Hi; [done|].
  cbn [check_rows] in Hc; destruct row0 as [|e tail]; [done|].
  rewrite !andb_true_iff in Hc; destruct Hc as [[[Hl%Nat.eqb_eq Hr] Hn] Hrest].
  pose proof (Hh e tail rows eq_refl) as He.
  assert (Htail : forall k c, tail !! k = Some c -> entry_rep c (zmul (1 + 1 + Z.of_nat k) Q)).
  { intros k c Hk; rewrite <- Z.add_assoc, zmul_add, zmul_1; by apply (check_row_sound e Q e tail). }
  destruct i as [|i]; simpl in Hi; simplify_eq.
  - split; [simpl; lia|]; intros [|k] c Hk; simpl in Hk; simplify_eq; [by rewrite zmul_1|].
    rewrite Z.mul_1_r; replace (1 + Z.of_nat (S k)) with (1 + 1 + Z.of_nat k) by lia; by apply Htail.
  - destruct (IH (zmul 256 Q) Hrest) with (i := i) (row := row) as [Hlen Hrow]; [|done|].
    { intros e' row' rest' ->; simpl in Hn; apply check_dbls_sound with (P := zmul 8 Q) in Hn.
      - by rewrite <- zmul_mul in Hn.
      - change 8 with (1 + 1 + Z.of_nat 6); apply Htail.
        by apply last_lookup_length. }
    split; [done|]; intros k c Hk; specialize (Hrow k c Hk); rewrite <- zmul_mul in Hrow.
    rewrite Nat2Z.inj_succ, Z.pow_succ_r by lia.
    by replace ((1 + Z.of_nat k) * (256 * 256 ^ Z.of_nat i))
      with ((1 + Z.of_nat k) * 256 ^ Z.of_nat i * 256) by ring.
Qed.

Lemma fe_leb_sound B f : fe_leb B f = true -> fe_le B f.
Proof.
  destruct f; unfold fe_leb, fe_le; rewrite andb_true_iff; cbn [forallb]; rewrite !andb_true_iff, !Z.leb_le; tauto.
Qed.

Lemma entry_precomp c P : check_bounds c = true -> entry_rep (entry_of c) P -> precomp_rep c P.
Proof.
  unfold check_bounds; rewrite !andb_true_iff; intros [[H1%fe_leb_sound H2%fe_leb_sound] H3%fe_leb_sound] H.
  split_and!; [done..|]; unfold entry_rep in H; simpl in H; by rewrite !zv_nval in H.
Qed.

(** ** The tables *)

Lemma ge_base_checked : check_rows (map (map entry_of) ge_base) = true.
Proof. vm_compute; reflexivity. Qed.
Lemma ge_base_bounds : forallb (forallb check_bounds) ge_base = true.
Proof. vm_compute; reflexivity. Qed.
Lemma ge_Bi_checked : match map entry_of ge_Bi, map (map entry_of) ge_base with
  | e :: tail, (e' :: e2 :: _) :: _ => check_row e2 e tail
  | _, _ => false end = true.
Proof. vm_compute; reflexivity. Qed.
Lemma ge_Bi_bounds : forallb check_bounds ge_Bi = true.
Proof. vm_compute; reflexivity. Qed.

(** The first entry is the base point. *)
Definition base_entry : entry := Eval vm_compute in Entry ((base_y + base_x) mod p) ((base_y - base_x) mod p)
  ((2 * zd * base_x * base_y) mod p).

Lemma base_entry_rep e : same (en_A e) (en_A base_entry) && same (en_B e) (en_B base_entry)
  && same (en_T e) (en_T base_entry) = true -> entry_rep e base_point.
Proof.
  rewrite !andb_true_iff; intros [[H1%same_sound H2%same_sound] H3%same_sound]; unfold entry_rep.
  rewrite H1, H2, H3; split_and!; [apply F_1_nz|rewrite Zmod.mul_1_r..]; cbn [base_point px py point_of].
  - rewrite <- zv_add; apply zv_eqp, eqp_mod_iff; vm_compute; reflexivity.
  - rewrite <- zv_sub; apply zv_eqp, eqp_mod_iff; vm_compute; reflexivity.
  - change (@ed_d p ed25519) with (fv fe_d); rewrite <- zv_d, <- zv_2, <- !zv_mul.
    apply zv_eqp, eqp_mod_iff; vm_compute; reflexivity.
Qed.

Lemma ge_base_entries i row : map (map entry_of) ge_base !! i = Some row -> length row = 8%nat /\
  forall k c, row !! k = Some c -> entry_rep c (zmul ((1 + Z.of_nat k) * 256 ^ Z.of_nat i) base_point).
Proof.
  apply check_rows_sound; [apply ge_base_checked|].
  intros e row' rest E; apply base_entry_rep; apply (f_equal (fun r => match r with (e :: _) :: _ => e | _ => base_entry end)) in E.
  rewrite <- E; vm_compute; reflexivity.
Qed.

Lemma ge_base_rep : base_rep ge_base base_point.
Proof.
  intros i row Hi; pose proof (list_lookup_fmap (map entry_of) ge_base i) as Hm; rewrite Hi in Hm.
  destruct (ge_base_entries i (map entry_of row)) as [Hl Hr]; [exact Hm|]; rewrite length_map in Hl.
  split; [done|]; intros k c Hk; apply entry_precomp.
  - pose proof ge_base_bounds as Hb; rewrite forallb_forall in Hb.
    specialize (Hb row ltac:(by eapply list_elem_of_In, list_elem_of_lookup_2)); rewrite forallb_forall in Hb.
    apply Hb; by eapply list_elem_of_In, list_elem_of_lookup_2.
  - apply Hr; pose proof (list_lookup_fmap entry_of row k) as Hf; by rewrite Hk in Hf.
Qed.

Lemma ge_Bi_rep k c : ge_Bi !! k = Some c -> precomp_rep c (zmul (2 * Z.of_nat k + 1) base_point).
Proof.
  intros Hk; apply entry_precomp.
  - pose proof ge_Bi_bounds as Hb; rewrite forallb_forall in Hb.
    apply Hb; by eapply list_elem_of_In, list_elem_of_lookup_2.
  - assert (Hf : map entry_of ge_Bi !! k = Some (entry_of c)).
    { pose proof (list_lookup_fmap entry_of ge_Bi k) as Hf; rewrite Hk in Hf; exact Hf. }
    pose proof ge_Bi_checked as Hc; pose proof (ge_base_entries 0) as He.
    assert (Hh : entry_rep (match map entry_of ge_Bi with e :: _ => e | _ => base_entry end) base_point).
    { apply base_entry_rep; vm_compute; reflexivity. }
    revert Hc He Hh Hf; generalize (map entry_of ge_Bi) (map (map entry_of) ge_base).
    intros [|e tail] [|[|e1 [|e2 row]] rows] Hc He Hh Hf; try discriminate Hc; destruct k as [|k].
    { injection Hf as <-; change (2 * Z.of_nat 0 + 1) with 1; rewrite zmul_1; exact Hh. }
    replace (2 * Z.of_nat (S k) + 1) with (1 + (1 + Z.of_nat k) * 2) by lia; rewrite zmul_add, zmul_1, zmul_mul.
    apply (check_row_sound e2 (zmul 2 base_point) e tail); [|exact Hh|exact Hc|exact Hf].
    by apply (proj2 (He _ eq_refl) 1%nat).
Qed.

(** ** The order of the base point *)

Definition group_order : Z := 2 ^ 252 + 27742317777372353535851937790883648493.

Definition coords_rep (h : coords) (P : point) : Prop :=
  let '(x, y, z, t) := h in rep3 P (zv x) (zv y) (zv z) (zv t).

Lemma add_entry_sound h e P Q : coords_rep h P -> entry_rep e Q -> coords_rep (add_entry h e) (P ⊕ Q).
Proof.
  destruct h as [[[x y] z] t]; intros HP HQ; unfold add_entry, coords_rep; cbv zeta; zv_norm.
  pose proof (rep1_rep3 _ _ _ _ _ (madd_proj _ _ _ _ _ _ _ _ _ HP HQ)) as H.
  replace ((1 + 1) * zv z)%Zmod with (zv z + zv z)%Zmod by ring; exact H.
Qed.

Lemma opp_entry_sound e Q : entry_rep e Q -> entry_rep (opp_entry e) (gopp Q).
Proof.
  intros H%repc_opp; unfold entry_rep, opp_entry; cbn [en_A en_B en_T]; zv_norm.
  replace (0 - zv (en_T e))%Zmod with (Zmod.opp (zv (en_T e))) by ring; exact H.
Qed.

Lemma sum_rows_sound rows e h P Q :
  (forall i row, rows !! i = Some row -> length row = 8%nat /\
    forall k c, row !! k = Some c -> entry_rep c (zmul ((1 + Z.of_nat k) * 256 ^ Z.of_nat i) Q)) ->
  Forall is_digit e -> (length e <= length rows)%nat -> coords_rep h P ->
  coords_rep (sum_rows h rows e) (P ⊕ zmul (wide_val e) Q).
Proof.
  intros Hrows He; revert rows h P Q Hrows; induction He as [|d e Hd _ IH]; intros rows h P Q Hrows Hl Hh.
  { rewrite zmul_0, gadd_0_r; by destruct rows. }
  destruct rows as [|row rows]; [simpl in Hl; lia|]; cbn [sum_rows wide_val].
  destruct (Hrows 0%nat row eq_refl) as [Hlen Hrow].
  rewrite zmul_add, gadd_assoc, (Z.mul_comm 256), zmul_mul; apply IH; [|simpl in Hl; lia|].
  { intros i row' Hi; destruct (Hrows (S i) row' Hi) as [Hlen' Hrow']; split; [done|]; intros k c Hk.
    rewrite <- zmul_mul, <- Z.mul_assoc, (Z.mul_comm (256 ^ _)), <- Z.pow_succ_r, <- Nat2Z.inj_succ by lia.
    by apply Hrow'. }
  unfold is_digit in Hd; destruct (lookup_lt_is_Some_2 row (Z.to_nat (Z.abs d - 1)) ltac:(lia)) as [en Hen].
  rewrite Hen; destruct (Z.eqb_spec d 0) as [->|Hd0]; [by rewrite zmul_0, gadd_0_r|].
  specialize (Hrow _ _ Hen); replace ((1 + Z.of_nat (Z.to_nat (Z.abs d - 1))) * 256 ^ Z.of_nat 0) with (Z.abs d) in Hrow by lia.
  apply add_entry_sound; [done|]; rewrite zmul_abs_sign; destruct (d <? 0); [by apply opp_entry_sound|done].
Qed.

Lemma check_order_sound rows n : 0 <= n < 2 ^ 255 -> length rows = 32%nat ->
  (forall i row, rows !! i = Some row -> length row = 8%nat /\
    forall k c, row !! k = Some c -> entry_rep c (zmul ((1 + Z.of_nat k) * 256 ^ Z.of_nat i) base_point)) ->
  check_order rows n = true -> zmul n base_point = gzero.
Proof.
  intros Hn Hlen Hrows; unfold check_order, base_digits; cbv zeta.
  destruct (base_nibbles_spec (le_bytes 32 n) (le_bytes_range _ _)) as (En & Fn & Ln).
  rewrite le_bytes_length in Ln; rewrite le_val_le_bytes, Z.mod_small in En
    by (change (256 ^ Z.of_nat 32) with (2 ^ 256); lia).
  destruct (base_carries_spec (base_nibbles (le_bytes 32 n)) 0) as (Ec & Fc & Lc);
    [done|intros E; by rewrite E in Ln|lia|rewrite En, Ln; change (8 * 16 ^ (Z.of_nat (2 * 32) - 1)) with (2 ^ 255); lia|].
  destruct (evens_odds 32 (base_carries (base_nibbles (le_bytes 32 n)) 0)) as (Ev & F1 & F2 & L1 & L2); [lia|done|].
  assert (H0 : coords_rep (0, 1, 1, 0) gzero).
  { unfold coords_rep; rewrite zv_0, zv_1; exact rep3_zero. }
  pose proof (sum_rows_sound rows _ _ _ _ Hrows F2 ltac:(lia) H0) as Ho.
  pose proof (sum_rows_sound rows _ _ _ _ Hrows F1 ltac:(lia) H0) as He; rewrite gadd_0_l in Ho, He.
  destruct (sum_rows _ rows (odds _)) as [[[x y] z] t], (sum_rows _ rows (evens _)) as [[[x' y'] z'] t'].
  apply rep3_rep2 in Ho, He; apply (dbl_n_sound 4) in Ho; destruct (dbl_n 4 x y z) as [[x1 y1] z1].
  rewrite andb_true_iff; intros [H1%same_sound H2%same_sound]; zv_norm_in H1; zv_norm_in H2.
  apply rep2_opp in He; pose proof (rep2_eq _ _ _ _ _ _ _ _ Ho He) as HE; rewrite <- En.
  replace (digits_val _) with (wide_val (evens (base_carries (base_nibbles (le_bytes 32 n)) 0))
    + 2 ^ Z.of_nat 4 * wide_val (odds (base_carries (base_nibbles (le_bytes 32 n)) 0)))
    by (change (2 ^ Z.of_nat 4) with 16; lia).
  rewrite zmul_add, zmul_mul, HE, gadd_opp_r; [done| |exact H2].
  rewrite H1, zv_0; ring.
Qed.

Lemma base_point_order : zmul group_order base_point = gzero.
Proof.
  apply (check_order_sound (map (map entry_of) ge_base)); [done|done|apply ge_base_entries|].
  vm_compute; reflexivity.
Qed.

Lemma ge_scalarmult_base_spec a : length a = 32%nat -> Forall is_byte a -> le_val a < 2 ^ 255 ->
  exists r, ge_scalarmult_base a = Some r /\ p3_rep r (zmul (le_val a) base_point).
Proof. apply ge_scalarmult_with_spec; [apply ge_base_rep|done]. Qed.
End BasePoint.
