(* ===== verification/Slide.v ===== *)
(** The sliding-window recoding of scalars: slide of src/src/crypto/crypto-ops.c. *)

From S2P Require Import Prelude.
From S2P Require Import Limbs.
From S2P Require Import Field.
From S2P Require Import FieldPow.

Module Slide.

Import Limbs FieldPow.

(** [r[i] = 1 & (a[i >> 3] >> (i & 7))] *)
Definition slide_bit (a : list Z) (i : nat) : Z :=
  Z.land 1 (Z.shiftr (nth (i / 8) a 0) (Z.of_nat (i mod 8))).
Definition slide_bits (a : list Z) : list Z := map (slide_bit a) (seq 0 256).

(** The loop over [k]: adds one at the first position, with its carries; a carry past the last
    position is lost. *)
Fixpoint carry_up (r : list Z) : list Z :=
  match r with [] => [] | x :: r => if x =? 0 then 1 :: r else 0 :: carry_up r end.

(** The loop over [b] for the position [i]: [ri] is [r[i]] and [rest] holds [r[i + 1]],
    [r[i + 2]], ...; at most [n] iterations are left. *)
Fixpoint slide_window (n b : nat) (ri : Z) (rest : list Z) : Z * list Z :=
  match n with
  | O => (ri, rest)
  | S n =>
    match rest !! (b - 1)%nat with
    | None => (ri, rest)
    | Some x =>
      if x =? 0 then slide_window n (S b) ri rest
      else if ri + Z.shiftl x (Z.of_nat b) <=? 15 then
        slide_window n (S b) (s8 (ri + Z.shiftl x (Z.of_nat b))) (<[(b - 1)%nat := 0]> rest)
      else if ri - Z.shiftl x (Z.of_nat b) >=? -15 then
        slide_window n (S b) (s8 (ri - Z.shiftl x (Z.of_nat b)))
          (take (b - 1) rest ++ carry_up (drop (b - 1) rest))
      else (ri, rest)
    end
  end.

(** The loop over [i], on the positions from [i] on. *)
Fixpoint slide_loop (n : nat) (r : list Z) : list Z :=
  match n, r with
  | S n, ri :: rest =>
    if ri =? 0 then ri :: slide_loop n rest
    else let '(ri, rest) := slide_window 6 1 ri rest in ri :: slide_loop n rest
  | _, _ => r
  end.

Definition slide (a : list Z) : list Z := slide_loop 256 (slide_bits a).

(** ** Correctness *)

Definition is_bit (x : Z) : Prop := x = 0 \/ x = 1.

(** A digit: zero, or odd with an entry in a table of eight odd multiples. *)
Definition slide_digit (d : Z) : Prop := d = 0 \/ (Z.odd d = true /\ -15 <= d <= 15).

Fixpoint bin_val (r : list Z) : Z := match r with [] => 0 | x :: r => x + 2 * bin_val r end.

Lemma bin_val_range r : Forall is_bit r -> 0 <= bin_val r < 2 ^ Z.of_nat (length r).
Proof.
  induction 1 as [|x r [-> | ->] _ IH]; [done|..]; cbn [bin_val length];
    rewrite Nat2Z.inj_succ, Z.pow_succ_r by lia; lia.
Qed.

Lemma carry_up_spec r : Forall is_bit r -> bin_val r < 2 ^ Z.of_nat (length r) - 1 ->
  bin_val (carry_up r) = bin_val r + 1 /\ Forall is_bit (carry_up r) /\ length (carry_up r) = length r.
Proof.
  induction 1 as [|x r Hx Hr IH]; [done|]; cbn [carry_up bin_val length].
  rewrite Nat2Z.inj_succ, Z.pow_succ_r by lia; intros Hv; destruct Hx as [-> | ->]; cbn [Z.eqb].
  - cbn [bin_val length]; split_and!; [lia|apply Forall_cons_2; [by right|done]|done].
  - destruct IH as (Ev & Hb & Hl); [lia|]; cbn [bin_val length]; rewrite Ev, Hl.
    split_and!; [lia|apply Forall_cons_2; [by left|done]|done].
Qed.

(** From [b = 5] on the window does not change. *)
Lemma slide_window_far n b ri rest : (5 <= b)%nat -> -15 <= ri <= 15 -> Forall is_bit rest ->
  slide_window n b ri rest = (ri, rest).
Proof.
  intros Hb Hri Hr; revert b Hb; induction n as [|n IH]; intros b Hb; cbn [slide_window]; [done|].
  destruct (rest !! (b - 1)%nat) as [x|] eqn:E; [|done].
  rewrite Forall_lookup in Hr; destruct (Hr _ _ E) as [-> | ->]; cbn [Z.eqb]; [by apply IH; lia|].
  rewrite Z.shiftl_mul_pow2 by lia; assert (32 <= 2 ^ Z.of_nat b).
  { change 32 with (2 ^ 5); apply Z.pow_le_mono_r; lia. }
  rewrite (proj2 (Z.leb_gt _ _)) by lia; rewrite Z.geb_leb, (proj2 (Z.leb_gt _ _)) by lia; done.
Qed.

Definition zeros4 (r : list Z) : Prop := Forall (eq 0) (take 4 r).

Ltac forall_list := repeat (apply Forall_cons_2; [solve [reflexivity | assumption | by right]|]);
  solve [apply Forall_nil_2 | assumption].
Ltac short_window :=
  match goal with |- exists d rest', ?w = (d, rest') /\ _ =>
    let v := eval vm_compute in w in match v with (?d, ?r) => exists d, r end end;
  split; [reflexivity|]; split_and!; [forall_list|reflexivity|unfold zeros4; cbn [take]; forall_list|right; split; [reflexivity|lia]|cbn [bin_val]; lia].

(** The window at a position whose bit is set. *)
Lemma slide_window_spec rest : Forall is_bit rest ->
  1 + 2 * bin_val rest <= 2 ^ Z.of_nat (length rest) ->
  exists d rest', slide_window 6 1 1 rest = (d, rest') /\ Forall is_bit rest' /\
    length rest' = length rest /\ zeros4 rest' /\ slide_digit d /\
    d + 2 * bin_val rest' = 1 + 2 * bin_val rest.
Proof.
  intros Hr Hv; assert (Hb0 : is_bit 0) by (by left).
  destruct rest as [|x1 rest]; [short_window|].
  apply Forall_cons in Hr as [H1 Hr]; destruct rest as [|x2 rest].
  { destruct H1 as [-> | ->]; short_window. }
  apply Forall_cons in Hr as [H2 Hr]; destruct rest as [|x3 rest].
  { destruct H1 as [-> | ->], H2 as [-> | ->]; short_window. }
  apply Forall_cons in Hr as [H3 Hr]; destruct rest as [|x4 rest].
  { destruct H1 as [-> | ->], H2 as [-> | ->], H3 as [-> | ->]; short_window. }
  apply Forall_cons in Hr as [H4 Hr]; cbn [bin_val length] in *; destruct H4 as [-> | ->].
  - exists (1 + 2 * x1 + 4 * x2 + 8 * x3), (0 :: 0 :: 0 :: 0 :: rest); split.
    { destruct H1 as [-> | ->], H2 as [-> | ->], H3 as [-> | ->];
        (etransitivity; [|apply (slide_window_far 2 5); [lia|lia|forall_list]]; reflexivity). }
    split_and!; [forall_list|done|unfold zeros4; cbn [take]; forall_list| |cbn [bin_val]; lia].
    right; destruct H1 as [-> | ->], H2 as [-> | ->], H3 as [-> | ->]; split; reflexivity || lia.
  - destruct (carry_up_spec rest Hr) as (Ev & Hb & Hl).
    { rewrite !Nat2Z.inj_succ, !Z.pow_succ_r in Hv by lia; destruct H1, H2, H3; lia. }
    exists (1 + 2 * x1 + 4 * x2 + 8 * x3 - 16), (0 :: 0 :: 0 :: 0 :: carry_up rest); split.
    { destruct H1 as [-> | ->], H2 as [-> | ->], H3 as [-> | ->];
        (etransitivity; [|apply (slide_window_far 2 5); [lia|lia|forall_list]]; reflexivity). }
    split_and!; [forall_list|cbn [length]; lia|unfold zeros4; cbn [take]; forall_list| |cbn [bin_val]; lia].
    right; destruct H1 as [-> | ->], H2 as [-> | ->], H3 as [-> | ->]; split; reflexivity || lia.
Qed.

Lemma zeros4_val r : zeros4 r ->
  bin_val r = 0 \/ (exists k, bin_val r = 16 * k /\ (5 <= length r)%nat).
Proof.
  unfold zeros4; intros H.
  destruct r as [|x1 [|x2 [|x3 [|x4 [|x5 r]]]]]; cbn [take] in H; repeat (apply Forall_cons in H as [<- H]); [by left..|].
  right; exists (bin_val (x5 :: r)); cbn [bin_val length]; split; lia.
Qed.

Lemma slide_loop_spec n r : length r = n -> Forall is_bit r -> 2 * bin_val r <= 2 ^ Z.of_nat n ->
  bin_val (slide_loop n r) = bin_val r /\ Forall slide_digit (slide_loop n r) /\ length (slide_loop n r) = n.
Proof.
  revert r; induction n as [|n IH]; intros r Hl Hr Hv; [by destruct r|].
  destruct r as [|x r]; [done|]; simpl in Hl; injection Hl as Hl.
  apply Forall_cons in Hr as [Hx Hr]; cbn [slide_loop bin_val] in *.
  rewrite Nat2Z.inj_succ, Z.pow_succ_r in Hv by lia; destruct Hx as [-> | ->]; cbn [Z.eqb].
  - destruct (IH r Hl Hr) as (Ev & Hd & Hlen); [lia|].
    cbn [bin_val length]; rewrite Ev, Hlen; split_and!; [done|apply Forall_cons_2; [by left|done]|done].
  - destruct (slide_window_spec r Hr) as (d & r' & -> & Hr' & Hl' & Hz & Hd & Ev); [rewrite Hl; lia|].
    assert (Hv' : 2 * bin_val r' <= 2 ^ Z.of_nat n).
    { destruct (zeros4_val r' Hz) as [->|(k & Ek & Hk)]; [lia|].
      assert (En : 2 ^ Z.of_nat n = 32 * 2 ^ Z.of_nat (n - 5)).
      { change 32 with (2 ^ 5); rewrite <- Z.pow_add_r by lia; f_equal; lia. }
      destruct Hd as [-> | [_ ?]]; lia. }
    destruct (IH r' ltac:(lia) Hr' Hv') as (Ev' & Hd' & Hlen').
    cbn [bin_val length]; rewrite Ev', Hlen'; split_and!; [lia|by apply Forall_cons_2|done].
Qed.

(** The bits of a scalar. *)
Lemma slide_bit_spec a i : Forall is_byte a -> (i / 8 < length a)%nat ->
  slide_bit a i = digit (le_val a) (Z.of_nat i) 1.
Proof.
  intros Ha Hi; unfold slide_bit; rewrite Z.land_comm; change 1 with (Z.ones 1) at 1; rewrite Z.land_ones by done.
  rewrite nth_digit, Z.shiftr_div_pow2 by (done || lia).
  change (digit (digit (le_val a) (8 * Z.of_nat (i / 8)) 8) (Z.of_nat (i mod 8)) 1 = digit (le_val a) (Z.of_nat i) 1).
  pose proof (Nat.mod_upper_bound i 8 ltac:(lia)); rewrite digit_digit by lia; f_equal.
  rewrite (Nat.div_mod_eq i 8) at 3; lia.
Qed.

Lemma bin_val_digits V n k : bin_val (map (fun i => digit V (Z.of_nat i) 1) (seq k n)) = digit V (Z.of_nat k) (Z.of_nat n).
Proof.
  revert k; induction n as [|n IH]; intros k; cbn [seq map bin_val].
  - unfold digit; by rewrite Z.mod_1_r.
  - rewrite IH; replace (Z.of_nat (S n)) with (1 + Z.of_nat n) by lia; rewrite digit_split by lia.
    replace (Z.of_nat (S k)) with (Z.of_nat k + 1) by lia; lia.
Qed.

Lemma slide_spec a : length a = 32%nat -> Forall is_byte a -> le_val a <= 2 ^ 255 ->
  bin_val (slide a) = le_val a /\ Forall slide_digit (slide a) /\ length (slide a) = 256%nat.
Proof.
  intros Hl Ha Hv; unfold slide, slide_bits.
  assert (Eb : map (slide_bit a) (seq 0 256) = map (fun i => digit (le_val a) (Z.of_nat i) 1) (seq 0 256)).
  { apply map_ext_in; intros i Hi%in_seq; apply slide_bit_spec; [done|].
    rewrite Hl; apply Nat.div_lt_upper_bound; lia. }
  assert (Ev : bin_val (map (slide_bit a) (seq 0 256)) = le_val a).
  { rewrite Eb, bin_val_digits; apply digit_all; pose proof (le_val_range a Ha) as Hr; rewrite Hl in Hr; exact Hr. }
  rewrite <- Ev; apply slide_loop_spec; [by rewrite length_map, length_seq| |rewrite Ev; zpow_norm; lia].
  rewrite Eb; apply Forall_forall; intros x Hx%list_elem_of_In%in_map_iff; destruct Hx as (i & <- & _).
  pose proof (digit_range (le_val a) (Z.of_nat i) 1 ltac:(lia)) as H; unfold in_u in H; unfold is_bit; lia.
Qed.
End Slide.
