(* ===== verification/DoubleScalarMult.v ===== *)
(** Variable-time multiplication by two scalars and the subgroup test of
    src/src/crypto/crypto-ops.c: ge_dsm_precomp, ge_double_scalarmult_base_vartime,
    ge_double_scalarmult_precomp_vartime and ge_check_subgroup_precomp_vartime. *)

From Stdlib Require Import Zmod.
From S2P Require Import Prelude.
From S2P Require Import Field.
From S2P Require Import Group.
From S2P Require Import Curve.
From S2P Require Import Edwards.
From S2P Require Import PointCodec.
From S2P Require Import ScalarMult.
From S2P Require Import BaseTable.
From S2P Require Import BasePoint.
From S2P Require Import Slide.

Module DoubleScalarMult.

Import Field Group Curve Edwards PointCodec ScalarMult BaseTable BasePoint Slide.

(** ** The table of odd multiples *)

(** [n] entries after [last], each [s2] further. *)
Fixpoint dsm_odd (n : nat) (s2 : ge_p3) (last : ge_cached) : option (list ge_cached) :=
  match n with
  | O => Some []
  | S n =>
    t ← ge_add s2 last;
    u ← ge_p1p1_to_p3 t;
    c ← ge_p3_to_cached u;
    rest ← dsm_odd n s2 c;
    Some (c :: rest)
  end.

Definition ge_dsm_precomp (s : ge_p3) : option (list ge_cached) :=
  r0 ← ge_p3_to_cached s;
  t ← ge_p3_dbl s;
  s2 ← ge_p1p1_to_p3 t;
  rest ← dsm_odd 7 s2 r0;
  Some (r0 :: rest).

(** ** Two scalars *)

(** The addition of the entry of a digit, with [add] and [sub] the operations of the table's
    entries; an index out of the table would be undefined behaviour. *)
Definition add_slide {E} (add sub : ge_p3 -> E -> option ge_p1p1) (table : list E)
    (t : ge_p1p1) (d : Z) : option ge_p1p1 :=
  if d >? 0 then
    u ← ge_p1p1_to_p3 t;
    e ← table !! Z.to_nat (Z.quot d 2);
    add u e
  else if d <? 0 then
    u ← ge_p1p1_to_p3 t;
    e ← table !! Z.to_nat (Z.quot (- d) 2);
    sub u e
  else Some t.

(** The main loop, on the pairs of digits from the highest position down. *)
Fixpoint dsm_loop {E} (add sub : ge_p3 -> E -> option ge_p1p1) (Ai : list ge_cached) (Bi : list E)
    (r : ge_p2) (digits : list (Z * Z)) : option ge_p2 :=
  match digits with
  | [] => Some r
  | (a, b) :: digits =>
    t ← ge_p2_dbl r;
    t ← add_slide ge_add ge_sub Ai t a;
    t ← add_slide add sub Bi t b;
    r ← ge_p1p1_to_p2 t;
    dsm_loop add sub Ai Bi r digits
  end.

(** [for (i = 255; i >= 0; --i) if (aslide[i] || bslide[i]) break;] *)
Fixpoint skip_zeros (digits : list (Z * Z)) : list (Z * Z) :=
  match digits with
  | (a, b) :: rest => if negb (a =? 0) || negb (b =? 0) then digits else skip_zeros rest
  | [] => []
  end.

Definition ge_double_scalarmult_base_vartime (a : list Z) (A : ge_p3) (b : list Z) : option ge_p2 :=
  let aslide := slide a in
  let bslide := slide b in
  Ai ← ge_dsm_precomp A;
  dsm_loop ge_madd ge_msub Ai ge_Bi ge_p2_0 (skip_zeros (rev (combine aslide bslide))).

Definition ge_double_scalarmult_precomp_vartime (a : list Z) (A : ge_p3) (b : list Z)
    (Bi : list ge_cached) : option ge_p2 :=
  let aslide := slide a in
  let bslide := slide b in
  Ai ← ge_dsm_precomp A;
  dsm_loop ge_add ge_sub Ai Bi ge_p2_0 (skip_zeros (rev (combine aslide bslide))).

(** ** The subgroup test *)

Inductive chain_op : Type := Add (k : nat) | Sub (k : nat).

(** [n] doublings, the last of which leaves extended coordinates. *)
Fixpoint chain_dbl (n : nat) (u : ge_p2) : option ge_p3 :=
  t ← ge_p2_dbl u;
  match n with
  | S (S _ as n) => u ← ge_p1p1_to_p2 t; chain_dbl n u
  | _ => ge_p1p1_to_p3 t
  end.

(** One run of doublings and the addition or subtraction of a table entry. *)
Definition chain_step (p : list ge_cached) (t : ge_p1p1) (step : nat * chain_op) : option ge_p1p1 :=
  u ← ge_p1p1_to_p2 t;
  s ← chain_dbl (fst step) u;
  match snd step with
  | Add k => e ← p !! k; ge_add s e
  | Sub k => e ← p !! k; ge_sub s e
  end.

Fixpoint chain_run (p : list ge_cached) (t : ge_p1p1) (steps : list (nat * chain_op)) : option ge_p1p1 :=
  match steps with [] => Some t | step :: steps => t ← chain_step p t step; chain_run p t steps end.

Definition order_chain : list (nat * chain_op) := [
  (126%nat, Add 2); (5%nat, Add 3); (5%nat, Sub 0); (7%nat, Sub 1); (4%nat, Sub 0); (8%nat, Sub 5);
  (5%nat, Add 1); (5%nat, Sub 0); (6%nat, Sub 1); (7%nat, Sub 6); (5%nat, Add 5); (6%nat, Add 5);
  (10%nat, Add 4); (4%nat, Add 1); (5%nat, Add 1); (7%nat, Add 6); (4%nat, Add 1); (5%nat, Sub 1);
  (7%nat, Sub 2); (7%nat, Sub 5); (8%nat, Sub 2); (2%nat, Add 0)].

Definition ge_check_subgroup_precomp_vartime (p : list ge_cached) : option Z :=
  p7 ← p !! 7%nat;
  p0 ← p !! 0%nat;
  t ← ge_add ge_p3_0 p7;
  s ← ge_p1p1_to_p3 t;
  t ← ge_add s p0;
  t ← chain_run p t order_chain;
  Y ← fe_sub (p1_Y t) (p1_T t);
  fe_isnonzero Y.

(** ** Correctness of the table *)

Definition odd_table {E} (rep : E -> point -> Prop) (table : list E) (A : point) : Prop :=
  length table = 8%nat /\ forall k c, table !! k = Some c -> rep c (zmul (2 * Z.of_nat k + 1) A).

Lemma dsm_odd_spec n s2 last A k : p3_rep s2 (zmul 2 A) -> cached_rep last (zmul k A) ->
  exists l, dsm_odd n s2 last = Some l /\ length l = n /\
    forall i c, l !! i = Some c -> cached_rep c (zmul (k + 2 * Z.of_nat (S i)) A).
Proof.
  intros H2; revert last k; induction n as [|n IH]; intros last k Hl; cbn [dsm_odd]; [by exists []|].
  do 3 ge_step; rewrite <- zmul_add in *; destruct (IH r1 (2 + k)) as (l & -> & Hlen & Hc); [done|].
  exists (r1 :: l); cbn [mbind option_bind length]; split_and!; [done|lia|].
  intros [|i] c Hi; simpl in Hi; simplify_eq.
  - by replace (k + 2 * Z.of_nat 1) with (2 + k) by lia.
  - replace (k + 2 * Z.of_nat (S (S i))) with (2 + k + 2 * Z.of_nat (S i)) by lia; by apply Hc.
Qed.

Lemma ge_dsm_precomp_spec s A : p3_rep s A ->
  exists l, ge_dsm_precomp s = Some l /\ odd_table cached_rep l A.
Proof.
  intros Hs; unfold ge_dsm_precomp; do 3 ge_step.
  destruct (dsm_odd_spec 7 r0 r1 A 1) as (l & -> & Hl & Hc); [done|by rewrite zmul_1|].
  exists (r1 :: l); split; [done|]; split; [simpl; lia|].
  intros [|k] c Hk; simpl in Hk; simplify_eq; [by rewrite zmul_1|].
  replace (2 * Z.of_nat (S k) + 1) with (1 + 2 * Z.of_nat (S k)) by lia; by apply Hc.
Qed.

(** ** Correctness of the loop *)

Lemma odd_index d : Z.odd d = true -> 0 < d <= 15 ->
  (Z.to_nat (Z.quot d 2) < 8)%nat /\ 2 * Z.of_nat (Z.to_nat (Z.quot d 2)) + 1 = d.
Proof.
  intros Ho Hd; rewrite Z.quot_div_nonneg by lia; rewrite (Z.div_mod d 2) in Ho by done.
  pose proof (Zmod_odd d) as Hm; rewrite (Z.div_mod d 2) in Hm at 2 by done; rewrite Ho in Hm.
  split; Z.div_mod_to_equations; lia.
Qed.

Section Table.
Context {E : Type} (rep : E -> point -> Prop) (add sub : ge_p3 -> E -> option ge_p1p1).
Hypothesis add_ok : forall h c P Q, p3_rep h P -> rep c Q -> exists r, add h c = Some r /\ p1p1_rep r (P ⊕ Q).
Hypothesis sub_ok : forall h c P Q, p3_rep h P -> rep c Q -> exists r, sub h c = Some r /\ p1p1_rep r (P ⊖ Q).

Lemma add_slide_spec table B t P d : odd_table rep table B -> p1p1_rep t P -> slide_digit d ->
  exists t', add_slide add sub table t d = Some t' /\ p1p1_rep t' (P ⊕ zmul d B).
Proof.
  intros [Hl Ht] HP Hd; unfold add_slide; rewrite Z.gtb_ltb.
  destruct Hd as [->|[Ho Hd]]; [exists t; by rewrite zmul_0, gadd_0_r|].
  destruct (Z.ltb_spec 0 d) as [Hpos|Hneg]; [|destruct (Z.ltb_spec d 0) as [Hlt|]].
  - destruct (odd_index d Ho ltac:(lia)) as [Hi Ei]; ge_step.
    destruct (lookup_lt_is_Some_2 table (Z.to_nat (Z.quot d 2)) ltac:(lia)) as [e He]; rewrite He.
    apply add_ok; [done|]; rewrite <- Ei; by apply Ht.
  - destruct (odd_index (- d)) as [Hi Ei]; [by rewrite Z.odd_opp|lia|]; ge_step.
    destruct (lookup_lt_is_Some_2 table (Z.to_nat (Z.quot (- d) 2)) ltac:(lia)) as [e He]; rewrite He.
    replace (zmul d B) with (gopp (zmul (- d) B)) by (by rewrite <- zmul_opp, Z.opp_involutive).
    apply sub_ok; [done|]; rewrite <- Ei; by apply Ht.
  - replace d with 0 in Ho by lia; done.
Qed.

End Table.

Definition pair_val (f : Z * Z -> Z) (n : Z) (ds : list (Z * Z)) : Z := fold_left (fun n d => 2 * n + f d) ds n.

Section Loop.
Context {E : Type} (rep : E -> point -> Prop) (add sub : ge_p3 -> E -> option ge_p1p1).
Hypothesis add_ok : forall h c P Q, p3_rep h P -> rep c Q -> exists r, add h c = Some r /\ p1p1_rep r (P ⊕ Q).
Hypothesis sub_ok : forall h c P Q, p3_rep h P -> rep c Q -> exists r, sub h c = Some r /\ p1p1_rep r (P ⊖ Q).
Context (Ai : list ge_cached) (Bi : list E) (A B : point).
Hypothesis HA : odd_table cached_rep Ai A.
Hypothesis HB : odd_table rep Bi B.

Lemma dsm_loop_spec ds r n m :
  Forall (fun d => slide_digit (fst d) /\ slide_digit (snd d)) ds -> p2_rep r (zmul n A ⊕ zmul m B) ->
  exists r', dsm_loop add sub Ai Bi r ds = Some r' /\
    p2_rep r' (zmul (pair_val fst n ds) A ⊕ zmul (pair_val snd m ds) B).
Proof.
  intros Hds; revert r n m; induction Hds as [|[a b] ds [Ha Hb] _ IH]; intros r n m Hr; [by exists r|].
  cbn [dsm_loop fst snd] in *; ge_step.
  destruct (add_slide_spec cached_rep ge_add ge_sub ge_add_spec ge_sub_spec Ai A r0 _ a HA R Ha) as (t1 & -> & H1).
  cbn [mbind option_bind].
  destruct (add_slide_spec rep add sub add_ok sub_ok Bi B t1 _ b HB H1 Hb) as (t2 & -> & H2).
  cbn [mbind option_bind]; ge_step; apply IH.
  rewrite !zmul_add, !zmul_mul; rewrite zmul_gadd in R0.
  replace (zmul 2 (zmul n A) ⊕ zmul a A ⊕ (zmul 2 (zmul m B) ⊕ zmul b B))
    with (zmul 2 (zmul n A) ⊕ zmul 2 (zmul m B) ⊕ zmul a A ⊕ zmul b B); [exact R0|].
  by rewrite <- (gadd_assoc _ (zmul a A)), gadd_swap.
Qed.

Lemma skip_zeros_spec f ds : f (0, 0) = 0 -> pair_val f 0 (skip_zeros ds) = pair_val f 0 ds.
Proof.
  intros Hf; induction ds as [|[a b] ds IH]; [done|]; cbn [skip_zeros].
  destruct (Z.eqb_spec a 0) as [->|]; [|done]; destruct (Z.eqb_spec b 0) as [->|]; [|done].
  cbn [negb orb]; rewrite IH; unfold pair_val; cbn [fold_left]; by rewrite Hf.
Qed.

Lemma skip_zeros_Forall (P : Z * Z -> Prop) ds : Forall P ds -> Forall P (skip_zeros ds).
Proof.
  induction 1 as [|[a b] ds Hd Hds IH]; [done|]; cbn [skip_zeros]; case_match; [by apply Forall_cons_2|done].
Qed.

Lemma pair_val_rev f g ds : (forall d, f d = g d) -> pair_val f 0 (rev ds) = bin_val (map g ds).
Proof.
  intros Hfg; unfold pair_val; rewrite <- fold_left_rev_right, rev_involutive.
  induction ds as [|d ds IH]; simpl; [done|]; rewrite IH, Hfg; lia.
Qed.

Lemma map_fst_combine (l l' : list Z) : length l = length l' -> map fst (combine l l') = l.
Proof. revert l'; induction l as [|x l IH]; intros [|y l'] H; simpl in *; f_equal; auto; lia. Qed.
Lemma map_snd_combine (l l' : list Z) : length l = length l' -> map snd (combine l l') = l'.
Proof. revert l'; induction l as [|x l IH]; intros [|y l'] H; simpl in *; f_equal; auto; lia. Qed.

Lemma double_scalarmult_spec a b :
  length a = 32%nat -> Forall is_byte a -> le_val a <= 2 ^ 255 ->
  length b = 32%nat -> Forall is_byte b -> le_val b <= 2 ^ 255 ->
  exists r, dsm_loop add sub Ai Bi ge_p2_0 (skip_zeros (rev (combine (slide a) (slide b)))) = Some r /\
    p2_rep r (zmul (le_val a) A ⊕ zmul (le_val b) B).
Proof.
  intros La Ba Va Lb Bb Vb; destruct (slide_spec a La Ba Va) as (Ea & Da & Na).
  destruct (slide_spec b Lb Bb Vb) as (Eb & Db & Nb).
  destruct (dsm_loop_spec (skip_zeros (rev (combine (slide a) (slide b)))) ge_p2_0 0 0) as (r & -> & Hr).
  - apply skip_zeros_Forall, Forall_rev, Forall_forall; intros [x y] Hxy%list_elem_of_In.
    rewrite Forall_forall in Da, Db; pose proof (in_combine_l _ _ _ _ Hxy); pose proof (in_combine_r _ _ _ _ Hxy).
    split; [apply Da|apply Db]; by apply list_elem_of_In.
  - rewrite !zmul_0, gadd_0_l; apply ge_p2_0_spec.
  - exists r; split; [done|]; rewrite !skip_zeros_spec, !(pair_val_rev _ _ _ (fun _ => eq_refl)) in Hr by done.
    by rewrite map_fst_combine, map_snd_combine, Ea, Eb in Hr by lia.
Qed.
End Loop.

Lemma ge_double_scalarmult_precomp_vartime_spec a A b Bi P Q :
  p3_rep A P -> odd_table cached_rep Bi Q ->
  length a = 32%nat -> Forall is_byte a -> le_val a <= 2 ^ 255 ->
  length b = 32%nat -> Forall is_byte b -> le_val b <= 2 ^ 255 ->
  exists r, ge_double_scalarmult_precomp_vartime a A b Bi = Some r /\
    p2_rep r (zmul (le_val a) P ⊕ zmul (le_val b) Q).
Proof.
  intros HA HB La Ba Va Lb Bb Vb; unfold ge_double_scalarmult_precomp_vartime; cbv zeta.
  destruct (ge_dsm_precomp_spec A P HA) as (Ai & -> & HAi); cbn [mbind option_bind].
  by apply (double_scalarmult_spec cached_rep ge_add ge_sub ge_add_spec ge_sub_spec Ai Bi P Q HAi HB).
Qed.

Lemma ge_double_scalarmult_base_vartime_spec a A b P :
  p3_rep A P ->
  length a = 32%nat -> Forall is_byte a -> le_val a <= 2 ^ 255 ->
  length b = 32%nat -> Forall is_byte b -> le_val b <= 2 ^ 255 ->
  exists r, ge_double_scalarmult_base_vartime a A b = Some r /\
    p2_rep r (zmul (le_val a) P ⊕ zmul (le_val b) base_point).
Proof.
  intros HA La Ba Va Lb Bb Vb; unfold ge_double_scalarmult_base_vartime; cbv zeta.
  destruct (ge_dsm_precomp_spec A P HA) as (Ai & -> & HAi); cbn [mbind option_bind].
  apply (double_scalarmult_spec precomp_rep ge_madd ge_msub ge_madd_spec ge_msub_spec Ai ge_Bi P base_point HAi);
    [|assumption..].
  split; [reflexivity|apply ge_Bi_rep].
Qed.

(** ** Correctness of the subgroup test *)

Lemma chain_dbl_spec n u P : (1 <= n)%nat -> p2_rep u P ->
  exists s, chain_dbl n u = Some s /\ p3_rep s (zmul (2 ^ Z.of_nat n) P).
Proof.
  revert u P; induction n as [|n IH]; intros u P Hn Hu; [lia|]; cbn [chain_dbl]; ge_step.
  destruct n as [|n]; ge_step; [by exists r0|].
  destruct (IH r0 (zmul 2 P)) as (s & E & Hs); [lia|done|]; exists s; split; [exact E|].
  replace (2 ^ Z.of_nat (S (S n))) with (2 ^ Z.of_nat (S n) * 2); [by rewrite zmul_mul|].
  rewrite (Nat2Z.inj_succ (S n)), (Z.pow_succ_r 2 (Z.of_nat (S n))) by lia; lia.
Qed.

(** The multiple that a step of the chain computes. *)
Definition chain_scalar (n : Z) (step : nat * chain_op) : Z :=
  2 ^ Z.of_nat (fst step) * n +
  match snd step with Add k => 2 * Z.of_nat k + 1 | Sub k => - (2 * Z.of_nat k + 1) end.

Definition chain_ok (step : nat * chain_op) : Prop :=
  (1 <= fst step)%nat /\ match snd step with Add k | Sub k => (k < 8)%nat end.

Lemma chain_run_spec p A steps t n : odd_table cached_rep p A -> Forall chain_ok steps ->
  p1p1_rep t (zmul n A) ->
  exists t', chain_run p t steps = Some t' /\ p1p1_rep t' (zmul (fold_left chain_scalar steps n) A).
Proof.
  intros [Hl Ht] Hs; revert t n; induction Hs as [|[k op] steps [Hk Hop] _ IH]; intros t n Hn; [by exists t|].
  cbn [chain_run fst snd] in *; unfold chain_step at 1; cbn [fst snd]; ge_step.
  destruct (chain_dbl_spec k r _ Hk R) as (s & -> & Hs); rewrite <- zmul_mul in Hs; cbn [mbind option_bind].
  destruct op as [j|j]; destruct (lookup_lt_is_Some_2 p j ltac:(lia)) as [e He];
    pose proof (Ht j e He) as Hj; rewrite He; cbn [mbind option_bind]; ge_step; apply IH.
  - by rewrite <- zmul_add in R0.
  - by rewrite <- zmul_opp, <- zmul_add in R0.
Qed.

(** [y = 1] only at the neutral point. *)
Lemma y_one_zero (P : point) : py P = 1%Zmod -> P = gzero.
Proof.
  intros Hy; assert (H0 : on_curve 0%Zmod (py P)) by (rewrite Hy; apply zero_on_curve).
  apply point_eq; [|exact Hy]; destruct (same_y_x P _ H0) as [->| ->]; [done|].
  apply Zmod.opp_0.
Qed.

Lemma ge_check_subgroup_precomp_vartime_spec p A : odd_table cached_rep p A ->
  exists n, ge_check_subgroup_precomp_vartime p = Some n /\ (n = 0 <-> zmul group_order A = gzero).
Proof.
  intros HA; destruct (HA) as [Hl Ht]; unfold ge_check_subgroup_precomp_vartime.
  destruct (lookup_lt_is_Some_2 p 7 ltac:(lia)) as [p7 H7]; destruct (lookup_lt_is_Some_2 p 0 ltac:(lia)) as [p0 H0].
  pose proof (Ht _ _ H7) as R7; pose proof (Ht _ _ H0) as R0; rewrite H7, H0; cbn [mbind option_bind].
  pose proof ge_p3_0_spec as RZ; do 3 ge_step; rewrite gadd_0_l, <- zmul_add in *.
  destruct (chain_run_spec p A order_chain r1 16) as (t & -> & Hr); [done| |done|].
  { repeat (apply Forall_cons_2; [split; simpl; lia|]); apply Forall_nil_2. }
  replace (fold_left chain_scalar order_chain 16) with group_order in Hr by (vm_compute; reflexivity).
  destruct Hr as (LX & LY & LZ & LT & NZ & NT & EX & EY); cbn [mbind option_bind]; fe_step.
  rewrite fe_isnonzero_F by le_done; eexists; split; [reflexivity|].
  assert (Hz : fv h = 0%Zmod <-> zmul group_order A = gzero).
  { rewrite V, Zmod.sub_eq_0_iff, EY; split; intros HE; [apply y_one_zero|rewrite HE].
    - apply (F_cancel_l _ _ _ NT); rewrite Zmod.mul_1_r, Zmod.mul_comm; exact HE.
    - apply Zmod.mul_1_l. }
  destruct (decide (fv h = 0%Zmod)); split; intros HH; try done; tauto.
Qed.
(** C29. For scalars below 2^255 the four scalar multiplications terminate
    without overflow and compute a P (ge_scalarmult), a G (ge_scalarmult_base,
    through the table of 256 multiples of the base point), a P + b G and a P +
    b Q (the double multiplications with sliding windows). *)
Theorem scalar_multiplication_correct a b h k P Q : p3_rep h P -> p3_rep k Q ->
  length a = 32%nat -> Forall is_byte a -> le_val a < 2 ^ 255 ->
  length b = 32%nat -> Forall is_byte b -> le_val b < 2 ^ 255 ->
  (exists r, ge_scalarmult a h = Some r /\ p2_rep r (zmul (le_val a) P)) /\
  (exists r, ge_scalarmult_base a = Some r /\ p3_rep r (zmul (le_val a) base_point)) /\
  (exists r, ge_double_scalarmult_base_vartime a h b = Some r /\
     p2_rep r (zmul (le_val a) P ⊕ zmul (le_val b) base_point)) /\
  (exists t r, ge_dsm_precomp k = Some t /\ ge_double_scalarmult_precomp_vartime a h b t = Some r /\
     p2_rep r (zmul (le_val a) P ⊕ zmul (le_val b) Q)).
Proof.
  intros HP HQ La Ba Va Lb Bb Vb; split_and!.
  - by apply ge_scalarmult_spec.
  - by apply ge_scalarmult_base_spec.
  - apply ge_double_scalarmult_base_vartime_spec; (assumption || lia).
  - destruct (ge_dsm_precomp_spec k Q HQ) as (t & Et & Ht).
    destruct (ge_double_scalarmult_precomp_vartime_spec a h b t P Q) as (r & Er & Hr);
      (assumption || lia || idtac).
    exists t, r; split_and!; assumption.
Qed.

Lemma scalar_multiplication_correct_witness :
  exists r, ge_scalarmult_base (le_bytes 32 (2 ^ 255 - 1)) = Some r /\ p3_rep r (zmul (2 ^ 255 - 1) base_point).
Proof.
  destruct (scalar_multiplication_correct (le_bytes 32 (2 ^ 255 - 1)) (le_bytes 32 0) ge_p3_0 ge_p3_0 gzero gzero)
    as (_ & H & _); [exact ge_p3_0_spec..|reflexivity|apply le_bytes_range|vm_compute; reflexivity|reflexivity
    |apply le_bytes_range|vm_compute; reflexivity|exact H].
Defined.

(** ge_check_subgroup_precomp_vartime returns 0 exactly for the points
    whose multiple by the group order is the neutral element. *)
Theorem subgroup_check_correct h P : p3_rep h P ->
  exists t n, ge_dsm_precomp h = Some t /\ ge_check_subgroup_precomp_vartime t = Some n /\
    (n = 0 <-> zmul group_order P = gzero).
Proof.
  intros HP; destruct (ge_dsm_precomp_spec h P HP) as (t & Et & Ht).
  destruct (ge_check_subgroup_precomp_vartime_spec t P Ht) as (n & En & Hn); by exists t, n.
Qed.

Lemma subgroup_check_correct_witness : exists t n,
  ge_dsm_precomp ge_p3_0 = Some t /\ ge_check_subgroup_precomp_vartime t = Some n /\
    (n = 0 <-> zmul group_order (gzero : point) = gzero).
Proof. apply subgroup_check_correct, ge_p3_0_spec. Defined.
End DoubleScalarMult.
