(* ===== verification/Scalar.v ===== *)
(** Arithmetic modulo the order of the base point: the sc_* functions of
    src/src/crypto/crypto-ops.c.

    A scalar is held in limbs of 21 bits. Every statement line of the functions is one of four
    instructions on the list of limbs ([limb_op]); [run] executes a list of them. The absence
    of signed overflow is proved by an interval analysis of the instruction lists
    ([analyse]), which is proved sound once and evaluated for each function. *)

From S2P Require Import Prelude.
From S2P Require Import Limbs.
From S2P Require Import Field.
From S2P Require Import FieldPow.

Module Scalar.

Import Limbs FieldPow.

(** The order of the base point. *)
Definition L : Z := 2 ^ 252 + 27742317777372353535851937790883648493.

(** ** Instructions *)

Inductive limb_op : Type :=
| Round (i : nat) (** [carryi = (si + (1<<20)) >> 21; si+1 += carryi; si -= carryi << 21] *)
| Floor (i : nat) (** [carryi = si >> 21; si+1 += carryi; si -= carryi << 21] *)
| Fold            (** the six lines [s += sk * 666643] ... [s -= sk * 683901] for the highest limb
                      [sk], which is not used again *)
| Zero.           (** [s12 = 0]: a new highest limb *)

(** [s[i] = f(s[i])] *)
Definition upd (i : nat) (f : Z -> option Z) (s : list Z) : option (list Z) :=
  x ← s !! i; x ← f x; Some (<[i := x]> s).

Definition carry_at (carry : Z -> Z -> option (Z * Z)) (i : nat) (s : list Z) : option (list Z) :=
  x ← s !! i; y ← s !! S i; '(x, y) ← carry x y; Some (<[S i := y]> (<[i := x]> s)).

Definition fold_at (k : nat) (y : Z) (s : list Z) : option (list Z) :=
  s ← upd k (fun x => mac x y 666643) s;
  s ← upd (k + 1) (fun x => mac x y 470296) s;
  s ← upd (k + 2) (fun x => mac x y 654183) s;
  s ← upd (k + 3) (fun x => msb x y 997805) s;
  s ← upd (k + 4) (fun x => mac x y 136657) s;
  upd (k + 5) (fun x => msb x y 683901) s.

Definition exec (op : limb_op) (s : list Z) : option (list Z) :=
  match op with
  | Round i => carry_at (carry_round 21) i s
  | Floor i => carry_at (carry_floor 64 21) i s
  | Fold => let k := (length s - 1)%nat in y ← s !! k; fold_at (k - 12) y (take k s)
  | Zero => Some (s ++ [0])
  end.

Fixpoint run (ops : list limb_op) (s : list Z) : option (list Z) :=
  match ops with [] => Some s | op :: ops => s ← exec op s; run ops s end.

(** ** Loading and storing *)

Definition mask21 (x : Z) : Z := Z.land 2097151 x.

Definition load_limbs (s : list Z) : list Z :=
  [mask21 (load_3 s 0); mask21 (Z.shiftr (load_4 s 2) 5); mask21 (Z.shiftr (load_3 s 5) 2);
   mask21 (Z.shiftr (load_4 s 7) 7); mask21 (Z.shiftr (load_4 s 10) 4); mask21 (Z.shiftr (load_3 s 13) 1);
   mask21 (Z.shiftr (load_4 s 15) 6); mask21 (Z.shiftr (load_3 s 18) 3); mask21 (load_3 s 21);
   mask21 (Z.shiftr (load_4 s 23) 5); mask21 (Z.shiftr (load_3 s 26) 2); Z.shiftr (load_4 s 28) 7].

Definition load_limbs64 (s : list Z) : list Z :=
  [mask21 (load_3 s 0); mask21 (Z.shiftr (load_4 s 2) 5); mask21 (Z.shiftr (load_3 s 5) 2);
   mask21 (Z.shiftr (load_4 s 7) 7); mask21 (Z.shiftr (load_4 s 10) 4); mask21 (Z.shiftr (load_3 s 13) 1);
   mask21 (Z.shiftr (load_4 s 15) 6); mask21 (Z.shiftr (load_3 s 18) 3); mask21 (load_3 s 21);
   mask21 (Z.shiftr (load_4 s 23) 5); mask21 (Z.shiftr (load_3 s 26) 2); mask21 (Z.shiftr (load_4 s 28) 7);
   mask21 (Z.shiftr (load_4 s 31) 4); mask21 (Z.shiftr (load_3 s 34) 1); mask21 (Z.shiftr (load_4 s 36) 6);
   mask21 (Z.shiftr (load_3 s 39) 3); mask21 (load_3 s 42); mask21 (Z.shiftr (load_4 s 44) 5);
   mask21 (Z.shiftr (load_3 s 47) 2); mask21 (Z.shiftr (load_4 s 49) 7); mask21 (Z.shiftr (load_4 s 52) 4);
   mask21 (Z.shiftr (load_3 s 55) 1); mask21 (Z.shiftr (load_4 s 57) 6); Z.shiftr (load_4 s 60) 3].

(** [(unsigned char) (h >> k)] and [(unsigned char) ((h >> k) | (h' << n))] *)
Definition cut (h k : Z) : Z := u8 (Z.shiftr h k).
Definition join (h k h' n : Z) : Z := u8 (Z.lor (Z.shiftr h k) (Z.shiftl h' n)).

Definition store_limbs (s : list Z) : option (list Z) :=
  match s with
  | [s0; s1; s2; s3; s4; s5; s6; s7; s8; s9; s10; s11] => Some
    [cut s0 0; cut s0 8; join s0 16 s1 5; cut s1 3; cut s1 11; join s1 19 s2 2; cut s2 6; join s2 14 s3 7;
     cut s3 1; cut s3 9; join s3 17 s4 4; cut s4 4; cut s4 12; join s4 20 s5 1; cut s5 7; join s5 15 s6 6;
     cut s6 2; cut s6 10; join s6 18 s7 3; cut s7 5; cut s7 13; cut s8 0; cut s8 8; join s8 16 s9 5;
     cut s9 3; cut s9 11; join s9 19 s10 2; cut s10 6; join s10 14 s11 7; cut s11 1; cut s11 9; cut s11 17]
  | _ => None
  end.

(** ** The functions *)

Definition round_even : list limb_op := [Round 0; Round 2; Round 4; Round 6; Round 8; Round 10].
Definition round_odd : list limb_op := [Round 1; Round 3; Round 5; Round 7; Round 9; Round 11].
Definition floor_11 : list limb_op :=
  [Floor 0; Floor 1; Floor 2; Floor 3; Floor 4; Floor 5; Floor 6; Floor 7; Floor 8; Floor 9; Floor 10].

(** The reduction of thirteen limbs, up to the first and from the second of its two last folds. *)
Definition reduce_head : list limb_op := round_even ++ round_odd ++ [Fold; Zero].
Definition reduce_tail : list limb_op := floor_11 ++ [Floor 11] ++ [Fold] ++ floor_11.

(** The reduction of 24 limbs to thirteen. *)
Definition reduce_wide : list limb_op :=
  [Fold; Fold; Fold; Fold; Fold; Fold;
   Round 6; Round 8; Round 10; Round 12; Round 14; Round 16; Round 7; Round 9; Round 11; Round 13; Round 15;
   Fold; Fold; Fold; Fold; Fold; Fold; Zero].

Definition finish (pre : list limb_op) (s : list Z) : option (list Z) :=
  s ← run (pre ++ reduce_head ++ reduce_tail) s; store_limbs s.

Definition sc_0 : list Z := repeat 0 32.

Definition sc_reduce32 (s : list Z) : option (list Z) := finish [] (load_limbs s ++ [0]).

Definition sc_reduce (s : list Z) : option (list Z) := finish reduce_wide (load_limbs64 s).

Definition sc_add (a b : list Z) : option (list Z) :=
  s ← mapM (fun '(x, y) => ck64 (x + y)) (combine (load_limbs a) (load_limbs b));
  finish [] (s ++ [0]).

Definition sc_sub (a b : list Z) : option (list Z) :=
  s ← mapM (fun '(x, y) => ck64 (x - y)) (combine (load_limbs a) (load_limbs b));
  finish [] (s ++ [0]).

(** The products of limbs of weight [k], in the order of the source. *)
Definition conv (a b : list Z) (k : nat) : list (Z * Z) :=
  map (fun i => (nth i a 0, nth (k - i) b 0)) (filter (fun i => (i < 12)%nat /\ (k - i < 12)%nat) (seq 0 (S k))).

Definition mulsub_limb (a b c : list Z) (k : nat) : option Z :=
  d ← dot64 (conv a b k);
  match c !! k with Some x => ck64 (x - d) | None => ck64 (- d) end.

Definition mulsub_rounds : list limb_op :=
  [Round 0; Round 2; Round 4; Round 6; Round 8; Round 10; Round 12; Round 14; Round 16; Round 18; Round 20; Round 22;
   Round 1; Round 3; Round 5; Round 7; Round 9; Round 11; Round 13; Round 15; Round 17; Round 19; Round 21].

Definition sc_mulsub (a b c : list Z) : option (list Z) :=
  s ← mapM (mulsub_limb (load_limbs a) (load_limbs b) (load_limbs c)) (seq 0 23);
  finish (mulsub_rounds ++ reduce_wide) (s ++ [0]).

(** [(a >> 63) - ((-a) >> 63)] *)
Definition signum (a : Z) : Z := Z.shiftr a 63 - Z.shiftr (- a) 63.

Definition sc_check (s : list Z) : Z :=
  s32 (Z.shiftr (signum (1559614444 - load_4 s 0) + Z.shiftl (signum (1477600026 - load_4 s 4)) 1
    + Z.shiftl (signum (2734136534 - load_4 s 8)) 2 + Z.shiftl (signum (350157278 - load_4 s 12)) 3
    + Z.shiftl (signum (- load_4 s 16)) 4 + Z.shiftl (signum (- load_4 s 20)) 5
    + Z.shiftl (signum (- load_4 s 24)) 6 + Z.shiftl (signum (268435456 - load_4 s 28)) 7) 8).

Definition sc_isnonzero (s : list Z) : Z := Z.shiftr (fold_left Z.lor s 0 - 1) 8 + 1.
End Scalar.
