(* ===== verification/ScalarSpec.v ===== *)
(** Correctness of the scalar arithmetic ([Scalar]): a sound interval analysis of the limb
    instructions, and from it the value of every sc_* function modulo the group order. *)

From S2P Require Import Prelude.
From S2P Require Import IntUtil.
From S2P Require Import Limbs.
From S2P Require Import Field.
From S2P Require Import FieldPow.
From S2P Require Import Scalar.

Module ScalarSpec.

Import Limbs Field FieldPow Scalar.

(** ** The value of limbs *)

Fixpoint lval (s : list Z) : Z := match s with [] => 0 | x :: s => x + 2 ^ 21 * lval s end.

Lemma lval_app s t : lval (s ++ t) = lval s + 2 ^ (21 * Z.of_nat (length s)) * lval t.
Proof.
  induction s as [|x s IH]; cbn [app lval length]; [change (2 ^ (21 * Z.of_nat 0)) with 1; lia|].
  rewrite IH; replace (21 * Z.of_nat (S (length s))) with (21 + 21 * Z.of_nat (length s)) by lia.
  rewrite Z.pow_add_r by lia; ring.
Qed.

Lemma lval_insert s i x v : s !! i = Some x ->
  lval (<[i := v]> s) = lval s + 2 ^ (21 * Z.of_nat i) * (v - x).
Proof.
  revert i; induction s as [|y s IH]; intros [|i] H; [done..|cbn in H; simplify_eq; cbn [insert list_insert lval]|].
  - change (2 ^ (21 * Z.of_nat 0)) with 1; lia.
  - change (<[S i := v]> (y :: s)) with (y :: <[i := v]> s); cbn [lval]; rewrite (IH i) by done.
    replace (21 * Z.of_nat (S i)) with (21 + 21 * Z.of_nat i) by lia; rewrite Z.pow_add_r by lia; ring.
Qed.

(** ** Intervals *)

Definition itv : Type := Z * Z.
Definition inb (x : Z) (v : itv) : Prop := fst v <= x <= snd v.
Definition fits (v : itv) : bool := (- 2 ^ 63 <=? fst v) && (snd v <? 2 ^ 63).

Lemma fits_ck v z : fits v = true -> inb z v -> ck64 z = Some z.
Proof.
  unfold fits, inb; rewrite andb_true_iff, Z.leb_le, Z.ltb_lt; intros [H1 H2] Hz.
  unfold ck; rewrite decide_True; [done|]; unfold in_s; change (64 - 1) with 63; lia.
Qed.

(** A carry with rounding offset [off]. *)
Definition icarry (off : Z) (x y : itv) : option (itv * itv) :=
  let t := (fst x + off, snd x + off) in
  let c := (fst t / 2 ^ 21, snd t / 2 ^ 21) in
  let y := (fst y + fst c, snd y + snd c) in
  let m := (fst c * 2 ^ 21, snd c * 2 ^ 21) in
  if fits t && fits y && fits m then Some ((- off, 2 ^ 21 - 1 - off), y) else None.

Definition imac (y : itv) (k : Z) (x : itv) : option itv :=
  let m := (fst y * k, snd y * k) in
  let r := (fst x + fst m, snd x + snd m) in
  if fits m && fits r then Some r else None.
Definition imsb (y : itv) (k : Z) (x : itv) : option itv :=
  let m := (fst y * k, snd y * k) in
  let r := (fst x - snd m, snd x - fst m) in
  if fits m && fits r then Some r else None.

Definition iupd (i : nat) (f : itv -> option itv) (s : list itv) : option (list itv) :=
  x ← s !! i; x ← f x; Some (<[i := x]> s).
Definition icarry_at (off : Z) (i : nat) (s : list itv) : option (list itv) :=
  x ← s !! i; y ← s !! S i; '(x, y) ← icarry off x y; Some (<[S i := y]> (<[i := x]> s)).
Definition ifold_at (k : nat) (y : itv) (s : list itv) : option (list itv) :=
  s ← iupd k (imac y 666643) s;
  s ← iupd (k + 1) (imac y 470296) s;
  s ← iupd (k + 2) (imac y 654183) s;
  s ← iupd (k + 3) (imsb y 997805) s;
  s ← iupd (k + 4) (imac y 136657) s;
  iupd (k + 5) (imsb y 683901) s.

Definition ianalyse (op : limb_op) (s : list itv) : option (list itv) :=
  match op with
  | Round i => icarry_at (2 ^ 20) i s
  | Floor i => icarry_at 0 i s
  | Fold => if (13 <=? length s)%nat then
      let k := (length s - 1)%nat in y ← s !! k; ifold_at (k - 12) y (take k s) else None
  | Zero => Some (s ++ [(0, 0)])
  end.
Fixpoint analyse (ops : list limb_op) (s : list itv) : option (list itv) :=
  match ops with [] => Some s | op :: ops => s ← ianalyse op s; analyse ops s end.

(** ** Soundness *)

Definition within (s : list Z) (v : list itv) : Prop := Forall2 inb s v.

Lemma within_lookup s v i w : within s v -> v !! i = Some w -> exists x, s !! i = Some x /\ inb x w.
Proof. intros H E; destruct (Forall2_lookup_r _ _ _ _ _ H E) as (x & Ex & Hx); by exists x. Qed.

Lemma icarry_sound off carry x y ix iy ix' iy' :
  0 <= off < 2 ^ 21 ->
  (forall x y, ck64 (x + off) = Some (x + off) -> carry x y = (let c := Z.shiftr (x + off) 21 in
     y ← ck64 (y + c); m ← ck64 (Z.shiftl c 21); x ← ck64 (x - m); Some (x, y))) ->
  inb x ix -> inb y iy -> icarry off ix iy = Some (ix', iy') ->
  exists c, carry x y = Some (x - c * 2 ^ 21, y + c) /\ inb (x - c * 2 ^ 21) ix' /\ inb (y + c) iy'.
Proof.
  intros Ho Hc Hx Hy; unfold icarry; cbv zeta; case_match eqn:Hf; [|done]; intros [= <- <-].
  rewrite !andb_true_iff in Hf; destruct Hf as [[Ft Fy] Fm]; unfold inb in *; cbn [fst snd] in *.
  set (c := (x + off) / 2 ^ 21); exists c.
  rewrite Hc by (apply (fits_ck _ (x + off) Ft); unfold inb; cbn [fst snd]; lia); cbv zeta.
  rewrite Z.shiftr_div_pow2, Z.shiftl_mul_pow2 by done; fold c.
  assert (Hcb : (fst ix + off) / 2 ^ 21 <= c <= (snd ix + off) / 2 ^ 21)
    by (split; apply Z.div_le_mono; lia).
  rewrite (fits_ck _ (y + c) Fy) by (unfold inb; cbn [fst snd]; lia); cbn [mbind option_bind].
  rewrite (fits_ck _ (c * 2 ^ 21) Fm) by (split; cbn [fst snd]; apply Z.mul_le_mono_nonneg_r; lia); cbn [mbind option_bind].
  assert (Hr : - off <= x - c * 2 ^ 21 <= 2 ^ 21 - 1 - off).
  { pose proof (Z.div_mod (x + off) (2 ^ 21) ltac:(done)); pose proof (Z.mod_pos_bound (x + off) (2 ^ 21) ltac:(done)).
    fold c in H; lia. }
  rewrite (ck_ok 64 _ (2 ^ 21)) by lia; cbn [mbind option_bind]; split_and!; [done|lia..].
Qed.

Lemma carry_round_form x y : ck64 (x + 2 ^ 20) = Some (x + 2 ^ 20) -> carry_round 21 x y =
  (let c := Z.shiftr (x + 2 ^ 20) 21 in
   y ← ck64 (y + c); m ← ck64 (Z.shiftl c 21); x ← ck64 (x - m); Some (x, y)).
Proof. intros E; unfold carry_round; change (Z.shiftl 1 (21 - 1)) with (2 ^ 20); by rewrite E. Qed.

Lemma carry_floor_form x y : ck64 (x + 0) = Some (x + 0) -> carry_floor 64 21 x y =
  (let c := Z.shiftr (x + 0) 21 in
   y ← ck64 (y + c); m ← ck64 (Z.shiftl c 21); x ← ck64 (x - m); Some (x, y)).
Proof. intros _; by rewrite Z.add_0_r. Qed.

Lemma within_insert s v i x w : within s v -> inb x w -> within (<[i := x]> s) (<[i := w]> v).
Proof. intros; by apply Forall2_insert. Qed.

Lemma insert_insert_value s i x y c : s !! i = Some x -> s !! S i = Some y ->
  lval (<[S i := y + c]> (<[i := x - c * 2 ^ 21]> s)) = lval s.
Proof.
  intros Hx Hy; rewrite (lval_insert _ (S i) y), (lval_insert _ i x);
    [|done|by rewrite list_lookup_insert_ne by lia].
  replace (21 * Z.of_nat (S i)) with (21 + 21 * Z.of_nat i) by lia; rewrite Z.pow_add_r by lia; ring.
Qed.

Lemma upd_sound (f : Z -> option Z) g (F : Z -> Z) i s v v' :
  (forall x w w', inb x w -> g w = Some w' -> f x = Some (F x) /\ inb (F x) w') ->
  within s v -> iupd i g v = Some v' ->
  exists x, s !! i = Some x /\ upd i f s = Some (<[i := F x]> s) /\ within (<[i := F x]> s) v'.
Proof.
  intros Hf Hs H; unfold iupd in H; destruct (v !! i) as [w|] eqn:Ew; [|done]; cbn [mbind option_bind] in H.
  destruct (g w) as [w'|] eqn:Eg; [|done]; cbn [mbind option_bind] in H; injection H as <-.
  destruct (within_lookup s v i w Hs Ew) as (x & Ex & Hx); destruct (Hf x w w' Hx Eg) as [Efx Hx'].
  exists x; split; [done|]; unfold upd; rewrite Ex; cbn [mbind option_bind]; rewrite Efx; cbn [mbind option_bind].
  split; [done|by apply within_insert].
Qed.

Lemma imac_sound y iy k x w w' : 0 <= k -> inb y iy -> inb x w -> imac iy k w = Some w' ->
  mac x y k = Some (x + y * k) /\ inb (x + y * k) w'.
Proof.
  intros Hk Hy Hx; unfold imac; cbv zeta; case_match eqn:Hf; [|done]; intros [= <-].
  apply andb_true_iff in Hf as [Fm Fr]; unfold inb in *; cbn [fst snd] in *; unfold mac.
  assert (fst iy * k <= y * k <= snd iy * k) by nia.
  rewrite (fits_ck _ (y * k) Fm) by (unfold inb; cbn [fst snd]; lia); cbn [mbind option_bind].
  rewrite (fits_ck _ _ Fr) by (unfold inb; cbn [fst snd]; lia); split; [done|lia].
Qed.

Lemma imsb_sound y iy k x w w' : 0 <= k -> inb y iy -> inb x w -> imsb iy k w = Some w' ->
  msb x y k = Some (x - y * k) /\ inb (x - y * k) w'.
Proof.
  intros Hk Hy Hx; unfold imsb; cbv zeta; case_match eqn:Hf; [|done]; intros [= <-].
  apply andb_true_iff in Hf as [Fm Fr]; unfold inb in *; cbn [fst snd] in *; unfold msb.
  assert (fst iy * k <= y * k <= snd iy * k) by nia.
  rewrite (fits_ck _ (y * k) Fm) by (unfold inb; cbn [fst snd]; lia); cbn [mbind option_bind].
  rewrite (fits_ck _ _ Fr) by (unfold inb; cbn [fst snd]; lia); split; [done|lia].
Qed.

Lemma carry_at_sound off carry i s v v' : 0 <= off < 2 ^ 21 ->
  (forall x y, ck64 (x + off) = Some (x + off) -> carry x y = (let c := Z.shiftr (x + off) 21 in
     y ← ck64 (y + c); m ← ck64 (Z.shiftl c 21); x ← ck64 (x - m); Some (x, y))) ->
  within s v -> icarry_at off i v = Some v' ->
  exists s', carry_at carry i s = Some s' /\ within s' v' /\ lval s' = lval s.
Proof.
  intros Ho Hc Hs H; unfold icarry_at in H.
  destruct (v !! i) as [ix|] eqn:Ex; [|done]; cbn [mbind option_bind] in H.
  destruct (v !! S i) as [iy|] eqn:Ey; [|done]; cbn [mbind option_bind] in H.
  destruct (icarry off ix iy) as [[ix' iy']|] eqn:Ec; [|done]; cbn [mbind option_bind] in H; injection H as <-.
  destruct (within_lookup s v i ix Hs Ex) as (x & Hx & Bx); destruct (within_lookup s v (S i) iy Hs Ey) as (y & Hy & By).
  destruct (icarry_sound off carry x y ix iy ix' iy' Ho Hc Bx By Ec) as (c & E & Bx' & By').
  unfold carry_at; rewrite Hx, Hy; cbn [mbind option_bind]; rewrite E; cbn [mbind option_bind].
  eexists; split; [reflexivity|]; split; [by repeat apply within_insert|by apply insert_insert_value].
Qed.

(** The multiple of [L] that a fold subtracts. *)
Definition fold_amount (op : limb_op) (s : list Z) : Z :=
  match op with
  | Fold => nth (length s - 1) s 0 * 2 ^ (21 * Z.of_nat (length s - 13))
  | _ => 0
  end.

Ltac fold_step := match goal with
  | Hs : within ?s ?v, H : (iupd ?i (imac ?iy ?k) ?v ≫= _) = Some _, Hy : inb ?y ?iy |- _ =>
    let v' := fresh "v" in let E := fresh "E" in let x := fresh "x" in let Ex := fresh "Ex" in
    let Eu := fresh "Eu" in let Hs' := fresh "Hs" in
    destruct (iupd i (imac iy k) v) as [v'|] eqn:E; [|done]; cbn [mbind option_bind] in H;
    destruct (upd_sound (fun x => mac x y k) (imac iy k) (fun x => x + y * k) i s v v')
      as (x & Ex & Eu & Hs'); [intros ? ? ? ? ?; by eapply imac_sound|exact Hs|exact E|];
    rewrite Eu; cbn [mbind option_bind]; clear E Eu Hs
  | Hs : within ?s ?v, H : (iupd ?i (imsb ?iy ?k) ?v ≫= _) = Some _, Hy : inb ?y ?iy |- _ =>
    let v' := fresh "v" in let E := fresh "E" in let x := fresh "x" in let Ex := fresh "Ex" in
    let Eu := fresh "Eu" in let Hs' := fresh "Hs" in
    destruct (iupd i (imsb iy k) v) as [v'|] eqn:E; [|done]; cbn [mbind option_bind] in H;
    destruct (upd_sound (fun x => msb x y k) (imsb iy k) (fun x => x - y * k) i s v v')
      as (x & Ex & Eu & Hs'); [intros ? ? ? ? ?; by eapply imsb_sound|exact Hs|exact E|];
    rewrite Eu; cbn [mbind option_bind]; clear E Eu Hs
  end.

Lemma fold_at_sound k y iy s v v' : inb y iy -> within s v -> ifold_at k iy v = Some v' ->
  exists s', fold_at k y s = Some s' /\ within s' v' /\ length s' = length s /\
    lval s' = lval s - y * 2 ^ (21 * Z.of_nat k) * (L - 2 ^ 252).
Proof.
  intros Hy Hs H; unfold ifold_at in H; unfold fold_at; do 5 fold_step.
  destruct (upd_sound (fun x => msb x y 683901) (imsb iy 683901) (fun x => x - y * 683901) (k + 5) _ v4 v'
    ltac:(intros ? ? ? ? ?; by eapply imsb_sound) Hs0 H) as (x4 & Ex4 & -> & Hs4).
  eexists; split; [reflexivity|]; split; [exact Hs4|]; rewrite !length_insert; split; [done|].
  rewrite (lval_insert _ _ _ _ Ex4), (lval_insert _ _ _ _ Ex3), (lval_insert _ _ _ _ Ex2),
    (lval_insert _ _ _ _ Ex1), (lval_insert _ _ _ _ Ex0), (lval_insert _ _ _ _ Ex).
  assert (Hp : forall j : nat, 2 ^ (21 * Z.of_nat (k + j)) = 2 ^ (21 * Z.of_nat k) * 2 ^ (21 * Z.of_nat j)).
  { intros j; rewrite <- Z.pow_add_r by lia; f_equal; lia. }
  rewrite !Hp; generalize (2 ^ (21 * Z.of_nat k)); intros w; unfold L; cbn [Z.of_nat Pos.of_succ_nat Pos.succ]; zpow_norm; lia.
Qed.

Lemma within_length s v : within s v -> length s = length v.
Proof. apply Forall2_length. Qed.

Lemma split_last (s : list Z) k y : length s = S k -> s !! k = Some y -> s = take k s ++ [y].
Proof. intros Hl Hy; rewrite <- (take_S_r _ _ _ Hy); rewrite take_ge; [done|lia]. Qed.

Lemma exec_sound op s v v' : within s v -> ianalyse op v = Some v' ->
  exists s', exec op s = Some s' /\ within s' v' /\ lval s' = lval s - fold_amount op s * L.
Proof.
  intros Hs H; destruct op as [i|i| |]; cbn [ianalyse exec fold_amount] in *.
  - destruct (carry_at_sound (2 ^ 20) (carry_round 21) i s v v' ltac:(done) carry_round_form Hs H) as (s' & E & Hs' & Ev).
    exists s'; split_and!; [done..|lia].
  - destruct (carry_at_sound 0 (carry_floor 64 21) i s v v' ltac:(done) carry_floor_form Hs H) as (s' & E & Hs' & Ev).
    exists s'; split_and!; [done..|lia].
  - pose proof (within_length s v Hs) as Hl; rewrite Hl.
    destruct (Nat.leb_spec 13 (length v)) as [H13|]; [|done]; cbv zeta in *.
    destruct (v !! (length v - 1)%nat) as [iy|] eqn:Ey; [|done]; cbn [mbind option_bind] in H.
    destruct (within_lookup s v _ iy Hs Ey) as (y & Hy & By); rewrite Hy; cbn [mbind option_bind].
    destruct (fold_at_sound (length v - 1 - 12) y iy (take (length v - 1) s) (take (length v - 1) v) v' By)
      as (s' & E & Hs' & Hl' & Ev); [by apply Forall2_take|done|].
    exists s'; split_and!; [done..|]; rewrite (nth_lookup_Some _ _ _ _ Hy), Ev.
    rewrite (split_last s (length v - 1) y ltac:(lia) Hy) at 2; rewrite lval_app, length_take_le by lia; cbn [lval].
    replace (21 * Z.of_nat (length v - 1)) with (252 + 21 * Z.of_nat (length v - 13)) by lia.
    replace (length v - 1 - 12)%nat with (length v - 13)%nat by lia.
    rewrite Z.pow_add_r by lia; ring.
  - injection H as <-; eexists; split; [reflexivity|]; split; [|rewrite lval_app; cbn [lval]; lia].
    apply Forall2_app; [done|]; apply Forall2_cons; split; [unfold inb; simpl; lia|done].
Qed.

Lemma run_sound ops s v v' : within s v -> analyse ops v = Some v' ->
  exists s' k, run ops s = Some s' /\ within s' v' /\ lval s' = lval s - k * L.
Proof.
  revert s v; induction ops as [|op ops IH]; intros s v Hs H; cbn [analyse run] in *.
  - injection H as <-; exists s, 0; split_and!; [done..|lia].
  - destruct (ianalyse op v) as [w|] eqn:E; [|done]; cbn [mbind option_bind] in H.
    destruct (exec_sound op s v w Hs E) as (s1 & -> & Hs1 & E1); cbn [mbind option_bind].
    destruct (IH s1 w Hs1 H) as (s' & k & -> & Hs' & E2); exists s', (fold_amount op s + k); split_and!; [done..|lia].
Qed.

Definition no_fold (op : limb_op) : bool := match op with Fold => false | _ => true end.

(** Carries keep the value itself. *)
Lemma run_exact ops s v v' : forallb no_fold ops = true -> within s v -> analyse ops v = Some v' ->
  exists s', run ops s = Some s' /\ within s' v' /\ lval s' = lval s.
Proof.
  revert s v; induction ops as [|op ops IH]; intros s v Hn Hs H; cbn [analyse run forallb] in *.
  - injection H as <-; by exists s.
  - apply andb_true_iff in Hn as [Hop Hn]; destruct (ianalyse op v) as [w|] eqn:E; [|done]; cbn [mbind option_bind] in H.
    destruct (exec_sound op s v w Hs E) as (s1 & -> & Hs1 & E1); cbn [mbind option_bind].
    destruct (IH s1 w Hn Hs1 H) as (s' & -> & Hs' & E2); exists s'; split_and!; [done..|].
    rewrite E2, E1; destruct op; cbn [fold_amount]; done || lia.
Qed.

Lemma run_app ops ops' s : run (ops ++ ops') s = (s ← run ops s; run ops' s).
Proof.
  revert s; induction ops as [|op ops IH]; intros s; cbn [app run]; [done|].
  destruct (exec op s); cbn [mbind option_bind]; [apply IH|done].
Qed.

Lemma lval_within s v : within s v -> lval (map fst v) <= lval s <= lval (map snd v).
Proof. induction 1 as [|x w s v Hx _ IH]; cbn [lval map]; [lia|]; unfold inb in Hx; lia. Qed.

(** ** The last reduction *)

Definition unit_itv : itv := (0, 2 ^ 21 - 1).

(** Thirteen limbs whose value is between [-2^252] and [2^252]. *)
Definition reducible (v : list itv) : bool :=
  (- 2 ^ 252 <? lval (map fst v)) && (lval (map snd v) <? 2 ^ 252) &&
  match analyse (floor_11 ++ [Floor 11]) v with
  | Some w => bool_decide (take 12 w = repeat unit_itv 12) && (length w =? 13)%nat
  | None => false
  end.

Lemma reduce_tail_spec s v : within s v -> reducible v = true ->
  exists s', run reduce_tail s = Some s' /\ length s' = 12%nat /\ within (take 11 s') (repeat unit_itv 11) /\
    lval s' = lval s mod L.
Proof.
  intros Hs; unfold reducible; rewrite !andb_true_iff, !Z.ltb_lt; intros [[Hlo Hhi] Hw].
  pose proof (lval_within s v Hs) as HV; case_match eqn:Ew; [|done]; rename l into w.
  rewrite andb_true_iff, bool_decide_eq_true, Nat.eqb_eq in Hw; destruct Hw as [Hw Hlw].
  destruct (run_exact (floor_11 ++ [Floor 11]) s v w eq_refl Hs Ew) as (s1 & E1 & Hs1 & V1).
  pose proof V1 as V1'.
  unfold reduce_tail; rewrite app_assoc, run_app, E1; cbn [mbind option_bind].
  pose proof (within_length s1 w Hs1) as Hl1.
  destruct (lookup_lt_is_Some_2 s1 12 ltac:(lia)) as [q Hq].
  assert (Hs12 : within (take 12 s1) (repeat unit_itv 12)) by (rewrite <- Hw; by apply Forall2_take).
  pose proof (lval_within _ _ Hs12) as HW; rewrite (split_last s1 12 q ltac:(lia) Hq), lval_app, length_take_le in V1 by lia.
  change (lval (map fst (repeat unit_itv 12))) with 0 in HW.
  replace (lval (map snd (repeat unit_itv 12))) with (2 ^ 252 - 1) in HW by (vm_compute; reflexivity).
  change (2 ^ (21 * Z.of_nat 12)) with (2 ^ 252) in V1; cbn [lval] in V1.
  assert (Hq01 : - 1 <= q <= 0) by (unfold L in *; zpow_norm; lia).
  assert (Hs1' : within s1 (repeat unit_itv 12 ++ [(-1, 0)])).
  { rewrite (split_last s1 12 q ltac:(lia) Hq); apply Forall2_app; [done|]; by apply Forall2_cons. }
  destruct (analyse ([Fold] ++ floor_11) (repeat unit_itv 12 ++ [(-1, 0)])) as [w2|] eqn:E2; [|by vm_compute in E2].
  cbn [app analyse] in E2; destruct (ianalyse Fold _) as [w1|] eqn:Ef; [|done]; cbn [mbind option_bind] in E2.
  destruct (exec_sound Fold s1 _ w1 Hs1' Ef) as (s2 & E3 & Hs2 & V2); rewrite run_app.
  cbn [run]; rewrite E3; cbn [mbind option_bind].
  destruct (run_exact floor_11 s2 w1 w2 eq_refl Hs2 E2) as (s3 & E4 & Hs3 & V3); exists s3; split; [exact E4|].
  assert (Hw2 : w2 = repeat unit_itv 11 ++ [(-1, 2097152)]).
  { vm_compute in Ef; injection Ef as <-; vm_compute in E2; injection E2 as <-; reflexivity. }
  rewrite Hw2 in Hs3; pose proof (within_length _ _ Hs3) as Hl3.
  split; [exact Hl3|]; split; [by apply (Forall2_take _ _ _ 11) in Hs3|].
  rewrite V3, V2; cbn [fold_amount]; rewrite Hl1, Hlw, (nth_lookup_Some _ _ _ _ Hq).
  change (2 ^ (21 * Z.of_nat (13 - 13))) with 1; apply (Z.mod_unique_pos _ _ q); [|lia].
  rewrite V1'; clear - V1 HW HV Hlo Hhi Hq01; assert (q = 0 \/ q = -1) as [-> | ->] by lia;
    unfold L; zpow_norm; lia.
Qed.

(** ** Loading *)

Lemma mask21_mod x : mask21 x = x mod 2 ^ 21.
Proof. unfold mask21; rewrite Z.land_comm; change 2097151 with (Z.ones 21); by rewrite Z.land_ones. Qed.

Lemma load_limb_3 s k j : Forall is_byte s -> (k + 2 < length s)%nat -> 0 <= j <= 3 ->
  mask21 (Z.shiftr (load_3 s k) j) = digit (le_val s) (8 * Z.of_nat k + j) 21.
Proof.
  intros Hs Hk Hj; rewrite load_3_digit, mask21_mod, Z.shiftr_div_pow2 by (done || lia).
  by rewrite <- (digit_digit (le_val s) (8 * Z.of_nat k) 24 j 21) by lia.
Qed.

Lemma load_limb_4 s k j : Forall is_byte s -> (k + 3 < length s)%nat -> 0 <= j <= 11 ->
  mask21 (Z.shiftr (load_4 s k) j) = digit (le_val s) (8 * Z.of_nat k + j) 21.
Proof.
  intros Hs Hk Hj; rewrite load_4_digit, mask21_mod, Z.shiftr_div_pow2 by (done || lia).
  by rewrite <- (digit_digit (le_val s) (8 * Z.of_nat k) 32 j 21) by lia.
Qed.

(** The last limb takes all the remaining bits. *)
Lemma load_limb_last s k j : Forall is_byte s -> (k + 3 < length s)%nat -> 0 <= j <= 11 ->
  Z.shiftr (load_4 s k) j = digit (le_val s) (8 * Z.of_nat k + j) (32 - j).
Proof.
  intros Hs Hk Hj; rewrite load_4_digit, Z.shiftr_div_pow2 by (done || lia).
  rewrite <- (digit_digit (le_val s) (8 * Z.of_nat k) 32 j (32 - j)) by lia.
  pose proof (digit_range (le_val s) (8 * Z.of_nat k) 32 ltac:(lia)) as Hr; unfold in_u in Hr.
  symmetry; apply Z.mod_small; pose proof (Z.pow_pos_nonneg 2 j).
  split; [apply Z.div_pos; lia|]; apply Z.div_lt_upper_bound; [lia|].
  rewrite <- Z.pow_add_r by lia; replace (j + (32 - j)) with 32 by lia; lia.
Qed.

Lemma shiftr_0 x : x = Z.shiftr x 0.
Proof. by rewrite Z.shiftr_0_r. Qed.

(** The limbs are the digits of the value in radix [2^21]. *)
Lemma load_limbs_digits s : length s = 32%nat -> Forall is_byte s ->
  load_limbs s = map (fun i => digit (le_val s) (21 * Z.of_nat i) 21) (seq 0 11) ++ [digit (le_val s) 231 25].
Proof.
  intros Hl Hs; unfold load_limbs; rewrite (shiftr_0 (load_3 s 0)), (shiftr_0 (load_3 s 21)).
  rewrite !load_limb_3, !load_limb_4, load_limb_last by (done || lia); reflexivity.
Qed.

Lemma load_limbs64_digits s : length s = 64%nat -> Forall is_byte s ->
  load_limbs64 s = map (fun i => digit (le_val s) (21 * Z.of_nat i) 21) (seq 0 23) ++ [digit (le_val s) 483 29].
Proof.
  intros Hl Hs; unfold load_limbs64.
  rewrite (shiftr_0 (load_3 s 0)), (shiftr_0 (load_3 s 21)), (shiftr_0 (load_3 s 42)).
  rewrite !load_limb_3, !load_limb_4, load_limb_last by (done || lia); reflexivity.
Qed.

Lemma digits_lval V n m : 0 <= m ->
  lval (map (fun i => digit V (21 * Z.of_nat i) 21) (seq 0 n) ++ [digit V (21 * Z.of_nat n) m])
  = digit V 0 (21 * Z.of_nat n + m).
Proof.
  intros Hm; rewrite lval_app, length_map, length_seq; cbn [lval].
  rewrite digit_split by lia; rewrite Z.add_0_l, Z.mul_0_r, Z.add_0_r; f_equal.
  induction n as [|n IH]; [unfold digit; by rewrite Z.mod_1_r|].
  rewrite seq_S, map_app, lval_app, length_map, length_seq, IH; cbn [map lval plus].
  replace (21 * Z.of_nat (S n)) with (21 * Z.of_nat n + 21) by lia; rewrite digit_split by lia.
  rewrite Z.mul_0_r, Z.add_0_r; done.
Qed.

Lemma load_limbs_value s : length s = 32%nat -> Forall is_byte s ->
  lval (load_limbs s) = le_val s /\ within (load_limbs s) (repeat unit_itv 11 ++ [(0, 2 ^ 25 - 1)]).
Proof.
  intros Hl Hs; rewrite load_limbs_digits by done; split.
  - etransitivity; [exact (digits_lval (le_val s) 11 25 ltac:(done))|]; apply digit_all.
    pose proof (le_val_range s Hs) as Hr; rewrite Hl in Hr; exact Hr.
  - assert (Hd : forall a n, 0 <= n -> inb (digit (le_val s) a n) (0, 2 ^ n - 1)).
    { intros a n Hn; pose proof (digit_range (le_val s) a n Hn); unfold in_u in *; split; simpl; lia. }
    cbn [seq map repeat app]; repeat (apply Forall2_cons; split; [apply Hd; done|]); apply Forall2_nil; done.
Qed.

Lemma load_limbs64_value s : length s = 64%nat -> Forall is_byte s ->
  lval (load_limbs64 s) = le_val s /\ within (load_limbs64 s) (repeat unit_itv 23 ++ [(0, 2 ^ 29 - 1)]).
Proof.
  intros Hl Hs; rewrite load_limbs64_digits by done; split.
  - etransitivity; [exact (digits_lval (le_val s) 23 29 ltac:(done))|]; apply digit_all.
    pose proof (le_val_range s Hs) as Hr; rewrite Hl in Hr; exact Hr.
  - assert (Hd : forall a n, 0 <= n -> inb (digit (le_val s) a n) (0, 2 ^ n - 1)).
    { intros a n Hn; pose proof (digit_range (le_val s) a n Hn); unfold in_u in *; split; simpl; lia. }
    cbn [seq map repeat app]; repeat (apply Forall2_cons; split; [apply Hd; done|]); apply Forall2_nil; done.
Qed.

(** ** Storing *)

Lemma digit_split3 V a b c : 0 <= a -> 0 <= b -> 0 <= c -> in_u (a + b + c) V ->
  V = digit V 0 a + 2 ^ a * digit V a b + 2 ^ (a + b) * digit V (a + b) c.
Proof.
  intros Ha Hb Hc HV; rewrite <- (digit_all V (a + b + c) HV) at 1.
  rewrite digit_split, digit_split, !Z.add_0_l by lia; done.
Qed.

Lemma store_bytes s0 s1 s2 s3 s4 s5 s6 s7 s8 s9 s10 s11 :
  in_u 21 s0 -> in_u 21 s1 -> in_u 21 s2 -> in_u 21 s3 -> in_u 21 s4 -> in_u 21 s5 -> in_u 21 s6 ->
  in_u 21 s7 -> in_u 21 s8 -> in_u 21 s9 -> in_u 21 s10 -> in_u 25 s11 ->
  store_limbs [s0; s1; s2; s3; s4; s5; s6; s7; s8; s9; s10; s11]
  = Some (le_bytes 32 (lval [s0; s1; s2; s3; s4; s5; s6; s7; s8; s9; s10; s11])).
Proof.
  intros H0 H1 H2 H3 H4 H5 H6 H7 H8 H9 H10 H11; unfold store_limbs; f_equal.
  match goal with |- ?l = _ =>
    rewrite <- (le_bytes_le_val l) by (repeat constructor; apply wrap_range; lia) end.
  change (length _) with 32%nat; f_equal; cbn [le_val lval]; unfold cut, join.
  rewrite !u8_shiftr, !u8_join by (lia || (eapply in_u_mono; [|eassumption]; lia)).
  pose proof (digit_split3 s0 8 8 5 ltac:(lia) ltac:(lia) ltac:(lia) H0) as E0.
  pose proof (digit_split4 s1 3 8 8 2 ltac:(lia) ltac:(lia) ltac:(lia) ltac:(lia) H1) as E1.
  pose proof (digit_split3 s2 6 8 7 ltac:(lia) ltac:(lia) ltac:(lia) H2) as E2.
  pose proof (digit_split4 s3 1 8 8 4 ltac:(lia) ltac:(lia) ltac:(lia) ltac:(lia) H3) as E3.
  pose proof (digit_split4 s4 4 8 8 1 ltac:(lia) ltac:(lia) ltac:(lia) ltac:(lia) H4) as E4.
  pose proof (digit_split3 s5 7 8 6 ltac:(lia) ltac:(lia) ltac:(lia) H5) as E5.
  pose proof (digit_split4 s6 2 8 8 3 ltac:(lia) ltac:(lia) ltac:(lia) ltac:(lia) H6) as E6.
  pose proof (digit_split3 s7 5 8 8 ltac:(lia) ltac:(lia) ltac:(lia) H7) as E7.
  pose proof (digit_split3 s8 8 8 5 ltac:(lia) ltac:(lia) ltac:(lia) H8) as E8.
  pose proof (digit_split4 s9 3 8 8 2 ltac:(lia) ltac:(lia) ltac:(lia) ltac:(lia) H9) as E9.
  pose proof (digit_split3 s10 6 8 7 ltac:(lia) ltac:(lia) ltac:(lia) H10) as E10.
  pose proof (digit_split4 s11 1 8 8 8 ltac:(lia) ltac:(lia) ltac:(lia) ltac:(lia) H11) as E11.
  clear - E0 E1 E2 E3 E4 E5 E6 E7 E8 E9 E10 E11; zlit_norm; zpow_norm; lia.
Qed.

Lemma store_limbs_spec s : length s = 12%nat -> within (take 11 s) (repeat unit_itv 11) -> 0 <= lval s < L ->
  store_limbs s = Some (le_bytes 32 (lval s)).
Proof.
  intros Hl Hw HV; do 12 (destruct s as [|? s]; [done|]); destruct s; [|done].
  assert (HL : L < 2 ^ 253) by done; cbn [take repeat] in Hw; unfold within in Hw.
  repeat match goal with H : Forall2 _ (_ :: _) (_ :: _) |- _ => apply Forall2_cons in H as [[? ?] H] end.
  unfold unit_itv in *; cbn [fst snd] in *; cbn [lval] in HV.
  apply store_bytes; unfold in_u; zpow_norm; lia.
Qed.

(** The shared ending of the scalar functions: the value modulo the group order, in 32 bytes. *)
Lemma finish_spec pre s v v1 : within s v -> analyse (pre ++ reduce_head) v = Some v1 -> reducible v1 = true ->
  finish pre s = Some (le_bytes 32 (lval s mod L)).
Proof.
  intros Hs Ha Hr; destruct (run_sound _ _ _ _ Hs Ha) as (s1 & k & E1 & Hs1 & V1).
  destruct (reduce_tail_spec s1 v1 Hs1 Hr) as (s2 & E2 & Hl & Hw & V2).
  unfold finish; rewrite app_assoc, run_app, E1; cbn [mbind option_bind]; rewrite E2; cbn [mbind option_bind].
  rewrite V1, <- Z.add_opp_r, <- Z.mul_opp_l, Z_mod_plus_full in V2.
  rewrite store_limbs_spec by (done || rewrite V2; apply Z.mod_pos_bound; done); by rewrite V2.
Qed.

(** ** The scalar functions *)

Definition scalar_bytes (s : list Z) : Prop := length s = 32%nat /\ Forall is_byte s.

Lemma lval_snoc_0 s : lval (s ++ [0]) = lval s.
Proof. rewrite lval_app; cbn [lval]; lia. Qed.

Lemma within_snoc_0 s v : within s v -> within (s ++ [0]) (v ++ [(0, 0)]).
Proof. intros H; apply Forall2_app; [done|]; repeat constructor; simpl; lia. Qed.

Lemma sc_reduce32_spec s : scalar_bytes s -> sc_reduce32 s = Some (le_bytes 32 (le_val s mod L)).
Proof.
  intros [Hl Hs]; destruct (load_limbs_value s Hl Hs) as [V W]; unfold sc_reduce32.
  erewrite finish_spec; [|apply within_snoc_0, W|vm_compute; reflexivity|vm_compute; reflexivity].
  by rewrite lval_snoc_0, V.
Qed.

Lemma sc_reduce_spec s : length s = 64%nat -> Forall is_byte s -> sc_reduce s = Some (le_bytes 32 (le_val s mod L)).
Proof.
  intros Hl Hs; destruct (load_limbs64_value s Hl Hs) as [V W]; unfold sc_reduce.
  erewrite finish_spec; [|apply W|vm_compute; reflexivity|vm_compute; reflexivity]; by rewrite V.
Qed.

(** A limb-wise sum or difference. *)
Lemma zip_limbs (f : Z -> Z -> Z) a b va vb v :
  Forall2 (fun '(wa, wb) w => forall x y, inb x wa -> inb y wb -> inb (f x y) w /\ fits w = true) (combine va vb) v ->
  within a va -> within b vb -> length a = length b ->
  (forall x y X Y, f (x + 2 ^ 21 * X) (y + 2 ^ 21 * Y) = f x y + 2 ^ 21 * f X Y) -> f 0 0 = 0 ->
  exists s, mapM (fun '(x, y) => ck64 (f x y)) (combine a b) = Some s /\ within s v /\ lval s = f (lval a) (lval b).
Proof.
  intros Hf Ha; revert b vb v Hf; induction Ha as [|x wa a va Hx Ha IH]; intros b vb v Hf Hb Hl Hlin H0.
  - destruct b; [|done]; cbn [combine] in Hf; inversion Hf; subst; exists []; cbn [lval mapM combine].
    split_and!; [done|constructor|done].
  - inversion Hb as [|y wb b' vb' Hy Hb']; subst; [done|]; cbn [combine] in Hf.
    inversion Hf as [|[? ?] w ? v' Hw Hf']; subst; destruct (Hw x y Hx Hy) as [Hi Hfit].
    destruct (IH b' vb' v' Hf' Hb' ltac:(simpl in Hl; lia) Hlin H0) as (s & E & Ws & Vs).
    exists (f x y :: s); cbn [combine mapM lval].
    rewrite (fits_ck w (f x y) Hfit Hi); cbn [mbind option_bind]; rewrite E; cbn [mbind option_bind mret option_ret].
    split_and!; [done|by constructor|]; rewrite Vs; symmetry; apply Hlin.
Qed.

Lemma sc_add_spec a b : scalar_bytes a -> scalar_bytes b ->
  sc_add a b = Some (le_bytes 32 ((le_val a + le_val b) mod L)).
Proof.
  intros [Hla Ha] [Hlb Hb]; destruct (load_limbs_value a Hla Ha) as [Va Wa], (load_limbs_value b Hlb Hb) as [Vb Wb].
  unshelve edestruct (fun H => zip_limbs Z.add _ _ _ _ (repeat (0, 2 ^ 22) 11 ++ [(0, 2 ^ 26)])
    H Wa Wb eq_refl ltac:(intros; ring) eq_refl) as (s & E & Ws & Vs).
  - cbn [repeat app combine]; repeat constructor; unfold inb, unit_itv in *; cbn [fst snd] in *; zpow_norm; lia.
  - unfold sc_add; rewrite E; cbn [mbind option_bind].
    erewrite finish_spec; [|apply within_snoc_0, Ws|vm_compute; reflexivity|vm_compute; reflexivity].
    by rewrite lval_snoc_0, Vs, Va, Vb.
Qed.

Lemma sc_sub_spec a b : scalar_bytes a -> scalar_bytes b ->
  sc_sub a b = Some (le_bytes 32 ((le_val a - le_val b) mod L)).
Proof.
  intros [Hla Ha] [Hlb Hb]; destruct (load_limbs_value a Hla Ha) as [Va Wa], (load_limbs_value b Hlb Hb) as [Vb Wb].
  unshelve edestruct (fun H => zip_limbs Z.sub _ _ _ _ (repeat (- 2 ^ 21, 2 ^ 21) 11 ++ [(- 2 ^ 25, 2 ^ 25)])
    H Wa Wb eq_refl ltac:(intros; ring) eq_refl) as (s & E & Ws & Vs).
  - cbn [repeat app combine]; repeat constructor; unfold inb, unit_itv in *; cbn [fst snd] in *; zpow_norm; lia.
  - unfold sc_sub; rewrite E; cbn [mbind option_bind].
    erewrite finish_spec; [|apply within_snoc_0, Ws|vm_compute; reflexivity|vm_compute; reflexivity].
    by rewrite lval_snoc_0, Vs, Va, Vb.
Qed.

(** ** The product *)

Definition small (x : Z) : Prop := 0 <= x <= 2 ^ 25.

Lemma small_nth l i : Forall small l -> small (nth i l 0).
Proof.
  intros H; destruct (nth_in_or_default i l 0) as [Hi| ->]; [|unfold small; lia].
  rewrite Forall_forall in H; by apply H, list_elem_of_In.
Qed.

Lemma dot_abs_small l : Forall (fun '(x, y) => small x /\ small y) l -> dot_abs l <= Z.of_nat (length l) * 2 ^ 50.
Proof.
  induction 1 as [|[x y] l [Hx Hy] _ IH]; cbn [length]; [done|]; unfold dot_abs in *; cbn [fold_right].
  unfold small in *; assert (Z.abs x * Z.abs y <= 2 ^ 25 * 2 ^ 25) by (apply Z.mul_le_mono_nonneg; lia).
  change (2 ^ 25 * 2 ^ 25) with (2 ^ 50) in *; lia.
Qed.

Lemma conv_small a b k : Forall small a -> Forall small b -> Forall (fun '(x, y) => small x /\ small y) (conv a b k).
Proof. intros Ha Hb; apply Forall_forall; intros [x y] (i & [= -> ->] & _)%list_elem_of_fmap; auto using small_nth. Qed.

Definition mulsub_val (a b c : list Z) (k : nat) : Z := nth k c 0 - dot (conv a b k).

Lemma conv_length a b k : In k (seq 0 23) -> (length (conv a b k) <= 12)%nat.
Proof.
  intros Hk; unfold conv; rewrite length_map; apply Nat.leb_le.
  assert (H : forallb (fun k => length (filter (fun i => (i < 12)%nat /\ (k - i < 12)%nat) (seq 0 (S k))) <=? 12)%nat
    (seq 0 23) = true) by (vm_compute; reflexivity).
  rewrite forallb_forall in H; by apply H.
Qed.

Lemma mulsub_limb_ok a b c k : Forall small a -> Forall small b -> Forall small c -> In k (seq 0 23) ->
  mulsub_limb a b c k = Some (mulsub_val a b c k) /\ inb (mulsub_val a b c k) (- 2 ^ 54, 2 ^ 54).
Proof.
  intros Ha Hb Hc Hk; unfold mulsub_limb, mulsub_val.
  pose proof (dot_abs_small _ (conv_small a b k Ha Hb)) as Hd; pose proof (conv_length a b k Hk) as Hl.
  pose proof (dot_le (conv a b k)) as Hv; pose proof (small_nth c k Hc) as Hn; unfold small in Hn.
  assert (Hf : inb (nth k c 0 - dot (conv a b k)) (- 2 ^ 54, 2 ^ 54)) by (split; cbn [fst snd]; zpow_norm; lia).
  split; [|done]; rewrite (dot64_ok _ (2 ^ 62)) by (zpow_norm; lia); cbn [mbind option_bind].
  rewrite nth_lookup in Hf |- *; destruct (c !! k) as [x|]; cbn [default from_option] in Hf |- *.
  - exact (fits_ck (- 2 ^ 54, 2 ^ 54) _ eq_refl Hf).
  - exact (fits_ck (- 2 ^ 54, 2 ^ 54) _ eq_refl Hf).
Qed.

Lemma mapM_map {A} (f : A -> option Z) (g : A -> Z) l : (forall x, In x l -> f x = Some (g x)) -> mapM f l = Some (map g l).
Proof.
  induction l as [|x l IH]; intros H; cbn [mapM map]; [done|].
  rewrite (H x) by (by left); cbn [mbind option_bind]; rewrite IH by (intros; apply H; by right); done.
Qed.

Lemma mulsub_value a b c : length a = 12%nat -> length b = 12%nat -> length c = 12%nat ->
  lval (map (mulsub_val a b c) (seq 0 23)) = lval c - lval a * lval b.
Proof.
  intros Ha Hb Hc; do 12 (destruct a as [|? a]; [done|]; destruct b as [|? b]; [done|]; destruct c as [|? c]; [done|]).
  destruct a, b, c; [|done..]; clear.
  cbv -[Z.add Z.mul Z.sub Z.pow Z.opp]; ring.
Qed.

Lemma load_limbs_small s : scalar_bytes s -> Forall small (load_limbs s).
Proof.
  intros [Hl Hs]; destruct (load_limbs_value s Hl Hs) as [_ W]; unfold load_limbs in *; unfold within in W.
  cbn [repeat app] in W; repeat (apply Forall2_cons in W as [[? ?] W]); unfold unit_itv in *; cbn [fst snd] in *.
  unfold small; repeat constructor; zpow_norm; lia.
Qed.

Lemma sc_mulsub_spec a b c : scalar_bytes a -> scalar_bytes b -> scalar_bytes c ->
  sc_mulsub a b c = Some (le_bytes 32 ((le_val c - le_val a * le_val b) mod L)).
Proof.
  intros Ha Hb Hc; pose proof (load_limbs_small a Ha) as Sa; pose proof (load_limbs_small b Hb) as Sb.
  pose proof (load_limbs_small c Hc) as Sc; unfold sc_mulsub.
  rewrite (mapM_map _ (mulsub_val (load_limbs a) (load_limbs b) (load_limbs c)))
    by (intros; by apply mulsub_limb_ok); cbn [mbind option_bind].
  assert (W : within (map (mulsub_val (load_limbs a) (load_limbs b) (load_limbs c)) (seq 0 23))
    (repeat (- 2 ^ 54, 2 ^ 54) 23)).
  { assert (Hi : forall k, In k (seq 0 23) ->
      inb (mulsub_val (load_limbs a) (load_limbs b) (load_limbs c) k) (- 2 ^ 54, 2 ^ 54))
      by (intros; by apply mulsub_limb_ok).
    clear - Hi; revert Hi; generalize (mulsub_val (load_limbs a) (load_limbs b) (load_limbs c)).
    intros g Hi; cbn [seq map repeat]; repeat (apply Forall2_cons; split; [apply Hi; simpl; tauto|]); by apply Forall2_nil. }
  erewrite finish_spec; [|apply within_snoc_0, W|vm_compute; reflexivity|vm_compute; reflexivity].
  rewrite lval_snoc_0, mulsub_value by done.
  destruct Ha as [Hla Ha], Hb as [Hlb Hb], Hc as [Hlc Hc].
  by rewrite (proj1 (load_limbs_value a Hla Ha)), (proj1 (load_limbs_value b Hlb Hb)), (proj1 (load_limbs_value c Hlc Hc)).
Qed.

(** ** The range check *)

Lemma signum_sgn x : Z.abs x < 2 ^ 63 -> signum x = Z.sgn x.
Proof.
  intros H; unfold signum; rewrite !Z.shiftr_div_pow2 by done.
  destruct (Z.lt_trichotomy x 0) as [Hx|[-> |Hx]]; [| done |].
  - rewrite (Z.div_small (- x)) by lia; rewrite (Z.sgn_neg x Hx).
    rewrite <- (Z.div_unique x (2 ^ 63) (-1) (x + 2 ^ 63)) by lia; lia.
  - rewrite (Z.div_small x) by lia; rewrite (Z.sgn_pos x Hx).
    rewrite <- (Z.div_unique (- x) (2 ^ 63) (-1) (- x + 2 ^ 63)) by lia; lia.
Qed.

(** The signs of the words weighted by powers of two have the sign of the difference. *)
Fixpoint sign_sum (l : list Z) : Z := match l with [] => 0 | x :: l => Z.sgn x + 2 * sign_sum l end.
Fixpoint word_sum (l : list Z) : Z := match l with [] => 0 | x :: l => x + 2 ^ 32 * word_sum l end.

Lemma sign_sum_sgn l : Forall (fun x => Z.abs x < 2 ^ 32) l ->
  Z.sgn (sign_sum l) = Z.sgn (word_sum l) /\ Z.abs (sign_sum l) < 2 ^ Z.of_nat (length l).
Proof.
  induction 1 as [|x l Hx _ [IH IB]]; cbn [sign_sum word_sum length]; [done|].
  rewrite Nat2Z.inj_succ, Z.pow_succ_r by lia; lia.
Qed.

Lemma words_value s : scalar_bytes s ->
  word_sum [digit (le_val s) 0 32; digit (le_val s) 32 32; digit (le_val s) 64 32; digit (le_val s) 96 32;
    digit (le_val s) 128 32; digit (le_val s) 160 32; digit (le_val s) 192 32; digit (le_val s) 224 32] = le_val s.
Proof.
  intros [Hl Hs]; pose proof (le_val_range s Hs) as Hr; rewrite Hl in Hr.
  transitivity (digit (le_val s) 0 256); [|exact (digit_all (le_val s) 256 Hr)]; cbn [word_sum].
  change 256 with (32 + (32 + (32 + (32 + (32 + (32 + (32 + 32))))))).
  repeat (rewrite digit_split by lia); rewrite !Z.add_0_l; zlit_norm; zpow_norm; ring.
Qed.

Lemma sc_check_spec s : scalar_bytes s -> sc_check s = if le_val s <? L then 0 else -1.
Proof.
  intros Hs; pose proof (words_value s Hs) as V; destruct Hs as [Hl Hs].
  unfold sc_check; rewrite !load_4_digit by (done || lia).
  change (8 * Z.of_nat 0) with 0; change (8 * Z.of_nat 4) with 32; change (8 * Z.of_nat 8) with 64;
    change (8 * Z.of_nat 12) with 96; change (8 * Z.of_nat 16) with 128; change (8 * Z.of_nat 20) with 160;
    change (8 * Z.of_nat 24) with 192; change (8 * Z.of_nat 28) with 224.
  cbn [word_sum] in V.
  assert (Hd : forall a, in_u 32 (digit (le_val s) a 32)) by (intros; apply digit_range; lia); unfold in_u in Hd.
  pose proof (sign_sum_sgn
    [1559614444 - digit (le_val s) 0 32; 1477600026 - digit (le_val s) 32 32;
     2734136534 - digit (le_val s) 64 32; 350157278 - digit (le_val s) 96 32;
     - digit (le_val s) 128 32; - digit (le_val s) 160 32;
     - digit (le_val s) 192 32; 268435456 - digit (le_val s) 224 32]) as [HS HB].
  { repeat constructor; match goal with |- context [digit ?v ?a ?n] => specialize (Hd a) end; zpow_norm; lia. }
  rewrite !signum_sgn by (match goal with |- context [digit ?v ?a ?n] => specialize (Hd a) end; zpow_norm; lia).
  rewrite !Z.shiftl_mul_pow2 by lia; cbn [sign_sum word_sum length] in HS, HB.
  match goal with |- s32 (Z.shiftr ?x 8) = _ => set (S := x) end.
  match type of HS with Z.sgn ?x = Z.sgn ?y => assert (ES : x = S) by (subst S; zpow_norm; ring); rewrite ES in HS, HB;
    assert (EV : y = L - 1 - le_val s) by (clear - V; unfold L; zpow_norm; lia) end.
  rewrite EV in HS; clearbody S; rewrite Z.shiftr_div_pow2 by done; change (2 ^ Z.of_nat 8) with 256 in HB.
  clear - HS HB; revert HS; generalize (le_val s) L; intros x l HS.
  destruct (Z.ltb_spec x l).
  - rewrite Z.div_small by (change (2 ^ 8) with 256; lia); done.
  - rewrite <- (Z.div_unique S (2 ^ 8) (-1) (S + 256)) by (zpow_norm; lia); done.
Qed.

Lemma lor_fold_0 l acc : Forall is_byte l -> is_byte acc ->
  is_byte (fold_left Z.lor l acc) /\ (fold_left Z.lor l acc = 0 <-> acc = 0 /\ le_val l = 0).
Proof.
  revert acc; induction l as [|x l IH]; intros acc Hl Ha; cbn [fold_left le_val]; [tauto|].
  apply Forall_cons in Hl as [Hx Hl]; destruct (IH (Z.lor acc x) Hl) as [B E].
  - by apply in_u_lor.
  - split; [done|]; rewrite E, Z.lor_eq_0_iff; pose proof (le_val_range l Hl); unfold in_u in *; lia.
Qed.

Lemma sc_isnonzero_spec s : scalar_bytes s -> sc_isnonzero s = if le_val s =? 0 then 0 else 1.
Proof.
  intros [Hl Hs]; unfold sc_isnonzero; destruct (lor_fold_0 s 0 Hs ltac:(unfold in_u; lia)) as [B E].
  unfold in_u in B; rewrite Z.shiftr_div_pow2 by done.
  destruct (Z.eqb_spec (le_val s) 0).
  - rewrite (proj2 E) by done; done.
  - assert (fold_left Z.lor s 0 <> 0) by tauto; rewrite Z.div_small by (zpow_norm; lia); done.
Qed.
(** C31. On any 32 bytes (64 for sc_reduce) the scalar functions overflow no
    64-bit limb and return the canonical 32 bytes of the reduction, sum,
    difference and c - a b modulo the group order; sc_check is 0 exactly below
    the group order and sc_isnonzero is 0 exactly on zero. *)
Theorem scalar_arithmetic_correct a b c w : scalar_bytes a -> scalar_bytes b -> scalar_bytes c ->
  length w = 64%nat -> Forall is_byte w ->
  sc_reduce32 a = Some (le_bytes 32 (le_val a mod L)) /\
  sc_reduce w = Some (le_bytes 32 (le_val w mod L)) /\
  sc_add a b = Some (le_bytes 32 ((le_val a + le_val b) mod L)) /\
  sc_sub a b = Some (le_bytes 32 ((le_val a - le_val b) mod L)) /\
  sc_mulsub a b c = Some (le_bytes 32 ((le_val c - le_val a * le_val b) mod L)) /\
  (sc_check a = 0 <-> le_val a < L) /\ (sc_isnonzero a = 0 <-> le_val a = 0).
Proof.
  intros Ha Hb Hc Lw Bw; rewrite sc_reduce32_spec, sc_reduce_spec, sc_add_spec, sc_sub_spec, sc_mulsub_spec by done.
  rewrite sc_check_spec, sc_isnonzero_spec by done; split_and!; try reflexivity.
  - destruct (Z.ltb_spec (le_val a) L); split; (done || lia).
  - destruct (Z.eqb_spec (le_val a) 0); split; (done || lia).
Qed.

Lemma scalar_arithmetic_correct_witness : sc_mulsub (repeat 255 32) (repeat 255 32) (repeat 0 32) =
  Some (le_bytes 32 ((le_val (repeat 0 32) - le_val (repeat 255 32) * le_val (repeat 255 32)) mod L)).
Proof.
  apply (scalar_arithmetic_correct (repeat 255 32) (repeat 255 32) (repeat 0 32) (repeat 0 64));
    try (split; [reflexivity|]); try reflexivity; apply (bool_decide_unpack _); vm_compute; exact I.
Defined.
End ScalarSpec.
