(* ===== verification/HashToPoint.v ===== *)
(** The map from field elements to points of the curve: ge_fromfe_frombytes_vartime of
    src/src/crypto/crypto-ops.c with its constants of crypto-ops-data.c. *)

From Stdlib Require Import Zmod Field.
From S2P Require Import Prelude.
From S2P Require Import Limbs.
From S2P Require Import Field.
From S2P Require Import FieldPow.
From S2P Require Import Group.
From S2P Require Import Curve.
From S2P Require Import Edwards.
From S2P Require Import PointCodec.

Module HashToPoint.

Import Limbs Field FieldPow Group Curve Edwards PointCodec.

(** ** The functions *)

Definition fe_ma2 : fe := Fe (-12721188) (-3529) 0 0 0 0 0 0 0 0.
Definition fe_ma : fe := Fe (-486662) 0 0 0 0 0 0 0 0 0.
Definition fe_fffb1 : fe :=
  Fe (-31702527) (-2466483) (-26106795) (-12203692) (-12169197) (-321052) 14850977 (-10296299) (-16929438) (-407568).
Definition fe_fffb2 : fe :=
  Fe 8166131 (-6741800) (-17040804) 3154616 21461005 1466302 (-30876704) (-6368709) 10503587 (-13363080).
Definition fe_fffb3 : fe :=
  Fe (-13620103) 14639558 4532995 7679154 16815101 (-15883539) (-22863840) (-14813421) 13716513 (-6477756).
Definition fe_fffb4 : fe :=
  Fe (-21786234) (-12173074) 21573800 4524538 (-4645904) 16204591 8012863 (-8444712) 3212926 6885324.

(** The block under [#if !defined(NDEBUG)]: 0 when the point is on the curve. *)
Definition fromfe_check (r : ge_p2) : option Z :=
  check_iz ← fe_invert (p2_Z r);
  check_x ← fe_mul (p2_X r) check_iz;
  check_y ← fe_mul (p2_Y r) check_iz;
  check_x ← fe_sq check_x;
  check_y ← fe_sq check_y;
  check_v ← fe_mul check_x check_y;
  check_v ← fe_mul fe_d check_v;
  check_v ← fe_add check_v check_x;
  check_v ← fe_sub check_v check_y;
  check_v ← fe_add check_v fe_1;
  fe_isnonzero check_v.

(** From the label [setsign]; a failed assertion is [None]. *)
Definition fromfe_setsign (sign : Z) (X z w : fe) : option ge_p2 :=
  n ← fe_isnegative X;
  X ← (if n =? sign then Some X else
    nz ← fe_isnonzero X;
    if nz =? 0 then None else fe_neg X);
  Z ← fe_add z w;
  Y ← fe_sub z w;
  X ← fe_mul X Z;
  c ← fromfe_check (Ge_p2 X Y Z);
  if c =? 0 then Some (Ge_p2 X Y Z) else None.

Definition fromfe_positive (X u z v w : fe) : option ge_p2 :=
  X ← fe_mul X u;
  z ← fe_mul z v;
  fromfe_setsign 0 X z w.

(** From the label [negative]. *)
Definition fromfe_negative (X x z w : fe) : option ge_p2 :=
  x ← fe_mul x fe_sqrtm1;
  y ← fe_sub w x;
  n ← fe_isnonzero y;
  X ← (if n =? 0 then fe_mul X fe_fffb4 else
    y ← fe_add w x;
    n ← fe_isnonzero y;
    if n =? 0 then fe_mul X fe_fffb3 else None);
  fromfe_setsign 1 X z w.

Definition fromfe_choose (X x z u v w : fe) : option ge_p2 :=
  y ← fe_sub w x;
  n ← fe_isnonzero y;
  if n =? 0 then X ← fe_mul X fe_fffb2; fromfe_positive X u z v w
  else
    y ← fe_add w x;
    n ← fe_isnonzero y;
    if n =? 0 then X ← fe_mul X fe_fffb1; fromfe_positive X u z v w
    else fromfe_negative X x z w.

Definition ge_fromfe_frombytes_vartime (s : list Z) : option ge_p2 :=
  u ← fe_frombytes_any s;
  v ← fe_sq2 u;
  w ← fe_add v fe_1;
  x ← fe_sq w;
  y ← fe_mul fe_ma2 v;
  x ← fe_add x y;
  X ← fe_divpowm1 w x;
  y ← fe_sq X;
  x ← fe_mul y x;
  fromfe_choose X x (fe_copy fe_ma) u v w.

(** ** The map over a curve with Montgomery coefficient [A] *)

Section Map.
#[local] Open Scope Zmod_scope.
Context {m : Z} `{EC : EdwardsCurve m}.
Add Field map_field : (Zmod.field_theory m ed_prime).
Context (A : Zmod m).
Hypothesis A_d : (A + (1 + 1)) * ed_d = (1 + 1) - A.
Hypothesis A_nz : A + (1 + 1) <> 0.
Hypothesis two_nonsquare : forall r : Zmod m, r * r <> 1 + 1.

(** Up to a fourth root of unity the candidate is a root of [u / v]. *)
Lemma root_candidate_fourth k (u v : Zmod m) : m = (8 * k + 5)%Z -> (0 <= k)%Z -> u <> 0 -> v <> 0 ->
  let c := root_candidate k u v in
  c * c * v = u \/ c * c * v = Zmod.opp u \/ c * c * v = ed_i * u \/ c * c * v = Zmod.opp (ed_i * u).
Proof.
  intros Hk Hk0 Hu Hv; cbv zeta; set (t := u * Zmod.pow v 7); set (s := Zmod.pow t (2 * k + 1)).
  assert (Ht : t <> 0).
  { unfold t; rewrite pow_7; repeat apply F_mul_nz; assumption. }
  assert (Hs : (s * s) * (s * s) = 1).
  { unfold s; rewrite <- !Zmod.pow_add_r_nonneg by lia.
    rewrite <- (Zmod.fermat_nz t Ht ed_prime); f_equal; lia. }
  assert (E : root_candidate k u v * root_candidate k u v * v = u * s).
  { assert (Es : s = t * (Zmod.pow t k * Zmod.pow t k)).
    { unfold s; replace (2 * k + 1)%Z with (1 + (k + k))%Z by lia.
      rewrite !Zmod.pow_add_r_nonneg, Zmod.pow_1_r by lia; ring. }
    rewrite Es; unfold root_candidate; rewrite pow_3; fold t.
    generalize (Zmod.pow t k); intros z; unfold t; rewrite pow_7; ring. }
  rewrite E; destruct (square_one _ Hs) as [H1|H1].
  - destruct (square_one s H1) as [-> | ->]; [left|right; left]; ring.
  - assert (H2 : (s - ed_i) * (s + ed_i) = 0).
    { transitivity (s * s - ed_i * ed_i); [ring|rewrite H1, ed_i_square; ring]. }
    apply F_integral in H2 as [H2|H2].
    + right; right; left; apply Zmod.sub_eq_0 in H2; rewrite H2; ring.
    + right; right; right; transitivity (u * (s + ed_i) - ed_i * u); [ring|rewrite H2; ring].
Qed.

Lemma map_w_nz (u : Zmod m) : (1 + 1) * (u * u) + 1 <> 0.
Proof.
  intros E; apply (two_nonsquare ((1 + 1) * u * ed_i)).
  transitivity ((1 + 1) * ((1 + 1) * (u * u)) * (ed_i * ed_i)); [ring|].
  rewrite ed_i_square; transitivity ((1 + 1) - (1 + 1) * ((1 + 1) * (u * u) + 1)); [ring|rewrite E; ring].
Qed.

Lemma map_x_nz (u w : Zmod m) : w <> 0 -> A <> 0 -> w * w - A * A * ((1 + 1) * (u * u)) <> 0.
Proof.
  intros Hw HA E; destruct (decide (u = 0)) as [Hu|Hu].
  - apply (F_mul_nz w w Hw Hw); etransitivity; [|exact E]; rewrite Hu; ring.
  - apply (two_nonsquare (w / (A * u))).
    transitivity ((w * w - A * A * ((1 + 1) * (u * u))) / (A * u * (A * u)) + (1 + 1)); [|rewrite E]; field; auto.
Qed.

(** A solution of the Montgomery equation, in the form of the code, is a point. *)
Lemma map_point (X z w : Zmod m) : w <> 0 ->
  Zmod.opp (z * w * (A + (1 + 1))) = X * X * (z * z + w * w + A * z * w) ->
  z + w <> 0 /\ exists P : Curve.point, rep2 P (X * (z + w)) (z - w) (z + w).
Proof.
  intros Hw E; assert (HZ : z + w <> 0).
  { intros Hz; assert (Ez : z = Zmod.opp w) by (transitivity (z + w - w); [ring|rewrite Hz; ring]).
    assert (E1 : (w * w * (A + (1 + 1))) * 1 = (w * w * (A + (1 + 1))) * (X * X * ed_d)).
    { transitivity (Zmod.opp (z * w * (A + (1 + 1)))); [rewrite Ez; ring|].
      rewrite E, Ez; transitivity (X * X * (w * w) * ((1 + 1) - A)); [ring|rewrite <- A_d; ring]. }
    apply F_cancel_l in E1; [|repeat apply F_mul_nz; assumption].
    assert (HX : X <> 0).
    { intros HX; apply F_1_nz; rewrite E1, HX; ring. }
    apply (ed_d_nonsquare (1 / X)); transitivity (1 / (X * X)); [field; assumption|].
    transitivity ((X * X * ed_d) / (X * X)); [by rewrite <- E1|field; assumption]. }
  split; [exact HZ|].
  assert (Hc : on_curve X ((z - w) / (z + w))).
  { apply on_curve_iff; unfold curve_u, curve_v.
    apply (F_cancel_l ((A + (1 + 1)) * ((z + w) * (z + w)))); [repeat apply F_mul_nz; assumption|].
    transitivity (((A + (1 + 1)) * ed_d * ((z - w) * (z - w)) + (A + (1 + 1)) * ((z + w) * (z + w))) * (X * X));
      [field; assumption|].
    rewrite A_d; transitivity ((1 + 1) * (1 + 1) * (X * X * (z * z + w * w + A * z * w))); [ring|].
    rewrite <- E; field; assumption. }
  exists (point_of _ _ Hc); split_and!; [assumption|cbn [px py point_of]..].
  - reflexivity.
  - field; assumption.
Qed.
End Map.

(** ** The constants *)

#[local] Open Scope Zmod_scope.

Definition A25519 : Zmod p := Zmod.of_Z p 486662.

Lemma two_F : (1 + 1 : Zmod p) = Zmod.of_Z p 2.
Proof. by rewrite <- Zmod.of_Z_1, <- Zmod.of_Z_add. Qed.

#[local] Transparent fv.

(** An equation between values of constants, by evaluation modulo [p]. *)
Ltac fv_eval := unfold fv, A25519; rewrite ?two_F;
  repeat (rewrite <- Zmod.of_Z_mul || rewrite <- Zmod.of_Z_add || rewrite <- Zmod.of_Z_sub || rewrite <- Zmod.of_Z_opp);
  apply eqp_F, eqp_mod_iff; vm_compute; reflexivity.

Lemma fv_ma : fv fe_ma = Zmod.opp A25519.
Proof. fv_eval. Qed.
Lemma fv_ma2 : fv fe_ma2 = Zmod.opp (A25519 * A25519).
Proof. fv_eval. Qed.
Lemma fv_fffb1 : fv fe_fffb1 * fv fe_fffb1 = Zmod.opp ((1 + 1) * A25519 * (A25519 + (1 + 1))).
Proof. fv_eval. Qed.
Lemma fv_fffb2 : fv fe_fffb2 * fv fe_fffb2 = (1 + 1) * A25519 * (A25519 + (1 + 1)).
Proof. fv_eval. Qed.
Lemma fv_fffb3 : fv fe_fffb3 * fv fe_fffb3 = Zmod.opp (fv fe_sqrtm1 * A25519 * (A25519 + (1 + 1))).
Proof. fv_eval. Qed.
Lemma fv_fffb4 : fv fe_fffb4 * fv fe_fffb4 = fv fe_sqrtm1 * A25519 * (A25519 + (1 + 1)).
Proof. fv_eval. Qed.
Lemma A_d_25519 : (A25519 + (1 + 1)) * fv fe_d = (1 + 1) - A25519.
Proof. fv_eval. Qed.

Lemma A_nz_25519 : A25519 <> 0 /\ A25519 + (1 + 1) <> 0.
Proof.
  rewrite two_F; unfold A25519; rewrite <- Zmod.of_Z_add.
  split; apply Zmod.of_Z_nz; vm_compute; discriminate.
Qed.

Lemma two_nonsquare_25519 (r : Zmod p) : r * r <> 1 + 1.
Proof. rewrite two_F; apply nonsquare; vm_compute; reflexivity. Qed.
#[global] Opaque fv.

(** ** The functions map to the curve *)

(** The output: [Y] and [Z] are sums and not yet carried. *)
Definition p2_wide (h : ge_p2) (P : point) : Prop :=
  fe_le tight (p2_X h) /\ fe_le 33889977 (p2_Y h) /\ fe_le 33889977 (p2_Z h) /\
  rep2 P (fv (p2_X h)) (fv (p2_Y h)) (fv (p2_Z h)).

Lemma ge_mul8_wide h P : p2_wide h P -> exists r, ge_mul8 h = Some r /\ p1p1_rep r (zmul 8 P).
Proof.
  intros (LX & LY & LZ & HP); unfold ge_mul8.
  assert (Hd : exists r, ge_p2_dbl h = Some r /\ p1p1_rep r (zmul 2 P)).
  { unfold ge_p2_dbl; do 9 fe_step; rep_done; rewrite zmul_2; by apply dbl_proj. }
  destruct Hd as (r & E & R); rewrite E; cbn [mbind option_bind]; clear E.
  do 4 ge_step; eexists; split; [reflexivity|]; by rewrite <- !zmul_mul in *.
Qed.

Lemma fromfe_check_ok r P : p2_wide r P -> fromfe_check r = Some 0%Z.
Proof.
  intros (LX & LY & LZ & HP); pose proof fe_d_le; pose proof (fe_1_le 1 eq_refl); unfold fromfe_check.
  destruct (fe_invert_F 33889977 _ eq_refl LZ (proj1 HP)) as (iz & E & Li & Vi); rewrite E; clear E; cbn [mbind option_bind].
  do 9 fe_step; rewrite fe_isnonzero_F by le_done; rewrite decide_True; [done|].
  destruct (rep2_affine _ _ _ _ HP) as [EX EY]; pose proof (point_on P) as HC; unfold on_curve in HC.
  repeat match goal with V : fv _ = _ |- _ => rewrite V; clear V end; rewrite EX, EY, fv_1.
  change ed_d with (fv fe_d) in HC; transitivity (1 + fv fe_d * px P * px P * py P * py P - (py P * py P - px P * px P)).
  - ring.
  - rewrite HC; ring.
Qed.

(** The equation of the code's comments, [X = sqrt(...)], for the Montgomery [z / w]. *)
Definition mont_eq (X z w : Zmod p) : Prop :=
  Zmod.opp (z * w * (A25519 + (1 + 1))) = X * X * (z * z + w * w + A25519 * z * w).

Lemma mont_eq_opp X z w : mont_eq X z w -> mont_eq (Zmod.opp X) z w.
Proof. unfold mont_eq; intros ->; ring. Qed.

Lemma fromfe_point X z w : fe_le tight X -> fe_le tight z -> fe_le 16944989 w ->
  fv w <> 0 -> mont_eq (fv X) (fv z) (fv w) ->
  exists r P, (Z ← fe_add z w; Y ← fe_sub z w; X ← fe_mul X Z; c ← fromfe_check (Ge_p2 X Y Z);
    if (c =? 0)%Z then Some (Ge_p2 X Y Z) else None) = Some r /\ p2_wide r P.
Proof.
  intros LX Lz Lw Hw HM.
  destruct (map_point (EC := ed25519) A25519 A_d_25519 (proj2 A_nz_25519) _ _ _ Hw HM) as (HZ & P & HP).
  do 3 fe_step.
  assert (HR : p2_wide (Ge_p2 h0 h1 h) P).
  { unfold p2_wide; cbn [p2_X p2_Y p2_Z]; rewrite V0, V1, V.
    split; [le_done|split; [le_done|split; [le_done|exact HP]]]. }
  rewrite (fromfe_check_ok _ P HR); cbn [mbind option_bind Z.eqb]; exists (Ge_p2 h0 h1 h), P; split; [reflexivity|exact HR].
Qed.

Lemma fromfe_setsign_spec sign X z w : sign = 0%Z \/ sign = 1%Z -> fe_le tight X -> fe_le tight z -> fe_le 16944989 w ->
  fv w <> 0 -> mont_eq (fv X) (fv z) (fv w) -> (sign = 1%Z -> fv X <> 0) ->
  exists r P, fromfe_setsign sign X z w = Some r /\ p2_wide r P.
Proof.
  intros Hs LX Lz Lw Hw HM HN; unfold fromfe_setsign; rewrite fe_isnegative_F, fe_isnonzero_F by le_done.
  cbn [mbind option_bind]; destruct (Z.eqb_spec (Zmod.to_Z (fv X) mod 2)%Z sign) as [E|E]; cbn [mbind option_bind].
  { apply fromfe_point; assumption. }
  rewrite decide_False; cbn [Z.eqb].
  - destruct (fe_neg_F tight X eq_refl LX) as (X' & EX & LX' & VX); rewrite EX; cbn [mbind option_bind].
    apply fromfe_point; try assumption; rewrite VX; by apply mont_eq_opp.
  - intros HX; destruct Hs as [-> | ->]; [|exact (HN eq_refl HX)].
    apply E; rewrite HX, Zmod.unsigned_0; reflexivity.
Qed.

Lemma fromfe_positive_spec X u z v w : fe_le tight X -> fe_le tight u -> fe_le tight z -> fe_le tight v ->
  fe_le 16944989 w -> fv w <> 0 -> mont_eq (fv X * fv u) (fv z * fv v) (fv w) ->
  exists r P, fromfe_positive X u z v w = Some r /\ p2_wide r P.
Proof.
  intros LX Lu Lz Lv Lw Hw HM; unfold fromfe_positive; do 2 fe_step.
  apply fromfe_setsign_spec; try assumption; [by left|by rewrite V, V0|done].
Qed.


(** The values of the variables of the code: [x0] is [x] before its last assignment. *)
Record map_vals (c x0 u v w z x : Zmod p) : Prop := {
  mv_v : v = (1 + 1) * (u * u);
  mv_w : w = v + 1;
  mv_x0 : x0 = w * w - A25519 * A25519 * v;
  mv_z : z = Zmod.opp A25519;
  mv_x : x = c * c * x0;
  mv_nz : w <> 0;
}.

Lemma mont_pos c x0 u v w z x f : map_vals c x0 u v w z x -> f * f * x = (1 + 1) * A25519 * (A25519 + (1 + 1)) * w ->
  mont_eq (c * f * u) (z * v) w.
Proof.
  intros [Hv Hw Hx0 Hz Hx _] Hf; unfold mont_eq; symmetry.
  transitivity (u * u * (f * f * x)).
  - rewrite Hx, Hx0, Hz, Hw; ring.
  - rewrite Hf, Hz, Hv; ring.
Qed.

Lemma mont_neg c x0 u v w z x f : map_vals c x0 u v w z x -> f * f * x = A25519 * (A25519 + (1 + 1)) * w ->
  mont_eq (c * f) z w /\ c * f <> 0.
Proof.
  intros [Hv Hw Hx0 Hz Hx Hnz] Hf; split.
  - unfold mont_eq; symmetry; transitivity (f * f * x); [rewrite Hx, Hx0, Hz, Hw; ring|rewrite Hf, Hz; ring].
  - intros H0; destruct A_nz_25519 as [HA HA2].
    apply (F_mul_nz (A25519 * (A25519 + (1 + 1))) w); [exact (F_mul_nz _ _ HA HA2)|exact Hnz|].
    etransitivity; [symmetry; exact Hf|]; transitivity (c * f * (c * f) * x0); [rewrite Hx; ring|rewrite H0; ring].
Qed.

Lemma fffb_le : fe_le tight fe_ma /\ fe_le tight fe_ma2 /\ fe_le 33554432 fe_fffb1 /\ fe_le 33554432 fe_fffb2 /\
  fe_le 33554432 fe_fffb3 /\ fe_le 33554432 fe_fffb4.
Proof. unfold fe_le, tight, fe_ma, fe_ma2, fe_fffb1, fe_fffb2, fe_fffb3, fe_fffb4; lia. Qed.

Lemma fromfe_negative_spec X x z u v w x0 : fe_le tight X -> fe_le tight x -> fe_le tight z -> fe_le 16944989 w ->
  map_vals (fv X) x0 u v (fv w) (fv z) (fv x) ->
  fv x = fv fe_sqrtm1 * fv w \/ fv x = Zmod.opp (fv fe_sqrtm1 * fv w) ->
  exists r P, fromfe_negative X x z w = Some r /\ p2_wide r P.
Proof.
  intros LX Lx Lz Lw HM Hx; destruct fffb_le as (_ & _ & _ & _ & L3 & L4); pose proof fe_sqrtm1_le.
  pose proof (mv_nz _ _ _ _ _ _ _ HM) as Hw; pose proof sqrtm1_square as Hi.
  unfold fromfe_negative; do 3 fe_step; rewrite !fe_isnonzero_F by le_done; cbn [mbind option_bind].
  assert (Hpm : fv h = fv w \/ fv h = Zmod.opp (fv w)).
  { rewrite V; destruct Hx as [-> | ->]; [right|left].
    - transitivity (fv fe_sqrtm1 * fv fe_sqrtm1 * fv w); [ring|rewrite Hi; ring].
    - transitivity (Zmod.opp (fv fe_sqrtm1 * fv fe_sqrtm1 * fv w)); [ring|rewrite Hi; ring]. }
  assert (Hxi : fv x = Zmod.opp (fv fe_sqrtm1 * fv h)).
  { rewrite V; transitivity (Zmod.opp (fv fe_sqrtm1 * fv fe_sqrtm1) * fv x); [rewrite Hi; ring|ring]. }
  destruct (decide (fv h1 = 0)) as [E|E]; cbn [Z.eqb mbind option_bind].
  - rewrite V1 in E; apply Zmod.sub_eq_0 in E.
    destruct (fe_mul_F tight 33554432 X fe_fffb4 eq_refl eq_refl LX L4) as (X' & EX & LX' & VX); rewrite EX.
    destruct (mont_neg _ _ _ _ _ _ _ (fv fe_fffb4) HM) as [H1 H2].
    { rewrite fv_fffb4, Hxi, <- E.
      transitivity (Zmod.opp (fv fe_sqrtm1 * fv fe_sqrtm1) * A25519 * (A25519 + (1 + 1)) * fv w); [ring|rewrite Hi; ring]. }
    apply fromfe_setsign_spec; try assumption; [by right|rewrite VX; exact H1|rewrite VX; intros _; exact H2].
  - destruct Hpm as [Hpm|Hpm]; [exfalso; apply E; rewrite V1, Hpm; ring|].
    rewrite decide_True by (rewrite V0, Hpm; ring); cbn [Z.eqb].
    destruct (fe_mul_F tight 33554432 X fe_fffb3 eq_refl eq_refl LX L3) as (X' & EX & LX' & VX); rewrite EX.
    destruct (mont_neg _ _ _ _ _ _ _ (fv fe_fffb3) HM) as [H1 H2].
    { rewrite fv_fffb3, Hxi, Hpm.
      transitivity (Zmod.opp (fv fe_sqrtm1 * fv fe_sqrtm1) * A25519 * (A25519 + (1 + 1)) * fv w); [ring|rewrite Hi; ring]. }
    apply fromfe_setsign_spec; try assumption; [by right|rewrite VX; exact H1|rewrite VX; intros _; exact H2].
Qed.

Lemma fromfe_choose_spec X x z u v w x0 : fe_le tight X -> fe_le tight x -> fe_le tight z -> fe_le tight u ->
  fe_le tight v -> fe_le 16944989 w -> map_vals (fv X) x0 (fv u) (fv v) (fv w) (fv z) (fv x) ->
  fv x = fv w \/ fv x = Zmod.opp (fv w) \/ fv x = fv fe_sqrtm1 * fv w \/ fv x = Zmod.opp (fv fe_sqrtm1 * fv w) ->
  exists r P, fromfe_choose X x z u v w = Some r /\ p2_wide r P.
Proof.
  intros LX Lx Lz Lu Lv Lw HM Hx; destruct fffb_le as (_ & _ & L1 & L2 & _ & _).
  pose proof (mv_nz _ _ _ _ _ _ _ HM) as Hw; unfold fromfe_choose.
  do 4 fe_step; rewrite !fe_isnonzero_F by le_done; cbn [mbind option_bind].
  destruct (decide (fv h2 = 0)) as [E|E]; cbn [Z.eqb].
  { rewrite V2 in E; apply Zmod.sub_eq_0 in E; apply fromfe_positive_spec; try assumption.
    rewrite V; apply (mont_pos _ _ _ _ _ _ _ _ HM); rewrite fv_fffb2, <- E; ring. }
  destruct (decide (fv h1 = 0)) as [E'|E']; cbn [Z.eqb].
  { rewrite V1 in E'; apply fromfe_positive_spec; try assumption.
    rewrite V0; apply (mont_pos _ _ _ _ _ _ _ _ HM); rewrite fv_fffb1.
    assert (Ex : fv x = Zmod.opp (fv w)) by (transitivity (fv w + fv x - fv w); [ring|rewrite E'; ring]).
    rewrite Ex; ring. }
  apply (fromfe_negative_spec X x z (fv u) (fv v) w x0); try assumption.
  destruct Hx as [Hx|[Hx|Hx]]; [exfalso; apply E; rewrite V2, Hx; ring|exfalso; apply E'; rewrite V1, Hx; ring|exact Hx].
Qed.

Lemma ge_fromfe_frombytes_vartime_spec s : length s = 32%nat -> Forall is_byte s ->
  exists r P, ge_fromfe_frombytes_vartime s = Some r /\ p2_wide r P.
Proof.
  intros Hl Hs; destruct (fe_frombytes_any_spec s Hl Hs) as (u & Eu & Lu & _); unfold ge_fromfe_frombytes_vartime.
  rewrite Eu; cbn [mbind option_bind]; destruct fffb_le as (LA & LA2 & _); pose proof (fe_1_le 1 eq_refl); clear Eu.
  do 5 fe_step.
  destruct (fe_divpowm1_F 16944989 33889976 h1 h3) as (X & E & LX & VX); [reflexivity|reflexivity|assumption..|].
  rewrite E; clear E; cbn [mbind option_bind]; do 2 fe_step.
  rewrite fv_1 in V1; rewrite V2, V0, fv_ma2 in V3.
  assert (Hw : fv h1 <> 0).
  { rewrite V1, V; exact (map_w_nz (EC := ed25519) two_nonsquare_25519 _). }
  assert (Ex : fv h3 = fv h1 * fv h1 - A25519 * A25519 * fv h) by (rewrite V3; ring).
  assert (Hx : fv h3 <> 0).
  { rewrite Ex, V; exact (map_x_nz (EC := ed25519) A25519 two_nonsquare_25519 _ _ Hw (proj1 A_nz_25519)). }
  apply (fromfe_choose_spec _ _ _ _ _ _ (fv h3)); try assumption.
  - split; [exact V|exact V1|exact Ex|exact fv_ma|rewrite V5, V4; reflexivity|exact Hw].
  - rewrite V5, V4, VX.
    exact (root_candidate_fourth (EC := ed25519) root_exp _ _ eq_refl ltac:(vm_compute; discriminate) Hw Hx).
Qed.

(** ge_fromfe_frombytes_vartime maps every 32-byte string to a point of
    the curve: no assertion fails, the on-curve check of the debug build
    passes, and ge_mul8 turns the result into eight times that point. *)
Theorem hash_to_point_total s : length s = 32%nat -> Forall is_byte s ->
  exists r q t P, ge_fromfe_frombytes_vartime s = Some r /\ fromfe_check r = Some 0%Z /\
    ge_mul8 r = Some q /\ ge_p1p1_to_p3 q = Some t /\ p3_rep t (zmul 8 P) /\
    rep2 P (fv (p2_X r)) (fv (p2_Y r)) (fv (p2_Z r)).
Proof.
  intros Hl Hs; destruct (ge_fromfe_frombytes_vartime_spec s Hl Hs) as (r & P & Er & HP).
  destruct (ge_mul8_wide r P HP) as (q & Eq & Hq), (ge_p1p1_to_p3_spec q _ Hq) as (t & Et & Ht).
  exists r, q, t, P; do 5 (split; [assumption || exact (fromfe_check_ok r P HP)|]); apply HP.
Qed.

Lemma hash_to_point_total_witness : exists r q t P, ge_fromfe_frombytes_vartime (repeat 255%Z 32) = Some r /\
  fromfe_check r = Some 0%Z /\ ge_mul8 r = Some q /\ ge_p1p1_to_p3 q = Some t /\ p3_rep t (zmul 8 P) /\
  rep2 P (fv (p2_X r)) (fv (p2_Y r)) (fv (p2_Z r)).
Proof. apply hash_to_point_total; [reflexivity|repeat constructor; done]. Defined.
End HashToPoint.
