(* ===== verification/GroupOrder.v ===== *)
(** The order of the curve group: every point has an order dividing eight times the prime order
    of the base point of src/src/crypto/crypto-ops-data.c. *)

From Stdlib Require Import Znumtheory Zpow_facts Zmod Field Permutation.
From S2P Require Import Prelude.
From S2P Require Import Field.
From S2P Require Import Group.
From S2P Require Import Primes.
From S2P Require Import Curve.
From S2P Require Import Edwards.
From S2P Require Import PointCodec.
From S2P Require Import BasePoint.

Module GroupOrder.

Import Field Group Curve Edwards PointCodec BasePoint.

(** ** The order of the base point is prime *)

Section Certificates.
Import Primes.

Lemma prime_1224481 : prime 1224481.
Proof. pocklington_tac [2551]. Qed.
Lemma prime_531581 : prime 531581.
Proof. pocklington_tac [3797]. Qed.
Lemma prime_1257559732178653 : prime 1257559732178653.
Proof. pose proof prime_1224481; pose proof prime_531581; pocklington_tac [1224481; 531581]. Qed.
Lemma prime_4434155615661930479 : prime 4434155615661930479.
Proof. pose proof prime_1257559732178653; pocklington_tac [1257559732178653]. Qed.
Lemma prime_172054593956031949258510691 : prime 172054593956031949258510691.
Proof. pose proof prime_4434155615661930479; pocklington_tac [4434155615661930479]. Qed.
Lemma prime_19757330305831588566944191468367130476339 : prime 19757330305831588566944191468367130476339.
Proof. pose proof prime_172054593956031949258510691; pocklington_tac [172054593956031949258510691]. Qed.
Lemma prime_276602624281642239937218680557139826668747 : prime 276602624281642239937218680557139826668747.
Proof.
  pose proof prime_19757330305831588566944191468367130476339.
  pocklington_tac [19757330305831588566944191468367130476339].
Qed.

Lemma prime_group_order : prime group_order.
Proof.
  pose proof prime_276602624281642239937218680557139826668747.
  pocklington_tac [276602624281642239937218680557139826668747].
Qed.
End Certificates.

(** ** Finite abelian groups *)

Section Finite.
Context `{AbGroup G}.
Implicit Types (x : G) (l : list G).

Fixpoint gsum l : G := match l with [] => gzero | x :: l => x ⊕ gsum l end.

#[local] Instance gsum_perm : Proper ((≡ₚ) ==> (=)) gsum.
Proof.
  intros l l' Hp; induction Hp as [|x l l' _ IH|x y l|l1 l2 l3 _ IH1 _ IH2]; cbn [gsum]; [done|by rewrite <- IH| |congruence].
  by rewrite !gadd_assoc, (gadd_comm y).
Qed.

Lemma gsum_shift x l : gsum (map (gadd x) l) = zmul (Z.of_nat (length l)) x ⊕ gsum l.
Proof.
  induction l as [|y l IH]; cbn [map length gsum]; [by rewrite zmul_0, gadd_0_l|].
  rewrite Nat2Z.inj_succ, zmul_succ, IH; apply gadd_swap.
Qed.

#[local] Instance gadd_inj x : Inj (=) (=) (gadd x).
Proof. intros y z; apply gadd_cancel_l. Qed.

(** The number of elements annihilates the group: translation permutes the elements. *)
Lemma card_annihilates l x : NoDup l -> (forall y, y ∈ l) -> zmul (Z.of_nat (length l)) x = gzero.
Proof.
  intros Hl Hin; assert (Hp : map (gadd x) l ≡ₚ l).
  { apply NoDup_Permutation; [|done|].
    - by apply (NoDup_fmap_2 (gadd x)).
    - intros y; split; [done|intros _]; apply list_elem_of_fmap; exists (gopp x ⊕ y); split; [|done].
      by rewrite gadd_assoc, gadd_opp_r, gadd_0_l. }
  apply (gadd_cancel_r _ _ (gsum l)); by rewrite <- gsum_shift, gadd_0_l, Hp.
Qed.

Lemma zmul_gcd a b x : zmul a x = gzero -> zmul b x = gzero -> zmul (Z.gcd a b) x = gzero.
Proof.
  intros Ha Hb; destruct (Z.gcd_bezout a b _ eq_refl) as (u & v & <-).
  by rewrite zmul_add, !zmul_mul, Ha, Hb, !zmul_gzero, gadd_0_l.
Qed.

Lemma prime_order_divides q n x : prime q -> zmul q x = gzero -> x <> gzero -> zmul n x = gzero -> (q | n).
Proof.
  intros Hq Eq Hx En; destruct (Zdivide_dec q n) as [|Hn]; [done|exfalso; apply Hx].
  pose proof (zmul_gcd q n x Eq En) as E; apply (prime_rel_prime q Hq n), Zgcd_1_rel_prime in Hn.
  by rewrite Hn, zmul_1 in E.
Qed.

Lemma order_8_divides n x : zmul 8 x = gzero -> zmul 4 x <> gzero -> zmul n x = gzero -> (8 | n).
Proof.
  intros E8 N4 En; apply Zmod_divide; [done|].
  destruct (Z.eq_dec (n mod 8) 0) as [|Hn]; [done|exfalso; apply N4].
  assert (Hj : exists j, (j * n) mod 8 = 4).
  { destruct (Z.eq_dec (n mod 2) 1); [exists 4; Z.div_mod_to_equations; lia|].
    destruct (Z.eq_dec (n mod 4) 2); [exists 2|exists 1]; Z.div_mod_to_equations; lia. }
  destruct Hj as [j <-]; by rewrite (zmul_mod 8), zmul_mul, En, zmul_gzero.
Qed.
End Finite.

(** ** The points of a curve over a finite field are finitely many *)

Section Listing.
Context {m : Z} `{EC : EdwardsCurve m}.

Definition point_at (xy : Zmod m * Zmod m) : option Curve.point :=
  match decide (on_curve xy.1 xy.2) with left H => Some (point_of _ _ H) | right _ => None end.

#[local] Instance point_eq_dec : EqDecision Curve.point.
Proof.
  intros P Q; destruct (decide (px P = px Q)) as [Hx|Hx]; [|right; congruence].
  destruct (decide (py P = py Q)) as [Hy|Hy]; [left; by apply point_eq|right; congruence].
Defined.

Lemma points_listable : exists l : list Curve.point, NoDup l /\ forall P, P ∈ l.
Proof.
  assert (Hm : m <> 0) by (pose proof ed_odd; lia).
  exists (remove_dups (omap point_at (list_prod (Zmod.elements m) (Zmod.elements m)))).
  split; [apply NoDup_remove_dups|]; intros P; apply elem_of_remove_dups, list_elem_of_omap.
  exists (px P, py P); split.
  - apply list_elem_of_In, in_prod; by apply Zmod.in_elements.
  - unfold point_at; cbn [fst snd]; destruct (decide _) as [H|H]; [|by pose proof (point_on P)].
    f_equal; by apply point_eq.
Qed.
End Listing.

Lemma NoDup_range_length (l : list Z) n : NoDup l -> Forall (fun z => 0 <= z < n) l -> Z.of_nat (length l) <= Z.max 0 n.
Proof.
  intros Hl Hr; assert (Hs : (length l <= length (seqZ 0 n))%nat).
  { apply submseteq_length, NoDup_submseteq; [done|]; intros z Hz.
    rewrite Forall_forall in Hr; apply elem_of_seqZ; specialize (Hr z Hz); lia. }
  rewrite length_seqZ in Hs; lia.
Qed.

#[local] Instance encode_val_inj : Inj (=) (=) encode_val.
Proof. intros P Q E; apply encode_inj; unfold encode; by rewrite E. Qed.

(** A point of order eight. *)
Definition torsion_x : Z := 14399317868200118260347934320527232580618823971194345261214217575416788799818.
Definition torsion_y : Z := 55188659117513257062467267217118295137698188065244968500265048394206261417927.

Lemma torsion_on_curve : on_curve (zv torsion_x) (zv torsion_y).
Proof. apply (bool_decide_unpack _); vm_compute; exact I. Qed.
Definition torsion_point : point := point_of _ _ torsion_on_curve.

Lemma torsion_rep : rep2 torsion_point (zv torsion_x) (zv torsion_y) (zv 1).
Proof. rewrite zv_1; split_and!; [apply F_1_nz|cbn [torsion_point px py point_of]; by rewrite Zmod.mul_1_r..]. Qed.

(** The coordinates after [n] doublings, checked by evaluation. *)
Lemma torsion_dbl n (test : Z -> Z -> Z -> bool) :
  (let '(x, y, z) := dbl_n n torsion_x torsion_y 1 in test x y z) = true ->
  exists x y z, test x y z = true /\ rep2 (zmul (2 ^ Z.of_nat n) torsion_point) (zv x) (zv y) (zv z).
Proof.
  intros Ht; pose proof (dbl_n_sound n _ _ _ _ torsion_rep) as H.
  destruct (dbl_n n _ _ _) as [[x y] z]; exists x, y, z; split; assumption.
Qed.

Lemma torsion_8 : zmul 8 torsion_point = gzero.
Proof.
  destruct (torsion_dbl 3 (fun x y z => is_zero x && same y z)) as (x & y & z & Ht & H); [vm_compute; reflexivity|].
  apply andb_true_iff in Ht as [Hx%is_zero_sound Hy%same_sound].
  apply (rep2_eq _ _ _ _ _ _ _ _ H (rep3_rep2 _ _ _ _ _ rep3_zero)); [rewrite Hx|rewrite Hy]; ring.
Qed.

Lemma torsion_4 : zmul 4 torsion_point <> gzero.
Proof.
  destruct (torsion_dbl 2 (fun x y z => is_zero (y + z))) as (x & y & z & Ht%is_zero_sound & H); [vm_compute; reflexivity|].
  rewrite zv_add in Ht; change (2 ^ Z.of_nat 2) with 4 in H; intros E; rewrite E in H; destruct H as (Hz & _ & Hy).
  apply (F_mul_nz (1 + 1)%Zmod (zv z) F_2_nz Hz).
  transitivity (zv y + zv z)%Zmod; [rewrite Hy; cbn [gzero point_group pzero px py point_of]; ring|exact Ht].
Qed.

Lemma base_point_nz : base_point <> gzero.
Proof.
  intros E; apply (f_equal (fun P => Zmod.to_Z (py P))) in E; vm_compute in E; discriminate.
Qed.

(** There are [8 L] points. *)
Lemma curve_card l : NoDup l -> (forall P : point, P ∈ l) -> Z.of_nat (length l) = 8 * group_order.
Proof.
  intros Hl Hin; assert (Hann : forall P : point, zmul (Z.of_nat (length l)) P = gzero).
  { intros P; by apply card_annihilates. }
  assert (HL : (group_order | Z.of_nat (length l))).
  { apply (prime_order_divides _ _ base_point prime_group_order base_point_order base_point_nz), Hann. }
  assert (H8 : (8 | Z.of_nat (length l))).
  { apply (order_8_divides _ torsion_point torsion_8 torsion_4), Hann. }
  assert (Hle : Z.of_nat (length l) <= 2 ^ 256).
  { rewrite <- (length_map encode_val l); apply (NoDup_range_length _ (2 ^ 256)).
    - by apply (NoDup_fmap_2 encode_val).
    - apply Forall_forall; intros z (P & -> & _)%list_elem_of_fmap; apply encode_val_range. }
  assert (Hpos : (0 < length l)%nat) by (destruct l; [by specialize (Hin gzero); apply not_elem_of_nil in Hin|simpl; lia]).
  destruct H8 as [k Hk]; rewrite Hk, Z.mul_comm in HL; apply (Gauss group_order 8 k) in HL as [j Hj].
  - clear - Hk Hj Hle Hpos; unfold group_order in *; zpow_norm; nia.
  - apply prime_rel_prime; [exact prime_group_order|]; intros [j Hj]; unfold group_order in Hj; lia.
Qed.

(** Every point is annihilated by [8 L]. *)
Lemma curve_exponent (P : point) : zmul (8 * group_order) P = gzero.
Proof.
  destruct (points_listable (EC := ed25519)) as (l & Hl & Hin).
  rewrite <- (curve_card l Hl Hin); by apply card_annihilates.
Qed.
End GroupOrder.
