(* ===== verification/Crypto.v ===== *)
(** Keys, key derivation, signatures and ring signatures: src/src/crypto/crypto.cpp, over the
    arithmetic of crypto-ops.c and any hash with the [FastHash] interface. *)

From S2P Require Import Prelude.
From S2P Require Import Varint.
From S2P Require Import Keccak.
From S2P Require Import Edwards.
From S2P Require Import ScalarMult.
From S2P Require Import BasePoint.
From S2P Require Import DoubleScalarMult.
From S2P Require Import Scalar.
From S2P Require Import HashToPoint.

Module Crypto.

Import Varint Keccak Edwards ScalarMult BasePoint DoubleScalarMult Scalar HashToPoint.

(** [Some None] is the [return false] of a function that fills its last argument. *)
Notation "x ←? e ; k" := (e ≫= fun r => match r with None => Some None | Some x => k end)
  (at level 20, e at level 100, k at level 200, only parsing) : stdpp_scope.
(** [Some false] is the [return false] of a test. *)
Notation "x ←! e ; k" := (e ≫= fun r => match r with None => Some false | Some x => k end)
  (at level 20, e at level 100, k at level 200, only parsing) : stdpp_scope.

Section Crypto.
(** [cn_fast_hash], through its interface. *)
Context {FH : FastHash}.
(** Whether assertions are compiled out. *)
Context (ndebug : bool).

Definition assert_that (b : bool) : option unit := if ndebug || b then Some tt else None.

(** The 64 bytes that [Random::randomBytes] returns are an argument. *)
Definition random_scalar (tmp : list Z) : option (list Z) := sc_reduce tmp.

Definition hash_to_scalar (data : list Z) : option (list Z) := sc_reduce32 (cn_fast_hash data).

(** The keys are returned as the pair of the public and the secret key. *)
Definition generate_keys (tmp : list Z) : option (list Z * list Z) :=
  sec ← random_scalar tmp;
  point ← ge_scalarmult_base sec;
  pub ← ge_p3_tobytes point;
  Some (pub, sec).

Definition generate_deterministic_keys (second : list Z) : option (list Z * list Z) :=
  sec ← sc_reduce32 second;
  point ← ge_scalarmult_base sec;
  pub ← ge_p3_tobytes point;
  Some (pub, sec).

Definition generate_m_keys (tmp recovery_key : list Z) (recover : bool) : option (list Z * list Z * list Z) :=
  rng ← (if recover then Some recovery_key else random_scalar tmp);
  sec ← sc_reduce32 rng;
  point ← ge_scalarmult_base sec;
  pub ← ge_p3_tobytes point;
  Some (pub, sec, rng).

Definition check_key (key : list Z) : option bool :=
  _ ←! ge_frombytes_vartime key;
  Some true.

Definition secret_key_to_public_key (sec : list Z) : option (option (list Z)) :=
  if negb (sc_check sec =? 0) then Some None else
  point ← ge_scalarmult_base sec;
  pub ← ge_p3_tobytes point;
  Some (Some pub).

Definition generate_key_derivation (key1 key2 : list Z) : option (option (list Z)) :=
  _ ← assert_that (sc_check key2 =? 0);
  point ←? ge_frombytes_vartime key1;
  point2 ← ge_scalarmult key2 point;
  point3 ← ge_mul8 point2;
  point2 ← ge_p1p1_to_p2 point3;
  derivation ← ge_tobytes point2;
  Some (Some derivation).

(** [buf.output_index] has ten bytes; a longer varint leaves the buffer. *)
Definition derivation_to_scalar (derivation : list Z) (output_index : Z) : option (list Z) :=
  let index := write_varint output_index in
  if (length index <=? 10)%nat then hash_to_scalar (derivation ++ index) else None.

Definition derivation_to_scalar_suffix (derivation : list Z) (output_index : Z) (suffix : list Z) : option (list Z) :=
  _ ← assert_that (length suffix <=? 32)%nat;
  let index := write_varint output_index in
  if (length index + length suffix <=? 42)%nat then hash_to_scalar (derivation ++ index ++ suffix) else None.

(** The sum and the difference of a point and a multiple of the base point. *)
Definition add_base (point1 : ge_p3) (scalar : list Z) : option (list Z) :=
  point2 ← ge_scalarmult_base scalar;
  point3 ← ge_p3_to_cached point2;
  point4 ← ge_add point1 point3;
  point5 ← ge_p1p1_to_p2 point4;
  ge_tobytes point5.

Definition sub_base (point1 : ge_p3) (scalar : list Z) : option (list Z) :=
  point2 ← ge_scalarmult_base scalar;
  point3 ← ge_p3_to_cached point2;
  point4 ← ge_sub point1 point3;
  point5 ← ge_p1p1_to_p2 point4;
  ge_tobytes point5.

Definition derive_public_key (derivation : list Z) (output_index : Z) (base : list Z) : option (option (list Z)) :=
  point1 ←? ge_frombytes_vartime base;
  scalar ← derivation_to_scalar derivation output_index;
  derived_key ← add_base point1 scalar;
  Some (Some derived_key).

Definition derive_public_key_suffix (derivation : list Z) (output_index : Z) (base suffix : list Z) :
    option (option (list Z)) :=
  point1 ←? ge_frombytes_vartime base;
  scalar ← derivation_to_scalar_suffix derivation output_index suffix;
  derived_key ← add_base point1 scalar;
  Some (Some derived_key).

Definition underive_public_key_and_get_scalar (derivation : list Z) (output_index : Z) (derived_key : list Z) :
    option (option (list Z * list Z)) :=
  point1 ←? ge_frombytes_vartime derived_key;
  hashed_derivation ← derivation_to_scalar derivation output_index;
  base ← sub_base point1 hashed_derivation;
  Some (Some (base, hashed_derivation)).

Definition derive_secret_key (derivation : list Z) (output_index : Z) (base : list Z) : option (list Z) :=
  _ ← assert_that (sc_check base =? 0);
  scalar ← derivation_to_scalar derivation output_index;
  sc_add base scalar.

Definition derive_secret_key_suffix (derivation : list Z) (output_index : Z) (base suffix : list Z) : option (list Z) :=
  _ ← assert_that (sc_check base =? 0);
  scalar ← derivation_to_scalar_suffix derivation output_index suffix;
  sc_add base scalar.

Definition underive_public_key (derivation : list Z) (output_index : Z) (derived_key : list Z) :
    option (option (list Z)) :=
  point1 ←? ge_frombytes_vartime derived_key;
  scalar ← derivation_to_scalar derivation output_index;
  base ← sub_base point1 scalar;
  Some (Some base).

Definition underive_public_key_suffix (derivation : list Z) (output_index : Z) (derived_key suffix : list Z) :
    option (option (list Z)) :=
  point1 ←? ge_frombytes_vartime derived_key;
  scalar ← derivation_to_scalar_suffix derivation output_index suffix;
  base ← sub_base point1 scalar;
  Some (Some base).

(** ** Signatures *)

(** The two scalars of a signature. *)
Definition sig_c (sig : list Z) : list Z := take 32 sig.
Definition sig_r (sig : list Z) : list Z := drop 32 sig.

(** The fields of [s_comm] in memory order. *)
Definition s_comm (h key comm : list Z) : list Z := h ++ key ++ comm.

(** The block under [#if !defined(NDEBUG)]. *)
Definition assert_key_pair (pub sec : list Z) : option unit :=
  if ndebug then Some tt else
  _ ← assert_that (sc_check sec =? 0);
  t ← ge_scalarmult_base sec;
  t2 ← ge_p3_tobytes t;
  assert_that (bool_decide (pub = t2)).

Definition generate_signature (prefix_hash pub sec tmp : list Z) : option (list Z) :=
  _ ← assert_key_pair pub sec;
  k ← random_scalar tmp;
  tmp3 ← ge_scalarmult_base k;
  comm ← ge_p3_tobytes tmp3;
  c ← hash_to_scalar (s_comm prefix_hash pub comm);
  r ← sc_mulsub c sec k;
  Some (c ++ r).

Definition check_signature (prefix_hash pub sig : list Z) : option bool :=
  valid ← check_key pub;
  _ ← assert_that valid;
  tmp3 ←! ge_frombytes_vartime pub;
  if negb (sc_check (sig_c sig) =? 0) || negb (sc_check (sig_r sig) =? 0) then Some false else
  tmp2 ← ge_double_scalarmult_base_vartime (sig_c sig) tmp3 (sig_r sig);
  comm ← ge_tobytes tmp2;
  c ← hash_to_scalar (s_comm prefix_hash pub comm);
  c ← sc_sub c (sig_c sig);
  Some (sc_isnonzero c =? 0).

(** ** Key images *)

Definition hash_to_ec (key : list Z) : option ge_p3 :=
  point ← ge_fromfe_frombytes_vartime (cn_fast_hash key);
  point2 ← ge_mul8 point;
  ge_p1p1_to_p3 point2.

(** The failure of the decoding is ignored by the source, and the point is then uninitialised. *)
Definition scalarmultKey (P a : list Z) : option (list Z) :=
  r ← ge_frombytes_vartime P;
  A ← r;
  R ← ge_scalarmult a A;
  ge_tobytes R.

Definition hash_data_to_ec (data : list Z) : option (list Z) :=
  point ← ge_fromfe_frombytes_vartime (cn_fast_hash data);
  point2 ← ge_mul8 point;
  point ← ge_p1p1_to_p2 point2;
  ge_tobytes point.

Definition generate_key_image (pub sec : list Z) : option (list Z) :=
  _ ← assert_that (sc_check sec =? 0);
  point ← hash_to_ec pub;
  point2 ← ge_scalarmult sec point;
  ge_tobytes point2.

(** ** Ring signatures *)

(** The commitments [a] and [b] of one ring member from its two scalars. *)
Definition ring_commit (image_pre : list ge_cached) (pub sig : list Z) : option (option (list Z * list Z)) :=
  tmp3 ←? ge_frombytes_vartime pub;
  tmp2 ← ge_double_scalarmult_base_vartime (sig_c sig) tmp3 (sig_r sig);
  a ← ge_tobytes tmp2;
  tmp3 ← hash_to_ec pub;
  tmp2 ← ge_double_scalarmult_precomp_vartime (sig_r sig) tmp3 (sig_c sig) image_pre;
  b ← ge_tobytes tmp2;
  Some (Some (a, b)).

(** The commitments of the member that signs. *)
Definition ring_commit_real (pub k : list Z) : option (list Z * list Z) :=
  tmp3 ← ge_scalarmult_base k;
  a ← ge_p3_tobytes tmp3;
  tmp3 ← hash_to_ec pub;
  tmp2 ← ge_scalarmult k tmp3;
  b ← ge_tobytes tmp2;
  Some (a, b).

(** The variables of the signing loop: the signatures, the bytes written to [buf->ab], the sum,
    [k] once assigned, and the number of random values drawn. *)
Record rs_state : Type := RsState {
  rs_sigs : list (list Z);
  rs_ab : list Z;
  rs_sum : list Z;
  rs_k : option (list Z);
  rs_draws : nat;
}.

(** One iteration; the flag is false on an early return. *)
Definition ring_sign_step (rnd : nat -> list Z) (image_pre : list ge_cached) (realOutput i : nat) (pub : list Z)
    (st : rs_state) : option (bool * rs_state) :=
  if (i =? realOutput)%nat then
    k ← random_scalar (rnd (rs_draws st));
    '(a, b) ← ring_commit_real pub k;
    Some (true, RsState (rs_sigs st) (rs_ab st ++ a ++ b) (rs_sum st) (Some k) (S (rs_draws st)))
  else
    c ← random_scalar (rnd (rs_draws st));
    r ← random_scalar (rnd (S (rs_draws st)));
    let sigs := <[i := c ++ r]> (rs_sigs st) in
    ab ← ring_commit image_pre pub (c ++ r);
    match ab with
    | None => Some (false, RsState sigs (rs_ab st) (rs_sum st) (rs_k st) (S (S (rs_draws st))))
    | Some (a, b) =>
      sum ← sc_add (rs_sum st) c;
      Some (true, RsState sigs (rs_ab st ++ a ++ b) sum (rs_k st) (S (S (rs_draws st))))
    end.

Fixpoint ring_sign_loop (rnd : nat -> list Z) (image_pre : list ge_cached) (realOutput i : nat) (pubs : list (list Z))
    (st : rs_state) : option (bool * rs_state) :=
  match pubs with
  | [] => Some (true, st)
  | pub :: pubs =>
    '(go, st) ← ring_sign_step rnd image_pre realOutput i pub st;
    if go : bool then ring_sign_loop rnd image_pre realOutput (S i) pubs st else Some (false, st)
  end.

Definition generateRingSignatures (rnd : nat -> list Z) (prefixHash keyImage : list Z) (publicKeys : list (list Z))
    (transactionSecretKey : list Z) (realOutput : nat) : option (bool * list (list Z)) :=
  let signatures := repeat (repeat 0 64) (length publicKeys) in
  r ← ge_frombytes_vartime keyImage;
  match r with
  | None => Some (false, signatures)
  | Some image_unp =>
    image_pre ← ge_dsm_precomp image_unp;
    '(go, st) ← ring_sign_loop rnd image_pre realOutput 0 publicKeys (RsState signatures [] sc_0 None 0);
    if negb go then Some (false, rs_sigs st) else
    h ← hash_to_scalar (prefixHash ++ rs_ab st);
    c ← sc_sub h (rs_sum st);
    k ← rs_k st;
    r ← sc_mulsub c transactionSecretKey k;
    Some (true, <[realOutput := c ++ r]> (rs_sigs st))
  end.

(** One iteration of the check: [Some None] is the return of false. *)
Definition ring_check_step (image_pre : list ge_cached) (pub sig sum : list Z) : option (option (list Z * list Z * list Z)) :=
  if negb (sc_check (sig_c sig) =? 0) || negb (sc_check (sig_r sig) =? 0) then Some None else
  ab ←? ring_commit image_pre pub sig;
  sum ← sc_add sum (sig_c sig);
  Some (Some (ab, sum)).

(** The vectors are read at the same index; a shorter vector of signatures is read out of range. *)
Fixpoint ring_check_loop (image_pre : list ge_cached) (pubs sigs : list (list Z)) (ab sum : list Z) :
    option (option (list Z * list Z)) :=
  match pubs, sigs with
  | [], _ => Some (Some (ab, sum))
  | _ :: _, [] => None
  | pub :: pubs, sig :: sigs =>
    r ←? ring_check_step image_pre pub sig sum;
    let '(a, b, sum) := r in
    ring_check_loop image_pre pubs sigs (ab ++ a ++ b) sum
  end.

Definition checkRingSignature (prefix_hash image : list Z) (pubs signatures : list (list Z)) : option bool :=
  image_unp ←! ge_frombytes_vartime image;
  image_pre ← ge_dsm_precomp image_unp;
  n ← ge_check_subgroup_precomp_vartime image_pre;
  if negb (n =? 0) then Some false else
  r ←! ring_check_loop image_pre pubs signatures [] sc_0;
  let '(ab, sum) := r in
  h ← hash_to_scalar (prefix_hash ++ ab);
  h ← sc_sub h sum;
  Some (sc_isnonzero h =? 0).
End Crypto.
End Crypto.
