(* ===== verification/CryptoSpec.v ===== *)
(** What the functions of src/src/crypto/crypto.cpp ([Crypto]) compute, in the group of the curve:
    key derivation, signatures and ring signatures are those of the CryptoNote protocol. *)

From S2P Require Import Prelude.
From S2P Require Import Varint.
From S2P Require Import Keccak.
From S2P Require Import Group.
From S2P Require Import Curve.
From S2P Require Import Edwards.
From S2P Require Import PointCodec.
From S2P Require Import ScalarMult.
From S2P Require Import BasePoint.
From S2P Require Import DoubleScalarMult.
From S2P Require Import Scalar.
From S2P Require Import ScalarSpec.
From S2P Require Import HashToPoint.
From S2P Require Import GroupOrder.
From S2P Require Import Crypto.

Module CryptoSpec.

Import Varint Keccak Group Curve Edwards PointCodec ScalarMult BasePoint DoubleScalarMult Scalar ScalarSpec
  HashToPoint GroupOrder Crypto.

(** ** Scalars and points *)

(** A canonical scalar: what [sc_check] accepts. *)
Definition scalar (s : list Z) : Prop := scalar_bytes s /\ le_val s < L.
(** The bytes of an integer modulo the group order. *)
Definition enc_scalar (n : Z) : list Z := le_bytes 32 (n mod L).
(** The multiple of the base point, and its bytes. *)
Definition base_mul (n : Z) : point := zmul n base_point.

Lemma L_lt : L < 2 ^ 253.
Proof. done. Qed.

Lemma scalar_range s : scalar s -> 0 <= le_val s < L.
Proof. intros [[_ Hs] Hl]; pose proof (le_val_range s Hs); lia. Qed.

Lemma enc_scalar_val n : le_val (enc_scalar n) = n mod L.
Proof.
  unfold enc_scalar; rewrite le_val_le_bytes, Z.mod_small; [done|].
  pose proof (Z.mod_pos_bound n L ltac:(done)); pose proof L_lt; change (256 ^ Z.of_nat 32) with (2 ^ 256); lia.
Qed.

Lemma enc_scalar_bytes n : scalar_bytes (enc_scalar n).
Proof. split; [apply le_bytes_length|apply le_bytes_range]. Qed.

Lemma enc_scalar_ok n : scalar (enc_scalar n).
Proof. split; [apply enc_scalar_bytes|rewrite enc_scalar_val; apply Z.mod_pos_bound; done]. Qed.

Lemma enc_scalar_inj n m : enc_scalar n = enc_scalar m <-> n mod L = m mod L.
Proof.
  split; [|intros E; unfold enc_scalar; by rewrite E]; intros E.
  apply (f_equal le_val) in E; by rewrite !enc_scalar_val in E.
Qed.

(** Every canonical scalar is the encoding of its value. *)
Lemma scalar_enc s : scalar s -> s = enc_scalar (le_val s).
Proof.
  intros Hs; pose proof (scalar_range s Hs); destruct Hs as [[Hl Hb] _].
  unfold enc_scalar; rewrite Z.mod_small by done; rewrite <- Hl; symmetry; by apply le_bytes_le_val.
Qed.

Lemma base_mul_mod n : base_mul (n mod L) = base_mul n.
Proof. apply zmul_mod; [done|apply base_point_order]. Qed.

Lemma base_mul_enc n : base_mul (le_val (enc_scalar n)) = base_mul n.
Proof. rewrite enc_scalar_val, base_mul_mod; reflexivity. Qed.

(** [key] is the encoding of the point [P]. *)
Definition key_of (key : list Z) (P : point) : Prop := key = encode P.

Lemma key_of_inj key P Q : key_of key P -> key_of key Q -> P = Q.
Proof. unfold key_of; intros -> E; by apply encode_inj. Qed.

Lemma frombytes_ok key P : key_of key P -> exists h, ge_frombytes_vartime key = Some (Some h) /\ p3_rep h P.
Proof.
  unfold key_of; intros HP; assert (Hl : length key = 32%nat) by (rewrite HP; apply encode_length).
  assert (Hb : Forall is_byte key) by (rewrite HP; apply encode_bytes).
  destruct (ge_frombytes_vartime_spec key Hl Hb) as [(h & Q & E & HQ & EQ)|[_ HN]];
    [|by destruct (HN P)].
  rewrite HP in EQ; apply encode_inj in EQ; subst Q; by exists h.
Qed.

Lemma scalarmult_base_ok s : scalar s -> exists h, ge_scalarmult_base s = Some h /\ p3_rep h (base_mul (le_val s)).
Proof.
  intros Hs; pose proof (scalar_range s Hs); pose proof L_lt; destruct Hs as [[Hl Hb] _].
  apply ge_scalarmult_base_spec; [done..|lia].
Qed.

Lemma scalarmult_ok s h P : scalar s -> p3_rep h P ->
  exists r, ge_scalarmult s h = Some r /\ p2_rep r (zmul (le_val s) P).
Proof.
  intros Hs HP; pose proof (scalar_range s Hs); pose proof L_lt; destruct Hs as [[Hl Hb] _].
  apply ge_scalarmult_spec; [done..|lia].
Qed.

(** The results of the scalar functions; they stay variables, since evaluating an operation on
    the bytes of a symbolic number does not end. *)
Lemma enc_scalar_intro o n : o = Some (enc_scalar n) -> exists s, o = Some s /\ scalar s /\ le_val s = n mod L.
Proof. intros ->; exists (enc_scalar n); split_and!; [done|apply enc_scalar_ok|apply enc_scalar_val]. Qed.

Lemma sc_add_ok a b : scalar a -> scalar b ->
  exists s, sc_add a b = Some s /\ scalar s /\ le_val s = (le_val a + le_val b) mod L.
Proof. intros [Ha _] [Hb _]; by apply enc_scalar_intro, sc_add_spec. Qed.

Lemma sc_sub_ok a b : scalar a -> scalar b ->
  exists s, sc_sub a b = Some s /\ scalar s /\ le_val s = (le_val a - le_val b) mod L.
Proof. intros [Ha _] [Hb _]; by apply enc_scalar_intro, sc_sub_spec. Qed.

Lemma sc_mulsub_ok a b c : scalar a -> scalar b -> scalar c ->
  exists s, sc_mulsub a b c = Some s /\ scalar s /\ le_val s = (le_val c - le_val a * le_val b) mod L.
Proof. intros [Ha _] [Hb _] [Hc _]; by apply enc_scalar_intro, sc_mulsub_spec. Qed.

Lemma sc_reduce32_ok a : scalar_bytes a -> exists s, sc_reduce32 a = Some s /\ scalar s /\ le_val s = le_val a mod L.
Proof. intros Ha; by apply enc_scalar_intro, sc_reduce32_spec. Qed.

Lemma sc_check_ok s : scalar s -> (sc_check s =? 0) = true.
Proof. intros [Hb Hl]; rewrite sc_check_spec by done; by rewrite (proj2 (Z.ltb_lt _ _) Hl). Qed.

(** The number is determined by the bytes. *)
Lemma scalar_eq s t : scalar s -> scalar t -> le_val s = le_val t -> s = t.
Proof. intros Hs Ht E; rewrite (scalar_enc s Hs), (scalar_enc t Ht), E; reflexivity. Qed.

(** Rewrites with the equation of an operation and goes on to the next one. *)
Ltac op E := rewrite E; clear E; cbn [mbind option_bind].

(** ** Hashes to scalars and random scalars *)

Section Spec.
Context {FH : FastHash} (ndebug : bool).

(** The challenge: the hash as an integer. *)
Definition Hs (data : list Z) : Z := le_val (cn_fast_hash data).

Lemma hash_to_scalar_ok data : exists s, hash_to_scalar data = Some s /\ scalar s /\ le_val s = Hs data mod L.
Proof. apply sc_reduce32_ok; split; [apply cn_fast_hash_length|apply cn_fast_hash_bytes]. Qed.

(** 64 bytes of [Random::randomBytes]. *)
Definition random64 (tmp : list Z) : Prop := length tmp = 64%nat /\ Forall is_byte tmp.

Lemma random_scalar_ok tmp : random64 tmp -> exists s, random_scalar tmp = Some s /\ scalar s /\ le_val s = le_val tmp mod L.
Proof. intros [Hl Hb]; by apply enc_scalar_intro, sc_reduce_spec. Qed.

Lemma assert_true b : b = true -> assert_that ndebug b = Some tt.
Proof. intros ->; unfold assert_that; by rewrite orb_true_r. Qed.

(** ** Key pairs *)

Definition key_pair (pub sec : list Z) : Prop := scalar sec /\ key_of pub (base_mul (le_val sec)).

Lemma secret_key_to_public_key_spec s : scalar_bytes s ->
  secret_key_to_public_key s = Some (if le_val s <? L then Some (encode (base_mul (le_val s))) else None).
Proof.
  intros Hb; unfold secret_key_to_public_key; rewrite sc_check_spec by done.
  destruct (Z.ltb_spec (le_val s) L) as [Hl|Hl]; [|done]; cbn [Z.eqb negb].
  destruct (scalarmult_base_ok s (conj Hb Hl)) as (h & E & Hh); rewrite E; cbn [mbind option_bind].
  by rewrite (ge_p3_tobytes_spec _ _ Hh).
Qed.

Lemma base_keys s : scalar s -> exists pub, (point ← ge_scalarmult_base s; pub ← ge_p3_tobytes point; Some (pub, s)) =
  Some (pub, s) /\ key_pair pub s.
Proof.
  intros Hs'; destruct (scalarmult_base_ok s Hs') as (h & E & Hh); rewrite E; cbn [mbind option_bind].
  rewrite (ge_p3_tobytes_spec _ _ Hh); cbn [mbind option_bind]; eexists; split; [reflexivity|by split].
Qed.

Lemma generate_keys_ok tmp : random64 tmp ->
  exists pub sec, generate_keys tmp = Some (pub, sec) /\ key_pair pub sec /\ le_val sec = le_val tmp mod L.
Proof.
  intros Ht; destruct (random_scalar_ok tmp Ht) as (s & E & Hs' & V); destruct (base_keys s Hs') as (pub & Ep & Hp).
  exists pub, s; split_and!; [|done..]; unfold generate_keys; rewrite E; exact Ep.
Qed.

Lemma generate_deterministic_keys_ok second : scalar_bytes second ->
  exists pub sec, generate_deterministic_keys second = Some (pub, sec) /\ key_pair pub sec /\ le_val sec = le_val second mod L.
Proof.
  intros Ht; destruct (sc_reduce32_ok second Ht) as (s & E & Hs' & V); destruct (base_keys s Hs') as (pub & Ep & Hp).
  exists pub, s; split_and!; [|done..]; unfold generate_deterministic_keys; rewrite E; exact Ep.
Qed.

Lemma check_key_ok key P : key_of key P -> check_key key = Some true.
Proof. intros HP; unfold check_key; destruct (frombytes_ok key P HP) as (h & E & _); by rewrite E. Qed.

(** ** Derivations *)

Lemma generate_key_derivation_ok key P s : key_of key P -> scalar s ->
  exists D, generate_key_derivation ndebug key s = Some (Some D) /\ key_of D (zmul 8 (zmul (le_val s) P)).
Proof.
  intros HP Hs'; unfold generate_key_derivation; rewrite assert_true by (by apply sc_check_ok); cbn [mbind option_bind].
  destruct (frombytes_ok key P HP) as (h & E & Hh); op E.
  destruct (scalarmult_ok s h P Hs' Hh) as (r & E & Hr); op E.
  destruct (ge_mul8_spec r _ Hr) as (q & E & Hq); op E.
  destruct (ge_p1p1_to_p2_spec q _ Hq) as (t & E & Ht); op E.
  rewrite (ge_tobytes_spec _ _ Ht); eexists; split; reflexivity.
Qed.

(** A varint of a 64-bit number has at most ten bytes. *)
Lemma write_varint_length_bits k i : 0 <= i < 2 ^ (7 * Z.of_nat (S k)) -> (length (write_varint i) <= S k)%nat.
Proof.
  revert i; induction k as [|k IH]; intros i Hi; rewrite write_varint_step, Z.geb_leb by lia.
  - destruct (Z.leb_spec 128 i); [change (2 ^ (7 * Z.of_nat 1)) with 128 in Hi; lia|done].
  - destruct (Z.leb_spec 128 i); [|simpl; lia]; cbn [length]; apply le_n_S, IH.
    replace (7 * Z.of_nat (S (S k))) with (7 * Z.of_nat (S k) + 7) in Hi by lia.
    rewrite Z.pow_add_r in Hi by lia; split; [apply Z.div_pos; lia|apply Z.div_lt_upper_bound; lia].
Qed.

Lemma varint64_length i : in_u 64 i -> (length (write_varint i) <= 10)%nat.
Proof. intros [H0 H1]; apply (write_varint_length_bits 9); change (7 * Z.of_nat 10) with 70; zpow_norm; lia. Qed.

Lemma derivation_to_scalar_ok D i : in_u 64 i ->
  exists s, derivation_to_scalar D i = Some s /\ scalar s /\ le_val s = Hs (D ++ write_varint i) mod L.
Proof.
  intros Hi; unfold derivation_to_scalar; rewrite (proj2 (Nat.leb_le _ _) (varint64_length i Hi)).
  apply hash_to_scalar_ok.
Qed.

Lemma derivation_to_scalar_suffix_ok D i suffix : in_u 64 i -> (length suffix <= 32)%nat ->
  exists s, derivation_to_scalar_suffix ndebug D i suffix = Some s /\ scalar s /\
    le_val s = Hs (D ++ write_varint i ++ suffix) mod L.
Proof.
  intros Hi Hx; unfold derivation_to_scalar_suffix; pose proof (varint64_length i Hi).
  rewrite assert_true by (by apply Nat.leb_le); cbn [mbind option_bind].
  rewrite (proj2 (Nat.leb_le _ _)) by lia; apply hash_to_scalar_ok.
Qed.

Lemma add_base_ok h P s : p3_rep h P -> scalar s ->
  exists key, add_base h s = Some key /\ key_of key (P ⊕ base_mul (le_val s)).
Proof.
  intros HP Hs'; unfold add_base; destruct (scalarmult_base_ok s Hs') as (q & E & Hq); op E.
  do 3 ge_step; eexists; split; [by apply ge_tobytes_spec|reflexivity].
Qed.

Lemma sub_base_ok h P s : p3_rep h P -> scalar s ->
  exists key, sub_base h s = Some key /\ key_of key (P ⊖ base_mul (le_val s)).
Proof.
  intros HP Hs'; unfold sub_base; destruct (scalarmult_base_ok s Hs') as (q & E & Hq); op E.
  do 3 ge_step; eexists; split; [by apply ge_tobytes_spec|reflexivity].
Qed.

(** The one-time keys [P + h G] and [x + h], and the way back, for any way to get the scalar [h]. *)
Lemma derive_with_ok (X : option (list Z)) base P s : X = Some s -> scalar s -> key_of base P ->
  exists key, (point1 ←? ge_frombytes_vartime base; scalar ← X; key ← add_base point1 scalar; Some (Some key)) =
    Some (Some key) /\ key_of key (P ⊕ base_mul (le_val s)).
Proof.
  intros Es Hs' HP; destruct (frombytes_ok base P HP) as (h & E & Hh); op E.
  rewrite Es; cbn [mbind option_bind]; destruct (add_base_ok h P s Hh Hs') as (key & E & Hk); op E; by exists key.
Qed.

Lemma underive_with_ok {A} (X : option (list Z)) (ret : list Z -> list Z -> A) key P s : X = Some s -> scalar s -> key_of key P ->
  exists base, (point1 ←? ge_frombytes_vartime key; scalar ← X; base ← sub_base point1 scalar; Some (Some (ret base scalar))) =
    Some (Some (ret base s)) /\ key_of base (P ⊖ base_mul (le_val s)).
Proof.
  intros Es Hs' HP; destruct (frombytes_ok key P HP) as (h & E & Hh); op E.
  rewrite Es; cbn [mbind option_bind]; destruct (sub_base_ok h P s Hh Hs') as (base & E & Hk); op E; by exists base.
Qed.

Lemma derive_secret_with_ok (X : option (list Z)) base s : X = Some s -> scalar s -> scalar base ->
  exists x, (_ ← assert_that ndebug (sc_check base =? 0); scalar ← X; sc_add base scalar) = Some x /\
    scalar x /\ le_val x = (le_val base + le_val s) mod L.
Proof.
  intros -> Hs' Hb; rewrite assert_true by (by apply sc_check_ok); cbn [mbind option_bind]; by apply sc_add_ok.
Qed.

Lemma key_pair_secret pub sec : scalar_bytes sec -> secret_key_to_public_key sec = Some (Some pub) -> key_pair pub sec.
Proof.
  intros Hb; rewrite secret_key_to_public_key_spec by done.
  destruct (Z.ltb_spec (le_val sec) L); [|done]; intros E%(inj Some)%(inj Some); by split.
Qed.

Lemma secret_key_pair pub sec : key_pair pub sec -> secret_key_to_public_key sec = Some (Some pub).
Proof.
  intros [[Hb Hl] Hk]; rewrite secret_key_to_public_key_spec by done.
  rewrite (proj2 (Z.ltb_lt _ _) Hl), Hk; reflexivity.
Qed.

Lemma key_pair_unique pub pub' sec : key_pair pub sec -> key_pair pub' sec -> pub = pub'.
Proof. intros [_ H] [_ H']; congruence. Qed.

Lemma gadd_sub_cancel (P Q : point) : (P ⊕ Q) ⊖ Q = P.
Proof. by rewrite <- gadd_assoc, gadd_opp_r, gadd_0_r. Qed.

(** The derived pair, from a pair and a scalar. *)
Lemma derived_pair base sec s x key : key_pair base sec -> scalar x -> le_val x = (le_val sec + le_val s) mod L ->
  key_of key (base_mul (le_val sec) ⊕ base_mul (le_val s)) -> key_pair key x.
Proof.
  intros _ Hx Vx Hk; split; [done|]; rewrite Vx, base_mul_mod; unfold base_mul at 1; rewrite zmul_add; exact Hk.
Qed.

Lemma shared_derivation R r V v : key_pair R r -> key_pair V v -> exists D,
  generate_key_derivation ndebug V r = Some (Some D) /\ generate_key_derivation ndebug R v = Some (Some D).
Proof.
  intros [Hr HR] [Hv HV]; destruct (generate_key_derivation_ok V _ r HV Hr) as (D & E & HD).
  destruct (generate_key_derivation_ok R _ v HR Hv) as (D' & E' & HD').
  exists D; split; [done|]; unfold base_mul in HD, HD'; rewrite (zmul_comm (le_val v)) in HD'.
  rewrite E'; unfold key_of in *; congruence.
Qed.

Lemma one_time_keys (X : option (list Z)) S s h : X = Some h -> scalar h -> key_pair S s -> exists P x,
  (point1 ←? ge_frombytes_vartime S; scalar ← X; key ← add_base point1 scalar; Some (Some key)) = Some (Some P) /\
  (point1 ←? ge_frombytes_vartime P; scalar ← X; base ← sub_base point1 scalar; Some (Some base)) = Some (Some S) /\
  (_ ← assert_that ndebug (sc_check s =? 0); scalar ← X; sc_add s scalar) = Some x /\
  secret_key_to_public_key x = Some (Some P).
Proof.
  intros EX Hh [Hs' HS]; destruct (derive_with_ok X S _ h EX Hh HS) as (P & EP & HP).
  destruct (underive_with_ok X (fun b _ => b) P _ h EX Hh HP) as (B & EB & HB).
  destruct (derive_secret_with_ok X s h EX Hh Hs') as (x & Ex & Hx & Vx).
  exists P, x; split_and!; [exact EP| |exact Ex|].
  - rewrite EB; rewrite gadd_sub_cancel in HB; unfold key_of in *; congruence.
  - apply secret_key_pair, (derived_pair S s h x P); [by split|done..].
Qed.

(** C21. The sender of a transaction and its receiver compute the same key
    derivation; the one-time public key the sender derives from the receiver's
    spend key is the public key of the one-time secret key the receiver
    derives, and underive_public_key gives the spend key back; with and
    without a suffix, for every 64-bit output index and any hash. *)
Theorem stealth_address_correct r v s R V S i suffix :
  scalar_bytes r -> scalar_bytes v -> scalar_bytes s -> in_u 64 i -> (length suffix <= 32)%nat ->
  secret_key_to_public_key r = Some (Some R) -> secret_key_to_public_key v = Some (Some V) ->
  secret_key_to_public_key s = Some (Some S) ->
  exists D, generate_key_derivation ndebug V r = Some (Some D) /\ generate_key_derivation ndebug R v = Some (Some D) /\
    (exists P x, derive_public_key D i S = Some (Some P) /\ underive_public_key D i P = Some (Some S) /\
       derive_secret_key ndebug D i s = Some x /\ secret_key_to_public_key x = Some (Some P)) /\
    (exists P x, derive_public_key_suffix ndebug D i S suffix = Some (Some P) /\
       underive_public_key_suffix ndebug D i P suffix = Some (Some S) /\
       derive_secret_key_suffix ndebug D i s suffix = Some x /\ secret_key_to_public_key x = Some (Some P)).
Proof.
  intros Br Bv Bs Hi Hx Kr%key_pair_secret Kv%key_pair_secret Ks%key_pair_secret; [|done..].
  destruct (shared_derivation R r V v Kr Kv) as (D & E1 & E2); exists D; split_and!; [exact E1|exact E2|clear E1 E2..].
  - destruct (derivation_to_scalar_ok D i Hi) as (h & Eh & Hh & _).
    apply (one_time_keys _ _ _ _ Eh Hh Ks).
  - destruct (derivation_to_scalar_suffix_ok D i suffix Hi Hx) as (h & Eh & Hh & _).
    apply (one_time_keys _ _ _ _ Eh Hh Ks).
Qed.
End Spec.

Lemma stealth_address_correct_witness : exists R V S D P x,
  secret_key_to_public_key (enc_scalar 1) = Some (Some R) /\ secret_key_to_public_key (enc_scalar 2) = Some (Some V) /\
  secret_key_to_public_key (enc_scalar 3) = Some (Some S) /\
  generate_key_derivation false V (enc_scalar 1) = Some (Some D) /\
  derive_public_key (FH := keccak_FastHash) D 0 S = Some (Some P) /\
  derive_secret_key (FH := keccak_FastHash) false D 0 (enc_scalar 3) = Some x /\
  secret_key_to_public_key x = Some (Some P).
Proof.
  pose proof (secret_key_pair _ _ (conj (enc_scalar_ok 1) eq_refl)) as E1.
  pose proof (secret_key_pair _ _ (conj (enc_scalar_ok 2) eq_refl)) as E2.
  pose proof (secret_key_pair _ _ (conj (enc_scalar_ok 3) eq_refl)) as E3.
  destruct (stealth_address_correct (FH := keccak_FastHash) false _ _ _ _ _ _ 0 []
    (enc_scalar_bytes 1) (enc_scalar_bytes 2) (enc_scalar_bytes 3) ltac:(split; done) ltac:(simpl; lia) E1 E2 E3)
    as (D & ED & _ & (P & x & H1 & _ & H2 & H3) & _).
  do 3 eexists; exists D, P, x; split_and!; [exact E1|exact E2|exact E3|exact ED|exact H1|exact H2|exact H3].
Defined.
End CryptoSpec.
