(* ===== verification/Signatures.v ===== *)
(** Signatures and ring signatures of src/src/crypto/crypto.cpp ([Crypto]): the verification
    equations and their completeness. *)

From S2P Require Import Prelude.
From S2P Require Import Keccak.
From S2P Require Import Group.
From S2P Require Import Curve.
From S2P Require Import Edwards.
From S2P Require Import PointCodec.
From S2P Require Import ScalarMult.
From S2P Require Import BasePoint.
From S2P Require Import DoubleScalarMult.
From S2P Require Import Scalar.
From S2P Require Import ScalarSpec.
From S2P Require Import HashToPoint.
From S2P Require Import GroupOrder.
From S2P Require Import Crypto.
From S2P Require Import CryptoSpec.

Module Signatures.

Import Keccak Group Curve Edwards PointCodec ScalarMult BasePoint DoubleScalarMult Scalar ScalarSpec
  HashToPoint GroupOrder Crypto CryptoSpec.

(** ** Signatures as two scalars *)

Definition signature (sig : list Z) : Prop := length sig = 64%nat /\ Forall is_byte sig.
Definition sig_c_val (sig : list Z) : Z := le_val (sig_c sig).
Definition sig_r_val (sig : list Z) : Z := le_val (sig_r sig).
(** Both scalars below the group order. *)
Definition canonical (sig : list Z) : Prop := sig_c_val sig < L /\ sig_r_val sig < L.

#[global] Instance canonical_dec sig : Decision (canonical sig).
Proof. unfold canonical; apply _. Defined.

Lemma signature_parts sig : signature sig -> scalar_bytes (sig_c sig) /\ scalar_bytes (sig_r sig).
Proof.
  intros [Hl Hb]; unfold sig_c, sig_r; split; split.
  - rewrite length_take; lia.
  - by apply Forall_take.
  - rewrite length_drop; lia.
  - by apply Forall_drop.
Qed.

Lemma canonical_scalars sig : signature sig -> canonical sig -> scalar (sig_c sig) /\ scalar (sig_r sig).
Proof. intros Hs [Hc Hr]; destruct (signature_parts sig Hs); by split; split. Qed.

Lemma sig_app c r : scalar c -> scalar r ->
  sig_c (c ++ r) = c /\ sig_r (c ++ r) = r /\ signature (c ++ r) /\ canonical (c ++ r).
Proof.
  intros [[Lc Bc] Vc] [[Lr Br] Vr]; unfold canonical, sig_c_val, sig_r_val, sig_c, sig_r.
  rewrite (take_app_length' c r 32), (drop_app_length' c r 32) by done.
  split_and!; [done..| |done|done]; split; [rewrite length_app; lia|by apply Forall_app].
Qed.

(** The test of both scalars. *)
Lemma sc_check_canonical sig : signature sig ->
  negb (sc_check (sig_c sig) =? 0) || negb (sc_check (sig_r sig) =? 0) = negb (bool_decide (canonical sig)).
Proof.
  intros Hs; destruct (signature_parts sig Hs) as [Hc Hr]; rewrite !sc_check_spec by done.
  unfold canonical, sig_c_val, sig_r_val; case_bool_decide as E.
  - destruct E as [E1 E2]; by rewrite (proj2 (Z.ltb_lt _ _) E1), (proj2 (Z.ltb_lt _ _) E2).
  - destruct (Z.ltb_spec (le_val (sig_c sig)) L), (Z.ltb_spec (le_val (sig_r sig)) L); try done; tauto.
Qed.

(** ** The points of the equations *)

Definition commit_base (c r : Z) (P : point) : point := zmul c P ⊕ base_mul r.

Lemma double_base_ok c r h P : scalar c -> scalar r -> p3_rep h P ->
  exists t, ge_double_scalarmult_base_vartime c h r = Some t /\ p2_rep t (commit_base (le_val c) (le_val r) P).
Proof.
  intros Hc Hr HP; pose proof (scalar_range c Hc); pose proof (scalar_range r Hr); pose proof L_lt.
  destruct Hc as [[? ?] _], Hr as [[? ?] _]; apply ge_double_scalarmult_base_vartime_spec; (done || lia).
Qed.

Lemma double_precomp_ok a b h t P Q : scalar a -> scalar b -> p3_rep h P -> odd_table cached_rep t Q ->
  exists q, ge_double_scalarmult_precomp_vartime a h b t = Some q /\ p2_rep q (zmul (le_val a) P ⊕ zmul (le_val b) Q).
Proof.
  intros Ha Hb HP HQ; pose proof (scalar_range a Ha); pose proof (scalar_range b Hb); pose proof L_lt.
  destruct Ha as [[? ?] _], Hb as [[? ?] _]; apply ge_double_scalarmult_precomp_vartime_spec; (done || lia).
Qed.

(** [sc_sub] and [sc_isnonzero] compare residues. *)
Lemma residue_test a b : scalar a -> scalar b ->
  (d ← sc_sub a b; Some (sc_isnonzero d =? 0)) = Some (bool_decide (le_val a = le_val b)).
Proof.
  intros Ha Hb; destruct (sc_sub_ok a b Ha Hb) as (d & E & Hd & V); op E.
  rewrite sc_isnonzero_spec by apply Hd; pose proof (scalar_range a Ha); pose proof (scalar_range b Hb).
  f_equal; case_bool_decide as E'; [rewrite V, E', Z.sub_diag; done|].
  destruct (Z.eqb_spec (le_val d) 0) as [E0|]; [exfalso; apply E'|done].
  rewrite V in E0; apply Z.mod_divide in E0 as [k Hk]; [|done]; assert (k = 0) by nia; lia.
Qed.

(** The response [k - c x] closes the equation over any point that the group order annihilates. *)
Lemma response_closes c x k r (Q : point) : zmul L Q = gzero -> r = (k - c * x) mod L ->
  zmul c (zmul x Q) ⊕ zmul r Q = zmul k Q.
Proof.
  intros HL ->; rewrite (zmul_mod L) by done; rewrite <- zmul_mul, <- zmul_add; f_equal; ring.
Qed.

Section Schnorr.
Context {FH : FastHash} (ndebug : bool).

Lemma check_signature_spec ph pub sig P : key_of pub P -> signature sig ->
  check_signature ndebug ph pub sig = Some (bool_decide (canonical sig /\
    Hs (s_comm ph pub (encode (commit_base (sig_c_val sig) (sig_r_val sig) P))) mod L = sig_c_val sig)).
Proof.
  intros HP Hsig; unfold check_signature; rewrite (check_key_ok pub P HP); cbn [mbind option_bind].
  rewrite assert_true by done; cbn [mbind option_bind]; destruct (frombytes_ok pub P HP) as (h & E & Hh); op E.
  rewrite sc_check_canonical by done; destruct (decide (canonical sig)) as [Hcan|Hcan].
  2: { rewrite !bool_decide_eq_false_2 by tauto; done. }
  rewrite (bool_decide_eq_true_2 _ Hcan); cbn [negb]; destruct (canonical_scalars sig Hsig Hcan) as [Hc Hr].
  destruct (double_base_ok _ _ h P Hc Hr Hh) as (t & E & Ht); op E.
  rewrite (ge_tobytes_spec _ _ Ht); cbn [mbind option_bind].
  destruct (hash_to_scalar_ok (s_comm ph pub (encode (commit_base (sig_c_val sig) (sig_r_val sig) P)))) as (c & E & Hc' & V).
  unfold sig_c_val, sig_r_val in E; op E; rewrite residue_test by done; f_equal; apply bool_decide_ext.
  rewrite V; tauto.
Qed.

Lemma generate_signature_ok ph pub sec tmp : key_pair pub sec -> random64 tmp ->
  exists sig, generate_signature ndebug ph pub sec tmp = Some sig /\ signature sig /\ canonical sig /\
    Hs (s_comm ph pub (encode (base_mul (le_val tmp)))) mod L = sig_c_val sig /\
    sig_r_val sig = (le_val tmp - sig_c_val sig * le_val sec) mod L.
Proof.
  intros HK Ht; pose proof HK as [Hs' HP]; unfold generate_signature.
  assert (HA : assert_key_pair ndebug pub sec = Some tt).
  { unfold assert_key_pair; destruct ndebug; [done|]; rewrite assert_true by (by apply sc_check_ok); cbn [mbind option_bind].
    destruct (scalarmult_base_ok sec Hs') as (h & E & Hh); op E; rewrite (ge_p3_tobytes_spec _ _ Hh); cbn [mbind option_bind].
    apply assert_true, bool_decide_eq_true_2, HP. }
  rewrite HA; cbn [mbind option_bind]; destruct (random_scalar_ok tmp Ht) as (k & E & Hk & Vk); op E.
  destruct (scalarmult_base_ok k Hk) as (h & E & Hh); op E; rewrite (ge_p3_tobytes_spec _ _ Hh); cbn [mbind option_bind].
  destruct (hash_to_scalar_ok (s_comm ph pub (encode (base_mul (le_val k))))) as (c & E & Hc & Vc); op E.
  destruct (sc_mulsub_ok c sec k Hc Hs' Hk) as (r & E & Hr & Vr); op E.
  destruct (sig_app c r Hc Hr) as (Ec & Er & Hsig & Hcan); exists (c ++ r).
  unfold sig_c_val, sig_r_val; rewrite Ec, Er, Vr, Vk, Zminus_mod_idemp_l.
  rewrite Vk, base_mul_mod in Vc; split_and!; [done..|by rewrite Vc|done].
Qed.

(** C20. generate_signature returns for every key pair and random bytes, and
    check_signature accepts the result; check_signature accepts a signature
    (c, r) for the public key P exactly when both scalars are canonical and c
    is the hash of the message, the key and c P + r G, and it always returns
    on a valid key. *)
Theorem signature_correct ph pub sec tmp sig : scalar_bytes sec -> random64 tmp -> signature sig ->
  secret_key_to_public_key sec = Some (Some pub) ->
  (exists s, generate_signature ndebug ph pub sec tmp = Some s /\ check_signature ndebug ph pub s = Some true) /\
  (check_signature ndebug ph pub sig = Some true <-> canonical sig /\
     Hs (s_comm ph pub (encode (commit_base (sig_c_val sig) (sig_r_val sig) (base_mul (le_val sec))))) mod L = sig_c_val sig) /\
  check_signature ndebug ph pub sig <> None.
Proof.
  intros Hb Ht Hsig HK%key_pair_secret; [|done]; pose proof HK as [Hs' HP]; split_and!.
  - destruct (generate_signature_ok ph pub sec tmp HK Ht) as (s & E & Hss & Hcan & Hc & Hr); exists s; split; [exact E|].
    rewrite (check_signature_spec ph pub s _ HP Hss), bool_decide_eq_true_2; [done|]; split; [done|].
    unfold commit_base, base_mul; rewrite (response_closes _ _ (le_val tmp)); [exact Hc|apply base_point_order|exact Hr].
  - rewrite (check_signature_spec ph pub sig _ HP Hsig); split.
    + intros E%(inj Some); by apply bool_decide_eq_true in E.
    + intros E; by rewrite bool_decide_eq_true_2.
  - by rewrite (check_signature_spec ph pub sig _ HP Hsig).
Qed.
End Schnorr.

Lemma signature_correct_witness : exists pub s, secret_key_to_public_key (enc_scalar 5) = Some (Some pub) /\
  generate_signature (FH := keccak_FastHash) false [] pub (enc_scalar 5) (repeat 7 64) = Some s /\
  check_signature (FH := keccak_FastHash) false [] pub s = Some true.
Proof.
  pose proof (secret_key_pair _ _ (conj (enc_scalar_ok 5) eq_refl)) as E1.
  destruct (signature_correct (FH := keccak_FastHash) false [] _ _ (repeat 7 64) (repeat 0 64) (enc_scalar_bytes 5)
    ltac:(split; [reflexivity|apply (bool_decide_unpack _); vm_compute; exact I])
    ltac:(split; [reflexivity|apply (bool_decide_unpack _); vm_compute; exact I]) E1) as [(s & Es & Ec) _].
  eexists; exists s; split_and!; [exact E1|exact Es|exact Ec].
Defined.
End Signatures.
