(* ===== verification/RingSignatures.v ===== *)
(** Ring signatures and key images of src/src/crypto/crypto.cpp ([Crypto]): the equation that
    checkRingSignature tests, and that it accepts what generateRingSignatures makes. *)

From S2P Require Import Prelude.
From S2P Require Import Keccak.
From S2P Require Import Group.
From S2P Require Import Curve.
From S2P Require Import Edwards.
From S2P Require Import PointCodec.
From S2P Require Import ScalarMult.
From S2P Require Import BasePoint.
From S2P Require Import DoubleScalarMult.
From S2P Require Import Scalar.
From S2P Require Import ScalarSpec.
From S2P Require Import HashToPoint.
From S2P Require Import GroupOrder.
From S2P Require Import Crypto.
From S2P Require Import CryptoSpec.
From S2P Require Import Signatures.

Module RingSignatures.

Import Keccak Group Curve Edwards PointCodec ScalarMult BasePoint DoubleScalarMult Scalar ScalarSpec
  HashToPoint GroupOrder Crypto CryptoSpec Signatures.

Section Ring.
Context {FH : FastHash} (ndebug : bool).

(** ** Key images *)

(** [Q] is the point [hash_to_ec] makes of a key. *)
Definition hashes_to (key : list Z) (Q : point) : Prop := exists t, hash_to_ec key = Some t /\ p3_rep t Q.

Lemma hash_to_ec_ok key : exists Q, hashes_to key Q /\ zmul L Q = gzero.
Proof.
  destruct (ge_fromfe_frombytes_vartime_spec (cn_fast_hash key)) as (r & P & E & HP);
    [apply cn_fast_hash_length|apply cn_fast_hash_bytes|].
  destruct (ge_mul8_wide r P HP) as (q & Eq & Hq), (ge_p1p1_to_p3_spec q _ Hq) as (t & Et & Ht).
  exists (zmul 8 P); split.
  - exists t; split; [|done]; unfold hash_to_ec; rewrite E; cbn [mbind option_bind]; rewrite Eq; exact Et.
  - rewrite <- zmul_mul, Z.mul_comm; apply curve_exponent.
Qed.

Lemma generate_key_image_ok pub sec Q : scalar sec -> hashes_to pub Q ->
  exists image, generate_key_image ndebug pub sec = Some image /\ key_of image (zmul (le_val sec) Q).
Proof.
  intros Hs' (t & E & Ht); unfold generate_key_image; rewrite assert_true by (by apply sc_check_ok).
  cbn [mbind option_bind]; op E; destruct (scalarmult_ok sec t Q Hs' Ht) as (r & E & Hr); op E.
  eexists; split; [by apply ge_tobytes_spec|reflexivity].
Qed.

(** ** The commitments *)

(** A member of the ring: its point and the hash of its key. *)
Definition member (pub : list Z) (PQ : point * point) : Prop := key_of pub PQ.1 /\ hashes_to pub PQ.2.

Definition commit_image (c r : Z) (Q I : point) : point := zmul r Q ⊕ zmul c I.

(** The bytes of one member in the hashed buffer. *)
Definition member_bytes (I : point) (PQ : point * point) (sig : list Z) : list Z :=
  encode (commit_base (sig_c_val sig) (sig_r_val sig) PQ.1) ++
  encode (commit_image (sig_c_val sig) (sig_r_val sig) PQ.2 I).

Fixpoint ring_bytes (I : point) (ring : list (point * point)) (sigs : list (list Z)) : list Z :=
  match ring, sigs with
  | PQ :: ring, sig :: sigs => member_bytes I PQ sig ++ ring_bytes I ring sigs
  | _, _ => []
  end.

Fixpoint ring_sum (sigs : list (list Z)) : Z :=
  match sigs with [] => 0 | sig :: sigs => sig_c_val sig + ring_sum sigs end.

Lemma ring_bytes_app I ring1 ring2 sigs1 sigs2 : length ring1 = length sigs1 ->
  ring_bytes I (ring1 ++ ring2) (sigs1 ++ sigs2) = ring_bytes I ring1 sigs1 ++ ring_bytes I ring2 sigs2.
Proof.
  revert sigs1; induction ring1 as [|PQ ring1 IH]; intros [|sig sigs1] Hl; try done.
  cbn [app ring_bytes]; rewrite IH by (simpl in Hl; lia); by rewrite app_assoc.
Qed.

Lemma ring_sum_app sigs1 sigs2 : ring_sum (sigs1 ++ sigs2) = ring_sum sigs1 + ring_sum sigs2.
Proof. induction sigs1 as [|sig sigs1 IH]; cbn [app ring_sum]; lia. Qed.

Lemma ring_commit_ok pre I pub PQ sig : odd_table cached_rep pre I -> member pub PQ -> signature sig -> canonical sig ->
  exists a b, ring_commit pre pub sig = Some (Some (a, b)) /\ a ++ b = member_bytes I PQ sig.
Proof.
  intros HI [HP (t & Et & Ht)] Hsig Hcan; destruct (canonical_scalars sig Hsig Hcan) as [Hc Hr]; unfold ring_commit.
  destruct (frombytes_ok pub _ HP) as (h & E & Hh); op E.
  destruct (double_base_ok _ _ h _ Hc Hr Hh) as (u & E & Hu); op E; rewrite (ge_tobytes_spec _ _ Hu); cbn [mbind option_bind].
  op Et; destruct (double_precomp_ok _ _ t pre _ I Hr Hc Ht HI) as (w & E & Hw); op E.
  rewrite (ge_tobytes_spec _ _ Hw); cbn [mbind option_bind]; do 2 eexists; split; reflexivity.
Qed.

Lemma ring_commit_invalid pre pub sig : length pub = 32%nat -> Forall is_byte pub -> (forall P, ~ key_of pub P) ->
  ring_commit pre pub sig = Some None.
Proof.
  intros Hl Hb HN; unfold ring_commit.
  destruct (ge_frombytes_vartime_spec pub Hl Hb) as [(h & P & _ & _ & EP)|[E _]]; [by destruct (HN P)|by rewrite E].
Qed.

(** ** The check *)

Lemma ring_check_loop_ok pre I pubs ring sigs ab sum : odd_table cached_rep pre I -> Forall2 member pubs ring ->
  length sigs = length pubs -> Forall signature sigs -> Forall canonical sigs -> scalar sum ->
  exists sum', ring_check_loop pre pubs sigs ab sum = Some (Some (ab ++ ring_bytes I ring sigs, sum')) /\
    scalar sum' /\ le_val sum' = (le_val sum + ring_sum sigs) mod L.
Proof.
  intros HI HR; revert sigs ab sum; induction HR as [|pub PQ pubs ring HM _ IH]; intros [|sig sigs] ab sum Hl Hs' Hc Hsum; try done.
  - exists sum; cbn [ring_check_loop ring_bytes ring_sum]; rewrite app_nil_r, Z.add_0_r; split_and!; [done..|].
    rewrite Z.mod_small; [done|by apply scalar_range].
  - apply Forall_cons in Hs' as [Hsig Hs'], Hc as [Hcan Hc]; destruct (canonical_scalars sig Hsig Hcan) as [Hsc _].
    destruct (ring_commit_ok pre I pub PQ sig HI HM Hsig Hcan) as (a & b & E & Eab).
    destruct (sc_add_ok sum _ Hsum Hsc) as (sum1 & E1 & Hsum1 & V1).
    destruct (IH sigs (ab ++ a ++ b) sum1 ltac:(simpl in Hl; lia) Hs' Hc Hsum1) as (sum' & EL & Hsum' & V').
    exists sum'; split_and!; [|done|].
    + cbn [ring_check_loop]; unfold ring_check_step; rewrite sc_check_canonical, (bool_decide_eq_true_2 _ Hcan) by done.
      cbn [negb]; rewrite E; cbn [mbind option_bind]; rewrite E1; cbn [mbind option_bind]; rewrite EL.
      cbn [ring_bytes]; rewrite <- Eab, <- !app_assoc; reflexivity.
    + cbn [ring_sum]; rewrite V', V1, Zplus_mod_idemp_l; f_equal; unfold sig_c_val; lia.
Qed.

Lemma ring_check_loop_noncanonical pre I pubs ring sigs ab sum : odd_table cached_rep pre I -> Forall2 member pubs ring ->
  length sigs = length pubs -> Forall signature sigs -> ~ Forall canonical sigs -> scalar sum ->
  ring_check_loop pre pubs sigs ab sum = Some None.
Proof.
  intros HI HR; revert sigs ab sum; induction HR as [|pub PQ pubs ring HM _ IH]; intros [|sig sigs] ab sum Hl Hs' Hc Hsum; try done.
  - destruct Hc; constructor.
  - apply Forall_cons in Hs' as [Hsig Hs']; cbn [ring_check_loop]; unfold ring_check_step.
    rewrite sc_check_canonical by done; destruct (decide (canonical sig)) as [Hcan|Hcan];
      [rewrite (bool_decide_eq_true_2 _ Hcan)|by rewrite (bool_decide_eq_false_2 _ Hcan)]; cbn [negb].
    destruct (canonical_scalars sig Hsig Hcan) as [Hsc _].
    destruct (ring_commit_ok pre I pub PQ sig HI HM Hsig Hcan) as (a & b & E & _); op E.
    destruct (sc_add_ok sum _ Hsum Hsc) as (sum1 & E1 & Hsum1 & _); op E1; cbn [mbind option_bind].
    apply IH; [simpl in Hl; lia|done| |done]; intros Hc'; apply Hc; by constructor.
Qed.

Lemma sc_0_scalar : scalar sc_0 /\ le_val sc_0 = 0.
Proof. split; [split; [split; [reflexivity|apply (bool_decide_unpack _); vm_compute; exact I]|]|]; vm_compute; reflexivity. Qed.

(** The equation: the image is in the prime-order subgroup and the challenges sum to the hash of
    all commitments. *)
Definition ring_equation (ph : list Z) (I : point) (ring : list (point * point)) (sigs : list (list Z)) : Prop :=
  zmul L I = gzero /\ Forall canonical sigs /\ Hs (ph ++ ring_bytes I ring sigs) mod L = ring_sum sigs mod L.

Lemma checkRingSignature_ok ph image I pubs ring sigs : key_of image I -> Forall2 member pubs ring ->
  length sigs = length pubs -> Forall signature sigs ->
  exists b, checkRingSignature ph image pubs sigs = Some b /\ (b = true <-> ring_equation ph I ring sigs).
Proof.
  intros HI HR Hl Hs'; unfold checkRingSignature, ring_equation; destruct (frombytes_ok image I HI) as (h & E & Hh); op E.
  destruct (ge_dsm_precomp_spec h I Hh) as (pre & E & Hpre); op E.
  destruct (ge_check_subgroup_precomp_vartime_spec pre I Hpre) as (n & E & Hn); op E.
  destruct (Z.eqb_spec n 0) as [E0|E0]; cbn [negb].
  2: { exists false; split; [done|]; split; [done|intros (H & _)]; by destruct E0; apply Hn. }
  apply Hn in E0; destruct (sc_0_scalar) as [H0 V0].
  destruct (decide (Forall canonical sigs)) as [Hc|Hc].
  2: { rewrite (ring_check_loop_noncanonical pre I pubs ring sigs [] sc_0) by done; exists false; split; [done|].
       split; [done|intros (_ & H & _)]; by destruct Hc. }
  destruct (ring_check_loop_ok pre I pubs ring sigs [] sc_0 Hpre HR Hl Hs' Hc H0) as (sum & E & Hsum & V); op E.
  destruct (hash_to_scalar_ok (ph ++ [] ++ ring_bytes I ring sigs)) as (hh & E & Hhh & Vh); op E.
  rewrite residue_test by done; eexists; split; [reflexivity|]; rewrite bool_decide_eq_true.
  rewrite Vh, V, V0, Z.add_0_l; cbn [app]; tauto.
Qed.

(** A ring with a key that is not a point, or an image that is not one, is refused. *)
Lemma ring_check_loop_invalid pre I pubs1 ring1 pub pubs2 sigs ab sum : odd_table cached_rep pre I ->
  Forall2 member pubs1 ring1 -> length pub = 32%nat -> Forall is_byte pub -> (forall P, ~ key_of pub P) ->
  length sigs = length (pubs1 ++ pub :: pubs2) -> Forall signature sigs -> scalar sum ->
  ring_check_loop pre (pubs1 ++ pub :: pubs2) sigs ab sum = Some None.
Proof.
  intros HI HR Hlp Hbp HN; revert sigs ab sum.
  induction HR as [|pub1 PQ pubs1 ring1 HM _ IH]; intros [|sig sigs] ab sum Hl Hs' Hsum; try done;
    apply Forall_cons in Hs' as [Hsig Hs']; cbn [app ring_check_loop]; unfold ring_check_step;
    rewrite sc_check_canonical by done; destruct (decide (canonical sig)) as [Hcan|Hcan];
    try (by rewrite (bool_decide_eq_false_2 _ Hcan)); rewrite (bool_decide_eq_true_2 _ Hcan); cbn [negb].
  - by rewrite ring_commit_invalid.
  - destruct (canonical_scalars sig Hsig Hcan) as [Hsc _].
    destruct (ring_commit_ok pre I pub1 PQ sig HI HM Hsig Hcan) as (a & b & E & _); op E.
    destruct (sc_add_ok sum _ Hsum Hsc) as (sum1 & E1 & Hsum1 & _); op E1; cbn [mbind option_bind].
    apply IH; [simpl in Hl; lia|done..].
Qed.

(** ** Signing *)

Lemma ring_sign_loop_app rnd pre j i pubs1 pubs2 st : ring_sign_loop rnd pre j i (pubs1 ++ pubs2) st =
  ('(go, st1) ← ring_sign_loop rnd pre j i pubs1 st;
   if go : bool then ring_sign_loop rnd pre j (i + length pubs1) pubs2 st1 else Some (false, st1)).
Proof.
  revert i st; induction pubs1 as [|pub pubs1 IH]; intros i st; cbn [app ring_sign_loop length].
  - cbn [mbind option_bind]; by rewrite Nat.add_0_r.
  - destruct (ring_sign_step rnd pre j i pub st) as [[[|] st1]|]; cbn [mbind option_bind]; [|done..].
    rewrite IH; by replace (S i + length pubs1)%nat with (i + S (length pubs1))%nat by lia.
Qed.

(** The part of the loop away from the signer's index: fresh canonical signatures, their
    commitments and the sum of their challenges. *)
Lemma ring_sign_others rnd pre I j pubs ring : (forall n, random64 (rnd n)) -> odd_table cached_rep pre I ->
  Forall2 member pubs ring -> forall st i done rest,
  rs_sigs st = done ++ rest -> length done = i -> (length pubs <= length rest)%nat ->
  (j < i \/ i + length pubs <= j)%nat -> scalar (rs_sum st) ->
  exists new st', ring_sign_loop rnd pre j i pubs st = Some (true, st') /\ length new = length pubs /\
    Forall signature new /\ Forall canonical new /\ rs_sigs st' = done ++ new ++ drop (length pubs) rest /\
    rs_ab st' = rs_ab st ++ ring_bytes I ring new /\ rs_k st' = rs_k st /\ scalar (rs_sum st') /\
    le_val (rs_sum st') = (le_val (rs_sum st) + ring_sum new) mod L.
Proof.
  intros Hrnd HI HR; induction HR as [|pub PQ pubs ring HM _ IH]; intros st i dn rest Es Hi Hl Hj Hsum.
  - exists [], st; cbn [ring_sign_loop length ring_bytes ring_sum app drop]; rewrite app_nil_r, Z.add_0_r, Z.mod_small
      by (by apply scalar_range); split_and!; done.
  - destruct rest as [|z rest]; [simpl in Hl; lia|].
    destruct (random_scalar_ok _ (Hrnd (rs_draws st))) as (c & Ec & Hc & _).
    destruct (random_scalar_ok _ (Hrnd (S (rs_draws st)))) as (r & Er & Hr & _).
    destruct (sig_app c r Hc Hr) as (Esc & _ & Hsig & Hcan).
    destruct (ring_commit_ok pre I pub PQ _ HI HM Hsig Hcan) as (a & b & Eab & Hab).
    destruct (sc_add_ok (rs_sum st) c Hsum Hc) as (sum & Esum & Hsum' & Vsum).
    set (st1 := RsState (dn ++ (c ++ r) :: rest) (rs_ab st ++ a ++ b) sum (rs_k st) (S (S (rs_draws st)))).
    assert (Estep : ring_sign_step rnd pre j i pub st = Some (true, st1)).
    { unfold ring_sign_step; rewrite (proj2 (Nat.eqb_neq i j)) by (simpl in Hj; lia).
      rewrite Ec; cbn [mbind option_bind]; rewrite Er; cbn [mbind option_bind]; rewrite Eab; cbn [mbind option_bind].
      rewrite Esum; cbn [mbind option_bind]; unfold st1; do 3 f_equal.
      rewrite Es, <- Hi, insert_app_r_alt by lia; rewrite Nat.sub_diag; done. }
    destruct (IH st1 (S i) (dn ++ [c ++ r]) rest) as (new & st' & E & Hn & Hs1 & Hc1 & H1 & H2 & H3 & H4 & H5).
    { cbn [rs_sigs st1]; by rewrite <- app_assoc. } { rewrite length_app; simpl; lia. } { simpl in Hl; lia. }
    { simpl in Hj; lia. } { done. }
    exists ((c ++ r) :: new), st'; cbn [ring_sign_loop]; rewrite Estep; cbn [mbind option_bind].
    split_and!; [done|simpl; lia|by constructor..| | |done|done|].
    + rewrite H1; cbn [length drop]; by rewrite <- app_assoc.
    + rewrite H2; cbn [rs_ab st1 ring_bytes]; by rewrite <- Hab, <- !app_assoc.
    + rewrite H5; cbn [rs_sum st1 ring_sum]; rewrite Vsum, Zplus_mod_idemp_l; f_equal; unfold sig_c_val; rewrite Esc; lia.
Qed.

Lemma ring_commit_real_ok pub k Q : scalar k -> hashes_to pub Q ->
  exists a b, ring_commit_real pub k = Some (a, b) /\ a ++ b = encode (base_mul (le_val k)) ++ encode (zmul (le_val k) Q).
Proof.
  intros Hk (t & Et & Ht); unfold ring_commit_real; destruct (scalarmult_base_ok k Hk) as (h & E & Hh); op E.
  rewrite (ge_p3_tobytes_spec _ _ Hh); cbn [mbind option_bind]; op Et.
  destruct (scalarmult_ok k t Q Hk Ht) as (w & E & Hw); op E; rewrite (ge_tobytes_spec _ _ Hw); cbn [mbind option_bind].
  do 2 eexists; split; reflexivity.
Qed.

(** The signer's scalars reproduce the commitments to [k]. *)
Lemma member_bytes_real c r k x Q : scalar c -> scalar r -> le_val r = (k - le_val c * x) mod L -> zmul L Q = gzero ->
  member_bytes (zmul x Q) (base_mul x, Q) (c ++ r) = encode (base_mul k) ++ encode (zmul k Q).
Proof.
  intros Hc Hr Vr HL; destruct (sig_app c r Hc Hr) as (Ec & Er & _); unfold member_bytes, sig_c_val, sig_r_val; rewrite Ec, Er.
  cbn [fst snd]; f_equal; f_equal.
  - unfold commit_base, base_mul; apply response_closes; [apply base_point_order|exact Vr].
  - unfold commit_image; rewrite gadd_comm; by apply response_closes.
Qed.

(** A 32-byte key that [check_key] accepts. *)
Definition valid_key (pub : list Z) : Prop := length pub = 32%nat /\ Forall is_byte pub /\ check_key pub = Some true.

Lemma valid_key_point pub : valid_key pub -> exists P, key_of pub P.
Proof.
  intros (Hl & Hb & Hk); destruct (ge_frombytes_vartime_spec pub Hl Hb) as [(h & P & _ & _ & EP)|[E _]]; [by exists P|].
  unfold check_key in Hk; by rewrite E in Hk.
Qed.

Lemma members_exist pubs : Forall valid_key pubs -> exists ring, Forall2 member pubs ring.
Proof.
  induction 1 as [|pub pubs Hp _ [ring IH]]; [by exists []|].
  destruct (valid_key_point pub Hp) as [P HP], (hash_to_ec_ok pub) as (Q & HQ & _).
  exists ((P, Q) :: ring); constructor; [by split|done].
Qed.

Lemma ring_sign_step_real rnd pre i pub st Q : (forall n, random64 (rnd n)) -> hashes_to pub Q ->
  exists k, ring_sign_step rnd pre i i pub st = Some (true, RsState (rs_sigs st)
    (rs_ab st ++ encode (base_mul (le_val k)) ++ encode (zmul (le_val k) Q)) (rs_sum st) (Some k) (S (rs_draws st))) /\ scalar k.
Proof.
  intros Hrnd HQ; destruct (random_scalar_ok _ (Hrnd (rs_draws st))) as (k & Ek & Hk & _).
  destruct (ring_commit_real_ok pub k Q Hk HQ) as (a & b & E & Eab); exists k; split; [|done].
  unfold ring_sign_step; rewrite Nat.eqb_refl, Ek; cbn [mbind option_bind]; rewrite E; cbn [mbind option_bind].
  by rewrite Eab.
Qed.

(** The whole loop for a ring whose signer stands after [pubs1]. *)
Lemma ring_sign_loop_ok rnd pre I pubs1 ring1 pub Q pubs2 ring2 : (forall n, random64 (rnd n)) ->
  odd_table cached_rep pre I -> Forall2 member pubs1 ring1 -> hashes_to pub Q -> Forall2 member pubs2 ring2 ->
  exists new1 z new2 st k, ring_sign_loop rnd pre (length pubs1) 0 (pubs1 ++ pub :: pubs2)
      (RsState (repeat (repeat 0 64) (length (pubs1 ++ pub :: pubs2))) [] sc_0 None 0) = Some (true, st) /\
    length new1 = length pubs1 /\ length new2 = length pubs2 /\ Forall signature (new1 ++ new2) /\
    Forall canonical (new1 ++ new2) /\ rs_sigs st = new1 ++ z :: new2 /\ rs_k st = Some k /\ scalar k /\
    rs_ab st = ring_bytes I ring1 new1 ++ (encode (base_mul (le_val k)) ++ encode (zmul (le_val k) Q)) ++ ring_bytes I ring2 new2 /\
    scalar (rs_sum st) /\ le_val (rs_sum st) = (ring_sum new1 + ring_sum new2) mod L.
Proof.
  intros Hrnd HI HR1 HQ HR2; destruct sc_0_scalar as [H0 V0]; rewrite length_app; cbn [length].
  destruct (ring_sign_others rnd pre I (length pubs1) pubs1 ring1 Hrnd HI HR1
    (RsState (repeat (repeat 0 64) (length pubs1 + S (length pubs2))) [] sc_0 None 0) 0%nat []
    (repeat (repeat 0 64) (length pubs1 + S (length pubs2))) eq_refl eq_refl)
    as (new1 & st1 & E1 & Hl1 & Hs1 & Hc1 & S1 & A1 & K1 & Hsum1 & V1); [rewrite repeat_length; lia|lia|done|].
  cbn [app rs_sum rs_ab] in *; rewrite repeat_app, drop_app_length' in S1 by (by rewrite repeat_length).
  destruct (ring_sign_step_real rnd pre (length pubs1) pub st1 Q Hrnd HQ) as (k & E2 & Hk).
  match type of E2 with _ = Some (true, ?s) => set (st2 := s) in E2 end.
  destruct (ring_sign_others rnd pre I (length pubs1) pubs2 ring2 Hrnd HI HR2 st2 (S (length pubs1))
    (new1 ++ [repeat 0 64]) (repeat (repeat 0 64) (length pubs2)))
    as (new2 & st3 & E3 & Hl2 & Hs2 & Hc2 & S2 & A2 & K2 & Hsum2 & V2).
  { cbn [rs_sigs st2]; rewrite S1; cbn [repeat]; by rewrite <- app_assoc. } { rewrite length_app; simpl; lia. }
  { rewrite repeat_length; lia. } { lia. } { done. }
  exists new1, (repeat 0 64), new2, st3, k; split_and!; try done; try (by apply Forall_app).
  - rewrite ring_sign_loop_app, E1; cbn [mbind option_bind ring_sign_loop]; rewrite Nat.add_0_l, E2; cbn [mbind option_bind].
    exact E3.
  - rewrite S2, drop_ge by (rewrite repeat_length; lia); by rewrite app_nil_r, <- app_assoc.
  - rewrite A2; cbn [rs_ab st2]; rewrite A1; cbn [app]; by rewrite <- !app_assoc.
  - rewrite V2; cbn [rs_sum st2]; rewrite V1, V0, Z.add_0_l, Zplus_mod_idemp_l; done.
Qed.

Lemma challenge_closes h c s s1 s2 : 0 <= h < L -> c = (h - s) mod L -> s = (s1 + s2) mod L -> h = (s1 + (c + s2)) mod L.
Proof.
  intros Hh -> ->; replace (s1 + _) with ((h - (s1 + s2) mod L) mod L + (s1 + s2)) by ring.
  rewrite Zplus_mod_idemp_l, (Z.mod_eq (s1 + s2)) by done.
  replace (_ - _ + _) with (h + (s1 + s2) / L * L) by ring.
  rewrite Z_mod_plus_full; symmetry; by apply Z.mod_small.
Qed.

Lemma generateRingSignatures_ok rnd ph pubs1 pub pubs2 sec image : (forall n, random64 (rnd n)) -> scalar_bytes sec ->
  Forall valid_key (pubs1 ++ pubs2) -> secret_key_to_public_key sec = Some (Some pub) ->
  generate_key_image ndebug pub sec = Some image ->
  exists sigs, generateRingSignatures rnd ph image (pubs1 ++ pub :: pubs2) sec (length pubs1) = Some (true, sigs) /\
    length sigs = length (pubs1 ++ pub :: pubs2) /\ checkRingSignature ph image (pubs1 ++ pub :: pubs2) sigs = Some true /\
    Forall signature sigs.
Proof.
  intros Hrnd Hb [Hv1 Hv2]%Forall_app HK%key_pair_secret HI; [|done]; destruct HK as [Hs' HP].
  destruct (members_exist pubs1 Hv1) as [ring1 HR1], (members_exist pubs2 Hv2) as [ring2 HR2].
  destruct (hash_to_ec_ok pub) as (Q & HQ & HLQ), (generate_key_image_ok pub sec Q Hs' HQ) as (im & Eim & Him).
  rewrite HI in Eim; apply (inj Some) in Eim; subst im.
  destruct (frombytes_ok image _ Him) as (hi & Ehi & Hhi), (ge_dsm_precomp_spec hi _ Hhi) as (pre & Epre & Hpre).
  destruct (ring_sign_loop_ok rnd pre _ pubs1 ring1 pub Q pubs2 ring2 Hrnd Hpre HR1 HQ HR2)
    as (new1 & z & new2 & st & k & EL & Hl1 & Hl2 & Hsig & Hcan & ES & EK & Hk & EA & Hsum & Vsum).
  destruct (hash_to_scalar_ok (ph ++ rs_ab st)) as (h & Eh & Hh & Vh).
  destruct (sc_sub_ok h (rs_sum st) Hh Hsum) as (c & Ec & Hc & Vc).
  destruct (sc_mulsub_ok c sec k Hc Hs' Hk) as (r & Er & Hr & Vr).
  destruct (sig_app c r Hc Hr) as (Esc & _ & Hsigj & Hcanj).
  exists (new1 ++ (c ++ r) :: new2); split_and!.
  - unfold generateRingSignatures; rewrite Ehi; cbn [mbind option_bind]; rewrite Epre; cbn [mbind option_bind].
    rewrite EL; cbn [mbind option_bind negb]; rewrite Eh; cbn [mbind option_bind]; rewrite Ec; cbn [mbind option_bind].
    rewrite EK; cbn [mbind option_bind]; rewrite Er; cbn [mbind option_bind]; do 2 f_equal.
    rewrite ES, <- Hl1, insert_app_r_alt, Nat.sub_diag by lia; done.
  - rewrite !length_app; simpl; lia.
  - assert (HR : Forall2 member (pubs1 ++ pub :: pubs2) (ring1 ++ (base_mul (le_val sec), Q) :: ring2)).
    { apply Forall2_app; [done|constructor; [by split|done]]. }
    apply Forall_app in Hsig as [Hsig1 Hsig2], Hcan as [Hcan1 Hcan2].
    destruct (checkRingSignature_ok ph image _ _ _ (new1 ++ (c ++ r) :: new2) Him HR) as (b & E & Hb').
    { rewrite !length_app; simpl; lia. } { apply Forall_app; split; [done|by constructor]. }
    rewrite E; f_equal; apply Hb'; split_and!.
    + by rewrite zmul_comm, HLQ, zmul_gzero.
    + apply Forall_app; split; [done|by constructor].
    + apply Forall2_length in HR1; rewrite ring_bytes_app by lia; cbn [ring_bytes].
      rewrite (member_bytes_real c r (le_val k)) by done; rewrite <- EA, <- Vh, ring_sum_app; cbn [ring_sum].
      unfold sig_c_val; rewrite Esc; apply (challenge_closes _ _ (le_val (rs_sum st))); [by apply scalar_range|done..].
  - apply Forall_app in Hsig as [Hsig1 Hsig2]; apply Forall_app; split; [done|by constructor].
Qed.

(** C13. An honest signer always succeeds: for any ring of valid keys that
    contains the signer's key at the given position, and any random bytes,
    generateRingSignatures returns signatures that checkRingSignature accepts
    with the signer's key image, subgroup check included. *)
Theorem ring_signature_complete rnd ph pubs1 pub pubs2 sec image : (forall n, random64 (rnd n)) -> scalar_bytes sec ->
  Forall valid_key (pubs1 ++ pubs2) -> secret_key_to_public_key sec = Some (Some pub) ->
  generate_key_image ndebug pub sec = Some image ->
  exists sigs, generateRingSignatures rnd ph image (pubs1 ++ pub :: pubs2) sec (length pubs1) = Some (true, sigs) /\
    length sigs = length (pubs1 ++ pub :: pubs2) /\ checkRingSignature ph image (pubs1 ++ pub :: pubs2) sigs = Some true.
Proof.
  intros H1 H2 H3 H4 H5; destruct (generateRingSignatures_ok rnd ph pubs1 pub pubs2 sec image H1 H2 H3 H4 H5) as (sigs & HE & HL & HC & _).
  by exists sigs.
Qed.

(** Either every key is a point, or there is a first one that is not. *)
Lemma first_invalid pubs : Forall (fun pub => length pub = 32%nat /\ Forall is_byte pub) pubs ->
  (exists ring, Forall2 member pubs ring) \/
  (exists pubs1 ring1 pub pubs2, pubs = pubs1 ++ pub :: pubs2 /\ Forall2 member pubs1 ring1 /\
     length pub = 32%nat /\ Forall is_byte pub /\ forall P, ~ key_of pub P).
Proof.
  induction 1 as [|pub pubs [Hl Hb] _ IH]; [left; by exists []|].
  destruct (ge_frombytes_vartime_spec pub Hl Hb) as [(h & P & _ & _ & EP)|[_ HN]].
  2: { right; exists [], [], pub, pubs; split_and!; [done..|]; intros P HP; by destruct (HN P). }
  destruct (hash_to_ec_ok pub) as (Q & HQ & _).
  destruct IH as [[ring IH]|(pubs1 & ring1 & pub' & pubs2 & -> & HR & H)].
  - left; exists ((P, Q) :: ring); constructor; [split; [by symmetry|done]|done].
  - right; exists (pub :: pubs1), ((P, Q) :: ring1), pub', pubs2; split_and!; try apply H; [done|].
    constructor; [split; [by symmetry|done]|done].
Qed.

(** On all inputs of matching sizes, also when some key is not a point. *)
Lemma checkRingSignature_exact ph image pubs sigs : length image = 32%nat -> Forall is_byte image ->
  Forall (fun pub => length pub = 32%nat /\ Forall is_byte pub) pubs -> length sigs = length pubs -> Forall signature sigs ->
  checkRingSignature ph image pubs sigs <> None /\
  (checkRingSignature ph image pubs sigs = Some true <->
   exists I ring, key_of image I /\ Forall2 member pubs ring /\ ring_equation ph I ring sigs).
Proof.
  intros Hli Hbi Hp Hl Hs'.
  destruct (ge_frombytes_vartime_spec image Hli Hbi) as [(h & I & _ & _ & EI)|[E HN]].
  2: { unfold checkRingSignature; rewrite E; cbn [mbind option_bind]; split; [done|]; split; [done|].
       intros (I & _ & HI & _); by destruct (HN I). }
  assert (HI : key_of image I) by (by symmetry); clear EI; destruct (first_invalid pubs Hp) as [[ring HR]|Hinv].
  - destruct (checkRingSignature_ok ph image I pubs ring sigs HI HR Hl Hs') as (b & E & Hb); rewrite E; split; [done|].
    split; [intros [= ->]; exists I, ring; split_and!; try done; by apply Hb|].
    intros (I' & ring' & HI' & HR' & Heq); f_equal; rewrite <- (key_of_inj _ _ _ HI HI') in Heq.
    destruct (checkRingSignature_ok ph image I pubs ring' sigs HI HR' Hl Hs') as (b' & E' & Hb').
    rewrite E in E'; injection E' as ->; by apply Hb'.
  - destruct Hinv as (pubs1 & ring1 & pub & pubs2 & -> & HR1 & Hlp & Hbp & HN).
    destruct (frombytes_ok image I HI) as (h' & Eh & Hh), (ge_dsm_precomp_spec h' I Hh) as (pre & Epre & Hpre).
    destruct (ge_check_subgroup_precomp_vartime_spec pre I Hpre) as (n & En & _).
    assert (E : checkRingSignature ph image (pubs1 ++ pub :: pubs2) sigs = Some false).
    { unfold checkRingSignature; rewrite Eh; cbn [mbind option_bind]; rewrite Epre; cbn [mbind option_bind].
      rewrite En; cbn [mbind option_bind]; destruct (n =? 0); cbn [negb]; [|done].
      by rewrite (ring_check_loop_invalid pre I pubs1 ring1) by (try done; apply sc_0_scalar). }
    rewrite E; split; [done|]; split; [done|]; intros (_ & ring & _ & HR & _).
    apply Forall2_app_inv_l in HR as (r1 & r2 & _ & HR & _); inversion HR as [|? PQ ? ? [HP _]]; by destruct (HN PQ.1).
Qed.

(** C12. checkRingSignature returns on all inputs of matching sizes, and
    accepts exactly when the key image and all keys are points, the image is
    annihilated by the group order, all scalars are canonical, and the
    challenges add up, modulo the group order, to the hash of the prefix and
    of all commitments c P + r G and r H(P) + c I. *)
Theorem ring_check_exact ph image pubs sigs : length image = 32%nat -> Forall is_byte image ->
  Forall (fun pub => length pub = 32%nat /\ Forall is_byte pub) pubs -> length sigs = length pubs -> Forall signature sigs ->
  checkRingSignature ph image pubs sigs <> None /\
  (checkRingSignature ph image pubs sigs = Some true <->
   exists I ring, key_of image I /\ Forall2 member pubs ring /\ ring_equation ph I ring sigs).
Proof. apply checkRingSignature_exact. Qed.
End Ring.

Lemma ring_signature_complete_witness : exists pub other image sigs,
  generate_key_image (FH := keccak_FastHash) false pub (enc_scalar 5) = Some image /\
  generateRingSignatures (FH := keccak_FastHash) (fun _ => repeat 7 64) [] image [other; pub] (enc_scalar 5) 1 = Some (true, sigs) /\
  checkRingSignature (FH := keccak_FastHash) [] image [other; pub] sigs = Some true.
Proof.
  pose proof (secret_key_pair _ _ (conj (enc_scalar_ok 5) eq_refl)) as E1.
  destruct (hash_to_ec_ok (FH := keccak_FastHash) (encode (base_mul (le_val (enc_scalar 5))))) as (Q & HQ & _).
  destruct (generate_key_image_ok (FH := keccak_FastHash) false _ _ Q (enc_scalar_ok 5) HQ) as (image & EI & _).
  assert (Hr : random64 (repeat 7 64)) by (split; [reflexivity|apply (bool_decide_unpack _); vm_compute; exact I]).
  assert (Hv : Forall (valid_key) ([encode (base_mul 3)] ++ [])).
  { constructor; [|constructor]; split_and!; [apply encode_length|apply encode_bytes|by apply (check_key_ok _ (base_mul 3))]. }
  destruct (ring_signature_complete (FH := keccak_FastHash) false (fun _ => repeat 7 64) [] _ _ _ _ image
    (fun _ => Hr) (enc_scalar_bytes 5) Hv E1 EI) as (sigs & ES & _ & EC).
  do 2 eexists; exists image, sigs; split_and!; [exact EI|exact ES|exact EC].
Defined.

Lemma ring_check_exact_witness : checkRingSignature (FH := keccak_FastHash) [] (repeat 255 32) [repeat 255 32] [repeat 0 64] <> None.
Proof.
  apply ring_check_exact; [reflexivity| |constructor; [split; [reflexivity|]|constructor]|reflexivity|
    constructor; [split; [reflexivity|]|constructor]]; apply (bool_decide_unpack _); vm_compute; exact I.
Defined.
End RingSignatures.
