(* ===== verification/CachedTransaction.v ===== *)
(** Transactions as the node handles them: src/src/CryptoNoteCore/CachedTransaction.cpp, the
    spent key images of src/src/CryptoNoteCore/TransactionValidatiorState.cpp, and the ring
    size limits of src/src/CryptoNoteCore/Mixins.h.

    A cached transaction is the transaction with its binary form; hashes and fees are computed
    from them, as the lazily filled members of the source are.  The unordered set of spent key
    images is a [gset].  [ndebug] tells whether assertions are compiled out; a failed assertion
    is [None]. *)

From S2P Require Import Prelude.
From S2P Require Import Config.
From S2P Require Import Types.
From S2P Require Import Varint.
From S2P Require Import Keccak.
From S2P Require Import FormatUtils.
From S2P Require Import Serialization.
From S2P Require Import Block.
From S2P Require Import Crypto.

Module CachedTransaction.

Import parameters Varint FormatUtils Serialization Block.

Record CachedTransaction := mkCached {
  ct_transaction : Transaction;
  ct_binaryArray : BinaryArray }.

(** CachedTransaction(const Transaction&): the binary form is made when it is first asked for,
    and an object that cannot be serialized throws. *)
Definition cached_of_Transaction (transaction : Transaction) : result stream_error CachedTransaction :=
  let! ba := put_Transaction transaction in Ok (mkCached transaction ba).

(** CachedTransaction(const BinaryArray&) *)
Definition cached_of_BinaryArray (ba : BinaryArray) : result stream_error CachedTransaction :=
  let! transaction := fromBinaryArray get_Transaction ba in Ok (mkCached transaction ba).

Section Hashes.
Context {FH : FastHash}.

Definition getTransactionHash (c : CachedTransaction) : Hash := cn_fast_hash (ct_binaryArray c).

(** getObjectHash leaves the null hash when serialization fails. *)
Definition getTransactionPrefixHash (c : CachedTransaction) : Hash :=
  match getObjectHash (put_TransactionPrefix (ct_transaction c)) with
  | Ok h => h
  | Err _ => repeat 0 32
  end.
End Hashes.

(** The loops of getTransactionFee; a BaseInput makes the function return 0. *)
Definition summaryOutputAmount (outputs : list TransactionOutput) : Z :=
  fold_left (fun sum out => u64 (sum + o_amount out)) outputs 0.

Fixpoint summaryInputAmount (sum : Z) (inputs : list TransactionInput) : option Z :=
  match inputs with
  | [] => Some sum
  | InKey k :: inputs => summaryInputAmount (u64 (sum + ki_amount k)) inputs
  | InBase _ :: _ => None
  end.

Definition getTransactionFee (c : CachedTransaction) : Z :=
  match summaryInputAmount 0 (tx_inputs (ct_transaction c)) with
  | None => 0
  | Some sum => u64 (sum - summaryOutputAmount (tx_outputs (ct_transaction c)))
  end.

(** ** Spent key images *)

Record TransactionValidatorState := mkValidatorState { spentKeyImages : gset KeyImage }.

Definition mergeStates (destination source : TransactionValidatorState) : TransactionValidatorState :=
  mkValidatorState (spentKeyImages destination ∪ spentKeyImages source).

Definition hasIntersections (destination source : TransactionValidatorState) : bool :=
  existsb (fun ki => bool_decide (ki ∈ spentKeyImages destination)) (elements (spentKeyImages source)).

Section Assertions.
Context (ndebug : bool).

(** The loop of excludeFromState. *)
Fixpoint exclude_inputs (images : gset KeyImage) (inputs : list TransactionInput) : option (gset KeyImage) :=
  match inputs with
  | [] => Some images
  | InKey k :: inputs =>
    _ ← Crypto.assert_that ndebug (bool_decide (ki_keyImage k ∈ images));
    exclude_inputs (images ∖ {[ki_keyImage k]}) inputs
  | InBase _ :: inputs =>
    _ ← Crypto.assert_that ndebug false;
    exclude_inputs images inputs
  end.

Definition excludeFromState (state : TransactionValidatorState) (c : CachedTransaction)
  : option TransactionValidatorState :=
  images ← exclude_inputs (spentKeyImages state) (tx_inputs (ct_transaction c));
  Some (mkValidatorState images).

(** The loop of Core's extractSpentOutputs. *)
Fixpoint extract_inputs (images : gset KeyImage) (inputs : list TransactionInput) : option (gset KeyImage) :=
  match inputs with
  | [] => Some images
  | InKey k :: inputs =>
    _ ← Crypto.assert_that ndebug (bool_decide (ki_keyImage k ∉ images));
    extract_inputs ({[ki_keyImage k]} ∪ images) inputs
  | InBase _ :: inputs =>
    _ ← Crypto.assert_that ndebug false;
    extract_inputs images inputs
  end.

Definition extractSpentOutputs (c : CachedTransaction) : option TransactionValidatorState :=
  images ← extract_inputs ∅ (tx_inputs (ct_transaction c));
  Some (mkValidatorState images).

Definition extractSpentOutputs_all (transactions : list CachedTransaction) : option TransactionValidatorState :=
  fold_left (fun acc c =>
    result ← acc; outputs ← extractSpentOutputs c; Some (mergeStates result outputs))
    transactions (Some (mkValidatorState ∅)).
End Assertions.

(** ** Mixins *)

Inductive MixinError := MIXIN_BELOW_THRESHOLD | MIXIN_ABOVE_THRESHOLD.

(** (minMixin, maxMixin, defaultMixin) *)
Definition getMixinAllowableRange (height : Z) : Z * Z * Z :=
  if height >=? MIXIN_LIMITS_V3_HEIGHT then (MINIMUM_MIXIN_V3, MAXIMUM_MIXIN_V3, DEFAULT_MIXIN_V3)
  else if height >=? MIXIN_LIMITS_V2_HEIGHT then (MINIMUM_MIXIN_V2, MAXIMUM_MIXIN_V2, DEFAULT_MIXIN_V2)
  else if height >=? MIXIN_LIMITS_V1_HEIGHT then (MINIMUM_MIXIN_V1, MAXIMUM_MIXIN_V1, DEFAULT_MIXIN_V1)
  else (0, 2 ^ 64 - 1, DEFAULT_MIXIN_V0).

(** validate(mixin, height), used by the wallet service. *)
Definition validate_mixin (mixin height : Z) : result MixinError unit :=
  let '(minMixin, maxMixin, _) := getMixinAllowableRange height in
  if mixin <? minMixin then Err MIXIN_BELOW_THRESHOLD
  else if mixin >? maxMixin then Err MIXIN_ABOVE_THRESHOLD
  else Ok tt.

(** The loop over the inputs: the size of the largest ring, at least 1. *)
Definition ringSize (inputs : list TransactionInput) : Z :=
  fold_left (fun ringSize i =>
    match i with
    | InBase _ => ringSize
    | InKey k =>
      let currentRingSize := Z.of_nat (length (ki_outputIndexes k)) in
      if currentRingSize >? ringSize then currentRingSize else ringSize
    end) inputs 1.

(** validate(transaction, minMixin, maxMixin) *)
Definition validate_transaction (c : CachedTransaction) (minMixin maxMixin : Z) : result MixinError unit :=
  let mixin := ringSize (tx_inputs (ct_transaction c)) - 1 in
  if mixin >? maxMixin then Err MIXIN_ABOVE_THRESHOLD
  else if mixin <? minMixin then Err MIXIN_BELOW_THRESHOLD
  else Ok tt.

(** validate(transactions, height), used by the node. *)
Fixpoint validate_each (minMixin maxMixin : Z) (transactions : list CachedTransaction) : result MixinError unit :=
  match transactions with
  | [] => Ok tt
  | c :: transactions =>
    let! _ := validate_transaction c minMixin maxMixin in validate_each minMixin maxMixin transactions
  end.

Definition validate_mixins (transactions : list CachedTransaction) (height : Z) : result MixinError unit :=
  let '(minMixin, maxMixin, _) := getMixinAllowableRange height in
  validate_each minMixin maxMixin transactions.

(** ** Properties of the operations *)

Definition is_key (i : TransactionInput) : Prop := match i with InKey _ => True | InBase _ => False end.

Definition key_images (inputs : list TransactionInput) : list KeyImage :=
  omap (fun i => match i with InKey k => Some (ki_keyImage k) | InBase _ => None end) inputs.

Definition images_of (c : CachedTransaction) : list KeyImage := key_images (tx_inputs (ct_transaction c)).

(** Every input spends an output, and no key image occurs twice. *)
Definition spends_once (c : CachedTransaction) : Prop :=
  Forall is_key (tx_inputs (ct_transaction c)) /\ NoDup (images_of c).

Lemma hasIntersections_spec d s : hasIntersections d s = false <-> spentKeyImages s ## spentKeyImages d.
Proof.
  unfold hasIntersections; split.
  - intros H x Hs Hd; apply not_true_iff_false in H; apply H, existsb_exists.
    exists x; split; [by apply list_elem_of_In, elem_of_elements|by apply bool_decide_eq_true].
  - intros H; apply not_true_iff_false; intros (x & Hs & Hd)%existsb_exists.
    apply list_elem_of_In, elem_of_elements in Hs; apply bool_decide_eq_true in Hd; exact (H x Hs Hd).
Qed.

Lemma exclude_inputs_ok nd images inputs :
  Forall is_key inputs -> NoDup (key_images inputs) -> list_to_set (key_images inputs) ⊆ images ->
  exclude_inputs nd images inputs = Some (images ∖ list_to_set (key_images inputs)).
Proof.
  intros Hk; revert images; induction Hk as [|[b|k] inputs Hi Hk IH]; intros images Hn Hs; [|done|].
  - simpl; f_equal; set_solver.
  - unfold key_images in *; simpl in *; apply NoDup_cons in Hn as [Hn Hnd].
    unfold Crypto.assert_that; rewrite bool_decide_eq_true_2 by set_solver; rewrite orb_true_r; simpl.
    rewrite IH; [f_equal; set_solver|done|].
    intros x Hx; apply elem_of_difference; split; [set_solver|].
    intros ->%elem_of_singleton; apply elem_of_list_to_set in Hx; done.
Qed.

Lemma excludeFromState_ok nd st c : spends_once c -> list_to_set (images_of c) ⊆ spentKeyImages st ->
  excludeFromState nd st c = Some (mkValidatorState (spentKeyImages st ∖ list_to_set (images_of c))).
Proof. intros [Hk Hn] Hs; unfold excludeFromState; by rewrite exclude_inputs_ok. Qed.

Lemma extract_inputs_ok nd images inputs :
  Forall is_key inputs -> NoDup (key_images inputs) -> (forall x, x ∈ key_images inputs -> x ∉ images) ->
  extract_inputs nd images inputs = Some (list_to_set (key_images inputs) ∪ images).
Proof.
  intros Hk; revert images; induction Hk as [|[b|k] inputs Hi Hk IH]; intros images Hn Hs; [|done|].
  - simpl; f_equal; set_solver.
  - unfold key_images in *; simpl in *; apply NoDup_cons in Hn as [Hn Hnd].
    unfold Crypto.assert_that; rewrite bool_decide_eq_true_2 by (apply Hs, list_elem_of_here).
    rewrite orb_true_r; simpl; rewrite IH; [f_equal; set_solver|done|].
    intros x Hx; specialize (Hs x (list_elem_of_further _ _ _ Hx)); set_solver.
Qed.

Lemma extractSpentOutputs_ok nd c : spends_once c ->
  extractSpentOutputs nd c = Some (mkValidatorState (list_to_set (images_of c))).
Proof.
  intros [Hk Hn]; unfold extractSpentOutputs; rewrite extract_inputs_ok by (done || set_solver); simpl.
  do 2 f_equal; set_solver.
Qed.

(** *** Fees *)

Lemma fold_u64_total {A} (f : A -> Z) l s :
  fold_left (fun s a => u64 (s + f a)) l (u64 s) = u64 (s + sumZ (map f l)).
Proof.
  revert s; induction l as [|a l IH]; intros s; simpl; [by rewrite Z.add_0_r|].
  unfold wrap in *; rewrite Zplus_mod_idemp_l, IH; f_equal; unfold sumZ; lia.
Qed.

Lemma summaryOutputAmount_total outputs : summaryOutputAmount outputs = u64 (outputs_total outputs).
Proof. exact (fold_u64_total o_amount outputs 0). Qed.

Lemma summaryInputAmount_total s inputs : Forall is_key inputs ->
  summaryInputAmount (u64 s) inputs = Some (u64 (s + inputs_total inputs)).
Proof.
  intros H; revert s; induction H as [|[b|k] l Hi _ IH]; intros s; simpl; [by rewrite Z.add_0_r|done|].
  rewrite inputs_total_cons; simpl; unfold wrap in *; rewrite Zplus_mod_idemp_l, IH; do 2 f_equal; lia.
Qed.

(** The fee of a transaction whose amounts do not overflow and whose outputs do not exceed its
    inputs. *)
Lemma getTransactionFee_exact c :
  Forall is_key (tx_inputs (ct_transaction c)) ->
  0 <= outputs_total (tx_outputs (ct_transaction c)) <= inputs_total (tx_inputs (ct_transaction c)) ->
  inputs_total (tx_inputs (ct_transaction c)) < 2 ^ 64 ->
  getTransactionFee c =
    inputs_total (tx_inputs (ct_transaction c)) - outputs_total (tx_outputs (ct_transaction c)).
Proof.
  intros Hk Ho Hi; unfold getTransactionFee; change 0 with (u64 0).
  rewrite (summaryInputAmount_total 0), summaryOutputAmount_total by done; rewrite Z.add_0_l.
  by unwrap.
Qed.

Lemma getTransactionFee_range c : in_u 64 (getTransactionFee c).
Proof. unfold getTransactionFee; case_match; [by apply wrap_range|unfold in_u; lia]. Qed.

(** *** Ring sizes *)

Definition rings (inputs : list TransactionInput) : list (list Z) :=
  omap (fun i => match i with InKey k => Some (ki_outputIndexes k) | InBase _ => None end) inputs.

Lemma ringSize_spec inputs : 
  ringSize inputs = foldr (fun r m => Z.max (Z.of_nat (length r)) m) 1 (rings inputs).
Proof.
  unfold ringSize; generalize 1 at 1 2; induction inputs as [|[b|k] l IH]; intros m; [done|apply IH|].
  simpl; rewrite IH; change (rings (InKey k :: l)) with (ki_outputIndexes k :: rings l); simpl.
  generalize (rings l) as rs; intros rs; rewrite Z.gtb_ltb; destruct (Z.ltb_spec m (Z.of_nat (length (ki_outputIndexes k)))).
  - induction rs as [|r rs IHr]; simpl; lia.
  - induction rs as [|r rs IHr]; simpl; lia.
Qed.

Lemma ring_max_le (rs : list (list Z)) m n : foldr (fun r m => Z.max (Z.of_nat (length r)) m) m rs <= n <->
  m <= n /\ Forall (fun r => Z.of_nat (length r) <= n) rs.
Proof. induction rs as [|r rs IH]; simpl; [rewrite Forall_nil; tauto|]; rewrite Forall_cons, Z.max_lub_iff, IH; tauto. Qed.

Lemma ring_max_ge (rs : list (list Z)) m n : n <= foldr (fun r m => Z.max (Z.of_nat (length r)) m) m rs <->
  n <= m \/ Exists (fun r => n <= Z.of_nat (length r)) rs.
Proof.
  induction rs as [|r rs IH]; simpl; [rewrite Exists_nil; naive_solver|]; rewrite Exists_cons.
  rewrite Z.max_le_iff, IH; tauto.
Qed.

(** A transaction passes when no ring is too large and, unless the minimum is zero, one of its
    rings is large enough. *)
Lemma validate_transaction_spec c minMixin maxMixin : 0 <= minMixin -> 0 <= maxMixin ->
  validate_transaction c minMixin maxMixin = Ok tt <->
    Forall (fun r => Z.of_nat (length r) <= maxMixin + 1) (rings (tx_inputs (ct_transaction c))) /\
    (minMixin = 0 \/ Exists (fun r => minMixin + 1 <= Z.of_nat (length r)) (rings (tx_inputs (ct_transaction c)))).
Proof.
  intros Hmin Hmax; unfold validate_transaction; rewrite ringSize_spec.
  set (rs := rings _); set (m := foldr _ 1 rs).
  pose proof (ring_max_le rs 1 (maxMixin + 1)) as Hle; pose proof (ring_max_ge rs 1 (minMixin + 1)) as Hge.
  fold m in Hle, Hge; rewrite Z.gtb_ltb.
  assert (Hm : forall P : Prop, (minMixin + 1 <= 1 \/ P) <-> (minMixin = 0 \/ P)) by (intros P; split; (intros [?|?]; [left; lia|by right])).
  rewrite Hm in Hge.
  destruct (Z.ltb_spec maxMixin (m - 1)); [|destruct (Z.ltb_spec (m - 1) minMixin)].
  - split; [discriminate|intros [H1 _]; exfalso; assert (m <= maxMixin + 1) by (apply Hle; split; [lia|done]); lia].
  - split; [discriminate|intros [_ H2]; exfalso; apply Hge in H2; lia].
  - split; [intros _; split; [apply Hle; lia|apply Hge; lia]|done].
Qed.

Lemma validate_each_spec minMixin maxMixin l :
  validate_each minMixin maxMixin l = Ok tt <-> Forall (fun c => validate_transaction c minMixin maxMixin = Ok tt) l.
Proof.
  induction l as [|c l IH]; simpl; [by rewrite Forall_nil|].
  rewrite Forall_cons, rbind_Ok, <- IH; split.
  - by intros ([] & ? & ?).
  - by intros [? ?]; exists tt.
Qed.

Lemma mixin_range_nonneg height minMixin maxMixin d :
  getMixinAllowableRange height = (minMixin, maxMixin, d) -> 0 <= minMixin <= maxMixin.
Proof.
  unfold getMixinAllowableRange, MINIMUM_MIXIN_V3, MAXIMUM_MIXIN_V3, MINIMUM_MIXIN_V2, MAXIMUM_MIXIN_V2,
    MINIMUM_MIXIN_V1, MAXIMUM_MIXIN_V1; repeat case_match; intros [= <- <- <-]; lia.
Qed.

(** Mixins::validate accepts a list of transactions exactly when in each
    transaction no ring exceeds the upper limit of the height and, if the
    lower limit is not zero, at least one ring reaches it: the other rings are
    not bounded from below. *)
Theorem mixin_limits_exact transactions height :
  let '(minMixin, maxMixin, defaultMixin) := getMixinAllowableRange height in
  (minMixin <= defaultMixin <= maxMixin /\ (minMixin, maxMixin) =
     if 800000 <=? height then (3, 3) else if 620000 <=? height then (7, 7)
     else if 440000 <=? height then (0, 100) else (0, 2 ^ 64 - 1)) /\
  (validate_mixins transactions height = Ok tt <-> Forall (fun c =>
     Forall (fun r => Z.of_nat (length r) <= maxMixin + 1) (rings (tx_inputs (ct_transaction c))) /\
     (minMixin = 0 \/
      Exists (fun r => minMixin + 1 <= Z.of_nat (length r)) (rings (tx_inputs (ct_transaction c)))))
     transactions).
Proof.
  destruct (getMixinAllowableRange height) as [[minMixin maxMixin] d] eqn:E.
  pose proof (mixin_range_nonneg _ _ _ _ E) as Hr; split.
  - unfold getMixinAllowableRange in E; rewrite !Z.geb_leb in E.
    unfold MIXIN_LIMITS_V3_HEIGHT, MIXIN_LIMITS_V2_HEIGHT, MIXIN_LIMITS_V1_HEIGHT in E.
    repeat case_match; injection E as <- <- <-; split; try done; unfold DEFAULT_MIXIN_V0; zpow_norm; lia.
  - unfold validate_mixins; rewrite E, validate_each_spec; apply Forall_iff; intros c.
    apply validate_transaction_spec; lia.
Qed.

(** *** Binary forms *)

(** A cached transaction holds a readable transaction and its binary form. *)
Definition cached (c : CachedTransaction) : Prop :=
  ok_transaction (ct_transaction c) /\ put_Transaction (ct_transaction c) = Ok (ct_binaryArray c).

Lemma cached_of_BinaryArray_cached ba c : Forall is_byte ba -> cached_of_BinaryArray ba = Ok c -> cached c.
Proof.
  intros Hb (t & E & [= <-])%rbind_Ok; apply (fromBinaryArray_exact _ _ _ _ _ Hb) in E as [Ht E]; by split.
Qed.

Lemma cached_of_Transaction_cached t : ok_transaction t -> exists c, cached_of_Transaction t = Ok c /\ cached c.
Proof.
  intros Ht; destruct (transaction_writes t Ht) as (ba & E & _); exists (mkCached t ba).
  unfold cached_of_Transaction, cached; rewrite E; done.
Qed.

End CachedTransaction.
