(* ===== verification/TransactionPool.v ===== *)
(** The memory pool: src/src/CryptoNoteCore/TransactionPool.cpp and the cleaning wrapper of
    src/src/CryptoNoteCore/TransactionPoolCleaner.cpp.

    The multi-index container is the list of pending transactions in the order of its cost
    index; the index by hash is a search in that list, the index by payment id a filter (the
    order inside a hashed index is unspecified; the model takes the cost order).  The clock is
    an argument.  [None] is undefined behaviour: a failed assertion, or an end iterator that is
    dereferenced. *)

From S2P Require Import Prelude.
From S2P Require Import Types.
From S2P Require Import IntUtil.
From S2P Require Import Keccak.
From S2P Require Import TransactionExtra.
From S2P Require Import Crypto.
From S2P Require Import CachedTransaction.

Module TransactionPool.

Import IntUtil TransactionExtra CachedTransaction.

Record PendingTransactionInfo := mkPending {
  receiveTime : Z;
  cachedTransaction : CachedTransaction;
  paymentId : option Hash }.

Record TransactionPool := mkPool {
  poolState : TransactionValidatorState;
  transactions : list PendingTransactionInfo }.

Definition blobSize (c : CachedTransaction) : Z := Z.of_nat (length (ct_binaryArray c)).

(** TransactionPriorityComparator: whether the left transaction goes first. *)
Definition TransactionPriorityComparator (lhs rhs : PendingTransactionInfo) : bool :=
  let left := cachedTransaction lhs in
  let right := cachedTransaction rhs in
  let '(lhs_lo, lhs_hi) := mul128 (getTransactionFee left) (blobSize right) in
  let '(rhs_lo, rhs_hi) := mul128 (getTransactionFee right) (blobSize left) in
  (lhs_hi >? rhs_hi) ||
  ((lhs_hi =? rhs_hi) && (lhs_lo >? rhs_lo)) ||
  ((lhs_hi =? rhs_hi) && (lhs_lo =? rhs_lo) && (blobSize left <? blobSize right)) ||
  ((lhs_hi =? rhs_hi) && (lhs_lo =? rhs_lo) && (blobSize left =? blobSize right) &&
   (receiveTime lhs <? receiveTime rhs)).

#[global] Arguments TransactionPriorityComparator : simpl never.

(** An ordered non-unique index inserts at the upper bound. *)
Fixpoint insert_cost (p : PendingTransactionInfo) (l : list PendingTransactionInfo) : list PendingTransactionInfo :=
  match l with
  | [] => [p]
  | q :: l => if TransactionPriorityComparator p q then p :: q :: l else q :: insert_cost p l
  end.

Section Pool.
Context {FH : FastHash}.
Context (ndebug : bool).

Definition pending_hash (p : PendingTransactionInfo) : Hash := getTransactionHash (cachedTransaction p).

Definition find_hash (hash : Hash) (l : list PendingTransactionInfo) : option PendingTransactionInfo :=
  find (fun p => bool_decide (pending_hash p = hash)) l.

Definition erase_hash (hash : Hash) (l : list PendingTransactionInfo) : list PendingTransactionInfo :=
  filter (fun p => pending_hash p <> hash) l.

(** [now] is time(nullptr). *)
Definition pushTransaction (now : Z) (transaction : CachedTransaction)
    (transactionState : TransactionValidatorState) (pool : TransactionPool) : bool * TransactionPool :=
  let pendingTx := mkPending (u64 now) transaction
                     (getPaymentIdFromTxExtra (tx_extra (ct_transaction transaction))) in
  if bool_decide (is_Some (find_hash (pending_hash pendingTx) (transactions pool))) then (false, pool)
  else if hasIntersections (poolState pool) transactionState then (false, pool)
  else (true, mkPool (mergeStates (poolState pool) transactionState)
                     (insert_cost pendingTx (transactions pool))).

Definition getTransaction (hash : Hash) (pool : TransactionPool) : option CachedTransaction :=
  it ← find_hash hash (transactions pool); Some (cachedTransaction it).

Definition removeTransaction (hash : Hash) (pool : TransactionPool) : option (bool * TransactionPool) :=
  match find_hash hash (transactions pool) with
  | None => Some (false, pool)
  | Some it =>
    state ← excludeFromState ndebug (poolState pool) (cachedTransaction it);
    Some (true, mkPool state (erase_hash hash (transactions pool)))
  end.

Definition getTransactionCount (pool : TransactionPool) : Z := Z.of_nat (length (transactions pool)).

Definition getTransactionHashes (pool : TransactionPool) : list Hash := map pending_hash (transactions pool).

Definition checkIfTransactionPresent (hash : Hash) (pool : TransactionPool) : bool :=
  bool_decide (is_Some (find_hash hash (transactions pool))).

Definition getPoolTransactionValidationState (pool : TransactionPool) : TransactionValidatorState := poolState pool.

Definition getPoolTransactions (pool : TransactionPool) : list CachedTransaction :=
  map cachedTransaction (transactions pool).

Definition getTransactionReceiveTime (hash : Hash) (pool : TransactionPool) : option Z :=
  it ← find_hash hash (transactions pool); Some (receiveTime it).

Definition getTransactionHashesByPaymentId (id : Hash) (pool : TransactionPool) : list Hash :=
  map pending_hash (filter (fun p => paymentId p = Some id) (transactions pool)).

(** ** TransactionPoolCleanWrapper *)

Record TransactionPoolCleanWrapper := mkWrapper {
  transactionPool : TransactionPool;
  recentlyDeletedTransactions : gmap Hash Z;
  timeout : Z }.

Definition isTransactionRecentlyDeleted (hash : Hash) (w : TransactionPoolCleanWrapper) : bool :=
  match recentlyDeletedTransactions w !! hash with
  | Some t => t >=? timeout w
  | None => false
  end.

Definition wrapper_pushTransaction (now : Z) (tx : CachedTransaction) (st : TransactionValidatorState)
    (w : TransactionPoolCleanWrapper) : bool * TransactionPoolCleanWrapper :=
  if isTransactionRecentlyDeleted (getTransactionHash tx) w then (false, w)
  else let '(r, pool) := pushTransaction now tx st (transactionPool w) in
       (r, mkWrapper pool (recentlyDeletedTransactions w) (timeout w)).

Definition cleanRecentlyDeletedTransactions (currentTime : Z) (w : TransactionPoolCleanWrapper)
  : TransactionPoolCleanWrapper :=
  mkWrapper (transactionPool w)
    (filter (fun kv => ~ timeout w <= u64 (currentTime - kv.2)) (recentlyDeletedTransactions w))
    (timeout w).

(** recentlyDeletedTransactions.emplace(hash, currentTime); removeTransaction(hash): an entry
    that exists is not replaced. *)
Definition delete_transaction (currentTime : Z) (hash : Hash) (w : TransactionPoolCleanWrapper)
  : option TransactionPoolCleanWrapper :=
  '(_, pool) ← removeTransaction hash (transactionPool w);
  Some (mkWrapper pool
    (match recentlyDeletedTransactions w !! hash with
     | Some _ => recentlyDeletedTransactions w
     | None => <[hash := currentTime]> (recentlyDeletedTransactions w)
     end) (timeout w)).

(** The body of the loop of clean; [deleted] is deletedTransactions. *)
Definition clean_step (currentTime height : Z) (hash : Hash)
    (s : list Hash * TransactionPoolCleanWrapper) : option (list Hash * TransactionPoolCleanWrapper) :=
  let '(deleted, w) := s in
  time ← getTransactionReceiveTime hash (transactionPool w);
  let transactionAge := u64 (currentTime - time) in
  '(deleted, w) ← (if transactionAge >=? timeout w then
      w ← delete_transaction currentTime hash w; Some (deleted ++ [hash], w)
    else Some (deleted, w));
  transaction ← getTransaction hash (transactionPool w);
  if is_Ok (validate_mixins [transaction] height) then Some (deleted, w)
  else w ← delete_transaction currentTime hash w; Some (deleted ++ [hash], w).

Fixpoint clean_loop (currentTime height : Z) (hashes : list Hash)
    (s : list Hash * TransactionPoolCleanWrapper) : option (list Hash * TransactionPoolCleanWrapper) :=
  match hashes with
  | [] => Some s
  | hash :: hashes => s ← clean_step currentTime height hash s; clean_loop currentTime height hashes s
  end.

Definition clean (currentTime height : Z) (w : TransactionPoolCleanWrapper)
  : option (list Hash * TransactionPoolCleanWrapper) :=
  '(deleted, w) ← clean_loop currentTime height (getTransactionHashes (transactionPool w)) ([], w);
  Some (deleted, cleanRecentlyDeletedTransactions currentTime w).
End Pool.

(** ** The order of the cost index *)

(** Pending transactions whose size is that of a vector, and not zero. *)
Definition sized (p : PendingTransactionInfo) : Prop := 0 < blobSize (cachedTransaction p) < 2 ^ 64.

Definition fee_of (p : PendingTransactionInfo) : Z := getTransactionFee (cachedTransaction p).
Definition size_of (p : PendingTransactionInfo) : Z := blobSize (cachedTransaction p).

(** The first pays more per byte; or the same and is smaller; or is as large and older. *)
Definition preferred (l r : PendingTransactionInfo) : Prop :=
  fee_of r * size_of l < fee_of l * size_of r \/
  (fee_of r * size_of l = fee_of l * size_of r /\
   (size_of l < size_of r \/ (size_of l = size_of r /\ receiveTime l < receiveTime r))).

Lemma words_lt hi lo hi' lo' : in_u 64 lo -> in_u 64 lo' ->
  hi * 2 ^ 64 + lo < hi' * 2 ^ 64 + lo' <-> hi < hi' \/ (hi' = hi /\ lo < lo').
Proof. intros; ranges; lia. Qed.

Lemma words_eq hi lo hi' lo' : in_u 64 lo -> in_u 64 lo' ->
  hi * 2 ^ 64 + lo = hi' * 2 ^ 64 + lo' <-> hi' = hi /\ lo' = lo.
Proof. intros; ranges; lia. Qed.

Lemma comparator_spec l r : sized l -> sized r ->
  TransactionPriorityComparator l r = true <-> preferred l r.
Proof.
  intros Hl Hr; unfold TransactionPriorityComparator, preferred.
  pose proof (getTransactionFee_range (cachedTransaction l)) as Fl.
  pose proof (getTransactionFee_range (cachedTransaction r)) as Fr.
  fold (fee_of l) (fee_of r) in Fl, Fr; unfold sized in *.
  fold (fee_of l) (fee_of r) (size_of l) (size_of r) in Hl, Hr |- *.
  destruct (mul128_spec (fee_of l) (size_of r) Fl ltac:(unfold in_u; lia)) as (E1 & L1 & H1 & _).
  destruct (mul128_spec (fee_of r) (size_of l) Fr ltac:(unfold in_u; lia)) as (E2 & L2 & H2 & _).
  destruct (mul128 (fee_of l) (size_of r)) as [lo1 hi1], (mul128 (fee_of r) (size_of l)) as [lo2 hi2].
  simpl in *; rewrite E1, E2; clear E1 E2.
  rewrite (words_lt hi2 lo2), (words_eq hi2 lo2) by done.
  rewrite !orb_true_iff, !andb_true_iff, !Z.gtb_lt, !Z.eqb_eq, !Z.ltb_lt; intuition congruence.
Qed.

Lemma preferred_irrefl p : ~ preferred p p.
Proof. unfold preferred; lia. Qed.

Lemma preferred_asym p q : preferred p q -> ~ preferred q p.
Proof. unfold preferred; lia. Qed.

(** The order is a strict weak one: what is not preferred is transitive. *)
Lemma not_preferred_trans p q r : sized p -> sized q -> sized r ->
  ~ preferred q p -> ~ preferred r q -> ~ preferred r p.
Proof.
  unfold sized, preferred; fold (size_of p) (size_of q) (size_of r).
  generalize (fee_of p) (fee_of q) (fee_of r) (size_of p) (size_of q) (size_of r)
    (receiveTime p) (receiveTime q) (receiveTime r).
  intros fp fq fr sp sq sr tp tq tr [Hp _] [Hq _] [Hr _] H1 H2 H3.
  assert (A : fq * sp <= fp * sq) by lia; assert (B : fr * sq <= fq * sr) by lia.
  assert (C : fr * sp <= fp * sr).
  { apply (Z.mul_le_mono_pos_r _ _ sq); [done|]; transitivity (fq * sr * sp); nia. }
  assert (D : fr * sp = fp * sr) by lia.
  assert (A' : fq * sp = fp * sq).
  { apply Z.le_antisymm; [done|]; apply (Z.mul_le_mono_pos_r _ _ sr); [done|]; nia. }
  assert (B' : fr * sq = fq * sr).
  { apply Z.le_antisymm; [done|]; apply (Z.mul_le_mono_pos_r _ _ sp); [done|]; nia. }
  lia.
Qed.

(** Nothing later in the list is preferred to something earlier. *)
Definition by_cost (p q : PendingTransactionInfo) : Prop := ~ preferred q p.

Lemma insert_cost_Permutation p l : insert_cost p l ≡ₚ p :: l.
Proof.
  induction l as [|q l IH]; cbn [insert_cost]; [reflexivity|].
  destruct (TransactionPriorityComparator p q); [reflexivity|].
  etransitivity; [apply perm_skip, IH|apply perm_swap].
Qed.

Lemma insert_cost_sorted p l : sized p -> Forall sized l ->
  StronglySorted by_cost l -> StronglySorted by_cost (insert_cost p l).
Proof.
  intros Hp Hl Hs; induction Hs as [|q l Hs IH Hq]; cbn [insert_cost].
  { constructor; constructor. }
  apply Forall_cons in Hl as [Hq' Hl'].
  destruct (TransactionPriorityComparator p q) eqn:E.
  - apply (comparator_spec p q Hp Hq') in E.
    constructor; [by constructor|]; constructor; [by apply preferred_asym|].
    rewrite Forall_forall in Hq, Hl' |- *; intros r Hr.
    apply (not_preferred_trans p q r Hp Hq' (Hl' r Hr)); [by apply preferred_asym|exact (Hq r Hr)].
  - constructor; [by apply IH|]; rewrite insert_cost_Permutation; constructor; [|done].
    intros H%(comparator_spec p q Hp Hq'); congruence.
Qed.

(** ** The pool's invariant *)

Section Invariant.
Context {FH : FastHash}.
Context (ndebug : bool).

Definition pending_images (l : list PendingTransactionInfo) : list KeyImage :=
  concat (map (fun p => images_of (cachedTransaction p)) l).

(** The state of the pool is the set of the key images its transactions spend; no key image is
    spent twice, no transaction occurs twice, and the list is in the order of preference. *)
Record pool_inv (pool : TransactionPool) : Prop := {
  inv_spends : Forall (fun p => spends_once (cachedTransaction p)) (transactions pool);
  inv_sized : Forall sized (transactions pool);
  inv_hashes : NoDup (map pending_hash (transactions pool));
  inv_images : NoDup (pending_images (transactions pool));
  inv_state : spentKeyImages (poolState pool) = list_to_set (pending_images (transactions pool));
  inv_sorted : StronglySorted by_cost (transactions pool) }.

Lemma pending_images_Permutation l l' : l ≡ₚ l' -> pending_images l ≡ₚ pending_images l'.
Proof.
  unfold pending_images; induction 1 as [|x l l' _ IH|x y l|l1 l2 l3 _ IH1 _ IH2]; simpl; [done|by rewrite IH| |by rewrite IH1].
  by rewrite !app_assoc, (Permutation_app_comm (images_of (cachedTransaction y))).
Qed.

Lemma find_hash_Some hash l p : find_hash hash l = Some p -> p ∈ l /\ pending_hash p = hash.
Proof.
  unfold find_hash; intros [H1 H2]%find_some; split; [by apply list_elem_of_In|by apply bool_decide_eq_true in H2].
Qed.

Lemma find_hash_None hash l : find_hash hash l = None <-> hash ∉ map pending_hash l.
Proof.
  unfold find_hash; split.
  - intros H (p & E & Hp)%list_elem_of_fmap; apply list_elem_of_In in Hp.
    pose proof (find_none _ _ H p Hp) as Hn; by apply bool_decide_eq_false in Hn.
  - intros H; destruct (find _ l) as [p|] eqn:E; [exfalso|done].
    apply find_some in E as [Hp Hb]; apply bool_decide_eq_true in Hb; subst.
    apply H, list_elem_of_fmap; exists p; split; [done|by apply list_elem_of_In].
Qed.

Lemma find_hash_elem hash l p : NoDup (map pending_hash l) -> p ∈ l -> pending_hash p = hash -> find_hash hash l = Some p.
Proof.
  intros Hn Hp <-; unfold find_hash; induction l as [|q l IH]; [by apply not_elem_of_nil in Hp|].
  simpl in *; apply NoDup_cons in Hn as [Hq Hn]; apply elem_of_cons in Hp as [->|Hp].
  - by rewrite bool_decide_eq_true_2.
  - rewrite bool_decide_eq_false_2; [by apply IH|]; intros E; apply Hq; rewrite E; by apply list_elem_of_fmap_2.
Qed.

Lemma erase_hash_notin hash l : hash ∉ map pending_hash l -> erase_hash hash l = l.
Proof.
  unfold erase_hash; induction l as [|q l IH]; simpl; [done|]; intros [Hq Hl]%not_elem_of_cons.
  rewrite filter_cons_True by congruence; f_equal; by apply IH.
Qed.

(** Erasing the transaction that was found. *)
Lemma erase_hash_Permutation hash l p : NoDup (map pending_hash l) -> find_hash hash l = Some p ->
  l ≡ₚ p :: erase_hash hash l.
Proof.
  intros Hn [Hp <-]%find_hash_Some; induction l as [|q l IH]; [by apply not_elem_of_nil in Hp|].
  simpl in *; apply NoDup_cons in Hn as [Hq Hn]; unfold erase_hash in *; rewrite filter_cons.
  apply elem_of_cons in Hp as [->|Hp].
  - rewrite decide_False by auto; pose proof (erase_hash_notin _ _ Hq) as E; unfold erase_hash in E; by rewrite E.
  - rewrite decide_True by (intros E; apply Hq; rewrite E; by apply list_elem_of_fmap_2).
    etransitivity; [apply perm_skip, (IH Hn Hp)|apply perm_swap].
Qed.

Lemma erase_hash_sorted hash l : StronglySorted by_cost l -> StronglySorted by_cost (erase_hash hash l).
Proof.
  unfold erase_hash; induction 1 as [|q l Hs IH Hq]; [constructor|]; rewrite filter_cons; case_decide; [|done].
  constructor; [done|]; rewrite Forall_forall in Hq |- *; intros r [_ Hr]%list_elem_of_filter; auto.
Qed.

Lemma pool_inv_empty : pool_inv (mkPool (mkValidatorState ∅) []).
Proof. split; try constructor. Qed.

(** A transaction is pushed exactly when it is not there and spends no key image of the pool;
    otherwise the pool does not change. *)
Lemma pushTransaction_spec now c st pool r pool' :
  pool_inv pool -> spends_once c -> 0 < blobSize c < 2 ^ 64 -> spentKeyImages st = list_to_set (images_of c) ->
  pushTransaction now c st pool = (r, pool') ->
  pool_inv pool' /\
  if r then (getTransactionHash c ∉ getTransactionHashes pool /\
             Forall (fun i => i ∉ pending_images (transactions pool)) (images_of c)) /\
            transactions pool' ≡ₚ
              mkPending (u64 now) c (getPaymentIdFromTxExtra (tx_extra (ct_transaction c))) :: transactions pool
  else pool' = pool /\
       (getTransactionHash c ∈ getTransactionHashes pool \/
        Exists (fun i => i ∈ pending_images (transactions pool)) (images_of c)).
Proof.
  intros Hinv Hc Hb Hst; unfold pushTransaction.
  set (p := mkPending _ _ _); unfold pending_hash at 1; simpl cachedTransaction.
  destruct (find_hash _ _) as [q|] eqn:Ef; simpl.
  { intros [= <- <-]; split; [done|]; split; [done|]; left; apply find_hash_Some in Ef as [Hq <-].
    by apply list_elem_of_fmap_2. }
  apply find_hash_None in Ef.
  destruct (hasIntersections (poolState pool) st) eqn:Ei.
  { intros [= <- <-]; split; [done|]; split; [done|]; right; apply not_false_iff_true in Ei.
    rewrite hasIntersections_spec, Hst, (inv_state _ Hinv) in Ei.
    destruct (decide (Exists (fun i => i ∈ pending_images (transactions pool)) (images_of c))) as [|Hn]; [done|].
    exfalso; apply Ei; intros x Hx Hx'; apply elem_of_list_to_set in Hx, Hx'.
    apply Hn, Exists_exists; by exists x. }
  rewrite hasIntersections_spec, Hst, (inv_state _ Hinv) in Ei.
  assert (Hd : forall x, x ∈ images_of c -> x ∉ pending_images (transactions pool)).
  { intros x Hx Hx'; apply (Ei x); by apply elem_of_list_to_set. }
  intros [= <- <-]; split.
  - destruct Hinv as [I1 I2 I3 I4 I5 I6]; pose proof (insert_cost_Permutation p (transactions pool)) as HP.
    split; simpl.
    + rewrite HP; by constructor.
    + rewrite HP; by constructor.
    + rewrite HP; simpl; by apply NoDup_cons.
    + rewrite (pending_images_Permutation _ _ HP); apply NoDup_app; split; [apply Hc|by split].
    + rewrite Hst, I5, (pending_images_Permutation _ _ HP), union_comm_L.
      unfold pending_images; simpl; by rewrite list_to_set_app_L.
    + by apply insert_cost_sorted.
  - split; [split; [done|by apply Forall_forall]|apply insert_cost_Permutation].
Qed.

(** Removing a transaction that is there gives its key images back. *)
Lemma removeTransaction_spec hash pool : pool_inv pool ->
  match find_hash hash (transactions pool) with
  | None => removeTransaction ndebug hash pool = Some (false, pool)
  | Some p =>
    let pool' := mkPool (mkValidatorState (list_to_set (pending_images (erase_hash hash (transactions pool)))))
                        (erase_hash hash (transactions pool)) in
    removeTransaction ndebug hash pool = Some (true, pool') /\ pool_inv pool'
  end.
Proof.
  intros [I1 I2 I3 I4 I5 I6]; unfold removeTransaction.
  destruct (find_hash hash (transactions pool)) as [p|] eqn:Ef; [|done].
  pose proof (erase_hash_Permutation _ _ _ I3 Ef) as HP; set (l := erase_hash hash (transactions pool)) in *.
  pose proof (pending_images_Permutation _ _ HP) as HQ; unfold pending_images at 2 in HQ; simpl in HQ.
  fold (pending_images l) in HQ; rewrite HQ in I4; rewrite HP in I1, I2, I3; simpl in I3.
  apply NoDup_app in I4 as (N1 & N2 & N3).
  inversion I1; inversion I2; apply NoDup_cons in I3 as [_ I3]; subst.
  rewrite excludeFromState_ok; [|done|rewrite I5, HQ, list_to_set_app_L; set_solver].
  simpl; split.
  - do 4 f_equal; rewrite I5, HQ, list_to_set_app_L; set_solver.
  - split; simpl; try done; by apply erase_hash_sorted.
Qed.

Lemma getTransaction_None hash pool :
  getTransaction hash pool = None <-> hash ∉ getTransactionHashes pool.
Proof.
  unfold getTransaction, getTransactionHashes; rewrite <- find_hash_None; destruct (find_hash hash _); simpl; done.
Qed.

Lemma erase_hash_middle l1 p l2 : NoDup (map pending_hash (l1 ++ p :: l2)) ->
  erase_hash (pending_hash p) (l1 ++ p :: l2) = l1 ++ l2.
Proof.
  rewrite map_app; simpl; intros (H1 & H2 & [H3 _]%NoDup_cons)%NoDup_app; unfold erase_hash.
  rewrite filter_app, filter_cons_False by auto.
  pose proof (erase_hash_notin (pending_hash p) l1) as E1; pose proof (erase_hash_notin (pending_hash p) l2 H3) as E2.
  unfold erase_hash in E1, E2; rewrite E2, E1; [done|]; intros H; apply (H2 _ H), list_elem_of_here.
Qed.

Lemma erase_insert_cost p l : pending_hash p ∉ map pending_hash l -> erase_hash (pending_hash p) (insert_cost p l) = l.
Proof.
  induction l as [|q l IH]; cbn [insert_cost map]; intros Hh; unfold erase_hash.
  - rewrite filter_cons_False; [reflexivity|]; intros H; by apply H.
  - apply not_elem_of_cons in Hh as [Hq Hl]; destruct (TransactionPriorityComparator p q).
    + rewrite filter_cons_False by (intros H1; by apply H1).
      apply (erase_hash_notin (pending_hash p) (q :: l)), not_elem_of_cons; by split.
    + rewrite filter_cons_True by congruence; f_equal; by apply IH.
Qed.

Lemma pushTransaction_true now c st pool pool' : pushTransaction now c st pool = (true, pool') ->
  transactions pool' = insert_cost (mkPending (u64 now) c (getPaymentIdFromTxExtra (tx_extra (ct_transaction c))))
                         (transactions pool).
Proof.
  unfold pushTransaction; destruct (bool_decide (is_Some _)); [discriminate|].
  destruct (hasIntersections _ _); [discriminate|]; intros [= <-]; reflexivity.
Qed.

(** Pushing and removing again gives the pool back. *)
Lemma push_remove now c st pool pool' :
  pool_inv pool -> spends_once c -> 0 < blobSize c < 2 ^ 64 -> spentKeyImages st = list_to_set (images_of c) ->
  pushTransaction now c st pool = (true, pool') ->
  removeTransaction ndebug (getTransactionHash c) pool' = Some (true, pool).
Proof.
  intros Hinv Hc Hb Hst E; pose proof (pushTransaction_spec _ _ _ _ _ _ Hinv Hc Hb Hst E) as (Hinv' & [Hh _] & HP).
  set (p := mkPending _ _ _) in HP.
  assert (Ef : find_hash (getTransactionHash c) (transactions pool') = Some p).
  { apply find_hash_elem; [apply Hinv'|rewrite HP; apply list_elem_of_here|done]. }
  assert (El : erase_hash (getTransactionHash c) (transactions pool') = transactions pool).
  { rewrite (pushTransaction_true _ _ _ _ _ E); fold p; exact (erase_insert_cost p _ Hh). }
  pose proof (removeTransaction_spec (getTransactionHash c) pool' Hinv') as Hr; rewrite Ef, El in Hr.
  destruct Hr as [-> _]; do 2 f_equal; destruct pool as [[s] l]; simpl in *; f_equal; f_equal.
  symmetry; exact (inv_state _ Hinv).
Qed.

(** ** The pool as a state machine *)

(** What the node does to the pool: transactions that passed validation are pushed with the key
    images they spend; any hash is removed. *)
Inductive pool_step : TransactionPool -> TransactionPool -> Prop :=
| step_push now c st pool :
    spends_once c -> 0 < blobSize c < 2 ^ 64 -> extractSpentOutputs ndebug c = Some st ->
    pool_step pool (pushTransaction now c st pool).2
| step_remove hash pool r pool' :
    removeTransaction ndebug hash pool = Some (r, pool') -> pool_step pool pool'.

Lemma pool_step_inv pool pool' : pool_step pool pool' -> pool_inv pool -> pool_inv pool'.
Proof.
  intros [now c st p Hc Hb Hs|hash p r p' E] Hinv.
  - rewrite (extractSpentOutputs_ok ndebug c Hc) in Hs; injection Hs as <-.
    destruct (pushTransaction now c _ p) as [r p'] eqn:E.
    by eapply pushTransaction_spec in E as [? _].
  - pose proof (removeTransaction_spec hash p Hinv) as Hr; rewrite E in Hr.
    destruct (find_hash hash (transactions p)); [destruct Hr as [Hr Hi]; by injection Hr as -> ->|by injection Hr as -> ->].
Qed.

Lemma pool_reachable_inv pool : rtc pool_step (mkPool (mkValidatorState ∅) []) pool -> pool_inv pool.
Proof.
  revert pool; apply (rtc_ind_r _ _); [apply pool_inv_empty|].
  intros p p' _ Hs; by apply pool_step_inv.
Qed.

(** ** Cleaning *)

Definition expired (now : Z) (w : TransactionPoolCleanWrapper) (p : PendingTransactionInfo) : Prop :=
  timeout w <= u64 (now - receiveTime p).

#[local] Instance expired_dec now w p : Decision (expired now w p).
Proof. unfold expired; apply _. Defined.

Definition admissible (height : Z) (p : PendingTransactionInfo) : Prop :=
  validate_mixins [cachedTransaction p] height = Ok tt.

#[local] Instance admissible_dec height p : Decision (admissible height p).
Proof.
  unfold admissible; destruct (validate_mixins _ _) as [[]|e]; [by left|by right].
Defined.

Lemma is_Ok_admissible height p :
  is_Ok (validate_mixins [cachedTransaction p] height) = bool_decide (admissible height p).
Proof.
  destruct (decide (admissible height p)) as [Ha|Ha].
  - rewrite bool_decide_eq_true_2 by done; unfold admissible in Ha; by rewrite Ha.
  - rewrite bool_decide_eq_false_2 by done; unfold admissible in Ha.
    by destruct (validate_mixins _ _) as [[]|e].
Qed.

(** The loop has gone through [done]: it has deleted what is not admissible. *)
Record clean_inv (now height : Z) (w0 : TransactionPoolCleanWrapper) (don todo : list PendingTransactionInfo)
    (s : list Hash * TransactionPoolCleanWrapper) : Prop := {
  clean_split : transactions (transactionPool w0) = don ++ todo;
  clean_kept : transactions (transactionPool s.2) = filter (admissible height) don ++ todo;
  clean_deleted : s.1 = map pending_hash (filter (fun p => ~ admissible height p) don);
  clean_pool : pool_inv (transactionPool s.2);
  clean_timeout : timeout s.2 = timeout w0;
  clean_recent : forall h, recentlyDeletedTransactions s.2 !! h =
    match recentlyDeletedTransactions w0 !! h with
    | Some t => Some t
    | None => if bool_decide (h ∈ s.1) then Some now else None
    end }.

Lemma delete_transaction_spec now p l1 l2 w :
  pool_inv (transactionPool w) -> transactions (transactionPool w) = l1 ++ p :: l2 ->
  exists w', delete_transaction ndebug now (pending_hash p) w = Some w' /\
    transactions (transactionPool w') = l1 ++ l2 /\ pool_inv (transactionPool w') /\ timeout w' = timeout w /\
    recentlyDeletedTransactions w' = match recentlyDeletedTransactions w !! pending_hash p with
      | Some _ => recentlyDeletedTransactions w
      | None => <[pending_hash p := now]> (recentlyDeletedTransactions w)
      end.
Proof.
  intros Hi El; pose proof (removeTransaction_spec (pending_hash p) _ Hi) as Hr.
  assert (Hn : NoDup (map pending_hash (l1 ++ p :: l2))) by (rewrite <- El; apply Hi).
  rewrite (find_hash_elem (pending_hash p) _ p (inv_hashes _ Hi)) in Hr;
    [|rewrite El; apply elem_of_app; right; apply list_elem_of_here|done].
  destruct Hr as [E Hi']; rewrite El, erase_hash_middle in E, Hi' by done.
  unfold delete_transaction; rewrite E; eexists; split; [reflexivity|]; by split_and!.
Qed.

Lemma clean_step_spec now height w0 don p todo s :
  clean_inv now height w0 don (p :: todo) s ->
  (expired now w0 p -> clean_step ndebug now height (pending_hash p) s = None) /\
  (~ expired now w0 p -> exists s', clean_step ndebug now height (pending_hash p) s = Some s' /\
     clean_inv now height w0 (don ++ [p]) todo s').
Proof.
  destruct s as [deleted w]; intros [S1 S2 S3 S4 S5 S6]; simpl in *.
  assert (Ef : find_hash (pending_hash p) (transactions (transactionPool w)) = Some p).
  { apply find_hash_elem; [apply S4|rewrite S2; apply elem_of_app; right; apply list_elem_of_here|done]. }
  unfold clean_step, getTransactionReceiveTime; rewrite Ef; cbn [mbind option_bind].
  unfold expired; rewrite S5, Z.geb_leb; split.
  - intros H; rewrite (proj2 (Z.leb_le _ _) H).
    destruct (delete_transaction_spec now p _ _ w S4 S2) as (w' & -> & El & Hi & _ & _); cbn [mbind option_bind].
    rewrite (proj2 (getTransaction_None _ _)); [done|].
    unfold getTransactionHashes; rewrite El; pose proof (inv_hashes _ S4) as Hn; rewrite S2 in Hn.
    rewrite map_app in *; simpl in Hn; apply NoDup_app in Hn as (_ & N2 & [N3 _]%NoDup_cons).
    intros [H1|H1]%elem_of_app; [by apply (N2 _ H1), list_elem_of_here|done].
  - intros H; rewrite (proj2 (Z.leb_gt _ _)) by lia; cbn [mbind option_bind].
    unfold getTransaction; rewrite Ef; cbn [mbind option_bind]; rewrite is_Ok_admissible.
    destruct (decide (admissible height p)) as [Ha|Ha].
    + rewrite bool_decide_eq_true_2 by done; eexists; split; [reflexivity|]; split; simpl; try done.
      * by rewrite S1, <- app_assoc.
      * rewrite S2, filter_app, filter_cons_True by done; by rewrite <- app_assoc.
      * rewrite S3, filter_app, filter_cons_False by auto; by rewrite app_nil_r.
    + rewrite bool_decide_eq_false_2 by done.
      destruct (delete_transaction_spec now p _ _ w S4 S2) as (w' & -> & El & Hi & Et & Er); cbn [mbind option_bind].
      eexists; split; [reflexivity|]; split; simpl; try done.
      * by rewrite S1, <- app_assoc.
      * rewrite El, filter_app, filter_cons_False by done; by rewrite app_nil_r.
      * rewrite S3, filter_app, filter_cons_True by done; by rewrite map_app.
      * congruence.
      * intros h; rewrite Er; destruct (decide (h = pending_hash p)) as [->|Hne].
        -- rewrite (bool_decide_eq_true_2 (_ ∈ deleted ++ _)) by (apply elem_of_app; right; apply list_elem_of_here).
           pose proof (S6 (pending_hash p)) as Sp.
           destruct (recentlyDeletedTransactions w !! pending_hash p) eqn:Ew; rewrite ?Ew, ?lookup_insert_eq;
             repeat case_match; congruence.
        -- rewrite (bool_decide_ext (h ∈ deleted ++ [pending_hash p]) (h ∈ deleted)).
           { rewrite <- S6; case_match; [done|by rewrite lookup_insert_ne]. }
           rewrite elem_of_app, list_elem_of_singleton; naive_solver.
Qed.

(** The loop is undefined when it meets an expired transaction. *)
Lemma clean_loop_spec now height w0 todo : forall don s,
  clean_inv now height w0 don todo s ->
  (Exists (expired now w0) todo -> clean_loop ndebug now height (map pending_hash todo) s = None) /\
  (Forall (fun p => ~ expired now w0 p) todo ->
   exists s', clean_loop ndebug now height (map pending_hash todo) s = Some s' /\ clean_inv now height w0 (don ++ todo) [] s').
Proof.
  induction todo as [|p todo IH]; intros don s Hs; cbn [map clean_loop].
  - rewrite app_nil_r, Exists_nil; split; [done|]; intros _; by exists s.
  - destruct (clean_step_spec _ _ _ _ _ _ _ Hs) as [H1 H2].
    destruct (decide (expired now w0 p)) as [He|He].
    + rewrite (H1 He), Forall_cons; split; [done|]; by intros [? _].
    + destruct (H2 He) as (s' & -> & Hs'); cbn [mbind option_bind]; destruct (IH _ _ Hs') as [I1 I2].
      rewrite Exists_cons, Forall_cons; split; [intros [?|?]; [done|auto]|].
      rewrite <- app_assoc in I2; intros [_ ?]; auto.
Qed.

(** C38. Cleaning the pool is undefined as soon as one transaction is older
    than the timeout (the transaction is used after it has been removed);
    otherwise it removes exactly the transactions whose mixin the height no
    longer allows, keeps the invariant, and the removed transactions are
    refused when they come again. *)
Theorem pool_clean_exact now height w : pool_inv (transactionPool w) ->
  (Exists (expired now w) (transactions (transactionPool w)) -> clean ndebug now height w = None) /\
  (Forall (fun p => ~ expired now w p) (transactions (transactionPool w)) ->
   exists deleted w', clean ndebug now height w = Some (deleted, w') /\
     deleted = map pending_hash (filter (fun p => ~ admissible height p) (transactions (transactionPool w))) /\
     transactions (transactionPool w') = filter (admissible height) (transactions (transactionPool w)) /\
     pool_inv (transactionPool w') /\
     (forall c st later, getTransactionHash c ∈ deleted ->
        recentlyDeletedTransactions w !! getTransactionHash c = None -> 0 < timeout w <= now ->
        wrapper_pushTransaction later c st w' = (false, w'))).
Proof.
  intros Hinv; unfold clean, getTransactionHashes.
  assert (H0 : clean_inv now height w [] (transactions (transactionPool w)) ([], w)).
  { split; simpl; try done; intros h; by destruct (_ !! h). }
  destruct (clean_loop_spec _ _ _ _ _ _ H0) as [L1 L2]; split.
  - intros He; by rewrite (L1 He).
  - intros Hn; destruct (L2 Hn) as ([deleted w'] & -> & [C1 C2 C3 C4 C5 C6]); cbn [mbind option_bind]; simpl in *.
    rewrite app_nil_r in *.
    eexists _, _; split; [reflexivity|]; split; [exact C3|]; split; [exact C2|]; split; [exact C4|].
    intros c st later Hc Hr Ht; unfold wrapper_pushTransaction, isTransactionRecentlyDeleted; simpl.
    assert (E : filter (fun kv : Hash * Z => ~ timeout w' <= u64 (now - kv.2)) (recentlyDeletedTransactions w')
                  !! getTransactionHash c = Some now).
    { apply map_lookup_filter_Some; rewrite C6, Hr, bool_decide_eq_true_2 by done; split; [done|]; simpl.
      rewrite C5, Z.sub_diag; change (u64 0) with 0; lia. }
    rewrite E, C5, Z.geb_leb, (proj2 (Z.leb_le _ _)) by lia; done.
Qed.

(** C26. In every pool reachable by pushes and removals, no key image is spent
    twice, no transaction occurs twice, the state is the set of all key
    images, and the transactions are in the order of fee per byte, then size,
    then age; every removal returns, and a push that succeeds is undone by a
    removal. *)
Theorem pool_invariant pool : rtc pool_step (mkPool (mkValidatorState ∅) []) pool ->
  pool_inv pool /\
  (forall hash, is_Some (removeTransaction ndebug hash pool)) /\
  (forall now c st pool', spends_once c -> 0 < blobSize c < 2 ^ 64 -> extractSpentOutputs ndebug c = Some st ->
     pushTransaction now c st pool = (true, pool') ->
     Forall (fun i => i ∉ spentKeyImages (poolState pool)) (images_of c) /\
     removeTransaction ndebug (getTransactionHash c) pool' = Some (true, pool)).
Proof.
  intros Hinv%pool_reachable_inv; split; [done|]; split.
  - intros hash; pose proof (removeTransaction_spec hash pool Hinv) as H.
    destruct (find_hash hash _); [destruct H as [-> _]|rewrite H]; by eexists.
  - intros now c st pool' Hc Hb Hs E; rewrite (extractSpentOutputs_ok ndebug c Hc) in Hs; injection Hs as <-.
    split; [|by eapply push_remove in E].
    pose proof (pushTransaction_spec now c (mkValidatorState (list_to_set (images_of c))) pool _ _ Hinv Hc Hb eq_refl E) as (_ & [_ Hf] & _).
    rewrite (inv_state _ Hinv); eapply Forall_impl; [exact Hf|]; intros i Hi; by rewrite elem_of_list_to_set.
Qed.
End Invariant.

(** ** Witnesses *)

(** Two transactions; the second has rings that are too small at height 800000. *)
Definition sample_transaction (amount : Z) (ring : list Z) (image : Z) : Transaction :=
  mkTransaction (mkPrefix 1 0 [InKey (mkKeyInput amount ring (repeat image 32))]
                   [mkOutput 90 (OutKey (repeat 1 32))] [])
                [map (fun _ => repeat 5 64) ring].

Definition sample_cached (amount : Z) (ring : list Z) (image : Z) : CachedTransaction :=
  match cached_of_Transaction (sample_transaction amount ring image) with
  | Ok c => c
  | Err _ => mkCached (sample_transaction amount ring image) []
  end.

Definition sample_push (now : Z) (c : CachedTransaction) (pool : TransactionPool) : TransactionPool :=
  (pushTransaction (FH := Keccak.keccak_FastHash) now c (mkValidatorState (list_to_set (images_of c))) pool).2.

Definition empty_pool : TransactionPool := mkPool (mkValidatorState ∅) [].

Lemma sample_step now amount ring image pool : spends_once (sample_cached amount ring image) ->
  0 < blobSize (sample_cached amount ring image) < 2 ^ 64 ->
  pool_step (FH := Keccak.keccak_FastHash) true pool (sample_push now (sample_cached amount ring image) pool).
Proof. intros Hs Hb; apply step_push; [done|done|by apply extractSpentOutputs_ok]. Qed.

Lemma sample_spends amount ring image c : ct_transaction c = sample_transaction amount ring image -> spends_once c.
Proof.
  intros E; unfold spends_once, images_of; rewrite E; simpl; split; [by repeat constructor|apply NoDup_singleton].
Qed.

Lemma pool_invariant_witness :
  pool_inv (FH := Keccak.keccak_FastHash)
    (sample_push 1001 (sample_cached 200 [1] 8) (sample_push 1000 (sample_cached 100 [1; 2; 3; 4] 7) empty_pool)).
Proof.
  apply (pool_invariant (FH := Keccak.keccak_FastHash) true).
  eapply rtc_l; [|eapply rtc_l; [|apply rtc_refl]]; apply sample_step;
    first [by eapply sample_spends|split; vm_compute; reflexivity].
Defined.

Definition sample_wrapper : TransactionPoolCleanWrapper :=
  mkWrapper (sample_push 1000 (sample_cached 200 [1] 8) empty_pool) ∅ 86400.

Lemma sample_wrapper_inv : pool_inv (FH := Keccak.keccak_FastHash) (transactionPool sample_wrapper).
Proof.
  apply (pool_reachable_inv true); eapply rtc_l; [|apply rtc_refl]; apply sample_step;
    [by eapply sample_spends|split; vm_compute; reflexivity].
Qed.

(** One transaction with too small a ring is removed; a day later cleaning is undefined. *)
Lemma pool_clean_exact_witness :
  (exists deleted w', clean (FH := Keccak.keccak_FastHash) true 1005 800000 sample_wrapper = Some (deleted, w') /\
     transactions (transactionPool w') = []) /\
  clean (FH := Keccak.keccak_FastHash) true (1000 + 86400) 800000 sample_wrapper = None.
Proof.
  assert (El : transactions (transactionPool sample_wrapper) =
    [mkPending 1000 (sample_cached 200 [1] 8) None]) by (vm_compute; reflexivity).
  split.
  - destruct (proj2 (pool_clean_exact (FH := Keccak.keccak_FastHash) true 1005 800000 sample_wrapper sample_wrapper_inv))
      as (d & w' & E & _ & Ek & _); [rewrite El; constructor; [|constructor]; change (~ 86400 <= u64 (1005 - 1000)); vm_compute; congruence|].
    exists d, w'; split; [exact E|]; rewrite Ek, El; vm_compute; reflexivity.
  - apply (proj1 (pool_clean_exact (FH := Keccak.keccak_FastHash) true _ 800000 sample_wrapper sample_wrapper_inv)).
    rewrite El; apply Exists_cons; left; change (86400 <= u64 (1000 + 86400 - 1000)); vm_compute; congruence.
Defined.
End TransactionPool.
