(* ===== verification/ChainRules.v ===== *)
(** Rules on heights: the checkpoints of src/src/CryptoNoteCore/Checkpoints.cpp and the major
    block versions of src/src/CryptoNoteCore/UpgradeManager.cpp.

    [std::map] is a list sorted by key.  The checkpoint file is the list of its characters; text
    is as in [StringTools].  [None] is undefined behaviour. *)

From S2P Require Import Prelude.
From S2P Require Import Config.
From S2P Require Import Types.
From S2P Require Import StringTools.
From S2P Require Import Currency.
From S2P Require Import Crypto.

Module Checkpoints.

Import StringTools Currency.

Abbreviation points := (list (Z * Hash)).

(** [points.insert({index, h})]: [None] when the key exists. *)
Fixpoint points_insert (index : Z) (h : Hash) (p : points) : option points :=
  match p with
  | [] => Some [(index, h)]
  | (k, v) :: p' =>
    if index <? k then Some ((index, h) :: p)
    else if index =? k then None
    else p' ← points_insert index h p'; Some ((k, v) :: p')
  end.

Definition points_find (index : Z) (p : points) : option Hash :=
  kv ← find (fun kv => kv.1 =? index) p; Some kv.2.

Definition addCheckpoint (index : Z) (hash_str : list Z) (p : points) : bool * points :=
  match podFromHex 32 hash_str with
  | None => (false, p)
  | Some h =>
    match points_insert index h p with
    | None => (false, p)
    | Some p => (true, p)
    end
  end.

Definition isInCheckpointZone (index : Z) (p : points) : bool :=
  match last p with
  | None => false
  | Some (k, _) => index <=? k
  end.

(** The result and isCheckpoint. *)
Definition checkBlock (index : Z) (h : Hash) (p : points) : bool * bool :=
  match points_find index p with
  | None => (true, false)
  | Some v => (bool_decide (v = h), true)
  end.

(** ** The checkpoint file *)

Inductive stoull_result := Value (v : Z) | OutOfRange | InvalidArgument.

Fixpoint take_digits (s : list Z) : list Z :=
  match s with
  | ch :: s => if isdigit ch then ch :: take_digits s else []
  | [] => []
  end.

(** std::stoull in base 10: white space, a sign, and the longest run of digits. *)
Definition stoull (s : list Z) : stoull_result :=
  let s := drop_spaces s in
  let '(negative, s) := match s with
    | 45 :: s => (true, s)
    | 43 :: s => (false, s)
    | _ => (false, s)
    end in
  let digits := take_digits s in
  match digits with
  | [] => InvalidArgument
  | _ :: _ =>
    let v := dec_val digits in
    if v >=? 2 ^ 64 then OutOfRange
    else Value (if negative then u64 (- v) else v)
  end.

(** The characters before the first [delim], and those after it if there is one. *)
Fixpoint split_at (delim : Z) (s : list Z) : list Z * option (list Z) :=
  match s with
  | [] => ([], None)
  | ch :: s =>
    if ch =? delim then ([], Some s)
    else let '(line, rest) := split_at delim s in (ch :: line, rest)
  end.

(** The condition of the loop: [Some] of the two strings and the rest of the file when the
    second std::getline succeeds.  After the end of the file was met both calls fail, and a
    call that extracts nothing at the end of the file fails. *)
Definition read_line (file : list Z) : option (list Z * list Z * list Z) :=
  match split_at 44 file with
  | (_, None) => None
  | (_, Some []) => None
  | (indexString, Some rest) =>
    let '(hash, rest) := split_at 10 rest in
    Some (indexString, hash, default [] rest)
  end.

(** The loop; [index] is the variable that outlives the iterations, [None] before the first
    assignment.  Every iteration consumes a character. *)
Fixpoint load_lines (fuel : nat) (index : option Z) (file : list Z) (p : points) : option (bool * points) :=
  match fuel with
  | O => Some (true, p)
  | S fuel =>
    match read_line file with
    | None => Some (true, p)
    | Some (indexString, hash, rest) =>
      match stoull indexString with
      | InvalidArgument => Some (false, p)
      | r =>
        let index := match r with Value v => Some v | _ => index end in
        i ← index;
        let '(ok, p) := addCheckpoint (u32 i) hash p in
        if negb ok then Some (false, p) else load_lines fuel index rest p
      end
    end
  end.

(** [None] for the file: it cannot be opened. *)
Definition loadCheckpointsFromFile (file : option (list Z)) (p : points) : option (bool * points) :=
  match file with
  | None => Some (false, p)
  | Some file => load_lines (length file) None file p
  end.

(** ** Lookup and order *)

Definition index_lt (a b : Z * Hash) : Prop := a.1 < b.1.

Lemma points_insert_spec index h p p' : points_insert index h p = Some p' ->
  StronglySorted index_lt p -> p' ≡ₚ (index, h) :: p /\ StronglySorted index_lt p' /\ index ∉ map fst p.
Proof.
  revert p'; induction p as [|[k v] p IH]; intros p' E Hs; simpl in E.
  - injection E as <-; split_and!; [done|repeat constructor|apply not_elem_of_nil].
  - apply StronglySorted_inv in Hs as [Hs Hk].
    destruct (Z.ltb_spec index k); [|destruct (Z.eqb_spec index k); [done|]].
    + injection E as <-; split_and!; [done| |].
      * constructor; [by constructor|]; constructor; [done|]; eapply Forall_impl; [exact Hk|].
        unfold index_lt; simpl; lia.
      * apply not_elem_of_cons; split; [simpl; lia|]; intros ([k' v'] & -> & Hin)%list_elem_of_fmap.
        rewrite Forall_forall in Hk; specialize (Hk _ Hin); unfold index_lt in Hk; simpl in *; lia.
    + destruct (points_insert index h p) as [q|] eqn:Eq; [|done]; injection E as <-.
      destruct (IH q eq_refl Hs) as (HP & Hq & Hn); split_and!.
      * rewrite HP; apply Permutation_swap.
      * constructor; [done|]; rewrite HP; constructor; [unfold index_lt; simpl; lia|done].
      * apply not_elem_of_cons; split; [done|done].
Qed.

Lemma points_insert_new index h p : index ∉ map fst p -> is_Some (points_insert index h p).
Proof.
  induction p as [|[k v] p IH]; simpl; [by eexists|]; intros [Hk Hp]%not_elem_of_cons.
  destruct (Z.ltb_spec index k); [by eexists|]; destruct (Z.eqb_spec index k); [done|].
  destruct (IH Hp) as [q ->]; by eexists.
Qed.

Lemma points_find_spec index h p : StronglySorted index_lt p ->
  points_find index p = Some h <-> (index, h) ∈ p.
Proof.
  unfold points_find; induction 1 as [|[k v] p _ IH Hk]; [by split; [|intros ?%not_elem_of_nil]|].
  simpl; rewrite elem_of_cons; destruct (Z.eqb_spec k index) as [->|Hne]; simpl.
  - split; [intros [= ->]; by left|]; intros [[= ->]|Hin]; [done|].
    rewrite Forall_forall in Hk; specialize (Hk _ Hin); unfold index_lt in Hk; simpl in Hk; lia.
  - rewrite IH; split; [by right|]; intros [[= <-]|?]; done.
Qed.

Lemma isInCheckpointZone_spec index p : StronglySorted index_lt p ->
  isInCheckpointZone index p = true <-> Exists (fun kv => index <= kv.1) p.
Proof.
  unfold isInCheckpointZone; induction 1 as [|[k v] p _ IH Hk]; [by rewrite Exists_nil|].
  rewrite Exists_cons; destruct p as [|[k' v'] p]; simpl in *.
  - rewrite Exists_nil, Z.leb_le; tauto.
  - rewrite IH; split; [by right|]; intros [H|H]; [|done].
    apply Exists_cons; left; inversion Hk as [|? ? Hlt _]; unfold index_lt in Hlt; simpl in *; lia.
Qed.

(** ** Reading what was written *)

(** One line per checkpoint. *)
Definition render (l : list (Z * Hash)) : list Z :=
  flat_map (fun kv => to_string kv.1 ++ 44 :: toHex kv.2 ++ [10]) l.

Lemma take_digits_all s : forallb isdigit s = true -> take_digits s = s.
Proof. induction s as [|ch s IH]; simpl; [done|]; intros [-> H]%andb_true_iff; by rewrite IH. Qed.

Lemma stoull_digits s : forallb isdigit s = true -> s <> [] -> dec_val s < 2 ^ 64 -> stoull s = Value (dec_val s).
Proof.
  intros Hs Hne Hv; unfold stoull; rewrite drop_spaces_id.
  2: { eapply forallb_imp; [|exact Hs]; intros x Hx; by rewrite digit_not_space. }
  destruct s as [|ch s]; [done|].
  assert (Hch : isdigit ch = true) by (simpl in Hs; by apply andb_true_iff in Hs as [? _]).
  assert (Hm : (match ch :: s with 45 :: s' => (true, s') | 43 :: s' => (false, s') | _ => (false, ch :: s) end)
               = (false, ch :: s)).
  { unfold isdigit in Hch; apply andb_true_iff in Hch as [H1 H2]; apply Z.leb_le in H1, H2.
    destruct ch as [|q|q]; [lia| |lia]; do 6 (destruct q as [q|q|]; try done; try lia). }
  rewrite Hm, take_digits_all by done; rewrite Z.geb_leb, (proj2 (Z.leb_gt _ _)) by done; done.
Qed.

Lemma stoull_to_string n : in_u 64 n -> stoull (to_string n) = Value n.
Proof.
  intros Hn; destruct (to_string_spec n Hn) as (H1 & H2 & H3); rewrite stoull_digits by (done || rewrite H3; apply Hn).
  by rewrite H3.
Qed.

Lemma split_at_spec delim part rest : delim ∉ part -> split_at delim (part ++ delim :: rest) = (part, Some rest).
Proof.
  induction part as [|ch part IH]; simpl; [by rewrite Z.eqb_refl|]; intros [H1 H2]%not_elem_of_cons.
  rewrite (proj2 (Z.eqb_neq ch delim)) by congruence; by rewrite IH.
Qed.

Lemma toHex_newline h : Forall is_byte h -> 10 ∉ toHex h.
Proof.
  assert (Hnib : forall v, 0 <= v < 16 -> nibble v <> 10).
  { refine (all_below 16 (fun v => nibble v <> 10) _); apply (bool_decide_unpack _); vm_compute; exact I. }
  induction 1 as [|b h Hb _ IH]; [apply not_elem_of_nil|].
  rewrite toHex_cons; destruct (byte_nibbles b Hb) as (-> & -> & Hq & Hr).
  apply not_elem_of_cons; split; [by apply not_eq_sym, Hnib|].
  apply not_elem_of_cons; split; [by apply not_eq_sym, Hnib|done].
Qed.

Lemma digits_comma s : forallb isdigit s = true -> 44 ∉ s.
Proof.
  induction s as [|ch s IH]; simpl; [intros _; apply not_elem_of_nil|]; intros [H1 H2]%andb_true_iff.
  apply not_elem_of_cons; split; [by intros <-|auto].
Qed.

Lemma read_line_render i h l : in_u 32 i -> wf_hash h ->
  read_line (render ((i, h) :: l)) = Some (to_string i, toHex h, render l).
Proof.
  intros Hi [Hl Hh]; unfold read_line; simpl.
  destruct (to_string_spec i (in_u_mono 32 64 i ltac:(lia) Hi)) as (Hd & _ & _).
  rewrite <- app_assoc; simpl; rewrite split_at_spec by (by apply digits_comma).
  pose proof (toHex_length h) as El; rewrite Hl in El.
  destruct (toHex h) as [|ch t] eqn:Eh; [done|]; rewrite <- Eh, <- app_assoc in *; cbn [app].
  destruct (toHex h ++ 10 :: render l) eqn:E; [by destruct (toHex h)|]; rewrite <- E.
  rewrite split_at_spec by (by apply toHex_newline); done.
Qed.

Lemma podFromHex_toHex h : wf_hash h -> podFromHex 32 (toHex h) = Some h.
Proof.
  intros [Hl Hb]; unfold podFromHex; rewrite toHex_even, toHex_length, Hl.
  rewrite fromHex_loop_toHex by done; cbn [mbind option_bind]; by rewrite Hl.
Qed.

Definition wf_point (kv : Z * Hash) : Prop := in_u 32 kv.1 /\ wf_hash kv.2.

Lemma load_lines_render l : forall fuel index p,
  Forall wf_point l -> NoDup (map fst (l ++ p)) -> StronglySorted index_lt p -> (length l <= fuel)%nat ->
  exists p', load_lines fuel index (render l) p = Some (true, p') /\ p' ≡ₚ l ++ p /\ StronglySorted index_lt p'.
Proof.
  induction l as [|[i h] l IH]; intros fuel index p Hw Hn Hs Hf.
  - exists p; split; [by destruct fuel|done].
  - apply Forall_cons in Hw as [[Hi Hh] Hw]; destruct fuel as [|fuel]; [simpl in Hf; lia|].
    cbn [app map fst] in Hn; apply NoDup_cons in Hn as [Hin Hn].
    cbn [load_lines]; rewrite read_line_render, stoull_to_string by (done || by eapply in_u_mono; [|exact Hi]).
    cbn [mbind option_bind]; unfold addCheckpoint; rewrite podFromHex_toHex, wrap_small by done.
    rewrite map_app in Hin; apply not_elem_of_app in Hin as [Hi1 Hi2].
    destruct (points_insert_new i h p Hi2) as [p1 E]; rewrite E; cbn [negb].
    destruct (points_insert_spec _ _ _ _ E Hs) as (HP & Hs1 & _).
    destruct (IH fuel (Some i) p1 Hw) as (p' & E' & HP' & Hs'); [|done|simpl in Hf; lia|].
    + rewrite map_app, HP; cbn [map fst]; rewrite <- Permutation_middle, <- map_app.
      apply NoDup_cons; split; [|done]; rewrite map_app; by apply not_elem_of_app.
    + exists p'; split; [done|]; split; [|done]; rewrite HP', HP; simpl; by rewrite <- Permutation_middle.
Qed.

(** Every iteration consumes at least a character, so the fuel is enough. *)
Lemma split_at_length delim s line rest : split_at delim s = (line, Some rest) -> (length rest < length s)%nat.
Proof.
  revert line; induction s as [|ch s IH]; intros line; simpl; [done|].
  destruct (ch =? delim); [intros [= <- <-]; lia|].
  destruct (split_at delim s) as [l r]; intros [= <- ->]; specialize (IH l eq_refl); lia.
Qed.

Lemma read_line_length file a b rest : read_line file = Some (a, b, rest) -> (length rest < length file)%nat.
Proof.
  unfold read_line; destruct (split_at 44 file) as [i [r|]] eqn:E; [|done].
  apply split_at_length in E; destruct r as [|ch r]; [done|].
  destruct (split_at 10 (ch :: r)) as [h r'] eqn:E'; intros [= <- <- <-].
  destruct r' as [r'|]; [apply split_at_length in E'|]; simpl in *; lia.
Qed.

Lemma load_lines_fuel n : forall m file index p, (length file <= n)%nat -> (length file <= m)%nat ->
  load_lines n index file p = load_lines m index file p.
Proof.
  induction n as [|n IH]; intros m file index p Hn Hm.
  { destruct file; [by destruct m|simpl in Hn; lia]. }
  destruct m as [|m]; [destruct file; [done|simpl in Hm; lia]|].
  cbn [load_lines]; destruct (read_line file) as [[[a b] rest]|] eqn:Er; [|done].
  apply read_line_length in Er.
  assert (Hk : forall index p, load_lines n index rest p = load_lines m index rest p) by (intros; apply IH; lia).
  destruct (stoull a) as [v| |]; [| |done]; [|destruct index as [v|]; [|done]];
    cbn [mbind option_bind]; destruct (addCheckpoint _ _ _) as [[] q]; cbn [negb]; auto.
Qed.

Lemma render_length l : (length l <= length (render l))%nat.
Proof.
  induction l as [|[i h] l IH]; [simpl; lia|].
  change (render ((i, h) :: l)) with ((to_string i ++ 44 :: toHex h ++ [10]) ++ render l).
  rewrite !length_app; cbn [length]; lia.
Qed.

(** Loading a file of lines index,hash with distinct 32-bit indexes in
    any order succeeds; checkBlock then accepts at a listed index only the
    listed hash and everything elsewhere, a listed index cannot be added
    again, and the checkpoint zone ends at the greatest index. *)
Theorem checkpoints_load_exact l : Forall wf_point l -> NoDup (map fst l) ->
  exists p, loadCheckpointsFromFile (Some (render l)) [] = Some (true, p) /\
    (forall index, isInCheckpointZone index p = true <-> Exists (fun kv => index <= kv.1) l) /\
    (forall index h, (checkBlock index h p).1 = true <-> forall h', (index, h') ∈ l -> h' = h) /\
    (forall index h, (checkBlock index h p).2 = true <-> index ∈ map fst l) /\
    (forall index h, index ∈ map fst l -> (addCheckpoint index (toHex h) p) = (false, p)).
Proof.
  intros Hw Hn; destruct (load_lines_render l (length (render l)) None []) as (p & E & HP & Hs);
    [done|by rewrite app_nil_r|constructor|apply render_length|].
  rewrite app_nil_r in HP; exists p; split; [exact E|]; split_and!.
  - intros index; rewrite isInCheckpointZone_spec by done; by rewrite HP.
  - intros index h; unfold checkBlock; destruct (points_find index p) as [v|] eqn:Ef; simpl.
    + apply points_find_spec in Ef; [|done]; rewrite bool_decide_eq_true; split; [|intros H; apply H; by rewrite <- HP].
      intros -> h' Hh'; rewrite <- HP in Hh'; apply points_find_spec in Ef, Hh'; [congruence|done..].
    + split; [|done]; intros _ h' Hh'; rewrite <- HP in Hh'; apply points_find_spec in Hh'; [congruence|done].
  - intros index h; rewrite <- HP; unfold checkBlock; destruct (points_find index p) as [v|] eqn:Ef; simpl.
    + apply points_find_spec in Ef; [|done]; split; [intros _; by apply (list_elem_of_fmap_2 fst _ (index, v))|done].
    + split; [done|]; intros ([k v] & -> & Hin)%list_elem_of_fmap; apply points_find_spec in Hin; [simpl in *; congruence|done].
  - intros index h Hin; unfold addCheckpoint; destruct (podFromHex 32 (toHex h)) as [x|]; [|done].
    destruct (points_insert index x p) as [q|] eqn:Eq; [|done].
    destruct (points_insert_spec _ _ _ _ Eq Hs) as (_ & _ & Hni); rewrite HP in Hni; done.
Qed.

Lemma checkpoints_load_exact_witness :
  exists p, loadCheckpointsFromFile (Some (render [(5000, repeat 255 32); (100, repeat 17 32)])) [] = Some (true, p) /\
    isInCheckpointZone 4999 p = true /\ (checkBlock 100 (repeat 17 32) p).1 = true.
Proof.
  destruct (checkpoints_load_exact [(5000, repeat 255 32); (100, repeat 17 32)]) as (p & E & Hz & Hb & _);
    [by apply (bool_decide_unpack _); vm_compute|by apply (bool_decide_unpack _); vm_compute|].
  exists p; split; [exact E|]; split; [apply Hz; apply (bool_decide_unpack _); by vm_compute|].
  apply Hb; intros h' Hin; repeat (apply elem_of_cons in Hin as [Hin|Hin]; [congruence|]).
  by apply not_elem_of_nil in Hin.
Defined.

(** A height that does not fit 64 bits on the first line leaves the variable unset: the handler
    of std::out_of_range does not return. *)
Lemma load_overflow_undefined file indexString hash rest p :
  read_line file = Some (indexString, hash, rest) -> stoull indexString = OutOfRange ->
  loadCheckpointsFromFile (Some file) p = None.
Proof.
  intros E1 E2; destruct file as [|ch file]; [done|].
  unfold loadCheckpointsFromFile; cbn [length load_lines]; by rewrite E1, E2.
Qed.

End Checkpoints.

Module UpgradeManager.

Import Currency.

(** A detector is (targetVersion, upgradeIndex). *)
Abbreviation detectors := (list (Z * Z)).

Definition addMajorBlockVersion (ndebug : bool) (targetVersion upgradeHeight : Z) (d : detectors) : option detectors :=
  _ ← Crypto.assert_that ndebug (match last d with None => true | Some (v, _) => v <? targetVersion end);
  Some (d ++ [(targetVersion, upgradeHeight)]).

Definition getBlockMajorVersion (blockIndex : Z) (d : detectors) : Z :=
  match find (fun d => d.2 <? blockIndex) (reverse d) with
  | Some (targetVersion, _) => targetVersion
  | None => BLOCK_MAJOR_VERSION_1
  end.

(** The upgrade manager that Core's constructor and BlockchainCache's
    getBlockMajorVersionForHeight build. *)
Definition upgradeManager (ndebug : bool) (c : Currency) : option detectors :=
  d ← addMajorBlockVersion ndebug BLOCK_MAJOR_VERSION_2 (upgradeHeight c BLOCK_MAJOR_VERSION_2) [];
  d ← addMajorBlockVersion ndebug BLOCK_MAJOR_VERSION_3 (upgradeHeight c BLOCK_MAJOR_VERSION_3) d;
  d ← addMajorBlockVersion ndebug BLOCK_MAJOR_VERSION_4 (upgradeHeight c BLOCK_MAJOR_VERSION_4) d;
  addMajorBlockVersion ndebug BLOCK_MAJOR_VERSION_5 (upgradeHeight c BLOCK_MAJOR_VERSION_5) d.

(** The assertions hold, so the four detectors are always there. *)
Lemma upgradeManager_total ndebug c : upgradeManager ndebug c = Some
  [(2, m_upgradeHeightV2 c); (3, m_upgradeHeightV3 c); (4, m_upgradeHeightV4 c); (5, m_upgradeHeightV5 c)].
Proof. by destruct ndebug. Qed.

Definition majorVersion (c : Currency) (blockIndex : Z) : Z :=
  if m_upgradeHeightV5 c <? blockIndex then 5
  else if m_upgradeHeightV4 c <? blockIndex then 4
  else if m_upgradeHeightV3 c <? blockIndex then 3
  else if m_upgradeHeightV2 c <? blockIndex then 2 else 1.

Lemma getBlockMajorVersion_spec ndebug c d blockIndex : upgradeManager ndebug c = Some d ->
  getBlockMajorVersion blockIndex d = majorVersion c blockIndex.
Proof.
  rewrite upgradeManager_total; intros [= <-]; unfold getBlockMajorVersion, majorVersion.
  change (reverse _) with [(5, m_upgradeHeightV5 c); (4, m_upgradeHeightV4 c); (3, m_upgradeHeightV3 c); (2, m_upgradeHeightV2 c)].
  cbn [find snd]; by destruct (m_upgradeHeightV5 c <? blockIndex), (m_upgradeHeightV4 c <? blockIndex),
    (m_upgradeHeightV3 c <? blockIndex), (m_upgradeHeightV2 c <? blockIndex).
Qed.

(** The version of blocks never decreases with the height and, when the upgrade heights increase,
    version v starts after its upgrade height. *)
Theorem major_version_monotone ndebug c d i j : upgradeManager ndebug c = Some d -> i <= j ->
  1 <= getBlockMajorVersion i d <= getBlockMajorVersion j d /\ getBlockMajorVersion j d <= 5 /\
  (forall v, 2 <= v <= 5 ->
     (m_upgradeHeightV2 c <= m_upgradeHeightV3 c <= m_upgradeHeightV4 c /\ m_upgradeHeightV4 c <= m_upgradeHeightV5 c) ->
     (v <= getBlockMajorVersion i d <-> upgradeHeight c v < i)).
Proof.
  intros E Hij; rewrite !(getBlockMajorVersion_spec _ _ _ _ E).
  unfold majorVersion; split_and!.
  - repeat case_match; lia.
  - repeat case_match; lia.
  - repeat case_match; lia.
  - intros v Hv Hs; assert (v = 2 \/ v = 3 \/ v = 4 \/ v = 5) as [-> |[-> |[-> | ->]]] by lia;
      unfold upgradeHeight; simpl;
      destruct (Z.ltb_spec (m_upgradeHeightV5 c) i), (Z.ltb_spec (m_upgradeHeightV4 c) i),
        (Z.ltb_spec (m_upgradeHeightV3 c) i), (Z.ltb_spec (m_upgradeHeightV2 c) i); lia.
Qed.

Lemma major_version_monotone_witness :
  exists d, upgradeManager true mainnet = Some d /\
    1 <= getBlockMajorVersion 1 d <= getBlockMajorVersion 100 d.
Proof.
  eexists; split; [reflexivity|]; exact (proj1 (major_version_monotone true mainnet _ 1 100 eq_refl ltac:(lia))).
Defined.

End UpgradeManager.
