(* ===== verification/BlockchainCache.v ===== *)
(** Blockchain segments: src/src/CryptoNoteCore/BlockchainCache.cpp and its in-memory storage
    (BlockchainStorage.cpp, MemoryBlockchainStorage.cpp).

    A cache is the list of a segment and its parents, the root last: following the parent
    pointers of the source gives that list, and a null parent is its end.  Containers with a
    unique index refuse an element whose key is present.  The index of transactions by block is
    the list of insertions, the map of spent key images gives the block that spends one.  An
    error is an exception of the source or, for [Undefined], a failed assertion, a null parent
    or an access out of range.  The clock is an argument. *)

From S2P Require Import Prelude.
From S2P Require Import Config.
From S2P Require Import Types.
From S2P Require Import Varint.
From S2P Require Import Keccak.
From S2P Require Import Currency.
From S2P Require Import Difficulty.
From S2P Require Import Serialization.
From S2P Require Import TransactionExtra.
From S2P Require Import Block.
From S2P Require Import CachedTransaction.
From S2P Require Import ChainRules.

Module BlockchainCache.

Import Varint Currency Difficulty Serialization TransactionExtra Block CachedTransaction UpgradeManager.

Inductive cache_error := Undefined | OutOfRange | RuntimeError.

Abbreviation res := (result cache_error).

Definition of_option {A} (e : cache_error) (o : option A) : res A :=
  match o with Some a => Ok a | None => Err e end.

(** Element [i] of a vector. *)
Definition at_index {A} (l : list A) (i : Z) : option A := if i <? 0 then None else l !! Z.to_nat i.

(** std::lower_bound on a range that is partitioned by [p]. *)
Fixpoint lower_bound_by {A} (p : A -> bool) (l : list A) : nat :=
  match l with
  | a :: l => if p a then S (lower_bound_by p l) else O
  | [] => O
  end.

(** ** Data *)

Record PackedOutIndex := mkOutIndex {
  poi_blockIndex : Z;
  poi_transactionIndex : Z;
  poi_outputIndex : Z }.

Record CachedTransactionInfo := mkTransactionInfo {
  ti_blockIndex : Z;
  ti_transactionIndex : Z;
  ti_transactionHash : Hash;
  ti_unlockTime : Z;
  ti_outputs : list TransactionOutputTarget;
  ti_globalIndexes : list Z }.

Record CachedBlockInfo := mkBlockInfo {
  bi_blockHash : Hash;
  bi_timestamp : Z;
  bi_cumulativeDifficulty : Z;
  bi_alreadyGeneratedCoins : Z;
  bi_alreadyGeneratedTransactions : Z;
  bi_blockSize : Z }.

Record OutputGlobalIndexesForAmount := mkGlobalIndexes {
  gi_startIndex : Z;
  gi_outputs : list PackedOutIndex }.

Record RawBlock := mkRawBlock {
  rb_block : BinaryArray;
  rb_transactions : list BinaryArray }.

(** A block with its hash, as CachedBlock keeps it. *)
Record CachedBlock := mkCachedBlock {
  cb_block : BlockTemplate;
  cb_hash : Hash }.

Record segment := mkSegment {
  startIndex : Z;
  transactions : list CachedTransactionInfo;
  spentKeyImages : gmap KeyImage Z;
  blockInfos : list CachedBlockInfo;
  keyOutputsGlobalIndexes : gmap Z OutputGlobalIndexesForAmount;
  paymentIds : list (Hash * Hash);
  storage : list RawBlock }.

Abbreviation cache := (list segment).

Inductive ExtractOutputKeysResult := SUCCESS | INVALID_GLOBAL_INDEX | OUTPUT_LOCKED.

Record PushedBlockInfo := mkPushedBlockInfo {
  pbi_rawBlock : RawBlock;
  pbi_validatorState : TransactionValidatorState;
  pbi_blockSize : Z;
  pbi_generatedCoins : Z;
  pbi_blockDifficulty : Z }.

Definition new_segment (startIndex : Z) : segment := mkSegment startIndex [] ∅ [] ∅ [] [].

(** ** Queries *)

Section Queries.
Context (ndebug : bool).

Definition assert_res (b : bool) : res unit := if ndebug || b then Ok tt else Err Undefined.

Definition getBlockCount (s : segment) : Z := Z.of_nat (length (blockInfos s)).

Definition topIndex (s : segment) : Z := u32 (startIndex s + getBlockCount s - 1).

Definition getTopBlockIndex (s : segment) : res Z :=
  let! _ := assert_res (bool_decide (blockInfos s <> [])) in Ok (topIndex s).

Definition getTopBlockHash (s : segment) : res Hash :=
  of_option Undefined (bi_blockHash <$> last (blockInfos s)).

Definition hasBlock (blockHash : Hash) (s : segment) : bool :=
  existsb (fun i => bool_decide (bi_blockHash i = blockHash)) (blockInfos s).

Definition getBlockIndex (blockHash : Hash) (s : segment) : res Z :=
  match list_find (fun i => bi_blockHash i = blockHash) (blockInfos s) with
  | None => Err RuntimeError
  | Some (i, _) => Ok (Z.of_nat i + startIndex s)
  end.

Fixpoint getBlockHash (blockIndex : Z) (c : cache) : res Hash :=
  match c with
  | [] => Err Undefined
  | s :: parent =>
    if blockIndex <? startIndex s then getBlockHash blockIndex parent
    else of_option Undefined (bi_blockHash <$> at_index (blockInfos s) (blockIndex - startIndex s))
  end.

Fixpoint getBlockHashes (startBlockIndex maxCount : Z) (c : cache) : res (list Hash) :=
  match c with
  | [] => Err Undefined
  | s :: parent =>
    let size := getBlockCount s in
    let! r := (if startBlockIndex <? startIndex s then
        let! hashes := getBlockHashes startBlockIndex maxCount parent in
        Ok (hashes, Z.min (u64 (maxCount - Z.of_nat (length hashes))) size, 0)
      else
        let start := startBlockIndex - startIndex s in
        Ok ([], Z.min (u64 (size - start)) maxCount, start)) in
    let '(hashes, blocksLeft, start) := r in
    (* blockInfos[i] for i in [start, start + blocksLeft) *)
    if (0 <? blocksLeft) && (size <? start + blocksLeft) then Err Undefined
    else Ok (hashes ++ map bi_blockHash (take (Z.to_nat blocksLeft) (drop (Z.to_nat start) (blockInfos s))))
  end.

Fixpoint checkIfSpent (keyImage : KeyImage) (blockIndex : Z) (c : cache) : res bool :=
  match c with
  | [] => Err Undefined
  | s :: parent =>
    if blockIndex <? startIndex s then checkIfSpent keyImage blockIndex parent
    else
      match spentKeyImages s !! keyImage with
      | None => match parent with [] => Ok false | _ :: _ => checkIfSpent keyImage blockIndex parent end
      | Some index => Ok (index <=? blockIndex)
      end
  end.

(** checkIfSpent(keyImage) *)
Definition checkIfSpent_any (keyImage : KeyImage) (c : cache) : bool :=
  existsb (fun s => bool_decide (is_Some (spentKeyImages s !! keyImage))) c.

Fixpoint getKeyOutputsCountForAmount (amount blockIndex : Z) (c : cache) : Z :=
  match c with
  | [] => 0
  | s :: parent =>
    match keyOutputsGlobalIndexes s !! amount with
    | None => getKeyOutputsCountForAmount amount blockIndex parent
    | Some it =>
      gi_startIndex it +
      Z.of_nat (lower_bound_by (fun output => poi_blockIndex output <? blockIndex) (gi_outputs it))
    end
  end.

Fixpoint getLastUnits {A} (count blockIndex : Z) (useGenesis : bool) (pred : CachedBlockInfo -> A) (c : cache)
  : res (list A) :=
  match c with
  | [] => Err Undefined
  | s :: parent =>
    let! _ := assert_res (blockIndex <=? topIndex s) in
    let to := if blockIndex <? startIndex s then 0 else blockIndex - startIndex s + 1 in
    let realCount := Z.min count to in
    let from := to - realCount in
    let '(from, realCount) :=
      if negb useGenesis && (from =? 0) && negb (realCount =? 0) && bool_decide (parent = [])
      then (from + 1, realCount - 1) else (from, realCount) in
    let! result := (match parent with
      | p :: _ =>
        if realCount <? count then
          let! top := getTopBlockIndex p in
          getLastUnits (count - realCount) (Z.min blockIndex top) useGenesis pred parent
        else Ok []
      | [] => Ok []
      end) in
    if getBlockCount s <? to then Err Undefined
    else Ok (result ++ map pred (take (Z.to_nat (to - from)) (drop (Z.to_nat from) (blockInfos s))))
  end.

Definition getLastTimestamps (count blockIndex : Z) (useGenesis : bool) (c : cache) : res (list Z) :=
  getLastUnits count blockIndex useGenesis bi_timestamp c.

Definition getLastBlocksSizes (count blockIndex : Z) (useGenesis : bool) (c : cache) : res (list Z) :=
  getLastUnits count blockIndex useGenesis bi_blockSize c.

Definition getLastCumulativeDifficulties (count blockIndex : Z) (useGenesis : bool) (c : cache) : res (list Z) :=
  getLastUnits count blockIndex useGenesis bi_cumulativeDifficulty c.

Fixpoint getAlreadyGeneratedCoins (blockIndex : Z) (c : cache) : res Z :=
  match c with
  | [] => Err Undefined
  | s :: parent =>
    if blockIndex <? startIndex s then getAlreadyGeneratedCoins blockIndex parent
    else of_option OutOfRange (bi_alreadyGeneratedCoins <$> at_index (blockInfos s) (blockIndex - startIndex s))
  end.

Fixpoint getAlreadyGeneratedTransactions (blockIndex : Z) (c : cache) : res Z :=
  match c with
  | [] => Err Undefined
  | s :: parent =>
    if blockIndex <? startIndex s then getAlreadyGeneratedTransactions blockIndex parent
    else of_option OutOfRange
           (bi_alreadyGeneratedTransactions <$> at_index (blockInfos s) (blockIndex - startIndex s))
  end.

(** getCurrentCumulativeDifficulty(): of the last block of the segment. *)
Definition getCurrentCumulativeDifficulty (s : segment) : res Z :=
  of_option Undefined (bi_cumulativeDifficulty <$> last (blockInfos s)).

(** getCurrentCumulativeDifficulty(blockIndex) does not ask the parent. *)
Definition getCurrentCumulativeDifficulty_at (blockIndex : Z) (s : segment) : res Z :=
  let! _ := assert_res (bool_decide (blockInfos s <> [])) in
  let! _ := assert_res (blockIndex <=? topIndex s) in
  of_option OutOfRange (bi_cumulativeDifficulty <$> at_index (blockInfos s) (u32 (blockIndex - startIndex s))).

Definition getBlockMajorVersionForHeight (cur : Currency) (height : Z) : res Z :=
  let! d := of_option Undefined (upgradeManager ndebug cur) in Ok (getBlockMajorVersion height d).

Definition getDifficultyForNextBlock (cur : Currency) (blockIndex : Z) (c : cache) : res Z :=
  let! _ := (match c with [] => Err Undefined | s :: _ => assert_res (blockIndex <=? topIndex s) end) in
  let! nextBlockMajorVersion := getBlockMajorVersionForHeight cur (u32 (blockIndex + 1)) in
  let count := difficultyBlocksCountByBlockVersion cur nextBlockMajorVersion blockIndex in
  let! timestamps := getLastTimestamps count blockIndex false c in
  let! cumulativeDifficulties := getLastCumulativeDifficulties count blockIndex false c in
  of_option Undefined (getNextDifficulty cur nextBlockMajorVersion blockIndex timestamps cumulativeDifficulties).

(** ** Outputs *)

(** The time is an argument. *)
Definition isTransactionSpendTimeUnlocked (cur : Currency) (now unlockTime blockIndex : Z) : bool :=
  if unlockTime <? m_maxBlockHeight cur then
    u64 (blockIndex + m_lockedTxAllowedDeltaBlocks cur) >=? unlockTime
  else u64 (u64 now + m_lockedTxAllowedDeltaSeconds cur) >=? unlockTime.

(** transactions.get<TransactionInBlockTag>().find(block, transaction) *)
Definition find_transaction (blockIndex transactionIndex : Z) (s : segment) : option CachedTransactionInfo :=
  find (fun t => (ti_blockIndex t =? blockIndex) && (ti_transactionIndex t =? transactionIndex)) (transactions s).

Fixpoint strictly_sorted (l : list Z) : bool :=
  match l with
  | a :: (b :: _) as rest => (a <? b) && strictly_sorted rest
  | _ => true
  end.

(** The three assertions on global indexes: not empty, sorted, unique. *)
Definition assert_indexes (globalIndexes : list Z) : res unit :=
  assert_res (bool_decide (globalIndexes <> []) && strictly_sorted globalIndexes).

(** std::lower_bound is undefined on a range that is not partitioned: indexes that wrap around are
    not sorted, and without the assertions they reach it. *)
Definition assume_partitioned (p : Z -> bool) (l : list Z) : res unit :=
  if forallb (fun i => negb (p i)) (drop (lower_bound_by p l) l) then Ok tt else Err Undefined.

Section Extract.
(** The callback, with the variables it changes. *)
Context {A : Type} (pred : CachedTransactionInfo -> PackedOutIndex -> Z -> A -> res (ExtractOutputKeysResult * A)).

(** The loop over the indexes of this segment. *)
Fixpoint extract_own (blockIndex startGlobalIndex : Z) (outputs : list PackedOutIndex) (s : segment)
    (globalIndexes : list Z) (acc : A) : res (ExtractOutputKeysResult * A) :=
  match globalIndexes with
  | [] => Ok (SUCCESS, acc)
  | globalIndex :: globalIndexes =>
    match at_index outputs (u32 (globalIndex - startGlobalIndex)) with
    | None => Ok (INVALID_GLOBAL_INDEX, acc)
    | Some outputIndex =>
      let! _ := assert_res (startIndex s <=? poi_blockIndex outputIndex) in
      let! _ := assert_res (poi_blockIndex outputIndex <=? blockIndex) in
      match find_transaction (poi_blockIndex outputIndex) (poi_transactionIndex outputIndex) s with
      | None => Ok (INVALID_GLOBAL_INDEX, acc)
      | Some txIt =>
        let! r := pred txIt outputIndex globalIndex acc in
        let '(ret, acc) := r in
        match ret with
        | SUCCESS => extract_own blockIndex startGlobalIndex outputs s globalIndexes acc
        | _ => Ok (ret, acc)
        end
      end
    end
  end.

Fixpoint extractKeyOutputs (amount blockIndex : Z) (globalIndexes : list Z) (c : cache) (acc : A)
  : res (ExtractOutputKeysResult * A) :=
  match c with
  | [] => Err Undefined
  | s :: parent =>
    let! _ := assert_indexes globalIndexes in
    let ask_parent := match parent with
      | [] => Ok (INVALID_GLOBAL_INDEX, acc)
      | _ :: _ => extractKeyOutputs amount blockIndex globalIndexes parent acc
      end in
    match keyOutputsGlobalIndexes s !! amount with
    | None => ask_parent
    | Some it =>
      if blockIndex <? startIndex s then ask_parent
      else
        let startGlobalIndex := gi_startIndex it in
        let offset := lower_bound_by (fun i => i <? startGlobalIndex) globalIndexes in
        let! _ := assume_partitioned (fun i => i <? startGlobalIndex) globalIndexes in
        let! r := (if (offset =? 0)%nat then Ok (SUCCESS, acc)
                   else extractKeyOutputs amount blockIndex (take offset globalIndexes) parent acc) in
        let '(result, acc) := r in
        match result with
        | SUCCESS =>
          let! _ := assert_res (bool_decide (gi_outputs it <> [])) in
          extract_own blockIndex startGlobalIndex (gi_outputs it) s (drop offset globalIndexes) acc
        | _ => Ok (result, acc)
        end
    end
  end.
End Extract.

(** The keys are appended to publicKeys. *)
Definition extractKeyOutputKeys (cur : Currency) (now amount blockIndex : Z) (globalIndexes : list Z) (c : cache)
  : res (ExtractOutputKeysResult * list PublicKey) :=
  let! _ := assert_indexes globalIndexes in
  extractKeyOutputs (fun info index _ publicKeys =>
    if negb (isTransactionSpendTimeUnlocked cur now (ti_unlockTime info) blockIndex) then Ok (OUTPUT_LOCKED, publicKeys)
    else
      let! target := of_option Undefined (at_index (ti_outputs info) (poi_outputIndex index)) in
      match target with OutKey key => Ok (SUCCESS, publicKeys ++ [key]) end)
    amount blockIndex globalIndexes c [].

Definition extractKeyOtputReferences (amount : Z) (globalIndexes : list Z) (c : cache)
  : res (ExtractOutputKeysResult * list (Hash * Z)) :=
  let! _ := assert_indexes globalIndexes in
  let! top := (match c with [] => Err Undefined | s :: _ => getTopBlockIndex s end) in
  extractKeyOutputs (fun info index _ refs => Ok (SUCCESS, refs ++ [(ti_transactionHash info, poi_outputIndex index)]))
    amount top globalIndexes c [].

Definition extractKeyOtputIndexes (amount : Z) (globalIndexes : list Z) (c : cache)
  : res (ExtractOutputKeysResult * list PackedOutIndex) :=
  let! _ := assert_res (bool_decide (globalIndexes <> [])) in
  let! top := (match c with [] => Err Undefined | s :: _ => getTopBlockIndex s end) in
  extractKeyOutputs (fun _ index _ outIndexes => Ok (SUCCESS, outIndexes ++ [index])) amount top globalIndexes c [].

(** ** Other queries *)

Definition hasTransaction (transactionHash : Hash) (s : segment) : bool :=
  existsb (fun t => bool_decide (ti_transactionHash t = transactionHash)) (transactions s).

Definition find_by_hash (transactionHash : Hash) (s : segment) : option CachedTransactionInfo :=
  find (fun t => bool_decide (ti_transactionHash t = transactionHash)) (transactions s).

Definition getBlockIndexContainingTx (transactionHash : Hash) (s : segment) : res Z :=
  of_option Undefined (ti_blockIndex <$> find_by_hash transactionHash s).

Definition getTransactionGlobalIndexes (transactionHash : Hash) (s : segment) : option (list Z) :=
  ti_globalIndexes <$> find_by_hash transactionHash s.

Definition getTransactionCount (c : cache) : Z :=
  foldr (fun s n => n + Z.of_nat (length (transactions s))) 0 c.

(** Hashes of the transactions of the segment, without base transactions. *)
Definition getTransactionHashes (s : segment) : list Hash :=
  map ti_transactionHash (filter (fun t => ti_transactionIndex t <> 0) (transactions s)).

Fixpoint getTransactionHashesByPaymentId (paymentId : Hash) (c : cache) : list Hash :=
  match c with
  | [] => []
  | s :: parent =>
    getTransactionHashesByPaymentId paymentId parent ++
    map snd (filter (fun p => p.1 = paymentId) (paymentIds s))
  end.

(** The order of the index by time stamp. *)
Definition by_timestamp (a b : CachedBlockInfo) : Prop := bi_timestamp a <= bi_timestamp b.
#[global] Instance by_timestamp_dec : RelDecision by_timestamp.
Proof. intros a b; unfold by_timestamp; apply _. Defined.

(** The elements of a segment whose key is in the interval, in the order of the key. *)
Fixpoint getBlockHashesByTimestamps (timestampBegin secondsCount : Z) (c : cache) : list Hash :=
  match c with
  | [] => []
  | s :: parent =>
    if secondsCount =? 0 then []
    else
      let last := u64 (timestampBegin + secondsCount - 1) in
      let byTime := merge_sort by_timestamp (blockInfos s) in
      getBlockHashesByTimestamps timestampBegin secondsCount parent ++
      map bi_blockHash (filter (fun i => timestampBegin <= bi_timestamp i <= last) byTime)
  end.

(** [Some] is the {true, result} of the source. *)
Fixpoint getBlockHeightForTimestamp (timestamp : Z) (c : cache) : res (option Z) :=
  match c with
  | [] => Err Undefined
  | s :: parent =>
    match blockInfos s, last (blockInfos s) with
    | front :: _, Some back =>
      if bi_timestamp back <? timestamp then Ok None
      else if bi_timestamp front >=? timestamp then
        let bound := lower_bound_by (fun i => bi_timestamp i <? timestamp) (blockInfos s) in
        Ok (Some (startIndex s + Z.of_nat bound))
      else match parent with
           | [] => Ok None
           | _ :: _ => getBlockHeightForTimestamp timestamp parent
           end
    | _, _ => Err Undefined
    end
  end.

Fixpoint getTimestampLowerBoundBlockIndex (timestamp : Z) (c : cache) : res Z :=
  match c with
  | [] => Err Undefined
  | s :: parent =>
    match blockInfos s, last (blockInfos s) with
    | front :: _, Some back =>
      if bi_timestamp back <? timestamp then Err RuntimeError
      else if bi_timestamp front <? timestamp then
        Ok (startIndex s +
            Z.of_nat (lower_bound_by (fun i => bi_timestamp i <? timestamp) (blockInfos s)))
      else match parent with
           | [] => Ok 0
           | _ :: _ =>
             match getTimestampLowerBoundBlockIndex timestamp parent with
             | Ok blockIndex => Ok (if negb (blockIndex =? 2 ^ 32 - 1) then blockIndex else startIndex s)
             | Err RuntimeError => Ok (startIndex s)
             | Err e => Err e
             end
           end
    | _, _ => Err Undefined
    end
  end.

(** getBlockByIndex of the in-memory storage. *)
Definition storage_getBlockByIndex (index : Z) (s : segment) : res RawBlock :=
  of_option Undefined (at_index (storage s) index).

Fixpoint getBlockByIndex (index : Z) (c : cache) : res RawBlock :=
  match c with
  | [] => Err Undefined
  | s :: parent =>
    if index <? startIndex s then getBlockByIndex index parent
    else storage_getBlockByIndex (index - startIndex s) s
  end.

(** The blocks [startHeight .. endHeight - 1]. *)
Fixpoint getBlocksByHeight (startHeight endHeight : Z) (c : cache) : res (list RawBlock) :=
  match c with
  | [] => Err Undefined
  | s :: parent =>
    if endHeight <? startIndex s then getBlocksByHeight startHeight endHeight parent
    else
      let! blocks := (if startHeight <? startIndex s then getBlocksByHeight startHeight (startIndex s) parent
                      else Ok []) in
      let startOffset := Z.max startHeight (startIndex s) in
      let blockCount := Z.of_nat (length (storage s)) in
      let endHeight := if endHeight >? startIndex s + blockCount then startIndex s + blockCount else endHeight in
      Ok (blocks ++ take (Z.to_nat (endHeight - startOffset)) (drop (Z.to_nat (startOffset - startIndex s)) (storage s)))
  end.

(** fromBinaryArray and toBinaryArray throw; [b0] is the block that is read into. *)
Fixpoint getRawTransaction (b0 : BlockTemplate) (index transactionIndex : Z) (c : cache) : res BinaryArray :=
  match c with
  | [] => Err Undefined
  | s :: parent =>
    if index <? startIndex s then getRawTransaction b0 index transactionIndex parent
    else
      let! rawBlock := storage_getBlockByIndex (index - startIndex s) s in
      if transactionIndex =? 0 then
        match fromBinaryArray (get_BlockTemplate b0) (rb_block rawBlock) with
        | Ok block =>
          match put_Transaction (bt_baseTransaction block) with Ok ba => Ok ba | Err _ => Err RuntimeError end
        | Err _ => Err RuntimeError
        end
      else of_option Undefined (at_index (rb_transactions rawBlock) (transactionIndex - 1))
  end.

(** getRawTransactions: the transactions found and the hashes missed. *)
Fixpoint getRawTransactions (b0 : BlockTemplate) (requested : list Hash) (c : cache)
  : res (list BinaryArray * list Hash) :=
  match requested with
  | [] => Ok ([], [])
  | transactionHash :: requested =>
    match c with
    | [] => Err Undefined
    | s :: _ =>
      match find_by_hash transactionHash s with
      | None =>
        let! r := getRawTransactions b0 requested c in Ok (r.1, transactionHash :: r.2)
      | Some it =>
        let! ba := getRawTransaction b0 (ti_blockIndex it) (ti_transactionIndex it) c in
        let! r := getRawTransactions b0 requested c in Ok (ba :: r.1, r.2)
      end
    end
  end.

(** The map of the source as a finite map; a missing transaction at the root is a null parent. *)
Fixpoint getGlobalIndexes (transactionHashes : list Hash) (c : cache) : res (gmap Hash (list Z)) :=
  match c with
  | [] => Err Undefined
  | s :: parent =>
    let found : gmap Hash (list Z) := foldr (fun h m =>
      match find_by_hash h s with Some t => <[h := ti_globalIndexes t]> m | None => m end) ∅ transactionHashes in
    let remaining := filter (fun h => find_by_hash h s = None) transactionHashes in
    if bool_decide (remaining = []) then Ok found
    else let! parentResult := getGlobalIndexes remaining parent in Ok (found ∪ parentResult)
  end.

Definition fillOutputsSpentByBlock (blockIndex : Z) (s : segment) : TransactionValidatorState :=
  mkValidatorState (dom (filter (fun kv => kv.2 = blockIndex) (spentKeyImages s))).

Definition getPushedBlockInfo (blockIndex : Z) (c : cache) : res PushedBlockInfo :=
  match c with
  | [] => Err Undefined
  | s :: parent =>
    let! _ := assert_res (startIndex s <=? blockIndex) in
    let! _ := assert_res (blockIndex <? startIndex s + getBlockCount s) in
    let localIndex := blockIndex - startIndex s in
    let! cachedBlock := of_option Undefined (at_index (blockInfos s) localIndex) in
    let! rawBlock := storage_getBlockByIndex localIndex s in
    let! previous := (if blockIndex >? startIndex s then
        let! previousBlock := of_option Undefined (at_index (blockInfos s) (localIndex - 1)) in
        Ok (bi_cumulativeDifficulty previousBlock, bi_alreadyGeneratedCoins previousBlock)
      else match parent with
      | [] => Ok (0, 0)
      | _ :: _ =>
        let! ds := getLastCumulativeDifficulties 1 (u32 (startIndex s - 1)) true parent in
        let! d := of_option Undefined (head ds) in
        let! coins := getAlreadyGeneratedCoins (u32 (startIndex s - 1)) parent in
        Ok (d, coins)
      end) in
    Ok (mkPushedBlockInfo rawBlock (fillOutputsSpentByBlock blockIndex s) (bi_blockSize cachedBlock)
          (u64 (bi_alreadyGeneratedCoins cachedBlock - previous.2))
          (u64 (bi_cumulativeDifficulty cachedBlock - previous.1)))
  end.
End Queries.

(** ** Pushing a block *)

Section Push.
Context {FH : FastHash}.
Context (ndebug : bool).

Definition with_transactions (f : list CachedTransactionInfo) (s : segment) : segment :=
  mkSegment (startIndex s) f (spentKeyImages s) (blockInfos s) (keyOutputsGlobalIndexes s) (paymentIds s) (storage s).
Definition with_spent (f : gmap KeyImage Z) (s : segment) : segment :=
  mkSegment (startIndex s) (transactions s) f (blockInfos s) (keyOutputsGlobalIndexes s) (paymentIds s) (storage s).
Definition with_blockInfos (f : list CachedBlockInfo) (s : segment) : segment :=
  mkSegment (startIndex s) (transactions s) (spentKeyImages s) f (keyOutputsGlobalIndexes s) (paymentIds s) (storage s).
Definition with_outputs (f : gmap Z OutputGlobalIndexesForAmount) (s : segment) : segment :=
  mkSegment (startIndex s) (transactions s) (spentKeyImages s) (blockInfos s) f (paymentIds s) (storage s).
Definition with_paymentIds (f : list (Hash * Hash)) (s : segment) : segment :=
  mkSegment (startIndex s) (transactions s) (spentKeyImages s) (blockInfos s) (keyOutputsGlobalIndexes s) f (storage s).
Definition with_storage (f : list RawBlock) (s : segment) : segment :=
  mkSegment (startIndex s) (transactions s) (spentKeyImages s) (blockInfos s) (keyOutputsGlobalIndexes s) (paymentIds s) f.

Definition addSpentKeyImage (keyImage : KeyImage) (blockIndex : Z) (parent : cache) (s : segment) : res segment :=
  let! _ := (if ndebug then Ok tt
             else let! spent := checkIfSpent keyImage (u32 (blockIndex - 1)) (s :: parent) in
                  assert_res ndebug (negb spent)) in
  Ok (match spentKeyImages s !! keyImage with
      | Some _ => s
      | None => with_spent (<[keyImage := blockIndex]> (spentKeyImages s)) s
      end).

(** The global index of the output and the segment. *)
Definition insertKeyOutputToGlobalIndex (amount : Z) (output : PackedOutIndex) (blockIndex : Z) (parent : cache)
    (s : segment) : Z * segment :=
  let indexEntry := match keyOutputsGlobalIndexes s !! amount with
    | Some e => mkGlobalIndexes (gi_startIndex e) (gi_outputs e ++ [output])
    | None => mkGlobalIndexes (u32 (getKeyOutputsCountForAmount amount blockIndex parent)) [output]
    end in
  (u32 (gi_startIndex indexEntry + Z.of_nat (length (gi_outputs indexEntry)) - 1),
   with_outputs (<[amount := indexEntry]> (keyOutputsGlobalIndexes s)) s).

(** The loop over the outputs: their global indexes and the segment. *)
Fixpoint push_outputs (blockIndex transactionInBlockIndex outputCount : Z) (outputs : list TransactionOutput)
    (parent : cache) (s : segment) : list Z * segment :=
  match outputs with
  | [] => ([], s)
  | output :: outputs =>
    let poi := mkOutIndex blockIndex transactionInBlockIndex (u16 outputCount) in
    let '(i, s) := insertKeyOutputToGlobalIndex (o_amount output) poi blockIndex parent s in
    let '(rest, s) := push_outputs blockIndex transactionInBlockIndex (outputCount + 1) outputs parent s in
    (i :: rest, s)
  end.

Definition pushTransaction (c : CachedTransaction) (blockIndex transactionInBlockIndex : Z) (parent : cache)
    (s : segment) : res segment :=
  let tx := ct_transaction c in
  let! _ := assert_res ndebug (Z.of_nat (length (tx_outputs tx)) <=? 2 ^ 16 - 1) in
  let '(globalIndexes, s) := push_outputs blockIndex transactionInBlockIndex 0 (tx_outputs tx) parent s in
  let info := mkTransactionInfo blockIndex transactionInBlockIndex (getTransactionHash c) (tx_unlockTime tx)
                (map o_target (tx_outputs tx)) globalIndexes in
  let! _ := assert_res ndebug (negb (hasTransaction (ti_transactionHash info) s)) in
  let s := if hasTransaction (ti_transactionHash info) s ||
              bool_decide (is_Some (find_transaction blockIndex transactionInBlockIndex s)) then s
           else with_transactions (transactions s ++ [info]) s in
  Ok (match getPaymentIdFromTxExtra (tx_extra tx) with
      | None => s
      | Some paymentId =>
        if existsb (fun p => bool_decide (p.2 = ti_transactionHash info)) (paymentIds s) then s
        else with_paymentIds (paymentIds s ++ [(paymentId, ti_transactionHash info)]) s
      end).

Fixpoint push_transactions (txs : list CachedTransaction) (blockIndex transactionBlockIndex : Z) (parent : cache)
    (s : segment) : res segment :=
  match txs with
  | [] => Ok s
  | c :: txs =>
    let! s := pushTransaction c blockIndex (u16 transactionBlockIndex) parent s in
    push_transactions txs blockIndex (transactionBlockIndex + 1) parent s
  end.

(** The loop over the set of spent key images. *)
Fixpoint add_spent (images : list KeyImage) (blockIndex : Z) (parent : cache) (s : segment) : res segment :=
  match images with
  | [] => Ok s
  | keyImage :: images =>
    let! s := addSpentKeyImage keyImage blockIndex parent s in add_spent images blockIndex parent s
  end.

(** What precedes the block: (cumulativeDifficulty, alreadyGeneratedCoins, alreadyGeneratedTransactions). *)
Definition previous_totals (blockIndex : Z) (parent : cache) (s : segment) : res (Z * Z * Z) :=
  match last (blockInfos s) with
  | Some lastBlockInfo =>
    Ok (bi_cumulativeDifficulty lastBlockInfo, bi_alreadyGeneratedCoins lastBlockInfo,
        bi_alreadyGeneratedTransactions lastBlockInfo)
  | None =>
    match parent with
    | [] => Ok (0, 0, 0)
    | p :: _ =>
      let! d := getCurrentCumulativeDifficulty_at ndebug (u32 (blockIndex - 1)) p in
      let! coins := getAlreadyGeneratedCoins (u32 (blockIndex - 1)) parent in
      let! txs := getAlreadyGeneratedTransactions (u32 (blockIndex - 1)) parent in
      Ok (d, coins, txs)
    end
  end.

Definition doPushBlock (cachedBlock : CachedBlock) (cachedTransactions : list CachedTransaction)
    (validatorState : TransactionValidatorState) (blockSize generatedCoins blockDifficulty : Z)
    (rawBlock : RawBlock) (c : cache) : res cache :=
  match c with
  | [] => Err Undefined
  | s :: parent =>
    let! _ := assert_res ndebug (blockSize >? 0) in
    let! _ := assert_res ndebug (blockDifficulty >? 0) in
    let blockIndex := Block.getBlockIndex (cb_block cachedBlock) in
    let! totals := previous_totals blockIndex parent s in
    let '(difficulty, coins, txs) := totals in
    let blockInfo := mkBlockInfo (cb_hash cachedBlock) (bh_timestamp (cb_block cachedBlock))
      (u64 (difficulty + blockDifficulty)) (u64 (coins + generatedCoins))
      (u64 (txs + Z.of_nat (length cachedTransactions) + 1)) (u32 blockSize) in
    let! _ := assert_res ndebug (negb (hasBlock (cb_hash cachedBlock) s)) in
    let s := if hasBlock (cb_hash cachedBlock) s then s else with_blockInfos (blockInfos s ++ [blockInfo]) s in
    let! _ := assert_res ndebug (blockIndex =? getBlockCount s + startIndex s - 1) in
    let! s := add_spent (elements (CachedTransaction.spentKeyImages validatorState)) blockIndex parent s in
    let! _ := assert_res ndebug (Z.of_nat (length cachedTransactions) <=? 2 ^ 16 - 1) in
    let! base := (match cached_of_Transaction (bt_baseTransaction (cb_block cachedBlock)) with
                  | Ok base => Ok base
                  | Err _ => Err RuntimeError
                  end) in
    let! s := push_transactions (base :: cachedTransactions) blockIndex 0 parent s in
    Ok (with_storage (storage s ++ [rawBlock]) s :: parent)
  end.

(** The constructor of the root: it pushes the genesis block. *)
Definition new_root (genesisBlock : CachedBlock) (genesisBlob : BinaryArray) : res cache :=
  let outputs := tx_outputs (bt_baseTransaction (cb_block genesisBlock)) in
  let minerReward := fold_left (fun sum output => u64 (sum + o_amount output)) outputs 0 in
  let! _ := assert_res ndebug (minerReward >? 0) in
  let coinbaseTransactionSize := match put_Transaction (bt_baseTransaction (cb_block genesisBlock)) with
    | Ok ba => Z.of_nat (length ba)
    | Err _ => 2 ^ 64 - 1
    end in
  let! _ := assert_res ndebug (coinbaseTransactionSize <? 2 ^ 64 - 1) in
  doPushBlock genesisBlock [] (mkValidatorState ∅) coinbaseTransactionSize minerReward 1
    (mkRawBlock genesisBlob []) [new_segment 0].
End Push.

(** ** Splitting a segment *)

Section Split.
Context (ndebug : bool).

Definition splitSpentKeyImages (splitBlockIndex : Z) (s newCache : segment) : segment * segment :=
  (with_spent (filter (fun kv => kv.2 < splitBlockIndex) (spentKeyImages s)) s,
   with_spent (filter (fun kv => splitBlockIndex <= kv.2) (spentKeyImages s)) newCache).

(** Moves the payment id of a transaction. *)
Definition removePaymentId (transactionHash : Hash) (s newCache : segment) : segment * segment :=
  match find (fun p => bool_decide (p.2 = transactionHash)) (paymentIds s) with
  | None => (s, newCache)
  | Some it =>
    (with_paymentIds (filter (fun p => p.2 <> transactionHash) (paymentIds s)) s,
     with_paymentIds (paymentIds newCache ++ [it]) newCache)
  end.

Definition splitTransactions (splitBlockIndex : Z) (s newCache : segment) : segment * segment :=
  let upper := filter (fun t => splitBlockIndex <= ti_blockIndex t) (transactions s) in
  let '(s, newCache) := fold_left (fun p t => removePaymentId (ti_transactionHash t) p.1 p.2) upper (s, newCache) in
  (with_transactions (filter (fun t => ti_blockIndex t < splitBlockIndex) (transactions s)) s,
   with_transactions upper newCache).

Definition splitBlocks (splitBlockIndex : Z) (s newCache : segment) : segment * segment :=
  let bound := Z.to_nat (splitBlockIndex - startIndex s) in
  (with_blockInfos (take bound (blockInfos s)) s, with_blockInfos (drop bound (blockInfos s)) newCache).

(** splitGlobalIndexes for one amount: what stays and what goes to the new cache. *)
Definition split_outputs (splitBlockIndex : Z) (e : OutputGlobalIndexesForAmount)
  : list PackedOutIndex * OutputGlobalIndexesForAmount :=
  let bound := lower_bound_by (fun o => poi_blockIndex o <? splitBlockIndex) (gi_outputs e) in
  let moved := drop bound (gi_outputs e) in
  (take bound (gi_outputs e),
   mkGlobalIndexes (u32 (gi_startIndex e + Z.of_nat (length (gi_outputs e)) - Z.of_nat (length moved))) moved).

Definition splitKeyOutputsGlobalIndexes (splitBlockIndex : Z) (s newCache : segment) : segment * segment :=
  (with_outputs (omap (fun e =>
      match (split_outputs splitBlockIndex e).1 with
      | [] => None
      | kept => Some (mkGlobalIndexes (gi_startIndex e) kept)
      end) (keyOutputsGlobalIndexes s)) s,
   with_outputs (omap (fun e =>
      match gi_outputs (split_outputs splitBlockIndex e).2 with
      | [] => None
      | _ => Some (split_outputs splitBlockIndex e).2
      end) (keyOutputsGlobalIndexes s)) newCache).

(** The segment below and the new one above it. *)
Definition split (splitBlockIndex : Z) (s : segment) : res (segment * segment) :=
  let! _ := assert_res ndebug (splitBlockIndex >? startIndex s) in
  let! _ := assert_res ndebug (splitBlockIndex <=? topIndex s) in
  let index := splitBlockIndex - startIndex s in
  let! _ := assert_res ndebug ((0 <? index) && (index <? Z.of_nat (length (storage s)))) in
  if (index <? 0) || (Z.of_nat (length (storage s)) <? index) || (getBlockCount s <? index) then Err Undefined
  else
    let newCache := with_storage (drop (Z.to_nat index) (storage s)) (new_segment splitBlockIndex) in
    let s := with_storage (take (Z.to_nat index) (storage s)) s in
    let '(s, newCache) := splitSpentKeyImages splitBlockIndex s newCache in
    let '(s, newCache) := splitTransactions splitBlockIndex s newCache in
    let '(s, newCache) := splitBlocks splitBlockIndex s newCache in
    let '(s, newCache) := splitKeyOutputsGlobalIndexes splitBlockIndex s newCache in
    Ok (s, newCache).
End Split.

End BlockchainCache.
