(* ===== verification/ChainView.v ===== *)
(** The segments of [BlockchainCache] refine one chain: what a cache answers is a function of
    the blocks, spent key images and outputs of the segment and all its parents, put together. *)

From S2P Require Import Prelude.
From S2P Require Import Types.
From S2P Require Import Currency.
From S2P Require Import CachedTransaction.
From S2P Require Import BlockchainCache.

Module ChainView.

Import BlockchainCache.

(** ** The chain of a cache *)

Fixpoint infos (c : cache) : list CachedBlockInfo :=
  match c with [] => [] | s :: parent => infos parent ++ blockInfos s end.

Fixpoint spent (c : cache) : gmap KeyImage Z :=
  match c with [] => ∅ | s :: parent => spentKeyImages s ∪ spent parent end.

Definition own_outputs (amount : Z) (s : segment) : list PackedOutIndex :=
  match keyOutputsGlobalIndexes s !! amount with None => [] | Some e => gi_outputs e end.

Fixpoint outputs (amount : Z) (c : cache) : list PackedOutIndex :=
  match c with [] => [] | s :: parent => outputs amount parent ++ own_outputs amount s end.

Fixpoint chain_transactions (c : cache) : list CachedTransactionInfo :=
  match c with [] => [] | s :: parent => chain_transactions parent ++ transactions s end.

Fixpoint raw_blocks (c : cache) : list RawBlock :=
  match c with [] => [] | s :: parent => raw_blocks parent ++ storage s end.

Fixpoint chain_paymentIds (c : cache) : list (Hash * Hash) :=
  match c with [] => [] | s :: parent => chain_paymentIds parent ++ paymentIds s end.

(** The index of the block that would be added on top. *)
Definition height (c : cache) : Z := Z.of_nat (length (infos c)).

Definition end_index (s : segment) : Z := startIndex s + getBlockCount s.

Definition in_segment (s : segment) (i : Z) : Prop := startIndex s <= i < end_index s.

(** An output refers to a transaction of the segment that has it. *)
Definition output_known (s : segment) (o : PackedOutIndex) : Prop :=
  exists t, find_transaction (poi_blockIndex o) (poi_transactionIndex o) s = Some t /\
    is_Some (at_index (ti_outputs t) (poi_outputIndex o)).

Definition by_block (a b : PackedOutIndex) : Prop := poi_blockIndex a <= poi_blockIndex b.

Record wf_entry (parent : cache) (s : segment) (amount : Z) (e : OutputGlobalIndexesForAmount) : Prop := {
  entry_start : gi_startIndex e = Z.of_nat (length (outputs amount parent));
  entry_nonempty : gi_outputs e <> [];
  entry_bound : gi_startIndex e + Z.of_nat (length (gi_outputs e)) < 2 ^ 32;
  entry_sorted : StronglySorted by_block (gi_outputs e);
  entry_segment : Forall (fun o => in_segment s (poi_blockIndex o)) (gi_outputs e);
  entry_known : Forall (output_known s) (gi_outputs e) }.

Record wf_segment (parent : cache) (s : segment) : Prop := {
  seg_start : startIndex s = height parent;
  seg_bound : end_index s < 2 ^ 32;
  seg_hashes : NoDup (map bi_blockHash (blockInfos s));
  seg_spent : map_Forall (fun _ i => in_segment s i) (spentKeyImages s);
  seg_fresh : spentKeyImages s ##ₘ spent parent;
  seg_outputs : map_Forall (wf_entry parent s) (keyOutputsGlobalIndexes s);
  seg_transactions : Forall (fun t => in_segment s (ti_blockIndex t)) (transactions s);
  seg_positions : NoDup (map (fun t => (ti_blockIndex t, ti_transactionIndex t)) (transactions s));
  seg_tx_hashes : NoDup (map ti_transactionHash (transactions s));
  seg_paymentIds : NoDup (map snd (paymentIds s)) /\
    Forall (fun p => p.2 ∈ map ti_transactionHash (transactions s)) (paymentIds s);
  seg_storage : length (storage s) = length (blockInfos s) }.

(** Only the segment itself may be empty. *)
Fixpoint wf_cache (c : cache) : Prop :=
  match c with
  | [] => True
  | s :: parent => wf_segment parent s /\ Forall (fun s => blockInfos s <> []) parent /\ wf_cache parent
  end.

(** ** Elements by index *)

Lemma at_index_app {A} (l k : list A) i : at_index (l ++ k) i =
  if i <? Z.of_nat (length l) then at_index l i else at_index k (i - Z.of_nat (length l)).
Proof.
  unfold at_index; destruct (Z.ltb_spec i (Z.of_nat (length l))), (Z.ltb_spec i 0); try done.
  - by rewrite lookup_app_l by lia.
  - lia.
  - rewrite (proj2 (Z.ltb_ge _ _)) by lia; rewrite lookup_app_r by lia; f_equal; lia.
Qed.

Lemma at_index_range {A} (l : list A) i : is_Some (at_index l i) <-> 0 <= i < Z.of_nat (length l).
Proof.
  unfold at_index; destruct (Z.ltb_spec i 0).
  - split; [by intros [? ?]|lia].
  - rewrite lookup_lt_is_Some; lia.
Qed.

Lemma at_index_fmap {A B} (f : A -> B) (l : list A) i : at_index (map f l) i = f <$> at_index l i.
Proof. unfold at_index; destruct (i <? 0); [done|]; by rewrite list_lookup_fmap. Qed.

Lemma height_cons s parent : wf_segment parent s -> height (s :: parent) = end_index s.
Proof. intros W; unfold height, end_index, getBlockCount; simpl; rewrite length_app, (seg_start _ _ W); unfold height; lia. Qed.

Lemma topIndex_spec s parent : wf_segment parent s -> blockInfos s <> [] -> topIndex s = end_index s - 1.
Proof.
  intros W Hn; unfold topIndex; fold (end_index s); apply wrap_small.
  pose proof (seg_bound _ _ W); pose proof (seg_start _ _ W) as E; unfold end_index, height, getBlockCount, in_u in *.
  destruct (blockInfos s); [done|]; simpl in *; lia.
Qed.

(** A query that goes to the parent below the start of a segment finds the element of the
    chain. *)
Lemma descend_chain {A} (f : cache -> res A) (own : CachedBlockInfo -> A) (e : cache_error) c i :
  (forall s parent, f (s :: parent) = if i <? startIndex s then f parent
     else of_option e (own <$> at_index (blockInfos s) (i - startIndex s))) ->
  wf_cache c -> c <> [] -> 0 <= i -> f c = of_option e (own <$> at_index (infos c) i).
Proof.
  intros Hf W Hc Hi; induction c as [|s parent IH]; [done|]; destruct W as (Ws & _ & W); cbn [infos].
  rewrite Hf, at_index_app; fold (height parent); rewrite <- (seg_start _ _ Ws).
  destruct (Z.ltb_spec i (startIndex s)); [|done]; destruct parent as [|p parent]; [|by apply IH].
  rewrite (seg_start _ _ Ws) in H; unfold height in H; simpl in H; lia.
Qed.

Lemma getBlockHash_chain c i : wf_cache c -> c <> [] -> 0 <= i ->
  getBlockHash i c = of_option Undefined (bi_blockHash <$> at_index (infos c) i).
Proof. by apply descend_chain. Qed.

Lemma getAlreadyGeneratedCoins_chain c i : wf_cache c -> c <> [] -> 0 <= i ->
  getAlreadyGeneratedCoins i c = of_option OutOfRange (bi_alreadyGeneratedCoins <$> at_index (infos c) i).
Proof. by apply descend_chain. Qed.

Lemma getAlreadyGeneratedTransactions_chain c i : wf_cache c -> c <> [] -> 0 <= i ->
  getAlreadyGeneratedTransactions i c =
    of_option OutOfRange (bi_alreadyGeneratedTransactions <$> at_index (infos c) i).
Proof. by apply descend_chain. Qed.

Lemma raw_blocks_length c : wf_cache c -> length (raw_blocks c) = length (infos c).
Proof.
  induction c as [|s parent IH]; [done|]; intros (Ws & _ & W); simpl; rewrite !length_app, IH by done.
  by rewrite (seg_storage _ _ Ws).
Qed.

Lemma getBlockByIndex_chain c i : wf_cache c -> c <> [] -> 0 <= i ->
  getBlockByIndex i c = of_option Undefined (at_index (raw_blocks c) i).
Proof.
  intros W Hc Hi; induction c as [|s parent IH]; [done|]; destruct W as (Ws & _ & W); cbn [raw_blocks getBlockByIndex].
  rewrite at_index_app, raw_blocks_length by done; fold (height parent); rewrite <- (seg_start _ _ Ws).
  destruct (Z.ltb_spec i (startIndex s)); [|done]; destruct parent as [|p parent]; [|by apply IH].
  rewrite (seg_start _ _ Ws) in H; unfold height in H; simpl in H; lia.
Qed.

(** ** Spent key images *)

Lemma spent_below c : wf_cache c -> map_Forall (fun _ i => 0 <= i < height c) (spent c).
Proof.
  induction c as [|s parent IH]; [by intros _ k i E; simpl in E; rewrite lookup_empty in E|].
  intros (Ws & _ & W); rewrite (height_cons _ _ Ws); intros k i; cbn [spent]; rewrite lookup_union_Some by (apply Ws).
  pose proof (seg_start _ _ Ws) as Es; unfold height in Es; intros [E|E].
  - apply (seg_spent _ _ Ws) in E; unfold in_segment in E; lia.
  - apply (IH W) in E; unfold height, end_index, getBlockCount in *; lia.
Qed.

Lemma checkIfSpent_chain c keyImage i : wf_cache c -> c <> [] -> 0 <= i ->
  checkIfSpent keyImage i c = Ok match spent c !! keyImage with Some j => j <=? i | None => false end.
Proof.
  intros W Hc Hi; induction c as [|s parent IH]; [done|]; destruct W as (Ws & _ & W); cbn [checkIfSpent spent].
  destruct (spentKeyImages s !! keyImage) as [j|] eqn:Es.
  - rewrite (lookup_union_Some_l _ _ _ _ Es); destruct (Z.ltb_spec i (startIndex s)); [|done].
    pose proof (seg_fresh _ _ Ws) as Hf.
    assert (En : spent parent !! keyImage = None) by (by eapply map_disjoint_Some_l).
    destruct parent as [|p parent].
    + rewrite (seg_start _ _ Ws) in H; unfold height in H; simpl in H; lia.
    + rewrite IH, En by done; apply (seg_spent _ _ Ws) in Es; unfold in_segment in Es.
      by rewrite (proj2 (Z.leb_gt _ _)) by lia.
  - rewrite lookup_union_r by done; destruct parent as [|p parent].
    + destruct (Z.ltb_spec i (startIndex s)); [|done].
      rewrite (seg_start _ _ Ws) in H; unfold height in H; simpl in H; lia.
    + destruct (i <? startIndex s); by apply IH.
Qed.

Lemma checkIfSpent_any_chain c keyImage :
  checkIfSpent_any keyImage c = bool_decide (is_Some (spent c !! keyImage)).
Proof.
  induction c as [|s parent IH]; [done|]; cbn [checkIfSpent_any existsb spent]; unfold checkIfSpent_any in IH; rewrite IH.
  destruct (spentKeyImages s !! keyImage) eqn:E; simpl.
  - by rewrite (lookup_union_Some_l _ _ _ _ E).
  - by rewrite lookup_union_r.
Qed.

(** ** The last units *)

(** The last [count] elements up to index [i], without the first of the chain unless
    [useGenesis]. *)
Definition last_units {A} (count i : Z) (useGenesis : bool) (l : list A) : list A :=
  let from := i + 1 - Z.min count (i + 1) in
  let from := if negb useGenesis && (from =? 0) && negb (Z.min count (i + 1) =? 0) then 1 else from in
  drop (Z.to_nat from) (take (Z.to_nat (i + 1)) l).

Section LastUnits.
Context {A : Type} (l1 l2 : list A) (useGenesis : bool).
Let start := Z.of_nat (length l1).

Lemma last_units_zero i : 0 <= i -> last_units 0 i useGenesis l1 = [].
Proof.
  intros Hi; unfold last_units; rewrite Z.min_l, (proj2 (Z.eqb_neq _ 0)), andb_false_r by lia; simpl.
  apply drop_ge; rewrite length_take; lia.
Qed.

Lemma last_units_below count i : 0 <= i < start -> last_units count i useGenesis (l1 ++ l2) = last_units count i useGenesis l1.
Proof. intros Hi; unfold last_units; by rewrite take_app_le by (unfold start in Hi; lia). Qed.

Lemma last_units_above count i : 0 < start <= i -> i - start + 1 < count ->
  last_units count i useGenesis (l1 ++ l2) =
  last_units (count - (i - start + 1)) (start - 1) useGenesis l1 ++ take (Z.to_nat (i - start + 1)) l2.
Proof.
  intros Hs Hc; unfold last_units; rewrite take_app_ge by (unfold start in *; lia).
  replace (Z.to_nat (i + 1) - length l1)%nat with (Z.to_nat (i - start + 1)) by (unfold start in *; lia).
  rewrite (take_ge l1) by (unfold start; lia).
  replace (start - 1 + 1 - Z.min (count - (i - start + 1)) (start - 1 + 1)) with (i + 1 - Z.min count (i + 1)) by lia.
  rewrite (proj2 (Z.eqb_neq (Z.min count (i + 1)) 0)), (proj2 (Z.eqb_neq (Z.min (count - _) _) 0)) by lia.
  rewrite drop_app_le; [done|]; unfold start in *; case_match; lia.
Qed.

Lemma last_units_own count i : 0 < start <= i -> 0 <= count <= i - start + 1 ->
  last_units count i useGenesis (l1 ++ l2) =
  drop (Z.to_nat (i - start + 1 - count)) (take (Z.to_nat (i - start + 1)) l2).
Proof.
  intros Hs Hc; unfold last_units; rewrite take_app_ge by (unfold start in *; lia).
  replace (Z.to_nat (i + 1) - length l1)%nat with (Z.to_nat (i - start + 1)) by (unfold start in *; lia).
  rewrite (proj2 (Z.eqb_neq (i + 1 - _) 0)), andb_false_r by lia; simpl.
  rewrite drop_app_ge by (unfold start in *; lia); f_equal; unfold start in *; lia.
Qed.
End LastUnits.

Lemma wf_parent_top p parent : wf_cache (p :: parent) -> blockInfos p <> [] ->
  topIndex p = height (p :: parent) - 1 /\ 0 < height (p :: parent).
Proof.
  intros (Wp & _) Hn; rewrite (height_cons _ _ Wp), (topIndex_spec _ _ Wp Hn); split; [done|].
  pose proof (seg_start _ _ Wp); unfold end_index, getBlockCount, height in *; destruct (blockInfos p); [done|simpl; lia].
Qed.

Lemma topIndex_covers s parent i : wf_segment parent s -> 0 <= i < height (s :: parent) -> (i <=? topIndex s) = true.
Proof.
  intros W Hi; rewrite (height_cons _ _ W) in Hi; apply Z.leb_le; unfold topIndex; fold (end_index s).
  rewrite wrap_small; [lia|]; pose proof (seg_bound _ _ W); unfold in_u; lia.
Qed.

Lemma getLastUnits_chain {A} ndebug (pred : CachedBlockInfo -> A) useGenesis c : forall count i,
  wf_cache c -> 0 <= count -> 0 <= i < height c ->
  getLastUnits ndebug count i useGenesis pred c = Ok (map pred (last_units count i useGenesis (infos c))).
Proof.
  induction c as [|s parent IH]; intros count i W Hc Hi; [unfold height in Hi; simpl in Hi; lia|].
  destruct W as (Ws & Hn & W); cbn [getLastUnits infos].
  unfold assert_res at 1; rewrite (topIndex_covers _ _ _ Ws Hi), orb_true_r; cbn [rbind].
  rewrite (height_cons _ _ Ws) in Hi; pose proof (seg_start _ _ Ws) as Es; unfold end_index in Hi.
  assert (Ec : (getBlockCount s <? (if i <? startIndex s then 0 else i - startIndex s + 1)) = false).
  { apply Z.ltb_ge; destruct (Z.ltb_spec i (startIndex s)); unfold getBlockCount in *; lia. }
  rewrite Ec; clear Ec; destruct parent as [|p parent].
  - change (height []) with 0 in Es; rewrite Es in Hi |- *; rewrite (proj2 (Z.ltb_ge i 0)) by lia.
    rewrite bool_decide_eq_true_2, andb_true_r, Z.sub_0_r by done; cbn [app].
    unfold last_units; set (b := negb useGenesis && _ && _); destruct b eqn:Eb; cbn [rbind app];
      do 2 f_equal; rewrite take_drop_commute; do 2 f_equal; unfold b in Eb; rewrite ?andb_true_iff, ?Z.eqb_eq in Eb; lia.
  - rewrite bool_decide_eq_false_2, andb_false_r by done.
    apply Forall_cons in Hn as [Hp Hn]; destruct (wf_parent_top _ _ W Hp) as [Et Hpos].
    rewrite <- Es in Et, Hpos; unfold getTopBlockIndex; rewrite Et; unfold assert_res at 1.
    rewrite (bool_decide_eq_true_2 _ Hp), orb_true_r; cbn [rbind].
    destruct (Z.ltb_spec i (startIndex s)) as [Hlt|Hge].
    + rewrite Z.min_r, last_units_below by (unfold height in Es; lia); cbn [Z.sub Z.opp Z.add Z.to_nat take].
      rewrite Z.sub_0_r, Z.min_l by lia; cbn [take map].
      destruct (Z.ltb_spec 0 count) as [Hpc|Hpc].
      * rewrite IH by (done || lia); cbn [rbind]; by rewrite app_nil_r.
      * replace count with 0 by lia; rewrite last_units_zero by lia; done.
    + rewrite (Z.min_r i) by lia; set (to := i - startIndex s + 1).
      assert (El : Z.of_nat (length (infos (p :: parent))) = startIndex s) by done.
      destruct (Z.ltb_spec (Z.min count to) count) as [Hlt|Hle].
      * rewrite (Z.min_r count) by lia; rewrite IH by (done || lia); cbn [rbind].
        rewrite last_units_above, El by lia; fold to; rewrite map_app, Z.sub_diag, Z.sub_0_r; done.
      * rewrite (Z.min_l count) by lia; cbn [rbind app].
        rewrite last_units_own, El by lia; fold to; do 2 f_equal; rewrite take_drop_commute; do 2 f_equal; lia.
Qed.

(** ** Outputs *)

Lemma outputs_below amount c : wf_cache c -> Forall (fun o => 0 <= poi_blockIndex o < height c) (outputs amount c).
Proof.
  induction c as [|s parent IH]; [constructor|]; intros (Ws & _ & W); rewrite (height_cons _ _ Ws); cbn [outputs].
  pose proof (seg_start _ _ Ws) as Es; unfold height in Es; apply Forall_app; split.
  - eapply Forall_impl; [exact (IH W)|]; unfold height, end_index, getBlockCount in *; simpl; lia.
  - unfold own_outputs; destruct (keyOutputsGlobalIndexes s !! amount) as [e|] eqn:Ee; [|constructor].
    eapply Forall_impl; [exact (entry_segment _ _ _ _ (seg_outputs _ _ Ws _ _ Ee))|]; unfold in_segment; simpl; lia.
Qed.

Lemma lower_bound_partition i (l : list PackedOutIndex) : StronglySorted by_block l ->
  let n := lower_bound_by (fun o => poi_blockIndex o <? i) l in
  take n l = filter (fun o => poi_blockIndex o < i) l /\ drop n l = filter (fun o => i <= poi_blockIndex o) l.
Proof.
  induction 1 as [|o l Hs IH Ho]; [done|]; cbn [lower_bound_by]; destruct (Z.ltb_spec (poi_blockIndex o) i).
  - rewrite filter_cons_True, (filter_cons_False (fun o => i <= poi_blockIndex o)) by lia; simpl.
    destruct IH as [-> ->]; done.
  - rewrite filter_cons_False, (filter_cons_True (fun o => i <= poi_blockIndex o)) by lia; simpl.
    assert (Hall : Forall (fun o => i <= poi_blockIndex o) l).
    { eapply Forall_impl; [exact Ho|]; unfold by_block; simpl; lia. }
    split; [symmetry; apply list_filter_none|f_equal; symmetry; by apply list_filter_all].
    eapply Forall_impl; [exact Hall|]; simpl; lia.
Qed.

Lemma lower_bound_by_le {A} (p : A -> bool) l : (lower_bound_by p l <= length l)%nat.
Proof. induction l as [|a l IH]; simpl; [lia|]; destruct (p a); lia. Qed.

Lemma lower_bound_count i l : StronglySorted by_block l ->
  lower_bound_by (fun o => poi_blockIndex o <? i) l = length (filter (fun o => poi_blockIndex o < i) l).
Proof.
  intros Hs; rewrite <- (proj1 (lower_bound_partition i l Hs)), length_take.
  pose proof (lower_bound_by_le (fun o => poi_blockIndex o <? i) l); lia.
Qed.

(** The outputs in blocks below [i], for an index that is not below the segment. *)
Lemma getKeyOutputsCountForAmount_chain amount i c : wf_cache c ->
  match c with [] => True | s :: _ => startIndex s <= i end ->
  getKeyOutputsCountForAmount amount i c = Z.of_nat (length (filter (fun o => poi_blockIndex o < i) (outputs amount c))).
Proof.
  induction c as [|s parent IH]; [done|]; intros (Ws & _ & W) Hi; cbn [getKeyOutputsCountForAmount outputs].
  rewrite filter_app, length_app; unfold own_outputs.
  destruct (keyOutputsGlobalIndexes s !! amount) as [e|] eqn:Ee.
  - destruct (seg_outputs _ _ Ws _ _ Ee) as [E1 _ _ E4 _ _]; rewrite lower_bound_count, E1 by done.
    rewrite (list_filter_all _ (outputs amount parent)); [lia|].
    eapply Forall_impl; [exact (outputs_below amount parent W)|]; rewrite (seg_start _ _ Ws) in Hi; simpl; lia.
  - rewrite Nat.add_0_r; apply IH; [done|]; destruct parent as [|p parent]; [done|]; destruct W as [Wp _].
    rewrite (seg_start _ _ Ws), (height_cons _ _ Wp) in Hi; unfold end_index, getBlockCount in Hi; lia.
Qed.

(** The segments that start at or below block [i]. *)
Fixpoint visible (i : Z) (c : cache) : cache :=
  match c with [] => [] | s :: parent => if i <? startIndex s then visible i parent else c end.

(** The transaction of the chain that has an output. *)
Definition has_position (o : PackedOutIndex) (t : CachedTransactionInfo) : bool :=
  (ti_blockIndex t =? poi_blockIndex o) && (ti_transactionIndex t =? poi_transactionIndex o).

Definition chain_find (o : PackedOutIndex) (c : cache) : option CachedTransactionInfo :=
  find (has_position o) (chain_transactions c).

Lemma find_app {A} (f : A -> bool) l k : find f (l ++ k) = match find f l with Some a => Some a | None => find f k end.
Proof. induction l as [|a l IH]; simpl; [done|]; by destruct (f a). Qed.

Lemma find_none_forall {A} (f : A -> bool) l : Forall (fun a => f a = false) l -> find f l = None.
Proof. induction 1 as [|a l Ha _ IH]; simpl; [done|]; by rewrite Ha. Qed.

Lemma chain_transactions_below c : wf_cache c -> Forall (fun t => ti_blockIndex t < height c) (chain_transactions c).
Proof.
  induction c as [|s parent IH]; [constructor|]; intros (Ws & _ & W); rewrite (height_cons _ _ Ws); apply Forall_app; split.
  - pose proof (seg_start _ _ Ws) as Es; eapply Forall_impl; [exact (IH W)|].
    unfold height, end_index, getBlockCount in *; simpl; lia.
  - eapply Forall_impl; [exact (seg_transactions _ _ Ws)|]; unfold in_segment; simpl; lia.
Qed.

Lemma chain_find_own s parent o : wf_cache (s :: parent) -> startIndex s <= poi_blockIndex o ->
  chain_find o (s :: parent) = find_transaction (poi_blockIndex o) (poi_transactionIndex o) s.
Proof.
  intros (Ws & _ & W) Ho; unfold chain_find; cbn [chain_transactions]; rewrite find_app, find_none_forall; [done|].
  eapply Forall_impl; [exact (chain_transactions_below _ W)|]; rewrite (seg_start _ _ Ws) in Ho.
  intros t Ht; simpl in Ht; unfold has_position; by rewrite (proj2 (Z.eqb_neq _ _)) by lia.
Qed.

Lemma chain_find_parent s parent o : wf_cache (s :: parent) -> poi_blockIndex o < startIndex s ->
  chain_find o (s :: parent) = chain_find o parent.
Proof.
  intros (Ws & _ & W) Ho; unfold chain_find; cbn [chain_transactions]; rewrite find_app.
  rewrite (find_none_forall _ (transactions s)); [by destruct (find _ _)|].
  eapply Forall_impl; [exact (seg_transactions _ _ Ws)|]; unfold in_segment.
  intros t Ht; simpl in Ht; unfold has_position; by rewrite (proj2 (Z.eqb_neq _ _)) by lia.
Qed.

Section ExtractSpec.
Context (ndebug : bool) {A : Type}.
Context (pred : CachedTransactionInfo -> PackedOutIndex -> Z -> A -> res (ExtractOutputKeysResult * A)).

(** Extraction from one chain: the outputs at the indexes, in order. *)
Fixpoint extract_list (i : Z) (outs : list PackedOutIndex) (c : cache) (globalIndexes : list Z) (acc : A)
  : res (ExtractOutputKeysResult * A) :=
  match globalIndexes with
  | [] => Ok (SUCCESS, acc)
  | g :: globalIndexes =>
    match at_index outs g with
    | None => Ok (INVALID_GLOBAL_INDEX, acc)
    | Some o =>
      let! _ := assert_res ndebug (poi_blockIndex o <=? i) in
      match chain_find o c with
      | None => Ok (INVALID_GLOBAL_INDEX, acc)
      | Some t =>
        let! r := pred t o g acc in
        match r with
        | (SUCCESS, acc) => extract_list i outs c globalIndexes acc
        | _ => Ok r
        end
      end
    end
  end.

Lemma extract_list_app i outs c l k acc : extract_list i outs c (l ++ k) acc =
  let! r := extract_list i outs c l acc in
  match r with (SUCCESS, acc) => extract_list i outs c k acc | _ => Ok r end.
Proof.
  revert acc; induction l as [|g l IH]; intros acc; [done|]; cbn [app extract_list].
  destruct (at_index outs g) as [o|]; [|done]; destruct (assert_res _ _); [|done]; cbn [rbind].
  destruct (chain_find o c) as [t|]; [|done]; destruct (pred t o g acc) as [[[] acc']|]; cbn [rbind]; auto.
Qed.

Lemma extract_own_spec amount i s parent e gs acc :
  wf_cache (s :: parent) -> keyOutputsGlobalIndexes s !! amount = Some e ->
  Forall (fun g => gi_startIndex e <= g < 2 ^ 32) gs ->
  extract_own ndebug pred i (gi_startIndex e) (gi_outputs e) s gs acc =
  extract_list i (outputs amount (s :: parent)) (s :: parent) gs acc.
Proof.
  intros W Ee Hg; pose proof (seg_outputs _ _ (proj1 W) _ _ Ee) as [E1 E2 E3 E4 E5 E6].
  revert acc; induction Hg as [|g gs Hg _ IH]; intros acc; [done|]; cbn [extract_own extract_list].
  assert (Ea : at_index (outputs amount (s :: parent)) g = at_index (gi_outputs e) (u32 (g - gi_startIndex e))).
  { cbn [outputs]; unfold own_outputs; rewrite Ee, at_index_app, <- E1, (proj2 (Z.ltb_ge _ _)) by lia.
    rewrite wrap_small; [done|]; unfold in_u; lia. }
  rewrite Ea; destruct (at_index (gi_outputs e) _) as [o|] eqn:Eo; [|done].
  assert (Ho : in_segment s (poi_blockIndex o)).
  { rewrite Forall_forall in E5; apply E5; unfold at_index in Eo; case_match; [done|].
    by eapply list_elem_of_lookup_2. }
  unfold assert_res at 1; rewrite (proj2 (Z.leb_le _ _)), orb_true_r by (unfold in_segment in Ho; lia); cbn [rbind].
  destruct (assert_res ndebug (poi_blockIndex o <=? i)); [|done]; cbn [rbind].
  rewrite chain_find_own by (done || unfold in_segment in Ho; lia).
  destruct (find_transaction _ _ s) as [t|]; [|done].
  destruct (pred t o g acc) as [[[] acc']|]; cbn [rbind]; auto.
Qed.

Lemma extract_list_parent amount i s parent gs acc : wf_cache (s :: parent) ->
  Forall (fun g => g < Z.of_nat (length (outputs amount parent))) gs ->
  extract_list i (outputs amount (s :: parent)) (s :: parent) gs acc =
  extract_list i (outputs amount parent) parent gs acc.
Proof.
  intros W Hg; revert acc; induction Hg as [|g gs Hg _ IH]; intros acc; [done|]; cbn [extract_list outputs].
  rewrite at_index_app, (proj2 (Z.ltb_lt _ _)) by done.
  destruct (at_index (outputs amount parent) g) as [o|] eqn:Eo; [|done].
  assert (Ho : poi_blockIndex o < startIndex s).
  { destruct W as (Ws & _ & W); pose proof (outputs_below amount _ W) as Hb; rewrite (seg_start _ _ Ws).
    rewrite Forall_forall in Hb; unfold at_index in Eo; case_match; [done|]; apply list_elem_of_lookup_2, Hb in Eo; lia. }
  destruct (assert_res ndebug _); [|done]; cbn [rbind]; rewrite chain_find_parent by done.
  destruct (chain_find o parent) as [t|]; [|done].
  destruct (pred t o g acc) as [[[] acc']|]; cbn [rbind]; try done; apply IH.
Qed.
End ExtractSpec.

Lemma strictly_sorted_spec l : strictly_sorted l = true <-> StronglySorted Z.lt l.
Proof.
  induction l as [|a [|b l] IH]; [by split; [constructor|]|by split; [repeat constructor|]|].
  cbn [strictly_sorted] in *; rewrite andb_true_iff, Z.ltb_lt, IH; split.
  - intros [Hab Hs]; constructor; [done|]; constructor; [done|]; apply StronglySorted_inv in Hs as [_ Hb].
    eapply Forall_impl; [exact Hb|]; simpl; lia.
  - intros [Hs Ha]%StronglySorted_inv; split; [by apply Forall_inv in Ha|done].
Qed.

Lemma StronglySorted_take {A} (R : A -> A -> Prop) n l : StronglySorted R l -> StronglySorted R (take n l).
Proof.
  intros H; revert n; induction H as [|a l Hs IH Ha]; intros n; destruct n; simpl; try constructor; [done|].
  by apply Forall_take.
Qed.

Lemma lower_bound_below start l : Forall (fun g => g < start) (take (lower_bound_by (fun i => i <? start) l) l).
Proof.
  induction l as [|a l IH]; [constructor|]; cbn [lower_bound_by]; destruct (Z.ltb_spec a start); simpl; [|constructor].
  by constructor.
Qed.

Lemma sorted_partitioned start l : StronglySorted Z.lt l -> assume_partitioned (fun i => i <? start) l = Ok tt.
Proof.
  intros H; unfold assume_partitioned; replace (forallb _ _) with true; [done|]; symmetry; apply forallb_forall.
  intros x Hx; apply negb_true_iff, Z.ltb_ge; revert x Hx.
  induction H as [|a l Hs IH Ha]; [done|]; cbn [lower_bound_by]; destruct (Z.ltb_spec a start); simpl; [done|].
  intros x [<-|Hx]; [done|]; rewrite List.Forall_forall in Ha; specialize (Ha x Hx); lia.
Qed.

Lemma partitioned_above start l : assume_partitioned (fun i => i <? start) l = Ok tt ->
  Forall (fun g => start <= g) (drop (lower_bound_by (fun i => i <? start) l) l).
Proof.
  unfold assume_partitioned; destruct (forallb _ _) eqn:E; [|done]; intros _; rewrite forallb_forall in E.
  apply List.Forall_forall; intros x Hx; by apply Z.ltb_ge, negb_true_iff, E.
Qed.

Section ExtractChain.
Context (ndebug : bool) {A : Type}.
Context (pred : CachedTransactionInfo -> PackedOutIndex -> Z -> A -> res (ExtractOutputKeysResult * A)).

(** A segment without outputs of the amount sees those of its parent. *)
Lemma extract_list_skip amount i s parent gs acc : wf_cache (s :: parent) -> keyOutputsGlobalIndexes s !! amount = None ->
  extract_list ndebug pred i (outputs amount (s :: parent)) (s :: parent) gs acc =
  extract_list ndebug pred i (outputs amount parent) parent gs acc.
Proof.
  intros W Ee; assert (Eo : outputs amount (s :: parent) = outputs amount parent)
    by (cbn [outputs]; unfold own_outputs; rewrite Ee; apply app_nil_r); rewrite Eo.
  revert acc; induction gs as [|g gs IHg]; intros acc; [done|]; cbn [extract_list].
  destruct (at_index (outputs amount parent) g) as [o|] eqn:Ea; [|done].
  rewrite (chain_find_parent s parent); [|done|].
  - destruct (assert_res _ _); [|done]; cbn [rbind]; destruct (chain_find o parent) as [t|]; [|done].
    destruct (pred t o g acc) as [[[] acc']|]; cbn [rbind]; done.
  - destruct W as (Ws & _ & W); pose proof (outputs_below amount _ W) as Hb; rewrite (seg_start _ _ Ws).
    rewrite Forall_forall in Hb; unfold at_index in Ea; case_match; [done|]; apply list_elem_of_lookup_2, Hb in Ea; lia.
Qed.

Lemma visible_parent i s parent : wf_cache (s :: parent) -> startIndex s <= i -> parent <> [] -> visible i parent = parent.
Proof.
  destruct parent as [|p parent]; [done|]; intros W Hge _; destruct W as (Ws & _ & Wp & _); cbn [visible].
  rewrite (proj2 (Z.ltb_ge _ _)); [done|]; rewrite (seg_start _ _ Ws), (height_cons _ _ Wp) in Hge.
  unfold end_index, getBlockCount in Hge; lia.
Qed.

(** The recursion through the segments extracts from the chain, or the indexes are not sorted and
    the behaviour is undefined. *)
Lemma extractKeyOutputs_cases amount i c : forall gs acc,
  wf_cache c -> c <> [] -> 0 <= i -> gs <> [] -> Forall (in_u 32) gs ->
  extractKeyOutputs ndebug pred amount i gs c acc =
    extract_list ndebug pred i (outputs amount (visible i c)) (visible i c) gs acc \/
  (extractKeyOutputs ndebug pred amount i gs c acc = Err Undefined /\ ~ StronglySorted Z.lt gs).
Proof.
  induction c as [|s parent IH]; intros gs acc W Hc Hi Hne Hr; [done|].
  cbn [extractKeyOutputs visible].
  assert (Ei : assert_indexes ndebug gs = if ndebug || strictly_sorted gs then Ok tt else Err Undefined)
    by (unfold assert_indexes, assert_res; by rewrite bool_decide_eq_true_2 by done); rewrite Ei; clear Ei.
  destruct (ndebug || strictly_sorted gs) eqn:Ea; cbn [rbind].
  2:{ right; split; [done|]; rewrite <- strictly_sorted_spec; by apply orb_false_iff in Ea as [_ ->]. }
  destruct (Z.ltb_spec i (startIndex s)) as [Hlt|Hge].
  { assert (Hp : parent <> []).
    { intros ->; destruct W as [Ws _]; rewrite (seg_start _ _ Ws) in Hlt; unfold height in Hlt; simpl in Hlt; lia. }
    destruct parent as [|p parent]; [done|]; destruct (keyOutputsGlobalIndexes s !! amount); apply IH; done || apply W. }
  pose proof (visible_parent i s parent W Hge) as Hv.
  destruct (keyOutputsGlobalIndexes s !! amount) as [e|] eqn:Ee.
  - destruct (seg_outputs _ _ (proj1 W) _ _ Ee) as [E1 E2 _ _ _ _].
    set (n := lower_bound_by _ gs); pose proof (lower_bound_below (gi_startIndex e) gs) as Ht; fold n in Ht.
    destruct (assume_partitioned _ gs) as [[]|err] eqn:Eq; cbn [rbind].
    2:{ right; split; [unfold assume_partitioned in Eq; by destruct (forallb _ _); simplify_eq|].
        intros Hs; by rewrite sorted_partitioned in Eq. }
    pose proof (partitioned_above _ _ Eq) as Hd; fold n in Hd.
    assert (Ep : (if (n =? 0)%nat then Ok (SUCCESS, acc)
                  else extractKeyOutputs ndebug pred amount i (take n gs) parent acc) =
                 extract_list ndebug pred i (outputs amount parent) parent (take n gs) acc \/
      ((if (n =? 0)%nat then Ok (SUCCESS, acc)
        else extractKeyOutputs ndebug pred amount i (take n gs) parent acc) = Err Undefined /\ ~ StronglySorted Z.lt gs)).
    { destruct (Nat.eqb_spec n 0) as [-> |Hn]; [by left|].
      assert (Ht' : take n gs <> []) by (destruct n, gs; done).
      assert (Hp : parent <> []).
      { intros ->; rewrite E1 in Ht; simpl in Ht; destruct (take n gs) as [|g l] eqn:Etk; [done|].
        apply Forall_inv in Ht; assert (Hg : in_u 32 g) by (rewrite Forall_forall in Hr; apply Hr;
          rewrite <- (take_drop n gs), Etk; apply list_elem_of_here); unfold in_u in Hg; lia. }
      destruct (IH (take n gs) acc (proj2 (proj2 W)) Hp Hi Ht' (Forall_take _ _ _ Hr)) as [E|[E Hns]].
      - left; by rewrite E, (Hv Hp).
      - right; split; [done|]; intros Hs; by apply Hns, StronglySorted_take. }
    destruct Ep as [Ep|[Ep Hns]]; rewrite Ep; [left|by right].
    transitivity (extract_list ndebug pred i (outputs amount (s :: parent)) (s :: parent) (take n gs ++ drop n gs) acc);
      [|by rewrite take_drop]; rewrite extract_list_app.
    rewrite extract_list_parent by (done || rewrite E1 in Ht; done).
    destruct (extract_list _ _ _ _ _ (take n gs) acc) as [[[] acc']|]; [|done..]; cbn [rbind].
    unfold assert_res at 1; rewrite bool_decide_eq_true_2, orb_true_r by done; cbn [rbind].
    apply extract_own_spec; [done|done|]; apply Forall_and; split; [done|].
    eapply Forall_impl; [by apply Forall_drop|]; unfold in_u; simpl; lia.
  - rewrite extract_list_skip by done; destruct parent as [|p parent].
    + left; destruct gs as [|g gs]; [done|]; cbn [extract_list outputs]; unfold at_index; simpl; by destruct (g <? 0).
    + destruct (IH gs acc (proj2 (proj2 W)) ltac:(done) Hi Hne Hr) as [E|E]; [left|by right].
      by rewrite E, Hv.
Qed.

Lemma extractKeyOutputs_chain amount i c gs acc :
  wf_cache c -> c <> [] -> 0 <= i -> gs <> [] -> StronglySorted Z.lt gs -> Forall (in_u 32) gs ->
  extractKeyOutputs ndebug pred amount i gs c acc =
  extract_list ndebug pred i (outputs amount (visible i c)) (visible i c) gs acc.
Proof.
  intros W Hc Hi Hne Hs Hr; by destruct (extractKeyOutputs_cases amount i c gs acc W Hc Hi Hne Hr) as [E|[_ H]].
Qed.
End ExtractChain.

(** ** Keys of outputs *)

Lemma outputs_known amount c : wf_cache c ->
  Forall (fun o => exists t, chain_find o c = Some t /\ is_Some (at_index (ti_outputs t) (poi_outputIndex o)))
    (outputs amount c).
Proof.
  induction c as [|s parent IH]; [constructor|]; intros W; cbn [outputs]; apply Forall_app; split.
  - destruct W as (Ws & Hn & W); apply Forall_forall; intros o Ho.
    pose proof (IH W) as IHW; rewrite Forall_forall in IHW; destruct (IHW o Ho) as (t & Et & Hk).
    exists t; split; [|done]; rewrite chain_find_parent; [done|done|].
    pose proof (outputs_below amount _ W) as Hb; rewrite Forall_forall in Hb; rewrite (seg_start _ _ Ws).
    apply Hb in Ho; lia.
  - unfold own_outputs; destruct (keyOutputsGlobalIndexes s !! amount) as [e|] eqn:Ee; [|constructor].
    destruct (seg_outputs _ _ (proj1 W) _ _ Ee) as [_ _ _ _ E5 E6].
    rewrite Forall_forall in E5, E6 |- *; intros o Ho; destruct (E6 o Ho) as (t & Et & Hk).
    exists t; split; [|done]; rewrite chain_find_own; [done|done|apply (E5 o Ho)].
Qed.

Section OutputKeys.
Context (ndebug : bool) (cur : Currency.Currency) (now : Z).

(** The output with a global index can be spent on top of block [i] and has this key.  Without
    assertions the block of the output is not compared with [i]. *)
Definition output_key (i : Z) (outs : list PackedOutIndex) (c : cache) (g : Z) (key : PublicKey) : Prop :=
  exists o t, at_index outs g = Some o /\ (ndebug = false -> poi_blockIndex o <= i) /\ chain_find o c = Some t /\
    isTransactionSpendTimeUnlocked cur now (ti_unlockTime t) i = true /\
    at_index (ti_outputs t) (poi_outputIndex o) = Some (OutKey key).

Definition push_key (i : Z) (info : CachedTransactionInfo) (index : PackedOutIndex) (_ : Z) (publicKeys : list PublicKey)
  : res (ExtractOutputKeysResult * list PublicKey) :=
  if negb (isTransactionSpendTimeUnlocked cur now (ti_unlockTime info) i) then Ok (OUTPUT_LOCKED, publicKeys)
  else
    let! target := of_option Undefined (at_index (ti_outputs info) (poi_outputIndex index)) in
    match target with OutKey key => Ok (SUCCESS, publicKeys ++ [key]) end.

Lemma extract_keys_spec i outs c gs : forall acc keys,
  extract_list ndebug (push_key i) i outs c gs acc = Ok (SUCCESS, keys) <->
  exists new, keys = acc ++ new /\ Forall2 (output_key i outs c) gs new.
Proof.
  induction gs as [|g gs IH]; intros acc keys; cbn [extract_list].
  { split; [intros [= <-]; exists []; by rewrite app_nil_r|]; intros (new & -> & H); inversion H; by rewrite app_nil_r. }
  split.
  - destruct (at_index outs g) as [o|] eqn:Eo; [|done].
    unfold assert_res; destruct (ndebug || (poi_blockIndex o <=? i)) eqn:Ea; [|done]; cbn [rbind].
    destruct (chain_find o c) as [t|] eqn:Et; [|done]; unfold push_key at 1.
    destruct (isTransactionSpendTimeUnlocked _ _ _ _) eqn:Eu; [|done]; cbn [negb].
    destruct (at_index (ti_outputs t) (poi_outputIndex o)) as [[key]|] eqn:Ek; [|done]; cbn [of_option rbind].
    rewrite IH; intros (new & -> & H); exists (key :: new); rewrite <- app_assoc; split; [done|]; constructor; [|done].
    exists o, t; split_and!; try done; intros ->; simpl in Ea; by apply Z.leb_le.
  - intros (new & -> & H); inversion H as [|? key ? new' (o & t & Eo & Ha & Et & Eu & Ek) H']; subst; clear H.
    rewrite Eo; unfold assert_res.
    assert (Ea : ndebug || (poi_blockIndex o <=? i) = true).
    { destruct ndebug; [done|]; by apply Z.leb_le, Ha. }
    rewrite Ea; cbn [rbind]; rewrite Et; unfold push_key at 1; rewrite Eu, Ek; cbn [negb of_option rbind].
    apply IH; exists new'; by rewrite <- app_assoc.
Qed.

(** Whatever the indexes, the keys that are returned are those of the outputs they name. *)
Lemma extractKeyOutputKeys_sound amount i gs c keys :
  wf_cache c -> c <> [] -> 0 <= i -> gs <> [] -> Forall (in_u 32) gs ->
  extractKeyOutputKeys ndebug cur now amount i gs c = Ok (SUCCESS, keys) ->
  Forall2 (output_key i (outputs amount (visible i c)) (visible i c)) gs keys.
Proof.
  intros W Hc Hi Hne Hr; unfold extractKeyOutputKeys; destruct (assert_indexes ndebug gs); [|done]; cbn [rbind].
  fold (push_key i); destruct (extractKeyOutputs_cases ndebug (push_key i) amount i c gs [] W Hc Hi Hne Hr) as [E|[E _]]; rewrite E; [|done].
  rewrite (extract_keys_spec i _ _ gs [] keys); by intros (new & -> & H).
Qed.

Lemma extractKeyOutputKeys_chain amount i gs c keys :
  wf_cache c -> c <> [] -> 0 <= i -> gs <> [] -> StronglySorted Z.lt gs -> Forall (in_u 32) gs ->
  extractKeyOutputKeys ndebug cur now amount i gs c = Ok (SUCCESS, keys) <->
  Forall2 (output_key i (outputs amount (visible i c)) (visible i c)) gs keys.
Proof.
  intros W Hc Hi Hne Hs Hr; split; [by apply extractKeyOutputKeys_sound|]; intros H.
  unfold extractKeyOutputKeys, assert_indexes, assert_res at 1.
  rewrite bool_decide_eq_true_2, (proj2 (strictly_sorted_spec gs)), orb_true_r by done; cbn [rbind].
  fold (push_key i); rewrite extractKeyOutputs_chain, (extract_keys_spec i _ _ gs [] keys) by done; by exists keys.
Qed.
End OutputKeys.

Lemma wf_visible i c : wf_cache c -> wf_cache (visible i c).
Proof. induction c as [|s parent IH]; [done|]; intros W; cbn [visible]; destruct (i <? startIndex s); [apply IH, W|done]. Qed.

(** Without assertions the extraction always returns. *)
Lemma extractKeyOutputKeys_total cur now amount i gs c :
  wf_cache c -> c <> [] -> 0 <= i -> gs <> [] -> StronglySorted Z.lt gs -> Forall (in_u 32) gs ->
  exists r keys, extractKeyOutputKeys true cur now amount i gs c = Ok (r, keys).
Proof.
  intros W Hc Hi Hne Hs Hr; unfold extractKeyOutputKeys; cbn [assert_indexes assert_res orb rbind].
  fold (push_key cur now i); rewrite extractKeyOutputs_chain by done.
  pose proof (outputs_known amount _ (wf_visible i c W)) as Hk; rewrite Forall_forall in Hk.
  generalize (@nil PublicKey); clear Hr Hs Hne; induction gs as [|g gs IH]; intros acc; cbn [extract_list]; [by eexists _, _|].
  destruct (at_index (outputs amount (visible i c)) g) as [o|] eqn:Eo; [|by eexists _, _].
  assert (Ho : o ∈ outputs amount (visible i c)).
  { unfold at_index in Eo; case_match; [done|]; by eapply list_elem_of_lookup_2. }
  destruct (Hk o Ho) as (t & -> & [[key] Ek]); cbn [assert_res orb rbind]; unfold push_key at 1.
  destruct (isTransactionSpendTimeUnlocked _ _ _ _); cbn [negb]; [|by eexists _, _].
  rewrite Ek; cbn [of_option rbind]; apply IH.
Qed.

(** ** Time stamps *)

Lemma lower_bound_by_spec {A} (p : A -> bool) l x : last l = Some x -> p x = false ->
  exists a, l !! lower_bound_by p l = Some a /\ p a = false /\ Forall (fun y => p y = true) (take (lower_bound_by p l) l).
Proof.
  induction l as [|y l IH]; [done|]; intros Hl Hx; cbn [lower_bound_by]; destruct (p y) eqn:Ey; [|by exists y].
  destruct l as [|z l]; [simpl in Hl; congruence|]; rewrite last_cons_cons in Hl.
  destruct (IH Hl Hx) as (a & E & Ha & Hf); exists a; split; [exact E|]; split; [done|]; simpl; by constructor.
Qed.

(** For a time after the first and not after the last block of a segment
    with increasing time stamps, getTimestampLowerBoundBlockIndex returns the
    first block at or after it, while getBlockHeightForTimestamp on the root
    segment finds no block. *)
Theorem timestamp_lookup s parent front rest back t : blockInfos s = front :: rest -> last (blockInfos s) = Some back ->
  StronglySorted by_timestamp (blockInfos s) -> bi_timestamp front < t <= bi_timestamp back ->
  (exists k i, getTimestampLowerBoundBlockIndex t (s :: parent) = Ok (startIndex s + Z.of_nat k) /\
     blockInfos s !! k = Some i /\ t <= bi_timestamp i /\
     Forall (fun j => bi_timestamp j < t) (take k (blockInfos s))) /\
  getBlockHeightForTimestamp t [s] = Ok None.
Proof.
  intros Ef Eb Hs Ht; split.
  - destruct (lower_bound_by_spec (fun i => bi_timestamp i <? t) (blockInfos s) back Eb) as (i & Ei & Hi & Hf);
      [apply Z.ltb_ge; lia|].
    exists (lower_bound_by (fun i => bi_timestamp i <? t) (blockInfos s)), i; split; [|split; [done|split; [by apply Z.ltb_ge|]]].
    + cbn [getTimestampLowerBoundBlockIndex]; rewrite Eb, Ef.
      by rewrite (proj2 (Z.ltb_ge (bi_timestamp back) t)), (proj2 (Z.ltb_lt (bi_timestamp front) t)) by lia.
    + eapply Forall_impl; [exact Hf|]; intros j; by rewrite Z.ltb_lt.
  - cbn [getBlockHeightForTimestamp]; rewrite Eb, Ef, Z.geb_leb.
    by rewrite (proj2 (Z.ltb_ge (bi_timestamp back) t)), (proj2 (Z.leb_gt t (bi_timestamp front))) by lia.
Qed.

(** ** The queries of a cache *)

(** C25. The recursive queries through a well-formed chain of segments compute
    the queries on the flat chain: block hashes, generated coins, raw blocks,
    spent key images up to a block, the last time stamps, sizes and
    difficulties with or without the genesis block, and output counts. *)
Theorem cache_queries_refine ndebug c : wf_cache c -> c <> [] ->
  (forall i, 0 <= i ->
     getBlockHash i c = of_option Undefined (bi_blockHash <$> at_index (infos c) i) /\
     getAlreadyGeneratedCoins i c = of_option OutOfRange (bi_alreadyGeneratedCoins <$> at_index (infos c) i) /\
     getBlockByIndex i c = of_option Undefined (at_index (raw_blocks c) i)) /\
  (forall keyImage i, 0 <= i -> checkIfSpent keyImage i c =
     Ok match spent c !! keyImage with Some j => j <=? i | None => false end) /\
  (forall count i useGenesis, 0 <= count -> 0 <= i < height c ->
     getLastTimestamps ndebug count i useGenesis c = Ok (map bi_timestamp (last_units count i useGenesis (infos c))) /\
     getLastBlocksSizes ndebug count i useGenesis c = Ok (map bi_blockSize (last_units count i useGenesis (infos c))) /\
     getLastCumulativeDifficulties ndebug count i useGenesis c =
       Ok (map bi_cumulativeDifficulty (last_units count i useGenesis (infos c)))) /\
  (forall amount, getKeyOutputsCountForAmount amount (height c) c = Z.of_nat (length (outputs amount c))).
Proof.
  intros W Hc; split_and!.
  - intros i Hi; by rewrite getBlockHash_chain, getAlreadyGeneratedCoins_chain, getBlockByIndex_chain.
  - intros x i Hi; by apply checkIfSpent_chain.
  - intros count i g Hn Hi; unfold getLastTimestamps, getLastBlocksSizes, getLastCumulativeDifficulties.
    by rewrite !getLastUnits_chain.
  - intros amount; rewrite getKeyOutputsCountForAmount_chain.
    + rewrite list_filter_all; [done|]; eapply Forall_impl; [exact (outputs_below amount c W)|]; simpl; lia.
    + done.
    + destruct c as [|s parent]; [done|]; rewrite (height_cons _ _ (proj1 W)); unfold end_index, getBlockCount; lia.
Qed.

(** On increasing global indexes extractKeyOutputKeys succeeds with a
    list of keys exactly when these are, in order, the keys of unlocked
    outputs of the visible chain at the indexes; without assertions it always
    returns, and then outputs above the given block are not refused. *)
Theorem output_keys_exact ndebug cur now amount i gs c keys :
  wf_cache c -> c <> [] -> 0 <= i -> gs <> [] -> StronglySorted Z.lt gs -> Forall (in_u 32) gs ->
  (extractKeyOutputKeys ndebug cur now amount i gs c = Ok (SUCCESS, keys) <->
   Forall2 (output_key ndebug cur now i (outputs amount (visible i c)) (visible i c)) gs keys) /\
  (ndebug = true -> exists r keys, extractKeyOutputKeys ndebug cur now amount i gs c = Ok (r, keys)).
Proof.
  intros W Hc Hi Hne Hs Hr; split; [by apply extractKeyOutputKeys_chain|].
  intros ->; by apply extractKeyOutputKeys_total.
Qed.

(** ** A chain of two blocks *)

Definition sample_info (h : Z) : CachedBlockInfo := mkBlockInfo (repeat h 32) (1000 + 30 * h) (1 + h) (100 * (1 + h)) (1 + h) 80.

Definition sample_tx (b : Z) : CachedTransactionInfo :=
  mkTransactionInfo b 0 (repeat (16 + b) 32) 0 [OutKey (repeat (32 + b) 32)] [b].

Definition sample_segment : segment :=
  mkSegment 0 [sample_tx 0; sample_tx 1] {[repeat 7 32 := 1]} [sample_info 0; sample_info 1]
    {[10 := mkGlobalIndexes 0 [mkOutIndex 0 0 0; mkOutIndex 1 0 0]]} [] [mkRawBlock [0] []; mkRawBlock [1] []].

Lemma sample_segment_wf : wf_cache [sample_segment].
Proof.
  split; [|by split; [constructor|]]; split.
  - reflexivity.
  - reflexivity.
  - by apply (bool_decide_unpack _); vm_compute.
  - intros x j E; change (({[repeat 7 32 := 1]} : gmap KeyImage Z) !! x = Some j) in E; apply lookup_singleton_Some in E as [_ <-].
    unfold in_segment; vm_compute; split; congruence.
  - apply map_disjoint_empty_r.
  - intros amount e E.
    change (({[10 := mkGlobalIndexes 0 [mkOutIndex 0 0 0; mkOutIndex 1 0 0]]} :
      gmap Z OutputGlobalIndexesForAmount) !! amount = Some e) in E.
    apply lookup_singleton_Some in E as [<- <-]; split; try reflexivity; try done.
    + repeat constructor; unfold by_block; simpl; lia.
    + repeat constructor; unfold in_segment; vm_compute; congruence.
    + repeat constructor; eexists; (split; [vm_compute; reflexivity|]); by eexists.
  - repeat constructor; unfold in_segment; vm_compute; congruence.
  - by apply (bool_decide_unpack _); vm_compute.
  - by apply (bool_decide_unpack _); vm_compute.
  - split; constructor.
  - reflexivity.
Qed.

Lemma timestamp_lookup_witness : getBlockHeightForTimestamp 1010 [sample_segment] = Ok None.
Proof.
  apply (timestamp_lookup sample_segment [] (sample_info 0) [sample_info 1] (sample_info 1) 1010); try reflexivity.
  - repeat constructor; unfold by_timestamp; simpl; lia.
  - simpl; lia.
Defined.

Lemma cache_queries_refine_witness :
  getLastTimestamps false 5 1 false [sample_segment] = Ok [1030] /\
  checkIfSpent (repeat 7 32) 0 [sample_segment] = Ok false /\ checkIfSpent (repeat 7 32) 1 [sample_segment] = Ok true.
Proof.
  destruct (cache_queries_refine false [sample_segment] sample_segment_wf ltac:(done)) as (_ & Hs & Hl & _).
  split; [|split].
  - rewrite (proj1 (Hl 5 1 false ltac:(lia) ltac:(vm_compute; split; congruence))); reflexivity.
  - rewrite Hs by lia; reflexivity.
  - rewrite Hs by lia; reflexivity.
Defined.

(** On top of block 0, without assertions, the key of an output of block 1 is found. *)
Lemma output_keys_exact_witness :
  extractKeyOutputKeys true Currency.mainnet 0 10 0 [1] [sample_segment] = Ok (SUCCESS, [repeat 33 32]).
Proof.
  apply (output_keys_exact true Currency.mainnet 0 10 0 [1] [sample_segment] [repeat 33 32] sample_segment_wf);
    [done|lia|done|repeat constructor|repeat constructor; lia|].
  assert (K : output_key true Currency.mainnet 0 0 (outputs 10 (visible 0 [sample_segment])) (visible 0 [sample_segment])
                1 (repeat 33 32)).
  { exists (mkOutIndex 1 0 0), (sample_tx 1); split_and!; try reflexivity; done. }
  by constructor.
Defined.
End ChainView.
