(* ===== verification/ChainSplit.v ===== *)
(** Splitting a segment of [BlockchainCache] does not change the chain. *)

From S2P Require Import Prelude.
From S2P Require Import Types.
From S2P Require Import CachedTransaction.
From S2P Require Import BlockchainCache.
From S2P Require Import ChainView.

Module ChainSplit.

Import BlockchainCache ChainView.

(** ** Payment ids *)

Lemma with_paymentIds_id s : with_paymentIds (paymentIds s) s = s.
Proof. by destruct s. Qed.

Lemma removePaymentId_spec h s n : NoDup (map snd (paymentIds s)) ->
  exists moved, removePaymentId h s n =
    (with_paymentIds (filter (fun p => p.2 <> h) (paymentIds s)) s, with_paymentIds (paymentIds n ++ moved) n) /\
    paymentIds s ≡ₚ filter (fun p => p.2 <> h) (paymentIds s) ++ moved /\ Forall (fun p => p.2 = h) moved.
Proof.
  intros Hn; unfold removePaymentId; destruct (find _ (paymentIds s)) as [it|] eqn:Ef.
  - apply find_some in Ef as [Hin Eh%bool_decide_eq_true].
    exists [it]; split; [done|]; split; [|by constructor].
    apply list_elem_of_In in Hin; subst h; induction (paymentIds s) as [|q l IH]; [by apply not_elem_of_nil in Hin|].
    simpl in Hn; apply NoDup_cons in Hn as [Hq Hn]; apply elem_of_cons in Hin as [->|Hin].
    + rewrite filter_cons_False, list_filter_all; [apply Permutation_cons_append| |by intros H; apply H].
      apply Forall_forall; intros x Hx E; apply Hq; rewrite <- E; by apply list_elem_of_fmap_2.
    + rewrite filter_cons_True; [simpl; by rewrite <- IH|].
      intros E; apply Hq; rewrite E; by apply list_elem_of_fmap_2.
  - exists []; rewrite !app_nil_r, with_paymentIds_id.
    assert (Hall : filter (fun p => p.2 <> h) (paymentIds s) = paymentIds s).
    { apply list_filter_all, Forall_forall; intros x Hx E; apply list_elem_of_In in Hx.
      pose proof (find_none _ _ Ef x Hx) as Hb; by apply bool_decide_eq_false in Hb. }
    by rewrite Hall, with_paymentIds_id.
Qed.

(** Moving the payment ids of a list of transactions. *)
Lemma move_paymentIds_spec ts : forall s n, NoDup (map snd (paymentIds s)) ->
  exists moved, fold_left (fun p t => removePaymentId (ti_transactionHash t) p.1 p.2) ts (s, n) =
    (with_paymentIds (filter (fun p => p.2 ∉ map ti_transactionHash ts) (paymentIds s)) s,
     with_paymentIds (paymentIds n ++ moved) n) /\
    paymentIds s ≡ₚ filter (fun p => p.2 ∉ map ti_transactionHash ts) (paymentIds s) ++ moved /\
    Forall (fun p => p.2 ∈ map ti_transactionHash ts) moved.
Proof.
  induction ts as [|t ts IH]; intros s n Hn; cbn [fold_left fst snd map].
  - exists []; rewrite !app_nil_r, list_filter_all, !with_paymentIds_id; [done|].
    apply Forall_forall; intros x _; apply not_elem_of_nil.
  - destruct (removePaymentId_spec (ti_transactionHash t) s n Hn) as (m & -> & HP & Hm).
    assert (Hn' : NoDup (map snd (filter (fun p => p.2 <> ti_transactionHash t) (paymentIds s)))).
    { rewrite HP, map_app in Hn; by apply NoDup_app in Hn as [? _]. }
    destruct (IH (with_paymentIds (filter (fun p => p.2 <> ti_transactionHash t) (paymentIds s)) s)
      (with_paymentIds (paymentIds n ++ m) n) Hn') as (m' & -> & HP' & Hm'); cbn [paymentIds with_paymentIds] in *.
    assert (Ef : filter (fun p => p.2 ∉ map ti_transactionHash ts)
                   (filter (fun p => p.2 <> ti_transactionHash t) (paymentIds s)) =
                 filter (fun p => p.2 ∉ ti_transactionHash t :: map ti_transactionHash ts) (paymentIds s)).
    { rewrite list_filter_filter; apply list_filter_iff; intros p; rewrite not_elem_of_cons; tauto. }
    exists (m ++ m'); rewrite <- Ef; split_and!.
    + by rewrite <- app_assoc.
    + rewrite HP at 1; rewrite HP' at 1; rewrite <- !app_assoc; f_equiv; apply Permutation_app_comm.
    + apply Forall_app; split; [|eapply Forall_impl; [exact Hm'|]; intros p Hp; by apply list_elem_of_further].
      eapply Forall_impl; [exact Hm|]; simpl; intros p ->; apply list_elem_of_here.
Qed.

(** ** The two halves *)

Section Halves.
Context (i : Z) (s : segment) (parent : cache).
Hypothesis W : wf_cache (s :: parent).
Hypothesis Hlow : startIndex s < i.
Hypothesis Hhigh : i < end_index s.

Let n : nat := Z.to_nat (i - startIndex s).

Definition kept_entry (e : OutputGlobalIndexesForAmount) : option OutputGlobalIndexesForAmount :=
  match (split_outputs i e).1 with [] => None | kept => Some (mkGlobalIndexes (gi_startIndex e) kept) end.

Definition moved_entry (e : OutputGlobalIndexesForAmount) : option OutputGlobalIndexesForAmount :=
  match gi_outputs (split_outputs i e).2 with [] => None | _ => Some (split_outputs i e).2 end.

Definition lower (pids : list (Hash * Hash)) : segment :=
  mkSegment (startIndex s) (filter (fun t => ti_blockIndex t < i) (transactions s))
    (filter (fun kv => kv.2 < i) (spentKeyImages s)) (take n (blockInfos s))
    (omap kept_entry (keyOutputsGlobalIndexes s)) pids (take n (storage s)).

Definition upper (pids : list (Hash * Hash)) : segment :=
  mkSegment i (filter (fun t => i <= ti_blockIndex t) (transactions s))
    (filter (fun kv => i <= kv.2) (spentKeyImages s)) (drop n (blockInfos s))
    (omap moved_entry (keyOutputsGlobalIndexes s)) pids (drop n (storage s)).

Lemma split_halves ndebug : exists kept moved,
  split ndebug i s = Ok (lower kept, upper moved) /\ paymentIds s ≡ₚ kept ++ moved /\
  Forall (fun p => p.2 ∈ map ti_transactionHash (filter (fun t => i <= ti_blockIndex t) (transactions s))) moved /\
  kept = filter (fun p => p.2 ∉ map ti_transactionHash (filter (fun t => i <= ti_blockIndex t) (transactions s))) (paymentIds s).
Proof.
  destruct W as (Ws & Hn & Wp); pose proof (seg_storage _ _ Ws) as El; unfold end_index, getBlockCount in Hhigh.
  destruct (move_paymentIds_spec (filter (fun t => i <= ti_blockIndex t) (transactions s))
    (with_spent (filter (fun kv => kv.2 < i) (spentKeyImages s)) (with_storage (take n (storage s)) s))
    (with_spent (filter (fun kv => i <= kv.2) (spentKeyImages s)) (with_storage (drop n (storage s)) (new_segment i)))
    (proj1 (seg_paymentIds _ _ Ws))) as (moved & E & HP & Hm).
  eexists _, moved; split; [|split; [exact HP|split; [exact Hm|reflexivity]]].
  unfold split, assert_res.
  rewrite (topIndex_spec _ _ Ws) by (destruct (blockInfos s); [simpl in Hhigh; lia|done]).
  rewrite (proj2 (Z.gtb_lt _ _)), (proj2 (Z.leb_le _ _)), (proj2 (Z.ltb_lt 0 _)), (proj2 (Z.ltb_lt _ _)), !orb_true_r
    by (unfold end_index, getBlockCount; lia); cbn [rbind].
  rewrite (proj2 (Z.ltb_ge _ 0)), (proj2 (Z.ltb_ge _ (i - startIndex s))), (proj2 (Z.ltb_ge (getBlockCount s) _))
    by (unfold getBlockCount; lia); cbn [orb].
  fold n; unfold splitSpentKeyImages, splitTransactions.
  change (spentKeyImages (with_storage (take n (storage s)) s)) with (spentKeyImages s).
  change (transactions (with_spent _ (with_storage (take n (storage s)) s))) with (transactions s).
  rewrite E; reflexivity.
Qed.

Lemma n_le : (n <= length (blockInfos s))%nat /\ Z.of_nat n = i - startIndex s.
Proof. unfold n; unfold end_index, getBlockCount in Hhigh; lia. Qed.

Lemma lower_end k : end_index (lower k) = i.
Proof. pose proof n_le; unfold end_index, getBlockCount, lower; simpl; rewrite length_take; lia. Qed.

Lemma upper_end m : end_index (upper m) = end_index s.
Proof. pose proof n_le; unfold end_index, getBlockCount, upper; simpl; rewrite length_drop; lia. Qed.

Lemma lower_height k : height (lower k :: parent) = i.
Proof.
  pose proof n_le; destruct W as (Ws & _); unfold height; simpl; rewrite length_app, length_take.
  pose proof (seg_start _ _ Ws) as Es; unfold height in Es; lia.
Qed.

Lemma split_infos k m : infos (upper m :: lower k :: parent) = infos (s :: parent).
Proof. simpl; by rewrite <- app_assoc, take_drop. Qed.

Lemma split_raw_blocks k m : raw_blocks (upper m :: lower k :: parent) = raw_blocks (s :: parent).
Proof. simpl; by rewrite <- app_assoc, take_drop. Qed.

Lemma split_spent k m : spent (upper m :: lower k :: parent) = spent (s :: parent).
Proof.
  simpl; rewrite (assoc_L (∪)); f_equal; apply map_eq; intros x.
  destruct (spentKeyImages s !! x) as [j|] eqn:E.
  - destruct (decide (i <= j)).
    + rewrite (lookup_union_Some_l _ _ _ j); [done|]; by apply map_lookup_filter_Some.
    + rewrite lookup_union_r; [apply map_lookup_filter_Some; simpl; split; [done|lia]|].
      apply map_lookup_filter_None; right; intros j' E'; simpl; replace j' with j by congruence; lia.
  - apply lookup_union_None; split; apply map_lookup_filter_None; by left.
Qed.

Lemma entry_partition amount e : keyOutputsGlobalIndexes s !! amount = Some e ->
  (split_outputs i e).1 = filter (fun o => poi_blockIndex o < i) (gi_outputs e) /\
  gi_outputs (split_outputs i e).2 = filter (fun o => i <= poi_blockIndex o) (gi_outputs e) /\
  gi_outputs e = (split_outputs i e).1 ++ gi_outputs (split_outputs i e).2 /\
  gi_startIndex (split_outputs i e).2 = gi_startIndex e + Z.of_nat (length (split_outputs i e).1).
Proof.
  intros Ee; destruct W as (Ws & _); destruct (seg_outputs _ _ Ws _ _ Ee) as [E1 _ E3 E4 _ _].
  destruct (lower_bound_partition i _ E4) as [H1 H2]; unfold split_outputs; cbn [fst snd gi_outputs gi_startIndex].
  split_and!; [done|done|by rewrite take_drop|].
  set (b := lower_bound_by _ _); pose proof (lower_bound_by_le (fun o => poi_blockIndex o <? i) (gi_outputs e)).
  fold b in H; rewrite length_take, length_drop, wrap_small; [lia|]; unfold in_u; lia.
Qed.

Lemma own_outputs_lower amount k : own_outputs amount (lower k) =
  match keyOutputsGlobalIndexes s !! amount with None => [] | Some e => (split_outputs i e).1 end.
Proof.
  unfold own_outputs, lower; cbn [keyOutputsGlobalIndexes]; rewrite lookup_omap.
  destruct (keyOutputsGlobalIndexes s !! amount) as [e|]; [|done]; cbn -[split_outputs kept_entry]; unfold kept_entry; by destruct (split_outputs i e).1.
Qed.

Lemma own_outputs_upper amount m : own_outputs amount (upper m) =
  match keyOutputsGlobalIndexes s !! amount with None => [] | Some e => gi_outputs (split_outputs i e).2 end.
Proof.
  unfold own_outputs, upper; cbn [keyOutputsGlobalIndexes]; rewrite lookup_omap.
  destruct (keyOutputsGlobalIndexes s !! amount) as [e|]; [|done]; cbn -[split_outputs moved_entry]; unfold moved_entry.
  by destruct (gi_outputs (split_outputs i e).2) eqn:E.
Qed.

Lemma split_outputs_chain amount k m : outputs amount (upper m :: lower k :: parent) = outputs amount (s :: parent).
Proof.
  cbn [outputs]; rewrite own_outputs_lower, own_outputs_upper, <- app_assoc; f_equal; unfold own_outputs.
  destruct (keyOutputsGlobalIndexes s !! amount) as [e|] eqn:Ee; [|done].
  symmetry; apply (entry_partition _ _ Ee).
Qed.

Lemma split_transactions k m : chain_transactions (upper m :: lower k :: parent) ≡ₚ chain_transactions (s :: parent).
Proof.
  cbn [chain_transactions]; rewrite <- app_assoc; f_equiv; simpl; generalize (transactions s); intros l.
  induction l as [|t l IH]; [done|]; destruct (decide (i <= ti_blockIndex t)).
  - rewrite (filter_cons_False (fun t => ti_blockIndex t < i)), filter_cons_True by lia; rewrite <- Permutation_middle, IH; done.
  - rewrite (filter_cons_True (fun t => ti_blockIndex t < i)), filter_cons_False by lia; simpl; by rewrite IH.
Qed.

Lemma find_filter {A} (f : A -> bool) (P : A -> Prop) `{forall x, Decision (P x)} l :
  (forall t, f t = true -> P t) -> find f (filter P l) = find f l.
Proof.
  intros Hp; induction l as [|t l IH]; [done|]; rewrite filter_cons; destruct (decide (P t)); simpl; [by rewrite IH|].
  destruct (f t) eqn:E; [by apply Hp in E|done].
Qed.

Lemma NoDup_map_filter {A B} (f : A -> B) (P : A -> Prop) `{forall x, Decision (P x)} l :
  NoDup (map f l) -> NoDup (map f (filter P l)).
Proof.
  induction l as [|t l IH]; [done|]; simpl; intros [Ht Hn]%NoDup_cons; rewrite filter_cons; case_decide; [|auto].
  simpl; apply NoDup_cons; split; [|auto]; intros (x & E & [_ Hx]%list_elem_of_filter)%list_elem_of_fmap.
  apply Ht; rewrite E; by apply list_elem_of_fmap_2.
Qed.

Lemma NoDup_map_take_drop {A B} (f : A -> B) j (l : list A) :
  NoDup (map f l) -> NoDup (map f (take j l)) /\ NoDup (map f (drop j l)).
Proof. rewrite <- (take_drop j l) at 1; rewrite map_app; by intros (? & _ & ?)%NoDup_app. Qed.

Lemma lower_entry k amount e : keyOutputsGlobalIndexes (lower k) !! amount = Some e -> wf_entry parent (lower k) amount e.
Proof.
  unfold lower at 1; cbn [keyOutputsGlobalIndexes]; rewrite lookup_omap; intros (e0 & Ee & Ek)%bind_Some.
  destruct (entry_partition _ _ Ee) as (P1 & P2 & P3 & P4); destruct W as (Ws & _).
  destruct (seg_outputs _ _ Ws _ _ Ee) as [E1 E2 E3 E4 E5 E6]; unfold kept_entry in Ek.
  destruct ((split_outputs i e0).1) as [|o l] eqn:Eo; [done|]; injection Ek as <-.
  rewrite P3 in E3; rewrite length_app in E3; cbn [length] in E3; split; simpl; [done|done|lia| | |].
  - rewrite <- Eo; unfold split_outputs; simpl; by apply StronglySorted_take.
  - rewrite P1; apply Forall_forall; intros x [Hx Hin]%list_elem_of_filter.
    rewrite Forall_forall in E5; specialize (E5 x Hin); unfold in_segment in *; rewrite lower_end; simpl; lia.
  - rewrite P1; apply Forall_forall; intros x [Hx Hin]%list_elem_of_filter.
    rewrite Forall_forall in E6; destruct (E6 x Hin) as (t & Et & Hk); exists t; split; [|done].
    unfold find_transaction, lower; cbn [transactions]; rewrite find_filter; [exact Et|].
    intros t'; rewrite andb_true_iff, !Z.eqb_eq; lia.
Qed.

Lemma upper_entry k m amount e : keyOutputsGlobalIndexes (upper m) !! amount = Some e ->
  wf_entry (lower k :: parent) (upper m) amount e.
Proof.
  unfold upper at 1; cbn [keyOutputsGlobalIndexes]; rewrite lookup_omap; intros (e0 & Ee & Ek)%bind_Some.
  destruct (entry_partition _ _ Ee) as (P1 & P2 & P3 & P4); destruct W as (Ws & _).
  destruct (seg_outputs _ _ Ws _ _ Ee) as [E1 E2 E3 E4 E5 E6]; unfold moved_entry in Ek.
  assert (Hne : gi_outputs (split_outputs i e0).2 <> []) by (intros E; rewrite E in Ek; done).
  assert (Ee' : e = (split_outputs i e0).2) by (destruct (gi_outputs (split_outputs i e0).2); [done|by injection Ek]).
  subst e; clear Ek; rewrite P3 in E3; rewrite length_app in E3; split; [| done | lia | | |].
  - cbn [outputs]; rewrite length_app, own_outputs_lower, Ee; lia.
  - rewrite P3 in E4; clear -E4; induction (split_outputs i e0).1 as [|o l IH]; [done|].
    apply StronglySorted_inv in E4 as [E4 _]; by apply IH.
  - rewrite P2; apply Forall_forall; intros x [Hx Hin]%list_elem_of_filter.
    rewrite Forall_forall in E5; specialize (E5 x Hin); unfold in_segment in *; rewrite upper_end; simpl; lia.
  - rewrite P2; apply Forall_forall; intros x [Hx Hin]%list_elem_of_filter.
    rewrite Forall_forall in E6; destruct (E6 x Hin) as (t & Et & Hk); exists t; split; [|done].
    unfold find_transaction, upper; cbn [transactions]; rewrite find_filter; [exact Et|].
    intros t'; rewrite andb_true_iff, !Z.eqb_eq; lia.
Qed.

Lemma lower_wf k : NoDup (map snd k) ->
  Forall (fun p => p.2 ∈ map ti_transactionHash (filter (fun t => ti_blockIndex t < i) (transactions s))) k ->
  wf_segment parent (lower k).
Proof.
  intros Hk1 Hk2; destruct W as (Ws & _); split.
  - exact (seg_start _ _ Ws).
  - rewrite lower_end; pose proof (seg_bound _ _ Ws); lia.
  - exact (proj1 (NoDup_map_take_drop _ _ _ (seg_hashes _ _ Ws))).
  - intros x j [Ex Hj]%map_lookup_filter_Some; apply (seg_spent _ _ Ws) in Ex; unfold in_segment in *.
    rewrite lower_end; simpl in *; lia.
  - eapply map_disjoint_weaken_l; [exact (seg_fresh _ _ Ws)|apply map_filter_subseteq].
  - intros amount e Ee; by apply lower_entry.
  - apply Forall_forall; intros t [Ht Hin]%list_elem_of_filter; pose proof (seg_transactions _ _ Ws) as Hs.
    rewrite Forall_forall in Hs; specialize (Hs t Hin); unfold in_segment in *; rewrite lower_end; simpl; lia.
  - apply NoDup_map_filter, Ws.
  - apply NoDup_map_filter, Ws.
  - by split.
  - simpl; rewrite !length_take, (seg_storage _ _ Ws); done.
Qed.

Lemma upper_wf k m : NoDup (map snd m) ->
  Forall (fun p => p.2 ∈ map ti_transactionHash (filter (fun t => i <= ti_blockIndex t) (transactions s))) m ->
  wf_segment (lower k :: parent) (upper m).
Proof.
  intros Hm1 Hm2; destruct W as (Ws & _); split.
  - by rewrite lower_height.
  - rewrite upper_end; apply Ws.
  - exact (proj2 (NoDup_map_take_drop _ _ _ (seg_hashes _ _ Ws))).
  - intros x j [Ex Hj]%map_lookup_filter_Some; apply (seg_spent _ _ Ws) in Ex; unfold in_segment in *.
    rewrite upper_end; simpl in *; lia.
  - cbn [spent]; apply map_disjoint_union_r; split.
    + apply map_disjoint_spec; intros x a b [Ea Ha]%map_lookup_filter_Some [Eb Hb]%map_lookup_filter_Some.
      simpl in *; replace b with a in Hb by congruence; lia.
    + eapply map_disjoint_weaken_l; [exact (seg_fresh _ _ Ws)|apply map_filter_subseteq].
  - intros amount e Ee; by apply upper_entry.
  - apply Forall_forall; intros t [Ht Hin]%list_elem_of_filter; pose proof (seg_transactions _ _ Ws) as Hs.
    rewrite Forall_forall in Hs; specialize (Hs t Hin); unfold in_segment in *; rewrite upper_end; simpl; lia.
  - apply NoDup_map_filter, Ws.
  - apply NoDup_map_filter, Ws.
  - by split.
  - simpl; rewrite !length_drop, (seg_storage _ _ Ws); done.
Qed.
End Halves.

(** ** The theorem *)

Lemma split_spec ndebug i s parent : wf_cache (s :: parent) -> startIndex s < i < end_index s ->
  exists low up, split ndebug i s = Ok (low, up) /\ wf_cache (up :: low :: parent) /\
    startIndex low = startIndex s /\ startIndex up = i /\ blockInfos low <> [] /\ blockInfos up <> [] /\
    infos (up :: low :: parent) = infos (s :: parent) /\ raw_blocks (up :: low :: parent) = raw_blocks (s :: parent) /\
    spent (up :: low :: parent) = spent (s :: parent) /\
    (forall amount, outputs amount (up :: low :: parent) = outputs amount (s :: parent)) /\
    chain_transactions (up :: low :: parent) ≡ₚ chain_transactions (s :: parent) /\
    chain_paymentIds (up :: low :: parent) ≡ₚ chain_paymentIds (s :: parent).
Proof.
  intros W [H1 H2]; destruct (split_halves i s parent W H1 H2 ndebug) as (k & m & E & HP & Hm & Ek).
  pose proof (n_le i s H1 H2) as [Hn1 Hn2].
  assert (Hnd : NoDup (map snd (k ++ m))) by (rewrite <- HP; apply (seg_paymentIds _ _ (proj1 W))).
  rewrite map_app in Hnd; apply NoDup_app in Hnd as (Nk & _ & Nm).
  assert (Hk : Forall (fun p => p.2 ∈ map ti_transactionHash (filter (fun t => ti_blockIndex t < i) (transactions s))) k).
  { apply Forall_forall; intros p Hp; rewrite Ek in Hp; apply list_elem_of_filter in Hp as [Hnot Hin].
    pose proof (proj2 (seg_paymentIds _ _ (proj1 W))) as Hall; rewrite Forall_forall in Hall.
    pose proof (Hall p Hin) as (t & Et & Ht)%list_elem_of_fmap; rewrite Et; apply list_elem_of_fmap_2, list_elem_of_filter.
    split; [|done]; destruct (decide (i <= ti_blockIndex t)); [exfalso|lia].
    apply Hnot; rewrite Et; by apply list_elem_of_fmap_2, list_elem_of_filter. }
  pose proof (lower_wf i s parent W H1 H2 k Nk Hk) as WL; pose proof (upper_wf i s parent W H1 H2 k m Nm Hm) as WU.
  assert (NL : blockInfos (lower i s k) <> []).
  { intros El; apply (f_equal length) in El; simpl in El; rewrite length_take in El; lia. }
  exists (lower i s k), (upper i s m); split; [done|]; split.
  { destruct W as (Ws & Hn & Wp); split; [done|]; split; [by constructor|]; by split. }
  split; [done|]; split; [done|]; split; [done|]; split.
  { intros El; apply (f_equal length) in El; simpl in El; rewrite length_drop in El; unfold end_index, getBlockCount in H2; lia. }
  split; [apply split_infos|]; split; [apply split_raw_blocks|]; split; [apply split_spent|]; split.
  { intros amount; by apply split_outputs_chain. }
  split; [apply split_transactions|]; cbn [chain_paymentIds]; rewrite HP; simpl.
  by rewrite <- app_assoc.
Qed.

(** C19. Splitting a segment at any inner block returns two segments that form
    a well-formed chain which answers every query as the segment did: blocks,
    time stamps, coins, spent key images, outputs and their counts, and, up to
    order, transactions. *)
Theorem cache_split_preserves ndebug i s parent :
  wf_cache (s :: parent) -> blockInfos s <> [] -> startIndex s < i <= topIndex s ->
  exists low up, split ndebug i s = Ok (low, up) /\ wf_cache (up :: low :: parent) /\
    infos (up :: low :: parent) = infos (s :: parent) /\
    (forall keyImage j, 0 <= j -> checkIfSpent keyImage j (up :: low :: parent) = checkIfSpent keyImage j (s :: parent)) /\
    (forall count j useGenesis, 0 <= count -> 0 <= j < height (s :: parent) ->
       getLastTimestamps ndebug count j useGenesis (up :: low :: parent) =
       getLastTimestamps ndebug count j useGenesis (s :: parent)) /\
    (forall j, 0 <= j -> getBlockHash j (up :: low :: parent) = getBlockHash j (s :: parent) /\
       getAlreadyGeneratedCoins j (up :: low :: parent) = getAlreadyGeneratedCoins j (s :: parent) /\
       getBlockByIndex j (up :: low :: parent) = getBlockByIndex j (s :: parent)) /\
    (forall amount j, i <= j -> getKeyOutputsCountForAmount amount j (up :: low :: parent) =
       getKeyOutputsCountForAmount amount j (s :: parent)) /\
    (forall amount, outputs amount (up :: low :: parent) = outputs amount (s :: parent)) /\
    chain_transactions (up :: low :: parent) ≡ₚ chain_transactions (s :: parent).
Proof.
  intros W Hne [H1 H2].
  rewrite (topIndex_spec _ _ (proj1 W) Hne) in H2.
  destruct (split_spec ndebug i s parent W ltac:(lia)) as (low & up & E & W' & E1 & E2 & _ & _ & Ei & Er & Es & Eo & Et & _).
  assert (Eh : height (up :: low :: parent) = height (s :: parent)) by (unfold height; by rewrite Ei).
  exists low, up; split; [done|]; split; [done|]; split; [done|]; split_and!.
  - intros x j Hj; by rewrite !checkIfSpent_chain, Es.
  - intros count j g Hc Hj; unfold getLastTimestamps; rewrite !getLastUnits_chain, Ei by (done || lia); done.
  - intros j Hj; by rewrite !getBlockHash_chain, !getAlreadyGeneratedCoins_chain, !getBlockByIndex_chain, Ei, Er.
  - intros amount j Hj; rewrite !getKeyOutputsCountForAmount_chain, Eo by (done || lia); done.
  - done.
  - done.
Qed.

(** ** Witness *)

Lemma cache_split_preserves_witness :
  exists low up, split false 1 sample_segment = Ok (low, up) /\ wf_cache [up; low] /\
    infos [up; low] = infos [sample_segment].
Proof.
  destruct (cache_split_preserves false 1 sample_segment [] sample_segment_wf) as (low & up & E & W & Ei & _);
    [done|by vm_compute|].
  by exists low, up.
Defined.
End ChainSplit.
