(* ===== verification/ChainPush.v ===== *)
(** Pushing a block on a segment of [BlockchainCache] extends the chain by that block. *)

From S2P Require Import Prelude.
From S2P Require Import Types.
From S2P Require Import Keccak.
From S2P Require Import TreeHash.
From S2P Require Import TransactionExtra.
From S2P Require Import Block.
From S2P Require Import CachedTransaction.
From S2P Require Import BlockchainCache.
From S2P Require Import ChainView.

Module ChainPush.

Import CachedTransaction BlockchainCache ChainView.

(** ** Outputs of a transaction *)

(** The outputs with an amount, at their positions. *)
Fixpoint new_outputs (amount blockIndex transactionIndex k : Z) (outs : list TransactionOutput) : list PackedOutIndex :=
  match outs with
  | [] => []
  | o :: outs =>
    (if o_amount o =? amount then [mkOutIndex blockIndex transactionIndex k] else []) ++
    new_outputs amount blockIndex transactionIndex (k + 1) outs
  end.

Lemma new_outputs_Forall amount b t k outs :
  Forall (fun o => poi_blockIndex o = b /\ poi_transactionIndex o = t /\
                   k <= poi_outputIndex o < k + Z.of_nat (length outs)) (new_outputs amount b t k outs).
Proof.
  revert k; induction outs as [|o outs IH]; intros k; cbn [new_outputs length]; [constructor|].
  apply Forall_app; split; [destruct (o_amount o =? amount); repeat constructor; simpl; lia|].
  eapply Forall_impl; [apply IH|]; simpl; lia.
Qed.

Lemma new_outputs_length a b t k outs : (length (new_outputs a b t k outs) <= length outs)%nat.
Proof.
  revert k; induction outs as [|o outs IH]; intros k; simpl; [done|]; rewrite length_app; specialize (IH (k + 1)).
  destruct (o_amount o =? a); simpl; lia.
Qed.

(** The global index of each output is its position among the outputs of its amount. *)
Fixpoint indexed (blockIndex transactionIndex k : Z) (c : cache) (outs : list TransactionOutput) (gs : list Z) : Prop :=
  match outs, gs with
  | [], [] => True
  | o :: outs, g :: gs =>
    at_index (outputs (o_amount o) c) g = Some (mkOutIndex blockIndex transactionIndex k) /\
    indexed blockIndex transactionIndex (k + 1) c outs gs
  | _, _ => False
  end.

(** Positions do not change when outputs are added. *)
Lemma indexed_mono b ti c c' outs : (forall a, exists l, outputs a c' = outputs a c ++ l) ->
  forall k gs, indexed b ti k c outs gs -> indexed b ti k c' outs gs.
Proof.
  intros Hc; induction outs as [|o outs IH]; intros k [|g gs]; cbn [indexed]; try done.
  intros [E H]; split; [|auto]; destruct (Hc (o_amount o)) as [l ->]; rewrite at_index_app.
  assert (Hr : is_Some (at_index (outputs (o_amount o) c) g)) by (by eexists).
  apply at_index_range in Hr; by rewrite (proj2 (Z.ltb_lt _ _)) by lia.
Qed.

(** What pushing outputs relies on and keeps. *)
Record entries_ok (parent : cache) (s : segment) : Prop := {
  ok_start : forall amount e, keyOutputsGlobalIndexes s !! amount = Some e ->
    gi_startIndex e = Z.of_nat (length (outputs amount parent));
  ok_nonempty : forall amount e, keyOutputsGlobalIndexes s !! amount = Some e -> gi_outputs e <> [] }.

Lemma parent_count amount b parent : wf_cache parent -> height parent <= b ->
  Z.of_nat (length (outputs amount parent)) < 2 ^ 32 ->
  u32 (getKeyOutputsCountForAmount amount b parent) = Z.of_nat (length (outputs amount parent)).
Proof.
  intros W Hb Hl; rewrite getKeyOutputsCountForAmount_chain.
  - rewrite list_filter_all; [apply wrap_small; unfold in_u; lia|].
    eapply Forall_impl; [exact (outputs_below amount parent W)|]; simpl; lia.
  - done.
  - destruct parent as [|p parent]; [done|]; destruct W as [Wp _]; rewrite (height_cons _ _ Wp) in Hb.
    unfold end_index, getBlockCount in Hb; lia.
Qed.

Section Outputs.
Context (b : Z) (parent : cache).
Hypothesis Wp : wf_cache parent.
Hypothesis Hb : height parent <= b.

(** One output goes to the end of the outputs of its amount, and its index is its position. *)
Lemma insertKeyOutput_spec amount o s g s' :
  entries_ok parent s -> Z.of_nat (length (outputs amount (s :: parent))) + 1 < 2 ^ 32 ->
  insertKeyOutputToGlobalIndex amount o b parent s = (g, s') ->
  entries_ok parent s' /\ s' = with_outputs (keyOutputsGlobalIndexes s') s /\
  (forall a, own_outputs a s' = own_outputs a s ++ if a =? amount then [o] else []) /\
  g = Z.of_nat (length (outputs amount (s :: parent))).
Proof.
  intros [K1 K2] Hl; unfold insertKeyOutputToGlobalIndex.
  assert (El : Z.of_nat (length (outputs amount (s :: parent))) =
    Z.of_nat (length (outputs amount parent)) + Z.of_nat (length (own_outputs amount s))).
  { cbn [outputs]; rewrite length_app; lia. }
  rewrite El in *; unfold own_outputs in *.
  set (e := match keyOutputsGlobalIndexes s !! amount with Some _ => _ | None => _ end).
  assert (Ee : e = mkGlobalIndexes (Z.of_nat (length (outputs amount parent))) (own_outputs amount s ++ [o])).
  { unfold e, own_outputs; destruct (keyOutputsGlobalIndexes s !! amount) as [x|] eqn:Ex.
    - by rewrite (K1 _ _ Ex).
    - rewrite parent_count by (done || lia); done. }
  intros [= <- <-]; split_and!.
  - split; intros a x; cbn [keyOutputsGlobalIndexes with_outputs]; rewrite lookup_insert_Some, Ee;
      intros [[<- <-]|[_ Ex]]; simpl; eauto; by destruct (own_outputs amount s).
  - done.
  - intros a; cbn [keyOutputsGlobalIndexes with_outputs]; destruct (Z.eqb_spec a amount) as [->|Hne].
    + rewrite lookup_insert_eq, Ee; done.
    + by rewrite lookup_insert_ne, app_nil_r by done.
  - rewrite Ee; unfold own_outputs; simpl; rewrite length_app; simpl; rewrite wrap_small; [lia|unfold in_u; lia].
Qed.

(** The outputs of a transaction. *)
Lemma push_outputs_spec ti outs : forall k s gs s',
  entries_ok parent s -> 0 <= k -> k + Z.of_nat (length outs) <= 2 ^ 16 ->
  (forall a, Z.of_nat (length (outputs a (s :: parent))) + Z.of_nat (length (new_outputs a b ti k outs)) < 2 ^ 32) ->
  push_outputs b ti k outs parent s = (gs, s') ->
  entries_ok parent s' /\ s' = with_outputs (keyOutputsGlobalIndexes s') s /\
  (forall a, own_outputs a s' = own_outputs a s ++ new_outputs a b ti k outs) /\
  indexed b ti k (s' :: parent) outs gs.
Proof.
  induction outs as [|o outs IH]; intros k s gs s' K Hk Hlen Hl; cbn [push_outputs].
  { intros [= <- <-]; split_and!; [done|by destruct s|intros a; by rewrite app_nil_r|done]. }
  destruct (insertKeyOutputToGlobalIndex _ _ _ _ _) as [g s1] eqn:E1.
  destruct (push_outputs b ti (k + 1) outs parent s1) as [gs1 s2] eqn:E2; intros [= <- <-].
  cbn [length] in Hlen.
  assert (Hl1 : Z.of_nat (length (outputs (o_amount o) (s :: parent))) + 1 < 2 ^ 32).
  { specialize (Hl (o_amount o)); cbn [new_outputs] in Hl; rewrite Z.eqb_refl, length_app in Hl; simpl in Hl; simpl; lia. }
  destruct (insertKeyOutput_spec _ _ _ _ _ K Hl1 E1) as (K1 & F1 & O1 & ->).
  rewrite wrap_small in O1 by (unfold in_u; lia).
  destruct (IH (k + 1) s1 gs1 s2 K1) as (K2 & F2 & O2 & G2); [lia|lia| |done|].
  { intros a; specialize (Hl a); cbn [new_outputs outputs] in *; rewrite O1; rewrite !length_app in *.
    rewrite Z.eqb_sym in Hl; destruct (a =? o_amount o); simpl in *; lia. }
  split_and!; [done|rewrite F2, F1; done| |].
  - intros a; rewrite O2, O1, <- app_assoc; cbn [new_outputs]; by rewrite (Z.eqb_sym a).
  - split; [|done]; cbn [outputs]; rewrite O2, O1, Z.eqb_refl, <- !app_assoc, app_assoc, at_index_app.
    cbn [outputs]; by rewrite Z.ltb_irrefl, Z.sub_diag.
Qed.
End Outputs.

Lemma StronglySorted_app {A} (R : A -> A -> Prop) l k : StronglySorted R l -> StronglySorted R k ->
  Forall (fun x => Forall (R x) k) l -> StronglySorted R (l ++ k).
Proof.
  induction 1 as [|x l Hl IH Hx]; intros Hk Hxk; [done|]; apply Forall_cons in Hxk as [H1 H2]; simpl.
  constructor; [auto|]; by apply Forall_app.
Qed.

Lemma wf_entries parent s : wf_segment parent s -> entries_ok parent s.
Proof. intros W; split; intros a e E; by destruct (seg_outputs _ _ W _ _ E). Qed.

Lemma find_transaction_app b t s l : transactions s = l ->
  forall info s', transactions s' = l ++ [info] ->
  find_transaction b t s' =
    match find_transaction b t s with
    | Some x => Some x
    | None => if (ti_blockIndex info =? b) && (ti_transactionIndex info =? t) then Some info else None
    end.
Proof. intros <- info s' E; unfold find_transaction; rewrite E, find_app; simpl; done. Qed.

Section Transactions.
Context {FH : FastHash}.
Context (ndebug : bool).

Definition tx_info (b ti : Z) (c : CachedTransaction) (gs : list Z) : CachedTransactionInfo :=
  mkTransactionInfo b ti (getTransactionHash c) (tx_unlockTime (ct_transaction c))
    (map o_target (tx_outputs (ct_transaction c))) gs.

Definition tx_paymentIds (c : CachedTransaction) : list (Hash * Hash) :=
  match TransactionExtra.getPaymentIdFromTxExtra (tx_extra (ct_transaction c)) with
  | Some p => [(p, getTransactionHash c)]
  | None => []
  end.

(** The segment after a transaction. *)
Definition pushed (s : segment) (info : CachedTransactionInfo) (pids : list (Hash * Hash))
    (m : gmap Z OutputGlobalIndexesForAmount) : segment :=
  mkSegment (startIndex s) (transactions s ++ [info]) (spentKeyImages s) (blockInfos s) m (paymentIds s ++ pids) (storage s).

Lemma pushTransaction_result b ti c parent s gs s1 :
  Z.of_nat (length (tx_outputs (ct_transaction c))) <= 2 ^ 16 - 1 ->
  push_outputs b ti 0 (tx_outputs (ct_transaction c)) parent s = (gs, s1) ->
  s1 = with_outputs (keyOutputsGlobalIndexes s1) s ->
  getTransactionHash c ∉ map ti_transactionHash (transactions s) ->
  find_transaction b ti s = None ->
  Forall (fun p => p.2 ∈ map ti_transactionHash (transactions s)) (paymentIds s) ->
  pushTransaction ndebug c b ti parent s =
    Ok (pushed s (tx_info b ti c gs) (tx_paymentIds c) (keyOutputsGlobalIndexes s1)).
Proof.
  intros Hlen Ep Es Hh Hf Hp; unfold pushTransaction.
  unfold assert_res at 1; rewrite (proj2 (Z.leb_le _ _) Hlen), orb_true_r; cbn [rbind]; rewrite Ep.
  assert (Ehas : hasTransaction (getTransactionHash c) s1 = false).
  { rewrite Es; unfold hasTransaction; cbn [transactions with_outputs]; apply not_true_iff_false.
    intros (t & Hin & E%bool_decide_eq_true)%existsb_exists; apply Hh; rewrite <- E.
    apply list_elem_of_fmap_2; by apply list_elem_of_In. }
  cbn [ti_transactionHash]; rewrite Ehas; unfold assert_res; cbn [negb]; rewrite orb_true_r; cbn [rbind].
  assert (Ef : find_transaction b ti s1 = None) by (rewrite Es; exact Hf).
  rewrite Ef, bool_decide_eq_false_2 by (by intros [? ?]); cbn [orb].
  unfold pushed, tx_paymentIds; destruct (TransactionExtra.getPaymentIdFromTxExtra _) as [p|].
  - assert (Epid : existsb (fun q => bool_decide (q.2 = getTransactionHash c)) (paymentIds s) = false).
    { apply not_true_iff_false; intros (q & Hin & E%bool_decide_eq_true)%existsb_exists; apply Hh; rewrite <- E.
      rewrite Forall_forall in Hp; by apply Hp, list_elem_of_In. }
    rewrite Es; cbn [paymentIds with_transactions with_outputs]; rewrite Epid; reflexivity.
  - rewrite Es, app_nil_r; reflexivity.
Qed.

Lemma output_known_mono s s' info : transactions s' = transactions s ++ [info] ->
  forall o, output_known s o -> output_known s' o.
Proof.
  intros E o (t & Et & Hk); exists t; split; [|done].
  by rewrite (find_transaction_app _ _ s _ eq_refl _ _ E), Et.
Qed.

(** The outputs of an amount after the transaction. *)
Lemma pushed_entry b ti c parent s s1 gs a e :
  wf_segment parent s -> startIndex s <= b -> b = end_index s - 1 ->
  Z.of_nat (length (tx_outputs (ct_transaction c))) <= 2 ^ 16 - 1 -> find_transaction b ti s = None ->
  Z.of_nat (length (outputs a (s :: parent))) +
    Z.of_nat (length (new_outputs a b ti 0 (tx_outputs (ct_transaction c)))) < 2 ^ 32 ->
  entries_ok parent s1 ->
  own_outputs a s1 = own_outputs a s ++ new_outputs a b ti 0 (tx_outputs (ct_transaction c)) ->
  keyOutputsGlobalIndexes s1 !! a = Some e ->
  wf_entry parent (pushed s (tx_info b ti c gs) (tx_paymentIds c) (keyOutputsGlobalIndexes s1)) a e.
Proof.
  intros Ws Hb Eb Hlen Hf Hl [K1 K2] Eo Ee; set (s' := pushed _ _ _ _).
  unfold own_outputs at 1 in Eo; rewrite Ee in Eo; cbn [outputs] in Hl; rewrite length_app in Hl.
  pose proof (new_outputs_Forall a b ti 0 (tx_outputs (ct_transaction c))) as Hnew.
  assert (Hold : StronglySorted by_block (own_outputs a s) /\ Forall (fun o => in_segment s (poi_blockIndex o)) (own_outputs a s) /\
                 Forall (output_known s) (own_outputs a s)).
  { unfold own_outputs; destruct (keyOutputsGlobalIndexes s !! a) as [e0|] eqn:E0; [|by split; [constructor|]].
    by destruct (seg_outputs _ _ Ws _ _ E0). }
  destruct Hold as (O1 & O2 & O3); split; rewrite ?Eo.
  - exact (K1 _ _ Ee).
  - rewrite <- Eo; exact (K2 _ _ Ee).
  - rewrite (K1 _ _ Ee), length_app; lia.
  - apply StronglySorted_app; [done| |].
    + clear -Hnew; induction Hnew as [|x l Hx Hl IH]; constructor; [done|].
      eapply Forall_impl; [exact Hl|]; unfold by_block; simpl in *; lia.
    + eapply Forall_impl; [exact O2|]; intros x Hx; eapply Forall_impl; [exact Hnew|].
      unfold by_block, in_segment in *; simpl in *; lia.
  - apply Forall_app; split; [exact O2|]; eapply Forall_impl; [exact Hnew|].
    unfold in_segment, end_index in *; cbn in *; unfold getBlockCount in *; simpl; lia.
  - apply Forall_app; split.
    + eapply Forall_impl; [exact O3|]; by apply output_known_mono with (info := tx_info b ti c gs).
    + eapply Forall_impl; [exact Hnew|]; intros x (E1 & E2 & E3); exists (tx_info b ti c gs); split.
      * rewrite (find_transaction_app _ _ s _ eq_refl (tx_info b ti c gs) s' eq_refl), E1, E2, Hf; simpl.
        by rewrite !Z.eqb_refl.
      * apply at_index_range; simpl; rewrite length_map; lia.
Qed.

Lemma segment_pushTransaction_spec b ti c parent s :
  wf_cache (s :: parent) -> startIndex s <= b -> b = end_index s - 1 -> 0 <= ti ->
  Z.of_nat (length (tx_outputs (ct_transaction c))) <= 2 ^ 16 - 1 ->
  getTransactionHash c ∉ map ti_transactionHash (transactions s) -> find_transaction b ti s = None ->
  (forall a, Z.of_nat (length (outputs a (s :: parent))) +
             Z.of_nat (length (new_outputs a b ti 0 (tx_outputs (ct_transaction c)))) < 2 ^ 32) ->
  exists gs m,
    let s' := pushed s (tx_info b ti c gs) (tx_paymentIds c) m in
    pushTransaction ndebug c b ti parent s = Ok s' /\ wf_cache (s' :: parent) /\
    (forall a, own_outputs a s' = own_outputs a s ++ new_outputs a b ti 0 (tx_outputs (ct_transaction c))) /\
    indexed b ti 0 (s' :: parent) (tx_outputs (ct_transaction c)) gs.
Proof.
  intros W Hb Eb Hti Hlen Hh Hf Hl; destruct W as (Ws & Hn & Wp).
  destruct (push_outputs b ti 0 (tx_outputs (ct_transaction c)) parent s) as [gs s1] eqn:Ep.
  assert (Hhp : height parent <= b) by (rewrite <- (seg_start _ _ Ws); lia).
  destruct (push_outputs_spec b parent Wp Hhp ti (tx_outputs (ct_transaction c)) 0 s gs s1 (wf_entries _ _ Ws)) as (K & Es & Eo & Eg); [lia|lia|done|done|].
  exists gs, (keyOutputsGlobalIndexes s1); intros s'.
  assert (Eo' : forall a, own_outputs a s' = own_outputs a s1) by done.
  split; [eapply pushTransaction_result; try done; apply Ws|]; split; [|split].
  2: { intros a; by rewrite Eo', Eo. }
  2: { eapply indexed_mono; [|exact Eg]; intros a; exists []; rewrite app_nil_r; cbn [outputs]; by rewrite Eo'. }
  split; [|done]; split.
  - exact (seg_start _ _ Ws).
  - exact (seg_bound _ _ Ws).
  - exact (seg_hashes _ _ Ws).
  - exact (seg_spent _ _ Ws).
  - exact (seg_fresh _ _ Ws).
  - intros a e Ee; by eapply pushed_entry.
  - apply Forall_app; split; [exact (seg_transactions _ _ Ws)|]; constructor; [|constructor].
    change (startIndex s <= b < end_index s); lia.
  - simpl; rewrite map_app; apply NoDup_app; split; [exact (seg_positions _ _ Ws)|]; split; [|apply NoDup_singleton].
    intros x (t & -> & Ht)%list_elem_of_fmap Hx%list_elem_of_singleton; injection Hx as E1 E2.
    unfold find_transaction in Hf; apply list_elem_of_In in Ht; pose proof (find_none _ _ Hf t Ht) as E; simpl in E.
    rewrite E1, E2, !Z.eqb_refl in E; done.
  - simpl; rewrite map_app; apply NoDup_app; split; [exact (seg_tx_hashes _ _ Ws)|]; split; [|apply NoDup_singleton].
    intros x Hx ->%list_elem_of_singleton; done.
  - destruct (seg_paymentIds _ _ Ws) as [P1 P2]; simpl; rewrite !map_app; split.
    + apply NoDup_app; split; [done|]; unfold tx_paymentIds.
      destruct (TransactionExtra.getPaymentIdFromTxExtra _); simpl; [|split; [intros ? _ ?%not_elem_of_nil; done|constructor]].
      split; [|apply NoDup_singleton]; intros x (q & -> & Hq)%list_elem_of_fmap Hx%list_elem_of_singleton.
      rewrite Forall_forall in P2; apply Hh; rewrite <- Hx; by apply P2.
    + apply Forall_app; split.
      * eapply Forall_impl; [exact P2|]; intros q Hq; apply elem_of_app; by left.
      * unfold tx_paymentIds; destruct (TransactionExtra.getPaymentIdFromTxExtra _); repeat constructor.
        apply elem_of_app; right; apply list_elem_of_here.
  - exact (seg_storage _ _ Ws).
Qed.

(** *** The transactions of a block *)

Fixpoint block_outputs (a b k : Z) (txs : list CachedTransaction) : list PackedOutIndex :=
  match txs with
  | [] => []
  | c :: txs => new_outputs a b k 0 (tx_outputs (ct_transaction c)) ++ block_outputs a b (k + 1) txs
  end.

(** The records of the transactions, with the global indexes of their outputs. *)
Fixpoint tx_infos (b k : Z) (c : cache) (txs : list CachedTransaction) (ts : list CachedTransactionInfo) : Prop :=
  match txs, ts with
  | [], [] => True
  | tx :: txs, t :: ts =>
    (exists gs, t = tx_info b k tx gs /\ indexed b k 0 c (tx_outputs (ct_transaction tx)) gs) /\ tx_infos b (k + 1) c txs ts
  | _, _ => False
  end.

Definition pushed_all (s : segment) (ts : list CachedTransactionInfo) (pids : list (Hash * Hash))
    (m : gmap Z OutputGlobalIndexesForAmount) : segment :=
  mkSegment (startIndex s) (transactions s ++ ts) (spentKeyImages s) (blockInfos s) m (paymentIds s ++ pids) (storage s).

Lemma push_transactions_spec b parent txs : forall k s,
  wf_cache (s :: parent) -> startIndex s <= b -> b = end_index s - 1 -> 0 <= k -> k + Z.of_nat (length txs) <= 2 ^ 16 ->
  Forall (fun c => Z.of_nat (length (tx_outputs (ct_transaction c))) <= 2 ^ 16 - 1) txs ->
  NoDup (map getTransactionHash txs ++ map ti_transactionHash (transactions s)) ->
  Forall (fun t => ti_blockIndex t = b -> ti_transactionIndex t < k) (transactions s) ->
  (forall a, Z.of_nat (length (outputs a (s :: parent))) + Z.of_nat (length (block_outputs a b k txs)) < 2 ^ 32) ->
  exists ts m, let s' := pushed_all s ts (concat (map tx_paymentIds txs)) m in
    push_transactions ndebug txs b k parent s = Ok s' /\ wf_cache (s' :: parent) /\
    (forall a, own_outputs a s' = own_outputs a s ++ block_outputs a b k txs) /\
    tx_infos b k (s' :: parent) txs ts.
Proof.
  induction txs as [|c txs IH]; intros k s W Hb Eb Hk Hlen Hout Hnd Hpos Hl; cbn [push_transactions].
  { exists [], (keyOutputsGlobalIndexes s); unfold pushed_all; cbn; rewrite !app_nil_r; destruct s; simpl in *.
    split; [done|]; split; [done|]; split; [intros a; by rewrite app_nil_r|done]. }
  cbn [length map app] in *; apply Forall_cons in Hout as [Ho Hout]; apply NoDup_cons in Hnd as [Hh Hnd].
  apply not_elem_of_app in Hh as [Hh1 Hh2].
  assert (Hf : find_transaction b k s = None).
  { apply find_none_forall; eapply Forall_impl; [exact Hpos|]; intros t Ht; simpl in Ht.
    destruct (Z.eqb_spec (ti_blockIndex t) b) as [E|]; [|done]; specialize (Ht E).
    by rewrite (proj2 (Z.eqb_neq _ _)) by lia. }
  rewrite wrap_small by (unfold in_u; lia).
  destruct (segment_pushTransaction_spec b k c parent s W Hb Eb Hk Ho Hh2 Hf) as (gs & m & E & W' & Eo & Eg).
  { intros a; specialize (Hl a); cbn [block_outputs] in Hl; rewrite length_app in Hl; lia. }
  set (s1 := pushed s _ _ m) in *; rewrite E; cbn [rbind].
  destruct (IH (k + 1) s1 W') as (ts & m' & E' & W'' & Eo' & Eg'); try done; try lia.
  - simpl; rewrite map_app, app_assoc; simpl; rewrite <- Permutation_cons_append; apply NoDup_cons; split; [|done].
    by apply not_elem_of_app.
  - apply Forall_app; split; [|constructor; [simpl; lia|constructor]].
    eapply Forall_impl; [exact Hpos|]; simpl; intros t Ht Et; specialize (Ht Et); lia.
  - intros a; specialize (Hl a); cbn [block_outputs outputs] in *; rewrite Eo; rewrite !length_app in *; lia.
  - exists (tx_info b k c gs :: ts), m'; cbn [map concat].
    replace (pushed_all s (tx_info b k c gs :: ts) (tx_paymentIds c ++ concat (map tx_paymentIds txs)) m')
      with (pushed_all s1 ts (concat (map tx_paymentIds txs)) m')
      by (unfold pushed_all, s1, pushed; simpl; by rewrite <- !app_assoc).
    split; [done|]; split; [done|]; split.
    + intros a; rewrite Eo', Eo; cbn [block_outputs]; by rewrite app_assoc.
    + split; [|done]; exists gs; split; [done|]; eapply indexed_mono; [|exact Eg].
      intros a; cbn [outputs]; rewrite Eo'; exists (block_outputs a b (k + 1) txs); by rewrite app_assoc.
Qed.
End Transactions.

(** ** The storage is not read while the rest is pushed *)

Section Storage.
Context {FH : FastHash}.
Context (ndebug : bool) (r : list RawBlock).

Lemma push_outputs_storage b ti parent outs : forall k s,
  push_outputs b ti k outs parent (with_storage r s) =
  let '(gs, s') := push_outputs b ti k outs parent s in (gs, with_storage r s').
Proof.
  induction outs as [|o outs IH]; intros k s; cbn [push_outputs]; [done|].
  unfold insertKeyOutputToGlobalIndex; cbn [keyOutputsGlobalIndexes with_storage].
  set (e := match keyOutputsGlobalIndexes s !! _ with Some _ => _ | None => _ end).
  change (with_outputs (<[o_amount o := e]> (keyOutputsGlobalIndexes s)) (with_storage r s))
    with (with_storage r (with_outputs (<[o_amount o := e]> (keyOutputsGlobalIndexes s)) s)).
  rewrite IH; by destruct (push_outputs b ti (k + 1) outs parent _) as [gs s'].
Qed.

Lemma pushTransaction_storage c b ti parent s : pushTransaction ndebug c b ti parent (with_storage r s) =
  let! s' := pushTransaction ndebug c b ti parent s in Ok (with_storage r s').
Proof.
  unfold pushTransaction; destruct (assert_res _ _); [|done]; cbn [rbind]; rewrite push_outputs_storage.
  destruct (push_outputs _ _ _ _ _ s) as [gs s1]; cbn [ti_transactionHash].
  change (hasTransaction (getTransactionHash c) (with_storage r s1)) with (hasTransaction (getTransactionHash c) s1).
  change (find_transaction b ti (with_storage r s1)) with (find_transaction b ti s1).
  destruct (assert_res _ _); [|done]; cbn [rbind].
  destruct (hasTransaction _ s1 || _), (TransactionExtra.getPaymentIdFromTxExtra _); try done; simpl;
    by destruct (existsb _ _).
Qed.

Lemma push_transactions_storage b parent txs : forall k s,
  push_transactions ndebug txs b k parent (with_storage r s) =
  let! s' := push_transactions ndebug txs b k parent s in Ok (with_storage r s').
Proof.
  induction txs as [|c txs IH]; intros k s; cbn [push_transactions]; [done|].
  rewrite pushTransaction_storage; destruct (pushTransaction _ _ _ _ _ s); [|done]; cbn [rbind]; apply IH.
Qed.

Lemma add_spent_storage b parent images : forall s,
  add_spent ndebug images b parent (with_storage r s) =
  let! s' := add_spent ndebug images b parent s in Ok (with_storage r s').
Proof.
  induction images as [|x images IH]; intros s; cbn [add_spent]; [done|]; unfold addSpentKeyImage.
  assert (E : checkIfSpent x (u32 (b - 1)) (with_storage r s :: parent) = checkIfSpent x (u32 (b - 1)) (s :: parent)) by done.
  rewrite E; destruct (if ndebug then _ else _); [|done]; cbn [rbind]; cbn [spentKeyImages with_storage].
  destruct (spentKeyImages s !! x); [apply IH|].
  change (with_spent (<[x:=b]> (spentKeyImages s)) (with_storage r s))
    with (with_storage r (with_spent (<[x:=b]> (spentKeyImages s)) s)); apply IH.
Qed.
End Storage.

(** ** Spent key images *)

Lemma with_spent_wf b x s parent : wf_cache (s :: parent) -> in_segment s b -> spent (s :: parent) !! x = None ->
  wf_cache (with_spent (<[x := b]> (spentKeyImages s)) s :: parent).
Proof.
  intros (Ws & Hn & Wp) Hb Hx; cbn [spent] in Hx; apply lookup_union_None in Hx as [Hx1 Hx2].
  split; [|done]; destruct Ws as [W1 W2 W3 W4 W5 W6 W7 W8 W9 W10 W11]; split; try done.
  - intros y i; cbn [spentKeyImages with_spent]; rewrite lookup_insert_Some; intros [[<- <-]|[_ E]]; [done|by apply W4 in E].
  - cbn [spentKeyImages with_spent]; by apply map_disjoint_insert_l.
  - intros a e E; destruct (W6 a e E); by split.
Qed.

Lemma add_spent_spec ndebug b parent images : forall s,
  wf_cache (s :: parent) -> in_segment s b -> NoDup images ->
  Forall (fun x => spent (s :: parent) !! x = None) images ->
  exists m, add_spent ndebug images b parent s = Ok (with_spent m s) /\ wf_cache (with_spent m s :: parent) /\
    m = gset_to_gmap b (list_to_set images) ∪ spentKeyImages s.
Proof.
  induction images as [|x images IH]; intros s W Hb Hn Hx; cbn [add_spent].
  { exists (spentKeyImages s); destruct s; split; [done|]; split; [done|]; simpl.
    by rewrite gset_to_gmap_empty, (left_id_L ∅ (∪)). }
  apply NoDup_cons in Hn as [Hnx Hn]; apply Forall_cons in Hx as [Hx Hxs]; unfold addSpentKeyImage.
  assert (Ea : (if ndebug then Ok tt else
    let! sp := checkIfSpent x (u32 (b - 1)) (s :: parent) in assert_res ndebug (negb sp)) = Ok tt).
  { destruct ndebug; [done|]; rewrite checkIfSpent_chain, Hx by (done || apply wrap_range; lia); done. }
  rewrite Ea; cbn [rbind].
  assert (Ex : spentKeyImages s !! x = None) by (cbn [spent] in Hx; by apply lookup_union_None in Hx as [? _]).
  rewrite Ex; set (s1 := with_spent (<[x:=b]> (spentKeyImages s)) s).
  destruct (IH s1) as (m & E & W' & Em); [by apply with_spent_wf|done|done| |].
  - rewrite Forall_forall in Hxs |- *; intros y Hy; specialize (Hxs y Hy); cbn [spent] in *.
    apply lookup_union_None in Hxs as [H1 H2]; apply lookup_union_None; split; [|done].
    cbn [spentKeyImages with_spent s1]; rewrite lookup_insert_ne; [done|]; by intros ->.
  - exists m; split; [exact E|]; split; [exact W'|]; rewrite Em; cbn [spentKeyImages with_spent s1 list_to_set].
    rewrite gset_to_gmap_union_singleton; simpl; rewrite <- insert_union_l, insert_union_r; [done|].
    apply lookup_gset_to_gmap_None; by rewrite elem_of_list_to_set.
Qed.

(** ** The block *)

(** The totals before a block on top of the chain. *)
Definition totals (c : cache) : Z * Z * Z :=
  match last (infos c) with
  | Some i => (bi_cumulativeDifficulty i, bi_alreadyGeneratedCoins i, bi_alreadyGeneratedTransactions i)
  | None => (0, 0, 0)
  end.

Lemma at_index_last {A} (l : list A) : l <> [] -> at_index l (Z.of_nat (length l) - 1) = last l.
Proof.
  intros Hl; unfold at_index; rewrite last_lookup; destruct l as [|x l]; [done|].
  rewrite (proj2 (Z.ltb_ge _ _)) by (simpl; lia); f_equal; simpl; lia.
Qed.

Lemma previous_totals_spec ndebug s parent : wf_cache (s :: parent) ->
  previous_totals ndebug (height (s :: parent)) parent s = Ok (totals (s :: parent)).
Proof.
  intros (Ws & Hn & Wp); unfold previous_totals, totals; cbn [infos].
  destruct (last (blockInfos s)) as [i|] eqn:El.
  - by rewrite last_app, El.
  - apply last_None in El; rewrite El, app_nil_r; destruct parent as [|p parent]; [done|].
    apply Forall_cons in Hn as [Hp _].
    assert (Eh : height (s :: p :: parent) = height (p :: parent)) by (unfold height; cbn [infos]; by rewrite El, app_nil_r).
    rewrite Eh; destruct (wf_parent_top _ _ Wp Hp) as [Et Hpos].
    assert (Hb : height (p :: parent) < 2 ^ 32) by (rewrite (height_cons _ _ (proj1 Wp)); apply (proj1 Wp)).
    rewrite wrap_small by (unfold in_u; lia).
    unfold getCurrentCumulativeDifficulty_at, assert_res; rewrite Et.
    rewrite (bool_decide_eq_true_2 _ Hp), (proj2 (Z.leb_le _ _)), !orb_true_r by lia; cbn [rbind].
    assert (Ei : infos (p :: parent) <> []) by (intros E; unfold height in Hpos; rewrite E in Hpos; simpl in Hpos; lia).
    rewrite getAlreadyGeneratedCoins_chain, getAlreadyGeneratedTransactions_chain by (done || lia).
    unfold height at 2 3; rewrite (at_index_last _ Ei).
    pose proof (seg_start _ _ (proj1 Wp)) as Es; rewrite (height_cons _ _ (proj1 Wp)) in *.
    assert (Hlen : (0 < length (blockInfos p))%nat) by (destruct (blockInfos p); [done|simpl; lia]).
    rewrite (wrap_small 32 (end_index p - 1 - startIndex p)) by (unfold in_u, end_index, getBlockCount, height in *; lia).
    replace (end_index p - 1 - startIndex p) with (Z.of_nat (length (blockInfos p)) - 1) by (unfold end_index, getBlockCount; lia).
    rewrite (at_index_last _ Hp); cbn [infos]; rewrite last_app.
    destruct (last (blockInfos p)) as [i|] eqn:Ep; [done|]; by apply last_None in Ep.
Qed.

Section Block.
Context {FH : FastHash}.
Context (ndebug : bool).

(** What Core guarantees of a block before it is pushed. *)
Record push_ok (cb : CachedBlock) (base : CachedTransaction) (txs : list CachedTransaction)
    (st : TransactionValidatorState) (blockSize difficulty : Z) (s : segment) (parent : cache) : Prop := {
  push_index : Block.getBlockIndex (cb_block cb) = height (s :: parent);
  push_height : height (s :: parent) + 1 < 2 ^ 32;
  push_hash : cb_hash cb ∉ map bi_blockHash (blockInfos s);
  push_base : cached_of_Transaction (bt_baseTransaction (cb_block cb)) = Ok base;
  push_sizes : 0 < blockSize < 2 ^ 32 /\ 0 < difficulty;
  push_count : Z.of_nat (length txs) <= 2 ^ 16 - 1;
  push_out_count : Forall (fun c => Z.of_nat (length (tx_outputs (ct_transaction c))) <= 2 ^ 16 - 1) (base :: txs);
  push_tx_hashes : NoDup (map getTransactionHash (base :: txs) ++ map ti_transactionHash (transactions s));
  push_fresh : forall x, x ∈ CachedTransaction.spentKeyImages st -> spent (s :: parent) !! x = None;
  push_room : forall a, Z.of_nat (length (outputs a (s :: parent))) +
    Z.of_nat (length (block_outputs a (height (s :: parent)) 0 (base :: txs))) < 2 ^ 32 }.

Definition new_info (cb : CachedBlock) (txs : list CachedTransaction) (blockSize generatedCoins difficulty : Z)
    (c : cache) : CachedBlockInfo :=
  let '(d, coins, n) := totals c in
  mkBlockInfo (cb_hash cb) (bh_timestamp (cb_block cb)) (u64 (d + difficulty)) (u64 (coins + generatedCoins))
    (u64 (n + Z.of_nat (length txs) + 1)) blockSize.

(** The segment with the block's record and raw form, before its transactions. *)
Lemma extend_wf info raw s parent : wf_cache (s :: parent) -> height (s :: parent) + 1 < 2 ^ 32 ->
  bi_blockHash info ∉ map bi_blockHash (blockInfos s) ->
  wf_cache (with_storage (storage s ++ [raw]) (with_blockInfos (blockInfos s ++ [info]) s) :: parent).
Proof.
  intros (Ws & Hn & Wp) Hb Hh; rewrite (height_cons _ _ Ws) in Hb; set (s' := with_storage _ _).
  assert (Ee : end_index s' = end_index s + 1).
  { unfold end_index, getBlockCount, s'; simpl; rewrite length_app; simpl; lia. }
  assert (Hs : forall i, in_segment s i -> in_segment s' i) by (unfold in_segment; intros i; rewrite Ee; simpl; lia).
  split; [|done]; destruct Ws as [W1 W2 W3 W4 W5 W6 W7 W8 W9 W10 W11]; split; try done.
  - rewrite Ee; lia.
  - simpl; rewrite map_app; apply NoDup_app; split; [done|]; split; [|apply NoDup_singleton].
    intros x Hx ->%list_elem_of_singleton; done.
  - intros x i E; apply Hs, (W4 _ _ E).
  - intros a e E; destruct (W6 a e E) as [E1 E2 E3 E4 E5 E6]; split; try done.
    eapply Forall_impl; [exact E5|]; simpl; auto.
  - eapply Forall_impl; [exact W7|]; simpl; auto.
  - simpl; rewrite !length_app, W11; done.
Qed.

(** The part of doPushBlock that reads and writes the indexes. *)
Definition fill (images : list KeyImage) (all : list CachedTransaction) (b : Z) (parent : cache) (s : segment) : res segment :=
  let! s := add_spent ndebug images b parent s in push_transactions ndebug all b 0 parent s.

Lemma fill_storage images all b parent r s : fill images all b parent (with_storage r s) =
  let! s' := fill images all b parent s in Ok (with_storage r s').
Proof.
  unfold fill; rewrite add_spent_storage; destruct (add_spent _ _ _ _ s); [|done]; cbn [rbind].
  apply push_transactions_storage.
Qed.

Lemma fill_keeps_storage images all b parent s s' : fill images all b parent s = Ok s' -> storage s' = storage s.
Proof.
  intros E; pose proof (fill_storage images all b parent (storage s) s) as F.
  replace (with_storage (storage s) s) with s in F by (by destruct s); rewrite E in F; cbn [rbind] in F.
  injection F as F; by rewrite F.
Qed.

Lemma doPushBlock_fill cb base txs st blockSize coins difficulty raw s parent :
  wf_cache (s :: parent) -> push_ok cb base txs st blockSize difficulty s parent ->
  doPushBlock ndebug cb txs st blockSize coins difficulty raw (s :: parent) =
  let! s' := fill (elements (CachedTransaction.spentKeyImages st)) (base :: txs) (height (s :: parent)) parent
    (with_storage (storage s ++ [raw])
      (with_blockInfos (blockInfos s ++ [new_info cb txs blockSize coins difficulty (s :: parent)]) s)) in
  Ok (s' :: parent).
Proof.
  intros W [P1 P2 P3 P4 [P5 P5'] P6 P7 P8 P9 P10]; unfold doPushBlock.
  unfold assert_res at 1 2; rewrite !(proj2 (Z.gtb_lt _ _)), !orb_true_r by lia; cbn [rbind].
  rewrite P1, previous_totals_spec by done; cbn [rbind]; unfold new_info; destruct (totals (s :: parent)) as [[d n] t].
  assert (Eh : hasBlock (cb_hash cb) s = false).
  { apply not_true_iff_false; intros (i & Hin & E%bool_decide_eq_true)%existsb_exists; apply P3; rewrite <- E.
    by apply list_elem_of_fmap_2, list_elem_of_In. }
  rewrite Eh; unfold assert_res at 1; cbn [negb]; rewrite orb_true_r; cbn [rbind].
  rewrite (wrap_small 32 blockSize) by (unfold in_u; lia).
  set (s1 := with_blockInfos _ s); rewrite fill_storage.
  assert (Ei : (height (s :: parent) =? getBlockCount s1 + startIndex s1 - 1) = true).
  { apply Z.eqb_eq; rewrite (height_cons _ _ (proj1 W)); unfold end_index, getBlockCount, s1; simpl; rewrite length_app; simpl; lia. }
  unfold assert_res at 1; rewrite Ei, orb_true_r; cbn [rbind]; unfold fill at 1.
  destruct (fill (elements (CachedTransaction.spentKeyImages st)) (base :: txs) (height (s :: parent)) parent s1) as [sf|e] eqn:Ef.
  - pose proof (fill_keeps_storage _ _ _ _ _ _ Ef) as Es; unfold fill in Ef.
    destruct (add_spent _ _ _ _ s1) as [s2|]; [|done]; cbn [rbind] in *.
    unfold assert_res; rewrite (proj2 (Z.leb_le _ _) P6), orb_true_r; cbn [rbind]; rewrite P4; cbn [rbind].
    rewrite Ef; cbn [rbind]; by rewrite Es.
  - unfold fill in Ef; destruct (add_spent _ _ _ _ s1) as [s2|]; cbn [rbind] in *; [|congruence].
    unfold assert_res; rewrite (proj2 (Z.leb_le _ _) P6), orb_true_r; cbn [rbind]; rewrite P4; cbn [rbind].
    by rewrite Ef.
Qed.

Lemma doPushBlock_spec cb base txs st blockSize coins difficulty raw s parent :
  wf_cache (s :: parent) -> push_ok cb base txs st blockSize difficulty s parent ->
  let b := height (s :: parent) in
  exists s' ts, doPushBlock ndebug cb txs st blockSize coins difficulty raw (s :: parent) = Ok (s' :: parent) /\
    wf_cache (s' :: parent) /\
    infos (s' :: parent) = infos (s :: parent) ++ [new_info cb txs blockSize coins difficulty (s :: parent)] /\
    raw_blocks (s' :: parent) = raw_blocks (s :: parent) ++ [raw] /\
    spent (s' :: parent) = gset_to_gmap b (CachedTransaction.spentKeyImages st) ∪ spent (s :: parent) /\
    (forall a, outputs a (s' :: parent) = outputs a (s :: parent) ++ block_outputs a b 0 (base :: txs)) /\
    chain_transactions (s' :: parent) = chain_transactions (s :: parent) ++ ts /\
    tx_infos b 0 (s' :: parent) (base :: txs) ts.
Proof.
  intros W P b; rewrite (doPushBlock_fill _ _ _ _ _ _ _ _ _ _ W P); unfold fill; fold b.
  set (info := new_info cb txs blockSize coins difficulty (s :: parent)).
  set (s1 := with_storage _ _).
  assert (W1 : wf_cache (s1 :: parent)).
  { apply extend_wf; [done|apply P|]; unfold info, new_info; destruct (totals _) as [[? ?] ?]; apply P. }
  assert (Eend : end_index s1 = b + 1).
  { unfold b; rewrite (height_cons _ _ (proj1 W)); unfold end_index, getBlockCount, s1; simpl; rewrite length_app; simpl; lia. }
  assert (Hstart : startIndex s1 <= b).
  { change (startIndex s1) with (startIndex s); unfold b; rewrite (height_cons _ _ (proj1 W)); unfold end_index, getBlockCount; lia. }
  destruct (add_spent_spec ndebug b parent (elements (CachedTransaction.spentKeyImages st)) s1) as (m & E & W2 & Em).
  { done. }
  { unfold in_segment; lia. }
  { apply NoDup_elements. }
  { apply Forall_forall; intros x Hx; apply elem_of_elements in Hx; exact (push_fresh _ _ _ _ _ _ _ _ P x Hx). }
  rewrite E; cbn [rbind]; set (s2 := with_spent m s1) in *.
  destruct (push_transactions_spec ndebug b parent (base :: txs) 0 s2 W2) as (ts & mo & E' & W3 & Eo & Et).
  { done. }
  { change (end_index s2) with (end_index s1); lia. }
  { lia. }
  { pose proof (push_count _ _ _ _ _ _ _ _ P); cbn [length]; lia. }
  { apply P. }
  { apply (push_tx_hashes _ _ _ _ _ _ _ _ P). }
  { eapply Forall_impl; [exact (seg_transactions _ _ (proj1 W))|]; intros t Ht Eb; exfalso.
    unfold in_segment in Ht; unfold b in Eb; rewrite (height_cons _ _ (proj1 W)) in Eb; lia. }
  { apply (push_room _ _ _ _ _ _ _ _ P). }
  rewrite E'; cbn [rbind]; eexists _, ts; split; [reflexivity|]; split; [exact W3|].
  split; [cbn; by rewrite app_assoc|]; split; [cbn; by rewrite app_assoc|]; split.
  { cbn [spent]; unfold pushed_all; cbn [spentKeyImages s2 with_spent]; rewrite Em.
    rewrite list_to_set_elements_L, <- (assoc_L (∪)); done. }
  split; [intros a; cbn [outputs]; rewrite Eo; apply app_assoc|]; split; [cbn; by rewrite app_assoc|exact Et].
Qed.

(** C18. Pushing a block on a well-formed chain of segments returns, keeps the
    chain well formed and appends to the flat chain: one block record with the
    running totals, the outputs of every amount in order with consecutive
    global indexes, the transaction records and the spent key images; all
    earlier answers stay the same. *)
Theorem cache_push_refines cb base txs st blockSize coins difficulty raw s parent :
  wf_cache (s :: parent) -> push_ok cb base txs st blockSize difficulty s parent ->
  let b := height (s :: parent) in
  exists s', doPushBlock ndebug cb txs st blockSize coins difficulty raw (s :: parent) = Ok (s' :: parent) /\
    wf_cache (s' :: parent) /\
    infos (s' :: parent) = infos (s :: parent) ++ [new_info cb txs blockSize coins difficulty (s :: parent)] /\
    (forall a, outputs a (s' :: parent) = outputs a (s :: parent) ++ block_outputs a b 0 (base :: txs)) /\
    (exists ts, chain_transactions (s' :: parent) = chain_transactions (s :: parent) ++ ts /\
       tx_infos b 0 (s' :: parent) (base :: txs) ts) /\
    (forall x j, 0 <= j -> checkIfSpent x j (s' :: parent) =
       if bool_decide (x ∈ CachedTransaction.spentKeyImages st) then Ok (b <=? j) else checkIfSpent x j (s :: parent)) /\
    (getBlockHash b (s' :: parent) = Ok (cb_hash cb) /\ getBlockByIndex b (s' :: parent) = Ok raw /\
     getAlreadyGeneratedCoins b (s' :: parent) = Ok (u64 ((totals (s :: parent)).1.2 + coins))) /\
    (forall j, 0 <= j < b -> getBlockHash j (s' :: parent) = getBlockHash j (s :: parent) /\
       getBlockByIndex j (s' :: parent) = getBlockByIndex j (s :: parent) /\
       getAlreadyGeneratedCoins j (s' :: parent) = getAlreadyGeneratedCoins j (s :: parent)).
Proof.
  intros W P b; destruct (doPushBlock_spec cb base txs st blockSize coins difficulty raw s parent W P)
    as (s' & ts & E & W' & Ei & Er & Es & Eo & Et & Ht); fold b in Es, Eo, Ht.
  assert (Hb : 0 <= b) by (unfold b, height; lia).
  assert (El : Z.of_nat (length (infos (s :: parent))) = b) by done.
  assert (Elr : Z.of_nat (length (raw_blocks (s :: parent))) = b) by (by rewrite raw_blocks_length).
  exists s'; split; [done|]; split; [done|]; split; [done|]; split; [done|]; split; [by exists ts|]; split; [|split].
  - intros x j Hj; rewrite !checkIfSpent_chain, Es by done; destruct (bool_decide _) eqn:Ex.
    + apply bool_decide_eq_true in Ex; rewrite (lookup_union_Some_l _ _ _ b); [done|].
      by apply lookup_gset_to_gmap_Some.
    + apply bool_decide_eq_false in Ex; rewrite lookup_union_r; [done|]; by apply lookup_gset_to_gmap_None.
  - rewrite getBlockHash_chain, getBlockByIndex_chain, getAlreadyGeneratedCoins_chain, Ei, Er, !at_index_app, El, Elr by done.
    rewrite Z.ltb_irrefl, Z.sub_diag; unfold new_info; destruct (totals (s :: parent)) as [[d n] t]; done.
  - intros j Hj; rewrite !getBlockHash_chain, !getBlockByIndex_chain, !getAlreadyGeneratedCoins_chain by (done || lia).
    rewrite Ei, Er, !at_index_app, El, Elr, (proj2 (Z.ltb_lt _ _)) by lia; done.
Qed.
End Block.

(** ** Witness: the genesis block *)

Lemma new_segment_wf : wf_cache [new_segment 0].
Proof.
  split; [|by split; [constructor|]]; split; try done; try constructor; try constructor.
Qed.

Definition sample_base : Transaction :=
  mkTransaction (mkPrefix 1 40 [InBase 0] [mkOutput 70 (OutKey (repeat 1 32)); mkOutput 30 (OutKey (repeat 2 32))] []) [].

Definition sample_block : CachedBlock :=
  mkCachedBlock (mkBlockTemplate (mkBlockHeader 1 0 0 1500000000 (repeat 0 32))
    (mkParentBlock 0 0 (repeat 0 32) 1 [] (mkPrefix 1 0 [] [] []) []) sample_base []) (repeat 9 32).

Lemma sample_push_ok : exists base,
  push_ok (FH := TreeHash.TreeHash.weak_FastHash) sample_block base [] (mkValidatorState ∅) 90 1 (new_segment 0) [].
Proof.
  destruct (cached_of_Transaction sample_base) as [base|] eqn:E; [|by vm_compute in E].
  exists base; vm_compute in E; injection E as <-; split.
  - reflexivity.
  - vm_compute; reflexivity.
  - apply not_elem_of_nil.
  - vm_compute; reflexivity.
  - lia.
  - vm_compute; congruence.
  - constructor; [vm_compute; congruence|constructor].
  - apply NoDup_singleton.
  - intros x _; cbn [spent]; rewrite (right_id_L ∅ (∪)); apply (lookup_empty (M := gmap KeyImage)).
  - intros a; cbn [block_outputs app]; rewrite app_nil_r.
    pose proof (new_outputs_length a (height [new_segment 0]) 0 0 (tx_outputs sample_base)) as Hl.
    change (length (tx_outputs sample_base)) with 2%nat in Hl.
    change (length (outputs a [new_segment 0])) with O; simpl ct_transaction; simpl tx_outputs in *; lia.
Qed.

Lemma cache_push_refines_witness : exists s',
  doPushBlock (FH := TreeHash.TreeHash.weak_FastHash) false sample_block [] (mkValidatorState ∅) 90 100 1 (mkRawBlock [1] []) [new_segment 0]
    = Ok [s'] /\ wf_cache [s'] /\ getAlreadyGeneratedCoins 0 [s'] = Ok 100.
Proof.
  destruct sample_push_ok as [base P].
  destruct (cache_push_refines (FH := TreeHash.TreeHash.weak_FastHash) false sample_block base [] (mkValidatorState ∅) 90 100 1
    (mkRawBlock [1] []) (new_segment 0) [] new_segment_wf P) as (s' & E & W & _ & _ & _ & _ & (_ & _ & Ec) & _).
  exists s'; split; [exact E|]; split; [exact W|exact Ec].
Defined.
End ChainPush.
