(* ===== verification/Validation.v ===== *)
(** Validation of transactions and blocks: the functions of src/src/CryptoNoteCore/Core.cpp
    that decide what enters the memory pool and the chain.

    An error code is an [Err] value inside; the outer [res] is that of [BlockchainCache]:
    exceptions and undefined behaviour.  The clock, the checkpoints and the cache of the chain
    are arguments. *)

From S2P Require Import Prelude.
From S2P Require Import Config.
From S2P Require Import Types.
From S2P Require Import Varint.
From S2P Require Import Keccak.
From S2P Require Import FormatUtils.
From S2P Require Import Currency.
From S2P Require Import Serialization.
From S2P Require Import Block.
From S2P Require Import Crypto.
From S2P Require Import CachedTransaction.
From S2P Require Import TransactionPool.
From S2P Require Import ChainRules.
From S2P Require Import BlockchainCache.

Module Validation.

Import parameters Varint FormatUtils Currency Serialization Crypto CachedTransaction TransactionPool BlockchainCache.

(** The codes of TransactionValidationError, BlockValidationError and AddBlockErrorCode. *)
Inductive validation_error :=
  | EMPTY_INPUTS | EXTRA_TOO_LARGE | OUTPUT_ZERO_AMOUNT | OUTPUT_INVALID_KEY | OUTPUTS_AMOUNT_OVERFLOW
  | INPUT_IDENTICAL_KEYIMAGES | INPUT_EMPTY_OUTPUT_USAGE | INPUT_INVALID_DOMAIN_KEYIMAGES
  | INPUT_IDENTICAL_OUTPUT_INDEXES | INPUT_UNKNOWN_TYPE | INPUTS_AMOUNT_OVERFLOW | WRONG_AMOUNT
  | INPUT_KEYIMAGE_ALREADY_SPENT | INPUT_INVALID_GLOBAL_INDEX | INPUT_SPEND_LOCKED_OUT
  | INPUT_INVALID_SIGNATURES_COUNT | INPUT_INVALID_SIGNATURES | INVALID_MIXIN
  | INPUT_WRONG_COUNT | INPUT_UNEXPECTED_TYPE | BASE_INPUT_WRONG_BLOCK_INDEX | WRONG_TRANSACTION_UNLOCK_TIME
  | BASE_INVALID_SIGNATURES_COUNT
  | WRONG_VERSION | PARENT_BLOCK_WRONG_VERSION | PARENT_BLOCK_SIZE_TOO_BIG | TIMESTAMP_TOO_FAR_IN_FUTURE
  | TIMESTAMP_TOO_FAR_IN_PAST | CUMULATIVE_BLOCK_SIZE_TOO_BIG | DIFFICULTY_OVERHEAD | BLOCK_REWARD_MISMATCH
  | CHECKPOINT_BLOCK_HASH_MISMATCH | PROOF_OF_WORK_TOO_WEAK
  | ALREADY_EXISTS | REJECTED_AS_ORPHANED | DESERIALIZATION_FAILED.

Abbreviation check A := (res (result validation_error A)).

Definition reject {A} (e : validation_error) : check A := Ok (Err e).
Definition accept {A} (a : A) : check A := Ok (Ok a).

Definition cbind {A B} (m : check A) (k : A -> check B) : check B :=
  match m with Ok (Ok a) => k a | Ok (Err e) => Ok (Err e) | Err e => Err e end.

Notation "'let?' x := m 'in' k" := (cbind m (fun x => k))
  (at level 200, x pattern, m at level 100, k at level 200) : result_scope.

Section Semantic.
Context (ndebug : bool).

(** ** validateSemantic *)

(** The loop over the outputs: summaryOutputAmount.  Every target is a KeyOutput. *)
Fixpoint check_outputs (outputs : list TransactionOutput) (summaryOutputAmount : Z) : check Z :=
  match outputs with
  | [] => accept summaryOutputAmount
  | output :: outputs =>
    if o_amount output =? 0 then reject OUTPUT_ZERO_AMOUNT
    else
      let! valid := of_option Undefined (match o_target output with OutKey key => check_key key end) in
      if negb valid then reject OUTPUT_INVALID_KEY
      else if 2 ^ 64 - 1 - o_amount output <? summaryOutputAmount then reject OUTPUTS_AMOUNT_OVERFLOW
      else check_outputs outputs (u64 (summaryOutputAmount + o_amount output))
  end.

(** The identity and the group order, as the code writes them. *)
Definition identity_image : KeyImage := 1 :: repeat 0 31.
Definition order_scalar : KeyImage :=
  [0xed; 0xd3; 0xf5; 0x5c; 0x1a; 0x63; 0x12; 0x58; 0xd6; 0x9c; 0xf7; 0xa2; 0xde; 0xf9; 0xde; 0x14;
   0; 0; 0; 0; 0; 0; 0; 0; 0; 0; 0; 0; 0; 0; 0; 0x10].

(** The loop over the inputs; [ki] is the set of key images seen. *)
Fixpoint check_inputs (inputs : list TransactionInput) (ki : gset KeyImage) (summaryInputAmount : Z) : check Z :=
  match inputs with
  | [] => accept summaryInputAmount
  | InBase _ :: _ => reject INPUT_UNKNOWN_TYPE
  | InKey k :: inputs =>
    let amount := ki_amount k in
    if bool_decide (ki_keyImage k ∈ ki) then reject INPUT_IDENTICAL_KEYIMAGES
    else if bool_decide (ki_outputIndexes k = []) then reject INPUT_EMPTY_OUTPUT_USAGE
    else
      let! multiple := of_option Undefined (scalarmultKey (ki_keyImage k) order_scalar) in
      if negb (bool_decide (multiple = identity_image)) then reject INPUT_INVALID_DOMAIN_KEYIMAGES
      else if existsb (Z.eqb 0) (tail (ki_outputIndexes k)) then reject INPUT_IDENTICAL_OUTPUT_INDEXES
      else if 2 ^ 64 - 1 - amount <? summaryInputAmount then reject INPUTS_AMOUNT_OVERFLOW
      else check_inputs inputs ({[ki_keyImage k]} ∪ ki) (u64 (summaryInputAmount + amount))
  end.

(** The fee on success. *)
Definition validateSemantic (transaction : Transaction) (blockIndex : Z) : check Z :=
  if bool_decide (tx_inputs transaction = []) then reject EMPTY_INPUTS
  else if (blockIndex >=? MAX_EXTRA_SIZE_V2_HEIGHT + CRYPTONOTE_MINED_MONEY_UNLOCK_WINDOW) &&
          (Z.of_nat (length (tx_extra transaction)) >=? MAX_EXTRA_SIZE_V2)
  then reject EXTRA_TOO_LARGE
  else
    let? summaryOutputAmount := check_outputs (tx_outputs transaction) 0 in
    let? summaryInputAmount := check_inputs (tx_inputs transaction) ∅ 0 in
    if summaryOutputAmount >? summaryInputAmount then reject WRONG_AMOUNT
    else
      let! _ := assert_res ndebug (length (tx_signatures transaction) =? length (tx_inputs transaction))%nat in
      accept (u64 (summaryInputAmount - summaryOutputAmount)).
End Semantic.

(** ** validateTransaction *)

Section Transactions.
Context {FH : FastHash}.
Context (ndebug : bool) (currency : Currency) (checkpoints : list (Z * Hash)) (now : Z).

(** What an input outside the checkpoint zone has to pass.  The first index is read whether
    or not the assertion that there is one is compiled in. *)
Definition check_ring (c : CachedTransaction) (cache : cache) (blockIndex : Z) (k : KeyInput) (inputIndex : Z)
  : check unit :=
  let! spent := checkIfSpent (ki_keyImage k) blockIndex cache in
  if spent then reject INPUT_KEYIMAGE_ALREADY_SPENT
  else
    let! _ := assert_res false (bool_decide (ki_outputIndexes k <> [])) in
    let globalIndexes := relativeOutputOffsetsToAbsolute (ki_outputIndexes k) in
    let! r := extractKeyOutputKeys ndebug currency now (ki_amount k) blockIndex globalIndexes cache in
    let '(result, outputKeys) := r in
    match result with
    | INVALID_GLOBAL_INDEX => reject INPUT_INVALID_GLOBAL_INDEX
    | OUTPUT_LOCKED => reject INPUT_SPEND_LOCKED_OUT
    | SUCCESS =>
      let! signatures := of_option Undefined (at_index (tx_signatures (ct_transaction c)) inputIndex) in
      if (blockIndex >=? TRANSACTION_SIGNATURE_COUNT_VALIDATION_HEIGHT) &&
         negb (length outputKeys =? length signatures)%nat
      then reject INPUT_INVALID_SIGNATURES_COUNT
      else
        let! valid := of_option Undefined
          (checkRingSignature (getTransactionPrefixHash c) (ki_keyImage k) outputKeys signatures) in
        if negb valid then reject INPUT_INVALID_SIGNATURES else accept tt
    end.

(** The loop over the inputs; the set is state.spentKeyImages. *)
Fixpoint check_spends (c : CachedTransaction) (cache : cache) (blockIndex : Z) (inputs : list TransactionInput)
    (inputIndex : Z) (state : gset KeyImage) : check (gset KeyImage) :=
  match inputs with
  | [] => accept state
  | InBase _ :: _ =>
    let! _ := assert_res ndebug false in reject INPUT_UNKNOWN_TYPE
  | InKey k :: inputs =>
    if bool_decide (ki_keyImage k ∈ state) then reject INPUT_KEYIMAGE_ALREADY_SPENT
    else
      let? _ := (if negb (Checkpoints.isInCheckpointZone (u32 (blockIndex + 1)) checkpoints)
                 then check_ring c cache blockIndex k inputIndex else accept tt) in
      check_spends c cache blockIndex inputs (inputIndex + 1) ({[ki_keyImage k]} ∪ state)
  end.

(** The new state and the fee.  On an error the caller discards the state. *)
Definition validateTransaction (c : CachedTransaction) (state : TransactionValidatorState) (cache : cache)
    (blockIndex : Z) : check (TransactionValidatorState * Z) :=
  let? fee := validateSemantic ndebug (ct_transaction c) blockIndex in
  let? images := check_spends c cache blockIndex (tx_inputs (ct_transaction c)) 0 (CachedTransaction.spentKeyImages state) in
  accept (mkValidatorState images, fee).

(** ** validateBlock *)

(** Common::medianValue on a vector of uint64_t. *)
Definition medianValue (v : list Z) : Z :=
  match v with
  | [] => 0
  | [x] => x
  | _ =>
    let n := (length v / 2)%nat in
    let v := merge_sort Z.le v in
    if Nat.odd (length v) then nth n v 0 else u64 (nth (n - 1) v 0 + nth n v 0) / 2
  end.

(** CachedBlock::getParentBlockBinaryArray(false) *)
Definition getParentBlockBinaryArray (b : BlockTemplate) : res BinaryArray :=
  match Block.put_ParentBlock false false (bt_parentBlock b) (bh_timestamp b) (bh_nonce b) with
  | Ok ba => Ok ba
  | Err _ => Err RuntimeError
  end.

Definition check_version (d : UpgradeManager.detectors) (b : BlockTemplate) : check unit :=
  if negb (UpgradeManager.getBlockMajorVersion (Block.getBlockIndex b) d =? bh_majorVersion b) then reject WRONG_VERSION
  else if bh_majorVersion b >=? BLOCK_MAJOR_VERSION_2 then
    if (bh_majorVersion b =? BLOCK_MAJOR_VERSION_2) && (pb_majorVersion (bt_parentBlock b) >? BLOCK_MAJOR_VERSION_1)
    then reject PARENT_BLOCK_WRONG_VERSION
    else
      let! ba := getParentBlockBinaryArray b in
      if Z.of_nat (length ba) >? 2048 then reject PARENT_BLOCK_SIZE_TOO_BIG else accept tt
  else accept tt.

Definition check_timestamp (b : BlockTemplate) (cache : cache) (previousBlockIndex : Z) : check unit :=
  if bh_timestamp b >? u64 (now + blockFutureTimeLimit currency (u32 (previousBlockIndex + 1)))
  then reject TIMESTAMP_TOO_FAR_IN_FUTURE
  else
    let window := timestampCheckWindow currency (u32 (previousBlockIndex + 1)) in
    let! timestamps := getLastTimestamps ndebug window previousBlockIndex true cache in
    if (Z.of_nat (length timestamps) >=? window) && (bh_timestamp b <? medianValue timestamps)
    then reject TIMESTAMP_TOO_FAR_IN_PAST else accept tt.

Definition check_base (b : BlockTemplate) (previousBlockIndex : Z) : check unit :=
  match tx_inputs (bt_baseTransaction b) with
  | [InBase blockIndex] =>
    if negb (blockIndex =? u32 (previousBlockIndex + 1)) then reject BASE_INPUT_WRONG_BLOCK_INDEX
    else if negb (tx_unlockTime (bt_baseTransaction b) =? u32 (previousBlockIndex + 1 + m_minedMoneyUnlockWindow currency))
    then reject WRONG_TRANSACTION_UNLOCK_TIME
    else if (Block.getBlockIndex b >=? TRANSACTION_SIGNATURE_COUNT_VALIDATION_HEIGHT) &&
            negb (bool_decide (tx_signatures (bt_baseTransaction b) = []))
    then reject BASE_INVALID_SIGNATURES_COUNT
    else accept tt
  | [_] => reject INPUT_UNEXPECTED_TYPE
  | _ => reject INPUT_WRONG_COUNT
  end.

(** minerReward on success; the loop over the outputs is that of validateSemantic. *)
Definition validateBlock (d : UpgradeManager.detectors) (b : BlockTemplate) (s : segment) (parent : cache)
  : check Z :=
  let! previousBlockIndex := getBlockIndex (bh_previousBlockHash b) s in
  let? _ := check_version d b in
  let? _ := check_timestamp b (s :: parent) previousBlockIndex in
  let? _ := check_base b previousBlockIndex in
  check_outputs (tx_outputs (bt_baseTransaction b)) 0.

(** ** addBlock: what a block has to pass before it is attached *)

(** extractTransactions.  [None] where the code returns false; every exception of the
    constructor of CachedTransaction is a std::runtime_error. *)
Fixpoint extractTransactions (rawTransactions : list BinaryArray) (cumulativeSize : Z)
  : option (list CachedTransaction * Z) :=
  match rawTransactions with
  | [] => Some ([], cumulativeSize)
  | raw :: rest =>
    if Z.of_nat (length raw) >? m_maxTxSize currency then None
    else
      match cached_of_BinaryArray raw with
      | Err _ => None
      | Ok c =>
        '(cs, size) ← extractTransactions rest (u64 (cumulativeSize + Z.of_nat (length raw)));
        Some (c :: cs, size)
      end
  end.

Definition getObjectBinarySize (transaction : Transaction) : Z :=
  match put_Transaction transaction with Ok ba => Z.of_nat (length ba) | Err _ => 2 ^ 64 - 1 end.

(** The loop over the transactions: the validator state and cumulativeFee. *)
Fixpoint validate_all (cs : list CachedTransaction) (cache : cache) (previousBlockIndex : Z)
    (state : TransactionValidatorState) (cumulativeFee : Z) : check (TransactionValidatorState * Z) :=
  match cs with
  | [] => accept (state, cumulativeFee)
  | c :: cs =>
    let? r := validateTransaction c state cache previousBlockIndex in
    validate_all cs cache previousBlockIndex r.1 (u64 (cumulativeFee + r.2))
  end.

(** Mixins::validate at the height of the block, or at the height before the window. *)
Definition check_mixins (cs : list CachedTransaction) (blockIndex : Z) : check unit :=
  let mixinChangeWindow :=
    if blockIndex >? CRYPTONOTE_MINED_MONEY_UNLOCK_WINDOW
    then u32 (blockIndex - CRYPTONOTE_MINED_MONEY_UNLOCK_WINDOW) else blockIndex in
  match validate_mixins cs blockIndex, validate_mixins cs mixinChangeWindow with
  | Err _, Err _ => reject INVALID_MIXIN
  | _, _ => accept tt
  end.

(** What addBlock hands to pushBlock. *)
Record ValidatedBlock := mkValidated {
  vb_transactions : list CachedTransaction;
  vb_validatorState : TransactionValidatorState;
  vb_cumulativeBlockSize : Z;
  vb_emissionChange : Z;
  vb_currentDifficulty : Z }.

Context (cn_slow_hash_v0 cn_lite_slow_hash_v1 cn_turtle_lite_slow_hash_v2 : list Z -> Hash) (genesisBlockHash : Hash).

(** From the search for the segment [s] that has the previous block to the proof of work. *)
Definition addBlock_checks (d : UpgradeManager.detectors) (cachedBlock : CachedBlock) (rawBlock : RawBlock)
    (s : segment) (parent : cache) : check ValidatedBlock :=
  let b := cb_block cachedBlock in
  let blockIndex := Block.getBlockIndex b in
  match extractTransactions (rb_transactions rawBlock) 0 with
  | None => reject DESERIALIZATION_FAILED
  | Some (txs, cumulativeSize) =>
    let coinbaseTransactionSize := getObjectBinarySize (bt_baseTransaction b) in
    let! _ := assert_res ndebug (coinbaseTransactionSize <? 2 ^ 64 - 1) in
    let cumulativeBlockSize := u64 (coinbaseTransactionSize + cumulativeSize) in
    let! previousBlockIndex := getBlockIndex (bh_previousBlockHash b) s in
    if cumulativeBlockSize >? maxBlockCumulativeSize currency (u32 (previousBlockIndex + 1))
    then reject CUMULATIVE_BLOCK_SIZE_TOO_BIG
    else
      let? minerReward := validateBlock d b s parent in
      let! currentDifficulty := getDifficultyForNextBlock ndebug currency previousBlockIndex (s :: parent) in
      if currentDifficulty =? 0 then reject DIFFICULTY_OVERHEAD
      else
        let? _ := check_mixins txs blockIndex in
        let? r := validate_all txs (s :: parent) previousBlockIndex (mkValidatorState ∅) 0 in
        let! alreadyGeneratedCoins := getAlreadyGeneratedCoins previousBlockIndex (s :: parent) in
        let! lastBlocksSizes :=
          getLastBlocksSizes ndebug (m_rewardBlocksWindow currency) previousBlockIndex true (s :: parent) in
        let! blockReward := of_option Undefined
          (getBlockReward ndebug currency (bh_majorVersion b) (medianValue lastBlocksSizes) cumulativeBlockSize
             alreadyGeneratedCoins r.2) in
        match blockReward with
        | None => reject CUMULATIVE_BLOCK_SIZE_TOO_BIG
        | Some (reward, emissionChange) =>
          if negb (minerReward =? reward) then reject BLOCK_REWARD_MISMATCH
          else
            let? _ :=
              (if Checkpoints.isInCheckpointZone blockIndex checkpoints then
                 if (Checkpoints.checkBlock blockIndex (cb_hash cachedBlock) checkpoints).1 then accept tt
                 else reject CHECKPOINT_BLOCK_HASH_MISMATCH
               else
                 match Block.checkProofOfWork cn_slow_hash_v0 cn_lite_slow_hash_v1 cn_turtle_lite_slow_hash_v2
                         genesisBlockHash b currentDifficulty with
                 | Ok true => accept tt
                 | Ok false => reject PROOF_OF_WORK_TOO_WEAK
                 | Err _ => Err RuntimeError
                 end) in
            accept (mkValidated txs r.1 cumulativeBlockSize emissionChange currentDifficulty)
        end
  end.

(** ** Entering the pool *)

Definition getMaximumTransactionAllowedSize (blockSizeMedian : Z) : res Z :=
  let! _ := assert_res ndebug (u64 (blockSizeMedian * 2) >? m_minerTxBlobReservedSize currency) in
  Ok (u64 (u64 (blockSizeMedian * 2) - m_minerTxBlobReservedSize currency)).

(** The main chain is [s :: parent]; [Some] of the validator state where the code returns true. *)
Definition isTransactionValidForPool (blockMedianSize : Z) (c : CachedTransaction) (s : segment) (parent : cache)
  : res (option TransactionValidatorState) :=
  let! top := getTopBlockIndex ndebug s in
  match validate_mixins [c] top with
  | Err _ => Ok None
  | Ok _ =>
    if Z.of_nat (length (tx_extra (ct_transaction c))) >=? MAX_EXTRA_SIZE_V2 then Ok None
    else
      let! r := validateTransaction c (mkValidatorState ∅) (s :: parent) top in
      match r with
      | Err _ => Ok None
      | Ok (validatorState, fee) =>
        let! maxTransactionSize := getMaximumTransactionAllowedSize blockMedianSize in
        let size := blobSize c in
        if size >? maxTransactionSize then Ok None
        else
          let isFusion := (fee =? 0) && isFusionTransaction_tx currency (ct_transaction c) size top in
          if negb isFusion && (fee <? m_mininumFee currency) then Ok None else Ok (Some validatorState)
      end
  end.

(** The overload that takes a CachedTransaction. *)
Definition addTransactionToPool (blockMedianSize : Z) (c : CachedTransaction) (s : segment) (parent : cache)
    (w : TransactionPoolCleanWrapper) : res (bool * TransactionPoolCleanWrapper) :=
  let! valid := isTransactionValidForPool blockMedianSize c s parent in
  match valid with
  | None => Ok (false, w)
  | Some validatorState => Ok (wrapper_pushTransaction now c validatorState w)
  end.

(** The overload that takes the bytes. *)
Definition addTransactionToPool_bytes (blockMedianSize : Z) (ba : BinaryArray) (s : segment) (parent : cache)
    (w : TransactionPoolCleanWrapper) : res (bool * TransactionPoolCleanWrapper) :=
  match fromBinaryArray get_Transaction ba with
  | Err _ => Ok (false, w)
  | Ok transaction =>
    match cached_of_Transaction transaction with
    | Err _ => Err RuntimeError
    | Ok c => addTransactionToPool blockMedianSize c s parent w
    end
  end.

(** TransactionPoolCleanWrapper forwards removeTransaction to the pool. *)
Definition wrapper_removeTransaction (hash : Hash) (w : TransactionPoolCleanWrapper)
  : res TransactionPoolCleanWrapper :=
  let! r := of_option Undefined (removeTransaction ndebug hash (transactionPool w)) in
  Ok (mkWrapper r.2 (recentlyDeletedTransactions w) (timeout w)).

(** actualizePoolTransactions: every transaction is taken out and offered again. *)
Fixpoint actualize_loop (blockMedianSize : Z) (hashes : list Hash) (s : segment) (parent : cache)
    (w : TransactionPoolCleanWrapper) : res TransactionPoolCleanWrapper :=
  match hashes with
  | [] => Ok w
  | hash :: hashes =>
    let! tx := of_option Undefined (getTransaction hash (transactionPool w)) in
    let! w := wrapper_removeTransaction hash w in
    let! r := addTransactionToPool blockMedianSize tx s parent w in
    actualize_loop blockMedianSize hashes s parent r.2
  end.

Definition actualizePoolTransactions (blockMedianSize : Z) (s : segment) (parent : cache)
    (w : TransactionPoolCleanWrapper) : res TransactionPoolCleanWrapper :=
  actualize_loop blockMedianSize (TransactionPool.getTransactionHashes (transactionPool w)) s parent w.

(** actualizePoolTransactionsLite: what the new block spends or the new median excludes goes. *)
Fixpoint actualize_lite_loop (blockMedianSize : Z) (validatorState : TransactionValidatorState) (hashes : list Hash)
    (w : TransactionPoolCleanWrapper) : res TransactionPoolCleanWrapper :=
  match hashes with
  | [] => Ok w
  | hash :: hashes =>
    let! tx := of_option Undefined (getTransaction hash (transactionPool w)) in
    let! txState := of_option Undefined (extractSpentOutputs ndebug tx) in
    let! drop :=
      (if hasIntersections validatorState txState then Ok true
       else let! maxSize := getMaximumTransactionAllowedSize blockMedianSize in Ok (blobSize tx >? maxSize)) in
    let! w := (if drop : bool then wrapper_removeTransaction hash w else Ok w) in
    actualize_lite_loop blockMedianSize validatorState hashes w
  end.

Definition actualizePoolTransactionsLite (blockMedianSize : Z) (validatorState : TransactionValidatorState)
    (w : TransactionPoolCleanWrapper) : res TransactionPoolCleanWrapper :=
  actualize_lite_loop blockMedianSize validatorState (TransactionPool.getTransactionHashes (transactionPool w)) w.

(** updateBlockMedianSize, for the main chain [s :: parent]. *)
Definition updateBlockMedianSize (d : UpgradeManager.detectors) (s : segment) (parent : cache) : res Z :=
  let! top := getTopBlockIndex ndebug s in
  let zone := blockGrantedFullRewardZoneByBlockVersion currency (UpgradeManager.getBlockMajorVersion (u32 (top + 1)) d) in
  let! lastBlockSizes := getLastBlocksSizes ndebug (m_rewardBlocksWindow currency) top false (s :: parent) in
  Ok (Z.max (medianValue lastBlockSizes) zone).
End Transactions.

End Validation.
