(* ===== verification/ValidationSpec.v ===== *)
(** What the validation of Core ([Validation]) accepts: transactions whose key images are distinct
    points of the prime-order subgroup that the chain has not spent, whose rings are outputs of
    the chain with a valid ring signature, and blocks that create as much as they should. *)

From S2P Require Import Prelude.
From S2P Require Import Config.
From S2P Require Import Types.
From S2P Require Import Keccak.
From S2P Require Import FormatUtils.
From S2P Require Import Currency.
From S2P Require Import TreeHash.
From S2P Require Import Serialization.
From S2P Require Import Block.
From S2P Require Import Group.
From S2P Require Import Curve.
From S2P Require Import Edwards.
From S2P Require Import PointCodec.
From S2P Require Import ScalarMult.
From S2P Require Import BasePoint.
From S2P Require Import Scalar.
From S2P Require Import Crypto.
From S2P Require Import CryptoSpec.
From S2P Require Import Signatures.
From S2P Require Import RingSignatures.
From S2P Require Import CachedTransaction.
From S2P Require Import TransactionPool.
From S2P Require Import ChainRules.
From S2P Require Import BlockchainCache.
From S2P Require Import ChainView.
From S2P Require Import Validation.

Module ValidationSpec.

Import parameters Serialization CachedTransaction TransactionPool BlockchainCache ChainView Validation.

(** ** The monad *)

Lemma cbind_accept {A B} (m : check A) (k : A -> check B) b :
  cbind m k = Ok (Ok b) <-> exists a, m = Ok (Ok a) /\ k a = Ok (Ok b).
Proof.
  destruct m as [[a|e]|e]; simpl; split; try done; [by exists a|by intros (a' & [= <-] & ?)|by intros (? & ? & _)..].
Qed.

Lemma cbind_total {A B} (m : check A) (k : A -> check B) :
  (exists r, m = Ok r) -> (forall a, m = Ok (Ok a) -> exists r, k a = Ok r) -> exists r, cbind m k = Ok r.
Proof. intros [[a|e] ->] H; simpl; [by apply H|by eexists]. Qed.

(** ** Points *)

Section Points.
Import FormatUtils Group Curve Edwards PointCodec ScalarMult Scalar Crypto CryptoSpec.

Definition is_point (key : list Z) : Prop := exists P, key_of key P.

(** A key image in the prime-order subgroup. *)
Definition in_subgroup (image : list Z) : Prop := exists P, key_of image P /\ zmul L P = gzero.

Lemma check_key_spec key : wf_key key -> exists b, check_key key = Some b /\ (b = true <-> is_point key).
Proof.
  intros [Hl Hb]; unfold check_key, is_point, key_of.
  destruct (ge_frombytes_vartime_spec key Hl Hb) as [(h & P & E & _ & EP)|[E HN]]; rewrite E.
  - exists true; split; [done|]; split; [|done]; intros _; by exists P.
  - exists false; split; [done|]; split; [done|]; intros [P HP]; by destruct (HN P).
Qed.

Lemma order_scalar_val : le_val order_scalar = L.
Proof. reflexivity. Qed.

Lemma identity_image_zero : identity_image = encode gzero.
Proof. reflexivity. Qed.

Lemma order_scalar_bytes : length order_scalar = 32%nat /\ Forall is_byte order_scalar.
Proof. split; [done|]; apply (bool_decide_unpack _); vm_compute; exact I. Qed.

(** The check of the domain of a key image; it returns when the image is a point. *)
Lemma scalarmultKey_spec image : wf_key image ->
  (is_point image -> exists m, scalarmultKey image order_scalar = Some m) /\
  (scalarmultKey image order_scalar = Some identity_image <-> in_subgroup image).
Proof.
  intros [Hl Hb]; unfold scalarmultKey, is_point, in_subgroup, key_of.
  destruct order_scalar_bytes as [HL HB].
  destruct (ge_frombytes_vartime_spec image Hl Hb) as [(h & P & E & Hh & EP)|[E HN]]; rewrite E; cbn [mbind option_bind].
  - destruct (ge_scalarmult_spec order_scalar h P Hh HL HB) as (r & -> & Hr); [by rewrite order_scalar_val|].
    cbn [mbind option_bind]; rewrite (ge_tobytes_spec _ _ Hr), order_scalar_val; split; [by eexists|].
    rewrite identity_image_zero; split.
    + intros H%(inj Some)%encode_inj; by exists P.
    + intros (Q & EQ & HQ); rewrite EQ in EP; apply encode_inj in EP as ->; by rewrite HQ.
  - split; [intros [P HP]; by destruct (HN P)|]; split; [done|]; intros (P & HP & _); by destruct (HN P).
Qed.
End Points.

(** ** validateSemantic *)

Section Semantic.
Import FormatUtils Crypto.

Definition good_output (o : TransactionOutput) : Prop :=
  0 < o_amount o /\ match o_target o with OutKey key => is_point key end.

Lemma outputs_total_cons o outs : outputs_total (o :: outs) = o_amount o + outputs_total outs.
Proof. reflexivity. Qed.

Lemma ok_outputs_nonneg outs : Forall ok_output outs -> 0 <= outputs_total outs.
Proof.
  induction 1 as [|o outs [Ho _] _ IH]; [done|]; rewrite outputs_total_cons; unfold in_u in Ho; lia.
Qed.

Lemma ok_inputs_nonneg ins : Forall ok_input ins -> 0 <= inputs_total ins.
Proof.
  induction 1 as [|[b|k] ins Hi _ IH]; [done|by rewrite inputs_total_cons|].
  rewrite inputs_total_cons; destruct Hi as [Ha _]; unfold in_u in Ha; simpl; lia.
Qed.

(** The sum is exact: the test before the addition excludes the carry. *)
Lemma check_outputs_spec outs : forall sum t, Forall ok_output outs -> in_u 64 sum ->
  check_outputs outs sum = Ok (Ok t) <->
  Forall good_output outs /\ t = sum + outputs_total outs /\ t < 2 ^ 64.
Proof.
  induction outs as [|o outs IH]; intros sum t Ho Hs; cbn [check_outputs].
  { unfold accept, outputs_total, in_u in *; simpl; split; [intros [= <-]; split_and!; [done|lia..]|intros (_ & -> & _); do 2 f_equal; lia]. }
  apply Forall_cons in Ho as [[Ha Hk] Ho]; rewrite Forall_cons, outputs_total_cons; unfold good_output at 1.
  pose proof (ok_outputs_nonneg outs Ho) as Hp; unfold in_u in Ha, Hs.
  destruct (Z.eqb_spec (o_amount o) 0); [split; [done|lia]|].
  destruct (o_target o) as [key]; destruct (check_key_spec key Hk) as (b & -> & Hb); cbn [of_option rbind].
  destruct b; simpl negb; cbn iota.
  2: { split; [done|]; intros ([[_ Hpt] _] & _); by apply Hb in Hpt. }
  destruct (Z.ltb_spec (2 ^ 64 - 1 - o_amount o) sum); [split; [done|lia]|].
  rewrite IH by (done || by apply wrap_range); rewrite wrap_small by (unfold in_u; lia).
  pose proof (proj1 Hb eq_refl) as Hkey; split; intros (H1 & H2 & H3); split_and!; try done; try lia; by destruct H1.
Qed.

Lemma check_outputs_total outs : forall sum, Forall ok_output outs -> exists r, check_outputs outs sum = Ok r.
Proof.
  induction outs as [|o outs IH]; intros sum Ho; cbn [check_outputs]; [by eexists|].
  apply Forall_cons in Ho as [[_ Hk] Ho]; destruct (o_amount o =? 0); [by eexists|].
  destruct (o_target o) as [key]; destruct (check_key_spec key Hk) as (b & -> & _); cbn [of_option rbind].
  destruct b; simpl negb; cbn iota; [|by eexists]; destruct (_ <? sum); [by eexists|by apply IH].
Qed.

(** What validateSemantic wants of an input: the image a point of the subgroup, the ring not empty
    and no relative offset but the first zero. *)
Definition good_input (i : TransactionInput) : Prop :=
  match i with
  | InBase _ => False
  | InKey k => in_subgroup (ki_keyImage k) /\ ki_outputIndexes k <> [] /\ Forall (fun o => o <> 0) (tail (ki_outputIndexes k))
  end.

Lemma good_input_key ins : Forall good_input ins -> Forall is_key ins.
Proof. intros H; eapply Forall_impl; [exact H|]; by intros [b|k]. Qed.

Lemma no_zero_spec l : existsb (Z.eqb 0) l = false <-> Forall (fun o => o <> 0) l.
Proof.
  induction l as [|o l IH]; cbn [existsb]; [by split|].
  rewrite orb_false_iff, IH, Forall_cons, Z.eqb_neq; split; intros [??]; split; (done || lia).
Qed.

Lemma key_images_cons k ins : key_images (InKey k :: ins) = ki_keyImage k :: key_images ins.
Proof. reflexivity. Qed.

Lemma check_inputs_spec ins : forall seen sum t, Forall ok_input ins -> in_u 64 sum ->
  check_inputs ins seen sum = Ok (Ok t) <->
  Forall good_input ins /\ NoDup (key_images ins) /\ (forall x, x ∈ key_images ins -> x ∉ seen) /\
  t = sum + inputs_total ins /\ t < 2 ^ 64.
Proof.
  induction ins as [|[b|k] ins IH]; intros seen sum t Hi Hs; cbn [check_inputs].
  { unfold accept, inputs_total, in_u in *; simpl; split.
    - intros [= <-]; split_and!; [done|constructor|set_solver|lia..].
    - intros (_ & _ & _ & -> & _); do 2 f_equal; lia. }
  { split; [done|]; intros (H & _); by inversion H. }
  apply Forall_cons in Hi as [(Ha & _ & Hk) Hi]; rewrite Forall_cons, inputs_total_cons, key_images_cons, NoDup_cons.
  pose proof (ok_inputs_nonneg ins Hi) as Hp; unfold in_u in Ha, Hs; cbn [good_input key_input_amount].
  case_bool_decide as Hseen; [split; [done|]; intros (_ & _ & H & _); destruct (H (ki_keyImage k)); [apply list_elem_of_here|done]|].
  case_bool_decide as Hne; [split; [done|]; tauto|].
  destruct (scalarmultKey_spec _ Hk) as [_ Hsub].
  destruct (scalarmultKey (ki_keyImage k) order_scalar) as [m|]; cbn [of_option rbind].
  2: { split; [done|]; intros ([(H & _) _] & _); by apply Hsub in H. }
  case_bool_decide as Hm; simpl negb; cbn iota.
  2: { split; [done|]; intros ([(H & _) _] & _); apply Hsub in H; congruence. }
  assert (Hd : in_subgroup (ki_keyImage k)) by (apply Hsub; by rewrite Hm).
  destruct (existsb (Z.eqb 0) (tail (ki_outputIndexes k))) eqn:Ez.
  { split; [done|]; intros ([(_ & _ & H) _] & _); apply no_zero_spec in H; congruence. }
  apply no_zero_spec in Ez.
  destruct (Z.ltb_spec (2 ^ 64 - 1 - ki_amount k) sum); [split; [done|lia]|].
  rewrite IH by (done || by apply wrap_range); rewrite wrap_small by (unfold in_u; lia).
  split; intros (H1 & H2 & H3 & H4 & H5); split_and!; try done; try lia.
  - intros Hin; apply (H3 _ Hin); set_solver.
  - intros x [->|Hx]%elem_of_cons; [done|]; intros H'; apply (H3 _ Hx); set_solver.
  - by destruct H1.
  - by destruct H2.
  - intros x Hx [->%elem_of_singleton|H']%elem_of_union; [by destruct H2|].
    exact (H3 x (list_elem_of_further _ _ _ Hx) H').
Qed.

Lemma check_inputs_total ins : forall seen sum, Forall ok_input ins ->
  Forall is_point (key_images ins) -> exists r, check_inputs ins seen sum = Ok r.
Proof.
  induction ins as [|[b|k] ins IH]; intros seen sum Hi Hp; cbn [check_inputs]; [by eexists..|].
  apply Forall_cons in Hi as [(_ & _ & Hk) Hi]; rewrite key_images_cons in Hp; apply Forall_cons in Hp as [Hpk Hp].
  case_bool_decide; [by eexists|]; case_bool_decide; [by eexists|].
  destruct (proj1 (scalarmultKey_spec _ Hk) Hpk) as [m ->]; cbn [of_option rbind].
  case_bool_decide; simpl negb; cbn iota; [|by eexists].
  destruct (existsb _ _); [by eexists|]; destruct (_ <? sum); [by eexists|by apply IH].
Qed.

(** A transaction that spends more than nothing, each output once, and makes no money. *)
Record good_transaction (t : Transaction) (blockIndex : Z) : Prop := {
  good_inputs : Forall good_input (tx_inputs t);
  good_nonempty : tx_inputs t <> [];
  good_images : NoDup (key_images (tx_inputs t));
  good_outputs : Forall good_output (tx_outputs t);
  good_balance : outputs_total (tx_outputs t) <= inputs_total (tx_inputs t) < 2 ^ 64;
  good_extra : MAX_EXTRA_SIZE_V2_HEIGHT + CRYPTONOTE_MINED_MONEY_UNLOCK_WINDOW <= blockIndex ->
    Z.of_nat (length (tx_extra t)) < MAX_EXTRA_SIZE_V2 }.

Lemma ok_signature_count t : ok_transaction t -> Forall is_key (tx_inputs t) ->
  ok_signatures (tx_inputs t) (tx_signatures t).
Proof.
  intros [_ H] Hk; destruct (is_base (tx_inputs t)) eqn:E; [|done]; rewrite H; unfold is_base in E.
  destruct (tx_inputs t) as [|[b|k] [|i ins]]; try done; by inversion Hk.
Qed.

Lemma ok_signatures_length ins sigs : ok_signatures ins sigs -> length sigs = length ins.
Proof. intros H; symmetry; exact (Forall2_length _ _ _ H). Qed.

Lemma validateSemantic_accepts ndebug t blockIndex fee : ok_transaction t ->
  validateSemantic ndebug t blockIndex = Ok (Ok fee) <->
  good_transaction t blockIndex /\ fee = inputs_total (tx_inputs t) - outputs_total (tx_outputs t).
Proof.
  intros Ht; pose proof Ht as [(_ & _ & [Hi _] & [Ho _] & _) _]; unfold validateSemantic.
  pose proof (ok_outputs_nonneg _ Ho); pose proof (ok_inputs_nonneg _ Hi).
  case_bool_decide as Hne; [split; [done|]; intros [[] _]; done|].
  rewrite !Z.geb_leb.
  destruct (andb _ _) eqn:Eex.
  { apply andb_true_iff in Eex as [H1%Z.leb_le H2%Z.leb_le]; split; [done|]; intros [G _].
    pose proof (good_extra _ _ G H1); lia. }
  assert (Hex : MAX_EXTRA_SIZE_V2_HEIGHT + CRYPTONOTE_MINED_MONEY_UNLOCK_WINDOW <= blockIndex ->
    Z.of_nat (length (tx_extra t)) < MAX_EXTRA_SIZE_V2).
  { intros H1%Z.leb_le; rewrite H1 in Eex; by apply Z.leb_gt. }
  rewrite cbind_accept; setoid_rewrite cbind_accept; split.
  - intros (o & E1 & i & E2 & E); apply check_outputs_spec in E1 as (Go & -> & Lo); [|done|done].
    apply check_inputs_spec in E2 as (Gi & Gn & _ & -> & Li); [|done|done].
    rewrite Z.gtb_ltb in E; destruct (Z.ltb_spec (0 + inputs_total (tx_inputs t)) (0 + outputs_total (tx_outputs t))); [done|].
    destruct (assert_res _ _); [|done]; cbn [rbind] in E; injection E as <-.
    rewrite wrap_small by (unfold in_u; lia); split; [split; try done; lia|lia].
  - intros [[Gi _ Gn Go Gb _] ->]; exists (outputs_total (tx_outputs t)); split; [by apply check_outputs_spec; [..|split_and!; [done|lia..]]|].
    exists (inputs_total (tx_inputs t)); split; [apply check_inputs_spec; [done..|split_and!; [done|done|set_solver|lia..]]|].
    rewrite Z.gtb_ltb, (proj2 (Z.ltb_ge _ _)) by lia.
    rewrite (ok_signatures_length _ _ (ok_signature_count t Ht (good_input_key _ Gi))), Nat.eqb_refl.
    unfold assert_res; rewrite orb_true_r; cbn [rbind]; unfold accept; rewrite wrap_small by (unfold in_u; lia); done.
Qed.
End Semantic.

(** ** Rings *)

Section Rings.
Import FormatUtils.

(** Nonzero offsets that do not pass 2^32 give increasing indexes. *)
Lemma accumulate_sorted offs : forall x, 0 <= x -> Forall (fun o => 0 < o) offs -> x + sumZ offs < 2 ^ 32 ->
  StronglySorted Z.lt (accumulate_offsets x offs) /\ Forall (fun g => x < g < 2 ^ 32) (accumulate_offsets x offs).
Proof.
  induction offs as [|o offs IH]; intros x Hx Ho Hs; cbn [accumulate_offsets]; [by split; constructor|].
  apply Forall_cons in Ho as [Ho Hos]; cbv zeta.
  assert (0 <= sumZ offs) by (apply sumZ_nonneg; eapply Forall_impl; [exact Hos|]; simpl; lia).
  change (sumZ (o :: offs)) with (o + sumZ offs) in Hs; rewrite wrap_small by (unfold in_u; lia).
  destruct (IH (o + x) ltac:(lia) Hos ltac:(lia)) as [IS IR]; split; [constructor; [done|]|constructor; [lia|]].
  - eapply Forall_impl; [exact IR|]; simpl; lia.
  - eapply Forall_impl; [exact IR|]; simpl; lia.
Qed.

Definition ring_indexes (k : KeyInput) : list Z := relativeOutputOffsetsToAbsolute (ki_outputIndexes k).

(** The indexes of the ring do not wrap around. *)
Definition no_wrap (i : TransactionInput) : Prop :=
  match i with InBase _ => True | InKey k => sumZ (ki_outputIndexes k) < 2 ^ 32 end.

Lemma ring_indexes_sorted k : ok_KeyInput k -> ki_outputIndexes k <> [] ->
  Forall (fun o => o <> 0) (tail (ki_outputIndexes k)) -> sumZ (ki_outputIndexes k) < 2 ^ 32 ->
  StronglySorted Z.lt (ring_indexes k) /\ Forall (in_u 32) (ring_indexes k) /\ ring_indexes k <> [].
Proof.
  intros (_ & [Hr _] & _) Hne Hz Hs; unfold ring_indexes; destruct (ki_outputIndexes k) as [|x offs]; [done|].
  cbn [relativeOutputOffsetsToAbsolute tail] in *; change (sumZ (x :: offs)) with (x + sumZ offs) in Hs.
  apply Forall_cons in Hr as [Hx Hr]; unfold in_u in Hx.
  assert (Hp : Forall (fun o => 0 < o) offs).
  { eapply Forall_impl; [exact (proj2 (Forall_and _ _) (conj Hr Hz))|]; unfold in_u; simpl; lia. }
  assert (0 <= sumZ offs) by (apply sumZ_nonneg; eapply Forall_impl; [exact Hp|]; simpl; lia).
  destruct (accumulate_sorted offs x ltac:(lia) Hp Hs) as [IS IR]; split_and!; [constructor; [done|]|constructor|done].
  - eapply Forall_impl; [exact IR|]; simpl; lia.
  - unfold in_u; lia.
  - eapply Forall_impl; [exact IR|]; unfold in_u; simpl; lia.
Qed.

Lemma accumulate_range offs : forall x, Forall (in_u 32) (accumulate_offsets x offs).
Proof. induction offs as [|o offs IH]; intros x; cbn [accumulate_offsets]; constructor; [by apply wrap_range|apply IH]. Qed.

Lemma ring_indexes_range k : ok_KeyInput k -> ki_outputIndexes k <> [] -> Forall (in_u 32) (ring_indexes k) /\ ring_indexes k <> [].
Proof.
  intros (_ & [Hr _] & _) Hne; unfold ring_indexes; destruct (ki_outputIndexes k) as [|x offs]; [done|].
  cbn [relativeOutputOffsetsToAbsolute]; split; [|done]; constructor; [by apply Forall_inv in Hr|apply accumulate_range].
Qed.

Lemma ring_indexes_length k : length (ring_indexes k) = length (ki_outputIndexes k).
Proof.
  unfold ring_indexes; destruct (ki_outputIndexes k) as [|x offs]; [done|]; cbn [relativeOutputOffsetsToAbsolute length].
  f_equal; revert x; induction offs as [|o offs IH]; intros x; cbn [accumulate_offsets length]; [done|by rewrite IH].
Qed.
End Rings.

(** ** validateTransaction *)

Section Transactions.
Import Currency FormatUtils Crypto CryptoSpec Signatures RingSignatures.
Context {FH : FastHash}.
Context (ndebug : bool) (currency : Currency) (checkpoints : list (Z * Hash)) (now : Z).

(** Keys are 32 bytes. *)
Definition typed_chain (c : cache) : Prop :=
  Forall (fun t => Forall (fun o => match o with OutKey key => wf_key key end) (ti_outputs t)) (chain_transactions c).

Lemma typed_visible i c : typed_chain c -> typed_chain (visible i c).
Proof.
  induction c as [|s parent IH]; [done|]; intros H; cbn [visible]; destruct (i <? startIndex s); [|done].
  apply IH; unfold typed_chain in *; cbn [chain_transactions] in H; by apply Forall_app in H as [H _].
Qed.

Lemma output_key_typed i outs c gs keys : typed_chain c -> Forall2 (output_key ndebug currency now i outs c) gs keys ->
  Forall wf_key keys.
Proof.
  intros Hc; induction 1 as [|g key gs keys (o & t & _ & _ & Ef & _ & Ek) _ IH]; constructor; [|done].
  apply find_some in Ef as [Ht _]; apply list_elem_of_In in Ht.
  pose proof (proj1 (Forall_forall _ _) Hc t Ht) as Hk; unfold at_index in Ek; destruct (poi_outputIndex o <? 0); [done|].
  exact (proj1 (Forall_lookup _ _) Hk _ _ Ek).
Qed.

(** The ring of an input names outputs of the chain below block [i], in order, and the signature
    is one of the ring for the key image. *)
Definition ring_ok (c : CachedTransaction) (chain : cache) (i : Z) (k : KeyInput) (sigs : list Signature) : Prop :=
  exists keys I ring,
    Forall2 (output_key ndebug currency now i (outputs (ki_amount k) (visible i chain)) (visible i chain)) (ring_indexes k) keys /\
    key_of (ki_keyImage k) I /\ Forall2 member keys ring /\
    ring_equation (getTransactionPrefixHash c) I ring sigs.

(** No block up to [i] has spent the key image. *)
Definition unspent (chain : cache) (i : Z) (image : KeyImage) : Prop :=
  forall j, spent chain !! image = Some j -> i < j.

(** What the check of a ring accepts is right for all offsets; where the offsets do not wrap
    around, it accepts all that is right. *)
Lemma check_ring_accepts c chain i k n sigs : wf_cache chain -> chain <> [] -> typed_chain chain -> 0 <= i ->
  ok_KeyInput k -> ki_outputIndexes k <> [] -> Forall (fun o => o <> 0) (tail (ki_outputIndexes k)) ->
  at_index (tx_signatures (ct_transaction c)) n = Some sigs -> length sigs = length (ki_outputIndexes k) ->
  Forall wf_signature sigs ->
  (check_ring ndebug currency now c chain i k n = Ok (Ok tt) -> unspent chain i (ki_keyImage k) /\ ring_ok c chain i k sigs) /\
  (sumZ (ki_outputIndexes k) < 2 ^ 32 -> unspent chain i (ki_keyImage k) /\ ring_ok c chain i k sigs ->
   check_ring ndebug currency now c chain i k n = Ok (Ok tt)).
Proof.
  intros W Hc HT Hi Hk Hne Hz En Hl Hsig; destruct (ring_indexes_range k Hk Hne) as [Rr Rn].
  unfold check_ring; rewrite (checkIfSpent_chain chain (ki_keyImage k) i W Hc Hi); cbn [rbind].
  destruct (match spent chain !! ki_keyImage k with Some j => j <=? i | None => false end) eqn:Esp.
  { split; [done|]; intros _ [Hu _]; unfold unspent in Hu; destruct (spent chain !! _) as [j|]; [|done].
    specialize (Hu j eq_refl); apply Z.leb_le in Esp; lia. }
  assert (Hu : unspent chain i (ki_keyImage k)).
  { intros j E; rewrite E in Esp; by apply Z.leb_gt. }
  rewrite bool_decide_eq_true_2 by done; cbn [assert_res orb rbind]; fold (ring_indexes k).
  pose proof (fun keys => extractKeyOutputKeys_sound ndebug currency now (ki_amount k) i (ring_indexes k) chain keys W Hc Hi Rn Rr) as HE.
  assert (HE' : sumZ (ki_outputIndexes k) < 2 ^ 32 -> forall keys,
    Forall2 (output_key ndebug currency now i (outputs (ki_amount k) (visible i chain)) (visible i chain)) (ring_indexes k) keys ->
    extractKeyOutputKeys ndebug currency now (ki_amount k) i (ring_indexes k) chain = Ok (SUCCESS, keys)).
  { intros Hs keys HK; destruct (ring_indexes_sorted k Hk Hne Hz Hs) as (Rs & _ & _); by apply extractKeyOutputKeys_chain. }
  destruct (extractKeyOutputKeys _ _ _ _ _ _ _) as [[r keys]|e]; cbn [rbind].
  2: { split; [done|]; intros Hs [_ (keys & _ & _ & H & _)]; by apply HE' in H. }
  destruct r; try (split; [done|]; intros Hs [_ (keys' & _ & _ & H & _)]; by apply HE' in H).
  pose proof (HE keys eq_refl) as HK; pose proof (Forall2_length _ _ _ HK) as HKl; rewrite ring_indexes_length in HKl.
  rewrite En; cbn [of_option rbind]; replace (length keys =? length sigs)%nat with true by (symmetry; apply Nat.eqb_eq; lia).
  cbn [negb]; rewrite andb_false_r; destruct Hk as (_ & _ & Him & Hbm).
  destruct (checkRingSignature_exact (getTransactionPrefixHash c) (ki_keyImage k) keys sigs) as [Hnn HX];
    [done..|exact (output_key_typed _ _ _ _ _ (typed_visible i chain HT) HK)|lia|done|].
  destruct (checkRingSignature _ _ _ _) as [b|]; [|done]; cbn [of_option rbind]; split.
  - intros Hb; destruct (proj1 HX) as (I & ring & H1 & H2 & H3); [by destruct b|]; split; [done|]; by exists keys, I, ring.
  - intros Hs [_ (keys' & I & ring & H1 & H2 & H3 & H4)]; apply (HE' Hs) in H1; injection H1 as <-.
    assert (Hb : Some b = Some true) by (apply HX; by exists I, ring); by injection Hb as ->.
Qed.

Definition spend_ok (c : CachedTransaction) (chain : cache) (i : Z) (input : TransactionInput) (sigs : list Signature) : Prop :=
  match input with
  | InBase _ => False
  | InKey k => unspent chain i (ki_keyImage k) /\ ring_ok c chain i k sigs
  end.

Definition in_zone (i : Z) : bool := Checkpoints.isInCheckpointZone (u32 (i + 1)) checkpoints.

(** The inputs from the position of [pre] on, after which the block has spent [state]. *)
Definition spends_ok (c : CachedTransaction) (chain : cache) (i : Z) (inputs : list TransactionInput) (sigs : list (list Signature))
    (state state' : gset KeyImage) : Prop :=
  NoDup (key_images inputs) /\ list_to_set (key_images inputs) ## state /\
  state' = list_to_set (key_images inputs) ∪ state /\
  (in_zone i = false -> Forall2 (spend_ok c chain i) inputs sigs).

Lemma spends_ok_cons c chain i k inputs sig sigs state state' : ki_keyImage k ∉ state ->
  spends_ok c chain i (InKey k :: inputs) (sig :: sigs) state state' <->
  (in_zone i = false -> spend_ok c chain i (InKey k) sig) /\
  spends_ok c chain i inputs sigs ({[ki_keyImage k]} ∪ state) state'.
Proof.
  intros Hin; unfold spends_ok; rewrite key_images_cons, NoDup_cons, list_to_set_cons; split.
  - intros ([H1 H2] & H3 & -> & H5); split_and!; [intros Hz; by apply H5 in Hz; inversion Hz|done| |set_solver|
      intros Hz; by apply H5 in Hz; inversion Hz].
    rewrite <- (elem_of_list_to_set (C := gset KeyImage)) in H1; set_solver.
  - intros (H1 & H2 & H3 & -> & H5); split_and!; [|done|set_solver|set_solver|].
    + rewrite <- (elem_of_list_to_set (C := gset KeyImage)); set_solver.
    + intros Hz; constructor; [by apply H1|by apply H5].
Qed.

Lemma check_spends_accepts c chain i inputs : wf_cache chain -> chain <> [] -> typed_chain chain -> 0 <= i ->
  Forall ok_input inputs -> Forall good_input inputs -> forall pre sigs state state',
  tx_signatures (ct_transaction c) = pre ++ sigs -> ok_signatures inputs sigs ->
  let accepts := check_spends ndebug currency checkpoints now c chain i inputs (Z.of_nat (length pre)) state = Ok (Ok state') in
  (accepts -> spends_ok c chain i inputs sigs state state') /\
  (Forall no_wrap inputs -> spends_ok c chain i inputs sigs state state' -> accepts).
Proof.
  intros W Hc HT Hi Hok; induction Hok as [|[b|k] inputs Hk Hok IH]; intros Hg pre sigs state state' Es Hsig; cbv zeta.
  { inversion Hsig; subst; cbn [check_spends]; unfold accept, spends_ok; split.
    - intros [= <-]; split_and!; [constructor|set_solver|set_solver|constructor].
    - intros _ (_ & _ & -> & _); do 2 f_equal; set_solver. }
  { by inversion Hg. }
  apply Forall_cons in Hg as [(Hsub & Hne & Hz) Hg]; cbn [check_spends].
  inversion Hsig as [|? sig ? sigs' [Hl Hf] Hsig']; subst; cbn [getSignaturesCount] in Hl.
  case_bool_decide as Hin; [split; [done|]; intros _ (_ & H & _); rewrite key_images_cons, list_to_set_cons in H; set_solver|].
  rewrite spends_ok_cons by done; fold (in_zone i); rewrite cbind_accept.
  assert (Hn : Z.of_nat (length pre) + 1 = Z.of_nat (length (pre ++ [sig]))) by (rewrite length_app; simpl; lia); rewrite Hn.
  destruct (check_ring_accepts c chain i k (Z.of_nat (length pre)) sig) as [R1 R2]; try done.
  { unfold at_index; rewrite (proj2 (Z.ltb_ge _ _)) by lia; by rewrite Nat2Z.id, Es, list_lookup_middle. }
  destruct (IH Hg (pre ++ [sig]) sigs' ({[ki_keyImage k]} ∪ state) state') as [I1 I2]; [by rewrite <- app_assoc|done|].
  split.
  - intros ([] & H1 & H2); split; [|by apply I1]; intros Hzone; rewrite Hzone in H1; by apply R1.
  - intros [Hw Hws]%Forall_cons [H1 H2]; exists tt; split; [|by apply I2].
    destruct (in_zone i); simpl; [done|]; by apply R2, H1.
Qed.

(** What validateTransaction accepts. *)
Record validated (c : CachedTransaction) (state : TransactionValidatorState) (chain : cache) (i : Z)
    (state' : TransactionValidatorState) (fee : Z) : Prop := {
  val_good : good_transaction (ct_transaction c) i;
  val_fee : fee = inputs_total (tx_inputs (ct_transaction c)) - outputs_total (tx_outputs (ct_transaction c));
  val_block : list_to_set (images_of c) ## CachedTransaction.spentKeyImages state;
  val_state : CachedTransaction.spentKeyImages state' = list_to_set (images_of c) ∪ CachedTransaction.spentKeyImages state;
  val_spends : in_zone i = false ->
    Forall2 (spend_ok c chain i) (tx_inputs (ct_transaction c)) (tx_signatures (ct_transaction c)) }.

Lemma validateTransaction_accepts c state chain i state' fee : wf_cache chain -> chain <> [] -> typed_chain chain -> 0 <= i ->
  ok_transaction (ct_transaction c) ->
  let accepts := validateTransaction ndebug currency checkpoints now c state chain i = Ok (Ok (state', fee)) in
  (accepts -> validated c state chain i state' fee) /\
  (Forall no_wrap (tx_inputs (ct_transaction c)) -> validated c state chain i state' fee -> accepts).
Proof.
  intros W Hc HT Hi Ht; cbv zeta; unfold validateTransaction; rewrite cbind_accept.
  setoid_rewrite cbind_accept; setoid_rewrite (validateSemantic_accepts ndebug _ i _ Ht).
  pose proof Ht as [(_ & _ & [Hok _] & _) _]; split.
  - intros (f & [HG ->] & images & E & [= <- <-]); pose proof (good_inputs _ _ HG) as Hg.
    destruct (check_spends_accepts c chain i _ W Hc HT Hi Hok Hg [] (tx_signatures (ct_transaction c)) (CachedTransaction.spentKeyImages state) images)
      as [H _]; [done|by apply ok_signature_count; [|apply good_input_key]|].
    apply H in E as (_ & H1 & -> & H2); by split.
  - intros Hw [HG -> H1 H2 H3]; pose proof (good_inputs _ _ HG) as Hg.
    eexists; split; [done|]; exists (CachedTransaction.spentKeyImages state'); split; [|by destruct state'].
    destruct (check_spends_accepts c chain i _ W Hc HT Hi Hok Hg [] (tx_signatures (ct_transaction c)) (CachedTransaction.spentKeyImages state)
      (CachedTransaction.spentKeyImages state')) as [_ H]; [done|by apply ok_signature_count; [|apply good_input_key]|].
    apply H; [done|]; split_and!; [by destruct HG|done..].
Qed.

(** ** The transactions of a block *)

Definition tx_fee (c : CachedTransaction) : Z :=
  inputs_total (tx_inputs (ct_transaction c)) - outputs_total (tx_outputs (ct_transaction c)).

(** A transaction is good by itself and, above the checkpoints, for the chain. *)
Definition acceptable (chain : cache) (i : Z) (c : CachedTransaction) : Prop :=
  good_transaction (ct_transaction c) i /\
  (in_zone i = false -> Forall2 (spend_ok c chain i) (tx_inputs (ct_transaction c)) (tx_signatures (ct_transaction c))).

Definition all_images (cs : list CachedTransaction) : list KeyImage := concat (map images_of cs).

Lemma all_images_cons c cs : all_images (c :: cs) = images_of c ++ all_images cs.
Proof. reflexivity. Qed.

(** Transactions read from bytes. *)
Definition readable (c : CachedTransaction) : Prop := ok_transaction (ct_transaction c).

Lemma validate_all_accepts chain i cs : wf_cache chain -> chain <> [] -> typed_chain chain -> 0 <= i -> Forall readable cs ->
  forall state fee0 state' fee', in_u 64 fee0 ->
  validate_all ndebug currency checkpoints now cs chain i state fee0 = Ok (Ok (state', fee')) ->
  Forall (acceptable chain i) cs /\ NoDup (all_images cs) /\
  list_to_set (all_images cs) ## CachedTransaction.spentKeyImages state /\
  CachedTransaction.spentKeyImages state' = list_to_set (all_images cs) ∪ CachedTransaction.spentKeyImages state /\
  fee' = u64 (fee0 + sumZ (map tx_fee cs)).
Proof.
  intros W Hc HT Hi Hr; induction Hr as [|c cs Hok _ IH]; intros state fee0 state' fee' Hf; cbn [validate_all].
  { unfold accept; cbn [all_images map concat]; rewrite Z.add_0_r, wrap_small by done.
    intros [= <- <-]; split_and!; [constructor|constructor|set_solver..|done]. }
  rewrite cbind_accept, Forall_cons, all_images_cons, NoDup_app, list_to_set_app_L; unfold acceptable at 1.
  change (sumZ (map tx_fee (c :: cs))) with (tx_fee c + sumZ (map tx_fee cs)).
  set (A := list_to_set (images_of c)); set (B := list_to_set (all_images cs)).
  assert (HD : (forall x, x ∈ images_of c -> x ∉ all_images cs) <-> A ## B).
  { unfold A, B, disjoint, set_disjoint_instance; setoid_rewrite elem_of_list_to_set; done. }
  rewrite HD; intros ([st1 f1] & E1 & E2); apply validateTransaction_accepts in E1 as [G -> D1 S1 Z1]; [|done..]; simpl in E2.
  apply IH in E2 as (F2 & N2 & D2 & S2 & ->); [|by apply wrap_range]; fold A in D1, S1; fold B in D2, S2.
  rewrite S1 in D2, S2; apply disjoint_union_r in D2 as [D2 D3].
  split_and!; [done|done|done|by destruct G|done|done|by apply disjoint_union_l| |].
  - rewrite S2, (assoc_L (∪)), (comm_L (∪) B A); done.
  - fold (tx_fee c); unfold wrap; rewrite Zplus_mod_idemp_l; f_equal; lia.
Qed.

End Transactions.

(** ** A chain with one output and a transaction that spends it *)

Section Sample.
Import Currency Crypto CryptoSpec Signatures RingSignatures.

Definition spend_segment (key : PublicKey) : segment :=
  mkSegment 0 [mkTransactionInfo 0 0 (repeat 16 32) 0 [OutKey key] [0]] ∅ [sample_info 0]
    {[10 := mkGlobalIndexes 0 [mkOutIndex 0 0 0]]} [] [mkRawBlock [0] []].

Lemma spend_segment_wf key : wf_cache [spend_segment key].
Proof.
  split; [|by split; [constructor|]]; split.
  - reflexivity.
  - reflexivity.
  - by apply (bool_decide_unpack _); vm_compute.
  - apply map_Forall_empty.
  - apply map_disjoint_empty_r.
  - intros amount e E; change (({[10 := mkGlobalIndexes 0 [mkOutIndex 0 0 0]]} : gmap Z OutputGlobalIndexesForAmount) !! amount = Some e) in E.
    apply lookup_singleton_Some in E as [<- <-]; split; try reflexivity; try done.
    + repeat constructor.
    + repeat constructor; unfold in_segment; vm_compute; congruence.
    + repeat constructor; eexists; (split; [cbv; reflexivity|]); by eexists.
  - repeat constructor; unfold in_segment; vm_compute; congruence.
  - by apply (bool_decide_unpack _); vm_compute.
  - by apply (bool_decide_unpack _); vm_compute.
  - split; constructor.
  - reflexivity.
Qed.

Definition spend_transaction (key : PublicKey) (image : KeyImage) (sigs : list Signature) : CachedTransaction :=
  mkCached (mkTransaction (mkPrefix 1 0 [InKey (mkKeyInput 10 [0] image)] [mkOutput 7 (OutKey key)] [])
    [sigs]) [].

(** A key, its image and a ring signature of the transaction that spends it. *)
Lemma spendable : exists key image sigs, wf_key key /\ wf_key image /\ is_point key /\ in_subgroup image /\
  length sigs = 1%nat /\ Forall wf_signature sigs /\
  checkRingSignature (FH := Keccak.keccak_FastHash)
    (getTransactionPrefixHash (FH := Keccak.keccak_FastHash) (spend_transaction key image sigs)) image [key] sigs = Some true.
Proof.
  pose proof (secret_key_pair _ _ (conj (enc_scalar_ok 5) eq_refl)) as E1.
  pose proof (enc_scalar_ok 5) as Hok; pose proof (enc_scalar_bytes 5) as Hby.
  set (sec := enc_scalar 5) in *; clearbody sec; set (P := CryptoSpec.base_mul (le_val sec)) in *; clearbody P.
  destruct (hash_to_ec_ok (FH := Keccak.keccak_FastHash) (PointCodec.encode P)) as (Q & HQ & HL).
  destruct (generate_key_image_ok (FH := Keccak.keccak_FastHash) false _ _ Q Hok HQ) as (image & EI & Hm).
  assert (Hr : random64 (repeat 7 64)) by (split; [reflexivity|apply (bool_decide_unpack _); vm_compute; exact I]).
  destruct (generateRingSignatures_ok (FH := Keccak.keccak_FastHash) false (fun _ => repeat 7 64)
    (getTransactionPrefixHash (FH := Keccak.keccak_FastHash) (spend_transaction (PointCodec.encode P) image [])) [] _ [] _ image
    (fun _ => Hr) Hby (Forall_nil_2 _) E1 EI) as (sigs & _ & Hl & HC & Hs).
  exists (PointCodec.encode P), image, sigs.
  split; [split; [apply PointCodec.encode_length|apply PointCodec.encode_bytes]|].
  split; [rewrite Hm; split; [apply PointCodec.encode_length|apply PointCodec.encode_bytes]|].
  split; [by exists P|].
  split; [eexists; split; [exact Hm|]; by rewrite Group.zmul_comm, HL, Group.zmul_gzero|].
  split; [exact Hl|]; split; [exact Hs|exact HC].
Qed.
End Sample.


End ValidationSpec.
