(* ===== verification/Ledger.v ===== *)
(** The chain as a ledger: what Core::addBlock ([Validation]) lets into a chain of segments
    ([BlockchainCache]) never spends a key image twice and accounts for every coin. *)

From S2P Require Import Prelude.
From S2P Require Import Config.
From S2P Require Import Types.
From S2P Require Import Keccak.
From S2P Require Import FormatUtils.
From S2P Require Import Currency.
From S2P Require Import TreeHash.
From S2P Require Import Serialization.
From S2P Require Import Block.
From S2P Require Import CachedTransaction.
From S2P Require Import TransactionPool.
From S2P Require Import ChainRules.
From S2P Require Import BlockchainCache.
From S2P Require Import ChainView.
From S2P Require Import ChainSplit.
From S2P Require Import ChainPush.
From S2P Require Import Validation.
From S2P Require Import ValidationSpec.

Module Ledger.

Import FormatUtils Serialization CachedTransaction BlockchainCache ChainView ChainSplit ChainPush Validation ValidationSpec.

(** ** Ledgers *)

Record entry := mkEntry { e_base : Transaction; e_txs : list CachedTransaction }.

Abbreviation ledger := (list entry).

Definition entry_images (e : entry) : list KeyImage := all_images (e_txs e).

(** The coins a block adds: what its coinbase pays beyond the fees. *)
Definition created (e : entry) : Z := outputs_total (tx_outputs (e_base e)) - sumZ (map tx_fee (e_txs e)).

Definition supply (l : ledger) : Z := sumZ (map created l).

Lemma supply_app l l' : supply (l ++ l') = supply l + supply l'.
Proof. unfold supply; rewrite map_app; induction (map created l) as [|x k IH]; simpl; [done|]; unfold sumZ in *; simpl; lia. Qed.

(** The difference of all outputs and all inputs. *)
Lemma created_balance e : created e =
  outputs_total (tx_outputs (e_base e)) + sumZ (map (fun c => outputs_total (tx_outputs (ct_transaction c))) (e_txs e))
  - sumZ (map (fun c => inputs_total (tx_inputs (ct_transaction c))) (e_txs e)).
Proof.
  unfold created; induction (e_txs e) as [|c cs IH]; simpl; [unfold sumZ; simpl; lia|].
  unfold sumZ in *; simpl; unfold tx_fee at 1; lia.
Qed.

(** The blocks that have arrived. *)
Class Arrived := arrived : CachedBlock -> RawBlock -> Prop.

(** Nothing is known of the blocks that have arrived. *)
Definition any_block : Arrived := fun _ _ => True.

(** The entry of a block: its base transaction, and the transactions that its raw form holds. *)
Definition block_entry (cb : CachedBlock) (raw : RawBlock) (e : entry) : Prop :=
  e_base e = bt_baseTransaction (cb_block cb) /\ map ct_binaryArray (e_txs e) = rb_transactions raw /\ Forall cached (e_txs e).

Section Represents.
Context {AR : Arrived}.

(** A chain of segments holds a ledger: entry by entry, that of the blocks that have arrived and
    that the chain stores. *)
Record represents (c : cache) (l : ledger) : Prop := {
  rep_wf : wf_cache c;
  rep_typed : typed_chain c;
  rep_length : length (infos c) = length l;
  rep_coins : forall j info, infos c !! j = Some info -> bi_alreadyGeneratedCoins info = u64 (supply (take (S j) l));
  rep_spent : forall x j, spent c !! x = Some j <-> exists e, at_index l j = Some e /\ x ∈ entry_images e;
  rep_once : NoDup (concat (map entry_images l));
  rep_blocks : forall j e, l !! j = Some e -> exists cb raw info, arrived cb raw /\ infos c !! j = Some info /\
    raw_blocks c !! j = Some raw /\ bi_blockHash info = cb_hash cb /\ block_entry cb raw e }.

Lemma represents_height c l : represents c l -> height c = Z.of_nat (length l).
Proof. intros R; unfold height; by rewrite (rep_length _ _ R). Qed.

Lemma represents_empty : represents [new_segment 0] [].
Proof.
  split; [|constructor|done|done| |constructor|done].
  - split; [|by split; [apply Forall_nil|]]; split; try done; try (by constructor).
    split; constructor.
  - intros x j; cbn [spent new_segment spentKeyImages]; rewrite map_union_empty, lookup_empty; split; [done|].
    intros (e & E & _); unfold at_index in E; by destruct (j <? 0).
Qed.

Lemma at_index_take {A} (l : list A) n j : at_index (take n l) j = if j <? Z.of_nat n then at_index l j else None.
Proof.
  unfold at_index; destruct (Z.ltb_spec j 0), (Z.ltb_spec j (Z.of_nat n)); try done.
  - by rewrite lookup_take_lt by lia.
  - by rewrite lookup_take_ge by lia.
Qed.

(** The chain below a segment holds the first blocks of the ledger. *)
Lemma represents_parent s parent l : represents (s :: parent) l -> represents parent (take (Z.to_nat (startIndex s)) l).
Proof.
  intros R; pose proof (rep_wf _ _ R) as (Ws & Hn & Wp); pose proof (seg_start _ _ Ws) as Es.
  pose proof (rep_length _ _ R) as El; cbn [infos] in El; rewrite length_app in El.
  assert (EN : Z.to_nat (startIndex s) = length (infos parent)) by (rewrite Es; unfold height; lia).
  rewrite EN; split.
  - done.
  - pose proof (rep_typed _ _ R) as T; unfold typed_chain in *; cbn [chain_transactions] in T; by apply Forall_app in T as [T _].
  - rewrite length_take; lia.
  - intros j info E; pose proof (lookup_lt_Some _ _ _ E); rewrite take_take, Nat.min_l by lia.
    apply (rep_coins _ _ R); cbn [infos]; by rewrite lookup_app_l.
  - intros x j; rewrite at_index_take; pose proof (rep_spent _ _ R x j) as RS; cbn [spent] in RS.
    rewrite (lookup_union_Some _ _ _ _ (seg_fresh _ _ Ws)) in RS; split.
    + intros E; pose proof (spent_below _ Wp _ _ E) as Hj; unfold height in Hj; rewrite (proj2 (Z.ltb_lt _ _)) by lia.
      by apply RS; right.
    + intros (e & E & Hx); destruct (Z.ltb_spec j (Z.of_nat (length (infos parent)))); [|done].
      destruct (proj2 RS (ex_intro _ e (conj E Hx))) as [E'|E']; [|done].
      apply (seg_spent _ _ Ws) in E'; unfold in_segment in E'; unfold height in Es; lia.
  - pose proof (rep_once _ _ R) as H; rewrite <- (take_drop (length (infos parent)) l), map_app, concat_app in H.
    by apply NoDup_app in H as (H & _).
  - intros j e Ej; apply lookup_take_Some in Ej as [Ej Hj].
    destruct (rep_blocks _ _ R j e Ej) as (cb & raw & info & Ha & Ei & Er & H); exists cb, raw, info; split; [done|].
    cbn [infos raw_blocks] in Ei, Er; rewrite lookup_app_l in Ei by done; rewrite lookup_app_l in Er by (by rewrite raw_blocks_length); done.
Qed.

(** A new segment on top of a chain changes nothing. *)
Lemma represents_fork s parent l : represents (s :: parent) l -> blockInfos s <> [] ->
  represents (new_segment (height (s :: parent)) :: s :: parent) l.
Proof.
  intros R Hn; pose proof (rep_wf _ _ R) as W; pose proof W as (Ws & Hp & _).
  assert (Hb : height (s :: parent) < 2 ^ 32) by (rewrite (height_cons _ _ Ws); apply Ws).
  destruct R as [_ R2 R3 R4 R5 R6 R7]; split; cbn [infos raw_blocks new_segment blockInfos storage]; rewrite ?app_nil_r; try done.
  - split; [|split; [by constructor|done]]; split; try done; try (by constructor).
    + unfold end_index, getBlockCount; cbn [new_segment blockInfos length startIndex]; lia.
    + apply map_disjoint_empty_l.
    + split; constructor.
  - unfold typed_chain; cbn [chain_transactions new_segment transactions]; by rewrite app_nil_r.
  - intros x j; cbn [spent new_segment spentKeyImages]; rewrite map_empty_union; apply R5.
Qed.

Lemma represents_split ndebug i s parent l : represents (s :: parent) l -> startIndex s < i < end_index s ->
  exists low up, split ndebug i s = Ok (low, up) /\ represents (up :: low :: parent) l /\
    blockInfos low <> [] /\ blockInfos up <> [] /\ represents (low :: parent) (take (Z.to_nat i) l).
Proof.
  intros R Hi; destruct (split_spec ndebug i s parent (rep_wf _ _ R) Hi)
    as (low & up & E & W & _ & Eu & Hl & Hu & Ei & Er & Es & _ & Et & _).
  assert (RU : represents (up :: low :: parent) l).
  { destruct R as [_ R2 R3 R4 R5 R6 R7]; split; rewrite ?Ei, ?Er, ?Es; try done; unfold typed_chain; by rewrite Et. }
  exists low, up; split_and!; try done; rewrite <- Eu; by apply represents_parent.
Qed.

End Represents.

(** ** Adding a block *)

Section Push.
Context {FH : FastHash} {AR : Arrived}.
Context (ndebug : bool).

Lemma tx_infos_typed b c txs : forall k ts, tx_infos b k c txs ts -> Forall (fun tx => ok_transaction (ct_transaction tx)) txs ->
  Forall (fun t => Forall (fun o => match o with OutKey key => wf_key key end) (ti_outputs t)) ts.
Proof.
  induction txs as [|tx txs IH]; intros k [|t ts] H Hok; try done.
  destruct H as [(gs & -> & _) H]; apply Forall_cons in Hok as [Ht Hok]; constructor; [|by apply (IH _ _ H)].
  destruct Ht as [(_ & _ & _ & [Ho _] & _) _]; cbn [tx_info ti_outputs]; apply Forall_map.
  eapply Forall_impl; [exact Ho|]; intros o [_ Hk]; exact Hk.
Qed.

Lemma at_index_snoc {A} (l : list A) a j x : at_index (l ++ [a]) j = Some x <->
  at_index l j = Some x \/ (j = Z.of_nat (length l) /\ x = a).
Proof.
  rewrite at_index_app; destruct (Z.ltb_spec j (Z.of_nat (length l))).
  - split; [by left|]; intros [?|[-> _]]; [done|lia].
  - split.
    + intros E; right; unfold at_index in E; destruct (Z.ltb_spec (j - Z.of_nat (length l)) 0); [lia|].
      destruct (Z.to_nat (j - Z.of_nat (length l))) eqn:En; [|done]; simpl in E; injection E as <-; split; [lia|done].
    + intros [E|[-> ->]]; [|by rewrite Z.sub_diag].
      assert (is_Some (at_index l j)) as Hs by (by eexists); apply at_index_range in Hs; lia.
Qed.

(** Pushing a block whose key images are new and whose emission is right. *)
Lemma represents_push cb base txs st size coins difficulty raw s parent l :
  represents (s :: parent) l -> push_ok cb base txs st size difficulty s parent ->
  Forall (fun tx => ok_transaction (ct_transaction tx)) (base :: txs) ->
  CachedTransaction.spentKeyImages st = list_to_set (all_images txs) -> NoDup (all_images txs) ->
  arrived cb raw -> block_entry cb raw (mkEntry (ct_transaction base) txs) ->
  let e := mkEntry (ct_transaction base) txs in
  u64 coins = u64 (created e) ->
  exists s', doPushBlock ndebug cb txs st size coins difficulty raw (s :: parent) = Ok (s' :: parent) /\
    represents (s' :: parent) (l ++ [e]) /\
    infos (s' :: parent) = infos (s :: parent) ++ [new_info cb txs size coins difficulty (s :: parent)] /\
    raw_blocks (s' :: parent) = raw_blocks (s :: parent) ++ [raw].
Proof.
  intros R P Hok Est Hnd Har Hbe e Ec; destruct (doPushBlock_spec ndebug cb base txs st size coins difficulty raw s parent (rep_wf _ _ R) P)
    as (s' & ts & E & W & Ei & Er & Es & _ & Et & Ht).
  pose proof (represents_height _ _ R) as Eh; exists s'; split; [done|]; split; [|done]; split.
  - done.
  - unfold typed_chain; rewrite Et; apply Forall_app; split; [apply R|by apply (tx_infos_typed _ _ _ _ _ Ht)].
  - rewrite Ei, !length_app, (rep_length _ _ R); done.
  - intros j info Ej; rewrite Ei in Ej; apply lookup_snoc_Some in Ej as [[Hj Ej]|[-> <-]].
    + rewrite take_app_le by (rewrite <- (rep_length _ _ R); lia); by apply (rep_coins _ _ R).
    + rewrite (rep_length _ _ R), take_ge by (rewrite length_app; simpl; lia); rewrite supply_app.
      unfold new_info, totals; rewrite last_lookup, (rep_length _ _ R).
      assert (E1 : supply [e] = created e) by (unfold supply, sumZ; simpl; lia).
      destruct (infos (s :: parent) !! Nat.pred (length l)) as [i|] eqn:Ej; cbn [bi_alreadyGeneratedCoins].
      * apply lookup_lt_Some in Ej as Hlt; rewrite (rep_length _ _ R) in Hlt.
        rewrite (rep_coins _ _ R _ _ Ej), take_ge by lia; unfold wrap in *.
        rewrite Zplus_mod_idemp_l, E1, <- Zplus_mod_idemp_r, Ec, Zplus_mod_idemp_r; done.
      * apply lookup_ge_None in Ej; rewrite (rep_length _ _ R) in Ej; destruct l; [|simpl in Ej; lia].
        change (supply []) with 0; rewrite E1; done.
  - intros x j; rewrite Es, Est; setoid_rewrite at_index_snoc; rewrite Eh.
    destruct (decide (x ∈ all_images txs)) as [Hx|Hx].
    + rewrite (lookup_union_Some_l _ _ _ (Z.of_nat (length l))).
      2: { apply lookup_gset_to_gmap_Some; split; [by apply elem_of_list_to_set|done]. }
      split; [intros [= <-]; exists e; split; [by right|done]|].
      intros (e' & [E'|[-> ->]] & He'); [|done].
      assert (spent (s :: parent) !! x = None) as HN by (apply (push_fresh _ _ _ _ _ _ _ _ P); rewrite Est; by apply elem_of_list_to_set).
      assert (spent (s :: parent) !! x = Some j) by (apply (rep_spent _ _ R); by exists e'); congruence.
    + rewrite lookup_union_r by (apply lookup_gset_to_gmap_None; by rewrite elem_of_list_to_set).
      rewrite (rep_spent _ _ R); split; [intros (e' & E' & He'); exists e'; split; [by left|done]|].
      intros (e' & [E'|[_ ->]] & He'); [by exists e'|done].
  - rewrite map_app, concat_app; cbn [map concat]; rewrite app_nil_r; apply NoDup_app; split_and!; [apply R| |done].
    intros x Hx Hx'; apply list_elem_of_In, in_concat in Hx as (im & (e' & <- & He')%in_map_iff & Hin).
    apply list_elem_of_In, list_elem_of_lookup in He' as [j Ej].
    assert (spent (s :: parent) !! x = Some (Z.of_nat j)) as Hsp.
    { apply (rep_spent _ _ R); exists e'; split; [|by apply list_elem_of_In].
      unfold at_index; rewrite (proj2 (Z.ltb_ge _ _)) by lia; by rewrite Nat2Z.id. }
    assert (spent (s :: parent) !! x = None) as HN; [|congruence].
    apply (push_fresh _ _ _ _ _ _ _ _ P); rewrite Est; by apply elem_of_list_to_set.
  - rewrite Ei, Er; intros j e' Ej; apply lookup_snoc_Some in Ej as [[Hj Ej]|[-> <-]].
    + destruct (rep_blocks _ _ R j e' Ej) as (cb' & raw' & info & Ha & Ei' & Er' & H); exists cb', raw', info.
      by rewrite !lookup_app_l by (by eapply lookup_lt_Some).
    + pose proof (raw_blocks_length _ (rep_wf _ _ R)) as Lr; exists cb, raw; eexists; split; [done|].
      rewrite (lookup_app_r (infos _)), (lookup_app_r (raw_blocks _)), Lr, (rep_length _ _ R), Nat.sub_diag by (rewrite ?Lr, (rep_length _ _ R); lia).
      split; [done|]; split; [done|]; split; [|done]; unfold new_info; by destruct (totals (s :: parent)) as [[? ?] ?].
Qed.
End Push.

(** ** What the checks of addBlock establish *)

Section Blocks.
Import Currency.
Context {FH : FastHash} {AR : Arrived}.
Context (ndebug : bool) (currency : Currency) (checkpoints : list (Z * Hash)) (now : Z).

Lemma extractTransactions_spec raws : forall size0 cs size, Forall (Forall is_byte) raws ->
  extractTransactions currency raws size0 = Some (cs, size) -> in_u 64 size0 ->
  map ct_binaryArray cs = raws /\ Forall cached cs /\ size = u64 (size0 + sumZ (map (fun r => Z.of_nat (length r)) raws)).
Proof.
  induction raws as [|raw raws IH]; intros size0 cs size Hb E Hs; cbn [extractTransactions] in E.
  { injection E as <- <-; split_and!; [done|constructor|]; cbn [map]; rewrite Z.add_0_r, wrap_small; done. }
  apply Forall_cons in Hb as [Hr Hb]; destruct (_ >? _); [done|].
  destruct (cached_of_BinaryArray raw) as [c|] eqn:Ec; [|done].
  destruct (extractTransactions currency raws _) as [[cs' size']|] eqn:E'; [|done]; injection E as <- <-.
  apply IH in E' as (E1 & E2 & ->); [|done|by apply wrap_range].
  pose proof (cached_of_BinaryArray_cached raw c Hr Ec) as Hc; split_and!.
  - simpl; f_equal; [|done]; unfold cached_of_BinaryArray in Ec; by apply rbind_Ok in Ec as (t & _ & [= <-]).
  - by constructor.
  - change (sumZ (map (fun r => Z.of_nat (length r)) (raw :: raws)))
      with (Z.of_nat (length raw) + sumZ (map (fun r => Z.of_nat (length r)) raws)).
    unfold wrap; rewrite Zplus_mod_idemp_l; f_equal; lia.
Qed.

Lemma u64_s64 z : u64 (s64 z) = u64 z.
Proof.
  unfold swrap, wrap; destruct (_ <? _); [apply Zmod_mod|].
  rewrite Zminus_mod, Z_mod_same_full, Z.sub_0_r, !Zmod_mod; done.
Qed.

Lemma s64_range z : in_s 64 (s64 z).
Proof.
  pose proof (Z.mod_pos_bound z (2 ^ 64) ltac:(done)); unfold swrap, in_s; change (64 - 1) with 63; cbv zeta.
  destruct (Z.ltb_spec (z mod 2 ^ 64) (2 ^ 63)); lia.
Qed.

(** The reward is the emission and the fees, as 64-bit integers. *)
Lemma getBlockReward_balance v median size coins fee reward emission :
  getBlockReward ndebug currency v median size coins fee = Some (Some (reward, emission)) ->
  u64 emission = u64 (reward - fee) /\ in_s 64 emission.
Proof.
  unfold getBlockReward; cbv zeta; destruct (negb _); [done|]; destruct (_ >? _); [done|].
  destruct (getPenalizedAmount _ (base_reward _ _) _ _) as [pb|]; cbn [mbind option_bind]; [|done].
  destruct (if _ >=? _ then _ else _) as [pf|]; cbn [mbind option_bind]; [|done]; intros [= <- <-].
  split; [|apply s64_range]; rewrite u64_s64; unfold wrap; rewrite Zmod_mod, Zminus_mod_idemp_l, Zminus_mod_idemp_r; f_equal; lia.
Qed.

Context (cn_slow_hash_v0 cn_lite_slow_hash_v1 cn_turtle_lite_slow_hash_v2 : list Z -> Hash) (genesisBlockHash : Hash).
Context (d : UpgradeManager.detectors).

Abbreviation checks := (addBlock_checks ndebug currency checkpoints now cn_slow_hash_v0 cn_lite_slow_hash_v1
  cn_turtle_lite_slow_hash_v2 genesisBlockHash d).

(** Everything a block has passed when the checks are through. *)
Record accepted (cb : CachedBlock) (raw : RawBlock) (s : segment) (parent : cache) (vb : ValidatedBlock)
    (i reward fee : Z) : Prop := {
  acc_previous : getBlockIndex (bh_previousBlockHash (cb_block cb)) s = Ok i;
  acc_extract : exists size, extractTransactions currency (rb_transactions raw) 0 = Some (vb_transactions vb, size) /\
    vb_cumulativeBlockSize vb = u64 (getObjectBinarySize (bt_baseTransaction (cb_block cb)) + size);
  acc_size : vb_cumulativeBlockSize vb <= maxBlockCumulativeSize currency (u32 (i + 1));
  acc_block : validateBlock ndebug currency now d (cb_block cb) s parent = Ok (Ok reward);
  acc_difficulty : getDifficultyForNextBlock ndebug currency i (s :: parent) = Ok (vb_currentDifficulty vb) /\
    vb_currentDifficulty vb <> 0;
  acc_mixins : check_mixins (vb_transactions vb) (Block.getBlockIndex (cb_block cb)) = Ok (Ok tt);
  acc_transactions : validate_all ndebug currency checkpoints now (vb_transactions vb) (s :: parent) i
    (mkValidatorState ∅) 0 = Ok (Ok (vb_validatorState vb, fee));
  acc_reward : exists coins sizes, getAlreadyGeneratedCoins i (s :: parent) = Ok coins /\
    getLastBlocksSizes ndebug (m_rewardBlocksWindow currency) i true (s :: parent) = Ok sizes /\
    getBlockReward ndebug currency (bh_majorVersion (cb_block cb)) (medianValue sizes) (vb_cumulativeBlockSize vb) coins fee =
      Some (Some (reward, vb_emissionChange vb));
  acc_work : if Checkpoints.isInCheckpointZone (Block.getBlockIndex (cb_block cb)) checkpoints
    then (Checkpoints.checkBlock (Block.getBlockIndex (cb_block cb)) (cb_hash cb) checkpoints).1 = true
    else Block.checkProofOfWork cn_slow_hash_v0 cn_lite_slow_hash_v1 cn_turtle_lite_slow_hash_v2 genesisBlockHash
           (cb_block cb) (vb_currentDifficulty vb) = Ok true }.

Lemma rbind_accept {A B} (m : res A) (k : A -> check B) b :
  (let! x := m in k x) = Ok (Ok b) -> exists a, m = Ok a /\ k a = Ok (Ok b).
Proof. destruct m as [a|]; [by exists a|done]. Qed.

Lemma addBlock_checks_accepted cb raw s parent vb : checks cb raw s parent = Ok (Ok vb) ->
  exists i reward fee, accepted cb raw s parent vb i reward fee.
Proof.
  unfold addBlock_checks; cbv zeta; destruct (extractTransactions _ _ _) as [[txs size]|] eqn:Ex; [|done].
  intros (_ & _ & H)%rbind_accept; apply rbind_accept in H as (i & Ei & H).
  destruct (Z.gtb_spec (u64 (getObjectBinarySize (bt_baseTransaction (cb_block cb)) + size))
    (maxBlockCumulativeSize currency (u32 (i + 1)))) as [|Hsize]; [done|].
  apply cbind_accept in H as (reward & Eb & H); apply rbind_accept in H as (diff & Ed & H).
  destruct (Z.eqb_spec diff 0) as [|Hd]; [done|]; apply cbind_accept in H as ([] & Em & H).
  apply cbind_accept in H as ([st fee] & Et & H); apply rbind_accept in H as (coins & Ec & H).
  apply rbind_accept in H as (sizes & Es & H); cbn [fst snd] in H.
  destruct (getBlockReward _ _ _ _ _ _ _) as [[[reward' emission]|]|] eqn:Er; [|done..]; cbn [of_option rbind] in H.
  destruct (Z.eqb_spec reward reward') as [<-|]; [|done]; cbn [negb] in H.
  apply cbind_accept in H as ([] & Ew & [= <-]); exists i, reward, fee; split; cbn; try done.
  - by exists size.
  - by exists coins, sizes.
  - destruct (Checkpoints.isInCheckpointZone _ _); [by destruct (Checkpoints.checkBlock _ _ _) as [[] ?]|].
    by destruct (Block.checkProofOfWork _ _ _ _ _ _) as [[]|].
Qed.

Lemma getBlockIndex_range h s parent i : wf_segment parent s -> getBlockIndex h s = Ok i ->
  in_segment s i /\ exists info, at_index (blockInfos s) (i - startIndex s) = Some info /\ bi_blockHash info = h.
Proof.
  unfold getBlockIndex; intros W; destruct (list_find _ _) as [[k info]|] eqn:E; [|done]; intros [= <-].
  apply list_find_Some in E as (Ek & Eh & _); pose proof (lookup_lt_Some _ _ _ Ek); pose proof (seg_start _ _ W) as Es.
  unfold in_segment, end_index, getBlockCount, height in *; split; [lia|]; exists info; split; [|done].
  unfold at_index; rewrite (proj2 (Z.ltb_ge _ _)) by lia; by replace (Z.to_nat _) with k by lia.
Qed.

(** The coinbase has the height of the block and pays the whole reward to valid keys. *)
Lemma validateBlock_accepts b s parent reward : validateBlock ndebug currency now d b s parent = Ok (Ok reward) ->
  ok_transaction (bt_baseTransaction b) ->
  exists i, getBlockIndex (bh_previousBlockHash b) s = Ok i /\
    UpgradeManager.getBlockMajorVersion (Block.getBlockIndex b) d = bh_majorVersion b /\
    tx_inputs (bt_baseTransaction b) = [InBase (u32 (i + 1))] /\
    tx_unlockTime (bt_baseTransaction b) = u32 (i + 1 + m_minedMoneyUnlockWindow currency) /\
    Forall good_output (tx_outputs (bt_baseTransaction b)) /\ reward = outputs_total (tx_outputs (bt_baseTransaction b)).
Proof.
  intros (i & Ei & H)%rbind_accept [(_ & _ & _ & [Ho _] & _) _]; exists i; split; [done|].
  apply cbind_accept in H as ([] & Ev & H); apply cbind_accept in H as ([] & _ & H); apply cbind_accept in H as ([] & Eb & H).
  apply check_outputs_spec in H as (Hg & -> & _); [|done|done].
  unfold check_version in Ev; destruct (Z.eqb_spec (UpgradeManager.getBlockMajorVersion (Block.getBlockIndex b) d) (bh_majorVersion b)); [|done].
  unfold check_base in Eb; destruct (tx_inputs (bt_baseTransaction b)) as [|[bi|k] [|x ins]]; try done.
  destruct (Z.eqb_spec bi (u32 (i + 1))) as [Ebi|]; [|done]; cbn [negb] in Eb.
  destruct (Z.eqb_spec (tx_unlockTime (bt_baseTransaction b)) (u32 (i + 1 + m_minedMoneyUnlockWindow currency))); [|done].
  rewrite Ebi; split_and!; done || lia.
Qed.

(** What has to fit when the block goes on top of [t :: ps].  A block in the checkpoint zone is
    trusted not to spend what is spent. *)
Record room (cb : CachedBlock) (base : CachedTransaction) (vb : ValidatedBlock) (i : Z) (t : segment) (ps : cache) : Prop := {
  room_height : height (t :: ps) + 1 < 2 ^ 32;
  room_hash : cb_hash cb ∉ map bi_blockHash (blockInfos t);
  room_base : cached_of_Transaction (bt_baseTransaction (cb_block cb)) = Ok base;
  room_sizes : 0 < vb_cumulativeBlockSize vb < 2 ^ 32 /\ 0 < vb_currentDifficulty vb;
  room_count : Z.of_nat (length (vb_transactions vb)) <= 2 ^ 16 - 1;
  room_out_count :
    Forall (fun c => Z.of_nat (length (tx_outputs (ct_transaction c))) <= 2 ^ 16 - 1) (base :: vb_transactions vb);
  room_tx_hashes : NoDup (map getTransactionHash (base :: vb_transactions vb) ++ map ti_transactionHash (transactions t));
  room_outputs : forall a, Z.of_nat (length (outputs a (t :: ps))) +
    Z.of_nat (length (block_outputs a (height (t :: ps)) 0 (base :: vb_transactions vb))) < 2 ^ 32;
  room_zone : in_zone checkpoints i = true -> forall x, x ∈ all_images (vb_transactions vb) -> spent (t :: ps) !! x = None }.

(** A block that has arrived, and reads from bytes. *)
Definition readable_block (cb : CachedBlock) (raw : RawBlock) : Prop :=
  arrived cb raw /\ ok_transaction (bt_baseTransaction (cb_block cb)) /\ Forall (Forall is_byte) (rb_transactions raw).

Lemma accepted_transactions cb raw s parent vb i reward fee l : represents (s :: parent) l ->
  accepted cb raw s parent vb i reward fee -> readable_block cb raw ->
  map ct_binaryArray (vb_transactions vb) = rb_transactions raw /\ Forall cached (vb_transactions vb) /\
  Forall (acceptable ndebug currency checkpoints now (s :: parent) i) (vb_transactions vb) /\
  NoDup (all_images (vb_transactions vb)) /\
  CachedTransaction.spentKeyImages (vb_validatorState vb) = list_to_set (all_images (vb_transactions vb)) /\
  fee = u64 (sumZ (map tx_fee (vb_transactions vb))) /\ in_segment s i /\ 0 <= i.
Proof.
  intros R A (_ & Hb & Hr); pose proof (rep_wf _ _ R) as W.
  destruct (acc_extract _ _ _ _ _ _ _ _ A) as (size & Ex & _).
  apply extractTransactions_spec in Ex as (E1 & E2 & _); [|done|done].
  destruct (getBlockIndex_range _ _ _ _ (proj1 W) (acc_previous _ _ _ _ _ _ _ _ A)) as [Hi _].
  assert (Hi0 : 0 <= i) by (pose proof (seg_start _ _ (proj1 W)); unfold in_segment, height in *; lia).
  assert (Hrd : Forall readable (vb_transactions vb)).
  { eapply Forall_impl; [exact E2|]; by intros c [Hc _]. }
  pose proof (acc_transactions _ _ _ _ _ _ _ _ A) as Et.
  apply (validate_all_accepts ndebug currency checkpoints now (s :: parent) i _ W ltac:(done) (rep_typed _ _ R) Hi0 Hrd)
    in Et as (F & N & _ & S & ->); [|done].
  split_and!; try done; rewrite S; set_solver.
Qed.

Lemma acceptable_unspent chain i txs : Forall (acceptable ndebug currency checkpoints now chain i) txs ->
  in_zone checkpoints i = false -> forall x, x ∈ all_images txs -> unspent chain i x.
Proof.
  intros Ha Hz x Hx; apply list_elem_of_In, in_concat in Hx as (im & (c & <- & Hc)%in_map_iff & Hx).
  apply list_elem_of_In in Hc, Hx; rewrite Forall_forall in Ha; destruct (Ha c Hc) as [_ Hs].
  specialize (Hs Hz); clear Ha Hc; unfold images_of in Hx; revert Hs; generalize (tx_signatures (ct_transaction c)).
  induction (tx_inputs (ct_transaction c)) as [|[b|k] ins IH]; intros sigs Hs; [by apply not_elem_of_nil in Hx|by inversion Hs|].
  apply Forall2_cons_inv_l in Hs as (sig & sigs' & Hu & Hs' & ->); rewrite key_images_cons in Hx.
  apply elem_of_cons in Hx as [->|Hx]; [apply Hu|by apply (IH Hx sigs')].
Qed.

Lemma block_extends cb raw s parent vb base i l t ps :
  represents (s :: parent) l -> checks cb raw s parent = Ok (Ok vb) -> readable_block cb raw ->
  getBlockIndex (bh_previousBlockHash (cb_block cb)) s = Ok i ->
  represents (t :: ps) (take (Z.to_nat (i + 1)) l) -> room cb base vb i t ps ->
  exists t', doPushBlock ndebug cb (vb_transactions vb) (vb_validatorState vb) (vb_cumulativeBlockSize vb)
      (vb_emissionChange vb) (vb_currentDifficulty vb) raw (t :: ps) = Ok (t' :: ps) /\
    represents (t' :: ps)
      (take (Z.to_nat (i + 1)) l ++ [mkEntry (bt_baseTransaction (cb_block cb)) (vb_transactions vb)]) /\
    infos (t' :: ps) = infos (t :: ps) ++ [new_info cb (vb_transactions vb) (vb_cumulativeBlockSize vb) (vb_emissionChange vb)
      (vb_currentDifficulty vb) (t :: ps)] /\
    raw_blocks (t' :: ps) = raw_blocks (t :: ps) ++ [raw].
Proof.
  intros R HC HB Ei RT RM; destruct (addBlock_checks_accepted _ _ _ _ _ HC) as (i' & reward & fee & A).
  rewrite (acc_previous _ _ _ _ _ _ _ _ A) in Ei; injection Ei as ->.
  destruct (accepted_transactions _ _ _ _ _ _ _ _ _ R A HB) as (Hraw & Hc & Ha & Hn & Hs & -> & Hi & Hi0).
  destruct (validateBlock_accepts _ _ _ _ (acc_block _ _ _ _ _ _ _ _ A) (proj1 (proj2 HB))) as (i' & Ei' & _ & Ein & _ & _ & Erw).
  rewrite (acc_previous _ _ _ _ _ _ _ _ A) in Ei'; injection Ei' as <-.
  pose proof (rep_wf _ _ R) as W; pose proof (height_cons _ _ (proj1 W)) as Eh; pose proof (represents_height _ _ R) as El.
  pose proof (seg_bound _ _ (proj1 W)) as Hbd; unfold in_segment in Hi.
  assert (Elt : length (take (Z.to_nat (i + 1)) l) = Z.to_nat (i + 1)) by (rewrite length_take; lia).
  pose proof (represents_height _ _ RT) as Ht; rewrite Elt in Ht.
  assert (HFr : forall x, x ∈ all_images (vb_transactions vb) -> spent (t :: ps) !! x = None).
  { intros x Hx; destruct (in_zone checkpoints i) eqn:Ez; [by apply (room_zone _ _ _ _ _ _ RM)|].
    destruct (spent (t :: ps) !! x) as [j|] eqn:Ex; [exfalso|done].
    apply (rep_spent _ _ RT) in Ex as (e & Ee & He); rewrite at_index_take in Ee.
    destruct (Z.ltb_spec j (Z.of_nat (Z.to_nat (i + 1)))); [|done].
    assert (HS : spent (s :: parent) !! x = Some j) by (apply (rep_spent _ _ R); by exists e).
    pose proof (acceptable_unspent _ _ _ Ha Ez x Hx j HS); lia. }
  destruct RM as [R1 R2 R3 R4 R5 R6 R7 R8 _].
  destruct (cached_of_Transaction_cached _ (proj1 (proj2 HB))) as (base' & Eb & Hcb); rewrite R3 in Eb; injection Eb as <-.
  assert (Ebt : ct_transaction base = bt_baseTransaction (cb_block cb)).
  { unfold cached_of_Transaction in R3; by apply rbind_Ok in R3 as (? & _ & [= <-]). }
  destruct (represents_push ndebug cb base (vb_transactions vb) (vb_validatorState vb) (vb_cumulativeBlockSize vb)
    (vb_emissionChange vb) (vb_currentDifficulty vb) raw t ps _ RT) as (t' & E & RT' & EI & ER).
  - split; try done.
    + unfold Block.getBlockIndex; rewrite Ein, wrap_small by (unfold in_u; lia); lia.
    + intros x Hx; rewrite Hs in Hx; apply elem_of_list_to_set in Hx; by apply HFr.
  - constructor; [by rewrite Ebt; apply HB|]; eapply Forall_impl; [exact Hc|]; by intros c [H _].
  - done.
  - done.
  - apply HB.
  - by split.
  - destruct (acc_reward _ _ _ _ _ _ _ _ A) as (coins & sizes & _ & _ & Er); apply getBlockReward_balance in Er as [Er _].
    rewrite Er, Erw; unfold created, wrap; cbn [e_base e_txs]; rewrite Ebt, Zminus_mod_idemp_r; done.
  - exists t'; split; [done|]; split; [by rewrite <- Ebt|done].
Qed.

(** A block above the checkpoint zone that passes the checks spends nothing that is spent. *)
Lemma checked_unspent cb raw s parent vb i l : represents (s :: parent) l -> checks cb raw s parent = Ok (Ok vb) ->
  readable_block cb raw -> getBlockIndex (bh_previousBlockHash (cb_block cb)) s = Ok i -> in_zone checkpoints i = false ->
  NoDup (all_images (vb_transactions vb)) /\
  Forall (fun x => x ∉ concat (map entry_images (take (Z.to_nat (i + 1)) l))) (all_images (vb_transactions vb)).
Proof.
  intros R HC HB Ei Hz; destruct (addBlock_checks_accepted _ _ _ _ _ HC) as (i' & reward & fee & A).
  rewrite (acc_previous _ _ _ _ _ _ _ _ A) in Ei; injection Ei as ->.
  destruct (accepted_transactions _ _ _ _ _ _ _ _ _ R A HB) as (_ & _ & Ha & Hn & _ & _ & _ & Hi0); split; [done|].
  apply Forall_forall; intros x Hx Hin; apply list_elem_of_In, in_concat in Hin as (im & (e & <- & He)%in_map_iff & Hin).
  apply list_elem_of_In, list_elem_of_lookup in He as [j Ej]; apply lookup_take_Some in Ej as [Ej Hj].
  assert (Hs : spent (s :: parent) !! x = Some (Z.of_nat j)).
  { apply (rep_spent _ _ R); exists e; split; [|by apply list_elem_of_In].
    unfold at_index; rewrite (proj2 (Z.ltb_ge _ _)) by lia; by rewrite Nat2Z.id. }
  pose proof (acceptable_unspent _ _ _ Ha Hz x Hx _ Hs); lia.
Qed.

(** ** Every chain the node builds *)

(** The ways a chain of segments comes about: the root, a block that passed the checks against
    some chain and is pushed on top of its previous block, an empty segment for a fork, the two
    halves of a split, and the chain below a segment. *)
Inductive built : cache -> ledger -> Prop :=
| built_root : built [new_segment 0] []
| built_genesis cb base raw size coins difficulty s' :
    push_ok cb base [] (mkValidatorState ∅) size difficulty (new_segment 0) [] ->
    ok_transaction (ct_transaction base) -> arrived cb raw -> block_entry cb raw (mkEntry (ct_transaction base) []) ->
    coins = fold_left (fun sum output => u64 (sum + o_amount output)) (tx_outputs (ct_transaction base)) 0 ->
    doPushBlock ndebug cb [] (mkValidatorState ∅) size coins difficulty raw [new_segment 0] = Ok [s'] ->
    built [s'] [mkEntry (ct_transaction base) []]
| built_block cb raw s parent vb base i l t ps t' :
    built (s :: parent) l -> checks cb raw s parent = Ok (Ok vb) -> readable_block cb raw ->
    getBlockIndex (bh_previousBlockHash (cb_block cb)) s = Ok i ->
    built (t :: ps) (take (Z.to_nat (i + 1)) l) -> room cb base vb i t ps ->
    doPushBlock ndebug cb (vb_transactions vb) (vb_validatorState vb) (vb_cumulativeBlockSize vb)
      (vb_emissionChange vb) (vb_currentDifficulty vb) raw (t :: ps) = Ok (t' :: ps) ->
    built (t' :: ps) (take (Z.to_nat (i + 1)) l ++ [mkEntry (bt_baseTransaction (cb_block cb)) (vb_transactions vb)])
| built_fork s parent l : built (s :: parent) l -> blockInfos s <> [] ->
    built (new_segment (height (s :: parent)) :: s :: parent) l
| built_split s parent l i low up : built (s :: parent) l -> startIndex s < i < end_index s ->
    split ndebug i s = Ok (low, up) -> built (up :: low :: parent) l
| built_below s parent l : built (s :: parent) l -> built parent (take (Z.to_nat (startIndex s)) l).

Lemma built_represents c l : built c l -> represents c l.
Proof.
  induction 1 as [|cb base raw size coins difficulty s' P Hok Har Hbe Ec E|cb raw s parent vb base i l t ps t' _ R HC HB Ei _ RT RM E
    |s parent l _ R Hn|s parent l i low up _ R Hi E|s parent l _ R].
  - apply represents_empty.
  - destruct (represents_push ndebug cb base [] (mkValidatorState ∅) size coins difficulty raw (new_segment 0) [] []
      represents_empty P) as (s2 & E2 & R & _); [apply Forall_singleton; exact Hok|done|constructor|done|done| |].
    + rewrite Ec; unfold created; cbn [e_base e_txs map].
      change 0 with (u64 0) at 1; rewrite fold_u64_total, Z.add_0_l, wrap_wrap, Z.sub_0_r; done.
    + rewrite E in E2; by injection E2 as ->.
  - destruct (block_extends cb raw s parent vb base i l t ps R HC HB Ei RT RM) as (t2 & E2 & R2 & _).
    rewrite E in E2; by injection E2 as ->.
  - by apply represents_fork.
  - destruct (represents_split ndebug i s parent l R Hi) as (low2 & up2 & E2 & R2 & _); rewrite E in E2; by injection E2 as -> ->.
  - by apply represents_parent.
Qed.

(** C4. A block that passes the checks of addBlock against any chain, at any
    of its blocks, can be pushed on a chain that holds the blocks up to its
    previous one: doPushBlock returns, with all its assertions, and the new
    chain is well formed and holds exactly the old blocks and the new one,
    with its key images spent and its emission added to the generated coins.
    Assumed: the block is read from bytes; the segment it is pushed on holds
    neither its hash nor those of its transactions, which differ; heights,
    sizes and counts stay within their fields (at most 65535 transactions, and
    outputs of each); inside the checkpoint zone, where the code leaves the
    spent test out, it spends nothing that the chain has spent. *)
Theorem block_extends_ledger cb raw s parent vb base i l t ps :
  represents (s :: parent) l -> checks cb raw s parent = Ok (Ok vb) -> readable_block cb raw ->
  getBlockIndex (bh_previousBlockHash (cb_block cb)) s = Ok i ->
  represents (t :: ps) (take (Z.to_nat (i + 1)) l) -> room cb base vb i t ps ->
  exists t', doPushBlock ndebug cb (vb_transactions vb) (vb_validatorState vb) (vb_cumulativeBlockSize vb)
      (vb_emissionChange vb) (vb_currentDifficulty vb) raw (t :: ps) = Ok (t' :: ps) /\
    represents (t' :: ps)
      (take (Z.to_nat (i + 1)) l ++ [mkEntry (bt_baseTransaction (cb_block cb)) (vb_transactions vb)]).
Proof.
  intros R HC HB Ei RT RM; destruct (block_extends cb raw s parent vb base i l t ps R HC HB Ei RT RM) as (t' & E & R' & _).
  by exists t'.
Qed.

(** C2. A block above the checkpoint zone that passes the checks spends
    distinct key images, none of which a block up to its previous one has
    spent. For every chain of segments that the node builds, by pushing
    checked blocks on top of their previous block, forking and splitting
    segments: no key image is spent twice in the blocks of the chain,
    checkIfSpent answers exactly whether a block up to the given one has spent
    a key image, and getAlreadyGeneratedCoins is, modulo 2^64, what all
    coinbases have paid beyond the fees. Assumed of each block that passes the
    checks: it is read from bytes, the hashes of its transactions differ from
    each other and from those on the chain, the heights, sizes, counts and the
    total work stay within the widths of their fields (at most 65535
    transactions, and outputs of each), and inside the checkpoint zone, where
    the code leaves the spent test out, it spends nothing that the chain has
    spent. *)
Theorem no_double_spend c l : built c l -> c <> [] ->
  (forall s parent cb raw vb i, c = s :: parent -> checks cb raw s parent = Ok (Ok vb) -> readable_block cb raw ->
     getBlockIndex (bh_previousBlockHash (cb_block cb)) s = Ok i -> in_zone checkpoints i = false ->
     NoDup (all_images (vb_transactions vb)) /\
     Forall (fun x => x ∉ concat (map entry_images (take (Z.to_nat (i + 1)) l))) (all_images (vb_transactions vb))) /\
  NoDup (concat (map entry_images l)) /\
  (forall x i, 0 <= i -> checkIfSpent x i c =
     Ok (bool_decide (x ∈ concat (map entry_images (take (Z.to_nat (i + 1)) l))))) /\
  (forall i, 0 <= i < Z.of_nat (length l) ->
     getAlreadyGeneratedCoins i c = Ok (u64 (supply (take (Z.to_nat (i + 1)) l)))).
Proof.
  intros B Hc; pose proof (built_represents _ _ B) as R; split.
  { intros s parent cb raw vb i -> HC HB Ei Hz; by eapply checked_unspent. }
  split; [apply R|]; split.
  - intros x i Hi; rewrite (checkIfSpent_chain c x i (rep_wf _ _ R) Hc Hi); f_equal.
    case_bool_decide as Hx.
    + apply list_elem_of_In, in_concat in Hx as (im & (e & <- & He)%in_map_iff & Hx).
      apply list_elem_of_In, list_elem_of_lookup in He as [j Ej]; apply lookup_take_Some in Ej as [Ej Hj].
      rewrite (proj2 (rep_spent _ _ R x (Z.of_nat j))); [apply Z.leb_le; lia|].
      exists e; split; [|by apply list_elem_of_In].
      unfold at_index; rewrite (proj2 (Z.ltb_ge _ _)) by lia; by rewrite Nat2Z.id.
    + destruct (spent c !! x) as [j|] eqn:E; [|done]; apply Z.leb_gt; apply (rep_spent _ _ R) in E as (e & Ee & He).
      destruct (Z.lt_ge_cases i j); [done|]; destruct Hx; unfold at_index in Ee; destruct (Z.ltb_spec j 0); [done|].
      apply list_elem_of_In, in_concat; exists (entry_images e); split; [|by apply list_elem_of_In].
      apply in_map_iff; exists e; split; [done|]; apply list_elem_of_In, list_elem_of_lookup; exists (Z.to_nat j).
      apply lookup_take_Some; split; [done|lia].
  - intros i Hi; rewrite (getAlreadyGeneratedCoins_chain c i (rep_wf _ _ R) Hc ltac:(lia)); unfold at_index.
    rewrite (proj2 (Z.ltb_ge _ _)) by lia; pose proof (rep_length _ _ R) as El.
    destruct (lookup_lt_is_Some_2 (infos c) (Z.to_nat i) ltac:(lia)) as [info E]; rewrite E; simpl.
    rewrite (rep_coins _ _ R _ _ E); by replace (S (Z.to_nat i)) with (Z.to_nat (i + 1)) by lia.
Qed.
End Blocks.

(** ** A chain of two blocks *)

Section Sample.
Import Currency.
#[local] Existing Instance TreeHash.weak_FastHash.

Definition genesis_tx : Transaction :=
  mkTransaction (mkPrefix 0 40 [InBase 0] [mkOutput 100 (OutKey identity_image)] []) [].
Definition miner_tx : Transaction :=
  mkTransaction (mkPrefix 1 41 [InBase 1] [mkOutput 2980 (OutKey identity_image)] []) [].

Definition sample_template (h : Z) (previous : Hash) (tx : Transaction) : BlockTemplate :=
  mkBlockTemplate (mkBlockHeader 1 0 7 (1000 + 30 * h) previous) (mkParentBlock 1 0 (repeat 0 32) 1 [] tx []) tx [].
Definition genesis_block : CachedBlock := mkCachedBlock (sample_template 0 (repeat 0 32) genesis_tx) (repeat 1 32).
Definition next_block : CachedBlock := mkCachedBlock (sample_template 1 (repeat 1 32) miner_tx) (repeat 2 32).

#[local] Instance sample_blocks : Arrived := fun cb raw =>
  (cb = genesis_block /\ raw = mkRawBlock [0] []) \/ (cb = next_block /\ raw = mkRawBlock [1] []).

Definition cached_tx (t : Transaction) : CachedTransaction :=
  mkCached t (match put_Transaction t with Ok ba => ba | Err _ => [] end).

Definition genesis_segment : segment :=
  mkSegment 0 [mkTransactionInfo 0 0 (0 :: repeat 0 31) 40 [OutKey identity_image] [0]] ∅
    [mkBlockInfo (repeat 1 32) 1000 1 100 1 80] {[100 := mkGlobalIndexes 0 [mkOutIndex 0 0 0]]} [] [mkRawBlock [0] []].

Definition next_validated : ValidatedBlock := mkValidated [] (mkValidatorState ∅) 42 2980 1.

Abbreviation sample_checks := (addBlock_checks false mainnet [] 10000 (fun _ => repeat 0 32) (fun _ => repeat 0 32)
  (fun _ => repeat 0 32) (repeat 0 32) [] next_block (mkRawBlock [1] []) genesis_segment []).

Lemma identity_point : is_point identity_image.
Proof. eexists; exact identity_image_zero. Qed.

Lemma identity_bytes : wf_key identity_image.
Proof. split; [done|]; apply (bool_decide_unpack _); vm_compute; exact I. Qed.

Lemma sample_tx_ok v u b a : 0 <= v <= 1 -> in_u 64 u -> in_u 32 b -> in_u 64 a ->
  ok_transaction (mkTransaction (mkPrefix v u [InBase b] [mkOutput a (OutKey identity_image)] []) []).
Proof.
  intros Hv Hu Hb Ha; split; [|done]; split; [exact Hv|]; split; [exact Hu|].
  split; [split; [|done]; apply Forall_singleton; exact Hb|].
  split; [split; [|done]; apply Forall_singleton; split; [exact Ha|exact identity_bytes]|].
  split; [constructor|done].
Qed.

Lemma sample_accepted : sample_checks = Ok (Ok next_validated).
Proof.
  assert (E : check_outputs (tx_outputs (bt_baseTransaction (cb_block next_block))) 0 = Ok (Ok 2980)).
  { apply check_outputs_spec; [|done|].
    - apply Forall_singleton; split; [done|exact identity_bytes].
    - split; [|done]; apply Forall_singleton; split; [done|exact identity_point]. }
  unfold addBlock_checks, validateBlock; rewrite E; vm_compute; reflexivity.
Qed.

Lemma sample_push_genesis : doPushBlock false genesis_block [] (mkValidatorState ∅) 80 100 1 (mkRawBlock [0] []) [new_segment 0]
  = Ok [genesis_segment].
Proof. vm_compute; reflexivity. Qed.

Lemma new_outputs_count a b k outs : forall n, (length (new_outputs a b k n outs) <= length outs)%nat.
Proof. induction outs as [|o outs IH]; intros n; cbn [new_outputs length]; [done|]; specialize (IH (n + 1)); case_match; simpl; lia. Qed.

Lemma genesis_push_ok : push_ok genesis_block (cached_tx genesis_tx) [] (mkValidatorState ∅) 80 1 (new_segment 0) [].
Proof.
  split; try reflexivity; try done.
  - apply not_elem_of_nil.
  - by apply Forall_singleton.
  - by apply NoDup_singleton.
  - intros a; cbn [block_outputs]; rewrite app_nil_r.
    pose proof (new_outputs_count a (height [new_segment 0]) 0 (tx_outputs (ct_transaction (cached_tx genesis_tx))) 0) as Hn.
    assert (Eo : outputs a [new_segment 0] = []) by (cbn [outputs app]; unfold own_outputs; cbn [new_segment keyOutputsGlobalIndexes]; by rewrite lookup_empty).
    rewrite Eo; cbn [ct_transaction cached_tx tx_outputs tx_prefix genesis_tx length] in *; lia.
Qed.

Abbreviation sample_built := (built false mainnet [] 10000 (fun _ => repeat 0 32) (fun _ => repeat 0 32)
  (fun _ => repeat 0 32) (repeat 0 32) []).

Lemma sample_built_genesis : sample_built [genesis_segment] [mkEntry genesis_tx []].
Proof.
  apply (built_genesis _ _ _ _ _ _ _ _ _ genesis_block (cached_tx genesis_tx) (mkRawBlock [0] []) 80 100 1).
  - exact genesis_push_ok.
  - apply sample_tx_ok; done.
  - by left.
  - split; [reflexivity|split; [reflexivity|constructor]].
  - reflexivity.
  - exact sample_push_genesis.
Qed.

Lemma sample_room : room [] next_block (cached_tx miner_tx) next_validated 0 genesis_segment [].
Proof.
  split; try reflexivity; try done.
  - apply (bool_decide_unpack _); vm_compute; exact I.
  - by apply Forall_singleton.
  - apply (bool_decide_unpack _); vm_compute; exact I.
  - intros a; cbn [block_outputs vb_transactions next_validated]; rewrite app_nil_r.
    pose proof (new_outputs_count a (height [genesis_segment]) 0 (tx_outputs (ct_transaction (cached_tx miner_tx))) 0) as Hn.
    assert (Ho : (length (outputs a [genesis_segment]) <= 1)%nat).
    { cbn [outputs app]; unfold own_outputs; cbn [genesis_segment keyOutputsGlobalIndexes].
      destruct (decide (a = 100)) as [->|Ha]; [by rewrite lookup_singleton_eq|by rewrite lookup_singleton_ne; [simpl; lia|]]. }
    cbn [ct_transaction cached_tx tx_outputs tx_prefix miner_tx length] in *; lia.
Qed.

Lemma sample_readable : readable_block next_block (mkRawBlock [1] []).
Proof. split; [by right|]; split; [apply sample_tx_ok; done|constructor]. Qed.

Lemma block_extends_ledger_witness : exists t, represents [t] [mkEntry genesis_tx []; mkEntry miner_tx []].
Proof.
  pose proof (built_represents _ _ _ _ _ _ _ _ _ _ _ sample_built_genesis) as R.
  destruct (block_extends_ledger false mainnet [] 10000 (fun _ => repeat 0 32) (fun _ => repeat 0 32) (fun _ => repeat 0 32)
    (repeat 0 32) [] next_block (mkRawBlock [1] []) genesis_segment [] next_validated (cached_tx miner_tx) 0
    [mkEntry genesis_tx []] genesis_segment [] R sample_accepted sample_readable eq_refl R sample_room) as (t & _ & Ht).
  exists t; exact Ht.
Defined.

Lemma no_double_spend_witness : exists t, getAlreadyGeneratedCoins 1 [t] = Ok 3080 /\
  checkIfSpent identity_image 1 [t] = Ok false.
Proof.
  pose proof sample_built_genesis as B; pose proof (built_represents _ _ _ _ _ _ _ _ _ _ _ B) as R.
  destruct (block_extends false mainnet [] 10000 (fun _ => repeat 0 32) (fun _ => repeat 0 32) (fun _ => repeat 0 32)
    (repeat 0 32) [] next_block (mkRawBlock [1] []) genesis_segment [] next_validated (cached_tx miner_tx) 0
    [mkEntry genesis_tx []] genesis_segment [] R sample_accepted sample_readable eq_refl R sample_room) as (t & E & _).
  exists t; destruct (no_double_spend false mainnet [] 10000 (fun _ => repeat 0 32) (fun _ => repeat 0 32) (fun _ => repeat 0 32)
    (repeat 0 32) [] [t] _ (built_block _ _ _ _ _ _ _ _ _ _ _ _ _ _ _ _ _ _ _ _ B sample_accepted sample_readable eq_refl B sample_room E)
    ltac:(done)) as (_ & _ & Hs & Hg).
  split; [apply (Hg 1); simpl; lia|]; exact (Hs identity_image 1 ltac:(lia)).
Defined.
End Sample.

End Ledger.
