(* ===== verification/PoolValidation.v ===== *)
(** The memory pool and the chain: what Core ([Validation]) lets into the pool, and how it keeps
    the pool apart from what the main chain has spent when a block arrives or the chain changes. *)

From S2P Require Import Prelude.
From S2P Require Import Config.
From S2P Require Import Types.
From S2P Require Import Keccak.
From S2P Require Import FormatUtils.
From S2P Require Import Currency.
From S2P Require Import TreeHash.
From S2P Require Import Serialization.
From S2P Require Import TransactionExtra.
From S2P Require Import Block.
From S2P Require Import CachedTransaction.
From S2P Require Import TransactionPool.
From S2P Require Import ChainRules.
From S2P Require Import BlockchainCache.
From S2P Require Import ChainView.
From S2P Require Import ChainPush.
From S2P Require Import Validation.
From S2P Require Import ValidationSpec.
From S2P Require Import Ledger.

Module PoolValidation.

Import parameters Serialization CachedTransaction BlockchainCache ChainView ChainPush TransactionPool Validation ValidationSpec.

Section Pool.
Import Currency.
Context {FH : FastHash}.
Context (ndebug : bool) (currency : Currency) (checkpoints : list (Z * Hash)) (now : Z).

(** No key image of the transaction is spent on the chain. *)
Definition fresh_on (chain : cache) (c : CachedTransaction) : Prop :=
  Forall (fun x => spent chain !! x = None) (images_of c).

(** The pool holds nothing that the chain has spent. *)
Definition consistent (chain : cache) (pool : TransactionPool) : Prop :=
  Forall (fun p => fresh_on chain (cachedTransaction p)) (TransactionPool.transactions pool).

(** Transactions read from bytes, small enough. *)
Definition storable (c : CachedTransaction) : Prop := readable c /\ 0 < blobSize c < 2 ^ 64.

Section Chain.
Context (s : segment) (parent : cache).
Hypothesis W : wf_cache (s :: parent).
Hypothesis HT : typed_chain (s :: parent).
Hypothesis Hne : blockInfos s <> [].

(** The top of the chain. *)
Let top := height (s :: parent) - 1.

Lemma top_index : getTopBlockIndex ndebug s = Ok top /\ 0 <= top.
Proof.
  unfold getTopBlockIndex; rewrite bool_decide_eq_true_2 by done; unfold assert_res; rewrite orb_true_r; cbn [rbind].
  destruct (wf_parent_top s parent W Hne) as [-> H]; unfold top; split; [done|lia].
Qed.

Lemma unspent_top x : unspent (s :: parent) top x -> spent (s :: parent) !! x = None.
Proof.
  intros H; destruct (spent (s :: parent) !! x) as [j|] eqn:E; [|done].
  pose proof (H j E); pose proof (spent_below _ W _ _ E); unfold top in *; simpl in *; lia.
Qed.

(** Above the checkpoints, an acceptable transaction spends nothing that is spent. *)
Lemma acceptable_fresh c : acceptable ndebug currency checkpoints now (s :: parent) top c ->
  in_zone checkpoints top = false -> fresh_on (s :: parent) c.
Proof.
  intros [_ H] Hz; specialize (H Hz); unfold fresh_on, images_of.
  induction H as [|[b|k] sig ins sigs Hi _ IH]; [constructor|done|].
  rewrite key_images_cons; constructor; [apply unspent_top, Hi|done].
Qed.

(** What the pool wants of a transaction beyond what a block does. *)
Record poolable (blockMedianSize : Z) (c : CachedTransaction) : Prop := {
  poolable_acceptable : acceptable ndebug currency checkpoints now (s :: parent) top c;
  poolable_mixins : validate_mixins [c] top = Ok tt;
  poolable_extra : Z.of_nat (length (tx_extra (ct_transaction c))) < MAX_EXTRA_SIZE_V2;
  poolable_size : exists m, getMaximumTransactionAllowedSize ndebug currency blockMedianSize = Ok m /\ blobSize c <= m;
  poolable_fee : m_mininumFee currency <= tx_fee c \/
    (tx_fee c = 0 /\ isFusionTransaction_tx currency (ct_transaction c) (blobSize c) top = true) }.

Lemma isTransactionValidForPool_sound blockMedianSize c st : readable c ->
  isTransactionValidForPool ndebug currency checkpoints now blockMedianSize c s parent = Ok (Some st) ->
  poolable blockMedianSize c /\ CachedTransaction.spentKeyImages st = list_to_set (images_of c).
Proof.
  intros Hok; unfold isTransactionValidForPool; destruct top_index as [-> Ht]; cbn [rbind].
  destruct (validate_mixins [c] top) as [[]|] eqn:Em; [|done].
  rewrite Z.geb_leb; destruct (Z.leb_spec MAX_EXTRA_SIZE_V2 (Z.of_nat (length (tx_extra (ct_transaction c))))) as [|Hx]; [done|].
  destruct (validateTransaction _ _ _ _ c _ _ _) as [[[st' fee]|]|] eqn:Ev; cbn [rbind]; [|done|done].
  apply validateTransaction_accepts in Ev as [G Ef _ S Z1]; [|done..].
  destruct (getMaximumTransactionAllowedSize _ _ _) as [m|] eqn:Ea; cbn [rbind]; [|done].
  destruct (Z.gtb_spec (blobSize c) m) as [|Hm]; [done|].
  destruct (negb _ && _) eqn:Eg; [done|]; intros [= <-]; split; [|rewrite S; set_solver].
  split; try done; [by exists m|]; fold (tx_fee c) in Ef; subst fee; apply andb_false_iff in Eg as [Eg|Eg%Z.ltb_ge]; [|by left].
  apply negb_false_iff, andb_true_iff in Eg as [Eg%Z.eqb_eq Hf]; by right.
Qed.

Lemma addTransactionToPool_sound blockMedianSize c w r w' : pool_inv (transactionPool w) -> storable c ->
  addTransactionToPool ndebug currency checkpoints now blockMedianSize c s parent w = Ok (r, w') ->
  pool_inv (transactionPool w') /\
  (if r then poolable blockMedianSize c /\
     TransactionPool.transactions (transactionPool w') ≡ₚ
       mkPending (u64 now) c (TransactionExtra.getPaymentIdFromTxExtra (tx_extra (ct_transaction c))) ::
       TransactionPool.transactions (transactionPool w)
   else w' = w).
Proof.
  intros Hi [Hr Hb]; unfold addTransactionToPool.
  destruct (isTransactionValidForPool _ _ _ _ _ _ _ _) as [[st|]|] eqn:Ev; cbn [rbind]; [| |done].
  2: { intros [= <- <-]; done. }
  destruct (isTransactionValidForPool_sound _ _ _ Hr Ev) as [HP HS].
  pose proof (poolable_acceptable _ _ HP) as [G _].
  assert (Hs : spends_once c) by (split; [apply good_input_key, G|apply G]).
  unfold wrapper_pushTransaction; destruct (isTransactionRecentlyDeleted _ w); [by intros [= <- <-]|].
  destruct (TransactionPool.pushTransaction now c st (transactionPool w)) as [b p'] eqn:Ep; intros [= <- <-].
  pose proof (pushTransaction_spec _ _ _ _ _ _ Hi Hs Hb HS Ep) as [Hi' H]; cbn [transactionPool]; split; [done|].
  destruct b; [split; [done|apply H]|]; destruct H as [-> _]; by destruct w.
Qed.
End Chain.

(** ** A block arrives *)

(** What stays in the pool when a block has spent [images]. *)
Definition stays (images : gset KeyImage) (maxSize : Z) (p : PendingTransactionInfo) : Prop :=
  Forall (fun x => x ∉ images) (images_of (cachedTransaction p)) /\ blobSize (cachedTransaction p) <= maxSize.

#[local] Instance stays_dec images maxSize p : Decision (stays images maxSize p).
Proof. unfold stays; apply _. Defined.

Lemma wrapper_remove_middle p l1 l2 w : pool_inv (transactionPool w) ->
  TransactionPool.transactions (transactionPool w) = l1 ++ p :: l2 ->
  exists w', wrapper_removeTransaction ndebug (pending_hash p) w = Ok w' /\ pool_inv (transactionPool w') /\
    TransactionPool.transactions (transactionPool w') = l1 ++ l2 /\
    recentlyDeletedTransactions w' = recentlyDeletedTransactions w /\ timeout w' = timeout w.
Proof.
  intros Hi El; pose proof (removeTransaction_spec ndebug (pending_hash p) _ Hi) as Hr.
  assert (Hn : NoDup (map pending_hash (l1 ++ p :: l2))) by (rewrite <- El; apply Hi).
  rewrite (find_hash_elem (pending_hash p) _ p (inv_hashes _ Hi)) in Hr;
    [|rewrite El; apply elem_of_app; right; apply list_elem_of_here|done].
  destruct Hr as [E Hi']; rewrite El, erase_hash_middle in E, Hi' by done.
  unfold wrapper_removeTransaction; rewrite E; cbn [of_option rbind snd]; eexists; split; [reflexivity|]; by split_and!.
Qed.

Lemma actualize_lite_spec blockMedianSize st maxSize todo : 
  getMaximumTransactionAllowedSize ndebug currency blockMedianSize = Ok maxSize ->
  forall kept w, pool_inv (transactionPool w) -> TransactionPool.transactions (transactionPool w) = kept ++ todo ->
  exists w', actualize_lite_loop ndebug currency blockMedianSize st (map pending_hash todo) w = Ok w' /\
    pool_inv (transactionPool w') /\ recentlyDeletedTransactions w' = recentlyDeletedTransactions w /\ timeout w' = timeout w /\
    TransactionPool.transactions (transactionPool w') = kept ++ filter (stays (CachedTransaction.spentKeyImages st) maxSize) todo.
Proof.
  intros Em; induction todo as [|p todo IH]; intros kept w Hi El; cbn [map actualize_lite_loop].
  { exists w; done. }
  assert (Ef : find_hash (pending_hash p) (TransactionPool.transactions (transactionPool w)) = Some p).
  { apply find_hash_elem; [apply Hi|rewrite El; apply elem_of_app; right; apply list_elem_of_here|done]. }
  unfold getTransaction; rewrite Ef; cbn [mbind option_bind of_option rbind].
  assert (Hs : spends_once (cachedTransaction p)).
  { pose proof (inv_spends _ Hi) as H; rewrite El, Forall_app, Forall_cons in H; apply H. }
  rewrite (extractSpentOutputs_ok ndebug _ Hs); cbn [of_option rbind].
  set (drop := (if hasIntersections st _ then Ok true else _) : res bool).
  assert (Ed : drop = Ok (negb (bool_decide (stays (CachedTransaction.spentKeyImages st) maxSize p)))).
  { unfold drop, stays; destruct (hasIntersections st _) eqn:Eh.
    - rewrite bool_decide_eq_false_2; [done|]; intros [H _]; apply not_false_iff_true in Eh; apply Eh, hasIntersections_spec.
      intros x Hx Hx'; apply elem_of_list_to_set in Hx; rewrite Forall_forall in H; exact (H x Hx Hx').
    - apply hasIntersections_spec in Eh; cbn [CachedTransaction.spentKeyImages] in Eh; rewrite Em; cbn [rbind]; f_equal.
      assert (H : Forall (fun x => x ∉ CachedTransaction.spentKeyImages st) (images_of (cachedTransaction p))).
      { apply Forall_forall; intros x Hx Hx'; apply (Eh x); [by apply elem_of_list_to_set|done]. }
      destruct (Z.gtb_spec (blobSize (cachedTransaction p)) maxSize).
      + rewrite bool_decide_eq_false_2; [done|]; intros [_ ?]; lia.
      + rewrite bool_decide_eq_true_2; [done|]; by split. }
  rewrite Ed; cbn [rbind]; clear drop Ed; rewrite filter_cons; case_decide as Hk.
  - rewrite bool_decide_eq_true_2 by done; cbn [negb rbind].
    destruct (IH (kept ++ [p]) w Hi) as (w' & E & H); [by rewrite <- app_assoc|]; exists w'; by rewrite <- app_assoc in H.
  - rewrite bool_decide_eq_false_2 by done; cbn [negb rbind].
    destruct (wrapper_remove_middle p kept todo w Hi El) as (w1 & -> & Hi1 & El1 & Er1 & Et1); cbn [rbind].
    destruct (IH kept w1 Hi1 El1) as (w' & E & H1 & H2 & H3 & H4); exists w'; split_and!; try done; congruence.
Qed.

(** ** The chain changes *)

Section Reorganised.
Context (s : segment) (parent : cache).
Hypothesis W : wf_cache (s :: parent).
Hypothesis HT : typed_chain (s :: parent).
Hypothesis Hne : blockInfos s <> [].

Abbreviation storable_pool w := (Forall (fun p => storable (cachedTransaction p)) (TransactionPool.transactions (transactionPool w))).

(** Every transaction is among those still to be offered or good for the chain. *)
Definition sorted_out (P : CachedTransaction -> Prop) (todo : list Hash) (w : TransactionPoolCleanWrapper) : Prop :=
  Forall (fun p => pending_hash p ∈ todo \/ P (cachedTransaction p)) (TransactionPool.transactions (transactionPool w)).

Lemma actualize_loop_sound blockMedianSize todo : forall w w', pool_inv (transactionPool w) -> storable_pool w ->
  NoDup todo -> sorted_out (poolable s parent blockMedianSize) todo w ->
  actualize_loop ndebug currency checkpoints now blockMedianSize todo s parent w = Ok w' ->
  pool_inv (transactionPool w') /\ storable_pool w' /\ sorted_out (poolable s parent blockMedianSize) [] w'.
Proof.
  induction todo as [|h todo IH]; intros w w' Hi Hst Hn Hp; cbn [actualize_loop]; [by intros [= <-]|].
  apply NoDup_cons in Hn as [Hh Hn]; unfold getTransaction.
  destruct (find_hash h (TransactionPool.transactions (transactionPool w))) as [p|] eqn:Ef; cbn [mbind option_bind of_option rbind]; [|done].
  apply find_hash_Some in Ef as [Hpin Eh]; apply list_elem_of_split in Hpin as (l1 & l2 & El).
  destruct (wrapper_remove_middle p l1 l2 w Hi El) as (w1 & E1 & Hi1 & El1 & _); rewrite <- Eh, E1; cbn [rbind].
  assert (Hcp : storable (cachedTransaction p)) by (rewrite El, Forall_app, Forall_cons in Hst; apply Hst).
  assert (Hst1 : storable_pool w1) by (rewrite El1; rewrite El, Forall_app, Forall_cons in Hst; apply Forall_app; split; apply Hst).
  assert (Hp1 : sorted_out (poolable s parent blockMedianSize) todo w1).
  { unfold sorted_out in *; rewrite El1; pose proof (inv_hashes _ Hi) as Hnd; rewrite El, map_app in Hnd; simpl in Hnd.
    apply NoDup_app in Hnd as (_ & D1 & [D2 _]%NoDup_cons).
    assert (Hother : Forall (fun q => pending_hash q <> h) (l1 ++ l2)).
    { apply Forall_app; split; apply Forall_forall; intros q Hq E; rewrite <- Eh in E.
      - apply (D1 (pending_hash q)); [by apply list_elem_of_fmap_2|rewrite E; apply list_elem_of_here].
      - apply D2; rewrite <- E; by apply list_elem_of_fmap_2. }
    rewrite El, Forall_app, Forall_cons in Hp; destruct Hp as (Hp1 & _ & Hp2).
    eapply Forall_impl; [exact (proj2 (Forall_and _ _) (conj Hother (proj2 (Forall_app _ _ _) (conj Hp1 Hp2))))|].
    intros q [Hq [[?|?]%elem_of_cons|?]]; [done|by left|by right]. }
  destruct (addTransactionToPool _ _ _ _ _ _ _ _ _) as [[r w2]|] eqn:E2; cbn [rbind snd]; [|done].
  destruct (addTransactionToPool_sound s parent W HT Hne _ _ _ _ _ Hi1 Hcp E2) as [Hi2 H2]; apply IH; try done.
  - destruct r; [destruct H2 as [_ ->]; by constructor|by subst w2].
  - destruct r; [destruct H2 as [HP H2]; unfold sorted_out; rewrite H2; constructor; [by right|done]|by subst w2].
Qed.

Lemma actualizePoolTransactions_sound blockMedianSize w w' : pool_inv (transactionPool w) -> storable_pool w ->
  actualizePoolTransactions ndebug currency checkpoints now blockMedianSize s parent w = Ok w' ->
  pool_inv (transactionPool w') /\ storable_pool w' /\
  Forall (fun p => poolable s parent blockMedianSize (cachedTransaction p)) (TransactionPool.transactions (transactionPool w')).
Proof.
  intros Hi Hst E; destruct (actualize_loop_sound blockMedianSize _ w w' Hi Hst (inv_hashes _ Hi)) with (2 := E) as (H1 & H2 & H3).
  - apply Forall_forall; intros p Hp; left; by apply list_elem_of_fmap_2.
  - split_and!; [done..|]; eapply Forall_impl; [exact H3|]; intros p [H|H]; [by apply not_elem_of_nil in H|done].
Qed.
End Reorganised.

End Pool.

(** ** A block that spends what the pool holds *)

Section Sample.
Import Ledger.
#[local] Existing Instance TreeHash.weak_FastHash.

Definition sample_pool : TransactionPoolCleanWrapper :=
  mkWrapper (TransactionPool.pushTransaction 5 (sample_cached 100 [1; 2; 3; 4] 9) (mkValidatorState {[repeat 9 32]}) empty_pool).2
    ∅ 1000.

Lemma sample_pool_inv : pool_inv (transactionPool sample_pool).
Proof.
  apply (pool_reachable_inv false); eapply rtc_l; [|apply rtc_refl].
  apply (step_push false 5 (sample_cached 100 [1; 2; 3; 4] 9) (mkValidatorState {[repeat 9 32]}));
    [by eapply sample_spends|split; vm_compute; reflexivity|vm_compute; reflexivity].
Qed.

End Sample.

End PoolValidation.
