(* ===== verification/Core.v ===== *)
(** The tree of blockchain segments: src/src/CryptoNoteCore/Core.cpp.

    The segments that chainsStorage owns are the objects of a heap, a pointer is a number.  An
    object has the data of its segment ([BlockchainCache.segment]), the pointer to its parent
    and those to its children.  The root is of class DatabaseBlockchainCache when the factory of
    the daemon makes it; what such an object stores is taken to be what the in-memory class
    stores, its treatment of children is its own.  A loop over parents has fuel for every object
    of the heap: it is exhausted only by a cycle, where the source does not end.  The messages to
    observers and the log are not modelled. *)

From S2P Require Import Prelude.
From S2P Require Import Config.
From S2P Require Import Types.
From S2P Require Import Keccak.
From S2P Require Import Currency.
From S2P Require Import Serialization.
From S2P Require Import Block.
From S2P Require Import CachedTransaction.
From S2P Require Import TransactionPool.
From S2P Require Import ChainRules.
From S2P Require Import BlockchainCache.
From S2P Require Import Validation.

Module Core.

Import Currency Serialization CachedTransaction BlockchainCache Validation.

Abbreviation ptr := nat.

Record node := mkNode {
  n_segment : segment;
  n_parent : option ptr;
  n_children : list ptr;
  n_database : bool }.

Record Core := mkCore {
  heap : gmap ptr node;
  chainsStorage : list ptr;
  chainsLeaves : list ptr;
  mainChainSet : gset ptr;
  mainChainStorage : list RawBlock;
  transactionPool : TransactionPool.TransactionPoolCleanWrapper;
  blockMedianSize : Z;
  initialized : bool }.

Inductive AddBlockErrorCode := ADDED_TO_MAIN | ADDED_TO_ALTERNATIVE | ADDED_TO_ALTERNATIVE_AND_SWITCHED.

Definition with_heap (h : gmap ptr node) (st : Core) : Core :=
  mkCore h (chainsStorage st) (chainsLeaves st) (mainChainSet st) (mainChainStorage st) (transactionPool st)
    (blockMedianSize st) (initialized st).
Definition with_chains (storage leaves : list ptr) (st : Core) : Core :=
  mkCore (heap st) storage leaves (mainChainSet st) (mainChainStorage st) (transactionPool st) (blockMedianSize st)
    (initialized st).
Definition with_mainChainSet (m : gset ptr) (st : Core) : Core :=
  mkCore (heap st) (chainsStorage st) (chainsLeaves st) m (mainChainStorage st) (transactionPool st) (blockMedianSize st)
    (initialized st).
Definition with_mainChainStorage (l : list RawBlock) (st : Core) : Core :=
  mkCore (heap st) (chainsStorage st) (chainsLeaves st) (mainChainSet st) l (transactionPool st) (blockMedianSize st)
    (initialized st).
Definition with_pool (w : TransactionPool.TransactionPoolCleanWrapper) (st : Core) : Core :=
  mkCore (heap st) (chainsStorage st) (chainsLeaves st) (mainChainSet st) (mainChainStorage st) w (blockMedianSize st)
    (initialized st).
Definition with_median (m : Z) (st : Core) : Core :=
  mkCore (heap st) (chainsStorage st) (chainsLeaves st) (mainChainSet st) (mainChainStorage st) (transactionPool st) m
    (initialized st).

Definition with_segment (s : segment) (n : node) : node := mkNode s (n_parent n) (n_children n) (n_database n).
Definition with_parent (p : ptr) (n : node) : node := mkNode (n_segment n) (Some p) (n_children n) (n_database n).
Definition with_children (l : list ptr) (n : node) : node := mkNode (n_segment n) (n_parent n) l (n_database n).

(** ** Following the parents *)

(** A loop [while (segment != nullptr) ... segment = segment->getParent()]: the pointers from
    [p] to the root. *)
Fixpoint parents_loop (fuel : nat) (h : gmap ptr node) (p : ptr) : res (list ptr) :=
  match fuel with
  | O => Err Undefined
  | S fuel =>
    let! n := of_option Undefined (h !! p) in
    match n_parent n with
    | None => Ok [p]
    | Some q => let! ps := parents_loop fuel h q in Ok (p :: ps)
    end
  end.

Definition parents (h : gmap ptr node) (p : ptr) : res (list ptr) := parents_loop (size h) h p.

(** The segment at [p] with its parents. *)
Definition cache_of (h : gmap ptr node) (p : ptr) : res cache :=
  let! ps := parents h p in Ok (omap (fun q => n_segment <$> h !! q) ps).

(** findIndexInChain, for a hash and for an index. *)
Fixpoint findIndexInChain_loop (fuel : nat) (h : gmap ptr node) (found : segment -> bool) (p : ptr) : res (option ptr) :=
  match fuel with
  | O => Err Undefined
  | S fuel =>
    let! n := of_option Undefined (h !! p) in
    if found (n_segment n) then Ok (Some p)
    else match n_parent n with None => Ok None | Some q => findIndexInChain_loop fuel h found q end
  end.

Definition findIndexInChain (h : gmap ptr node) (found : segment -> bool) (p : ptr) : res (option ptr) :=
  findIndexInChain_loop (size h) h found p.

Definition has_hash (blockHash : Hash) (s : segment) : bool := hasBlock blockHash s.

Definition has_index (blockIndex : Z) (s : segment) : bool :=
  (startIndex s <=? blockIndex) && (blockIndex <? u32 (startIndex s + getBlockCount s)).

Definition main_leaf (st : Core) : res ptr := of_option Undefined (head (chainsLeaves st)).

Definition findMainChainSegmentContainingBlock (found : segment -> bool) (st : Core) : res (option ptr) :=
  let! leaf := main_leaf st in findIndexInChain (heap st) found leaf.

(** std::find_if over the leaves but the first, with the assignment in its predicate. *)
Fixpoint find_alternative (h : gmap ptr node) (found : segment -> bool) (leaves : list ptr) : res (option ptr) :=
  match leaves with
  | [] => Ok None
  | leaf :: leaves =>
    let! r := findIndexInChain h found leaf in
    match r with Some p => Ok (Some p) | None => find_alternative h found leaves end
  end.

Definition findAlternativeSegmentContainingBlock (blockHash : Hash) (st : Core) : res (option ptr) :=
  find_alternative (heap st) (has_hash blockHash) (tail (chainsLeaves st)).

(** The overload for an index looks and returns a null pointer. *)
Definition findAlternativeSegmentContainingBlock_index (blockIndex : Z) (st : Core) : res (option ptr) :=
  let! _ := find_alternative (heap st) (has_index blockIndex) (tail (chainsLeaves st)) in Ok None.

Definition findSegmentContainingBlock (blockHash : Hash) (st : Core) : res (option ptr) :=
  let! r := findMainChainSegmentContainingBlock (has_hash blockHash) st in
  match r with
  | Some p => Ok (Some p)
  | None => findAlternativeSegmentContainingBlock blockHash st
  end.

Definition findSegmentContainingBlock_index (blockHeight : Z) (st : Core) : res (option ptr) :=
  let! r := findMainChainSegmentContainingBlock (has_index blockHeight) st in
  match r with
  | Some p => Ok (Some p)
  | None => findAlternativeSegmentContainingBlock_index blockHeight st
  end.

Definition throwIfNotInitialized (st : Core) : res unit := if initialized st then Ok tt else Err RuntimeError.

Definition hasBlock (blockHash : Hash) (st : Core) : res bool :=
  let! _ := throwIfNotInitialized st in
  let! p := findSegmentContainingBlock blockHash st in Ok (bool_decide (is_Some p)).

Definition updateMainChainSet (st : Core) : res Core :=
  let! leaf := main_leaf st in
  let! ps := parents (heap st) leaf in Ok (with_mainChainSet (list_to_set ps) st).

(** ** Objects *)

Section Objects.
Context {FH : FastHash}.
Context (ndebug : bool).

Definition get_node (p : ptr) (st : Core) : res node := of_option Undefined (heap st !! p).

Definition getChildCount (n : node) : Z := Z.of_nat (length (n_children n)).

Definition addChild (child : ptr) (n : node) : res node :=
  if n_database n then Ok (if bool_decide (child ∈ n_children n) then n else with_children (n_children n ++ [child]) n)
  else
    let! _ := assert_res ndebug (bool_decide (child ∉ n_children n)) in
    Ok (with_children (n_children n ++ [child]) n).

(** Whether the child was there, and the object without it. *)
Definition deleteChild (child : ptr) (n : node) : bool * node :=
  if n_database n then
    (bool_decide (child ∈ n_children n), with_children (filter (fun c => c <> child) (n_children n)) n)
  else match list_find (fun c => c = child) (n_children n) with
       | None => (false, n)
       | Some (i, _) => (true, with_children (delete i (n_children n)) n)
       end.

Definition setParent (p : ptr) (n : node) : res node :=
  if n_database n then let! _ := assert_res ndebug false in Ok n else Ok (with_parent p n).

(** fixChildrenParent *)
Fixpoint fixChildrenParent (children : list ptr) (p : ptr) (h : gmap ptr node) : res (gmap ptr node) :=
  match children with
  | [] => Ok h
  | child :: children =>
    let! n := of_option Undefined (h !! child) in
    let! n := setParent p n in
    fixChildrenParent children p (<[child := n]> h)
  end.

(** createBlockchainCache: a new object in memory, not yet among the children of its parent. *)
Definition createBlockchainCache (parent : ptr) (startIndex : Z) (st : Core) : ptr * Core :=
  let p := fresh (dom (heap st)) in
  (p, with_heap (<[p := mkNode (new_segment startIndex) (Some parent) [] false]> (heap st)) st).

(** pushBlock of the object at [p]. *)
Definition pushBlock (p : ptr) (cachedBlock : CachedBlock) (v : ValidatedBlock) (rawBlock : RawBlock) (st : Core) : res Core :=
  let! n := get_node p st in
  let! c := cache_of (heap st) p in
  let! c := doPushBlock ndebug cachedBlock (vb_transactions v) (vb_validatorState v) (vb_cumulativeBlockSize v)
              (vb_emissionChange v) (vb_currentDifficulty v) rawBlock c in
  let! s := of_option Undefined (head c) in
  Ok (with_heap (<[p := with_segment s n]> (heap st)) st).

(** split of the object at [p]: the pointer to the new upper segment.  The in-memory class hands
    its children to the new segment, the other one keeps them. *)
Definition splitSegment (p : ptr) (splitBlockIndex : Z) (st : Core) : res (ptr * Core) :=
  let! n := get_node p st in
  let! halves := split ndebug splitBlockIndex (n_segment n) in
  let '(lower, upper) := halves in
  let u := fresh (dom (heap st)) in
  if n_database n then
    Ok (u, with_heap (<[u := mkNode upper (Some p) [] false]>
                     (<[p := mkNode lower (n_parent n) (n_children n ++ [u]) true]> (heap st))) st)
  else
    let! h := fixChildrenParent (n_children n) u (heap st) in
    Ok (u, with_heap (<[u := mkNode upper (Some p) (n_children n) false]>
                     (<[p := mkNode lower (n_parent n) [u] false]> h)) st).
End Objects.

(** ** addBlock *)

Section AddBlock.
Context {FH : FastHash}.
Context (ndebug : bool) (currency : Currency) (checkpoints : list (Z * Hash)) (now : Z).
Context (cn_slow_hash_v0 cn_lite_slow_hash_v1 cn_turtle_lite_slow_hash_v2 : list Z -> Hash) (genesisBlockHash : Hash).
Context (d : UpgradeManager.detectors).
(** The uninitialised block that bytes are read into. *)
Context (b0 : BlockTemplate).

(** The main chain, its leaf first. *)
Definition main_cache (st : Core) : res (segment * cache) :=
  let! leaf := main_leaf st in
  let! c := cache_of (heap st) leaf in
  match c with s :: parent => Ok (s, parent) | [] => Err Undefined end.

Definition updateBlockMedianSize (st : Core) : res Core :=
  let! c := main_cache st in
  let! m := Validation.updateBlockMedianSize ndebug currency d c.1 c.2 in Ok (with_median m st).

Definition actualizePoolTransactions (st : Core) : res Core :=
  let! c := main_cache st in
  let! w := Validation.actualizePoolTransactions ndebug currency checkpoints now (blockMedianSize st) c.1 c.2
              (transactionPool st) in
  Ok (with_pool w st).

Definition actualizePoolTransactionsLite (validatorState : TransactionValidatorState) (st : Core) : res Core :=
  let! w := Validation.actualizePoolTransactionsLite ndebug currency (blockMedianSize st) validatorState (transactionPool st) in
  Ok (with_pool w st).

Definition addTransactionToPool (ba : BinaryArray) (st : Core) : res (bool * Core) :=
  let! _ := throwIfNotInitialized st in
  let! c := main_cache st in
  let! r := addTransactionToPool_bytes ndebug currency checkpoints now (blockMedianSize st) ba c.1 c.2 (transactionPool st) in
  Ok (r.1, with_pool r.2 st).

Fixpoint add_transactions (bas : list BinaryArray) (st : Core) : res Core :=
  match bas with
  | [] => Ok st
  | ba :: bas => let! r := addTransactionToPool ba st in add_transactions bas r.2
  end.

(** copyTransactionsToPool, for the objects [ps] from [alt] to the root. *)
Fixpoint copy_loop (ps : list ptr) (st : Core) : res Core :=
  match ps with
  | [] => Ok st
  | alt :: ps =>
    if bool_decide (alt ∈ mainChainSet st) then Ok st
    else
      let! n := get_node alt st in
      let! c := cache_of (heap st) alt in
      let! transactions := getRawTransactions b0 (BlockchainCache.getTransactionHashes (n_segment n)) c in
      let! st := add_transactions transactions.1 st in
      copy_loop ps st
  end.

Definition copyTransactionsToPool (alt : ptr) (st : Core) : res Core :=
  let! ps := parents (heap st) alt in copy_loop ps st.

(** The blocks [index .. top] of a chain, [n] in number. *)
Fixpoint blocks_from (index : Z) (n : nat) (c : cache) : res (list RawBlock) :=
  match n with
  | O => Ok []
  | S n =>
    let! b := BlockchainCache.getBlockByIndex index c in
    let! bs := blocks_from (index + 1) n c in Ok (b :: bs)
  end.

Definition switchMainChainStorage (splitBlockIndex : Z) (newChain : ptr) (st : Core) : res Core :=
  let count := Z.of_nat (length (mainChainStorage st)) in
  let! _ := assert_res ndebug (count >? splitBlockIndex) in
  if count <? splitBlockIndex then Err Undefined
  else
    let! n := get_node newChain st in
    let! c := cache_of (heap st) newChain in
    let! top := getTopBlockIndex ndebug (n_segment n) in
    let! blocks := blocks_from splitBlockIndex (Z.to_nat (top + 1 - splitBlockIndex)) c in
    Ok (with_mainChainStorage (take (Z.to_nat splitBlockIndex) (mainChainStorage st) ++ blocks) st).

(** A new segment on top of [p] that starts with the block. *)
Definition forkSegment (p : ptr) (previousBlockIndex : Z) (cachedBlock : CachedBlock) (v : ValidatedBlock)
    (rawBlock : RawBlock) (st : Core) : res Core :=
  let '(newCache, st) := createBlockchainCache p (u32 (previousBlockIndex + 1)) st in
  let! n := get_node p st in
  let! n := addChild ndebug newCache n in
  let st := with_heap (<[p := n]> (heap st)) st in
  let st := with_chains (chainsStorage st ++ [newCache]) (chainsLeaves st ++ [newCache]) st in
  pushBlock ndebug newCache cachedBlock v rawBlock st.

(** The leaf at [p], which is not the main one, has more work than the main chain. *)
Definition switchChain (p : ptr) (st : Core) : res Core :=
  let! leaf := main_leaf st in
  match list_find (fun q => q = p) (chainsLeaves st) with
  | None => Err Undefined
  | Some (endpointIndex, _) =>
    let! _ := assert_res ndebug (bool_decide (endpointIndex <> length (chainsStorage st))) in
    let! _ := assert_res ndebug (bool_decide (endpointIndex <> O)) in
    (* std::swap(chainsLeaves[0], chainsLeaves[endpointIndex]) *)
    let st := with_chains (chainsStorage st) (<[O := p]> (<[endpointIndex := leaf]> (chainsLeaves st))) st in
    let! st := updateMainChainSet st in
    let! st := updateBlockMedianSize st in
    let! st := actualizePoolTransactions st in
    let! st := copyTransactionsToPool leaf st in
    let! n := get_node p st in
    switchMainChainStorage (startIndex (n_segment n)) p st
  end.

(** On top of the leaf at [p]. *)
Definition extendLeaf (p : ptr) (cachedBlock : CachedBlock) (v : ValidatedBlock) (rawBlock : RawBlock) (st : Core)
  : res (AddBlockErrorCode * Core) :=
  let! leaf := main_leaf st in
  if bool_decide (p = leaf) then
    let st := with_mainChainStorage (mainChainStorage st ++ [rawBlock]) st in
    let! st := pushBlock ndebug p cachedBlock v rawBlock st in
    let! st := updateBlockMedianSize st in
    let! st := actualizePoolTransactionsLite (vb_validatorState v) st in
    Ok (ADDED_TO_MAIN, st)
  else
    let! st := pushBlock ndebug p cachedBlock v rawBlock st in
    let! n := get_node p st in
    let! main := get_node leaf st in
    let! work := getCurrentCumulativeDifficulty (n_segment n) in
    let! main_work := getCurrentCumulativeDifficulty (n_segment main) in
    if work >? main_work then let! st := switchChain p st in Ok (ADDED_TO_ALTERNATIVE_AND_SWITCHED, st)
    else Ok (ADDED_TO_ALTERNATIVE, st).

(** Inside the segment at [p]. *)
Definition splitAndFork (p : ptr) (previousBlockIndex : Z) (cachedBlock : CachedBlock) (v : ValidatedBlock)
    (rawBlock : RawBlock) (st : Core) : res Core :=
  let! r := splitSegment ndebug p (u32 (previousBlockIndex + 1)) st in
  let '(upperSegment, st) := r in
  let! up := get_node upperSegment st in
  let! low := get_node p st in
  let! _ := assert_res ndebug (getBlockCount (n_segment up) >? 0) in
  let! _ := assert_res ndebug (getBlockCount (n_segment low) >? 0) in
  let! leaves := (if getChildCount up =? 0 then
      match list_find (fun q => q = p) (chainsLeaves st) with
      | None => Err Undefined
      | Some (found, _) => Ok (<[found := upperSegment]> (chainsLeaves st))
      end
    else Ok (chainsLeaves st)) in
  let st := with_chains (chainsStorage st ++ [upperSegment]) leaves st in
  let! st := forkSegment p previousBlockIndex cachedBlock v rawBlock st in
  updateMainChainSet st.

(** What follows the checks: the block goes on top of the block [previousBlockIndex] of the
    segment at [p]. *)
Definition attachBlock (p : ptr) (previousBlockIndex : Z) (cachedBlock : CachedBlock) (v : ValidatedBlock)
    (rawBlock : RawBlock) (st : Core) : res (AddBlockErrorCode * Core) :=
  let! n := get_node p st in
  let! top := getTopBlockIndex ndebug (n_segment n) in
  if top =? previousBlockIndex then
    if getChildCount n =? 0 then extendLeaf p cachedBlock v rawBlock st
    else
      let! st := forkSegment p previousBlockIndex cachedBlock v rawBlock st in
      let! st := updateMainChainSet st in
      let! st := updateBlockMedianSize st in
      Ok (ADDED_TO_ALTERNATIVE, st)
  else
    let! st := splitAndFork p previousBlockIndex cachedBlock v rawBlock st in
    Ok (ADDED_TO_ALTERNATIVE, st).

Definition addBlock (cachedBlock : CachedBlock) (rawBlock : RawBlock) (st : Core)
  : res (result validation_error AddBlockErrorCode * Core) :=
  let b := cb_block cachedBlock in
  let! known := hasBlock (cb_hash cachedBlock) st in
  if known : bool then Ok (Err ALREADY_EXISTS, st)
  else
    let! _ := assert_res ndebug
      (bool_decide (length (rb_transactions rawBlock) = length (bt_transactionHashes b))) in
    let! cache := findSegmentContainingBlock (bh_previousBlockHash b) st in
    match cache with
    | None => Ok (Err REJECTED_AS_ORPHANED, st)
    | Some p =>
      let! c := cache_of (heap st) p in
      match c with
      | [] => Err Undefined
      | s :: parent =>
        let! v := addBlock_checks ndebug currency checkpoints now cn_slow_hash_v0 cn_lite_slow_hash_v1
                    cn_turtle_lite_slow_hash_v2 genesisBlockHash d cachedBlock rawBlock s parent in
        match v with
        | Err e => Ok (Err e, st)
        | Ok v =>
          let! previousBlockIndex := BlockchainCache.getBlockIndex (bh_previousBlockHash b) s in
          let! r := attachBlock p previousBlockIndex cachedBlock v rawBlock st in
          Ok (Ok r.1, r.2)
        end
      end
    end.

(** addBlock for the bytes of a block. *)
Definition addBlock_raw (rawBlock : RawBlock) (st : Core) : res (result validation_error AddBlockErrorCode * Core) :=
  let! _ := throwIfNotInitialized st in
  match fromBinaryArray (Block.get_BlockTemplate b0) (rb_block rawBlock) with
  | Err _ => Ok (Err DESERIALIZATION_FAILED, st)
  | Ok b =>
    match Block.getBlockHash b with
    | Err _ => Err RuntimeError
    | Ok h => addBlock (mkCachedBlock b h) rawBlock st
    end
  end.

(** DatabaseBlockchainCache::load, which has an empty body. *)
Definition database_load (p : ptr) (st : Core) : Core := st.

(** initRootSegment, with the root the daemon uses: a DatabaseBlockchainCache on an empty database,
    whose constructor adds the genesis block. *)
Definition initRootSegment (genesisBlock : CachedBlock) (genesisBlob : BinaryArray) (st : Core) : res Core :=
  let! c := new_root ndebug genesisBlock genesisBlob in
  let! s := of_option Undefined (head c) in
  let cache := fresh (dom (heap st)) in
  let st := with_heap (<[cache := mkNode s None [] true]> (heap st)) st in
  let st := with_mainChainSet ({[cache]} ∪ mainChainSet st) st in
  let st := with_chains (chainsStorage st ++ [cache]) (chainsLeaves st ++ [cache]) st in
  let! st := updateBlockMedianSize st in
  Ok (database_load cache st).
End AddBlock.

End Core.
