(* ===== verification/CoreTree.v ===== *)
(** The heap of segments of [Core] as a tree: paths to the root, and what the operations on
    objects do to them. *)

From S2P Require Import Prelude.
From S2P Require Import Types.
From S2P Require Import Keccak.
From S2P Require Import CachedTransaction.
From S2P Require Import BlockchainCache.
From S2P Require Import ChainView.
From S2P Require Import Validation.
From S2P Require Import Core.

Module CoreTree.

Import BlockchainCache ChainView Validation Core.

(** ** Paths *)

Inductive path (h : gmap ptr node) : ptr -> list ptr -> Prop :=
| path_root p n : h !! p = Some n -> n_parent n = None -> path h p [p]
| path_up p n q ps : h !! p = Some n -> n_parent n = Some q -> path h q ps -> path h p (p :: ps).

Create HintDb tree.
#[export] Hint Constructors path : tree.

Lemma path_det h p ps ps' : path h p ps -> path h p ps' -> ps = ps'.
Proof.
  intros H; revert ps'; induction H as [p n E Ep|p n q ps E Ep _ IH]; intros ps' H'; inversion H' as [? ? E' Ep'|? ? ? ? E' Ep' H2]; subst;
    rewrite E in E'; injection E' as <-; rewrite Ep in Ep'; try done; injection Ep' as <-; f_equal; by apply IH.
Qed.

Lemma path_head h p ps : path h p ps -> exists n r, ps = p :: r /\ h !! p = Some n.
Proof. destruct 1; eauto. Qed.

(** Every object on a path has the rest of it as its own path. *)
Lemma path_suffix h p ps l q r : path h p ps -> ps = l ++ q :: r -> path h q (q :: r).
Proof.
  intros H; revert l; induction H as [p n E Ep|p n q' ps E Ep H IH]; intros [|x l] El; simplify_eq/=; eauto with tree.
  by destruct l.
Qed.

Lemma path_elem h p ps q : path h p ps -> q ∈ ps -> exists r, path h q (q :: r) /\ (q :: r) `suffix_of` ps.
Proof.
  intros H (l & r & ->)%list_elem_of_split; exists r; split; [by eapply path_suffix|by exists l].
Qed.

Lemma path_NoDup h p ps : path h p ps -> NoDup ps.
Proof.
  induction 1 as [p n E Ep|p n q ps E Ep H IH]; [apply NoDup_singleton|]; apply NoDup_cons; split; [|done].
  intros Hp; destruct (path_elem _ _ _ _ H Hp) as (r & Hr & [l ->]).
  assert (H2 : path h p (p :: l ++ p :: r)) by eauto with tree.
  pose proof (path_det _ _ _ _ Hr H2) as [= Er]; apply (f_equal length) in Er; rewrite length_app in Er; simpl in Er; lia.
Qed.

Lemma path_lookup h p ps : path h p ps -> Forall (fun q => is_Some (h !! q)) ps.
Proof. induction 1; constructor; eauto. Qed.

Lemma path_length h p ps : path h p ps -> (length ps <= size h)%nat.
Proof.
  intros H; rewrite <- size_dom; rewrite <- (size_list_to_set (C := gset ptr) ps) by (by eapply path_NoDup).
  apply subseteq_size; intros q Hq%elem_of_list_to_set; apply elem_of_dom.
  pose proof (path_lookup _ _ _ H) as HF; rewrite Forall_forall in HF; by apply HF.
Qed.

Lemma parents_loop_path h p ps : path h p ps -> forall fuel, (length ps <= fuel)%nat -> parents_loop fuel h p = Ok ps.
Proof.
  induction 1 as [p n E Ep|p n q ps E Ep H IH]; intros [|fuel] Hf; simpl in Hf; try lia; cbn [parents_loop]; rewrite E; cbn [of_option rbind]; rewrite Ep; [done|].
  rewrite IH by lia; done.
Qed.

Lemma parents_path h p ps : path h p ps -> parents h p = Ok ps.
Proof. intros H; apply parents_loop_path; [done|by eapply path_length]. Qed.

Lemma parents_loop_inv h fuel : forall p ps, parents_loop fuel h p = Ok ps -> path h p ps.
Proof.
  induction fuel as [|fuel IH]; intros p ps E; cbn [parents_loop] in E; [done|].
  destruct (h !! p) as [n|] eqn:En; cbn [of_option rbind] in E; [|done].
  destruct (n_parent n) as [q|] eqn:Ep; [|injection E as <-; eauto with tree].
  destruct (parents_loop fuel h q) as [qs|] eqn:Eq; cbn [rbind] in E; [|done]; injection E as <-; eauto with tree.
Qed.

(** The segments along a path. *)
Definition segs (h : gmap ptr node) (ps : list ptr) : cache := omap (fun q => n_segment <$> h !! q) ps.

Lemma segs_cons h p ps n : h !! p = Some n -> segs h (p :: ps) = n_segment n :: segs h ps.
Proof. intros E; unfold segs; cbn [omap list_omap]; by rewrite E. Qed.

Lemma segs_app h l l' : segs h (l ++ l') = segs h l ++ segs h l'.
Proof. apply omap_app. Qed.

Lemma segs_ext h h' ps : Forall (fun q => n_segment <$> h' !! q = n_segment <$> h !! q) ps -> segs h' ps = segs h ps.
Proof. induction 1 as [|q ps E _ IH]; [done|]; unfold segs in *; cbn [omap list_omap]; by rewrite E, IH. Qed.

Lemma cache_of_path h p ps : path h p ps -> cache_of h p = Ok (segs h ps).
Proof. intros H; unfold cache_of; by rewrite (parents_path _ _ _ H). Qed.

(** A path stays where the parents do. *)
Lemma path_ext h h' p ps : path h p ps -> Forall (fun q => n_parent <$> h' !! q = n_parent <$> h !! q) ps -> path h' p ps.
Proof.
  induction 1 as [p n E Ep|p n q ps E Ep H IH]; intros HF; apply Forall_cons in HF as [Hp HF]; rewrite E in Hp;
    apply fmap_Some in Hp as (n' & E' & Ep'); [eapply path_root|eapply path_up]; eauto; congruence.
Qed.

(** ** Searching *)

Definition has_seg (h : gmap ptr node) (found : segment -> bool) (q : ptr) : bool :=
  match h !! q with Some n => found (n_segment n) | None => false end.

Lemma findIndexInChain_loop_path h found p ps : path h p ps -> forall fuel, (length ps <= fuel)%nat ->
  findIndexInChain_loop fuel h found p = Ok (find (has_seg h found) ps).
Proof.
  induction 1 as [p n E Ep|p n q ps E Ep H IH]; intros [|fuel] Hf; simpl in Hf; try lia; cbn [findIndexInChain_loop find];
    unfold has_seg at 1; rewrite E; cbn [of_option rbind]; destruct (found (n_segment n)); try done; rewrite Ep; [done|apply IH; lia].
Qed.

Lemma findIndexInChain_path h found p ps : path h p ps -> findIndexInChain h found p = Ok (find (has_seg h found) ps).
Proof. intros H; apply findIndexInChain_loop_path; [done|by eapply path_length]. Qed.

Lemma find_Some_elem {A} (f : A -> bool) l a : find f l = Some a -> a ∈ l /\ f a = true.
Proof. intros H; apply find_some in H as [? ?]; split; [by apply list_elem_of_In|done]. Qed.

Lemma find_None_elem {A} (f : A -> bool) l a : find f l = None -> a ∈ l -> f a = false.
Proof. intros H Ha; eapply find_none in H; [exact H|by apply list_elem_of_In]. Qed.

(** ** The shape of the tree *)

Record shape (st : Core) : Prop := {
  shape_path p n : heap st !! p = Some n -> exists ps, path (heap st) p ps;
  shape_root p q n m : heap st !! p = Some n -> heap st !! q = Some m -> n_parent n = None -> n_parent m = None -> p = q;
  shape_children p n c : heap st !! p = Some n ->
    c ∈ n_children n <-> exists m, heap st !! c = Some m /\ n_parent m = Some p;
  shape_children_once p n : heap st !! p = Some n -> NoDup (n_children n);
  shape_memory p n : heap st !! p = Some n -> n_database n = true -> n_parent n = None;
  shape_storage : NoDup (chainsStorage st) /\ forall p, p ∈ chainsStorage st <-> is_Some (heap st !! p);
  shape_leaves : NoDup (chainsLeaves st) /\
    forall p, p ∈ chainsLeaves st <-> exists n, heap st !! p = Some n /\ n_children n = [];
  shape_some : chainsLeaves st <> [] }.

(** mainChainSet has the objects of the main chain. *)
Definition marked (st : Core) : Prop :=
  exists leaf ps, head (chainsLeaves st) = Some leaf /\ path (heap st) leaf ps /\ mainChainSet st = list_to_set ps.

Section Shape.
Context (st : Core).
Hypothesis S : shape st.

Lemma path_parent p n q ps : heap st !! p = Some n -> n_parent n = Some q -> path (heap st) p ps ->
  exists m qs, heap st !! q = Some m /\ path (heap st) q qs /\ ps = p :: qs.
Proof.
  intros E Ep H; inversion H as [? ? E' Ep'|? ? ? qs E' Ep' H2]; subst; rewrite E in E'; injection E' as <-; rewrite Ep in Ep'; [done|].
  injection Ep' as <-; destruct (path_head _ _ _ H2) as (m & r & -> & Em); eauto.
Qed.

(** Every object is below a leaf. *)
Lemma leaf_above p n : heap st !! p = Some n ->
  exists leaf ps, leaf ∈ chainsLeaves st /\ path (heap st) leaf ps /\ p ∈ ps.
Proof.
  intros E; destruct (shape_path _ S _ _ E) as [ps Hp].
  remember (size (heap st) - length ps)%nat as k eqn:Ek; revert p n ps E Hp Ek.
  induction k as [k IH] using lt_wf_ind; intros p n ps E Hp Ek; destruct (n_children n) as [|c cs] eqn:Ec.
  - exists p, ps; split_and!; [apply (shape_leaves _ S); eauto|done|].
    destruct (path_head _ _ _ Hp) as (? & ? & -> & _); apply list_elem_of_here.
  - destruct (proj1 (shape_children _ S p n c E)) as (m & Em & Epm); [rewrite Ec; apply list_elem_of_here|].
    assert (Hc : path (heap st) c (c :: ps)) by eauto with tree.
    pose proof (path_length _ _ _ Hc) as Hl; simpl in Hl.
    destruct (IH (size (heap st) - length (c :: ps))%nat ltac:(simpl; lia) c m _ Em Hc eq_refl) as (leaf & qs & H1 & H2 & H3).
    exists leaf, qs; split_and!; [done..|].
    destruct (path_elem _ _ _ _ H2 H3) as (r & Hr & [l ->]); pose proof (path_det _ _ _ _ Hr Hc) as [= ->].
    destruct (path_head _ _ _ Hp) as (? & ? & -> & _); set_solver.
Qed.

(** A leaf is on no path but its own. *)
Lemma leaf_top p q ps : p ∈ chainsLeaves st -> path (heap st) q ps -> p ∈ ps -> q = p.
Proof.
  intros (n & E & Ec)%(shape_leaves _ S) Hq Hp; revert Hp.
  induction Hq as [q m Em Ep|q m r ps Em Ep Hq IH]; intros Hp.
  - by apply list_elem_of_singleton in Hp.
  - apply elem_of_cons in Hp as [->|Hp]; [done|]; rewrite (IH Hp) in Ep.
    exfalso; apply (not_elem_of_nil q); rewrite <- Ec; apply (shape_children _ S p n q E); eauto.
Qed.

(** The root is at the end of every path. *)
Lemma paths_meet p q ps qs : path (heap st) p ps -> path (heap st) q qs -> last ps = last qs.
Proof.
  assert (HR : forall p ps, path (heap st) p ps -> exists r n, last ps = Some r /\ heap st !! r = Some n /\ n_parent n = None).
  { induction 1 as [x n E Ep|x n y l E Ep H (r & m & E1 & E2 & E3)]; [by exists x, n|].
    exists r, m; split_and!; [|done..]; rewrite last_cons, E1; done. }
  intros Hp Hq; destruct (HR _ _ Hp) as (r & n & -> & E1 & P1); destruct (HR _ _ Hq) as (r' & n' & -> & E2 & P2).
  f_equal; by eapply (shape_root _ S).
Qed.

Lemma main_leaf_ok : exists leaf n ps, main_leaf st = Ok leaf /\ head (chainsLeaves st) = Some leaf /\
  heap st !! leaf = Some n /\ n_children n = [] /\ path (heap st) leaf ps.
Proof.
  pose proof (shape_some _ S) as Hs; unfold main_leaf; destruct (chainsLeaves st) as [|leaf ls] eqn:E; [done|].
  destruct (proj1 (proj2 (shape_leaves _ S) leaf)) as (n & En & Ec); [rewrite E; apply list_elem_of_here|].
  destruct (shape_path _ S _ _ En) as [ps Hp]; by exists leaf, n, ps.
Qed.

Lemma updateMainChainSet_ok : exists ps, updateMainChainSet st = Ok (with_mainChainSet (list_to_set ps) st) /\
  marked (with_mainChainSet (list_to_set ps) st).
Proof.
  destruct main_leaf_ok as (leaf & n & ps & El & Eh & _ & _ & Hp); exists ps; unfold updateMainChainSet; rewrite El; cbn [rbind].
  rewrite (parents_path _ _ _ Hp); split; [done|]; by exists leaf, ps.
Qed.

Lemma find_alternative_spec found leaves : Forall (fun l => l ∈ chainsLeaves st) leaves ->
  exists r, find_alternative (heap st) found leaves = Ok r /\
  match r with
  | Some p => has_seg (heap st) found p = true
  | None => forall l ps p, l ∈ leaves -> path (heap st) l ps -> p ∈ ps -> has_seg (heap st) found p = false
  end.
Proof.
  induction leaves as [|l leaves IH]; intros HF; [exists None; split; [done|]; intros ? ? ? []%not_elem_of_nil|].
  apply Forall_cons in HF as [Hl HF]; destruct (proj1 (proj2 (shape_leaves _ S) l) Hl) as (n & E & _).
  destruct (shape_path _ S _ _ E) as [ps Hp]; cbn [find_alternative]; rewrite (findIndexInChain_path _ _ _ _ Hp); cbn [rbind].
  destruct (find _ ps) as [q|] eqn:Ef; [exists (Some q); split; [done|exact (proj2 (find_Some_elem _ _ _ Ef))]|].
  destruct (IH HF) as (r & -> & Hr); exists r; split; [done|]; destruct r; [done|].
  intros l' ps' p' [->|Hin]%elem_of_cons Hp' Hin'; [|by eapply Hr].
  rewrite (path_det _ _ _ _ Hp' Hp) in Hin'; by eapply find_None_elem.
Qed.

(** The search goes through every object. *)
Lemma findSegmentContainingBlock_spec hash : exists r, findSegmentContainingBlock hash st = Ok r /\
  match r with
  | Some p => exists n, heap st !! p = Some n /\ BlockchainCache.hasBlock hash (n_segment n) = true
  | None => forall p n, heap st !! p = Some n -> BlockchainCache.hasBlock hash (n_segment n) = false
  end.
Proof.
  destruct main_leaf_ok as (leaf & n0 & ps & El & _ & _ & _ & Hp).
  unfold findSegmentContainingBlock, findMainChainSegmentContainingBlock; rewrite El; cbn [rbind].
  rewrite (findIndexInChain_path _ _ _ _ Hp); cbn [rbind].
  assert (HS : forall q, has_seg (heap st) (has_hash hash) q = true ->
    exists n, heap st !! q = Some n /\ BlockchainCache.hasBlock hash (n_segment n) = true).
  { intros q Hq; unfold has_seg in Hq; destruct (heap st !! q) as [n|]; [by exists n|done]. }
  destruct (find _ ps) as [q|] eqn:Ef; [exists (Some q); split; [done|]; by apply HS, (find_Some_elem _ _ _ Ef)|].
  unfold findAlternativeSegmentContainingBlock.
  destruct (find_alternative_spec (has_hash hash) (tail (chainsLeaves st))) as (r & -> & Hr).
  { apply Forall_forall; intros l Hin; destruct (chainsLeaves st); [done|]; by apply list_elem_of_further. }
  exists r; split; [done|]; destruct r as [q|]; [by apply HS|]; intros p n E.
  destruct (leaf_above p n E) as (l & qs & Hin & Hq & Hpq).
  assert (Hx : has_seg (heap st) (has_hash hash) p = false); [|unfold has_seg in Hx; by rewrite E in Hx].
  unfold main_leaf in El; destruct (chainsLeaves st) as [|l0 ls] eqn:Els; [done|]; simpl in El; injection El as ->.
  apply elem_of_cons in Hin as [->|Hin]; [|by eapply Hr].
  rewrite (path_det _ _ _ _ Hq Hp) in Hpq; by eapply find_None_elem.
Qed.
End Shape.

(** ** Changes of the heap *)

(** What a node says about the tree. *)
Definition links (n : node) : option ptr * list ptr * bool := (n_parent n, n_children n, n_database n).

Lemma links_Some (h h' : gmap ptr node) q n : (forall q, links <$> h' !! q = links <$> h !! q) -> h !! q = Some n ->
  exists n', h' !! q = Some n' /\ n_parent n' = n_parent n /\ n_children n' = n_children n /\ n_database n' = n_database n.
Proof.
  intros H E; specialize (H q); rewrite E in H; apply fmap_Some in H as (n' & E' & [= H1 H2 H3]); by exists n'.
Qed.

Lemma path_links (h h' : gmap ptr node) p ps : (forall q, links <$> h' !! q = links <$> h !! q) -> path h p ps -> path h' p ps.
Proof.
  intros H Hp; eapply path_ext; [exact Hp|]; apply Forall_forall; intros q _; specialize (H q).
  destruct (h !! q), (h' !! q); try done; cbn [fmap option_fmap option_map] in *; injection H as H _ _; by rewrite H.
Qed.

Lemma shape_links st st' : shape st -> (forall q, links <$> heap st' !! q = links <$> heap st !! q) ->
  chainsStorage st' = chainsStorage st -> chainsLeaves st' ≡ₚ chainsLeaves st -> shape st'.
Proof.
  intros S H Es El.
  assert (H' : forall q, links <$> heap st !! q = links <$> heap st' !! q) by done; split.
  - intros p n E; destruct (links_Some _ _ _ _ H' E) as (n' & E' & _); destruct (shape_path _ S _ _ E') as [ps Hp].
    exists ps; by eapply path_links.
  - intros p q n m E1 E2 P1 P2; destruct (links_Some _ _ _ _ H' E1) as (n' & E1' & Q1 & _).
    destruct (links_Some _ _ _ _ H' E2) as (m' & E2' & Q2 & _); eapply (shape_root _ S); [exact E1'|exact E2'|congruence..].
  - intros p n c E; destruct (links_Some _ _ _ _ H' E) as (n' & E' & _ & <- & _); rewrite (shape_children _ S _ _ _ E').
    split; intros (m & Em & Hm); [destruct (links_Some _ _ _ _ H Em) as (m' & Em' & Pm & _)|
      destruct (links_Some _ _ _ _ H' Em) as (m' & Em' & Pm & _)]; exists m'; split; congruence.
  - intros p n E; destruct (links_Some _ _ _ _ H' E) as (n' & E' & _ & <- & _); by eapply (shape_children_once _ S).
  - intros p n E; destruct (links_Some _ _ _ _ H' E) as (n' & E' & <- & _ & <-); by eapply (shape_memory _ S).
  - rewrite Es; split; [apply S|]; intros p; rewrite (proj2 (shape_storage _ S) p).
    specialize (H p); destruct (heap st !! p), (heap st' !! p); simplify_eq/=; split; by intros [? ?].
  - split; [rewrite El; apply S|]; intros p; rewrite El, (proj2 (shape_leaves _ S) p).
    split; intros (n & E & Hn); [destruct (links_Some _ _ _ _ H E) as (n' & E' & _ & Cn & _)|
      destruct (links_Some _ _ _ _ H' E) as (n' & E' & _ & Cn & _)]; exists n'; split; congruence.
  - pose proof (shape_some _ S); intros E; rewrite E in El; by apply Permutation_nil in El.
Qed.

(** A new segment under [p]. *)
Section Fork.
Context (st : Core) (p c : ptr) (n : node) (s : segment).
Hypothesis S : shape st.
Hypothesis Ep : heap st !! p = Some n.
Hypothesis Hc : heap st !! c = None.
Hypothesis Hn : n_children n <> [].

Let h' : gmap ptr node := <[p := with_children (n_children n ++ [c]) n]> (<[c := mkNode s (Some p) [] false]> (heap st)).

Lemma fork_ne : p <> c.
Proof. intros ->; congruence. Qed.

Lemma fork_lookup_new : h' !! c = Some (mkNode s (Some p) [] false).
Proof. unfold h'; rewrite lookup_insert_ne by apply fork_ne; apply lookup_insert_eq. Qed.

Lemma fork_lookup_p : h' !! p = Some (with_children (n_children n ++ [c]) n).
Proof. apply lookup_insert_eq. Qed.

Lemma fork_lookup q : q <> p -> q <> c -> h' !! q = heap st !! q.
Proof. intros; unfold h'; by rewrite !lookup_insert_ne by done. Qed.

(** What an old object is. *)
Lemma fork_old q m : heap st !! q = Some m -> exists m', h' !! q = Some m' /\ n_segment m' = n_segment m /\
  n_parent m' = n_parent m /\ n_database m' = n_database m /\ n_children m' = if decide (q = p) then n_children n ++ [c] else n_children m.
Proof.
  intros E; destruct (decide (q = p)) as [->|Hq].
  - rewrite Ep in E; injection E as <-; eexists; rewrite fork_lookup_p; split_and!; done.
  - exists m; rewrite fork_lookup; [done|done|congruence].
Qed.

Lemma fork_inv q m' : h' !! q = Some m' -> q = c \/ exists m, heap st !! q = Some m.
Proof.
  intros E; destruct (decide (q = c)) as [->|Hc']; [by left|right].
  destruct (decide (q = p)) as [->|Hp]; [by exists n|]; rewrite fork_lookup in E by done; by exists m'.
Qed.

Lemma fork_path q ps : path (heap st) q ps -> path h' q ps.
Proof.
  intros H; eapply path_ext; [exact H|]; pose proof (path_lookup _ _ _ H) as HF; eapply Forall_impl; [exact HF|].
  intros x [m E]; destruct (fork_old _ _ E) as (m' & -> & _ & E2 & _); rewrite E; simpl; by rewrite E2.
Qed.

Lemma fork_path_new ps : path (heap st) p ps -> path h' c (c :: ps).
Proof. intros H; eapply path_up; [apply fork_lookup_new|done|by apply fork_path]. Qed.

Lemma fork_shape st' : heap st' = h' -> chainsStorage st' = chainsStorage st ++ [c] -> chainsLeaves st' = chainsLeaves st ++ [c] ->
  shape st'.
Proof.
  intros Eh Es El; split; rewrite ?Eh.
  - intros q m E; destruct (fork_inv _ _ E) as [->|[m0 E0]].
    + destruct (shape_path _ S _ _ Ep) as [ps Hp]; exists (c :: ps); by apply fork_path_new.
    + destruct (shape_path _ S _ _ E0) as [ps Hp]; exists ps; by apply fork_path.
  - intros x y nx ny E1 E2 P1 P2.
    assert (HO : forall q m, h' !! q = Some m -> n_parent m = None -> exists m0, heap st !! q = Some m0 /\ n_parent m0 = None).
    { intros q m E P; destruct (fork_inv _ _ E) as [->|[m0 E0]]; [rewrite fork_lookup_new in E; by injection E as <-|].
      destruct (fork_old _ _ E0) as (m' & E' & _ & E3 & _); exists m0; split; [done|congruence]. }
    destruct (HO _ _ E1 P1) as (x0 & ? & ?), (HO _ _ E2 P2) as (y0 & ? & ?); by eapply (shape_root _ S).
  - intros q m k E; destruct (fork_inv _ _ E) as [->|[m0 E0]].
    + rewrite fork_lookup_new in E; injection E as <-; cbn [n_children]; split; [by intros ?%not_elem_of_nil|].
      intros (mk & Ek & Pk); exfalso; destruct (fork_inv _ _ Ek) as [->|[mk0 Ek0]].
      { rewrite fork_lookup_new in Ek; injection Ek as <-; injection Pk as E; by apply fork_ne. }
      destruct (fork_old _ _ Ek0) as (m' & E' & _ & E3 & _); rewrite E' in Ek; injection Ek as <-; rewrite E3 in Pk.
      destruct (shape_path _ S _ _ Ek0) as [ps Hk]; destruct (path_parent _ _ _ _ _ Ek0 Pk Hk) as (? & ? & Ex & _); congruence.
    + destruct (fork_old _ _ E0) as (m' & E' & _ & _ & _ & Ech); rewrite E in E'; injection E' as <-; rewrite Ech.
      assert (HK : (exists mk, h' !! k = Some mk /\ n_parent mk = Some q) <->
        (k = c /\ q = p) \/ exists mk, heap st !! k = Some mk /\ n_parent mk = Some q).
      { split.
        - intros (mk & Ek & Pk); destruct (fork_inv _ _ Ek) as [->|[mk0 Ek0]].
          + rewrite fork_lookup_new in Ek; injection Ek as <-; injection Pk as <-; by left.
          + right; exists mk0; split; [done|]; destruct (fork_old _ _ Ek0) as (m' & E' & _ & E3 & _); congruence.
        - intros [[-> ->]|(mk & Ek & Pk)]; [eexists; split; [apply fork_lookup_new|done]|].
          destruct (fork_old _ _ Ek) as (m' & E' & _ & E3 & _); exists m'; split; [done|congruence]. }
      rewrite HK, <- (shape_children _ S _ _ k E0); destruct (decide (q = p)) as [->|Hq].
      * rewrite Ep in E0; injection E0 as <-; rewrite elem_of_app, list_elem_of_singleton; tauto.
      * split; [by right|]; intros [[_ ?]|?]; done.
  - intros q m E; destruct (fork_inv _ _ E) as [->|[m0 E0]].
    + rewrite fork_lookup_new in E; injection E as <-; constructor.
    + destruct (fork_old _ _ E0) as (m' & E' & _ & _ & _ & Ech); rewrite E in E'; injection E' as <-; rewrite Ech.
      destruct (decide (q = p)); [|by eapply (shape_children_once _ S)]; apply NoDup_app; split_and!.
      * by eapply (shape_children_once _ S).
      * intros x Hx ->%list_elem_of_singleton; apply (shape_children _ S _ _ c Ep) in Hx as (? & ? & _); congruence.
      * apply NoDup_singleton.
  - intros q m E; destruct (fork_inv _ _ E) as [->|[m0 E0]]; [rewrite fork_lookup_new in E; by injection E as <-|].
    destruct (fork_old _ _ E0) as (m' & E' & _ & E2 & E3 & _); rewrite E in E'; injection E' as <-; rewrite E2, E3; by eapply (shape_memory _ S).
  - rewrite Es; destruct (shape_storage _ S) as [N H]; split.
    + apply NoDup_app; split_and!; [done| |apply NoDup_singleton]; intros x Hx ->%list_elem_of_singleton.
      apply H in Hx as [? ?]; congruence.
    + intros q; rewrite elem_of_app, list_elem_of_singleton, H; split.
      * intros [[m E]| ->]; [destruct (fork_old _ _ E) as (m' & -> & _); by eexists|rewrite fork_lookup_new; by eexists].
      * intros [m E]; destruct (fork_inv _ _ E) as [->|[m0 E0]]; [by right|left; by eexists].
  - rewrite El; destruct (shape_leaves _ S) as [N H]; split.
    + apply NoDup_app; split_and!; [done| |apply NoDup_singleton]; intros x Hx ->%list_elem_of_singleton.
      apply H in Hx as (? & ? & _); congruence.
    + intros q; rewrite elem_of_app, list_elem_of_singleton, H; split.
      * intros [(m & E & Ec)| ->]; [|eexists; split; [apply fork_lookup_new|done]].
        destruct (fork_old _ _ E) as (m' & E' & _ & _ & _ & Ech); exists m'; split; [done|]; rewrite Ech.
        destruct (decide (q = p)) as [->|]; [|done]; rewrite Ep in E; by injection E as <-.
      * intros (m & E & Ec); destruct (fork_inv _ _ E) as [->|[m0 E0]]; [by right|left]; exists m0; split; [done|].
        destruct (fork_old _ _ E0) as (m' & E' & _ & _ & _ & Ech); rewrite E in E'; injection E' as <-; rewrite Ec in Ech.
        destruct (decide (q = p)); [|done]; by destruct (n_children n).
  - rewrite El; by destruct (chainsLeaves st).
Qed.
End Fork.

(** ** Splitting a segment *)

Lemma fixChildrenParent_spec ndebug u cs : forall h, NoDup cs ->
  Forall (fun c => exists m, h !! c = Some m /\ n_database m = false) cs ->
  exists h1, fixChildrenParent ndebug cs u h = Ok h1 /\
    forall q, h1 !! q = if decide (q ∈ cs) then with_parent u <$> h !! q else h !! q.
Proof.
  induction cs as [|c cs IH]; intros h Hn HF; [exists h; split; [done|]; intros q; by rewrite decide_False by apply not_elem_of_nil|].
  apply NoDup_cons in Hn as [Hc Hn]; apply Forall_cons in HF as [(m & Em & Dm) HF]; cbn [fixChildrenParent].
  rewrite Em; cbn [of_option rbind]; unfold setParent; rewrite Dm; cbn [rbind].
  destruct (IH (<[c := with_parent u m]> h) Hn) as (h1 & E1 & H1).
  { apply Forall_forall; intros x Hx; rewrite Forall_forall in HF; destruct (HF x Hx) as (k & Ek & Dk).
    exists k; rewrite lookup_insert_ne; [done|]; by intros ->. }
  exists h1; split; [done|]; intros q; rewrite H1; destruct (decide (q = c)) as [->|Hq].
  - rewrite decide_False by done; rewrite decide_True by apply list_elem_of_here; by rewrite lookup_insert_eq, Em.
  - rewrite lookup_insert_ne by done; destruct (decide (q ∈ cs)) as [Hin|Hin].
    + by rewrite decide_True by (by apply list_elem_of_further).
    + by rewrite decide_False by (by intros [?|?]%elem_of_cons).
Qed.

Section Split.
Context (st : Core) (p u : ptr) (n : node) (low up : segment) (h1 : gmap ptr node).
Hypothesis S : shape st.
Hypothesis Ep : heap st !! p = Some n.
Hypothesis Hu : heap st !! u = None.
Hypothesis H1 : forall q, h1 !! q = if decide (q ∈ n_children n) then with_parent u <$> heap st !! q else heap st !! q.

Let h' : gmap ptr node := <[u := mkNode up (Some p) (n_children n) false]> (<[p := mkNode low (n_parent n) [u] (n_database n)]> h1).

Lemma split_ne : p <> u.
Proof. intros ->; congruence. Qed.

Lemma split_lookup_u : h' !! u = Some (mkNode up (Some p) (n_children n) false).
Proof. apply lookup_insert_eq. Qed.

Lemma split_lookup_p : h' !! p = Some (mkNode low (n_parent n) [u] (n_database n)).
Proof. unfold h'; rewrite lookup_insert_ne by (symmetry; apply split_ne); apply lookup_insert_eq. Qed.

(** An old object other than [p]. *)
Lemma split_old q m : q <> p -> heap st !! q = Some m -> exists m', h' !! q = Some m' /\ n_segment m' = n_segment m /\
  n_children m' = n_children m /\ n_database m' = n_database m /\
  n_parent m' = if decide (n_parent m = Some p) then Some u else n_parent m.
Proof.
  intros Hq E; assert (Hqu : q <> u) by congruence.
  assert (Hch : q ∈ n_children n <-> n_parent m = Some p).
  { rewrite (shape_children _ S _ _ q Ep); split; [intros (k & Ek & Pk); congruence|by exists m]. }
  unfold h'; rewrite !lookup_insert_ne by done; rewrite H1, E; destruct (decide (q ∈ n_children n)) as [Hin|Hin].
  - eexists; split; [done|]; cbn [with_parent n_segment n_children n_database n_parent]; rewrite decide_True by tauto; done.
  - exists m; rewrite decide_False by tauto; done.
Qed.

Lemma split_inv q m' : h' !! q = Some m' -> q = u \/ q = p \/ (q <> p /\ q <> u /\ exists m, heap st !! q = Some m).
Proof.
  intros E; destruct (decide (q = u)) as [->|Hqu]; [by left|]; destruct (decide (q = p)) as [->|Hq]; [by right; left|].
  right; right; split_and!; [done..|]; unfold h' in E; rewrite !lookup_insert_ne, H1 in E by done.
  destruct (decide (q ∈ n_children n)); [|by exists m']; apply fmap_Some in E as (m & Em & _); by exists m.
Qed.

(** A path without [p], or from [p]. *)
Lemma split_path_away q ps : path (heap st) q ps -> p ∉ ps -> path h' q ps.
Proof.
  induction 1 as [q m E Pm|q m r ps E Pm H IH]; intros Hp; apply not_elem_of_cons in Hp as [Hq Hp];
    destruct (split_old q m ltac:(congruence) E) as (m' & E' & _ & _ & _ & Pm').
  - eapply path_root; [exact E'|]; rewrite Pm', Pm; by rewrite decide_False.
  - eapply path_up; [exact E'| |exact (IH Hp)]; rewrite Pm', decide_False; [done|].
    rewrite Pm; intros [= ->]; destruct (path_head _ _ _ H) as (? & ? & -> & _); apply Hp, list_elem_of_here.
Qed.

Lemma split_path_p ps : path (heap st) p ps -> path h' p ps.
Proof.
  intros H; pose proof (path_NoDup _ _ _ H) as N; inversion H as [? m E Pm|? m q qs E Pm H2]; subst;
    rewrite Ep in E; injection E as <-.
  - eapply path_root; [apply split_lookup_p|done].
  - apply NoDup_cons in N as [N _]; eapply path_up; [apply split_lookup_p|done|by apply split_path_away].
Qed.

Lemma split_path_u ps : path (heap st) p ps -> path h' u (u :: ps).
Proof. intros H; eapply path_up; [apply split_lookup_u|done|by apply split_path_p]. Qed.

(** A path through [p] goes through [u] as well. *)
Lemma split_path_above q l r : path (heap st) q (l ++ p :: r) -> q <> p -> path h' q (l ++ u :: p :: r).
Proof.
  revert q; induction l as [|x l IH]; intros q H Hq.
  { destruct (path_head _ _ _ H) as (? & ? & [= -> ->] & _); done. }
  inversion H as [? m E Pm|? m y ys E Pm H2]; subst; [by destruct l|].
  pose proof (path_NoDup _ _ _ H) as N; apply NoDup_cons in N as [N _].
  destruct (split_old x m Hq E) as (m' & E' & _ & _ & _ & Pm'); rewrite Pm in Pm'; cbn [app].
  destruct (decide (y = p)) as [->|Hy].
  - rewrite decide_True in Pm' by done; eapply path_up; [exact E'|exact Pm'|].
    destruct l as [|z l]; [by apply split_path_u|]; exfalso.
    pose proof (path_NoDup _ _ _ H2) as N2; destruct (path_head _ _ _ H2) as (? & ? & [= -> _] & _).
    simpl in N2; apply NoDup_cons in N2 as [N2 _]; apply N2, elem_of_app; right; apply list_elem_of_here.
  - rewrite decide_False in Pm' by congruence; eapply path_up; [exact E'|exact Pm'|by apply IH].
Qed.

Lemma split_parent q m k : h' !! q = Some m ->
  n_parent m = Some k <->
  (q = u /\ k = p) \/ (q = p /\ n_parent n = Some k) \/
  (q <> p /\ q <> u /\ exists m0, heap st !! q = Some m0 /\
     ((n_parent m0 = Some p /\ k = u) \/ (n_parent m0 = Some k /\ k <> p))).
Proof.
  intros E; destruct (split_inv _ _ E) as [->|[->|(Hq & Hqu & m0 & E0)]].
  - rewrite split_lookup_u in E; injection E as <-; cbn [n_parent]; pose proof split_ne; split; [intros [= ->]; by left|].
    intros [[_ ->]|[[? _]|(_ & ? & _)]]; [done|congruence..].
  - rewrite split_lookup_p in E; injection E as <-; cbn [n_parent]; pose proof split_ne; split; [by right; left|].
    intros [[? _]|[[_ ->]|(? & _)]]; [congruence|done|done].
  - destruct (split_old q m0 Hq E0) as (m' & E' & _ & _ & _ & Pm'); rewrite E in E'; injection E' as <-; rewrite Pm'.
    split.
    + intros Hk; right; right; split_and!; [done..|]; exists m0; split; [done|]; case_decide as Hd; [left; split; congruence|].
      right; split; [done|]; congruence.
    + intros [[? _]|[[? _]|(_ & _ & m1 & E1 & H)]]; [done|done|]; rewrite E0 in E1; injection E1 as <-.
      destruct H as [[-> ->]|[-> Hk]]; [by rewrite decide_True|by rewrite decide_False by congruence].
Qed.

Lemma split_shape st' : heap st' = h' -> chainsStorage st' = chainsStorage st ++ [u] ->
  NoDup (chainsLeaves st') ->
  (forall q, q ∈ chainsLeaves st' <-> (q ∈ chainsLeaves st /\ q <> p) \/ (q = u /\ n_children n = [])) ->
  chainsLeaves st' <> [] -> shape st'.
Proof.
  intros Eh Es Nl Hl Ln; split; rewrite ?Eh.
  - intros q m E; destruct (shape_path _ S _ _ Ep) as [ps Hp]; destruct (split_inv _ _ E) as [->|[->|(Hq & Hqu & m0 & E0)]].
    + exists (u :: ps); by apply split_path_u.
    + exists ps; by apply split_path_p.
    + destruct (shape_path _ S _ _ E0) as [qs Hqs]; destruct (decide (p ∈ qs)) as [Hin|Hin]; [|exists qs; by apply split_path_away].
      apply list_elem_of_split in Hin as (l & r & ->); exists (l ++ u :: p :: r); by apply split_path_above.
  - intros x y nx ny E1 E2 P1 P2.
    assert (HO : forall q m, h' !! q = Some m -> n_parent m = None -> exists m0, heap st !! q = Some m0 /\ n_parent m0 = None).
    { intros q m E P; destruct (split_inv _ _ E) as [->|[->|(Hq & _ & m0 & E0)]].
      - rewrite split_lookup_u in E; by injection E as <-.
      - rewrite split_lookup_p in E; injection E as <-; by exists n.
      - destruct (split_old q m0 Hq E0) as (m' & E' & _ & _ & _ & Pm'); rewrite E in E'; injection E' as <-; rewrite P in Pm'.
        exists m0; split; [done|]; by case_decide. }
    destruct (HO _ _ E1 P1) as (x0 & ? & ?), (HO _ _ E2 P2) as (y0 & ? & ?); by eapply (shape_root _ S).
  - intros q m k E; transitivity (exists mk, h' !! k = Some mk /\ ((k = u /\ q = p) \/ (k = p /\ n_parent n = Some q) \/
      (k <> p /\ k <> u /\ exists m0, heap st !! k = Some m0 /\ ((n_parent m0 = Some p /\ q = u) \/ (n_parent m0 = Some q /\ q <> p))))).
    2: { split; intros (mk & Ek & Hk); exists mk; (split; [done|]); by apply (split_parent _ _ _ Ek). }
    assert (Hqq : forall j m0, heap st !! j = Some m0 -> n_parent m0 <> Some u).
    { intros j m0 Ej Pj; destruct (shape_path _ S _ _ Ej) as [ps Hp]; destruct (path_parent _ _ _ _ _ Ej Pj Hp) as (? & ? & ? & _); congruence. }
    destruct (split_inv _ _ E) as [->|[->|(Hq & Hqu & m0 & E0)]].
    + rewrite split_lookup_u in E; injection E as <-; cbn [n_children]; rewrite (shape_children _ S _ _ k Ep); split.
      * intros (m0 & E0 & P0); assert (k <> p).
        { intros ->; destruct (shape_path _ S _ _ Ep) as [ps Hp]; rewrite Ep in E0; injection E0 as <-.
          destruct (path_parent _ _ _ _ _ Ep P0 Hp) as (? & qs & ? & Hqs & ->); pose proof (path_det _ _ _ _ Hqs Hp) as EE.
          apply (f_equal length) in EE; simpl in EE; lia. }
        destruct (split_old k m0 H E0) as (m' & E' & _); exists m'; split; [done|]; right; right; split_and!; [done|congruence|].
        exists m0; split; [done|by left].
      * intros (mk & _ & [[-> E]|[[-> P]|(_ & _ & m0 & E0 & [[P0 _]|[P0 _]])]]).
        -- by destruct split_ne.
        -- by destruct (Hqq _ _ Ep P).
        -- by exists m0.
        -- by destruct (Hqq _ _ E0 P0).
    + rewrite split_lookup_p in E; injection E as <-; cbn [n_children]; rewrite list_elem_of_singleton; split.
      * intros ->; eexists; split; [apply split_lookup_u|by left].
      * intros (mk & _ & [[-> _]|[[-> P]|(_ & _ & m0 & E0 & [[_ E]|[_ E]])]]); [done| |by destruct split_ne|done].
        exfalso; destruct (shape_path _ S _ _ Ep) as [ps Hp]; destruct (path_parent _ _ _ _ _ Ep P Hp) as (? & qs & ? & Hqs & ->).
        pose proof (path_det _ _ _ _ Hqs Hp) as EE; apply (f_equal length) in EE; simpl in EE; lia.
    + destruct (split_old q m0 Hq E0) as (m' & E' & _ & Ec & _); rewrite E in E'; injection E' as <-; rewrite Ec.
      rewrite (shape_children _ S _ _ k E0); split.
      * intros (mk0 & Ek0 & Pk0); destruct (decide (k = p)) as [->|Hk].
        -- rewrite Ep in Ek0; injection Ek0 as <-; eexists; split; [apply split_lookup_p|by right; left].
        -- destruct (split_old k mk0 Hk Ek0) as (mk & Ek & _); exists mk; split; [done|]; right; right; split_and!; [done|congruence|].
           exists mk0; split; [done|by right].
      * intros (mk & _ & [[-> ?]|[[-> P]|(_ & _ & mk0 & Ek0 & [[_ ?]|[Pk _]])]]); [done|by exists n|done|by exists mk0].
  - intros q m E; destruct (split_inv _ _ E) as [->|[->|(Hq & _ & m0 & E0)]].
    + rewrite split_lookup_u in E; injection E as <-; by apply (shape_children_once _ S p n).
    + rewrite split_lookup_p in E; injection E as <-; apply NoDup_singleton.
    + destruct (split_old q m0 Hq E0) as (m' & E' & _ & Ec & _); rewrite E in E'; injection E' as <-; rewrite Ec.
      by eapply (shape_children_once _ S).
  - intros q m E; destruct (split_inv _ _ E) as [->|[->|(Hq & _ & m0 & E0)]].
    + rewrite split_lookup_u in E; by injection E as <-.
    + rewrite split_lookup_p in E; injection E as <-; exact (shape_memory _ S _ _ Ep).
    + destruct (split_old q m0 Hq E0) as (m' & E' & _ & _ & Ed & Pd); rewrite E in E'; injection E' as <-; rewrite Ed, Pd.
      intros Hd; rewrite (shape_memory _ S _ _ E0 Hd); by rewrite decide_False.
  - rewrite Es; destruct (shape_storage _ S) as [N H]; split.
    + apply NoDup_app; split_and!; [done| |apply NoDup_singleton]; intros x Hx ->%list_elem_of_singleton.
      apply H in Hx as [? ?]; congruence.
    + intros q; rewrite elem_of_app, list_elem_of_singleton, H; split.
      * intros [[m E]| ->]; [|rewrite split_lookup_u; by eexists].
        destruct (decide (q = p)) as [->|Hq]; [rewrite split_lookup_p; by eexists|].
        destruct (split_old q m Hq E) as (m' & -> & _); by eexists.
      * intros [m E]; destruct (split_inv _ _ E) as [->|[->|(_ & _ & m0 & E0)]]; [by right|left; by eexists..].
  - split; [done|]; intros q; rewrite Hl, (proj2 (shape_leaves _ S) q); split.
    + intros [[(m & E & Ec) Hq]|[-> Ec]]; [|eexists; split; [apply split_lookup_u|done]].
      destruct (split_old q m Hq E) as (m' & E' & _ & Ec' & _); exists m'; split; congruence.
    + intros (m & E & Ec); destruct (split_inv _ _ E) as [->|[->|(Hq & _ & m0 & E0)]].
      * rewrite split_lookup_u in E; injection E as <-; by right.
      * rewrite split_lookup_p in E; by injection E as <-.
      * left; split; [|done]; exists m0; split; [done|]; destruct (split_old q m0 Hq E0) as (m' & E' & _ & Ec' & _); congruence.
  - done.
Qed.
End Split.

End CoreTree.
