(* ===== verification/CoreSpec.v ===== *)
(** Core::addBlock keeps a tree of well-formed chains, and the main chain is the one with most work. *)

From S2P Require Import Prelude.
From S2P Require Import Types.
From S2P Require Import Keccak.
From S2P Require Import Currency.
From S2P Require Import Difficulty.
From S2P Require Import TreeHash.
From S2P Require Import Serialization.
From S2P Require Import Block.
From S2P Require Import CachedTransaction.
From S2P Require Import TransactionPool.
From S2P Require Import ChainRules.
From S2P Require Import BlockchainCache.
From S2P Require Import ChainView.
From S2P Require Import ChainSplit.
From S2P Require Import ChainPush.
From S2P Require Import Validation.
From S2P Require Import ValidationSpec.
From S2P Require Import Ledger.
From S2P Require Import Core.
From S2P Require Import CoreTree.

Module CoreSpec.

Import Currency Difficulty Serialization CachedTransaction BlockchainCache ChainView ChainSplit ChainPush Validation ValidationSpec Ledger Core CoreTree.

(** ** Chains with another lower part *)

Record same_chain (a b : cache) : Prop := {
  same_infos : infos b = infos a;
  same_raw : raw_blocks b = raw_blocks a;
  same_spent : spent b = spent a;
  same_outputs amount : outputs amount b = outputs amount a;
  same_transactions : chain_transactions b ≡ₚ chain_transactions a }.

Lemma same_chain_app cs a b : same_chain a b -> same_chain (cs ++ a) (cs ++ b).
Proof.
  intros [H1 H2 H3 H4 H5]; induction cs as [|s cs [I1 I2 I3 I4 I5]]; [by split|].
  split; cbn [app infos raw_blocks spent outputs chain_transactions].
  - by rewrite I1.
  - by rewrite I2.
  - by rewrite I3.
  - intros amount; by rewrite I4.
  - by rewrite I5.
Qed.

Lemma wf_segment_same a b s : same_chain a b -> wf_segment a s -> wf_segment b s.
Proof.
  intros [H1 H2 H3 H4 H5] [W1 W2 W3 W4 W5 W6 W7 W8 W9 W10 W11]; split; try done.
  - unfold height in *; by rewrite H1.
  - by rewrite H3.
  - intros amount e E; destruct (W6 amount e E) as [E1 E2 E3 E4 E5 E6]; split; try done; by rewrite H4.
Qed.

Lemma wf_cache_same cs a b : same_chain a b -> wf_cache (cs ++ a) -> wf_cache b -> Forall (fun s => blockInfos s <> []) b ->
  wf_cache (cs ++ b).
Proof.
  intros HS W Wb Hb; induction cs as [|s cs IH]; [done|]; destruct W as (Ws & Hn & W); cbn [app wf_cache].
  split_and!; [|apply Forall_app in Hn as [Hn _]; by apply Forall_app|by apply IH].
  by eapply wf_segment_same; [apply same_chain_app|].
Qed.

Lemma represents_same {AR : Arrived} c c' l : same_chain c c' -> wf_cache c' -> represents c l -> represents c' l.
Proof.
  intros [H1 H2 H3 H4 H5] W [R1 R2 R3 R4 R5 R6 R7]; split; rewrite ?H1, ?H2, ?H3; try done.
  unfold typed_chain in *; by rewrite H5.
Qed.

(** ** Work *)

Section Work.
Context (ndebug : bool) (currency : Currency).

(** The difficulty that follows the blocks [l]. *)
Definition next_difficulty (l : list CachedBlockInfo) : res Z :=
  let i := Z.of_nat (length l) - 1 in
  let! v := getBlockMajorVersionForHeight ndebug currency (u32 (i + 1)) in
  let units := last_units (difficultyBlocksCountByBlockVersion currency v i) i false l in
  of_option Undefined (getNextDifficulty currency v i (map bi_timestamp units) (map bi_cumulativeDifficulty units)).

Lemma blocksCount_nonneg v i : 0 <= difficultyBlocksCountByBlockVersion currency v i.
Proof.
  unfold difficultyBlocksCountByBlockVersion; destruct (_ >=? _); [done|].
  by apply (wrap_range 64).
Qed.

Lemma getDifficultyForNextBlock_chain c i : wf_cache c -> 0 <= i < height c ->
  getDifficultyForNextBlock ndebug currency i c = next_difficulty (take (Z.to_nat (i + 1)) (infos c)).
Proof.
  intros W Hi; unfold getDifficultyForNextBlock; destruct c as [|s parent]; [unfold height in Hi; simpl in Hi; lia|].
  destruct W as (Ws & Hn & W); rewrite (topIndex_covers _ _ _ Ws Hi); unfold assert_res; rewrite orb_true_r; cbn [rbind].
  unfold next_difficulty; rewrite length_take, Nat.min_l by (unfold height in Hi; lia).
  replace (Z.of_nat (Z.to_nat (i + 1)) - 1) with i by lia.
  destruct (getBlockMajorVersionForHeight ndebug currency (u32 (i + 1))) as [v|]; cbn [rbind]; [|done].
  unfold getLastTimestamps, getLastCumulativeDifficulties.
  rewrite !getLastUnits_chain by (done || apply blocksCount_nonneg); cbn [rbind].
  unfold last_units; by rewrite take_take, Nat.min_id.
Qed.

(** Every block adds the difficulty that its predecessors ask for. *)
Definition worked (l : list CachedBlockInfo) : Prop := forall j info prev, l !! S j = Some info -> l !! j = Some prev ->
  exists d, next_difficulty (take (S j) l) = Ok d /\ 0 < d /\ bi_cumulativeDifficulty info = bi_cumulativeDifficulty prev + d.

Definition work (l : list CachedBlockInfo) : Z := match last l with Some i => bi_cumulativeDifficulty i | None => 0 end.

Lemma work_lookup l j info : l !! j = Some info -> work (take (S j) l) = bi_cumulativeDifficulty info.
Proof. intros E; unfold work; by rewrite (take_S_r _ _ _ E), last_snoc. Qed.

Lemma worked_app l k : worked (l ++ k) -> worked l.
Proof.
  intros H j info prev E1 E2; pose proof (lookup_lt_Some _ _ _ E1).
  destruct (H j info prev) as (d & E & Hd); [by apply lookup_app_l_Some..|].
  rewrite take_app_le in E by lia; by exists d.
Qed.

Lemma worked_take n l : worked l -> worked (take n l).
Proof. intros H; rewrite <- (take_drop n l) in H; by eapply worked_app. Qed.

Lemma worked_snoc l info d : worked l -> next_difficulty l = Ok d -> 0 < d ->
  bi_cumulativeDifficulty info = work l + d -> worked (l ++ [info]).
Proof.
  intros H Ed Hd Ei j i prev E1 E2; apply lookup_snoc_Some in E1 as [[Hj E1]|[Ej <-]].
  - rewrite lookup_app_l in E2 by lia; rewrite take_app_le by lia; by apply H.
  - rewrite lookup_app_l in E2 by lia; rewrite take_app_le, take_ge by lia; exists d; split_and!; [done..|].
    rewrite Ei; f_equal; rewrite <- (work_lookup _ _ _ E2), take_ge by lia; done.
Qed.

Lemma worked_mono l j k a b : worked l -> (j <= k)%nat -> l !! j = Some a -> l !! k = Some b ->
  bi_cumulativeDifficulty a <= bi_cumulativeDifficulty b.
Proof.
  intros H Hjk Ea; revert b; induction Hjk as [|k Hjk IH]; intros b Eb; [simplify_eq; lia|].
  destruct (lookup_lt_is_Some_2 l k ltac:(apply lookup_lt_Some in Eb; lia)) as [x Ex].
  destruct (H _ _ _ Eb Ex) as (d & _ & Hd & ->); pose proof (IH x Ex); lia.
Qed.

Lemma work_prefix l k : worked (l ++ k) -> l <> [] -> work l <= work (l ++ k).
Proof.
  intros H Hl; destruct (exists_last Hl) as (l' & a & ->); unfold work at 1; rewrite last_snoc.
  destruct k as [|b k] using rev_ind; [rewrite app_nil_r; unfold work; rewrite last_snoc; lia|].
  unfold work; rewrite app_assoc, last_snoc; rewrite app_assoc in H.
  eapply (worked_mono _ (length l') (length ((l' ++ [a]) ++ k)) a b H).
  - rewrite !length_app; simpl; lia.
  - rewrite <- !app_assoc; simpl; by apply list_lookup_middle.
  - by apply list_lookup_middle.
Qed.

(** The block after [l] has the work that any block after [l] has. *)
Lemma worked_next l info k d : worked (l ++ info :: k) -> l <> [] -> next_difficulty l = Ok d ->
  work l + d <= work (l ++ info :: k).
Proof.
  intros H Hl Ed; destruct (exists_last Hl) as (l' & a & ->).
  assert (E : ((l' ++ [a]) ++ info :: k) !! S (length l') = Some info).
  { apply list_lookup_middle; rewrite length_app; simpl; lia. }
  assert (E' : ((l' ++ [a]) ++ info :: k) !! length l' = Some a) by (rewrite <- app_assoc; by apply list_lookup_middle).
  destruct (H _ _ _ E E') as (d' & Ed' & Hd & Ei); rewrite take_app_le, take_ge in Ed' by (rewrite length_app; simpl; lia).
  rewrite Ed in Ed'; injection Ed' as <-; unfold work at 1; rewrite last_snoc, <- Ei.
  replace ((l' ++ [a]) ++ info :: k) with (((l' ++ [a]) ++ [info]) ++ k) in * by (by rewrite <- app_assoc).
  etrans; [|apply (work_prefix _ k H); by destruct l']; unfold work; by rewrite last_snoc.
Qed.
End Work.

(** ** Trees of chains *)

Section Tree.
Context {FH : FastHash} {AR : Arrived}.
Context (ndebug : bool) (currency : Currency).

Definition hashes (n : node) : list Hash := map bi_blockHash (blockInfos (n_segment n)).

(** [c] is the chain that ends with the object at [p]. *)
Definition chain_of (st : Core) (p : ptr) (c : cache) : Prop := exists ps, path (heap st) p ps /\ segs (heap st) ps = c.

(** A block of the tree. *)
Definition known (st : Core) (x : Hash) : Prop := exists p n, heap st !! p = Some n /\ x ∈ hashes n.

Record grown (st : Core) : Prop := {
  grown_shape : shape st;
  grown_chain p c : chain_of st p c -> exists l, represents c l;
  grown_some p n : heap st !! p = Some n -> blockInfos (n_segment n) <> [];
  grown_work p c : chain_of st p c -> worked ndebug currency (infos c);
  grown_unique p q n m x : heap st !! p = Some n -> heap st !! q = Some m -> x ∈ hashes n -> x ∈ hashes m -> p = q }.

(** No chain has more work than the main chain. *)
Definition heaviest (st : Core) : Prop := exists leaf c, head (chainsLeaves st) = Some leaf /\ chain_of st leaf c /\
  forall q c', chain_of st q c' -> work (infos c') <= work (infos c).

Lemma chain_of_det st p c c' : chain_of st p c -> chain_of st p c' -> c = c'.
Proof. intros (ps & Hp & <-) (ps' & Hp' & <-); by rewrite (path_det _ _ _ _ Hp Hp'). Qed.

Lemma chain_of_inv st p n c : heap st !! p = Some n -> chain_of st p c ->
  exists r, path (heap st) p (p :: r) /\ c = n_segment n :: segs (heap st) r.
Proof.
  intros E (ps & Hp & <-); destruct (path_head _ _ _ Hp) as (n' & r & -> & E'); exists r; split; [done|].
  by rewrite (segs_cons _ _ _ _ E).
Qed.

Lemma chain_of_cache st p c : chain_of st p c -> cache_of (heap st) p = Ok c.
Proof. intros (ps & Hp & <-); by apply cache_of_path. Qed.

Lemma shape_chain st p n : shape st -> heap st !! p = Some n -> exists parent, chain_of st p (n_segment n :: parent).
Proof.
  intros S E; destruct (shape_path _ S _ _ E) as [ps Hp]; destruct (path_head _ _ _ Hp) as (n' & r & -> & _).
  exists (segs (heap st) r), (p :: r); split; [done|]; by apply segs_cons.
Qed.

(** A block [info] that pushBlock adds to the chain [t :: tp]. *)
Record adds (cb : CachedBlock) (vb : ValidatedBlock) (raw : RawBlock) (t : segment) (tp : cache) (t' : segment)
    (info : CachedBlockInfo) : Prop := {
  adds_push : doPushBlock ndebug cb (vb_transactions vb) (vb_validatorState vb) (vb_cumulativeBlockSize vb)
    (vb_emissionChange vb) (vb_currentDifficulty vb) raw (t :: tp) = Ok (t' :: tp);
  adds_represents : exists l, represents (t' :: tp) l;
  adds_infos : blockInfos t' = blockInfos t ++ [info];
  adds_raw : raw_blocks (t' :: tp) = raw_blocks (t :: tp) ++ [raw];
  adds_hash : bi_blockHash info = cb_hash cb;
  adds_difficulty : next_difficulty ndebug currency (infos (t :: tp)) = Ok (vb_currentDifficulty vb) /\ 0 < vb_currentDifficulty vb;
  adds_work : bi_cumulativeDifficulty info = work (infos (t :: tp)) + vb_currentDifficulty vb }.

Lemma adds_chain cb vb raw t tp t' info : adds cb vb raw t tp t' info -> infos (t' :: tp) = infos (t :: tp) ++ [info].
Proof. intros A; cbn [infos]; by rewrite (adds_infos _ _ _ _ _ _ _ A), app_assoc. Qed.

Lemma adds_worked cb vb raw t tp t' info : adds cb vb raw t tp t' info -> worked ndebug currency (infos (t :: tp)) ->
  worked ndebug currency (infos (t' :: tp)) /\ work (infos (t' :: tp)) = work (infos (t :: tp)) + vb_currentDifficulty vb.
Proof.
  intros A H; rewrite (adds_chain _ _ _ _ _ _ _ A); destruct (adds_difficulty _ _ _ _ _ _ _ A) as [Ed Hd].
  split; [|unfold work at 1; rewrite last_snoc; apply A]; eapply worked_snoc; [done|exact Ed|done|apply A].
Qed.

(** *** On top of a leaf *)

Section Leaf.
Context (st : Core) (p : ptr) (n : node) (parent : cache) (cb : CachedBlock) (vb : ValidatedBlock) (raw : RawBlock)
  (t' : segment) (info : CachedBlockInfo).
Hypothesis G : grown st.
Hypothesis Ep : heap st !! p = Some n.
Hypothesis Hn : n_children n = [].
Hypothesis HC : chain_of st p (n_segment n :: parent).
Hypothesis A : adds cb vb raw (n_segment n) parent t' info.
Hypothesis Hx : ~ known st (cb_hash cb).

Let st' : Core := with_heap (<[p := with_segment t' n]> (heap st)) st.

Lemma leaf_push : pushBlock ndebug p cb vb raw st = Ok st'.
Proof.
  unfold pushBlock, get_node; rewrite Ep; cbn [of_option rbind]; rewrite (chain_of_cache _ _ _ HC); cbn [rbind].
  rewrite (adds_push _ _ _ _ _ _ _ A); done.
Qed.

Lemma leaf_links q : links <$> heap st' !! q = links <$> heap st !! q.
Proof.
  unfold st'; cbn [heap with_heap]; destruct (decide (q = p)) as [->|Hq]; [by rewrite lookup_insert_eq, Ep|by rewrite lookup_insert_ne].
Qed.

Lemma leaf_path q ps : path (heap st') q ps <-> path (heap st) q ps.
Proof. split; apply path_links; intros x; [symmetry|]; apply leaf_links. Qed.

Lemma leaf_chain_other q c : q <> p -> chain_of st' q c <-> chain_of st q c.
Proof.
  intros Hq; unfold chain_of; setoid_rewrite leaf_path; split; intros (ps & Hp & <-); exists ps; (split; [done|]);
    [symmetry|]; apply segs_ext, Forall_forall; intros x Hx'; unfold st'; cbn [heap with_heap]; (rewrite lookup_insert_ne; [done|]);
    intros <-; apply Hq; eapply (leaf_top st (grown_shape _ G)); eauto; apply (shape_leaves _ (grown_shape _ G)); eauto.
Qed.

Lemma leaf_chain_p : chain_of st' p (t' :: parent).
Proof.
  destruct (chain_of_inv _ _ _ _ Ep HC) as (r & Hr & [= ->]); exists (p :: r); split; [by apply leaf_path|].
  rewrite (segs_cons _ _ _ (with_segment t' n)) by apply lookup_insert_eq; f_equal; apply segs_ext, Forall_forall.
  intros q Hq; unfold st'; cbn [heap with_heap]; rewrite lookup_insert_ne; [done|]; intros <-.
  apply path_NoDup, NoDup_cons in Hr as [? _]; done.
Qed.

Lemma leaf_known x : known st' x <-> known st x \/ x = cb_hash cb.
Proof.
  assert (Eh : hashes (with_segment t' n) = hashes n ++ [cb_hash cb]).
  { unfold hashes; cbn [n_segment with_segment]; rewrite (adds_infos _ _ _ _ _ _ _ A), map_app; simpl.
    by rewrite (adds_hash _ _ _ _ _ _ _ A). }
  unfold known, st'; cbn [heap with_heap]; split.
  - intros (q & m & E & Hm); destruct (decide (q = p)) as [->|Hq].
    + rewrite lookup_insert_eq in E; injection E as <-; rewrite Eh, elem_of_app, list_elem_of_singleton in Hm.
      destruct Hm as [Hm| ->]; [left; by exists p, n|by right].
    + rewrite lookup_insert_ne in E by done; left; by exists q, m.
  - intros [(q & m & E & Hm)| ->].
    + destruct (decide (q = p)) as [->|Hq]; [|exists q, m; by rewrite lookup_insert_ne].
      rewrite Ep in E; injection E as <-; exists p, (with_segment t' n); rewrite lookup_insert_eq, Eh; split; [done|].
      apply elem_of_app; by left.
    + exists p, (with_segment t' n); rewrite lookup_insert_eq, Eh; split; [done|]; apply elem_of_app; right; apply list_elem_of_here.
Qed.

Lemma leaf_grown : grown st'.
Proof.
  assert (HCh : forall q c, chain_of st' q c -> (q = p /\ c = t' :: parent) \/ (q <> p /\ chain_of st q c)).
  { intros q c Hq; destruct (decide (q = p)) as [->|Hqp]; [left; split; [done|]; eapply chain_of_det; [exact Hq|apply leaf_chain_p]|].
    right; split; [done|]; by apply leaf_chain_other. }
  split.
  - eapply shape_links; [apply G|apply leaf_links|done|done].
  - intros q c [[-> ->]|[_ H]]%HCh; [apply A|by eapply (grown_chain _ G)].
  - intros q m E; unfold st' in E; cbn [heap with_heap] in E; destruct (decide (q = p)) as [->|Hq].
    + rewrite lookup_insert_eq in E; injection E as <-; cbn [n_segment with_segment]; rewrite (adds_infos _ _ _ _ _ _ _ A).
      by destruct (blockInfos (n_segment n)).
    + rewrite lookup_insert_ne in E by done; by eapply (grown_some _ G).
  - intros q c [[-> ->]|[_ H]]%HCh; [|by eapply (grown_work _ G)].
    eapply adds_worked; [exact A|by eapply (grown_work _ G)].
  - intros q1 q2 m1 m2 x E1 E2 H1 H2.
    assert (HH : forall q m, heap st' !! q = Some m -> x ∈ hashes m -> (exists m0, heap st !! q = Some m0 /\ x ∈ hashes m0) \/ (q = p /\ x = cb_hash cb)).
    { intros q m E H; unfold st' in E; cbn [heap with_heap] in E; destruct (decide (q = p)) as [->|Hq].
      - rewrite lookup_insert_eq in E; injection E as <-; unfold hashes in H; cbn [n_segment with_segment] in H.
        rewrite (adds_infos _ _ _ _ _ _ _ A), map_app, elem_of_app in H; destruct H as [H|H%list_elem_of_singleton]; [left; by exists n|right].
        by rewrite H, (adds_hash _ _ _ _ _ _ _ A).
      - rewrite lookup_insert_ne in E by done; left; by exists m. }
    destruct (HH _ _ E1 H1) as [(m1' & F1 & K1)|[-> ->]], (HH _ _ E2 H2) as [(m2' & F2 & K2)|[-> K2]]; subst.
    + by eapply (grown_unique _ G).
    + destruct Hx; by exists q1, m1'.
    + destruct Hx; by exists q2, m2'.
    + done.
Qed.
End Leaf.

(** *** A new segment *)

Section NewSegment.
Context (st : Core) (p : ptr) (n : node) (parent : cache) (i : Z) (cb : CachedBlock) (vb : ValidatedBlock) (raw : RawBlock)
  (t' : segment) (info : CachedBlockInfo).
Hypothesis G : grown st.
Hypothesis Ep : heap st !! p = Some n.
Hypothesis Hn : n_children n <> [].
Hypothesis HC : chain_of st p (n_segment n :: parent).
Hypothesis A : adds cb vb raw (new_segment (u32 (i + 1))) (n_segment n :: parent) t' info.
Hypothesis Hx : ~ known st (cb_hash cb).

Let c : ptr := fresh (dom (heap st)).
Let st' : Core := with_chains (chainsStorage st ++ [c]) (chainsLeaves st ++ [c])
  (with_heap (<[p := with_children (n_children n ++ [c]) n]> (<[c := mkNode t' (Some p) [] false]> (heap st))) st).

Lemma fork_fresh : heap st !! c = None.
Proof. apply not_elem_of_dom, is_fresh. Qed.

Lemma fork_result : forkSegment ndebug p i cb vb raw st = Ok st'.
Proof.
  pose proof fork_fresh as Hc; assert (Hpc : c <> p) by congruence.
  destruct (chain_of_inv _ _ _ _ Ep HC) as (r & Hr & Er).
  unfold forkSegment, createBlockchainCache; fold c; unfold get_node; cbn [heap with_heap].
  rewrite lookup_insert_ne, Ep by done; cbn [of_option rbind]; unfold addChild.
  assert (Hnc : c ∉ n_children n)
    by (intros Hin; apply (shape_children _ (grown_shape _ G) _ _ _ Ep) in Hin as (m & Em & _); congruence).
  rewrite (bool_decide_eq_true_2 _ Hnc), (bool_decide_eq_false_2 _ Hnc); unfold assert_res; rewrite orb_true_r; cbn [rbind].
  replace (if n_database n then _ else _) with (Ok (E := cache_error) (with_children (n_children n ++ [c]) n)) by (by destruct (n_database n)).
  cbn [rbind].
  unfold pushBlock, get_node; cbn [heap with_heap with_chains chainsStorage chainsLeaves].
  rewrite lookup_insert_ne, lookup_insert_eq by done; cbn [of_option rbind].
  rewrite (cache_of_path _ _ _ (fork_path_new st p c n (new_segment (u32 (i + 1))) Ep Hc _ Hr)); cbn [rbind].
  assert (ES : segs (<[p := with_children (n_children n ++ [c]) n]> (<[c := mkNode (new_segment (u32 (i + 1))) (Some p) [] false]> (heap st)))
    (c :: p :: r) = new_segment (u32 (i + 1)) :: n_segment n :: parent).
  { rewrite (segs_cons _ _ _ _ (fork_lookup_new st p c n _ Ep Hc)); cbn [n_segment]; f_equal; rewrite Er.
    rewrite <- (segs_cons _ _ r _ Ep); apply segs_ext; eapply Forall_impl; [exact (path_lookup _ _ _ Hr)|].
    intros q [m Em]; destruct (fork_old st p c n (new_segment (u32 (i + 1))) Ep Hc q m Em) as (m' & -> & E2 & _).
    by rewrite Em; simpl; rewrite E2. }
  rewrite ES, (adds_push _ _ _ _ _ _ _ A); cbn [rbind head of_option]; f_equal; unfold st', with_chains, with_heap; f_equal.
  cbn [with_segment n_parent n_children n_database].
  rewrite (insert_insert_ne (<[c := _]> (heap st)) c p) by done; by rewrite insert_insert_eq.
Qed.

Lemma fork_chain_old q d : q <> c -> chain_of st' q d <-> chain_of st q d.
Proof.
  intros Hq; pose proof fork_fresh as Hc.
  assert (H1 : forall d, chain_of st q d -> chain_of st' q d).
  { intros d' (ps & Hp & <-); exists ps; split; [by apply fork_path|]; apply segs_ext.
    eapply Forall_impl; [exact (path_lookup _ _ _ Hp)|]; intros x [m Em].
    destruct (fork_old st p c n t' Ep Hc x m Em) as (m' & E' & E2 & _); unfold st'; cbn [heap with_chains with_heap].
    by rewrite E', Em; simpl; rewrite E2. }
  split; [|apply H1]; intros H; destruct H as (ps & Hp & Hs).
  destruct (path_head _ _ _ Hp) as (m & r & Er & Em); destruct (fork_inv st p c n t' Ep q m Em) as [->|[m0 E0]]; [done|].
  destruct (shape_chain _ _ _ (grown_shape _ G) E0) as [pr Hpr]; pose proof (H1 _ Hpr) as H2.
  rewrite (chain_of_det _ _ d _ (ex_intro _ ps (conj Hp Hs)) H2); done.
Qed.

Lemma fork_chain_new : chain_of st' c (t' :: n_segment n :: parent).
Proof.
  pose proof fork_fresh as Hc; destruct (chain_of_inv _ _ _ _ Ep HC) as (r & Hr & Er).
  exists (c :: p :: r); split; [by apply fork_path_new|]; unfold st'; cbn [heap with_chains with_heap].
  rewrite (segs_cons _ _ _ _ (fork_lookup_new st p c n _ Ep Hc)); cbn [n_segment]; f_equal; rewrite Er.
  rewrite <- (segs_cons _ _ r _ Ep); apply segs_ext; eapply Forall_impl; [exact (path_lookup _ _ _ Hr)|].
  intros q [m Em]; destruct (fork_old st p c n t' Ep Hc q m Em) as (m' & -> & E2 & _); by rewrite Em; simpl; rewrite E2.
Qed.

Lemma fork_hashes q m : heap st' !! q = Some m ->
  (q = c /\ hashes m = [cb_hash cb]) \/ exists m0, heap st !! q = Some m0 /\ hashes m = hashes m0.
Proof.
  pose proof fork_fresh as Hc; intros E; destruct (fork_inv st p c n t' Ep q m E) as [->|[m0 E0]].
  - left; split; [done|]; unfold st' in E; cbn [heap with_chains with_heap] in E.
    rewrite (fork_lookup_new st p c n _ Ep Hc) in E; injection E as <-; unfold hashes; cbn [n_segment].
    rewrite (adds_infos _ _ _ _ _ _ _ A); cbn [new_segment blockInfos app map]; by rewrite (adds_hash _ _ _ _ _ _ _ A).
  - right; exists m0; split; [done|]; destruct (fork_old st p c n t' Ep Hc q m0 E0) as (m' & E' & E2 & _).
    unfold st' in E; cbn [heap with_chains with_heap] in E; rewrite E in E'; injection E' as <-; unfold hashes; by rewrite E2.
Qed.

Lemma fork_known x : known st' x <-> known st x \/ x = cb_hash cb.
Proof.
  pose proof fork_fresh as Hc; split.
  - intros (q & m & E & Hm); destruct (fork_hashes _ _ E) as [[_ Eh]|(m0 & E0 & Eh)]; rewrite Eh in Hm.
    + right; by apply list_elem_of_singleton in Hm.
    + left; by exists q, m0.
  - intros [(q & m & E & Hm)| ->].
    + destruct (fork_old st p c n t' Ep Hc q m E) as (m' & E' & E2 & _); exists q, m'; split; [done|]; unfold hashes in *; by rewrite E2.
    + exists c; eexists; split; [apply (fork_lookup_new st p c n _ Ep Hc)|]; unfold hashes; cbn [n_segment].
      rewrite (adds_infos _ _ _ _ _ _ _ A); cbn [new_segment blockInfos app map]; rewrite (adds_hash _ _ _ _ _ _ _ A).
      apply list_elem_of_here.
Qed.

Lemma fork_grown : grown st'.
Proof.
  pose proof fork_fresh as Hc.
  assert (HCh : forall q d, chain_of st' q d -> (q = c /\ d = t' :: n_segment n :: parent) \/ chain_of st q d).
  { intros q d Hq; destruct (decide (q = c)) as [->|Hqc]; [left; split; [done|]; eapply chain_of_det; [exact Hq|apply fork_chain_new]|].
    right; by apply fork_chain_old. }
  split.
  - eapply (fork_shape st p c n t' (grown_shape _ G) Ep Hc Hn); done.
  - intros q d [[-> ->]|H]%HCh; [apply A|by eapply (grown_chain _ G)].
  - intros q m E; destruct (fork_inv st p c n t' Ep q m E) as [->|[m0 E0]].
    + unfold st' in E; cbn [heap with_chains with_heap] in E; rewrite (fork_lookup_new st p c n _ Ep Hc) in E; injection E as <-.
      cbn [n_segment]; by rewrite (adds_infos _ _ _ _ _ _ _ A).
    + destruct (fork_old st p c n t' Ep Hc q m0 E0) as (m' & E' & E2 & _).
      unfold st' in E; cbn [heap with_chains with_heap] in E; rewrite E in E'; injection E' as <-; rewrite E2.
      by eapply (grown_some _ G).
  - intros q d [[-> ->]|H]%HCh; [|by eapply (grown_work _ G)].
    eapply adds_worked; [exact A|]; cbn [infos new_segment blockInfos]; rewrite app_nil_r; exact (grown_work _ G _ _ HC).
  - intros q1 q2 m1 m2 x E1 E2 H1 H2.
    destruct (fork_hashes _ _ E1) as [[-> Eh1]|(k1 & F1 & Eh1)], (fork_hashes _ _ E2) as [[-> Eh2]|(k2 & F2 & Eh2)];
      rewrite Eh1 in H1; rewrite Eh2 in H2.
    + done.
    + apply list_elem_of_singleton in H1 as ->; destruct Hx; by exists q2, k2.
    + apply list_elem_of_singleton in H2 as ->; destruct Hx; by exists q1, k1.
    + by eapply (grown_unique _ G).
Qed.
End NewSegment.

(** *** A split segment *)

Lemma insert_leaf (leaves : list ptr) k p u : NoDup leaves -> leaves !! k = Some p -> u ∉ leaves ->
  NoDup (<[k := u]> leaves) /\ (forall q, q ∈ <[k := u]> leaves <-> (q ∈ leaves /\ q <> p) \/ q = u) /\
  head (<[k := u]> leaves) = if decide (head leaves = Some p) then Some u else head leaves.
Proof.
  intros N E Hu; pose proof (lookup_lt_Some _ _ _ E) as Hk.
  rewrite insert_take_drop by done; pose proof (take_drop_middle _ _ _ E) as El.
  rewrite <- El in N; apply NoDup_app in N as (N1 & N2 & [N3 N4]%NoDup_cons).
  assert (HU : forall x, x ∈ take k leaves \/ x ∈ drop (S k) leaves -> x <> u).
  { intros x Hx ->; apply Hu; rewrite <- El; apply elem_of_app; rewrite elem_of_cons; tauto. }
  split_and!.
  - apply NoDup_app; split_and!; [done| |apply NoDup_cons; split; [|done]].
    + intros x H1 [->|H2]%elem_of_cons; [by apply (HU u); [left|]|]; apply (N2 x H1); by apply list_elem_of_further.
    + intros H; by apply (HU u); [right|].
  - intros q; rewrite <- El at 3; rewrite !elem_of_app, !elem_of_cons.
    assert (q ∈ take k leaves -> q <> p) by (intros H ->; apply (N2 p H), list_elem_of_here).
    assert (q ∈ drop (S k) leaves -> q <> p) by (by intros H' ->). tauto.
  - destruct leaves as [|x leaves]; [done|]; destruct k as [|k]; simpl in *.
    + injection E as ->; by rewrite decide_True.
    + rewrite decide_False; [done|]; intros [= ->]; apply (N2 p); [apply list_elem_of_here|apply list_elem_of_here].
Qed.

Section SplitSegment.
Context (st : Core) (p : ptr) (n : node) (parent : cache) (l : ledger).
Hypothesis G : grown st.
Hypothesis Ep : heap st !! p = Some n.
Hypothesis HC : chain_of st p (n_segment n :: parent).
Hypothesis R : represents (n_segment n :: parent) l.

Let u : ptr := fresh (dom (heap st)).

Lemma split_fresh : heap st !! u = None.
Proof. apply not_elem_of_dom, is_fresh. Qed.

Definition split_heap (low up : segment) (h1 : gmap ptr node) : gmap ptr node :=
  <[u := mkNode up (Some p) (n_children n) false]> (<[p := mkNode low (n_parent n) [u] (n_database n)]> h1).

Definition split_leaves : list ptr :=
  if decide (n_children n = []) then
    match list_find (fun q => q = p) (chainsLeaves st) with Some (k, _) => <[k := u]> (chainsLeaves st) | None => [] end
  else chainsLeaves st.

Lemma split_leaves_spec : NoDup split_leaves /\
  (forall q, q ∈ split_leaves <-> (q ∈ chainsLeaves st /\ q <> p) \/ (q = u /\ n_children n = [])) /\
  head split_leaves = (if decide (head (chainsLeaves st) = Some p) then Some u else head (chainsLeaves st)) /\
  (n_children n = [] -> exists k x, list_find (fun q => q = p) (chainsLeaves st) = Some (k, x) /\ split_leaves = <[k := u]> (chainsLeaves st)).
Proof.
  pose proof (shape_leaves _ (grown_shape _ G)) as [N HL]; unfold split_leaves.
  assert (Hu : u ∉ chainsLeaves st) by (intros H; apply HL in H as (m & Em & _); pose proof split_fresh; congruence).
  destruct (decide (n_children n = [])) as [Hn|Hn].
  - assert (Hp : p ∈ chainsLeaves st) by (apply HL; by exists n).
    destruct (list_find_elem_of (fun q => q = p) (chainsLeaves st) p Hp eq_refl) as [[k x] Ef]; rewrite Ef.
    apply list_find_Some in Ef as Ef'; destruct Ef' as (Ek & -> & _).
    destruct (insert_leaf _ _ _ _ N Ek Hu) as (H1 & H2 & H3); split_and!; [done| |done|].
    + intros q; rewrite H2; tauto.
    + intros _; by exists k, p.
  - assert (Hp : p ∉ chainsLeaves st) by (intros H; apply HL in H as (m & Em & Hm); congruence).
    split_and!; [done| | |done].
    + intros q; split; [intros Hq; left; split; [done|]; by intros ->|tauto].
    + rewrite decide_False; [done|]; intros E; apply Hp; destruct (chainsLeaves st); [done|]; injection E as ->; apply list_elem_of_here.
Qed.

Section Halves.
Context (low up : segment) (h1 : gmap ptr node).
Hypothesis W' : wf_cache (up :: low :: parent).
Hypothesis Hlow : blockInfos low <> [].
Hypothesis Hup : blockInfos up <> [].
Hypothesis HS : same_chain (n_segment n :: parent) (up :: low :: parent).
Hypothesis H1 : forall q, h1 !! q = if decide (q ∈ n_children n) then with_parent u <$> heap st !! q else heap st !! q.

Let st' : Core := with_chains (chainsStorage st ++ [u]) split_leaves (with_heap (split_heap low up h1) st).

Lemma halves_infos : blockInfos low ++ blockInfos up = blockInfos (n_segment n).
Proof. pose proof (same_infos _ _ HS) as E; cbn [infos] in E; rewrite <- app_assoc in E; by apply app_inv_head in E. Qed.

Lemma split_segs_away ps : Forall (fun q => is_Some (heap st !! q)) ps -> p ∉ ps -> segs (heap st') ps = segs (heap st) ps.
Proof.
  intros HF Hp; apply segs_ext, Forall_forall; intros q Hq; rewrite Forall_forall in HF; destruct (HF q Hq) as [m Em].
  assert (Hqp : q <> p) by congruence.
  destruct (split_old st p u n low up h1 (grown_shape _ G) Ep split_fresh H1 q m Hqp Em) as (m' & E' & E2 & _).
  unfold st'; cbn [heap with_chains with_heap]; unfold split_heap; by rewrite E', Em; simpl; rewrite E2.
Qed.

Lemma split_chain_low : chain_of st' p (low :: parent).
Proof.
  destruct (chain_of_inv _ _ _ _ Ep HC) as (r & Hr & [= ->]); exists (p :: r).
  pose proof (path_NoDup _ _ _ Hr) as [N _]%NoDup_cons; split; [by apply (split_path_p st p u n low up h1 (grown_shape _ G) Ep split_fresh H1)|].
  rewrite (segs_cons _ _ _ (mkNode low (n_parent n) [u] (n_database n))) by (apply (split_lookup_p st p u n low up h1 Ep split_fresh)).
  f_equal; apply split_segs_away; [|done]; apply path_lookup in Hr; by apply Forall_cons in Hr as [_ Hr].
Qed.

Lemma split_chain_up : chain_of st' u (up :: low :: parent).
Proof.
  destruct split_chain_low as (ps & Hp & Es); exists (u :: ps); split.
  - eapply path_up; [apply (split_lookup_u p u n low up h1)|done|exact Hp].
  - rewrite (segs_cons _ _ _ (mkNode up (Some p) (n_children n) false)) by (apply (split_lookup_u p u n low up h1)); by rewrite Es.
Qed.

(** Every other chain has the same blocks. *)
Lemma split_chain_other q d : q <> p -> chain_of st q d -> exists d', chain_of st' q d' /\ same_chain d d' /\ wf_cache d'.
Proof.
  intros Hq (ps & Hp & <-); destruct (grown_chain _ G q _ (ex_intro _ ps (conj Hp eq_refl))) as [lq Rq].
  destruct (decide (p ∈ ps)) as [Hin|Hin].
  - apply list_elem_of_split in Hin as (ls & r & ->); pose proof (path_NoDup _ _ _ Hp) as N.
    assert (Hr : path (heap st) p (p :: r)) by (by eapply path_suffix).
    assert (Ec : segs (heap st) (p :: r) = n_segment n :: parent) by (eapply chain_of_det; [by exists (p :: r)|exact HC]).
    exists (segs (heap st) ls ++ up :: low :: parent).
    assert (HF : segs (heap st') (ls ++ u :: p :: r) = segs (heap st) ls ++ up :: low :: parent).
    { rewrite segs_app; f_equal.
      - apply split_segs_away; [pose proof (path_lookup _ _ _ Hp) as HF; by apply Forall_app in HF as [HF _]|].
        apply NoDup_app in N as (_ & N & _); intros Hin; apply (N p Hin), list_elem_of_here.
      - destruct split_chain_up as (us & Hus & <-); f_equal; eapply path_det; [|exact Hus].
        apply (split_path_u st p u n low up h1 (grown_shape _ G) Ep split_fresh H1 _ Hr). }
    split_and!.
    + exists (ls ++ u :: p :: r); split; [|done]; by apply (split_path_above st p u n low up h1 (grown_shape _ G) Ep split_fresh H1).
    + rewrite segs_app, Ec; by apply same_chain_app.
    + pose proof (rep_wf _ _ Rq) as Wq; rewrite segs_app, Ec in Wq; eapply wf_cache_same; [exact HS|exact Wq|done|].
      constructor; [done|]; constructor; [done|]; pose proof (rep_wf _ _ R) as (_ & Hne & _); done.
  - exists (segs (heap st) ps); split_and!; [|by split|apply Rq]; exists ps; split.
    + by apply (split_path_away st p u n low up h1 (grown_shape _ G) Ep split_fresh H1).
    + apply split_segs_away; [by eapply path_lookup|done].
Qed.

Lemma split_hashes q m : heap st' !! q = Some m ->
  (q = u /\ hashes m = map bi_blockHash (blockInfos up)) \/ (q = p /\ hashes m = map bi_blockHash (blockInfos low)) \/
  (q <> p /\ q <> u /\ exists m0, heap st !! q = Some m0 /\ n_segment m = n_segment m0).
Proof.
  intros E; unfold st' in E; cbn [heap with_chains with_heap] in E; unfold split_heap in E.
  destruct (split_inv st p u n low up h1 H1 q m E) as [->|[->|(Hq & Hqu & m0 & E0)]].
  - rewrite (split_lookup_u p u n low up h1) in E; injection E as <-; by left.
  - rewrite (split_lookup_p st p u n low up h1 Ep split_fresh) in E; injection E as <-; by right; left.
  - right; right; split_and!; [done..|]; exists m0; split; [done|].
    destruct (split_old st p u n low up h1 (grown_shape _ G) Ep split_fresh H1 q m0 Hq E0) as (m' & E' & E2 & _); congruence.
Qed.

Lemma split_known x : known st' x <-> known st x.
Proof.
  assert (Eh : hashes n = map bi_blockHash (blockInfos low) ++ map bi_blockHash (blockInfos up)).
  { unfold hashes; by rewrite <- halves_infos, map_app. }
  split.
  - intros (q & m & E & Hm); destruct (split_hashes _ _ E) as [[-> E2]|[[-> E2]|(_ & _ & m0 & E0 & E2)]].
    + exists p, n; split; [done|]; rewrite Eh, elem_of_app; right; by rewrite <- E2.
    + exists p, n; split; [done|]; rewrite Eh, elem_of_app; left; by rewrite <- E2.
    + exists q, m0; split; [done|]; unfold hashes in *; by rewrite <- E2.
  - intros (q & m & E & Hm); destruct (decide (q = p)) as [->|Hq].
    + rewrite Ep in E; injection E as <-; rewrite Eh, elem_of_app in Hm; destruct Hm as [Hm|Hm].
      * exists p; eexists; split; [apply (split_lookup_p st p u n low up h1 Ep split_fresh)|done].
      * exists u; eexists; split; [apply (split_lookup_u p u n low up h1)|done].
    + destruct (split_old st p u n low up h1 (grown_shape _ G) Ep split_fresh H1 q m Hq E) as (m' & E' & E2 & _).
      exists q, m'; split; [done|]; unfold hashes in *; by rewrite E2.
Qed.

Lemma split_chains q d : chain_of st' q d ->
  (q = p /\ d = low :: parent) \/ (q = u /\ d = up :: low :: parent) \/
  (q <> p /\ q <> u /\ exists d0, chain_of st q d0 /\ same_chain d0 d /\ wf_cache d).
Proof.
  intros Hd; destruct (decide (q = p)) as [->|Hq]; [left; split; [done|]; eapply chain_of_det; [exact Hd|apply split_chain_low]|].
  destruct (decide (q = u)) as [->|Hqu]; [right; left; split; [done|]; eapply chain_of_det; [exact Hd|apply split_chain_up]|].
  right; right; split_and!; [done..|].
  assert (E : exists m, heap st !! q = Some m).
  { destruct Hd as (ps & Hp & _); destruct (path_head _ _ _ Hp) as (m & r & _ & E).
    destruct (split_hashes _ _ E) as [[? _]|[[? _]|(_ & _ & m0 & E0 & _)]]; [done|done|by exists m0]. }
  destruct E as [m Em]; destruct (shape_chain _ _ _ (grown_shape _ G) Em) as [pr Hpr].
  destruct (split_chain_other q _ Hq Hpr) as (d' & Hd' & Hsame & Wd); rewrite (chain_of_det _ _ _ _ Hd Hd'); by exists (n_segment m :: pr).
Qed.

Lemma split_grown : grown st'.
Proof.
  destruct split_leaves_spec as (L1 & L2 & L3 & _); pose proof split_fresh as Hu.
  assert (RU : represents (up :: low :: parent) l) by (by eapply represents_same).
  split.
  - eapply (split_shape st p u n low up h1 (grown_shape _ G) Ep Hu H1); [done|done|done|done|].
    cbn [chainsLeaves with_chains st']; intros E; rewrite E in L3; pose proof (shape_some _ (grown_shape _ G)).
    destruct (decide _); [done|]; by destruct (chainsLeaves st).
  - intros q d [[-> ->]|[[-> ->]|(_ & _ & d0 & H0 & Hs & Wd)]]%split_chains.
    + eexists; by apply represents_parent in RU.
    + by exists l.
    + destruct (grown_chain _ G _ _ H0) as [l0 R0]; exists l0; by eapply represents_same.
  - intros q m E; destruct (split_hashes _ _ E) as [[-> E2]|[[-> E2]|(_ & _ & m0 & E0 & E2)]].
    + intros Hm; unfold hashes in E2; rewrite Hm in E2; by destruct (blockInfos up).
    + intros Hm; unfold hashes in E2; rewrite Hm in E2; by destruct (blockInfos low).
    + rewrite E2; by eapply (grown_some _ G).
  - pose proof (grown_work _ G _ _ HC) as Hw; intros q d [[-> ->]|[[-> ->]|(_ & _ & d0 & H0 & Hs & Wd)]]%split_chains.
    + rewrite <- (same_infos _ _ HS) in Hw; cbn [infos] in Hw |- *; by eapply worked_app.
    + by rewrite (same_infos _ _ HS).
    + rewrite (same_infos _ _ Hs); by eapply (grown_work _ G).
  - assert (N : NoDup (map bi_blockHash (blockInfos low) ++ map bi_blockHash (blockInfos up))).
    { rewrite <- map_app, halves_infos; apply (seg_hashes _ _ (proj1 (rep_wf _ _ R))). }
    apply NoDup_app in N as (_ & ND & _).
    assert (HO : forall q m x, heap st' !! q = Some m -> x ∈ hashes m -> exists q0 m0, heap st !! q0 = Some m0 /\ x ∈ hashes m0 /\
      q0 = if decide (q = u) then p else q).
    { intros q m x E Hm; destruct (split_hashes _ _ E) as [[-> E2]|[[-> E2]|(_ & Hqu & m0 & E0 & E2)]].
      - exists p, n; rewrite decide_True by done; split_and!; [done| |done].
        unfold hashes; rewrite <- halves_infos, map_app, elem_of_app; right; by rewrite <- E2.
      - exists p, n; rewrite decide_False by congruence; split_and!; [done| |done].
        unfold hashes; rewrite <- halves_infos, map_app, elem_of_app; left; by rewrite <- E2.
      - exists q, m0; rewrite decide_False by done; split_and!; [done| |done]; unfold hashes in *; by rewrite <- E2. }
    intros q1 q2 m1 m2 x E1 E2 K1 K2; destruct (HO _ _ _ E1 K1) as (r1 & k1 & F1 & J1 & ->), (HO _ _ _ E2 K2) as (r2 & k2 & F2 & J2 & ->).
    pose proof (grown_unique _ G _ _ _ _ _ F1 F2 J1 J2) as Eq.
    destruct (decide (q1 = u)) as [->|Hq1], (decide (q2 = u)) as [->|Hq2]; subst; try done; exfalso.
    + destruct (split_hashes _ _ E1) as [[_ H]|[[? _]|(_ & ? & _)]]; [|congruence|done]; rewrite H in K1.
      destruct (split_hashes _ _ E2) as [[? _]|[[_ H']|(? & _)]]; [done| |done]; rewrite H' in K2; exact (ND x K2 K1).
    + destruct (split_hashes _ _ E2) as [[_ H]|[[? _]|(_ & ? & _)]]; [|congruence|done]; rewrite H in K2.
      destruct (split_hashes _ _ E1) as [[? _]|[[_ H']|(? & _)]]; [done| |done]; rewrite H' in K1; exact (ND x K1 K2).
Qed.
End Halves.
End SplitSegment.
End Tree.

End CoreSpec.
