(* ===== verification/Consensus.v ===== *)
(** Core::addBlock as a whole: the tree of chains stays well formed, nothing is lost, the main
    chain is the one with the most work, and the storage of the main chain follows it. *)

From S2P Require Import Prelude.
From S2P Require Import Types.
From S2P Require Import Keccak.
From S2P Require Import Currency.
From S2P Require Import TreeHash.
From S2P Require Import Serialization.
From S2P Require Import Block.
From S2P Require Import CachedTransaction.
From S2P Require Import TransactionPool.
From S2P Require Import ChainRules.
From S2P Require Import BlockchainCache.
From S2P Require Import ChainView.
From S2P Require Import ChainSplit.
From S2P Require Import ChainPush.
From S2P Require Import Validation.
From S2P Require Import ValidationSpec.
From S2P Require Import Ledger.
From S2P Require Import PoolValidation.
From S2P Require Import Core.
From S2P Require Import CoreTree.
From S2P Require Import CoreSpec.

Module Consensus.

Import Serialization CachedTransaction BlockchainCache ChainView ChainSplit ChainPush Validation ValidationSpec Ledger PoolValidation Core CoreTree CoreSpec.

(** A block whose previous block lies inside a segment of the database class that has children
    never gets through addBlock: split leaves the children at the lower segment, the new upper
    segment counts as a leaf, and the lower one is looked up among the leaves in vain. *)
Lemma database_split_undefined {FH : FastHash} ndebug currency checkpoints now d b0 st p n i cb vb raw top : heap st !! p = Some n ->
  n_database n = true -> p ∉ chainsLeaves st -> getTopBlockIndex ndebug (n_segment n) = Ok top -> top <> i ->
  exists e, attachBlock ndebug currency checkpoints now d b0 p i cb vb raw st = Err e.
Proof.
  intros En Hd Hp Et Hi; unfold attachBlock, get_node; rewrite En; cbn [of_option rbind]; rewrite Et; cbn [rbind].
  rewrite (proj2 (Z.eqb_neq _ _)) by done; unfold splitAndFork, splitSegment, get_node; rewrite En; cbn [of_option rbind].
  destruct (split ndebug (u32 (i + 1)) (n_segment n)) as [[low up]|e]; cbn [rbind]; [|by eexists].
  rewrite Hd; set (u := fresh (dom (heap st))); assert (Hu : heap st !! u = None) by (apply not_elem_of_dom, is_fresh).
  cbn [rbind heap with_heap]; rewrite lookup_insert_eq, lookup_insert_ne by congruence; rewrite lookup_insert_eq; cbn [of_option rbind].
  destruct (assert_res ndebug (getBlockCount _ >? 0)); cbn [rbind]; [|by eexists].
  destruct (assert_res ndebug (getBlockCount _ >? 0)); cbn [rbind]; [|by eexists].
  change (getChildCount (mkNode up (Some p) [] false) =? 0) with true; cbn match; cbn [chainsLeaves with_heap].
  destruct (list_find (fun q => q = p) (chainsLeaves st)) as [[k x]|] eqn:Ef; [|by eexists].
  apply list_find_Some in Ef as (Ek & -> & _); destruct Hp; by eapply list_elem_of_lookup_2.
Qed.

Section AddBlock.
Import Currency.
Context {FH : FastHash} {AR : Arrived}.
Context (ndebug : bool) (currency : Currency) (checkpoints : list (Z * Hash)) (now : Z).
Context (cn_slow_hash_v0 cn_lite_slow_hash_v1 cn_turtle_lite_slow_hash_v2 : list Z -> Hash) (genesisBlockHash : Hash).
Context (d : UpgradeManager.detectors) (b0 : BlockTemplate).

Abbreviation checks := (addBlock_checks ndebug currency checkpoints now cn_slow_hash_v0 cn_lite_slow_hash_v1
  cn_turtle_lite_slow_hash_v2 genesisBlockHash d).
Abbreviation grown := (grown ndebug currency).
Abbreviation adds := (adds ndebug currency).

(** ** A checked block fits *)

(** The sizes and counters that do not overflow when the block is added after block [i] of the
    chain, and the trust in a block below the last checkpoint. *)
Record fits (cb : CachedBlock) (base : CachedTransaction) (vb : ValidatedBlock) (i : Z) (c : cache) : Prop := {
  fits_height : height c + 1 < 2 ^ 32;
  fits_base : cached_of_Transaction (bt_baseTransaction (cb_block cb)) = Ok base;
  fits_sizes : 0 < vb_cumulativeBlockSize vb < 2 ^ 32 /\ 0 < vb_currentDifficulty vb;
  fits_count : Z.of_nat (length (vb_transactions vb)) <= 2 ^ 16 - 1;
  fits_out_count :
    Forall (fun c => Z.of_nat (length (tx_outputs (ct_transaction c))) <= 2 ^ 16 - 1) (base :: vb_transactions vb);
  fits_tx_hashes : NoDup (map getTransactionHash (base :: vb_transactions vb)) /\
    forall h, h ∈ map getTransactionHash (base :: vb_transactions vb) -> h ∉ map ti_transactionHash (chain_transactions c);
  fits_outputs : forall a, Z.of_nat (length (outputs a c)) +
    Z.of_nat (length (block_outputs a (i + 1) 0 (base :: vb_transactions vb))) < 2 ^ 32;
  fits_zone : in_zone checkpoints i = true -> forall x, x ∈ all_images (vb_transactions vb) -> spent c !! x = None;
  fits_work : in_u 64 (work (take (Z.to_nat (i + 1)) (infos c)) + vb_currentDifficulty vb) }.

Section Block.
Context (cb : CachedBlock) (raw : RawBlock) (vb : ValidatedBlock) (base : CachedTransaction) (i : Z)
  (s : segment) (parent : cache) (l : ledger).
Hypothesis R : represents (s :: parent) l.
Hypothesis HC : checks cb raw s parent = Ok (Ok vb).
Hypothesis HB : readable_block cb raw.
Hypothesis Ei : BlockchainCache.getBlockIndex (bh_previousBlockHash (cb_block cb)) s = Ok i.
Hypothesis HF : fits cb base vb i (s :: parent).

Lemma previous_range : in_segment s i /\ 0 <= i < height (s :: parent).
Proof.
  pose proof (rep_wf _ _ R) as (Ws & _); destruct (getBlockIndex_range _ _ _ _ Ws Ei) as [Hi _].
  split; [done|]; rewrite (height_cons _ _ Ws); pose proof (seg_start _ _ Ws); unfold in_segment, height in *; lia.
Qed.

Lemma block_adds t tp : represents (t :: tp) (take (Z.to_nat (i + 1)) l) ->
  infos (t :: tp) = take (Z.to_nat (i + 1)) (infos (s :: parent)) ->
  cb_hash cb ∉ map bi_blockHash (blockInfos t) ->
  (forall x, x ∈ map ti_transactionHash (transactions t) -> x ∈ map ti_transactionHash (chain_transactions (s :: parent))) ->
  (forall a, (length (outputs a (t :: tp)) <= length (outputs a (s :: parent)))%nat) ->
  (forall x, spent (s :: parent) !! x = None -> spent (t :: tp) !! x = None) ->
  exists t' info, adds cb vb raw t tp t' info.
Proof.
  intros RT Et Hh Htx Hout Hsp; destruct HF as [F1 F2 F3 F4 F5 [F6 F6'] F7 F8 F9]; destruct previous_range as [_ Hi].
  assert (Eht : height (t :: tp) = i + 1).
  { unfold height; rewrite Et, length_take; unfold height in Hi; lia. }
  assert (RM : room checkpoints cb base vb i t tp).
  { split; try done.
    - rewrite Eht; lia.
    - apply NoDup_app; split_and!; [done| |apply (seg_tx_hashes _ _ (proj1 (rep_wf _ _ RT)))].
      intros x Hx Hx'; by apply (F6' x Hx), Htx.
    - intros a; rewrite Eht; pose proof (F7 a); pose proof (Hout a); lia.
    - intros Hz x Hx; by apply Hsp, F8. }
  destruct (block_extends _ _ _ _ _ _ _ _ _ _ _ _ _ _ _ _ _ _ _ R HC HB Ei RT RM) as (t' & E & R' & EI & ER).
  eexists t', _; split; [exact E|by eexists| |exact ER| | |].
  - cbn [infos] in EI; rewrite <- app_assoc in EI; by apply app_inv_head in EI.
  - unfold new_info; by destruct (totals (t :: tp)) as [[? ?] ?].
  - destruct (addBlock_checks_accepted _ _ _ _ _ _ _ _ _ _ _ _ _ _ HC) as (i' & reward & fee & A).
    pose proof (acc_previous _ _ _ _ _ _ _ _ _ _ _ _ _ _ _ _ _ A) as Ei'; rewrite Ei in Ei'; injection Ei' as <-.
    destruct (acc_difficulty _ _ _ _ _ _ _ _ _ _ _ _ _ _ _ _ _ A) as [Ed _].
    rewrite getDifficultyForNextBlock_chain in Ed by (apply R || done); rewrite Et; split; [exact Ed|apply F3].
  - unfold new_info, totals, work in *; rewrite Et; destruct (last _) as [x|]; cbn [bi_cumulativeDifficulty]; by apply wrap_small.
Qed.

(** On top of its chain. *)
Lemma leaf_adds : i + 1 = height (s :: parent) -> cb_hash cb ∉ map bi_blockHash (blockInfos s) ->
  exists t' info, adds cb vb raw s parent t' info.
Proof.
  intros Hi Hh; apply block_adds; try done.
  - rewrite take_ge; [done|]; pose proof (represents_height _ _ R); lia.
  - rewrite take_ge; [done|]; unfold height in Hi; lia.
  - intros x Hx; cbn [chain_transactions]; rewrite map_app, elem_of_app; by right.
Qed.

(** In a new segment on top of [c], which has the blocks up to [i]. *)
Lemma fork_adds t tp : represents (t :: tp) (take (Z.to_nat (i + 1)) l) -> blockInfos t <> [] ->
  infos (t :: tp) = take (Z.to_nat (i + 1)) (infos (s :: parent)) ->
  (forall a, (length (outputs a (t :: tp)) <= length (outputs a (s :: parent)))%nat) ->
  (forall x, spent (s :: parent) !! x = None -> spent (t :: tp) !! x = None) ->
  exists t' info, adds cb vb raw (new_segment (u32 (i + 1))) (t :: tp) t' info.
Proof.
  intros RT Hne Et Hout Hsp; destruct previous_range as [_ Hi]; pose proof (fits_height _ _ _ _ _ HF) as Hb.
  assert (Eht : height (t :: tp) = i + 1) by (unfold height; rewrite Et, length_take; unfold height in Hi; lia).
  rewrite wrap_small by (unfold in_u; lia); rewrite <- Eht; apply block_adds.
  - by apply represents_fork.
  - cbn [infos new_segment blockInfos] in Et |- *; by rewrite app_nil_r.
  - apply not_elem_of_nil.
  - intros x Hx; by apply not_elem_of_nil in Hx.
  - intros a; cbn [outputs]; unfold own_outputs; cbn [new_segment keyOutputsGlobalIndexes]; rewrite lookup_empty, app_nil_r; apply Hout.
  - intros x Hx; cbn [spent new_segment spentKeyImages]; rewrite map_empty_union; by apply Hsp.
Qed.
End Block.

(** ** What does not touch the tree *)

Definition same_tree (st st' : Core) : Prop :=
  heap st' = heap st /\ chainsStorage st' = chainsStorage st /\ chainsLeaves st' = chainsLeaves st /\
  mainChainSet st' = mainChainSet st /\ mainChainStorage st' = mainChainStorage st /\ initialized st' = initialized st.

Lemma same_tree_refl st : same_tree st st.
Proof. done. Qed.

Lemma same_tree_trans st1 st2 st3 : same_tree st1 st2 -> same_tree st2 st3 -> same_tree st1 st3.
Proof. intros (H1 & H2 & H3 & H4 & H5 & H6) (K1 & K2 & K3 & K4 & K5 & K6); unfold same_tree; rewrite K1, K2, K3, K4, K5, K6; done. Qed.

Lemma updateBlockMedianSize_same st st' : updateBlockMedianSize ndebug currency d st = Ok st' -> same_tree st st'.
Proof.
  unfold updateBlockMedianSize; destruct (main_cache st) as [c|]; cbn [rbind]; [|done].
  destruct (Validation.updateBlockMedianSize _ _ _ _ _); cbn [rbind]; [|done]; by intros [= <-].
Qed.

Lemma actualizePoolTransactions_same st st' : actualizePoolTransactions ndebug currency checkpoints now st = Ok st' -> same_tree st st'.
Proof.
  unfold actualizePoolTransactions; destruct (main_cache st) as [c|]; cbn [rbind]; [|done].
  destruct (Validation.actualizePoolTransactions _ _ _ _ _ _ _ _); cbn [rbind]; [|done]; by intros [= <-].
Qed.

Lemma actualizePoolTransactionsLite_same v st st' : actualizePoolTransactionsLite ndebug currency v st = Ok st' -> same_tree st st'.
Proof.
  unfold actualizePoolTransactionsLite; destruct (Validation.actualizePoolTransactionsLite _ _ _ _ _); cbn [rbind]; [|done]; by intros [= <-].
Qed.

Lemma add_transactions_same bas : forall st st', add_transactions ndebug currency checkpoints now bas st = Ok st' -> same_tree st st'.
Proof.
  induction bas as [|ba bas IH]; intros st st' E; cbn [add_transactions] in E; [by injection E as <-|].
  unfold addTransactionToPool in E; destruct (throwIfNotInitialized st); cbn [rbind] in E; [|done].
  destruct (main_cache st) as [c|]; cbn [rbind] in E; [|done].
  destruct (addTransactionToPool_bytes _ _ _ _ _ _ _ _ _) as [[r w]|]; cbn [rbind snd] in E; [|done].
  apply IH in E; eapply same_tree_trans; [|exact E]; done.
Qed.

Lemma copy_loop_same ps : forall st st', copy_loop ndebug currency checkpoints now b0 ps st = Ok st' -> same_tree st st'.
Proof.
  induction ps as [|alt ps IH]; intros st st' E; cbn [copy_loop] in E; [by injection E as <-|].
  case_bool_decide; [by injection E as <-|]; destruct (get_node alt st) as [n|]; cbn [rbind] in E; [|done].
  destruct (cache_of (heap st) alt); cbn [rbind] in E; [|done]; destruct (getRawTransactions _ _ _) as [tx|]; cbn [rbind] in E; [|done].
  destruct (add_transactions _ _ _ _ _ _) as [st1|] eqn:E1; cbn [rbind] in E; [|done].
  eapply same_tree_trans; [by eapply add_transactions_same|by apply IH].
Qed.

Lemma copyTransactionsToPool_same alt st st' :
  copyTransactionsToPool ndebug currency checkpoints now b0 alt st = Ok st' -> same_tree st st'.
Proof. unfold copyTransactionsToPool; destruct (parents _ _); cbn [rbind]; [|done]; apply copy_loop_same. Qed.

(** The main chain has its blocks in the storage. *)
Definition stored (st : Core) : Prop := exists leaf c, head (chainsLeaves st) = Some leaf /\ chain_of st leaf c /\
  mainChainStorage st = raw_blocks c.

Lemma chain_of_heap st st' p c : heap st' = heap st -> chain_of st' p c <-> chain_of st p c.
Proof. intros E; unfold chain_of; by rewrite E. Qed.

Lemma grown_heap st st' : heap st' = heap st -> chainsStorage st' = chainsStorage st -> chainsLeaves st' ≡ₚ chainsLeaves st ->
  grown st -> grown st'.
Proof.
  intros Eh Es El [G1 G2 G3 G4 G5]; split; rewrite ?Eh; try done.
  - eapply shape_links; [exact G1|by rewrite Eh|done|done].
  - intros p c H%(chain_of_heap st); [|done]; by eapply G2.
  - intros p c H%(chain_of_heap st); [|done]; by eapply G4.
Qed.

Lemma known_heap st st' x : heap st' = heap st -> known st' x <-> known st x.
Proof. intros E; unfold known; by rewrite E. Qed.

Lemma marked_heap st st' : heap st' = heap st -> chainsLeaves st' = chainsLeaves st -> mainChainSet st' = mainChainSet st ->
  marked st -> marked st'.
Proof. intros E1 E3 E4 (leaf & ps & H); exists leaf, ps; by rewrite E1, E3, E4. Qed.

Lemma heaviest_heap st st' : heap st' = heap st -> head (chainsLeaves st') = head (chainsLeaves st) -> heaviest st -> heaviest st'.
Proof.
  intros Eh El (leaf & c & E & Hc & Hm); exists leaf, c; rewrite El; split_and!; [done|by apply (chain_of_heap st)|].
  intros q c' H; eapply Hm; by apply (chain_of_heap st) in H.
Qed.

Lemma stored_same st st' : same_tree st st' -> stored st -> stored st'.
Proof.
  intros (E1 & _ & E3 & _ & E5 & _) (leaf & c & E & Hc & Hm); exists leaf, c; rewrite E3, E5; split_and!; [done| |done].
  by apply (chain_of_heap st).
Qed.

Record sound (st : Core) : Prop := {
  sound_grown : grown st;
  sound_marked : marked st;
  sound_heaviest : heaviest st }.

Lemma sound_heap st st' : heap st' = heap st -> chainsStorage st' = chainsStorage st -> chainsLeaves st' = chainsLeaves st ->
  mainChainSet st' = mainChainSet st -> sound st -> sound st'.
Proof.
  intros E1 E2 E3 E4 [S1 S2 S3]; split.
  - eapply grown_heap; [exact E1|exact E2|by rewrite E3|done].
  - by eapply marked_heap.
  - eapply heaviest_heap; [exact E1|by rewrite E3|done].
Qed.

Lemma sound_same st st' : same_tree st st' -> sound st -> sound st'.
Proof. intros (E1 & E2 & E3 & E4 & _); by apply sound_heap. Qed.

(** ** Extensions *)

(** The tree has the new block after the blocks [before], and all it had. *)
Record extended (st st' : Core) (cb : CachedBlock) (before : list CachedBlockInfo) : Prop := {
  ext_known x : known st' x <-> known st x \/ x = cb_hash cb;
  ext_old p c : chain_of st p c -> exists p' c', chain_of st' p' c' /\ infos c `prefix_of` infos c';
  ext_new : exists p c info, chain_of st' p c /\ infos c = before ++ [info] /\ bi_blockHash info = cb_hash cb }.

Lemma extended_heap st st1 st2 cb before : heap st2 = heap st1 -> extended st st1 cb before -> extended st st2 cb before.
Proof.
  intros E [H1 H2 H3]; split.
  - intros x; by rewrite (known_heap st1 st2 x E).
  - intros p c H; destruct (H2 p c H) as (p' & c' & H' & Hp); exists p', c'; split; [|done]; by apply (chain_of_heap st1).
  - destruct H3 as (p & c & info & H & Hi); exists p, c, info; split; [|done]; by apply (chain_of_heap st1).
Qed.

(** ** The storage of the main chain *)

Lemma blocks_from_spec c k : forall j, wf_cache c -> c <> [] -> 0 <= j -> j + Z.of_nat k <= height c ->
  blocks_from j k c = Ok (take k (drop (Z.to_nat j) (raw_blocks c))).
Proof.
  induction k as [|k IH]; intros j W Hc Hj Hk; [done|]; cbn [blocks_from].
  rewrite getBlockByIndex_chain by done; unfold at_index; rewrite (proj2 (Z.ltb_ge _ _)) by lia.
  assert (Hl : (Z.to_nat j < length (raw_blocks c))%nat) by (rewrite raw_blocks_length by done; unfold height in Hk; lia).
  destruct (lookup_lt_is_Some_2 _ _ Hl) as [b Eb]; rewrite Eb; cbn [of_option rbind]; rewrite IH by (done || lia); cbn [rbind].
  rewrite (drop_S _ _ _ Eb); replace (Z.to_nat (j + 1)) with (S (Z.to_nat j)) by lia; done.
Qed.

Lemma raw_blocks_below a b : exists k, raw_blocks (a ++ b) = raw_blocks b ++ k.
Proof.
  induction a as [|s a [k IH]]; [exists []; by rewrite app_nil_r|]; cbn [app raw_blocks]; rewrite IH, <- app_assoc; by eexists.
Qed.

(** A chain whose parents are on the old main chain replaces what is above them. *)
Lemma switchMainChainStorage_spec st1 q t tp c : chain_of st1 q (t :: tp) -> wf_cache (t :: tp) -> blockInfos t <> [] ->
  (exists a, c = a ++ tp) -> (length (raw_blocks tp) < length (raw_blocks c))%nat -> mainChainStorage st1 = raw_blocks c ->
  switchMainChainStorage ndebug (startIndex t) q st1 = Ok (with_mainChainStorage (raw_blocks (t :: tp)) st1).
Proof.
  intros Hc W Ht [a ->] Hlt Es; unfold switchMainChainStorage; rewrite Es.
  destruct (raw_blocks_below a tp) as [k Ek]; pose proof (proj1 W) as Wt; pose proof (raw_blocks_length _ (proj2 (proj2 W))) as Lp.
  assert (E0 : startIndex t = Z.of_nat (length (raw_blocks tp))) by (rewrite Lp; exact (seg_start _ _ Wt)).
  unfold assert_res; rewrite (proj2 (Z.gtb_lt _ _)), orb_true_r by lia; cbn [rbind]; rewrite (proj2 (Z.ltb_ge _ _)) by lia.
  pose proof Hc as (ps & Hps & Ecs); destruct (path_head _ _ _ Hps) as (m & r & -> & Em).
  rewrite (segs_cons _ _ _ _ Em) in Ecs; injection Ecs as Ecs _.
  unfold get_node; rewrite Em; cbn [of_option rbind]; rewrite (chain_of_cache _ _ _ Hc); cbn [rbind]; rewrite Ecs.
  unfold getTopBlockIndex, assert_res; rewrite bool_decide_eq_true_2, orb_true_r by done; cbn [rbind].
  destruct (wf_parent_top _ _ W Ht) as [-> Hh].
  assert (HH : height (t :: tp) = Z.of_nat (length (raw_blocks (t :: tp)))) by (rewrite raw_blocks_length by done; done).
  assert (HL : (length (raw_blocks tp) <= length (raw_blocks (t :: tp)))%nat) by (cbn [raw_blocks]; rewrite length_app; lia).
  rewrite blocks_from_spec by (done || lia); cbn [rbind]; do 2 f_equal; rewrite Ek, E0, Nat2Z.id, take_app_le, take_ge by lia.
  rewrite (take_ge (drop _ _)) by (rewrite length_drop; lia); cbn [raw_blocks]; by rewrite drop_app_length.
Qed.

Lemma swap_leaves (leaves : list ptr) k a b : leaves !! O = Some a -> leaves !! k = Some b ->
  <[O := b]> (<[k := a]> leaves) ≡ₚ leaves /\ head (<[O := b]> (<[k := a]> leaves)) = Some b.
Proof.
  destruct leaves as [|x l]; [done|]; intros [= ->] Ek; destruct k as [|j]; simpl in Ek |- *; [by injection Ek as ->|].
  split; [|done]; pose proof (lookup_lt_Some _ _ _ Ek); rewrite insert_take_drop by done.
  rewrite <- (take_drop_middle _ _ _ Ek) at 3; solve_Permutation.
Qed.

(** switchChain, from a state where the leaf at [p] is not the main one. *)
Lemma switchChain_spec st1 st2 q m leaf : grown st1 -> head (chainsLeaves st1) = Some leaf -> heap st1 !! q = Some m -> n_children m = [] ->
  q <> leaf -> switchChain ndebug currency checkpoints now d b0 q st1 = Ok st2 ->
  heap st2 = heap st1 /\ chainsStorage st2 = chainsStorage st1 /\ chainsLeaves st2 ≡ₚ chainsLeaves st1 /\
  head (chainsLeaves st2) = Some q /\ marked st2 /\
  exists st3, heap st3 = heap st1 /\ mainChainStorage st3 = mainChainStorage st1 /\ chainsLeaves st3 = chainsLeaves st2 /\
    switchMainChainStorage ndebug (startIndex (n_segment m)) q st3 = Ok st2.
Proof.
  intros G1 El Eq Hm Hq E; pose proof (grown_shape _ _ _ G1) as S1; unfold switchChain, main_leaf in E; rewrite El in E; cbn [of_option rbind] in E.
  destruct (list_find (fun x => x = q) (chainsLeaves st1)) as [[k x]|] eqn:Ef; [|done].
  apply list_find_Some in Ef as (Ek & -> & _).
  destruct (assert_res ndebug _); cbn [rbind] in E; [|done]; destruct (assert_res ndebug _); cbn [rbind] in E; [|done].
  destruct (swap_leaves (chainsLeaves st1) k leaf q) as [HP1 HH]; [by destruct (chainsLeaves st1)|done|].
  set (st4 := with_chains (chainsStorage st1) (<[O := q]> (<[k := leaf]> (chainsLeaves st1))) st1) in *.
  assert (G4 : grown st4) by (eapply grown_heap; [| | |exact G1]; done).
  destruct (updateMainChainSet_ok st4 (grown_shape _ _ _ G4)) as (ps & EM & MM); rewrite EM in E; cbn [rbind] in E.
  set (st5 := with_mainChainSet (list_to_set ps) st4) in *.
  destruct (updateBlockMedianSize _ _ _ st5) as [st6|] eqn:E6; cbn [rbind] in E; [|done].
  destruct (actualizePoolTransactions _ _ _ _ st6) as [st7|] eqn:E7; cbn [rbind] in E; [|done].
  destruct (copyTransactionsToPool _ _ _ _ _ _ st7) as [st8|] eqn:E8; cbn [rbind] in E; [|done].
  assert (H8 : same_tree st5 st8).
  { eapply same_tree_trans; [by eapply updateBlockMedianSize_same|].
    eapply same_tree_trans; [by eapply actualizePoolTransactions_same|by eapply copyTransactionsToPool_same]. }
  pose proof H8 as (Q1 & Q2 & Q3 & Q4 & Q5 & _).
  unfold get_node in E; rewrite Q1 in E; change (heap st5) with (heap st1) in E; rewrite Eq in E; cbn [of_option rbind] in E.
  pose proof E as E'; unfold switchMainChainStorage in E'; destruct (assert_res ndebug _); cbn [rbind] in E'; [|done].
  destruct (_ <? _); [done|]; destruct (get_node q st8); cbn [rbind] in E'; [|done].
  destruct (cache_of _ _); cbn [rbind] in E'; [|done]; destruct (getTopBlockIndex _ _); cbn [rbind] in E'; [|done].
  destruct (blocks_from _ _ _); cbn [rbind] in E'; [|done]; injection E' as E'.
  assert (H2 : heap st2 = heap st8 /\ chainsStorage st2 = chainsStorage st8 /\ chainsLeaves st2 = chainsLeaves st8 /\ mainChainSet st2 = mainChainSet st8).
  { by rewrite <- E'. }
  destruct H2 as (F1 & F2 & F3 & F4).
  split_and!; [by rewrite F1, Q1|by rewrite F2, Q2|by rewrite F3, Q3|by rewrite F3, Q3| |].
  - destruct MM as (lf & qs & M1 & M2 & M3); exists lf, qs; rewrite F1, F3, F4, Q1, Q3, Q4; done.
  - exists st8; split_and!; [done|by rewrite Q5|done|done].
Qed.

Section Attach.
Context (st : Core) (p : ptr) (n : node) (parent : cache) (l : ledger) (i : Z).
Context (cb : CachedBlock) (raw : RawBlock) (vb : ValidatedBlock) (base : CachedTransaction).
Hypothesis G : grown st.
Hypothesis Ep : heap st !! p = Some n.
Hypothesis HP : chain_of st p (n_segment n :: parent).
Hypothesis R : represents (n_segment n :: parent) l.
Hypothesis HC : checks cb raw (n_segment n) parent = Ok (Ok vb).
Hypothesis HB : readable_block cb raw.
Hypothesis Ei : BlockchainCache.getBlockIndex (bh_previousBlockHash (cb_block cb)) (n_segment n) = Ok i.
Hypothesis HF : fits cb base vb i (n_segment n :: parent).
Hypothesis Hx : ~ known st (cb_hash cb).

Abbreviation before := (take (Z.to_nat (i + 1)) (infos (n_segment n :: parent))).

Lemma segment_top : getTopBlockIndex ndebug (n_segment n) = Ok (height (n_segment n :: parent) - 1).
Proof.
  pose proof (grown_some _ _ _ G _ _ Ep) as Hn; unfold getTopBlockIndex, assert_res; rewrite bool_decide_eq_true_2 by done.
  rewrite orb_true_r; cbn [rbind]; by rewrite (proj1 (wf_parent_top _ _ (rep_wf _ _ R) Hn)).
Qed.

(** *** On top of a leaf *)

Section OnLeaf.
Context (t' : segment) (info : CachedBlockInfo).
Hypothesis Hn : n_children n = [].
Hypothesis A : adds cb vb raw (n_segment n) parent t' info.

Let st' : Core := with_heap (<[p := with_segment t' n]> (heap st)) st.

Let HN : chain_of st' p (t' :: parent).
Proof. by eapply leaf_chain_p. Qed.

Let HO q c : q <> p -> chain_of st' q c <-> chain_of st q c.
Proof. by eapply leaf_chain_other. Qed.

Lemma onleaf_extended : i + 1 = height (n_segment n :: parent) -> extended st st' cb before.
Proof.
  intros Hi; split.
  - by eapply leaf_known.
  - intros q c Hq; destruct (decide (q = p)) as [->|Hqp].
    + exists p, (t' :: parent); split; [done|]; rewrite (chain_of_det _ _ _ _ Hq HP), (adds_chain _ _ _ _ _ _ _ _ _ A); by eexists.
    + exists q, c; split; [|done]; by apply HO.
  - exists p, (t' :: parent), info; split_and!; [done| |apply A]; rewrite (adds_chain _ _ _ _ _ _ _ _ _ A), take_ge; [done|].
    unfold height in Hi; lia.
Qed.

Lemma onleaf_work : work (infos (t' :: parent)) = work (infos (n_segment n :: parent)) + vb_currentDifficulty vb /\ 0 < vb_currentDifficulty vb.
Proof.
  split; [|apply (fits_sizes _ _ _ _ _ HF)]; eapply adds_worked; [exact A|]; by eapply (grown_work _ _ _ G).
Qed.

Lemma onleaf_marked : marked st -> marked st'.
Proof.
  intros (leaf & ps & H1 & H2 & H3); exists leaf, ps; split_and!; [done| |done].
  by eapply leaf_path.
Qed.

Lemma onleaf_heaviest leaf : head (chainsLeaves st) = Some leaf -> heaviest st ->
  (leaf = p \/ exists c, chain_of st leaf c /\ work (infos (t' :: parent)) <= work (infos c)) -> heaviest st'.
Proof.
  intros El (leaf' & c & El' & Hc & Hm) Hl; rewrite El in El'; injection El' as <-; destruct onleaf_work as [Ew Hw].
  assert (HM : forall q c', q <> p -> chain_of st' q c' -> work (infos c') <= work (infos c)).
  { intros q c' Hq H; eapply Hm; by apply HO in H. }
  destruct (decide (leaf = p)) as [->|Hlp].
  - exists p, (t' :: parent); split_and!; [done..|]; intros q c' H; destruct (decide (q = p)) as [->|Hq].
    + by rewrite (chain_of_det _ _ _ _ H HN).
    + specialize (HM q c' Hq H); rewrite (chain_of_det _ _ _ _ Hc HP) in HM; lia.
  - destruct Hl as [->|(c2 & Hc2 & Hle)]; [done|]; rewrite (chain_of_det _ _ _ _ Hc2 Hc) in Hle.
    exists leaf, c; split_and!; [done|by apply HO|].
    intros q c' H; destruct (decide (q = p)) as [->|Hq]; [|by eapply HM]; by rewrite (chain_of_det _ _ _ _ H HN).
Qed.

(** The leaf becomes the main one. *)
Lemma switched_heaviest st2 : heap st2 = heap st' -> head (chainsLeaves st2) = Some p -> heaviest st ->
  (forall leaf c, head (chainsLeaves st) = Some leaf -> chain_of st leaf c -> work (infos c) < work (infos (t' :: parent))) -> heaviest st2.
Proof.
  intros Eh El (leaf & c & El' & Hc & Hm) Hlt; specialize (Hlt _ _ El' Hc).
  exists p, (t' :: parent); split_and!; [done|by apply (chain_of_heap st')|].
  intros q c' H%(chain_of_heap st'); [|done]; destruct (decide (q = p)) as [->|Hq].
  - by rewrite (chain_of_det _ _ _ _ H HN).
  - apply HO in H; [|done]; pose proof (Hm _ _ H); lia.
Qed.
End OnLeaf.

(** *** In a new segment *)

(** A new segment does not have more work than the main chain: what it competes with starts
    with a block of the same difficulty. *)
Lemma fork_heaviest st0 q m tp t' info : grown st0 -> heap st0 !! q = Some m -> n_children m <> [] ->
  chain_of st0 q (n_segment m :: tp) -> ~ known st0 (cb_hash cb) ->
  adds cb vb raw (new_segment (u32 (i + 1))) (n_segment m :: tp) t' info -> heaviest st0 ->
  exists st1, forkSegment ndebug q i cb vb raw st0 = Ok st1 /\ grown st1 /\ heaviest st1 /\
    (forall x, known st1 x <-> known st0 x \/ x = cb_hash cb) /\
    (forall r c, chain_of st0 r c -> chain_of st1 r c) /\
    (exists c, chain_of st1 c (t' :: n_segment m :: tp)) /\
    mainChainStorage st1 = mainChainStorage st0 /\ head (chainsLeaves st1) = head (chainsLeaves st0).
Proof.
  intros G0 Eq Hch HQ Hk A (leaf & c & El & Hc & Hm).
  pose proof (fork_result ndebug currency st0 q m tp i cb vb raw t' info G0 Eq HQ A) as EF.
  pose proof (fork_grown ndebug currency st0 q m tp i cb vb raw t' info G0 Eq Hch HQ A Hk) as GF.
  pose proof (fork_known ndebug currency st0 q m tp i cb vb raw t' info Eq A) as KF.
  pose proof (fork_chain_old ndebug currency st0 q m t' G0 Eq) as CO.
  pose proof (fork_chain_new st0 q m tp t' Eq HQ) as CN.
  pose proof (fork_fresh st0) as FR.
  set (new := fresh (dom (heap st0))) in *.
  set (st1 := with_chains _ _ _) in *.
  assert (Hne : forall r c', chain_of st0 r c' -> r <> new).
  { intros r c' (ps & Hps & _) ->; destruct (path_head _ _ _ Hps) as (? & ? & _ & E); congruence. }
  assert (Eh : head (chainsLeaves st1) = head (chainsLeaves st0)).
  { unfold st1; cbn [chainsLeaves with_chains]; by destruct (chainsLeaves st0). }
  exists st1; split_and!; [done|done| |done| |by eexists|done|done].
  - exists leaf, c; rewrite Eh; split_and!; [done|apply CO; [by eapply Hne|done]|].
    intros r c' H; destruct (decide (r = new)) as [->|Hr]; [|eapply Hm; by apply CO in H].
    rewrite (chain_of_det _ _ _ _ H CN).
    destruct (adds_worked _ _ _ _ _ _ _ _ _ A) as [_ ->].
    { cbn [infos new_segment blockInfos]; rewrite app_nil_r; exact (grown_work _ _ _ G0 _ _ HQ). }
    destruct (n_children m) as [|k ks] eqn:Ek; [done|].
    destruct (proj1 (shape_children _ (grown_shape _ _ _ G0) q m k Eq)) as (mk & Emk & Pk); [rewrite Ek; apply list_elem_of_here|].
    destruct HQ as (qs & Hqs & Eqs).
    assert (HK : chain_of st0 k (n_segment mk :: n_segment m :: tp)).
    { exists (k :: qs); split; [by eapply path_up|]; by rewrite (segs_cons _ _ _ _ Emk), Eqs. }
    etrans; [|exact (Hm _ _ HK)]; pose proof (grown_work _ _ _ G0 _ _ HK) as WK; cbn [infos new_segment blockInfos] in WK |- *.
    rewrite app_nil_r; pose proof (grown_some _ _ _ G0 _ _ Emk) as Hmk; destruct (blockInfos (n_segment mk)) as [|b bs] eqn:Eb; [done|].
    eapply worked_next; [exact WK| |].
    + pose proof (grown_some _ _ _ G0 _ _ Eq) as Hm0; destruct (infos tp); [|done]; by destruct (blockInfos (n_segment m)).
    + destruct (adds_difficulty _ _ _ _ _ _ _ _ _ A) as [Ed _]; cbn [infos new_segment blockInfos] in Ed; by rewrite app_nil_r in Ed.
  - intros r c' H; apply CO; [by eapply Hne|done].
Qed.

(** *** Inside a segment *)

Section Inside.
Hypothesis Hi : i + 1 < height (n_segment n :: parent).
(** A segment of the database class must not have children. *)
Hypothesis Hdb : n_database n = true -> n_children n = [].

Let u : ptr := fresh (dom (heap st)).

Lemma inside_range : startIndex (n_segment n) < i + 1 < end_index (n_segment n) /\ u32 (i + 1) = i + 1.
Proof.
  destruct (previous_range _ _ _ _ _ R Ei) as [[H1 H2] H3]; pose proof (rep_wf _ _ R) as (Ws & _).
  rewrite (height_cons _ _ Ws) in Hi; pose proof (seg_bound _ _ Ws); split; [lia|]; apply wrap_small; unfold in_u; lia.
Qed.

Lemma split_result : exists low up h1,
  splitSegment ndebug p (u32 (i + 1)) st = Ok (u, with_heap (split_heap st p n low up h1) st) /\
  wf_cache (up :: low :: parent) /\ blockInfos low <> [] /\ blockInfos up <> [] /\
  same_chain (n_segment n :: parent) (up :: low :: parent) /\
  infos (low :: parent) = before /\
  (forall q, h1 !! q = if decide (q ∈ n_children n) then with_parent u <$> heap st !! q else heap st !! q).
Proof.
  destruct inside_range as [Hr Eu].
  destruct (split_spec ndebug (i + 1) (n_segment n) parent (rep_wf _ _ R) Hr)
    as (low & up & E & W & _ & Eup & Hl & Hu & EI & ER & ES & EO & ET & _).
  pose proof (grown_shape _ _ _ G) as S.
  destruct (fixChildrenParent_spec ndebug u (n_children n) (heap st) (shape_children_once _ S _ _ Ep)) as (h1 & E1 & H1).
  { apply Forall_forall; intros c Hc; apply (shape_children _ S _ _ c Ep) in Hc as (m & Em & Pm); exists m; split; [done|].
    destruct (n_database m) eqn:Dm; [|done]; by rewrite (shape_memory _ S _ _ Em Dm) in Pm. }
  exists low, up, h1; split_and!; try done.
  - unfold splitSegment, get_node; rewrite Ep, Eu; cbn [of_option rbind]; rewrite E; cbn [rbind].
    fold u; unfold split_heap; fold u; destruct (n_database n); [|by rewrite E1].
    rewrite Hdb in * by done; cbn [fixChildrenParent] in E1; injection E1 as <-; done.
  - rewrite <- EI; cbn [infos]; rewrite take_app_le, take_ge; [done| |]; cbn [infos] in *;
      pose proof (seg_start _ _ (proj1 W)) as Es; rewrite Eup in Es; unfold height in Es; cbn [infos] in Es; lia.
Qed.

(** The state between the split and the fork. *)
Section Between.
Context (low up : segment) (h1 : gmap ptr node).
Hypothesis W : wf_cache (up :: low :: parent).
Hypothesis Hlow : blockInfos low <> [].
Hypothesis Hup : blockInfos up <> [].
Hypothesis HS : same_chain (n_segment n :: parent) (up :: low :: parent).
Hypothesis EB : infos (low :: parent) = before.
Hypothesis H1 : forall q, h1 !! q = if decide (q ∈ n_children n) then with_parent u <$> heap st !! q else heap st !! q.

Let st0 : Core := with_chains (chainsStorage st ++ [u]) (split_leaves st p n) (with_heap (split_heap st p n low up h1) st).

Lemma between_low : heap st0 !! p = Some (mkNode low (n_parent n) [u] (n_database n)).
Proof. apply (split_lookup_p st p u n low up h1 Ep (split_fresh st)). Qed.

Lemma between_up : heap st0 !! u = Some (mkNode up (Some p) (n_children n) false).
Proof. apply (split_lookup_u p u n low up h1). Qed.

(** The main chain has the same blocks. *)
Lemma between_main leaf c : head (chainsLeaves st) = Some leaf -> chain_of st leaf c ->
  exists leaf' c', head (chainsLeaves st0) = Some leaf' /\ chain_of st0 leaf' c' /\ same_chain c c'.
Proof.
  intros El Hc; destruct (split_leaves_spec ndebug currency st p n G Ep) as (_ & _ & L3 & _).
  change (chainsLeaves st0) with (split_leaves st p n); rewrite L3, El; destruct (decide (leaf = p)) as [->|Hlp].
  - rewrite decide_True by done; exists u, (up :: low :: parent); split_and!; [done| |by rewrite (chain_of_det _ _ _ _ Hc HP)].
    exact (split_chain_up ndebug currency st p n parent l G Ep HP R low up h1 W HS H1).
  - rewrite decide_False by congruence.
    destruct (split_chain_other ndebug currency st p n parent l G Ep HP R low up h1 W Hlow Hup HS H1 leaf c Hlp Hc) as (c' & H & Hs & _).
    by exists leaf, c'.
Qed.

Lemma between_heaviest : heaviest st -> heaviest st0.
Proof.
  intros (leaf & c & El & Hc & Hm); destruct (between_main leaf c El Hc) as (leaf' & c' & El' & Hc' & Hs').
  exists leaf', c'; split_and!; [done..|]; rewrite (same_infos _ _ Hs'); intros q e H.
  destruct (split_chains ndebug currency st p n parent l G Ep HP R low up h1 W Hlow Hup HS H1 q e H)
    as [[-> ->]|[[-> ->]|(_ & _ & e0 & H0 & Hs & _)]].
  - etrans; [|exact (Hm _ _ HP)]; rewrite <- (same_infos _ _ HS); cbn [infos].
    pose proof (split_grown ndebug currency st p n parent l G Ep HP R low up h1 W Hlow Hup HS H1) as GS.
    apply (work_prefix ndebug currency); [|by destruct (infos parent), (blockInfos low)].
    exact (grown_work _ _ _ GS _ _ (split_chain_up ndebug currency st p n parent l G Ep HP R low up h1 W HS H1)).
  - rewrite (same_infos _ _ HS); exact (Hm _ _ HP).
  - rewrite (same_infos _ _ Hs); exact (Hm _ _ H0).
Qed.

Lemma between_adds : exists t' info, adds cb vb raw (new_segment (u32 (i + 1))) (low :: parent) t' info.
Proof.
  apply (fork_adds cb raw vb base i (n_segment n) parent l R HC HB Ei HF low parent); [|done..| |].
  - pose proof (represents_same _ _ _ HS W R) as RU; apply represents_parent in RU.
    pose proof (seg_start _ _ (proj1 W)) as Es; rewrite Es in RU; unfold height in RU; rewrite EB, length_take in RU.
    destruct (previous_range _ _ _ _ _ R Ei) as [_ Hr].
    rewrite Nat.min_l in RU by (unfold height in Hi; lia); by rewrite Nat2Z.id in RU.
  - intros a; rewrite <- (same_outputs _ _ HS a); cbn [outputs]; rewrite (length_app (_ ++ _)); lia.
  - intros x Hx'; rewrite <- (same_spent _ _ HS) in Hx'; cbn [spent] in Hx'; by apply lookup_union_None in Hx' as [_ ?].
Qed.

Lemma between_steps st1 : splitSegment ndebug p (u32 (i + 1)) st = Ok (u, with_heap (split_heap st p n low up h1) st) ->
  forkSegment ndebug p i cb vb raw st0 = Ok st1 -> splitAndFork ndebug p i cb vb raw st = updateMainChainSet st1.
Proof.
  intros E EF; destruct (split_leaves_spec ndebug currency st p n G Ep) as (_ & _ & _ & L4).
  unfold splitAndFork; rewrite E; cbn [rbind]; unfold get_node.
  change (heap (with_heap (split_heap st p n low up h1) st)) with (heap st0); rewrite between_up, between_low; cbn [of_option rbind n_segment].
  assert (HZ : forall s, blockInfos s <> [] -> (getBlockCount s >? 0) = true).
  { intros s Hs; apply Z.gtb_lt; unfold getBlockCount; destruct (blockInfos s); [done|simpl; lia]. }
  unfold assert_res; rewrite !HZ, !orb_true_r by done; cbn [rbind].
  change (chainsLeaves (with_heap (split_heap st p n low up h1) st)) with (chainsLeaves st).
  change (chainsStorage (with_heap (split_heap st p n low up h1) st)) with (chainsStorage st).
  assert (EL : (if getChildCount (mkNode up (Some p) (n_children n) false) =? 0 then
      match list_find (fun q => q = p) (chainsLeaves st) with
      | None => Err Undefined | Some (found, _) => Ok (<[found := u]> (chainsLeaves st)) end
    else Ok (chainsLeaves st)) = Ok (split_leaves st p n)).
  { unfold getChildCount; cbn [n_children]; destruct (n_children n) as [|k ks] eqn:Ek.
    - destruct (L4 eq_refl) as (k & x & -> & ->); done.
    - unfold split_leaves; rewrite Ek, decide_False by done; done. }
  rewrite EL; cbn [rbind]; fold st0; rewrite EF; done.
Qed.

Lemma between_extended st1 cn t' info : adds cb vb raw (new_segment (u32 (i + 1))) (low :: parent) t' info ->
  (forall x, known st1 x <-> known st0 x \/ x = cb_hash cb) -> (forall r c, chain_of st0 r c -> chain_of st1 r c) ->
  chain_of st1 cn (t' :: low :: parent) -> extended st st1 cb before.
Proof.
  intros A KF OF NF; split.
  - intros x; rewrite KF; unfold st0, u; by rewrite (split_known ndebug currency st p n parent G Ep low up h1 HS H1).
  - intros q e Hq; destruct (decide (q = p)) as [->|Hqp].
    + exists u, (up :: low :: parent); split; [|by rewrite (chain_of_det _ _ _ _ Hq HP), (same_infos _ _ HS)].
      apply OF; exact (split_chain_up ndebug currency st p n parent l G Ep HP R low up h1 W HS H1).
    + destruct (split_chain_other ndebug currency st p n parent l G Ep HP R low up h1 W Hlow Hup HS H1 q e Hqp Hq) as (e' & H & Hs & _).
      exists q, e'; split; [by apply OF|]; by rewrite (same_infos _ _ Hs).
  - exists cn, (t' :: low :: parent), info; split_and!; [done| |apply A].
    rewrite (adds_chain _ _ _ _ _ _ _ _ _ A); cbn [infos new_segment blockInfos] in EB |- *; by rewrite app_nil_r, EB.
Qed.
End Between.

Lemma inside_attach : heaviest st -> exists st1, splitAndFork ndebug p i cb vb raw st = Ok st1 /\ sound st1 /\
  extended st st1 cb before /\ (stored st -> stored st1).
Proof.
  intros HV; destruct split_result as (low & up & h1 & E & W & Hlow & Hup & HS & EB & H1).
  pose proof (split_grown ndebug currency st p n parent l G Ep HP R low up h1 W Hlow Hup HS H1) as GS.
  destruct (between_adds low up W Hlow HS EB) as (t' & info & A).
  destruct (fork_heaviest _ p _ parent t' info GS (between_low low up h1) ltac:(done)
    (split_chain_low ndebug currency st p n parent l G Ep HP R low up h1 W HS H1)
    ltac:(by rewrite (split_known ndebug currency st p n parent G Ep low up h1 HS H1)) A (between_heaviest low up h1 W Hlow Hup HS H1 HV))
    as (st1 & EF & GF & HVF & KF & OF & [cn NF] & SF & LF).
  destruct (updateMainChainSet_ok st1 (grown_shape _ _ _ GF)) as (ps & EM & MM).
  exists (with_mainChainSet (list_to_set ps) st1); split_and!.
  - by rewrite (between_steps low up h1 Hlow Hup H1 st1 E EF).
  - split; [|done|]; [eapply grown_heap; [| | |exact GF]; done|eapply heaviest_heap; [| |exact HVF]; done].
  - eapply (extended_heap st st1); [done|]; by eapply between_extended.
  - intros (leaf & c & El & Hc & Er); destruct (between_main low up h1 W Hlow Hup HS H1 leaf c El Hc) as (leaf' & c' & El' & Hc' & Hs').
    exists leaf', c'; split_and!; [|by apply OF|].
    + change (head (chainsLeaves st1) = Some leaf'); by rewrite LF.
    + change (mainChainStorage st1 = raw_blocks c'); by rewrite SF, (same_raw _ _ Hs').
Qed.
End Inside.

(** *** All cases *)

(** The parent of the leaf is on the main chain. *)
Definition beside_main : Prop := forall q, n_parent n = Some q -> q ∈ mainChainSet st.

(** Then what is below the leaf is below the main leaf. *)
Lemma beside_main_below leaf c : marked st -> head (chainsLeaves st) = Some leaf -> chain_of st leaf c -> p <> leaf -> n_children n = [] ->
  beside_main -> (exists a, c = a ++ parent) /\ (length (raw_blocks parent) < length (raw_blocks c))%nat.
Proof.
  intros M Eh Hc Hlp Hn Hb; pose proof (grown_shape _ _ _ G) as S; pose proof Hc as (ps0 & Hps0 & Ec0).
  destruct (n_parent n) as [q|] eqn:Eq.
  2: { exfalso; assert (Hroot : path (heap st) p [p]) by (by eapply path_root).
       pose proof (paths_meet _ S _ _ _ _ Hroot Hps0) as Hl; simpl in Hl.
       apply Hlp; symmetry; eapply (leaf_top _ S p leaf); [apply (shape_leaves _ S); by exists n|exact Hps0|].
       eapply last_Some_elem_of; by rewrite <- Hl. }
  destruct M as (leaf3 & ps3 & E3 & Hps3 & Es3); rewrite Eh in E3; injection E3 as <-.
  rewrite (path_det _ _ _ _ Hps3 Hps0) in Es3; pose proof (Hb q Eq) as Hq; rewrite Es3 in Hq; apply elem_of_list_to_set in Hq.
  destruct (path_elem _ _ _ _ Hps0 Hq) as (r & Hr & [l0 El0]).
  assert (Epar : segs (heap st) (q :: r) = parent).
  { destruct (chain_of_inv _ _ _ _ Ep HP) as (rp & Hrp & [= ->]).
    destruct (path_parent st p n q _ Ep Eq Hrp) as (? & qs & _ & Hqs & [= ->]); by rewrite (path_det _ _ _ _ Hr Hqs). }
  rewrite El0, segs_app, Epar in Ec0; split; [by eexists|].
  destruct (path_head _ _ _ Hps0) as (m & r0 & E0 & Em); destruct l0 as [|x l0].
  - exfalso; assert (q = leaf) as -> by (rewrite E0 in El0; by injection El0).
    assert (Hleaf : leaf ∈ chainsLeaves st) by (destruct (chainsLeaves st); [done|]; injection Eh as ->; apply list_elem_of_here).
    apply (shape_leaves _ S) in Hleaf as (m' & Em' & Hch); rewrite Em in Em'; injection Em' as <-.
    apply (not_elem_of_nil p); rewrite <- Hch; apply (shape_children _ S leaf m p Em); by exists n.
  - assert (x = leaf) as -> by (rewrite E0 in El0; by injection El0).
    destruct (grown_chain _ _ _ G _ _ Hc) as [lm Rm]; rewrite (segs_cons _ _ _ _ Em) in Ec0; subst c.
    cbn [app raw_blocks]; destruct (raw_blocks_below (segs (heap st) l0) parent) as [k ->].
    pose proof (seg_storage _ _ (proj1 (rep_wf _ _ Rm))) as Hst; pose proof (grown_some _ _ _ G _ _ Em) as Hm0.
    destruct (blockInfos (n_segment m)); [done|]; rewrite !length_app; simpl in Hst; lia.
Qed.

Lemma current_work st1 q t tp m : chain_of st1 q (t :: tp) -> heap st1 !! q = Some m -> blockInfos t <> [] ->
  getCurrentCumulativeDifficulty (n_segment m) = Ok (work (infos (t :: tp))).
Proof.
  intros Hc Em Ht; destruct (chain_of_inv _ _ _ _ Em Hc) as (r & _ & [= -> _]); unfold getCurrentCumulativeDifficulty, work.
  cbn [infos]; rewrite last_app; destruct (last (blockInfos (n_segment m))) eqn:El; [done|]; by apply last_None in El.
Qed.

Lemma extend_main st' : sound st -> main_leaf st = Ok p -> n_children n = [] -> i + 1 = height (n_segment n :: parent) ->
  extendLeaf ndebug currency checkpoints now d b0 p cb vb raw st = Ok (ADDED_TO_MAIN, st') ->
  sound st' /\ extended st st' cb before /\ (stored st -> stored st').
Proof.
  intros [_ M V] El Hn Hi E.
  assert (Eh : head (chainsLeaves st) = Some p) by (unfold main_leaf in El; destruct (head (chainsLeaves st)); [by injection El as ->|done]).
  destruct (leaf_adds cb raw vb base i (n_segment n) parent l R HC HB Ei HF Hi) as (t' & info & A).
  { intros H; apply Hx; by exists p, n. }
  unfold extendLeaf in E; rewrite El in E; cbn [rbind] in E; rewrite bool_decide_eq_true_2 in E by done.
  set (st1 := with_mainChainStorage _ st) in E.
  rewrite (leaf_push ndebug currency st1 p n parent cb vb raw t' info) in E; [|done| |done].
  2: { by apply (chain_of_heap st). }
  cbn [rbind] in E; set (st2 := with_heap _ st1) in E.
  destruct (updateBlockMedianSize _ _ _ st2) as [st3|] eqn:E3; cbn [rbind] in E; [|done].
  destruct (actualizePoolTransactionsLite _ _ _ st3) as [st4|] eqn:E4; cbn [rbind] in E; [|done]; injection E as <-.
  assert (HT : same_tree st2 st4).
  { eapply same_tree_trans; [by eapply updateBlockMedianSize_same|by eapply actualizePoolTransactionsLite_same]. }
  pose proof (leaf_grown ndebug currency st p n parent cb vb raw t' info G Ep Hn HP A Hx) as GL.
  split_and!.
  - eapply sound_same; [exact HT|]; eapply (sound_heap (with_heap (<[p := with_segment t' n]> (heap st)) st)); [done..|].
    split; [done|by eapply onleaf_marked|]; eapply onleaf_heaviest; eauto.
  - eapply (extended_heap st (with_heap (<[p := with_segment t' n]> (heap st)) st)); [apply HT|]; by eapply onleaf_extended.
  - intros (leaf & c & E0 & Hc & Es); eapply stored_same; [exact HT|]; rewrite Eh in E0; injection E0 as <-.
    exists p, (t' :: parent); split_and!; [done| |].
    + apply (chain_of_heap (with_heap (<[p := with_segment t' n]> (heap st)) st)); [done|]; by eapply leaf_chain_p.
    + change (mainChainStorage st ++ [raw] = raw_blocks (t' :: parent)); rewrite Es, (chain_of_det _ _ _ _ Hc HP).
      by rewrite (adds_raw _ _ _ _ _ _ _ _ _ A).
Qed.

Lemma extend_alternative leaf code st' : sound st -> main_leaf st = Ok leaf -> p <> leaf -> n_children n = [] ->
  i + 1 = height (n_segment n :: parent) ->
  extendLeaf ndebug currency checkpoints now d b0 p cb vb raw st = Ok (code, st') ->
  sound st' /\ extended st st' cb before /\ (stored st -> (code = ADDED_TO_ALTERNATIVE_AND_SWITCHED -> beside_main) -> stored st').
Proof.
  intros [_ M V] El Hlp Hn Hi E.
  assert (Eh : head (chainsLeaves st) = Some leaf) by (unfold main_leaf in El; destruct (head (chainsLeaves st)); [by injection El as ->|done]).
  destruct (leaf_adds cb raw vb base i (n_segment n) parent l R HC HB Ei HF Hi) as (t' & info & A).
  { intros H; apply Hx; by exists p, n. }
  unfold extendLeaf in E; rewrite El in E; cbn [rbind] in E; rewrite bool_decide_eq_false_2 in E by done.
  rewrite (leaf_push ndebug currency st p n parent cb vb raw t' info) in E by done; cbn [rbind] in E.
  pose proof (leaf_grown ndebug currency st p n parent cb vb raw t' info G Ep Hn HP A Hx) as GL.
  pose proof (leaf_chain_p ndebug currency st p n parent cb vb raw t' info Ep HP A) as HN.
  pose proof (fun q c Hq => proj2 (leaf_chain_other ndebug currency st p n t' G Ep Hn q c Hq)) as CO.
  assert (XL : extended st (with_heap (<[p := with_segment t' n]> (heap st)) st) cb before) by (by eapply onleaf_extended).
  set (st1 := with_heap (<[p := with_segment t' n]> (heap st)) st) in *.
  assert (Ep1 : heap st1 !! p = Some (with_segment t' n)) by apply lookup_insert_eq.
  pose proof V as (leaf' & c & El' & Hc & Hm); rewrite Eh in El'; injection El' as <-.
  pose proof (CO leaf c ltac:(congruence) Hc) as Hc1.
  destruct Hc as (ps0 & Hps0 & Ec0); destruct (path_head _ _ _ Hps0) as (m & r0 & -> & Em).
  assert (Em1 : heap st1 !! leaf = Some m) by (unfold st1; cbn [heap with_heap]; by rewrite lookup_insert_ne).
  rewrite (segs_cons _ _ _ _ Em) in Ec0; subst c.
  assert (Ht' : blockInfos t' <> []) by (rewrite (adds_infos _ _ _ _ _ _ _ _ _ A); by destruct (blockInfos (n_segment n))).
  unfold get_node in E; rewrite Ep1, Em1 in E; cbn [of_option rbind] in E.
  rewrite (current_work st1 p t' parent _ HN Ep1 Ht') in E; cbn [rbind] in E.
  rewrite (current_work st1 leaf _ _ m Hc1 Em1 (grown_some _ _ _ G _ _ Em)) in E; cbn [rbind] in E.
  assert (Hc : chain_of st leaf (n_segment m :: segs (heap st) r0)) by (eexists; split; [exact Hps0|]; by apply segs_cons).
  destruct (Z.gtb_spec (work (infos (t' :: parent))) (work (infos (n_segment m :: segs (heap st) r0)))) as [Hgt|Hle]; cycle 1.
  { injection E as <- <-; split_and!; [|done|].
    - split; [done|by eapply onleaf_marked|]; eapply onleaf_heaviest; eauto.
    - intros (leaf2 & c2 & E2 & H2 & Er) _; rewrite Eh in E2; injection E2 as <-; exists leaf, c2; split_and!; [done| |done].
      rewrite (chain_of_det _ _ _ _ H2 Hc); done. }
  destruct (switchChain _ _ _ _ _ _ p st1) as [st2|] eqn:E2; cbn [rbind] in E; [|done]; injection E as <- <-.
  destruct (switchChain_spec st1 st2 p (with_segment t' n) leaf GL Eh Ep1 Hn Hlp E2)
    as (F1 & F2 & F3 & F4 & MM & st3 & K1 & K2 & K3 & K4).
  split_and!.
  - split; [by eapply grown_heap|done|]; eapply (switched_heaviest t' info Hn A st2); eauto.
    intros leaf2 c2 E2' H2; rewrite Eh in E2'; injection E2' as <-; rewrite (chain_of_det _ _ _ _ H2 Hc); lia.
  - by eapply extended_heap.
  - intros (leaf2 & c2 & E2' & H2 & Er) Hb; rewrite Eh in E2'; injection E2' as <-; rewrite (chain_of_det _ _ _ _ H2 Hc) in Er.
    destruct (beside_main_below leaf _ M Eh Hc Hlp Hn (Hb eq_refl)) as [Ha Hl].
    destruct (adds_represents _ _ _ _ _ _ _ _ _ A) as [lt Rt]; change (n_segment (with_segment t' n)) with t' in K4.
    rewrite (switchMainChainStorage_spec st3 p t' parent (n_segment m :: segs (heap st) r0)) in K4;
      [|by apply (chain_of_heap st1)|apply Rt|done|done|done|by rewrite K2].
    injection K4 as <-; exists p, (t' :: parent); split_and!; [done| |done]; by apply (chain_of_heap st1).
Qed.

Lemma fork_attach : n_children n <> [] -> i + 1 = height (n_segment n :: parent) -> heaviest st ->
  exists st1, forkSegment ndebug p i cb vb raw st = Ok st1 /\
    exists st2, updateMainChainSet st1 = Ok st2 /\ sound st2 /\ extended st st2 cb before /\ (stored st -> stored st2).
Proof.
  intros Hn Hi HV.
  destruct (fork_adds cb raw vb base i (n_segment n) parent l R HC HB Ei HF (n_segment n) parent) as (t' & info & A).
  { rewrite take_ge; [done|]; pose proof (represents_height _ _ R); lia. }
  { by eapply (grown_some _ _ _ G). }
  { rewrite take_ge; [done|]; unfold height in Hi; lia. }
  { done. }
  { done. }
  destruct (fork_heaviest st p n parent t' info G Ep Hn HP Hx A HV) as (st1 & EF & GF & HVF & KF & OF & [cn NF] & SF & LF).
  destruct (updateMainChainSet_ok st1 (grown_shape _ _ _ GF)) as (ps & EM & MM).
  exists st1; split; [done|]; exists (with_mainChainSet (list_to_set ps) st1); split_and!; [done| | |].
  - split; [|done|]; [eapply grown_heap; [| | |exact GF]; done|eapply heaviest_heap; [| |exact HVF]; done].
  - eapply (extended_heap st st1); [done|]; split.
    + done.
    + intros q c Hq; exists q, c; split; [by apply OF|done].
    + exists cn, (t' :: n_segment n :: parent), info; split_and!; [done| |apply A].
      rewrite (adds_chain _ _ _ _ _ _ _ _ _ A), take_ge by (unfold height in Hi; lia); cbn [infos new_segment blockInfos]; by rewrite app_nil_r.
  - intros (leaf & c & El & Hc & Es); exists leaf, c; split_and!.
    + change (head (chainsLeaves st1) = Some leaf); by rewrite LF.
    + by apply OF.
    + change (mainChainStorage st1 = raw_blocks c); by rewrite SF.
Qed.

Lemma attach_sound code st' : sound st -> attachBlock ndebug currency checkpoints now d b0 p i cb vb raw st = Ok (code, st') ->
  sound st' /\ extended st st' cb before /\
  (stored st -> (code = ADDED_TO_ALTERNATIVE_AND_SWITCHED -> beside_main) -> stored st').
Proof.
  intros HS E; unfold attachBlock, get_node in E; rewrite Ep in E; cbn [of_option rbind] in E; rewrite segment_top in E; cbn [rbind] in E.
  destruct (previous_range _ _ _ _ _ R Ei) as [_ Hr]; pose proof HS as [_ M V].
  destruct (Z.eqb_spec (height (n_segment n :: parent) - 1) i) as [Hi|Hi].
  - destruct (Z.eqb_spec (getChildCount n) 0) as [Hc|Hc].
    + assert (Hn : n_children n = []) by (unfold getChildCount in Hc; destruct (n_children n); [done|simpl in Hc; lia]).
      destruct (main_leaf_ok _ (grown_shape _ _ _ G)) as (leaf & ? & ? & El & _); destruct (decide (p = leaf)) as [<-|Hp].
      * assert (code = ADDED_TO_MAIN) as ->.
        { unfold extendLeaf in E; rewrite El in E; cbn [rbind] in E; rewrite bool_decide_eq_true_2 in E by done.
          do 3 (destruct (_ : res Core) in E; cbn [rbind] in E; [|done]); by injection E. }
        destruct (extend_main st' HS El Hn ltac:(lia) E) as (H1 & H2 & H3); split_and!; [done..|]; intros Hst _; by apply H3.
      * apply (extend_alternative leaf code st' HS El Hp Hn ltac:(lia) E).
    + assert (Hn : n_children n <> []) by (intros H; unfold getChildCount in Hc; by rewrite H in Hc).
      destruct (fork_attach Hn ltac:(lia) V) as (st1 & E1 & st2 & E2 & H1 & H2 & H3).
      rewrite E1 in E; cbn [rbind] in E; rewrite E2 in E; cbn [rbind] in E.
      destruct (updateBlockMedianSize _ _ _ st2) as [st3|] eqn:E3; cbn [rbind] in E; [|done]; injection E as <- <-.
      apply updateBlockMedianSize_same in E3; split_and!; [by eapply sound_same|by eapply extended_heap; [apply E3|]|].
      intros Hst _; eapply stored_same; [exact E3|by apply H3].
  - destruct (decide (n_database n = true /\ n_children n <> [])) as [[Hd Hn]|Hd].
    + exfalso; destruct (database_split_undefined ndebug currency checkpoints now d b0 st p n i cb vb raw (height (n_segment n :: parent) - 1)
        Ep Hd) as [e Ee]; [|apply segment_top|done|].
      * intros Hin; apply (shape_leaves _ (grown_shape _ _ _ G)) in Hin as (m & Em & Hm); congruence.
      * unfold attachBlock, get_node in Ee; rewrite Ep in Ee; cbn [of_option rbind] in Ee; rewrite segment_top in Ee; cbn [rbind] in Ee.
        rewrite (proj2 (Z.eqb_neq _ _)) in Ee by done; congruence.
    + assert (Hdb : n_database n = true -> n_children n = []) by (intros H; destruct (n_children n); [done|]; by destruct Hd).
      destruct (inside_attach ltac:(lia) Hdb V) as (st1 & E1 & H1 & H2 & H3); rewrite E1 in E; cbn [rbind] in E; injection E as <- <-.
      split_and!; [done..|]; intros Hst _; by apply H3.
Qed.

(** *** The steps return *)

Lemma updateBlockMedianSize_total st0 : grown st0 -> 0 <= m_rewardBlocksWindow currency ->
  exists st1, updateBlockMedianSize ndebug currency d st0 = Ok st1 /\ transactionPool st1 = transactionPool st0.
Proof.
  intros G0 Hw; destruct (main_leaf_ok _ (grown_shape _ _ _ G0)) as (leaf & m & ps & El & _ & Em & _ & Hps).
  destruct (path_head _ _ _ Hps) as (m' & r & -> & Em'); rewrite Em in Em'; injection Em' as <-.
  assert (Hc : chain_of st0 leaf (n_segment m :: segs (heap st0) r)) by (eexists; split; [exact Hps|by apply segs_cons]).
  destruct (grown_chain _ _ _ G0 _ _ Hc) as [l0 R0]; pose proof (rep_wf _ _ R0) as W0; pose proof (grown_some _ _ _ G0 _ _ Em) as Hs.
  unfold updateBlockMedianSize, main_cache; rewrite El; cbn [rbind]; rewrite (chain_of_cache _ _ _ Hc); cbn [rbind fst snd].
  unfold Validation.updateBlockMedianSize, getTopBlockIndex, assert_res; rewrite bool_decide_eq_true_2, orb_true_r by done; cbn [rbind].
  destruct (wf_parent_top _ _ W0 Hs) as [-> Hh]; unfold getLastBlocksSizes; rewrite getLastUnits_chain by (done || lia); cbn [rbind].
  by eexists.
Qed.

Lemma actualizePoolTransactionsLite_total v st0 : ndebug = true -> TransactionPool.pool_inv (TransactionPool.transactionPool (transactionPool st0)) ->
  exists st1, actualizePoolTransactionsLite ndebug currency v st0 = Ok st1.
Proof.
  intros Hn HI; assert (Em : exists m, getMaximumTransactionAllowedSize ndebug currency (blockMedianSize st0) = Ok m).
  { unfold getMaximumTransactionAllowedSize; rewrite Hn; by eexists. }
  destruct Em as [m Em]; destruct (actualize_lite_spec ndebug currency _ v m _ Em [] _ HI eq_refl) as (w & E & _).
  unfold actualizePoolTransactionsLite, Validation.actualizePoolTransactionsLite, TransactionPool.getTransactionHashes; rewrite E; by eexists.
Qed.

(** The block makes an alternative chain the heaviest. *)
Definition overtakes : Prop := n_children n = [] /\ i + 1 = height (n_segment n :: parent) /\
  exists leaf c, head (chainsLeaves st) = Some leaf /\ p <> leaf /\ chain_of st leaf c /\
    work (infos c) < work (infos (n_segment n :: parent)) + vb_currentDifficulty vb.

Lemma extend_main_total : main_leaf st = Ok p -> n_children n = [] -> i + 1 = height (n_segment n :: parent) ->
  ndebug = true -> 0 <= m_rewardBlocksWindow currency ->
  TransactionPool.pool_inv (TransactionPool.transactionPool (transactionPool st)) ->
  exists st', extendLeaf ndebug currency checkpoints now d b0 p cb vb raw st = Ok (ADDED_TO_MAIN, st').
Proof.
  intros El Hn Hi Hd Hw HI; destruct (leaf_adds cb raw vb base i (n_segment n) parent l R HC HB Ei HF Hi) as (t' & info & A).
  { intros H; apply Hx; by exists p, n. }
  pose proof (leaf_grown ndebug currency st p n parent cb vb raw t' info G Ep Hn HP A Hx) as GL.
  unfold extendLeaf; rewrite El; cbn [rbind]; rewrite bool_decide_eq_true_2 by done; set (st1 := with_mainChainStorage _ st).
  rewrite (leaf_push ndebug currency st1 p n parent cb vb raw t' info); [|done|by apply (chain_of_heap st)|done].
  cbn [rbind]; set (st2 := with_heap _ st1).
  destruct (updateBlockMedianSize_total st2) as (st3 & -> & E3); [eapply grown_heap; [| | |exact GL]; done|done|]; cbn [rbind].
  destruct (actualizePoolTransactionsLite_total (vb_validatorState vb) st3) as (st4 & ->); [done|by rewrite E3|]; by eexists.
Qed.

Lemma extend_alternative_total leaf : main_leaf st = Ok leaf -> p <> leaf -> n_children n = [] ->
  i + 1 = height (n_segment n :: parent) -> ~ overtakes ->
  exists st', extendLeaf ndebug currency checkpoints now d b0 p cb vb raw st = Ok (ADDED_TO_ALTERNATIVE, st').
Proof.
  intros El Hp Hn Hi Ho; destruct (leaf_adds cb raw vb base i (n_segment n) parent l R HC HB Ei HF Hi) as (t' & info & A).
  { intros H; apply Hx; by exists p, n. }
  destruct (main_leaf_ok _ (grown_shape _ _ _ G)) as (leaf' & ml & ps & El' & Eh & Em & _ & Hps); rewrite El in El'; injection El' as <-.
  unfold extendLeaf; rewrite El; cbn [rbind]; rewrite bool_decide_eq_false_2 by done.
  rewrite (leaf_push ndebug currency st p n parent cb vb raw t' info) by done; cbn [rbind]; set (st1 := with_heap _ st).
  assert (Ep1 : heap st1 !! p = Some (with_segment t' n)) by apply lookup_insert_eq.
  assert (Em1 : heap st1 !! leaf = Some ml) by (unfold st1; cbn [heap with_heap]; by rewrite lookup_insert_ne).
  unfold get_node; rewrite Ep1, Em1; cbn [of_option rbind].
  assert (Ht' : blockInfos t' <> []) by (rewrite (adds_infos _ _ _ _ _ _ _ _ _ A); by destruct (blockInfos (n_segment n))).
  pose proof (leaf_chain_p ndebug currency st p n parent cb vb raw t' info Ep HP A) as HN.
  rewrite (current_work st1 p t' parent _ HN Ep1 Ht'); cbn [rbind].
  destruct (path_head _ _ _ Hps) as (m' & r & -> & Em'); rewrite Em in Em'; injection Em' as <-.
  assert (Hcl : chain_of st leaf (n_segment ml :: segs (heap st) r)) by (eexists; split; [exact Hps|by apply segs_cons]).
  pose proof (proj2 (leaf_chain_other ndebug currency st p n t' G Ep Hn leaf _ ltac:(congruence)) Hcl) as Hc1.
  rewrite (current_work st1 leaf _ _ ml Hc1 Em1 (grown_some _ _ _ G _ _ Em)); cbn [rbind].
  assert (EW : work (infos (t' :: parent)) = work (infos (n_segment n :: parent)) + vb_currentDifficulty vb).
  { rewrite (adds_chain _ _ _ _ _ _ _ _ _ A); unfold work at 1; rewrite last_snoc; apply A. }
  destruct (Z.gtb_spec (work (infos (t' :: parent))) (work (infos (n_segment ml :: segs (heap st) r)))) as [Hgt|Hle]; [|by eexists].
  destruct Ho; split; [done|]; split; [done|]; exists leaf, (n_segment ml :: segs (heap st) r); split_and!; done || lia.
Qed.

Lemma attach_total : sound st -> ndebug = true -> 0 <= m_rewardBlocksWindow currency ->
  TransactionPool.pool_inv (TransactionPool.transactionPool (transactionPool st)) -> ~ overtakes ->
  (i + 1 < height (n_segment n :: parent) -> n_database n = true -> n_children n = []) ->
  exists st', attachBlock ndebug currency checkpoints now d b0 p i cb vb raw st =
    Ok (if decide (head (chainsLeaves st) = Some p /\ i + 1 = height (n_segment n :: parent)) then ADDED_TO_MAIN
        else ADDED_TO_ALTERNATIVE, st').
Proof.
  intros HS Hd Hw HI Ho Hdb; unfold attachBlock, get_node; rewrite Ep; cbn [of_option rbind]; rewrite segment_top; cbn [rbind].
  destruct (previous_range _ _ _ _ _ R Ei) as [_ Hr]; pose proof HS as [_ M V].
  destruct (main_leaf_ok _ (grown_shape _ _ _ G)) as (leaf & ml & ps & El & Eh & Em & Hml & Hps).
  destruct (Z.eqb_spec (height (n_segment n :: parent) - 1) i) as [Hi|Hi].
  - destruct (Z.eqb_spec (getChildCount n) 0) as [Hc|Hc].
    + assert (Hn : n_children n = []) by (unfold getChildCount in Hc; destruct (n_children n); [done|simpl in Hc; lia]).
      destruct (decide (p = leaf)) as [<-|Hp].
      * rewrite decide_True by (split; [done|lia]); apply extend_main_total; done || lia.
      * rewrite decide_False by (intros [? ?]; congruence); apply (extend_alternative_total leaf); done || lia.
    + assert (Hn : n_children n <> []) by (intros H; unfold getChildCount in Hc; by rewrite H in Hc).
      destruct (fork_attach Hn ltac:(lia) V) as (st1 & E1 & st2 & E2 & H1 & H2 & H3); rewrite E1; cbn [rbind]; rewrite E2; cbn [rbind].
      destruct (updateBlockMedianSize_total st2 (sound_grown _ H1) Hw) as (st3 & -> & _); cbn [rbind].
      rewrite decide_False; [by eexists|]; intros [E _]; rewrite Eh in E; injection E as ->; congruence.
  - destruct (inside_attach ltac:(lia) (Hdb ltac:(lia)) V) as (st1 & E1 & _); rewrite E1; cbn [rbind]; rewrite decide_False; [by eexists|]; intros [_ E]; lia.
Qed.
End Attach.

(** ** addBlock *)

Lemma known_hasBlock st x : known st x <-> exists p n, heap st !! p = Some n /\ BlockchainCache.hasBlock x (n_segment n) = true.
Proof.
  unfold known, hashes, BlockchainCache.hasBlock; split; intros (p & n & E & H); exists p, n; (split; [done|]).
  - apply list_elem_of_fmap in H as (info & -> & Hin); apply existsb_exists; exists info; split; [by apply list_elem_of_In|].
    by apply bool_decide_eq_true_2.
  - apply existsb_exists in H as (info & Hin & Hb); apply bool_decide_eq_true in Hb as <-.
    by apply list_elem_of_fmap_2, list_elem_of_In.
Qed.

Lemma getBlockIndex_hasBlock x s : BlockchainCache.hasBlock x s = true -> exists i, BlockchainCache.getBlockIndex x s = Ok i.
Proof.
  intros H; apply existsb_exists in H as (info & Hin & Hb); apply bool_decide_eq_true in Hb.
  unfold BlockchainCache.getBlockIndex; destruct (list_find_elem_of (fun i => bi_blockHash i = x) (blockInfos s) info) as [[k y] ->];
    [by apply list_elem_of_In|done|by eexists].
Qed.

(** What a block that passes the checks on some chain of the tree has to satisfy beyond them. *)
Definition admissible (cb : CachedBlock) (raw : RawBlock) (st : Core) : Prop := forall p n parent vb i,
  heap st !! p = Some n -> chain_of st p (n_segment n :: parent) -> checks cb raw (n_segment n) parent = Ok (Ok vb) ->
  BlockchainCache.getBlockIndex (bh_previousBlockHash (cb_block cb)) (n_segment n) = Ok i ->
  readable_block cb raw /\ exists base, fits cb base vb i (n_segment n :: parent).

Abbreviation add := (addBlock ndebug currency checkpoints now cn_slow_hash_v0 cn_lite_slow_hash_v1 cn_turtle_lite_slow_hash_v2
  genesisBlockHash d b0).

Lemma hasBlock_known x st b : shape st -> hasBlock x st = Ok b -> if b then known st x else ~ known st x.
Proof.
  intros S E; unfold hasBlock in E; destruct (throwIfNotInitialized st); cbn [rbind] in E; [|done].
  destruct (findSegmentContainingBlock_spec st S x) as (r & Er & Hr); rewrite Er in E; cbn [rbind] in E; injection E as <-.
  destruct r as [p|].
  - rewrite bool_decide_eq_true_2 by (by eexists); by apply known_hasBlock; exists p.
  - rewrite bool_decide_eq_false_2 by (by intros [? ?]); rewrite known_hasBlock; intros (p & n & En & H).
    by rewrite (Hr p n En) in H.
Qed.

(** The cases of addBlock. *)
Lemma addBlock_cases cb raw st r st' : sound st -> admissible cb raw st -> add cb raw st = Ok (r, st') ->
  (known st (cb_hash cb) /\ r = Err ALREADY_EXISTS /\ st' = st) \/
  (~ known st (cb_hash cb) /\ ~ known st (bh_previousBlockHash (cb_block cb)) /\ r = Err REJECTED_AS_ORPHANED /\ st' = st) \/
  (~ known st (cb_hash cb) /\ exists p n parent i l,
     heap st !! p = Some n /\ chain_of st p (n_segment n :: parent) /\ represents (n_segment n :: parent) l /\
     BlockchainCache.getBlockIndex (bh_previousBlockHash (cb_block cb)) (n_segment n) = Ok i /\
     ((exists e, checks cb raw (n_segment n) parent = Ok (Err e) /\ r = Err e /\ st' = st) \/
      (exists vb base code, checks cb raw (n_segment n) parent = Ok (Ok vb) /\ readable_block cb raw /\
         fits cb base vb i (n_segment n :: parent) /\
         attachBlock ndebug currency checkpoints now d b0 p i cb vb raw st = Ok (code, st') /\ r = Ok code))).
Proof.
  intros HS HA E; pose proof (grown_shape _ _ _ (sound_grown _ HS)) as S; unfold addBlock in E.
  destruct (hasBlock (cb_hash cb) st) as [[]|] eqn:Ek; cbn [rbind] in E; [| |done]; pose proof (hasBlock_known _ _ _ S Ek) as Hk.
  { left; by injection E as <- <-. }
  destruct (assert_res ndebug _); cbn [rbind] in E; [|done].
  destruct (findSegmentContainingBlock_spec st S (bh_previousBlockHash (cb_block cb))) as (f & Ef & Hf); rewrite Ef in E; cbn [rbind] in E.
  destruct f as [p|]; cycle 1.
  { right; left; injection E as <- <-; split_and!; try done; rewrite known_hasBlock; intros (q & m & Em & H); by rewrite (Hf q m Em) in H. }
  right; right; split; [done|]; destruct Hf as (n & En & Hn); destruct (shape_chain _ _ _ S En) as [parent HP].
  destruct (grown_chain _ _ _ (sound_grown _ HS) _ _ HP) as [l R]; destruct (getBlockIndex_hasBlock _ _ Hn) as [i Ei].
  exists p, n, parent, i, l; split_and!; [done..|].
  rewrite (chain_of_cache _ _ _ HP) in E; cbn [rbind] in E; rewrite Ei in E.
  destruct (checks cb raw (n_segment n) parent) as [[vb|e]|] eqn:Ec; cbn [rbind] in E; [| |done]; [right|left].
  - destruct (HA _ _ _ _ _ En HP Ec Ei) as [HB [base HF]].
    destruct (attachBlock _ _ _ _ _ _ _ _ _ _ _ _) as [[code st1]|] eqn:Ea; cbn [rbind fst snd] in E; [|done]; injection E as <- <-.
    exists vb, base, code; by split_and!.
  - exists e; by injection E as <- <-.
Qed.

(** C3. If addBlock returns, it keeps the tree of chains sound: segments,
    children, parents, leaves and the main set stay consistent, every chain
    still represents a ledger of arrived blocks, block hashes stay unique and
    the main chain stays the heaviest. A known block is refused as existing
    and a block without a known previous block as an orphan; a refused block
    leaves the state unchanged; an accepted one is added on top of exactly the
    blocks up to its previous block, and no chain that was there is lost.
    Assumed of each block that passes the checks: it is read from bytes, the
    hashes of its transactions differ from each other and from those on the
    chain, the heights, sizes, counts and the total work stay within the
    widths of their fields (at most 65535 transactions, and outputs of each),
    and inside the checkpoint zone, where the code leaves the spent test out,
    it spends nothing that the chain has spent. The segments of the database
    class are taken to answer as BlockchainCache does; their links and their
    split are those of the class. *)
Theorem block_tree_sound cb raw st r st' : sound st -> admissible cb raw st -> add cb raw st = Ok (r, st') ->
  sound st' /\
  (known st (cb_hash cb) -> r = Err ALREADY_EXISTS) /\
  (~ known st (cb_hash cb) -> ~ known st (bh_previousBlockHash (cb_block cb)) -> r = Err REJECTED_AS_ORPHANED) /\
  match r with
  | Err _ => st' = st
  | Ok _ => exists p c i, chain_of st p c /\ 0 <= i < height c /\
      bi_blockHash <$> at_index (infos c) i = Some (bh_previousBlockHash (cb_block cb)) /\
      extended st st' cb (take (Z.to_nat (i + 1)) (infos c))
  end.
Proof.
  intros HS HA E; destruct (addBlock_cases _ _ _ _ _ HS HA E) as [(H1 & -> & ->)|[(H1 & H2 & -> & ->)|(H1 & p & n & parent & i & l & En & HP & R & Ei & H)]].
  - by split_and!.
  - by split_and!.
  - destruct (getBlockIndex_range _ _ _ _ (proj1 (rep_wf _ _ R)) Ei) as (Hr & info & Ea & Eh).
    assert (Hknown : known st (bh_previousBlockHash (cb_block cb))).
    { exists p, n; split; [done|]; rewrite <- Eh; apply list_elem_of_fmap_2; unfold at_index in Ea; destruct (_ <? 0); [done|].
      by eapply list_elem_of_lookup_2. }
    destruct H as [(e & _ & -> & ->)|(vb & base & code & Ec & HB & HF & Ea' & ->)]; [by split_and!|].
    destruct (attach_sound st p n parent l i cb raw vb base (sound_grown _ HS) En HP R Ec HB Ei HF H1 code st' HS Ea') as (S' & X & _).
    split_and!; [done..|]; destruct (previous_range _ _ _ _ _ R Ei) as [_ Hi].
    exists p, (n_segment n :: parent), i; split; [done|]; split; [done|]; split; [|done]; cbn [infos]; rewrite at_index_app.
    pose proof (seg_start _ _ (proj1 (rep_wf _ _ R))) as Es; unfold in_segment, height in *.
    rewrite (proj2 (Z.ltb_ge _ _)), <- Es, Ea by lia; simpl; by rewrite Eh.
Qed.

(** ** The root *)

Lemma root_represents genesis blob base c :
  push_ok genesis base [] (mkValidatorState ∅) (getObjectBinarySize (bt_baseTransaction (cb_block genesis))) 1 (new_segment 0) [] ->
  ok_transaction (ct_transaction base) -> ct_transaction base = bt_baseTransaction (cb_block genesis) ->
  arrived genesis (mkRawBlock blob []) -> new_root ndebug genesis blob = Ok c ->
  exists s info, c = [s] /\ represents [s] [mkEntry (ct_transaction base) []] /\ infos [s] = [info] /\ raw_blocks [s] = [mkRawBlock blob []] /\
    bi_blockHash info = cb_hash genesis.
Proof.
  intros P Hok Eb Har E; unfold new_root in E.
  destruct (assert_res ndebug _); cbn [rbind] in E; [|done]; destruct (assert_res ndebug _); cbn [rbind] in E; [|done].
  destruct (represents_push ndebug genesis base [] (mkValidatorState ∅) _
    (fold_left (fun sum output => u64 (sum + o_amount output)) (tx_outputs (ct_transaction base)) 0) 1 (mkRawBlock blob []) (new_segment 0) [] []
    represents_empty P) as (s & E' & R & EI & ER); [by apply Forall_singleton|done|constructor|done|by split; [|split; [|constructor]]| |].
  - unfold created; cbn [e_base e_txs map]; change 0 with (u64 0) at 1; rewrite fold_u64_total, Z.add_0_l, wrap_wrap, Z.sub_0_r; done.
  - unfold getObjectBinarySize in E'; rewrite Eb in E'; rewrite E' in E; injection E as <-.
    exists s; eexists; split_and!; [done|exact R|exact EI|exact ER|reflexivity].
Qed.

Lemma initRootSegment_sound genesis blob base st st' :
  push_ok genesis base [] (mkValidatorState ∅) (getObjectBinarySize (bt_baseTransaction (cb_block genesis))) 1 (new_segment 0) [] ->
  ok_transaction (ct_transaction base) -> ct_transaction base = bt_baseTransaction (cb_block genesis) ->
  arrived genesis (mkRawBlock blob []) -> heap st = ∅ -> chainsStorage st = [] -> chainsLeaves st = [] -> mainChainSet st = ∅ ->
  initRootSegment ndebug currency d genesis blob st = Ok st' ->
  sound st' /\ (mainChainStorage st = [mkRawBlock blob []] -> stored st').
Proof.
  intros P Hok Eb Har E1 E2 E3 E4 E; unfold initRootSegment in E.
  destruct (new_root ndebug genesis blob) as [c|] eqn:Ec; cbn [rbind] in E; [|done].
  destruct (root_represents _ _ _ _ P Hok Eb Har Ec) as (s & info & -> & R & EI & ER & _); cbn [head of_option rbind] in E.
  set (p := fresh (dom (heap st))) in E; set (st1 := with_chains _ _ _) in E.
  destruct (updateBlockMedianSize ndebug currency d st1) as [st2|] eqn:Eu; cbn [rbind] in E; [|done].
  injection E as <-; unfold database_load; apply updateBlockMedianSize_same in Eu as E.
  assert (Hh : heap st1 = {[p := mkNode s None [] true]}) by (unfold st1; cbn; by rewrite E1).
  assert (El : chainsLeaves st1 = [p]) by (unfold st1; cbn; by rewrite E3).
  assert (Es : chainsStorage st1 = [p]) by (unfold st1; cbn; by rewrite E2).
  assert (Hl : forall q m, heap st1 !! q = Some m <-> q = p /\ m = mkNode s None [] true).
  { intros q m; rewrite Hh, lookup_singleton_Some; split; intros [? ?]; by subst. }
  assert (Hp : path (heap st1) p [p]) by (eapply path_root; [by apply Hl|done]).
  assert (Hc : forall q c, chain_of st1 q c <-> q = p /\ c = [s]).
  { assert (HP : chain_of st1 p [s]).
    { exists [p]; split; [done|]; by rewrite (segs_cons _ _ _ (mkNode s None [] true)) by (by apply Hl). }
    intros q c; split; [|by intros [-> ->]]; intros Hq; pose proof Hq as (ps & Hps & _).
    destruct (path_head _ _ _ Hps) as (m & r & _ & [-> _]%Hl); split; [done|]; by eapply chain_of_det. }
  assert (HS : sound st1).
  { split; [split| |].
    - split.
      + intros q m [-> ->]%Hl; by eexists.
      + intros q q' m m' [-> _]%Hl [-> _]%Hl; done.
      + intros q m k [-> ->]%Hl; cbn [n_children]; split; [by intros ?%not_elem_of_nil|by intros (m' & [-> ->]%Hl & ?)].
      + intros q m [-> ->]%Hl; constructor.
      + by intros q m [-> ->]%Hl _.
      + rewrite Es; split; [apply NoDup_singleton|]; intros q; rewrite list_elem_of_singleton; split; [intros ->; eexists; by apply Hl|by intros [m [-> _]%Hl]].
      + rewrite El; split; [apply NoDup_singleton|]; intros q; rewrite list_elem_of_singleton.
        split; [intros ->; eexists; split; [by apply Hl|done]|by intros (m & [-> _]%Hl & _)].
      + by rewrite El.
    - intros q c [-> ->]%Hc; by eexists.
    - intros q m [-> ->]%Hl; cbn [n_segment]; intros Hn; cbn [infos] in EI; by rewrite Hn in EI.
    - intros q c [-> ->]%Hc; rewrite EI; by intros [|j] a b Ha.
    - intros q q' m m' x [-> _]%Hl [-> _]%Hl; done.
    - exists p, [p]; rewrite El; split_and!; [done..|]; unfold st1; cbn; rewrite E4; set_solver.
    - exists p, [s]; rewrite El; split_and!; [done|by apply Hc|]; by intros q c [-> ->]%Hc. }
  split; [by eapply sound_same|]; intros Est; eapply stored_same; [exact E|].
  exists p, [s]; rewrite El; split_and!; [done|by apply Hc|]; change (mainChainStorage st = raw_blocks [s]); by rewrite Est, ER.
Qed.

(** ** The storage of the main chain, as a whole *)

(** C7. The storage of raw blocks follows the main chain: if it holds the raw
    blocks of the main chain before addBlock, and addBlock returns, it does so
    afterwards, whether the block extends the main chain, an alternative
    chain, forks, splits a segment or makes the node switch to an alternative
    segment that lies directly on the main chain. Assumed of each block that
    passes the checks: it is read from bytes, the hashes of its transactions
    differ from each other and from those on the chain, the heights, sizes,
    counts and the total work stay within the widths of their fields (at most
    65535 transactions, and outputs of each), and inside the checkpoint zone,
    where the code leaves the spent test out, it spends nothing that the chain
    has spent. The segments of the database class are taken to answer as
    BlockchainCache does; their links and their split are those of the class.
    *)
Theorem main_storage_follows cb raw st r st' : sound st -> admissible cb raw st -> stored st -> add cb raw st = Ok (r, st') ->
  (forall p n i, r = Ok ADDED_TO_ALTERNATIVE_AND_SWITCHED -> heap st !! p = Some n ->
     BlockchainCache.getBlockIndex (bh_previousBlockHash (cb_block cb)) (n_segment n) = Ok i -> beside_main st n) ->
  stored st'.
Proof.
  intros HS HA Hst E Hb; destruct (addBlock_cases _ _ _ _ _ HS HA E)
    as [(_ & _ & ->)|[(_ & _ & _ & ->)|(H1 & p & n & parent & i & l & En & HP & R & Ei & H)]]; [done..|].
  destruct H as [(e & _ & _ & ->)|(vb & base & code & Ec & HB & HF & Ea & ->)]; [done|].
  destruct (attach_sound st p n parent l i cb raw vb base (sound_grown _ HS) En HP R Ec HB Ei HF H1 code st' HS Ea) as (_ & _ & H).
  apply H; [done|]; intros ->; by eapply Hb.
Qed.

Lemma findSegment_unique st x p n : grown st -> heap st !! p = Some n -> BlockchainCache.hasBlock x (n_segment n) = true ->
  findSegmentContainingBlock x st = Ok (Some p).
Proof.
  intros G Ep Hn; pose proof (grown_shape _ _ _ G) as S; destruct (findSegmentContainingBlock_spec st S x) as (f & Ef & Hf).
  rewrite Ef; destruct f as [q|]; [|by rewrite (Hf p n Ep) in Hn]; destruct Hf as (m & Em & Hm).
  assert (HH : forall s, BlockchainCache.hasBlock x s = true -> x ∈ map bi_blockHash (blockInfos s)).
  { intros s H; apply existsb_exists in H as (info & Hin & Hb); apply bool_decide_eq_true in Hb as <-; by apply list_elem_of_fmap_2, list_elem_of_In. }
  by rewrite (grown_unique _ _ _ G q p m n x Em Ep (HH _ Hm) (HH _ Hn)).
Qed.

(** A new block that passes the checks is attached. *)
Lemma addBlock_attaches cb raw st p n parent l i vb : sound st -> initialized st = true -> ndebug = true ->
  ~ known st (cb_hash cb) -> heap st !! p = Some n -> chain_of st p (n_segment n :: parent) -> represents (n_segment n :: parent) l ->
  BlockchainCache.getBlockIndex (bh_previousBlockHash (cb_block cb)) (n_segment n) = Ok i ->
  checks cb raw (n_segment n) parent = Ok (Ok vb) ->
  add cb raw st = let! r := attachBlock ndebug currency checkpoints now d b0 p i cb vb raw st in Ok (Ok r.1, r.2).
Proof.
  intros HS Hi Hd Hx Ep HP R Ei EC; pose proof (sound_grown _ HS) as G; pose proof (grown_shape _ _ _ G) as S.
  assert (Hb : BlockchainCache.hasBlock (bh_previousBlockHash (cb_block cb)) (n_segment n) = true).
  { destruct (getBlockIndex_range _ _ _ _ (proj1 (rep_wf _ _ R)) Ei) as (_ & info & Ea & Eh); apply existsb_exists; exists info.
    split; [|by apply bool_decide_eq_true_2]; unfold at_index in Ea; destruct (_ <? 0); [done|]; by eapply list_elem_of_In, list_elem_of_lookup_2. }
  unfold addBlock; destruct (hasBlock (cb_hash cb) st) as [b|e] eqn:Ek.
  2: { unfold hasBlock, throwIfNotInitialized in Ek; rewrite Hi in Ek; cbn [rbind] in Ek.
       destruct (findSegmentContainingBlock_spec st S (cb_hash cb)) as (r & Er & _); by rewrite Er in Ek. }
  pose proof (hasBlock_known _ _ _ S Ek) as Hk; destruct b; [done|]; cbn [rbind]; rewrite Hd; cbn [assert_res orb rbind].
  rewrite (findSegment_unique _ _ p n G Ep Hb); cbn [rbind]; rewrite (chain_of_cache _ _ _ HP); cbn [rbind].
  rewrite <- Hd, EC; cbn [rbind]; rewrite Ei; done.
Qed.

(** The previous block lies inside a segment of the database class that has children. *)
Definition inside_database (n : node) (parent : cache) (i : Z) : Prop :=
  i + 1 < height (n_segment n :: parent) /\ n_database n = true /\ n_children n <> [].

#[local] Instance inside_database_dec n parent i : Decision (inside_database n parent i).
Proof. unfold inside_database; apply _. Defined.

(** C5. In a sound state of a release build, a new block that passes the
    checks and does not make an alternative chain the heaviest is added by
    addBlock, wherever its previous block lies in the tree: to the main chain
    exactly when the previous block is the top of the main chain, else to an
    alternative chain; except when the previous block lies inside a segment of
    the database class that has children: then addBlock always fails. Assumed
    of each block that passes the checks: it is read from bytes, the hashes of
    its transactions differ from each other and from those on the chain, the
    heights, sizes, counts and the total work stay within the widths of their
    fields (at most 65535 transactions, and outputs of each), and inside the
    checkpoint zone, where the code leaves the spent test out, it spends
    nothing that the chain has spent. *)
Theorem checked_block_added cb raw st p n parent i vb : sound st -> initialized st = true -> admissible cb raw st ->
  ndebug = true -> 0 <= m_rewardBlocksWindow currency ->
  TransactionPool.pool_inv (TransactionPool.transactionPool (transactionPool st)) ->
  ~ known st (cb_hash cb) -> heap st !! p = Some n -> chain_of st p (n_segment n :: parent) ->
  BlockchainCache.getBlockIndex (bh_previousBlockHash (cb_block cb)) (n_segment n) = Ok i ->
  checks cb raw (n_segment n) parent = Ok (Ok vb) -> ~ overtakes st p n parent i vb ->
  if decide (inside_database n parent i) then exists e, add cb raw st = Err e
  else exists st', add cb raw st =
    Ok (Ok (if decide (head (chainsLeaves st) = Some p /\ i + 1 = height (n_segment n :: parent)) then ADDED_TO_MAIN
            else ADDED_TO_ALTERNATIVE), st').
Proof.
  intros HS Hi HA Hd Hw HI Hx Ep HP Ei EC Ho; pose proof (sound_grown _ HS) as G; pose proof (grown_shape _ _ _ G) as S.
  destruct (grown_chain _ _ _ G _ _ HP) as [l R]; destruct (HA p n parent vb i Ep HP EC Ei) as [HB [base HF]].
  rewrite (addBlock_attaches cb raw st p n parent l i vb) by done; destruct (decide (inside_database n parent i)) as [(Hin & Hdb & Hc)|Hn].
  - destruct (database_split_undefined ndebug currency checkpoints now d b0 st p n i cb vb raw (height (n_segment n :: parent) - 1) Ep Hdb)
      as [e ->]; [|by eapply segment_top|lia|by exists e].
    intros Hl; apply (shape_leaves _ S) in Hl as (m & Em & Hm); congruence.
  - destruct (attach_total st p n parent l i cb raw vb base G Ep HP R EC HB Ei HF Hx HS Hd Hw HI Ho) as [st' E].
    { intros H1 H2; destruct (n_children n) as [|k ks] eqn:Ek; [done|]; destruct Hn; split; [done|]; split; [done|]; by rewrite Ek. }
    exists st'; by rewrite E.
Qed.
End AddBlock.

(** C37. switchMainChainStorage cuts the storage at the start of the new main
    leaf and appends the raw blocks of this one segment: the result holds the
    raw blocks of the new main chain if and only if the storage agreed with
    the chain below the leaf before, so it keeps stale blocks when the parent
    of the new leaf was itself an alternative segment. *)
Theorem storage_switch_exact ndebug st st' q t tp old : chain_of st q (t :: tp) -> wf_cache (t :: tp) -> blockInfos t <> [] ->
  mainChainStorage st = old -> switchMainChainStorage ndebug (startIndex t) q st = Ok st' ->
  mainChainStorage st' = take (length (raw_blocks tp)) old ++ storage t /\
  (mainChainStorage st' = raw_blocks (t :: tp) <-> take (length (raw_blocks tp)) old = raw_blocks tp).
Proof.
  intros Hc W Ht Es E; pose proof (proj1 W) as Wt; pose proof (raw_blocks_length _ (proj2 (proj2 W))) as Lp.
  assert (E0 : startIndex t = Z.of_nat (length (raw_blocks tp))) by (rewrite Lp; exact (seg_start _ _ Wt)).
  unfold switchMainChainStorage in E; destruct (assert_res ndebug _); cbn [rbind] in E; [|done].
  destruct (_ <? _); [done|]; pose proof Hc as (ps & Hps & Ecs); destruct (path_head _ _ _ Hps) as (m & r & -> & Em).
  rewrite (segs_cons _ _ _ _ Em) in Ecs; injection Ecs as Ecs _.
  unfold get_node in E; rewrite Em in E; cbn [of_option rbind] in E; rewrite (chain_of_cache _ _ _ Hc) in E; cbn [rbind] in E; rewrite Ecs in E.
  unfold getTopBlockIndex, assert_res in E; rewrite bool_decide_eq_true_2, orb_true_r in E by done; cbn [rbind] in E.
  destruct (wf_parent_top _ _ W Ht) as [Et Hh]; rewrite Et in E.
  assert (HH : height (t :: tp) = Z.of_nat (length (raw_blocks (t :: tp)))) by (rewrite raw_blocks_length by done; done).
  assert (HL : (length (raw_blocks tp) <= length (raw_blocks (t :: tp)))%nat) by (cbn [raw_blocks]; rewrite length_app; lia).
  rewrite blocks_from_spec in E by (done || lia); cbn [rbind] in E; injection E as <-; cbn [mainChainStorage with_mainChainStorage].
  cbn [raw_blocks] in HH |- *; rewrite length_app in HH.
  rewrite E0, Nat2Z.id, Es, (take_ge (drop _ _)) by (rewrite length_drop, length_app; lia); rewrite drop_app_length.
  split; [done|]; split; [by intros H; apply app_inv_tail in H|by intros ->].
Qed.

(** ** Reachable states *)

Section Reachable.
Context {FH : FastHash} {AR : Arrived}.
Context (ndebug : bool) (currency : Currency.Currency) (checkpoints : list (Z * Hash)).
Context (cn_slow_hash_v0 cn_lite_slow_hash_v1 cn_turtle_lite_slow_hash_v2 : list Z -> Hash) (genesisBlockHash : Hash).
Context (d : UpgradeManager.detectors) (b0 : BlockTemplate).

(** The states of a node: the root with the genesis block, then blocks and transactions that
    arrive, at any times. *)
Inductive reachable : Core -> Prop :=
| reachable_root genesis blob base st st' :
    push_ok genesis base [] (mkValidatorState ∅) (getObjectBinarySize (bt_baseTransaction (cb_block genesis))) 1 (new_segment 0) [] ->
    ok_transaction (ct_transaction base) -> ct_transaction base = bt_baseTransaction (cb_block genesis) ->
    arrived genesis (mkRawBlock blob []) -> heap st = ∅ -> chainsStorage st = [] -> chainsLeaves st = [] -> mainChainSet st = ∅ ->
    initRootSegment ndebug currency d genesis blob st = Ok st' -> reachable st'
| reachable_block now cb raw st r st' : reachable st ->
    admissible ndebug currency checkpoints now cn_slow_hash_v0 cn_lite_slow_hash_v1 cn_turtle_lite_slow_hash_v2
      genesisBlockHash d cb raw st ->
    addBlock ndebug currency checkpoints now cn_slow_hash_v0 cn_lite_slow_hash_v1 cn_turtle_lite_slow_hash_v2
      genesisBlockHash d b0 cb raw st = Ok (r, st') -> reachable st'
| reachable_transaction now ba st r st' : reachable st ->
    addTransactionToPool ndebug currency checkpoints now ba st = Ok (r, st') -> reachable st'.

Lemma reachable_sound st : reachable st -> sound ndebug currency st.
Proof.
  induction 1 as [genesis blob base st st' P Hok Eb Har E1 E2 E3 E4 E|now cb raw st r st' _ IH HA E|now ba st r st' _ IH E].
  - by destruct (initRootSegment_sound ndebug currency d genesis blob base st st' P Hok Eb Har E1 E2 E3 E4 E).
  - destruct (addBlock_cases ndebug currency checkpoints now _ _ _ _ d b0 cb raw st r st' IH HA E)
      as [(_ & _ & ->)|[(_ & _ & _ & ->)|(H1 & p & n & parent & i & l & En & HP & R & Ei & [(e & _ & _ & ->)|
         (vb & base & code & Ec & HB & HF & Ea & ->)])]]; [done..|].
    by destruct (attach_sound ndebug currency checkpoints now _ _ _ _ d b0 st p n parent l i cb raw vb base (sound_grown _ _ _ IH)
      En HP R Ec HB Ei HF H1 code st' IH Ea).
  - eapply sound_same; [|exact IH]; by apply (add_transactions_same ndebug currency checkpoints now [ba]); cbn [add_transactions]; rewrite E.
Qed.

(** C1. In every state a node reaches from its genesis block, with a root of
    the database class, by blocks and transactions that arrive in any order
    and at any times: the main chain has at least the work of every chain of
    the tree, the set of main segments is exactly the path from the main leaf
    to the root, and every chain, main or alternative, has a ledger whose
    entries are the transactions of the arrived blocks that the chain stores,
    block by block; on it no key image is spent twice, the spent test answers
    exactly from the entries up to the given block, and the coins of each
    block are the coins created so far, modulo 2^64. Assumed of each block
    that passes the checks: it is read from bytes, the hashes of its
    transactions differ from each other and from those on the chain, the
    heights, sizes, counts and the total work stay within the widths of their
    fields (at most 65535 transactions, and outputs of each), and inside the
    checkpoint zone, where the code leaves the spent test out, it spends
    nothing that the chain has spent. The segments of the database class are
    taken to answer as BlockchainCache does; their links and their split are
    those of the class. *)
Theorem reachable_consensus st : reachable st ->
  (exists leaf c, head (chainsLeaves st) = Some leaf /\ chain_of st leaf c /\
     (forall q, q ∈ mainChainSet st <-> exists ps, path (heap st) leaf ps /\ q ∈ ps) /\
     forall q c', chain_of st q c' -> work (infos c') <= work (infos c)) /\
  (forall p c, chain_of st p c -> exists l : ledger,
     length l = length (infos c) /\
     (forall j e, l !! j = Some e -> exists cb raw info, arrived cb raw /\ infos c !! j = Some info /\ raw_blocks c !! j = Some raw /\
        bi_blockHash info = cb_hash cb /\ block_entry cb raw e) /\
     NoDup (concat (map entry_images l)) /\
     (forall x j, 0 <= j -> checkIfSpent x j c = Ok true <-> exists k e, 0 <= k <= j /\ at_index l k = Some e /\ x ∈ entry_images e) /\
     (forall j info, infos c !! j = Some info -> bi_alreadyGeneratedCoins info = u64 (supply (take (S j) l)))).
Proof.
  intros H; destruct (reachable_sound _ H) as [G (leaf & ps & El & Hps & Em) V]; split.
  - destruct V as (leaf' & c & El' & Hc & Hm); rewrite El in El'; injection El' as <-.
    exists leaf, c; split; [done|]; split; [done|]; split; [|done]; intros q; rewrite Em, elem_of_list_to_set; split; [by exists ps|].
    intros (ps' & Hps' & Hq); by rewrite (path_det _ _ _ _ Hps Hps').
  - intros p c Hc; destruct (grown_chain _ _ _ G _ _ Hc) as [l R]; exists l; split_and!; [symmetry; apply R|apply R|apply R| |apply R].
    assert (Hne : c <> []) by (destruct Hc as (ps' & Hp' & <-); destruct (path_head _ _ _ Hp') as (m & r & -> & Er); by rewrite (segs_cons _ _ _ _ Er)).
    intros x j Hj; rewrite checkIfSpent_chain by (done || apply R); split.
    + intros E; destruct (spent c !! x) as [k|] eqn:Ek; [|done]; apply (rep_spent _ _ R) in Ek as (e & Ee & Hx); injection E as E.
      exists k, e; split; [|done]; apply Z.leb_le in E; unfold at_index in Ee; destruct (Z.ltb_spec k 0); [done|lia].
    + intros (k & e & Hk & Ee & Hx); rewrite (proj2 (rep_spent _ _ R x k)) by (by exists e); by rewrite (proj2 (Z.leb_le _ _)) by lia.
Qed.
End Reachable.

(** ** A root and its next block *)

Section Sample.
Import Currency.
#[local] Existing Instance TreeHash.weak_FastHash.
#[local] Existing Instance sample_blocks.

Abbreviation no_hash := (fun _ : list Z => repeat 0 32).
Abbreviation sample_add nd := (addBlock nd mainnet [] 10000 no_hash no_hash no_hash (repeat 0 32) [] (cb_block genesis_block)).

Definition root_segment : segment :=
  mkSegment 0 [mkTransactionInfo 0 0 (0 :: repeat 0 31) 40 [OutKey identity_image] [0]] ∅
    [mkBlockInfo (repeat 1 32) 1000 1 100 1 41] {[100 := mkGlobalIndexes 0 [mkOutIndex 0 0 0]]} [] [mkRawBlock [0] []].

Definition sample_wrapper : TransactionPool.TransactionPoolCleanWrapper :=
  TransactionPool.mkWrapper TransactionPool.empty_pool ∅ 1000.
Definition sample_start : Core := mkCore ∅ [] [] ∅ [mkRawBlock [0] []] sample_wrapper 0 true.
Definition sample_core : Core :=
  mkCore {[O := mkNode root_segment None [] true]} [O] [O] {[O]} [mkRawBlock [0] []] sample_wrapper 10000 true.

Lemma sample_init nd : initRootSegment nd mainnet [] genesis_block [0] sample_start = Ok sample_core.
Proof. destruct nd; vm_compute; reflexivity. Qed.

Lemma root_push_ok : push_ok genesis_block (cached_tx genesis_tx) [] (mkValidatorState ∅)
  (getObjectBinarySize (bt_baseTransaction (cb_block genesis_block))) 1 (new_segment 0) [].
Proof. by destruct genesis_push_ok; split. Qed.

Lemma root_tx_ok : ok_transaction (ct_transaction (cached_tx genesis_tx)).
Proof. by apply sample_tx_ok. Qed.

Lemma sample_sound nd : sound nd mainnet sample_core /\ stored sample_core.
Proof.
  destruct (initRootSegment_sound nd mainnet [] genesis_block [0] (cached_tx genesis_tx) sample_start sample_core) as [H1 H2];
    [exact root_push_ok|exact root_tx_ok|reflexivity|by left|done..|exact (sample_init nd)|].
  split; [exact H1|by apply H2].
Qed.

Lemma sample_node p n : heap sample_core !! p = Some n -> p = O /\ n = mkNode root_segment None [] true.
Proof. cbn [sample_core heap]; rewrite lookup_singleton_Some; intros [<- <-]; done. Qed.

Lemma sample_chain p c : chain_of sample_core p c -> p = O /\ c = [root_segment].
Proof.
  intros H; pose proof H as (ps & Hps & _); destruct (path_head _ _ _ Hps) as (m & r & _ & [-> ->]%sample_node); split; [done|].
  eapply chain_of_det; [exact H|]; exists [O]; split; [by eapply path_root|reflexivity].
Qed.

Lemma root_accepted nd : addBlock_checks nd mainnet [] 10000 no_hash no_hash no_hash (repeat 0 32) [] next_block (mkRawBlock [1] [])
  root_segment [] = Ok (Ok next_validated).
Proof.
  assert (E : check_outputs (tx_outputs (bt_baseTransaction (cb_block next_block))) 0 = Ok (Ok 2980)).
  { apply check_outputs_spec; [|done|].
    - apply Forall_singleton; split; [done|exact identity_bytes].
    - split; [|done]; apply Forall_singleton; split; [done|exact identity_point]. }
  unfold addBlock_checks, validateBlock; rewrite E; destruct nd; vm_compute; reflexivity.
Qed.

Lemma root_fits : fits [] next_block (cached_tx miner_tx) next_validated 0 [root_segment].
Proof.
  destruct sample_room as [R1 R2 R3 R4 R5 R6 R7 R8 R9]; split; try done.
  apply NoDup_app in R7 as (H1 & H2 & _); split; [exact H1|]; intros h Hh; cbn [chain_transactions app]; exact (H2 h Hh).
Qed.

Lemma sample_admissible nd : admissible nd mainnet [] 10000 no_hash no_hash no_hash (repeat 0 32) [] next_block (mkRawBlock [1] []) sample_core.
Proof.
  intros p n parent vb i [-> ->]%sample_node [_ [= ->]]%sample_chain E Ei; cbn [n_segment] in E; rewrite (root_accepted nd) in E; injection E as <-.
  injection Ei as <-; split; [exact sample_readable|]; exists (cached_tx miner_tx); exact root_fits.
Qed.

Lemma sample_unknown : ~ known sample_core (cb_hash next_block) .
Proof. intros (p & n & [-> ->]%sample_node & H); apply list_elem_of_singleton in H; discriminate H. Qed.

Lemma checked_block_added_witness : exists st', sample_add true next_block (mkRawBlock [1] []) sample_core = Ok (Ok ADDED_TO_MAIN, st').
Proof.
  destruct (checked_block_added true mainnet [] 10000 no_hash no_hash no_hash (repeat 0 32) [] (cb_block genesis_block) next_block
    (mkRawBlock [1] []) sample_core O (mkNode root_segment None [] true) [] 0 next_validated) as [st' E].
  - apply sample_sound.
  - reflexivity.
  - apply sample_admissible.
  - reflexivity.
  - done.
  - apply (TransactionPool.pool_reachable_inv false); apply rtc_refl.
  - exact sample_unknown.
  - reflexivity.
  - exists [O]; split; [by eapply path_root|reflexivity].
  - reflexivity.
  - exact (root_accepted true).
  - intros (_ & _ & leaf & c & [= <-] & H & _); done.
  - exists st'; rewrite E, decide_True by (split; reflexivity); reflexivity.
Defined.

Lemma sample_added : exists st', sample_add false next_block (mkRawBlock [1] []) sample_core = Ok (Ok ADDED_TO_MAIN, st').
Proof.
  unfold addBlock.
  replace (hasBlock (cb_hash next_block) sample_core) with (Ok false : res bool) by (vm_compute; reflexivity); cbn [rbind].
  change (findSegmentContainingBlock _ sample_core) with (findSegmentContainingBlock (repeat 1 32) sample_core).
  replace (findSegmentContainingBlock (repeat 1 32) sample_core) with (Ok (Some O) : res (option ptr)) by (vm_compute; reflexivity).
  cbn [rbind]; replace (cache_of (heap sample_core) O) with (Ok [root_segment] : res cache) by (vm_compute; reflexivity).
  cbn [rbind assert_res]; rewrite (root_accepted false); eexists; vm_compute; reflexivity.
Qed.

Lemma block_tree_sound_witness : exists st', sound false mainnet st' /\ known st' (cb_hash next_block).
Proof.
  destruct sample_added as [st' E].
  destruct (block_tree_sound false mainnet [] 10000 no_hash no_hash no_hash (repeat 0 32) [] (cb_block genesis_block) next_block
    (mkRawBlock [1] []) sample_core (Ok ADDED_TO_MAIN) st' (proj1 (sample_sound false)) (sample_admissible false) E)
    as (H & _ & _ & p & c & i & _ & _ & _ & X).
  exists st'; split; [exact H|]; apply (ext_known _ _ _ _ X); by right.
Defined.

Lemma main_storage_follows_witness : exists st', sample_add false next_block (mkRawBlock [1] []) sample_core = Ok (Ok ADDED_TO_MAIN, st') /\ stored st'.
Proof.
  destruct sample_added as [st' E]; exists st'; split; [exact E|].
  apply (main_storage_follows false mainnet [] 10000 no_hash no_hash no_hash (repeat 0 32) [] (cb_block genesis_block) next_block
    (mkRawBlock [1] []) sample_core (Ok ADDED_TO_MAIN) st' (proj1 (sample_sound false)) (sample_admissible false)
    (proj2 (sample_sound false)) E).
  intros p n i H; discriminate H.
Defined.

Lemma reachable_consensus_witness : exists st' leaf c,
  sample_add false next_block (mkRawBlock [1] []) sample_core = Ok (Ok ADDED_TO_MAIN, st') /\
  head (chainsLeaves st') = Some leaf /\ chain_of st' leaf c /\ forall q c', chain_of st' q c' -> work (infos c') <= work (infos c).
Proof.
  destruct sample_added as [st' E].
  destruct (reachable_consensus false mainnet [] no_hash no_hash no_hash (repeat 0 32) [] (cb_block genesis_block) st')
    as [(leaf & c & El & Hc & _ & Hm) _].
  - apply (reachable_block _ _ _ _ _ _ _ _ _ 10000 next_block (mkRawBlock [1] []) sample_core (Ok ADDED_TO_MAIN)); [|exact (sample_admissible false)|exact E].
    exact (reachable_root _ _ _ _ _ _ _ _ _ genesis_block [0] (cached_tx genesis_tx) sample_start sample_core root_push_ok
      root_tx_ok eq_refl (or_introl (conj eq_refl eq_refl)) eq_refl eq_refl eq_refl eq_refl (sample_init false)).
  - exists st', leaf, c; split; [exact E|]; split; [exact El|]; split; [exact Hc|exact Hm].
Defined.

(** A segment of two blocks kept by the database class, with a segment on top of it. *)
Definition two_blocks : segment :=
  mkSegment 0 [] ∅ [mkBlockInfo (repeat 1 32) 1000 1 100 1 41; mkBlockInfo (repeat 2 32) 1030 2 200 2 41] ∅ [] [mkRawBlock [0] []; mkRawBlock [1] []].
Definition database_core : Core :=
  mkCore {[O := mkNode two_blocks None [1%nat] true; 1%nat := mkNode (new_segment 2) (Some O) [] false]} [O; 1%nat] [1%nat] {[O; 1%nat]} []
    sample_wrapper 10000 true.

Lemma database_split_undefined_witness : exists e,
  attachBlock false mainnet [] 10000 [] (cb_block genesis_block) O 0 next_block next_validated (mkRawBlock [1] []) database_core = Err e.
Proof.
  apply (database_split_undefined false mainnet [] 10000 [] (cb_block genesis_block) database_core O (mkNode two_blocks None [1%nat] true) 0
    next_block next_validated (mkRawBlock [1] []) 1); [vm_compute; reflexivity|reflexivity| |reflexivity|done].
  cbn [database_core chainsLeaves]; intros [=]%list_elem_of_singleton.
Defined.

(** The main storage holds other blocks than the parent of the new main leaf. *)
Lemma storage_switch_exact_witness : exists st st' q t tp, switchMainChainStorage false 1 q st = Ok st' /\
  mainChainStorage st' = [mkRawBlock [9] []; mkRawBlock [1] []] /\ raw_blocks (t :: tp) = [mkRawBlock [0] []; mkRawBlock [1] []].
Proof.
  pose proof (built_represents _ _ _ _ _ _ _ _ _ _ _ sample_built_genesis) as R.
  destruct (block_extends false mainnet [] 10000 no_hash no_hash no_hash
    (repeat 0 32) [] next_block (mkRawBlock [1] []) genesis_segment [] next_validated (cached_tx miner_tx) 0
    [mkEntry genesis_tx []] genesis_segment [] R sample_accepted sample_readable eq_refl R sample_room) as (t & E & R' & EI & ER).
  destruct (split_spec false 1 t [] (rep_wf _ _ R')) as (low & up & Es & W & E1 & E2 & Hl & Hu & EI' & ER' & _).
  { pose proof (f_equal length EI) as L; rewrite length_app in L; cbn [infos app length genesis_segment blockInfos] in L.
    pose proof (seg_start _ _ (proj1 (rep_wf _ _ R'))) as S0; unfold height in S0; cbn [infos length] in S0.
    unfold end_index, getBlockCount; lia. }
  set (st := mkCore {[O := mkNode low None [1%nat] false; 1%nat := mkNode up (Some O) [] false]} [O; 1%nat] [1%nat] ∅
    [mkRawBlock [9] []; mkRawBlock [8] []] sample_wrapper 10000 true).
  assert (Hc : chain_of st 1%nat [up; low]).
  { exists [1%nat; O]; split; [|reflexivity]; eapply path_up; [reflexivity|reflexivity|]; by eapply path_root. }
  assert (EL : raw_blocks [low] = [mkRawBlock [0] []] /\ storage up = [mkRawBlock [1] []]).
  { pose proof (raw_blocks_length [low] (proj2 (proj2 W))) as L1; pose proof (seg_start _ _ (proj1 W)) as S1; rewrite E2 in S1; unfold height in S1; rewrite <- L1 in S1.
    rewrite ER in ER'; cbn [raw_blocks app] in ER', S1 |- *; destruct (storage low) as [|x [|y xs]]; simpl in S1; [lia| |lia].
    injection ER' as -> ->; done. }
  destruct EL as [EL1 EL2].
  assert (exists st', switchMainChainStorage false 1 1%nat st = Ok st') as [st' Esw].
  { unfold switchMainChainStorage, get_node, getTopBlockIndex, assert_res; rewrite (chain_of_cache _ _ _ Hc).
    change (heap st !! 1%nat) with (Some (mkNode up (Some O) [] false)); cbn [of_option rbind n_segment].
    rewrite bool_decide_eq_true_2 by done; destruct (wf_parent_top _ _ W Hu) as [-> Hh].
    cbn [orb rbind]; change (Z.of_nat (length (mainChainStorage st))) with 2; cbn [Z.gtb Z.ltb Z.compare Pos.compare Pos.compare_cont rbind].
    rewrite blocks_from_spec by (done || lia); by eexists. }
  rewrite <- E2 in Esw.
  destruct (storage_switch_exact false st st' 1%nat up [low] _ Hc W Hu eq_refl Esw) as [H _].
  exists st, st', 1%nat, up, [low]; rewrite E2 in Esw; split; [exact Esw|]; split.
  - rewrite H, EL1, EL2; reflexivity.
  - change (raw_blocks [up; low]) with (raw_blocks [low] ++ storage up); rewrite EL1, EL2; reflexivity.
Defined.
End Sample.

End Consensus.
