(* ===== verification/Mining.v ===== *)
(** Block templates for miners: Currency::constructMinerTx (src/src/CryptoNoteCore/Currency.cpp)
    and calculateCumulativeBlocksizeLimit, fillBlockTemplate, getDifficultyForNextBlock and
    getBlockTemplate of src/src/CryptoNoteCore/Core.cpp.

    The random bytes of every key pair and the clock are arguments.  [None] inside [res] is the
    result false.  The main chain is the cache [s :: parent], the pool is passed on, since
    fillBlockTemplate removes transactions from it. *)

From S2P Require Import Prelude.
From S2P Require Import Config.
From S2P Require Import Types.
From S2P Require Import Keccak.
From S2P Require Import FormatUtils.
From S2P Require Import Currency.
From S2P Require Import Difficulty.
From S2P Require Import Serialization.
From S2P Require Import TransactionExtra.
From S2P Require Import Block.
From S2P Require Import Crypto.
From S2P Require Import CachedTransaction.
From S2P Require Import TransactionPool.
From S2P Require Import ChainRules.
From S2P Require Import BlockchainCache.
From S2P Require Import Validation.
From S2P Require Import Core.

Module Mining.

Import parameters FormatUtils Currency Difficulty Serialization TransactionExtra Crypto CachedTransaction TransactionPool BlockchainCache Validation.

(** ** The transaction of the miner *)

Section MinerTx.
Context {FH : FastHash}.
Context (ndebug : bool) (currency : Currency).

(** while (maxOuts < outAmounts.size()): the last amount is added to the one before it. *)
Fixpoint merge_last (fuel : nat) (maxOuts : Z) (outAmounts : list Z) : list Z :=
  if maxOuts <? Z.of_nat (length outAmounts) then
    match fuel with
    | O => outAmounts
    | S fuel =>
      let n := length outAmounts in
      let outAmounts := <[(n - 2)%nat := u64 (nth (n - 2) outAmounts 0 + nth (n - 1) outAmounts 0)]> outAmounts in
      merge_last fuel maxOuts (take (n - 1) outAmounts)
    end
  else outAmounts.

(** The loop over the amounts: the outputs and summaryAmounts. *)
Fixpoint miner_outputs (no : Z) (outAmounts : list Z) (minerAddress : AccountPublicAddress) (secretKey : SecretKey)
    (summaryAmounts : Z) : res (option (list TransactionOutput * Z)) :=
  match outAmounts with
  | [] => Ok (Some ([], summaryAmounts))
  | amount :: outAmounts =>
    let! derivation := of_option Undefined (generate_key_derivation ndebug (viewPublicKey minerAddress) secretKey) in
    match derivation with
    | None => Ok None
    | Some derivation =>
      let! outEphemeralPubKey := of_option Undefined (derive_public_key derivation no (spendPublicKey minerAddress)) in
      match outEphemeralPubKey with
      | None => Ok None
      | Some key =>
        let! r := miner_outputs (no + 1) outAmounts minerAddress secretKey (u64 (summaryAmounts + amount)) in
        Ok ('(outs, sum) ← r; Some (mkOutput amount (OutKey key) :: outs, sum))
      end
    end
  end.

Definition constructMinerTx (tmp : list Z) (blockMajorVersion height medianSize alreadyGeneratedCoins currentBlockSize fee : Z)
    (minerAddress : AccountPublicAddress) (tx : Transaction) (extraNonce : BinaryArray) (maxOuts : Z)
  : res (option Transaction) :=
  let! txkey := of_option Undefined (generate_keys tmp) in
  let extra := addTransactionPublicKeyToExtra [] txkey.1 in
  match (match extraNonce with [] => Some extra | _ :: _ => addExtraNonceToTransactionExtra extra extraNonce end) with
  | None => Ok None
  | Some extra =>
    let! reward := of_option Undefined
      (getBlockReward ndebug currency blockMajorVersion medianSize currentBlockSize alreadyGeneratedCoins fee) in
    match reward with
    | None => Ok None
    | Some (blockReward, _) =>
      let outAmounts := decomposeAmount blockReward (defaultDustThreshold currency height) in
      if negb (1 <=? maxOuts) then Ok None
      else
        let outAmounts := merge_last (length outAmounts) maxOuts outAmounts in
        let! r := miner_outputs 0 outAmounts minerAddress txkey.2 0 in
        match r with
        | None => Ok None
        | Some (outputs, summaryAmounts) =>
          if negb (summaryAmounts =? blockReward) then Ok None
          else Ok (Some (mkTransaction (mkPrefix CURRENT_TRANSACTION_VERSION (u32 (height + m_minedMoneyUnlockWindow currency))
                 [InBase height] outputs extra) (tx_signatures tx)))
        end
    end
  end.
End MinerTx.

(** ** The transactions of a template *)

(** TransactionSpentInputsChecker::haveSpentInputs *)
Fixpoint haveSpentInputs (inputs : list TransactionInput) (alreadSpentKeyImages : gset KeyImage) : bool * gset KeyImage :=
  match inputs with
  | [] => (false, alreadSpentKeyImages)
  | InKey k :: inputs =>
    if bool_decide (ki_keyImage k ∈ alreadSpentKeyImages) then (true, alreadSpentKeyImages)
    else haveSpentInputs inputs ({[ki_keyImage k]} ∪ alreadSpentKeyImages)
  | InBase _ :: inputs => haveSpentInputs inputs alreadSpentKeyImages
  end.

Definition validateBlockTemplateTransaction (c : CachedTransaction) (blockHeight : Z) : bool :=
  if Z.of_nat (length (tx_extra (ct_transaction c))) >=? MAX_EXTRA_SIZE_V2 then false
  else match validate_mixins [c] blockHeight with Ok _ => true | Err _ => false end.

(** What the two loops of fillBlockTemplate change. *)
Record filling := mkFilling {
  f_hashes : list Hash;
  f_size : Z;
  f_fee : Z;
  f_spent : gset KeyImage;
  f_pool : TransactionPoolCleanWrapper }.

Section Template.
Context {FH : FastHash}.
Context (ndebug : bool) (currency : Currency) (d : UpgradeManager.detectors).

(** The common part of the two loops: the size is within the limit. *)
Definition take_transaction (height fee : Z) (c : CachedTransaction) (f : filling) : res filling :=
  if negb (validateBlockTemplateTransaction c height) then
    let! pool := wrapper_removeTransaction ndebug (getTransactionHash c) (f_pool f) in
    Ok (mkFilling (f_hashes f) (f_size f) (f_fee f) (f_spent f) pool)
  else
    let '(spent, images) := haveSpentInputs (tx_inputs (ct_transaction c)) (f_spent f) in
    Ok (if spent then mkFilling (f_hashes f) (f_size f) (f_fee f) images (f_pool f)
        else mkFilling (f_hashes f ++ [getTransactionHash c]) (u64 (f_size f + blobSize c)) (u64 (f_fee f + fee)) images (f_pool f)).

(** The first loop, on the reversed list: it stops at the first transaction with a fee. *)
Fixpoint fill_fusion (height : Z) (cs : list CachedTransaction) (f : filling) : res filling :=
  match cs with
  | [] => Ok f
  | c :: cs =>
    if negb (getTransactionFee c =? 0) then Ok f
    else if m_fusionTxMaxSize currency <? u64 (f_size f + blobSize c) then fill_fusion height cs f
    else let! f := take_transaction height 0 c f in fill_fusion height cs f
  end.

Fixpoint fill_all (height medianSize maxTotalSize : Z) (cs : list CachedTransaction) (f : filling) : res filling :=
  match cs with
  | [] => Ok f
  | c :: cs =>
    let blockSizeLimit := if getTransactionFee c =? 0 then medianSize else maxTotalSize in
    if blockSizeLimit <? u64 (f_size f + blobSize c) then fill_all height medianSize maxTotalSize cs f
    else let! f := take_transaction height (getTransactionFee c) c f in fill_all height medianSize maxTotalSize cs f
  end.

Definition fillBlockTemplate (medianSize maxCumulativeSize height : Z) (pool : TransactionPoolCleanWrapper)
  : res filling :=
  let maxTotalSize := u64 (125 * medianSize) / 100 in
  let maxTotalSize := u64 (Z.min maxTotalSize maxCumulativeSize - m_minerTxBlobReservedSize currency) in
  let poolTransactions := getPoolTransactions (transactionPool pool) in
  let! f := fill_fusion height (rev poolTransactions) (mkFilling [] 0 0 ∅ pool) in
  fill_all height medianSize maxTotalSize poolTransactions f.

(** ** The template *)

Definition calculateCumulativeBlocksizeLimit (height : Z) (s : segment) (parent : cache) : res Z :=
  let nextBlockGrantedFullRewardZone :=
    blockGrantedFullRewardZoneByBlockVersion currency (UpgradeManager.getBlockMajorVersion height d) in
  let! top := getTopBlockIndex ndebug s in
  let! sizes := getLastBlocksSizes ndebug (m_rewardBlocksWindow currency) top false (s :: parent) in
  let median := medianValue sizes in
  let median := if median <=? nextBlockGrantedFullRewardZone then nextBlockGrantedFullRewardZone else median in
  Ok (u64 (median * 2)).

(** Core::getDifficultyForNextBlock *)
Definition core_getDifficultyForNextBlock (s : segment) (parent : cache) : res Z :=
  let! topBlockIndex := getTopBlockIndex ndebug s in
  let nextBlockMajorVersion := UpgradeManager.getBlockMajorVersion topBlockIndex d in
  let blocksCount := Z.min topBlockIndex (difficultyBlocksCountByBlockVersion currency nextBlockMajorVersion topBlockIndex) in
  let! timestamps := getLastTimestamps ndebug blocksCount topBlockIndex false (s :: parent) in
  let! difficulties := getLastCumulativeDifficulties ndebug blocksCount topBlockIndex false (s :: parent) in
  of_option Undefined (getNextDifficulty currency nextBlockMajorVersion topBlockIndex timestamps difficulties).

Definition getBlockTimestampByIndex (blockIndex : Z) (s : segment) (parent : cache) : res Z :=
  let! top := getTopBlockIndex ndebug s in
  let! _ := assert_res ndebug (blockIndex <=? top) in
  let! timestamps := getLastTimestamps ndebug 1 blockIndex true (s :: parent) in
  let! _ := assert_res ndebug (negb (Z.of_nat (length timestamps) =? 1)) in
  of_option Undefined (head timestamps).

(** The time stamps of the blocks [offset], [offset + 1], ..., [n] in number. *)
Fixpoint timestamps_from (offset : Z) (n : nat) (s : segment) (parent : cache) : res (list Z) :=
  match n with
  | O => Ok []
  | S n =>
    let! t := getBlockTimestampByIndex (u32 offset) s parent in
    let! ts := timestamps_from (offset + 1) n s parent in Ok (t :: ts)
  end.

Definition template_timestamp (now height : Z) (s : segment) (parent : cache) : res Z :=
  let blockchain_timestamp_check_window :=
    if height >=? LWMA_2_DIFFICULTY_BLOCK_INDEX then BLOCKCHAIN_TIMESTAMP_CHECK_WINDOW_V3 else BLOCKCHAIN_TIMESTAMP_CHECK_WINDOW in
  if height >=? blockchain_timestamp_check_window then
    let! timestamps := timestamps_from (height - blockchain_timestamp_check_window)
                         (Z.to_nat blockchain_timestamp_check_window) s parent in
    let medianTimestamp := medianValue timestamps in
    Ok (if now <? medianTimestamp then medianTimestamp else now)
  else Ok now.

Definition zero_hash : Hash := repeat 0 32.
Definition zero_prefix : TransactionPrefix := mkPrefix 0 0 [] [] [].

(** The versions and the parent block; [None] where the merge mining tag cannot be appended. *)
Definition template_header (majorVersion : Z) : option (Z * ParentBlock) :=
  let parentBlock := mkParentBlock 0 0 zero_hash 0 [] zero_prefix [] in
  if majorVersion =? BLOCK_MAJOR_VERSION_1 then
    Some (if upgradeHeight currency BLOCK_MAJOR_VERSION_2 =? u32 (-1) then BLOCK_MINOR_VERSION_1 else BLOCK_MINOR_VERSION_0, parentBlock)
  else if majorVersion >=? BLOCK_MAJOR_VERSION_2 then
    let minorVersion :=
      if upgradeHeight currency BLOCK_MAJOR_VERSION_3 =? u32 (-1)
      then if majorVersion =? BLOCK_MAJOR_VERSION_2 then BLOCK_MINOR_VERSION_1 else BLOCK_MINOR_VERSION_0
      else BLOCK_MINOR_VERSION_0 in
    (* parentBlock.majorVersion is assigned twice *)
    extra ← appendMergeMiningTagToExtra [] (mkTag 0 zero_hash);
    Some (minorVersion, mkParentBlock BLOCK_MINOR_VERSION_0 0 zero_hash 1 [] (mkPrefix 0 0 [] [] extra) [])
  else Some (0, parentBlock).

Definition with_extra (extra : BinaryArray) (tx : Transaction) : Transaction :=
  mkTransaction (mkPrefix (tx_version tx) (tx_unlockTime tx) (tx_inputs tx) (tx_outputs tx) extra) (tx_signatures tx).

(** The loop of the second phase: [build k size] is the k-th call of constructMinerTx. *)
Fixpoint fit_miner_tx (tries : nat) (build : nat -> Z -> Transaction -> res (option Transaction)) (k : nat)
    (transactionsSize cumulativeSize : Z) (tx : Transaction) : res (option Transaction) :=
  match tries with
  | O => Ok None
  | S tries =>
    let! r := build k cumulativeSize tx in
    match r with
    | None => Ok None
    | Some tx =>
      let coinbaseBlobSize := getObjectBinarySize tx in
      if coinbaseBlobSize >? u64 (cumulativeSize - transactionsSize) then
        fit_miner_tx tries build (S k) transactionsSize (u64 (transactionsSize + coinbaseBlobSize)) tx
      else if coinbaseBlobSize <? u64 (cumulativeSize - transactionsSize) then
        let delta := u64 (u64 (cumulativeSize - transactionsSize) - coinbaseBlobSize) in
        let tx := with_extra (tx_extra tx ++ repeat 0 (Z.to_nat delta)) tx in
        if negb (cumulativeSize =? u64 (transactionsSize + getObjectBinarySize tx)) then
          if negb (u64 (cumulativeSize + 1) =? u64 (transactionsSize + getObjectBinarySize tx)) then Ok None
          else
            let tx := with_extra (take (length (tx_extra tx) - 1) (tx_extra tx)) tx in
            if negb (cumulativeSize =? u64 (transactionsSize + getObjectBinarySize tx)) then
              fit_miner_tx tries build (S k) transactionsSize (u64 (cumulativeSize + u64 (delta - 1))) tx
            else Ok (Some tx)
        else Ok (Some tx)
      else if negb (cumulativeSize =? u64 (transactionsSize + getObjectBinarySize tx)) then Ok None
      else Ok (Some tx)
    end
  end.

Record block_template := mkTemplate {
  t_block : BlockTemplate;
  t_difficulty : Z;
  t_height : Z;
  t_filling : filling }.

(** For the main chain [s :: parent]; the pool is the second component. *)
Definition getBlockTemplate (rnd : nat -> list Z) (now : Z) (adr : AccountPublicAddress) (extraNonce : BinaryArray)
    (s : segment) (parent : cache) (pool : TransactionPoolCleanWrapper)
  : res (option block_template * TransactionPoolCleanWrapper) :=
  let! top := getTopBlockIndex ndebug s in
  let height := u32 (top + 1) in
  let! difficulty := core_getDifficultyForNextBlock s parent in
  if difficulty =? 0 then Ok (None, pool)
  else
    let majorVersion := UpgradeManager.getBlockMajorVersion height d in
    match template_header majorVersion with
    | None => Ok (None, pool)
    | Some (minorVersion, parentBlock) =>
      let! previousBlockHash := getTopBlockHash s in
      let! timestamp := template_timestamp now height s parent in
      let! limit := calculateCumulativeBlocksizeLimit height s parent in
      let medianSize := limit / 2 in
      let! alreadyGeneratedCoins := getAlreadyGeneratedCoins top (s :: parent) in
      let! f := fillBlockTemplate medianSize (maxBlockCumulativeSize currency height) height pool in
      let build k size tx := constructMinerTx ndebug currency (rnd k) majorVersion height medianSize alreadyGeneratedCoins size
                               (f_fee f) adr tx extraNonce 11 in
      let! r := build O (f_size f) (mkTransaction zero_prefix []) in
      match r with
      | None => Ok (None, f_pool f)
      | Some tx =>
        let! r := fit_miner_tx 10 build 1 (f_size f) (u64 (f_size f + getObjectBinarySize tx)) tx in
        Ok (tx ← r; Some (mkTemplate (mkBlockTemplate (mkBlockHeader majorVersion minorVersion 0 timestamp previousBlockHash)
              parentBlock tx (f_hashes f)) difficulty height f), f_pool f)
      end
    end.

(** Core::getBlockTemplate *)
Definition core_getBlockTemplate (rnd : nat -> list Z) (now : Z) (adr : AccountPublicAddress) (extraNonce : BinaryArray) (st : Core.Core)
  : res (option block_template * Core.Core) :=
  let! _ := Core.throwIfNotInitialized st in
  let! c := Core.main_cache st in
  let! r := getBlockTemplate rnd now adr extraNonce c.1 c.2 (Core.transactionPool st) in
  Ok (r.1, Core.with_pool r.2 st).
End Template.

End Mining.
