(* ===== verification/MiningSpec.v ===== *)
(** What block templates promise: the coinbase pays the miner exactly the reward of the block,
    the transactions fit, and the block passes the checks that addBlock makes of it. *)

From S2P Require Import Prelude.
From S2P Require Import Config.
From S2P Require Import Types.
From S2P Require Import Varint.
From S2P Require Import Keccak.
From S2P Require Import FormatUtils.
From S2P Require Import Currency.
From S2P Require Import TreeHash.
From S2P Require Import Serialization.
From S2P Require Import TransactionExtra.
From S2P Require Import Block.
From S2P Require Import PointCodec.
From S2P Require Import Crypto.
From S2P Require Import CryptoSpec.
From S2P Require Import CachedTransaction.
From S2P Require Import TransactionPool.
From S2P Require Import ChainRules.
From S2P Require Import BlockchainCache.
From S2P Require Import ChainView.
From S2P Require Import Validation.
From S2P Require Import ValidationSpec.
From S2P Require Import Ledger.
From S2P Require Import Core.
From S2P Require Import Mining.

Module MiningSpec.

Import parameters FormatUtils Currency Serialization TransactionExtra Crypto CryptoSpec CachedTransaction TransactionPool
  BlockchainCache ChainView Validation ValidationSpec Mining.

(** ** Amounts *)

Lemma decompose_loop_positive fuel : forall amount order dust thr handled, 0 <= dust ->
  Forall (fun p => 0 < part_amount p) (decompose_loop fuel amount order dust thr handled).
Proof.
  induction fuel as [|fuel IH]; intros amount order dust thr handled Hd; cbn [decompose_loop]; [constructor|].
  assert (HF : Forall (fun p => 0 < part_amount p) (if negb handled && negb (dust =? 0) then [Dust dust] else [])).
  { destruct handled, (Z.eqb_spec dust 0); cbn [negb andb]; [constructor..|]; apply Forall_singleton; simpl; lia. }
  destruct (amount =? 0); [done|]; destruct (_ <=? _); [apply IH, wrap_range; done|].
  apply Forall_app; split; [done|]; apply Forall_app; split; [|by apply IH].
  destruct (Z.eqb_spec (u64 (amount mod 10 * order)) 0); cbn [negb]; [constructor|]; apply Forall_singleton; simpl.
  pose proof (wrap_range 64 (amount mod 10 * order) ltac:(done)); unfold in_u in *; lia.
Qed.

Lemma decomposeAmount_positive amount thr : Forall (Z.lt 0) (decomposeAmount amount thr).
Proof.
  unfold decomposeAmount, decompose_amount_into_digits; destruct (amount =? 0); [constructor|].
  apply Forall_map; by apply decompose_loop_positive.
Qed.

Lemma positive_sum l : Forall (Z.lt 0) l -> 0 <= sumZ l.
Proof. intros H; apply sumZ_nonneg; eapply Forall_impl; [exact H|]; simpl; lia. Qed.

(** One turn of the loop. *)
Lemma merge_last_turn fuel maxOuts a x y : maxOuts < Z.of_nat (length (a ++ [x; y])) ->
  merge_last (S fuel) maxOuts (a ++ [x; y]) = merge_last fuel maxOuts (a ++ [u64 (x + y)]).
Proof.
  intros H; cbn [merge_last]; rewrite (proj2 (Z.ltb_lt _ _)) by done.
  replace (length (a ++ [x; y]) - 2)%nat with (length a) by (rewrite length_app; simpl; lia).
  replace (length (a ++ [x; y]) - 1)%nat with (S (length a)) by (rewrite length_app; simpl; lia).
  rewrite !app_nth2 by lia; replace (S (length a) - length a)%nat with 1%nat by lia; rewrite Nat.sub_diag; cbn [nth].
  f_equal; rewrite insert_app_r_alt, Nat.sub_diag by lia; cbn [insert list_insert].
  rewrite take_app, take_ge by lia; replace (S (length a) - length a)%nat with 1%nat by lia; done.
Qed.

Lemma merge_last_spec fuel : forall maxOuts l, 1 <= maxOuts -> (length l <= fuel + Z.to_nat maxOuts)%nat ->
  Forall (Z.lt 0) l -> sumZ l < 2 ^ 64 ->
  Forall (Z.lt 0) (merge_last fuel maxOuts l) /\ sumZ (merge_last fuel maxOuts l) = sumZ l /\
  Z.of_nat (length (merge_last fuel maxOuts l)) <= maxOuts.
Proof.
  induction fuel as [|fuel IH]; intros maxOuts l Hm Hl Hp Hs.
  { cbn [merge_last]; rewrite (proj2 (Z.ltb_ge _ _)) by lia; split_and!; [done..|lia]. }
  destruct (Z.ltb_spec maxOuts (Z.of_nat (length l))) as [H|H]; cycle 1.
  { cbn [merge_last]; rewrite (proj2 (Z.ltb_ge _ _)) by lia; split_and!; [done..|lia]. }
  destruct l as [|y l _] using rev_ind; [simpl in H; lia|]; destruct l as [|x a _] using rev_ind; [simpl in H; lia|].
  rewrite <- app_assoc in *; cbn [app] in *; rewrite merge_last_turn by done.
  rewrite Forall_app, !Forall_cons in Hp; destruct Hp as (Ha & Hx & Hy & _); pose proof (positive_sum _ Ha) as Hsa.
  rewrite sumZ_app in Hs |- *; cbn [sumZ foldr] in Hs |- *.
  assert (E : u64 (x + y) = x + y) by (apply wrap_small; unfold in_u; lia); rewrite E.
  destruct (IH maxOuts (a ++ [x + y])) as (H1 & H2 & H3); [done| | | |].
  - rewrite length_app in *; simpl in *; lia.
  - apply Forall_app; split; [done|]; constructor; [lia|constructor].
  - rewrite sumZ_app; cbn [sumZ foldr]; lia.
  - rewrite H2, sumZ_app; cbn [sumZ foldr]; split_and!; [done|lia|done].
Qed.

(** ** The miner transaction *)

Section Miner.
Context {FH : FastHash}.
Context (ndebug : bool) (currency : Currency).

(** The output at position [no] of a transaction with the public key [R] belongs to the account
    with the secret keys [v] and [s]: its owner finds the one-time public key, and knows its
    secret key. *)
Definition owned (R V v S s : list Z) (no : Z) (o : TransactionOutput) : Prop :=
  exists D P x, generate_key_derivation ndebug R v = Some (Some D) /\ o_target o = OutKey P /\
    derive_public_key D no S = Some (Some P) /\
    derive_secret_key ndebug D no s = Some x /\ secret_key_to_public_key x = Some (Some P).

Context (R r V v S s : list Z).
Hypothesis KR : key_pair R r.
Hypothesis KV : key_pair V v.
Hypothesis KS : key_pair S s.

Lemma public_key_point x P : scalar x -> secret_key_to_public_key x = Some (Some P) -> is_point P /\ wf_key P.
Proof.
  intros Hx E; destruct (key_pair_secret P x (proj1 Hx) E) as [_ HP]; split; [by eexists|].
  unfold key_of in HP; subst P; split; [apply PointCodec.encode_length|apply PointCodec.encode_bytes].
Qed.

Lemma miner_outputs_spec amounts : forall no sum, 0 <= no -> no + Z.of_nat (length amounts) < 2 ^ 64 ->
  exists outs, miner_outputs ndebug no amounts (mkAddress S V) r sum = Ok (Some (outs, fold_left (fun a x => u64 (a + x)) amounts sum)) /\
    map o_amount outs = amounts /\
    (forall k o, outs !! k = Some o -> owned R V v S s (no + Z.of_nat k) o) /\
    Forall (fun o => match o_target o with OutKey key => is_point key /\ wf_key key end) outs.
Proof.
  induction amounts as [|amount amounts IH]; intros no sum Hn Hl; cbn [miner_outputs fold_left length] in *.
  { exists []; split_and!; [done..|constructor]. }
  destruct (shared_derivation ndebug R r V v KR KV) as (D & E1 & E2).
  destruct (derivation_to_scalar_ok D no) as (h & Eh & Hh & _); [unfold in_u; lia|].
  destruct (one_time_keys ndebug _ _ _ _ Eh Hh KS) as (P & x & EP & _ & Ex & EK).
  cbn [viewPublicKey spendPublicKey]; rewrite E1; cbn [of_option rbind].
  unfold derive_public_key; rewrite EP; cbn [of_option rbind].
  destruct (IH (no + 1) (u64 (sum + amount))) as (outs & E & Hm & Ho & Hp); [lia..|].
  unfold derive_public_key in E; rewrite E; cbn [rbind mbind option_bind]; eexists; split; [reflexivity|]; split_and!.
  - simpl; by rewrite Hm.
  - intros [|k] o Hk; simpl in Hk.
    + injection Hk as <-; exists D, P, x; rewrite Z.add_0_r; split_and!; done.
    + replace (no + Z.of_nat (Datatypes.S k)) with (no + 1 + Z.of_nat k) by lia; by apply Ho.
  - constructor; [|done]; destruct (derive_secret_with_ok ndebug _ s h Eh Hh (proj1 KS)) as (x' & Ex' & Hx' & _).
    rewrite Ex in Ex'; injection Ex' as <-; by apply (public_key_point x).
Qed.
End Miner.

Section MinerTx.
Context {FH : FastHash}.
Context (ndebug : bool) (currency : Currency) (V v S s : list Z).
Hypothesis KV : key_pair V v.
Hypothesis KS : key_pair S s.
Hypothesis Hdust : in_u 64 (m_defaultDustThreshold currency).

(** The amounts of the outputs. *)
Definition miner_amounts (height reward maxOuts : Z) : list Z :=
  let l := decomposeAmount reward (defaultDustThreshold currency height) in merge_last (length l) maxOuts l.

(** A transaction that pays [reward] to the account in the block [height], in at most [maxOuts]
    outputs; [extra] follows the public key of the transaction. *)
Record pays (reward maxOuts height : Z) (extra : list Z) (tx : Transaction) : Prop := {
  pays_version : tx_version tx = CURRENT_TRANSACTION_VERSION;
  pays_input : tx_inputs tx = [InBase height];
  pays_unlock : tx_unlockTime tx = u32 (height + m_minedMoneyUnlockWindow currency);
  pays_total : outputs_total (tx_outputs tx) = reward;
  pays_count : Z.of_nat (length (tx_outputs tx)) <= maxOuts;
  pays_amounts : map o_amount (tx_outputs tx) = miner_amounts height reward maxOuts;
  pays_outputs : Forall good_output (tx_outputs tx) /\ Forall ok_output (tx_outputs tx);
  pays_owner : exists R, (exists r, key_pair R r) /\ tx_extra tx = TX_EXTRA_TAG_PUBKEY :: R ++ extra /\
    forall k o, tx_outputs tx !! k = Some o -> owned ndebug R V v S s (Z.of_nat k) o }.

Definition nonce_field (extraNonce : BinaryArray) : list Z :=
  match extraNonce with [] => [] | _ :: _ => TX_EXTRA_NONCE :: u8 (Z.of_nat (length extraNonce)) :: extraNonce end.

Lemma getBlockReward_range version median size coins fee reward e :
  getBlockReward ndebug currency version median size coins fee = Some (Some (reward, e)) -> in_u 64 reward.
Proof.
  unfold getBlockReward; destruct (negb _); [done|]; cbv zeta; destruct (_ >? _); [done|].
  destruct (getPenalizedAmount _ (base_reward _ _) _ _) as [pb|]; cbn [mbind option_bind]; [|done].
  destruct (if _ >=? _ then _ else _) as [pf|]; cbn [mbind option_bind]; [|done]; intros [= <- _]; by apply wrap_range.
Qed.

Lemma reward_amounts height reward maxOuts : in_u 64 reward -> 1 <= maxOuts ->
  let l := miner_amounts height reward maxOuts in Forall (Z.lt 0) l /\ sumZ l = reward /\ Z.of_nat (length l) <= maxOuts.
Proof.
  intros Hr Hm; unfold miner_amounts; set (l := decomposeAmount _ _); assert (Ht : in_u 64 (defaultDustThreshold currency height)).
  { unfold defaultDustThreshold; destruct (_ >=? _); [done|exact Hdust]. }
  pose proof (decomposeAmount_sum reward (defaultDustThreshold currency height) Hr Ht) as Es; fold l in Es.
  destruct (merge_last_spec (length l) maxOuts l Hm) as (H1 & H2 & H3); [lia|apply decomposeAmount_positive|unfold in_u in Hr; lia|].
  cbv zeta; rewrite H2; done.
Qed.

Lemma constructMinerTx_spec tmp version height median coins size fee tx extraNonce maxOuts reward e :
  random64 tmp -> Z.of_nat (length extraNonce) <= TX_EXTRA_NONCE_MAX_COUNT -> 1 <= maxOuts < 2 ^ 64 ->
  getBlockReward ndebug currency version median size coins fee = Some (Some (reward, e)) ->
  exists tx', constructMinerTx ndebug currency tmp version height median coins size fee (mkAddress S V) tx extraNonce maxOuts =
      Ok (Some tx') /\ pays reward maxOuts height (nonce_field extraNonce) tx' /\ tx_signatures tx' = tx_signatures tx.
Proof.
  intros Ht Hn Hm Er; pose proof (getBlockReward_range _ _ _ _ _ _ _ Er) as Hr.
  destruct (generate_keys_ok tmp Ht) as (R & r & EK & KR & _); unfold constructMinerTx; rewrite EK; cbn [of_option rbind fst snd].
  assert (EN : (match extraNonce with [] => Some (addTransactionPublicKeyToExtra [] R)
    | _ :: _ => addExtraNonceToTransactionExtra (addTransactionPublicKeyToExtra [] R) extraNonce end) =
    Some (TX_EXTRA_TAG_PUBKEY :: R ++ nonce_field extraNonce)).
  { unfold addTransactionPublicKeyToExtra, addExtraNonceToTransactionExtra, nonce_field; destruct extraNonce as [|b nonce]; [by rewrite app_nil_r|].
    rewrite Z.gtb_ltb, (proj2 (Z.ltb_ge _ _)) by done; done. }
  rewrite EN, Er; cbn [of_option rbind]; rewrite (proj2 (Z.leb_le _ _)) by lia; cbn [negb].
  destruct (reward_amounts height reward maxOuts Hr ltac:(lia)) as (H1 & H2 & H3).
  change (merge_last _ _ _) with (miner_amounts height reward maxOuts).
  set (l := miner_amounts height reward maxOuts) in *; destruct (miner_outputs_spec ndebug R r V v S s KR KV KS l 0 0) as (outs & E & Em & Ho & Hp); [lia..|].
  rewrite E; cbn [rbind]; change (fold_left _ l 0) with (fold_left (fun a x => u64 (a + id x)) l (u64 0)).
  rewrite fold_u64_total, Z.add_0_l, map_id, H2, wrap_small, Z.eqb_refl by done; cbn [negb].
  eexists; split; [reflexivity|]; split; [|done]; split; cbn [tx_prefix tx_version tx_inputs tx_unlockTime tx_outputs tx_extra]; try done.
  - unfold outputs_total; by rewrite Em.
  - by rewrite <- (length_map o_amount), Em.
  - assert (HA : Forall (fun o => 0 < o_amount o < 2 ^ 64) outs).
    { apply Forall_forall; intros o Hin; assert (Ha : o_amount o ∈ l) by (rewrite <- Em; by apply list_elem_of_fmap_2).
      destruct (list_elem_of_split _ _ Ha) as (l1 & l2 & El); rewrite El in H1, H2; rewrite Forall_app, Forall_cons in H1.
      destruct H1 as (P1 & P2 & P3); rewrite sumZ_app in H2; cbn [sumZ foldr] in H2.
      pose proof (positive_sum _ P1); pose proof (positive_sum _ P3) as P4; unfold sumZ in P4 at 1; unfold in_u in Hr; lia. }
    pose proof (proj2 (Forall_and _ _) (conj HA Hp)) as HB; split; (eapply Forall_impl; [exact HB|]); intros o [Ha Hk].
    + split; [lia|destruct (o_target o); apply Hk].
    + split; [unfold in_u; lia|destruct (o_target o); apply Hk].
  - exists R; split; [by exists r|]; split; [done|]; intros k o Hk; exact (Ho k o Hk).
Qed.
End MinerTx.

(** ** The size of the miner transaction *)

Lemma put_outputs_length outs : forall outs', map o_amount outs = map o_amount outs' -> Forall ok_output outs -> Forall ok_output outs' ->
  exists b b', wconcat (map put_TransactionOutput outs) = Ok b /\ wconcat (map put_TransactionOutput outs') = Ok b' /\ length b = length b'.
Proof.
  induction outs as [|[a [k]] outs IH]; intros [|[a' [k']] outs'] E H H'; try done; cbn [map wconcat]; [by exists [], []|].
  cbn [map o_amount] in E; injection E as <- E; apply Forall_cons in H as [[_ [Hk _]] H]; apply Forall_cons in H' as [[_ [Hk' _]] H'].
  cbn [o_target] in Hk, Hk'; destruct (IH outs' E H H') as (b & b' & -> & -> & Hb).
  unfold put_TransactionOutput, put_varint, put_binary, wseq; cbn [rbind o_amount o_target]; eexists _, _; split; [reflexivity|]; split; [reflexivity|].
  rewrite !length_app, Hb, Hk, Hk'; done.
Qed.

Lemma getObjectBinarySize_same (tx tx' : Transaction) h : tx_version tx = tx_version tx' -> tx_unlockTime tx = tx_unlockTime tx' ->
  tx_inputs tx = [InBase h] -> tx_inputs tx' = [InBase h] -> tx_signatures tx = [] -> tx_signatures tx' = [] ->
  map o_amount (tx_outputs tx) = map o_amount (tx_outputs tx') -> Forall ok_output (tx_outputs tx) -> Forall ok_output (tx_outputs tx') ->
  length (tx_extra tx) = length (tx_extra tx') -> getObjectBinarySize tx = getObjectBinarySize tx'.
Proof.
  intros Ev Eu Ei Ei' Es Es' Ea Ho Ho' Ex; destruct (put_outputs_length _ _ Ea Ho Ho') as (b & b' & Eb & Eb' & Hb).
  unfold getObjectBinarySize, put_Transaction, put_TransactionPrefix, put_vector, put_string, put_varint, wseq.
  rewrite Ev, Eu, Ei, Ei', Es, Es', Eb, Eb', Ex; cbn [rbind].
  replace (length (tx_outputs tx)) with (length (tx_outputs tx')) by (by rewrite <- (length_map o_amount), <- Ea, length_map).
  change (put_signatures [InBase h] []) with (Ok [] : writer).
  destruct (wconcat (map put_TransactionInput [InBase h])) as [bi|]; cbn [rbind]; [|done].
  rewrite !length_app, Hb, Ex; done.
Qed.

Lemma writeVarint_length i : in_u 64 i -> (length (Varint.writeVarint i) <= 10)%nat.
Proof. rewrite Varint.writeVarint_eq; apply varint64_length. Qed.

Lemma put_outputs_bound outs : Forall ok_output outs -> exists b, wconcat (map put_TransactionOutput outs) = Ok b /\
  (length b <= 43 * length outs)%nat.
Proof.
  induction outs as [|[a [k]] outs IH]; intros H; cbn [map wconcat]; [by exists []|].
  apply Forall_cons in H as [[Ha [Hk _]] H]; destruct (IH H) as (b & -> & Hb); pose proof (writeVarint_length a Ha) as Hv.
  unfold put_TransactionOutput, put_varint, put_binary, wseq; cbn [rbind o_amount o_target]; eexists; split; [reflexivity|].
  rewrite !length_app, Hk; cbn [length] in *; lia.
Qed.

Lemma miner_size_bound (tx : Transaction) h : in_u 64 (tx_version tx) -> in_u 64 (tx_unlockTime tx) -> in_u 64 h ->
  tx_inputs tx = [InBase h] -> tx_signatures tx = [] -> Forall ok_output (tx_outputs tx) -> Z.of_nat (length (tx_outputs tx)) <= 11 ->
  (length (tx_extra tx) <= 300)%nat -> 0 <= getObjectBinarySize tx <= 1000.
Proof.
  intros Hv Hu Hh Ei Es Ho Hl Hx; destruct (put_outputs_bound _ Ho) as (b & Eb & Hb).
  unfold getObjectBinarySize, put_Transaction, put_TransactionPrefix, put_vector, put_string, put_TransactionInput, put_varint, put_binary, wseq.
  rewrite Ei, Es, Eb; change (put_signatures [InBase h] []) with (Ok [] : writer); cbn [rbind map wconcat wseq].
  pose proof (writeVarint_length _ Hv); pose proof (writeVarint_length _ Hu); pose proof (writeVarint_length _ Hh).
  pose proof (writeVarint_length (Z.of_nat (length [InBase h])) ltac:(done)); pose proof (writeVarint_length (Z.of_nat (length (tx_outputs tx))) ltac:(unfold in_u; lia)).
  pose proof (writeVarint_length (Z.of_nat (length (tx_extra tx))) ltac:(unfold in_u; lia)).
  rewrite !length_app; cbn [length] in *; lia.
Qed.

Lemma reward_small (currency : Currency) version medianSize coins fee size : 0 <= size <= Z.max medianSize (blockGrantedFullRewardZoneByBlockVersion currency version) ->
  Z.max medianSize (blockGrantedFullRewardZoneByBlockVersion currency version) < 2 ^ 63 ->
  exists e,
    getBlockReward true currency version medianSize size coins fee = Some (Some (u64 (base_reward currency coins + fee), e)).
Proof.
  intros Hs HM; unfold getBlockReward; cbn [orb negb]; set (m := Z.max _ _) in *.
  rewrite Z.gtb_ltb, (proj2 (Z.ltb_ge _ _)) by (rewrite wrap_small by (unfold in_u; lia); lia).
  assert (HP : forall x, getPenalizedAmount true x m size = Some x).
  { intros x; unfold getPenalizedAmount; cbn [orb negb]; destruct (Z.eqb_spec x 0) as [->|_]; [done|].
    by rewrite (proj2 (Z.leb_le _ _)) by lia. }
  rewrite !HP; destruct (_ >=? _); by eexists.
Qed.

(** A release build computes a reward or finds the block too big, unless the lower 32 bits of a
    positive median are zero. *)
Lemma reward_release (currency : Currency) version medianSize coins fee size :
  let m := Z.max medianSize (blockGrantedFullRewardZoneByBlockVersion currency version) in
  0 <= m < 2 ^ 63 -> (0 < m -> u32 m <> 0) -> getBlockReward true currency version medianSize size coins fee <> None.
Proof.
  intros m Hm Hd; unfold getBlockReward; cbn [orb negb]; fold m; cbv zeta; destruct (Z.gtb_spec size (u64 (2 * m))) as [|Hle]; [done|].
  rewrite wrap_small in Hle by (unfold in_u; lia); assert (HP : 0 < u32 m \/ size <= m).
  { destruct (Z.eq_dec m 0) as [->|]; [right; lia|]; left; pose proof (wrap_range 32 m ltac:(done)) as Hw; unfold in_u in Hw; lia. }
  pose proof (fun x => getPenalizedAmount_release x m size HP) as H.
  destruct (getPenalizedAmount true (base_reward _ _) m size) eqn:E; [|by apply H in E]; cbn [mbind option_bind].
  destruct (_ >=? _); [|done]; destruct (getPenalizedAmount true fee m size) eqn:E'; [done|by apply H in E'].
Qed.

Lemma pays_extra_length {FH : FastHash} ndebug currency V v S s reward height x tx : pays ndebug currency V v S s reward 11 height x tx -> length (tx_extra tx) = (33 + length x)%nat.
Proof.
  intros P; destruct (pays_owner _ _ _ _ _ _ _ _ _ _ _ P) as (R & [r [_ HR]] & -> & _); cbn [length]; rewrite length_app.
  unfold key_of in HR; rewrite HR, PointCodec.encode_length; lia.
Qed.

Section Fit.
Context {FH : FastHash}.
Context (ndebug : bool) (currency : Currency) (V v S s : list Z).
Hypothesis KV : key_pair V v.
Hypothesis KS : key_pair S s.
Hypothesis Hdust : in_u 64 (m_defaultDustThreshold currency).
Context (rnd : nat -> list Z) (version height medianSize coins fee : Z) (extraNonce : BinaryArray).
Hypothesis Hrnd : forall k, random64 (rnd k).
Hypothesis Hnonce : Z.of_nat (length extraNonce) <= TX_EXTRA_NONCE_MAX_COUNT.
Hypothesis Hdef : forall size, getBlockReward ndebug currency version medianSize size coins fee <> None.

Abbreviation pays := (pays ndebug currency V v S s).
Abbreviation build := (fun k size tx => constructMinerTx ndebug currency (rnd k) version height medianSize coins size fee (mkAddress S V) tx
  extraNonce 11).
Abbreviation reward_of size := (getBlockReward ndebug currency version medianSize size coins fee).

Lemma build_cases k size tx : tx_signatures tx = [] ->
  (reward_of size = Some None /\ build k size tx = Ok None) \/
  (exists reward e tx', reward_of size = Some (Some (reward, e)) /\ build k size tx = Ok (Some tx') /\
     pays reward 11 height (nonce_field extraNonce) tx' /\ tx_signatures tx' = []).
Proof.
  intros Es; destruct (reward_of size) as [[[reward e]|]|] eqn:Er; [| |by apply Hdef in Er].
  - right; destruct (constructMinerTx_spec ndebug currency V v S s KV KS Hdust (rnd k) version height medianSize coins size fee tx extraNonce 11
      reward e (Hrnd k) Hnonce ltac:(done) Er) as (tx' & E & P & Es'); exists reward, e, tx'; by rewrite Es' .
  - left; split; [done|]; cbn beta; unfold constructMinerTx; destruct (generate_keys_ok (rnd k) (Hrnd k)) as (R & r & -> & _); cbn [of_option rbind fst].
    destruct (match extraNonce with [] => _ | _ => _ end); [by rewrite Er|done].
Qed.

Lemma pays_pad reward maxOuts x tx n : pays reward maxOuts height x tx ->
  pays reward maxOuts height (x ++ repeat 0 n) (with_extra (tx_extra tx ++ repeat 0 n) tx).
Proof.
  intros [P1 P2 P3 P4 P5 P6 P7 (R & KR & E & Ho)]; split; try done; exists R; split; [done|]; split; [|exact Ho].
  cbn [tx_extra with_extra tx_prefix]; rewrite E; cbn [app]; by rewrite <- app_assoc.
Qed.

Lemma trim_zeros (l : list Z) n : (0 < n)%nat ->
  take (length (l ++ repeat 0 n) - 1) (l ++ repeat 0 n) = l ++ repeat 0 (n - 1).
Proof.
  intros Hn; rewrite length_app, repeat_length, take_app; replace (length l + n - 1 - length l)%nat with (n - 1)%nat by lia.
  rewrite take_ge by lia; f_equal; replace n with (n - 1 + 1)%nat at 2 by lia; rewrite repeat_app, take_app_le, take_ge by (rewrite repeat_length; lia); done.
Qed.

(** A transaction that fits: it pays the reward of a block of exactly its size. *)
Definition fitting (transactionsSize : Z) (tx : Transaction) : Prop := exists reward e n,
  reward_of (u64 (transactionsSize + getObjectBinarySize tx)) = Some (Some (reward, e)) /\
  pays reward 11 height (nonce_field extraNonce ++ repeat 0 n) tx /\ tx_signatures tx = [].

Lemma fit_miner_tx_spec tries : forall k transactionsSize cumulativeSize tx, tx_signatures tx = [] ->
  exists r, fit_miner_tx tries build k transactionsSize cumulativeSize tx = Ok r /\
    match r with Some tx' => fitting transactionsSize tx' | None => True end.
Proof.
  induction tries as [|tries IH]; intros k transactionsSize cumulativeSize tx Es; cbn [fit_miner_tx]; [by eexists|].
  destruct (build_cases k cumulativeSize tx Es) as [[_ ->]|(reward & e & tx1 & Er & -> & P & Es1)]; cbn [rbind]; [by eexists|].
  destruct (_ >? _); [by apply IH|]; destruct (Z.ltb_spec (getObjectBinarySize tx1) (u64 (cumulativeSize - transactionsSize))) as [Hlt|Hge].
  - set (delta := u64 (_ - _)).
    assert (Hd : 0 < delta).
    { unfold delta; rewrite wrap_small; [lia|]; pose proof (wrap_range 64 (cumulativeSize - transactionsSize) ltac:(done)) as Hw.
      assert (0 <= getObjectBinarySize tx1) by (unfold getObjectBinarySize; destruct (put_Transaction tx1); lia); unfold in_u in *; lia. }
    pose proof (pays_pad reward 11 (nonce_field extraNonce) tx1 (Z.to_nat delta) P) as P2.
    set (tx2 := with_extra (tx_extra tx1 ++ repeat 0 (Z.to_nat delta)) tx1) in *.
    destruct (Z.eqb_spec cumulativeSize (u64 (transactionsSize + getObjectBinarySize tx2))) as [E2|_]; cbn [negb].
    { eexists; split; [reflexivity|]; exists reward, e, (Z.to_nat delta); rewrite <- E2; done. }
    destruct (negb _); [by eexists|].
    pose proof (pays_pad reward 11 (nonce_field extraNonce) tx1 (Z.to_nat delta - 1) P) as P3.
    set (tx3 := with_extra (tx_extra tx1 ++ repeat 0 (Z.to_nat delta - 1)) tx1) in *.
    assert (ET : with_extra (take (length (tx_extra tx2) - 1) (tx_extra tx2)) tx2 = tx3).
    { unfold tx2; cbn [tx_extra with_extra tx_prefix]; rewrite trim_zeros by lia; done. }
    rewrite ET.
    destruct (Z.eqb_spec cumulativeSize (u64 (transactionsSize + getObjectBinarySize tx3))) as [E3|_]; cbn [negb]; [|by apply IH].
    exists (Some tx3); split; [done|]; exists reward, e, (Z.to_nat delta - 1)%nat; rewrite <- E3; done.
  - destruct (Z.eqb_spec cumulativeSize (u64 (transactionsSize + getObjectBinarySize tx1))) as [E1|_]; cbn [negb]; [|by eexists].
    eexists; split; [reflexivity|]; exists reward, e, O; rewrite <- E1, app_nil_r; done.
Qed.

(** *** Success *)

Lemma fit_miner_tx_first tries k transactionsSize tx reward e : tx_signatures tx = [] -> 0 <= transactionsSize ->
  transactionsSize + getObjectBinarySize tx < 2 ^ 64 -> pays reward 11 height (nonce_field extraNonce) tx ->
  reward_of (u64 (transactionsSize + getObjectBinarySize tx)) = Some (Some (reward, e)) ->
  exists tx', fit_miner_tx (Datatypes.S tries) build k transactionsSize (u64 (transactionsSize + getObjectBinarySize tx)) tx = Ok (Some tx').
Proof.
  intros Es H0 Hb P Er; cbn [fit_miner_tx].
  destruct (build_cases k (u64 (transactionsSize + getObjectBinarySize tx)) tx Es) as [[E _]|(reward' & e' & tx' & Er' & -> & P' & Es')]; [by rewrite Er in E|].
  rewrite Er in Er'; injection Er' as <- <-; cbn [rbind].
  assert (EZ : getObjectBinarySize tx' = getObjectBinarySize tx).
  { apply (getObjectBinarySize_same tx' tx height).
    - by rewrite (pays_version _ _ _ _ _ _ _ _ _ _ _ P), (pays_version _ _ _ _ _ _ _ _ _ _ _ P').
    - by rewrite (pays_unlock _ _ _ _ _ _ _ _ _ _ _ P), (pays_unlock _ _ _ _ _ _ _ _ _ _ _ P').
    - apply P'.
    - apply P.
    - done.
    - done.
    - by rewrite (pays_amounts _ _ _ _ _ _ _ _ _ _ _ P), (pays_amounts _ _ _ _ _ _ _ _ _ _ _ P').
    - apply P'.
    - apply P.
    - by rewrite (pays_extra_length _ _ _ _ _ _ _ _ _ _ P), (pays_extra_length _ _ _ _ _ _ _ _ _ _ P'). }
  assert (Hz : 0 <= getObjectBinarySize tx) by (unfold getObjectBinarySize; destruct (put_Transaction tx); lia).
  rewrite EZ, (wrap_small 64 (transactionsSize + getObjectBinarySize tx)) by (unfold in_u; lia).
  rewrite Z.add_simpl_l, wrap_small by (unfold in_u; lia); rewrite Z.gtb_ltb, Z.ltb_irrefl, Z.eqb_refl; by eexists.
Qed.
End Fit.

(** ** The transactions of a template *)

Lemma haveSpentInputs_spec inputs : forall images,
  match haveSpentInputs inputs images with
  | (true, images') => images ⊆ images'
  | (false, images') => let new := key_images inputs in
      NoDup new /\ list_to_set new ## images /\ images' = list_to_set new ∪ images
  end.
Proof.
  induction inputs as [|[b|k] inputs IH]; intros images; cbn [haveSpentInputs].
  - simpl; split_and!; [constructor|set_solver|set_solver].
  - apply IH.
  - case_bool_decide as Hk; [done|]; specialize (IH ({[ki_keyImage k]} ∪ images)); destruct (haveSpentInputs _ _) as [[] images'].
    + set_solver.
    + destruct IH as (H1 & H2 & H3); cbn [key_images omap list_omap]; split_and!.
      * constructor; [|done]; intros Hin; apply (H2 (ki_keyImage k)); [by apply elem_of_list_to_set|set_solver].
      * set_solver.
      * rewrite H3; set_solver.
Qed.

Section Fill.
Context {FH : FastHash}.
Context (ndebug : bool) (currency : Currency) (height medianSize maxCumulativeSize : Z) (pool : TransactionPoolCleanWrapper).

Abbreviation candidates := (getPoolTransactions (transactionPool pool)).

Definition maxTotalSize : Z := u64 (Z.min (u64 (125 * medianSize) / 100) maxCumulativeSize - m_minerTxBlobReservedSize currency).
(** The largest of the three limits on the size of the transactions. *)
Definition size_limit : Z := Z.max (m_fusionTxMaxSize currency) (Z.max medianSize maxTotalSize).

(** The transactions [sel] have been taken. *)
Record taken (f : filling) (sel : list CachedTransaction) : Prop := {
  taken_hashes : f_hashes f = map getTransactionHash sel;
  taken_size : f_size f = sumZ (map blobSize sel);
  taken_fee : f_fee f = u64 (sumZ (map getTransactionFee sel));
  taken_limit : f_size f <= size_limit;
  taken_spent : list_to_set (all_images sel) ⊆ f_spent f;
  taken_once : NoDup (all_images sel);
  taken_valid : Forall (fun c => validateBlockTemplateTransaction c height = true) sel;
  taken_from : Forall (fun c => c ∈ candidates) sel;
  taken_pool : pool_inv (transactionPool (f_pool f)) }.

Hypothesis HI : pool_inv (transactionPool pool).
Hypothesis Hlimit : 0 <= m_fusionTxMaxSize currency.
Hypothesis Hsizes : Forall (fun c => size_limit + blobSize c < 2 ^ 64) candidates.

Lemma wrapper_remove_total hash w : pool_inv (transactionPool w) ->
  exists w', wrapper_removeTransaction ndebug hash w = Ok w' /\ pool_inv (transactionPool w').
Proof.
  intros Hw; pose proof (removeTransaction_spec ndebug hash _ Hw) as H; unfold wrapper_removeTransaction.
  destruct (find_hash hash _); [destruct H as [-> H]|rewrite H]; cbn [of_option rbind snd]; by eexists.
Qed.

Lemma take_transaction_spec c fee f sel : taken f sel -> c ∈ candidates -> fee = getTransactionFee c -> f_size f + blobSize c <= size_limit ->
  exists f' sel', take_transaction ndebug height fee c f = Ok f' /\ taken f' sel'.
Proof.
  intros [T1 T2 T3 T4 T5 T6 T7 T8 T9] Hc -> Hl; unfold take_transaction.
  destruct (validateBlockTemplateTransaction c height) eqn:Ev; cbn [negb]; cycle 1.
  { destruct (wrapper_remove_total (getTransactionHash c) _ T9) as (w & -> & Hw); cbn [rbind]; eexists _, sel; split; [reflexivity|]; by split. }
  pose proof (haveSpentInputs_spec (tx_inputs (ct_transaction c)) (f_spent f)) as H; destruct (haveSpentInputs _ _) as [[] images].
  { eexists _, sel; split; [reflexivity|]; split; try done; cbn [f_spent]; set_solver. }
  destruct H as (N1 & N2 & N3); change (key_images (tx_inputs (ct_transaction c))) with (images_of c) in N1, N2, N3.
  assert (EA : all_images (sel ++ [c]) = all_images sel ++ images_of c).
  { unfold all_images; rewrite map_app, concat_app; cbn [map concat]; by rewrite app_nil_r. }
  assert (Hb : 0 <= f_size f + blobSize c < 2 ^ 64).
  { rewrite Forall_forall in Hsizes; pose proof (Hsizes c Hc); split; [|lia]; rewrite T2.
    apply Z.add_nonneg_nonneg; [apply sumZ_nonneg, Forall_map, Forall_true; intros x|]; unfold blobSize; lia. }
  eexists _, (sel ++ [c]); split; [reflexivity|]; split; cbn [f_hashes f_size f_fee f_spent f_pool].
  - by rewrite map_app, T1.
  - rewrite map_app, sumZ_app, wrap_small by done; rewrite T2; simpl; lia.
  - rewrite map_app, sumZ_app, T3; simpl; unfold wrap; rewrite Zplus_mod_idemp_l; f_equal; lia.
  - rewrite wrap_small by done; lia.
  - rewrite EA, list_to_set_app_L, N3; set_solver.
  - rewrite EA; apply NoDup_app; split_and!; [done| |done]; intros x Hx Hx'; apply (N2 x); [by apply elem_of_list_to_set|].
    apply T5; by apply elem_of_list_to_set.
  - apply Forall_app; split; [done|]; by apply Forall_singleton.
  - apply Forall_app; split; [done|]; by apply Forall_singleton.
  - done.
Qed.

Lemma fits_small f sel c limit : taken f sel -> c ∈ candidates -> limit <= size_limit -> (limit <? u64 (f_size f + blobSize c)) = false ->
  f_size f + blobSize c <= size_limit.
Proof.
  intros T Hc Hl H; apply Z.ltb_ge in H; rewrite wrap_small in H; [lia|]; rewrite Forall_forall in Hsizes; pose proof (Hsizes c Hc).
  split; [|pose proof (taken_limit _ _ T); lia]; rewrite (taken_size _ _ T).
  apply Z.add_nonneg_nonneg; [apply sumZ_nonneg, Forall_map, Forall_true; intros x|]; unfold blobSize; lia.
Qed.

Lemma fill_fusion_spec cs : forall f sel, Forall (fun c => c ∈ candidates) cs -> taken f sel ->
  exists f' sel', fill_fusion ndebug currency height cs f = Ok f' /\ taken f' sel'.
Proof.
  induction cs as [|c cs IH]; intros f sel Hc T; cbn [fill_fusion]; [by exists f, sel|]; apply Forall_cons in Hc as [Hc Hcs].
  destruct (Z.eqb_spec (getTransactionFee c) 0) as [E|_]; cbn [negb]; [|by exists f, sel].
  destruct (_ <? _) eqn:El; [by apply (IH f sel)|]; apply (fits_small f sel c _ T Hc) in El; [|unfold size_limit; lia].
  destruct (take_transaction_spec c 0 f sel T Hc ltac:(done) El) as (f' & sel' & -> & T'); cbn [rbind]; by apply (IH f' sel').
Qed.

Lemma fill_all_spec cs : forall f sel, Forall (fun c => c ∈ candidates) cs -> taken f sel ->
  exists f' sel', fill_all ndebug height medianSize maxTotalSize cs f = Ok f' /\ taken f' sel'.
Proof.
  induction cs as [|c cs IH]; intros f sel Hc T; cbn [fill_all]; [by exists f, sel|]; apply Forall_cons in Hc as [Hc Hcs].
  destruct (_ <? _) eqn:El; [by apply (IH f sel)|].
  apply (fits_small f sel c _ T Hc) in El; [|unfold size_limit; destruct (_ =? _); lia].
  destruct (take_transaction_spec c _ f sel T Hc eq_refl El) as (f' & sel' & -> & T'); cbn [rbind]; by apply (IH f' sel').
Qed.

Lemma fillBlockTemplate_spec : exists f sel,
  fillBlockTemplate ndebug currency medianSize maxCumulativeSize height pool = Ok f /\ taken f sel.
Proof.
  assert (HC : Forall (fun c => c ∈ candidates) candidates) by (apply Forall_forall; done).
  assert (T0 : taken (mkFilling [] 0 0 ∅ pool) []).
  { split; try done; [unfold size_limit; cbn; lia|apply NoDup_nil_2|constructor..]. }
  destruct (fill_fusion_spec (rev candidates) _ [] ltac:(by apply Forall_rev) T0) as (f & sel & E & T).
  unfold fillBlockTemplate; rewrite E; cbn [rbind]; destruct (fill_all_spec candidates f sel HC T) as (f' & sel' & E' & T').
  by exists f', sel'.
Qed.
End Fill.

(** ** What a template takes from the chain *)

Section Chain.
Context (currency : Currency) (d : UpgradeManager.detectors) (s : segment) (parent : cache).
Hypothesis W : wf_cache (s :: parent).
Hypothesis Hs : blockInfos s <> [].

Abbreviation chain := (infos (s :: parent)).
Abbreviation next := (height (s :: parent)).

Lemma next_range : 0 < next < 2 ^ 32.
Proof. pose proof (proj2 (wf_parent_top _ _ W Hs)) as H; rewrite (height_cons _ _ (proj1 W)) in *; pose proof (seg_bound _ _ (proj1 W)); lia. Qed.

Lemma chain_top_index ndebug : getTopBlockIndex ndebug s = Ok (next - 1).
Proof.
  unfold getTopBlockIndex, assert_res; rewrite bool_decide_eq_true_2, orb_true_r by done; cbn [rbind]; by rewrite (proj1 (wf_parent_top _ _ W Hs)).
Qed.

Lemma last_units_true {A} (l : list A) w : 0 <= w <= Z.of_nat (length l) ->
  last_units w (Z.of_nat (length l) - 1) true l = drop (Z.to_nat (Z.of_nat (length l) - w)) l.
Proof.
  intros Hw; unfold last_units; cbn [negb andb]; rewrite (take_ge l) by lia; f_equal; lia.
Qed.

(** The same window with and without the genesis block, if it does not reach it. *)
Lemma last_units_genesis {A} (l : list A) w i b : w <= i -> last_units w i b l = last_units w i true l.
Proof.
  intros Hw; unfold last_units; destruct b; cbn [negb andb]; [done|]; rewrite (proj2 (Z.eqb_neq _ _)) by lia; done.
Qed.

Lemma timestamp_at i : 0 <= i < next ->
  exists info, at_index chain i = Some info /\ getBlockTimestampByIndex true i s parent = Ok (bi_timestamp info).
Proof.
  intros Hi; destruct (proj2 (at_index_range chain i)) as [info E]; [exact Hi|]; exists info; split; [done|].
  unfold getBlockTimestampByIndex; rewrite chain_top_index; cbn [rbind assert_res orb]; unfold getLastTimestamps.
  rewrite getLastUnits_chain by (done || lia); cbn [rbind]; unfold at_index in E; rewrite (proj2 (Z.ltb_ge _ _)) in E by lia.
  unfold last_units; cbn [negb andb]; replace (i + 1 - Z.min 1 (i + 1)) with i by lia; replace (Z.to_nat (i + 1)) with (Datatypes.S (Z.to_nat i)) by lia.
  rewrite (take_S_r _ _ _ E), drop_app_length' by (rewrite length_take; apply lookup_lt_Some in E; lia); done.
Qed.

Lemma timestamps_from_spec n : forall offset, 0 <= offset -> offset + Z.of_nat n <= next ->
  timestamps_from true offset n s parent = Ok (map bi_timestamp (take n (drop (Z.to_nat offset) chain))).
Proof.
  pose proof next_range as Hn; induction n as [|n IH]; intros offset H0 H1; [done|]; cbn [timestamps_from].
  rewrite wrap_small by (unfold in_u; lia); destruct (timestamp_at offset ltac:(lia)) as (info & E & ->); cbn [rbind].
  rewrite IH by lia; cbn [rbind]; unfold at_index in E; rewrite (proj2 (Z.ltb_ge _ _)) in E by lia.
  rewrite (drop_S _ _ _ E); cbn [take map]; replace (Z.to_nat (offset + 1)) with (Datatypes.S (Z.to_nat offset)) by lia; done.
Qed.

(** The window of getBlockTemplate. *)
Definition template_window (height : Z) : Z :=
  if height >=? LWMA_2_DIFFICULTY_BLOCK_INDEX then BLOCKCHAIN_TIMESTAMP_CHECK_WINDOW_V3 else BLOCKCHAIN_TIMESTAMP_CHECK_WINDOW.

Lemma template_timestamp_spec now : exists t, template_timestamp true now next s parent = Ok t /\ now <= t /\
  (template_window next <= next -> medianValue (map bi_timestamp (last_units (template_window next) (next - 1) true chain)) <= t) /\
  (t = now \/ t = medianValue (map bi_timestamp (last_units (template_window next) (next - 1) true chain))).
Proof.
  unfold template_timestamp; change (if next >=? LWMA_2_DIFFICULTY_BLOCK_INDEX then _ else _) with (template_window next).
  assert (Hw : 0 <= template_window next) by (unfold template_window; by destruct (_ >=? _)).
  rewrite Z.geb_leb; destruct (Z.leb_spec (template_window next) next) as [H|H]; cycle 1.
  { exists now; split_and!; [done|lia|lia|by left]. }
  rewrite timestamps_from_spec by lia; cbn [rbind].
  assert (E : take (Z.to_nat (template_window next)) (drop (Z.to_nat (next - template_window next)) chain) =
    last_units (template_window next) (next - 1) true chain).
  { unfold height in *; rewrite last_units_true by lia; rewrite take_ge by (rewrite length_drop; lia); done. }
  rewrite E; eexists; split; [reflexivity|]; destruct (Z.ltb_spec now (medianValue (map bi_timestamp (last_units (template_window next) (next - 1) true chain))));
    split_and!; lia.
Qed.

Lemma calculateCumulativeBlocksizeLimit_spec ndebug h : 0 <= m_rewardBlocksWindow currency ->
  calculateCumulativeBlocksizeLimit ndebug currency d h s parent =
    Ok (u64 (2 * Z.max (medianValue (map bi_blockSize (last_units (m_rewardBlocksWindow currency) (next - 1) false chain)))
      (blockGrantedFullRewardZoneByBlockVersion currency (UpgradeManager.getBlockMajorVersion h d)))).
Proof.
  intros Hw; unfold calculateCumulativeBlocksizeLimit; rewrite chain_top_index; cbn [rbind]; unfold getLastBlocksSizes.
  pose proof next_range; rewrite getLastUnits_chain by (done || lia); cbn [rbind]; do 2 f_equal.
  destruct (Z.leb_spec (medianValue (map bi_blockSize (last_units (m_rewardBlocksWindow currency) (next - 1) false chain)))
    (blockGrantedFullRewardZoneByBlockVersion currency (UpgradeManager.getBlockMajorVersion h d))); lia.
Qed.

Lemma top_hash : exists info, at_index chain (next - 1) = Some info /\ getTopBlockHash s = Ok (bi_blockHash info) /\
  getBlockIndex (bi_blockHash info) s = Ok (next - 1).
Proof.
  unfold getTopBlockHash; destruct (last (blockInfos s)) as [info|] eqn:El; [|by apply last_None in El]; exists info.
  pose proof (seg_start _ _ (proj1 W)) as Es; unfold height in *; cbn [infos] in *; rewrite length_app in *.
  apply last_Some in El as [l El]; split_and!; [|done|].
  - rewrite El, app_assoc; unfold at_index; rewrite !length_app; cbn [length].
    rewrite (proj2 (Z.ltb_ge _ _)) by lia; apply list_lookup_middle; rewrite length_app; lia.
  - pose proof (seg_hashes _ _ (proj1 W)) as Hn; rewrite El, map_app, NoDup_app in Hn; destruct Hn as (_ & Hn & _).
    unfold getBlockIndex; rewrite El, list_find_app_r.
    + cbn [list_find]; rewrite decide_True by done; simpl; rewrite length_app; simpl; f_equal; lia.
    + apply list_find_None, Forall_forall; intros x Hx Ex; apply (Hn (bi_blockHash x)); [by apply list_elem_of_fmap_2|].
      rewrite Ex; apply list_elem_of_here.
Qed.
End Chain.

(** ** The template *)

Section Template.
Context {FH : FastHash}.
Context (currency : Currency) (d : UpgradeManager.detectors) (s : segment) (parent : cache).
Context (V v S sec : list Z) (rnd : nat -> list Z) (now : Z) (extraNonce : BinaryArray) (pool : TransactionPoolCleanWrapper).

Abbreviation chain := (infos (s :: parent)).
Abbreviation next := (height (s :: parent)).

Definition next_version : Z := UpgradeManager.getBlockMajorVersion next d.
(** The median of the block sizes, or the zone of full reward. *)
Definition next_median : Z :=
  Z.max (medianValue (map bi_blockSize (last_units (m_rewardBlocksWindow currency) (next - 1) false chain)))
    (blockGrantedFullRewardZoneByBlockVersion currency next_version).

Abbreviation pays := (pays true currency V v S sec).
Abbreviation fill := (fillBlockTemplate true currency next_median (maxBlockCumulativeSize currency next) next pool).
Abbreviation getTemplate := (getBlockTemplate true currency d rnd now (mkAddress S V) extraNonce s parent pool).

(** What a miner, the pool, the chain and the currency have to satisfy. *)
Record mineable : Prop := {
  mine_chain : wf_cache (s :: parent) /\ blockInfos s <> [];
  mine_keys : key_pair V v /\ key_pair S sec;
  mine_random : forall k, random64 (rnd k);
  mine_nonce : Z.of_nat (length extraNonce) <= TX_EXTRA_NONCE_MAX_COUNT;
  mine_currency : in_u 64 (m_defaultDustThreshold currency) /\ 0 <= m_rewardBlocksWindow currency /\
    0 <= m_fusionTxMaxSize currency;
  mine_median : 0 <= next_median < 2 ^ 63 /\ (0 < next_median -> u32 next_median <> 0);
  mine_pool : pool_inv (transactionPool pool);
  mine_sizes : Forall (fun c => size_limit currency next_median (maxBlockCumulativeSize currency next) + blobSize c < 2 ^ 64)
    (getPoolTransactions (transactionPool pool)) }.

(** A template on top of the chain: [sel] are its transactions, [info] is the top block, and the
    coinbase pays exactly the reward of a block of its size. *)
Record template_ok (t : block_template) (sel : list CachedTransaction) (info : CachedBlockInfo) (reward e : Z) (n : nat) : Prop := {
  tok_height : t_height t = next;
  tok_top : at_index chain (next - 1) = Some info;
  tok_previous : bh_previousBlockHash (t_block t) = bi_blockHash info;
  tok_version : bh_majorVersion (t_block t) = next_version;
  tok_parent : exists minor, template_header currency next_version = Some (minor, bt_parentBlock (t_block t));
  tok_time : template_timestamp true now next s parent = Ok (bh_timestamp (t_block t));
  tok_taken : taken currency next next_median (maxBlockCumulativeSize currency next) pool (t_filling t) sel;
  tok_hashes : bt_transactionHashes (t_block t) = map getTransactionHash sel;
  tok_reward : getBlockReward true currency next_version next_median
    (u64 (sumZ (map blobSize sel) + getObjectBinarySize (bt_baseTransaction (t_block t)))) (bi_alreadyGeneratedCoins info)
    (u64 (sumZ (map getTransactionFee sel))) = Some (Some (reward, e));
  tok_coinbase : pays reward 11 next (nonce_field extraNonce ++ repeat 0 n) (bt_baseTransaction (t_block t));
  tok_signatures : tx_signatures (bt_baseTransaction (t_block t)) = [] }.

Hypothesis M : mineable.

Lemma template_header_total : exists minor pb, template_header currency next_version = Some (minor, pb).
Proof.
  unfold template_header; destruct (_ =? _); [by eexists _, _|]; destruct (_ >=? _); [|by eexists _, _].
  assert (E : exists x, appendMergeMiningTagToExtra [] (mkTag 0 zero_hash) = Some x) by (eexists; vm_compute; reflexivity).
  destruct E as [x ->]; by eexists _, _.
Qed.

Lemma next_block_range : 0 < next < 2 ^ 32 /\ u32 (next - 1 + 1) = next.
Proof.
  destruct (mine_chain M) as [W Hs]; pose proof (next_range s parent W Hs); split; [done|]; rewrite wrap_small by (unfold in_u; lia); lia.
Qed.

(** The steps before the coinbase. *)
Lemma getBlockTemplate_steps difficulty : core_getDifficultyForNextBlock true currency d s parent = Ok difficulty -> difficulty <> 0 ->
  exists minor pb info timestamp f sel, template_header currency next_version = Some (minor, pb) /\
    at_index chain (next - 1) = Some info /\ template_timestamp true now next s parent = Ok timestamp /\ fill = Ok f /\
    taken currency next next_median (maxBlockCumulativeSize currency next) pool f sel /\
    getTemplate =
      let build := (fun k size tx => constructMinerTx true currency (rnd k) next_version next next_median (bi_alreadyGeneratedCoins info) size
        (f_fee f) (mkAddress S V) tx extraNonce 11) in
      let! r := build O (f_size f) (mkTransaction zero_prefix []) in
      match r with
      | None => Ok (None, f_pool f)
      | Some tx =>
        let! r := fit_miner_tx 10 build 1 (f_size f) (u64 (f_size f + getObjectBinarySize tx)) tx in
        Ok (tx ← r; Some (mkTemplate (mkBlockTemplate (mkBlockHeader next_version minor 0 timestamp (bi_blockHash info))
              pb tx (f_hashes f)) difficulty next f), f_pool f)
      end.
Proof.
  intros Ed Hd; destruct (mine_chain M) as [W Hs]; destruct next_block_range as [Hn En]; destruct template_header_total as (minor & pb & EH).
  destruct (top_hash s parent W Hs) as (info & Ea & Eh & _); destruct (template_timestamp_spec s parent W Hs now) as (timestamp & Et & _).
  destruct (mine_currency M) as (Hdust & Hrw & Hf).
  destruct (fillBlockTemplate_spec true currency next next_median (maxBlockCumulativeSize currency next) pool (mine_pool M) Hf (mine_sizes M))
    as (f & sel & Ef & T).
  exists minor, pb, info, timestamp, f, sel; split_and!; [done..|].
  unfold getBlockTemplate; rewrite (chain_top_index s parent W Hs); cbn [rbind]; rewrite Ed; cbn [rbind]; rewrite (proj2 (Z.eqb_neq _ _)), En by done.
  change (UpgradeManager.getBlockMajorVersion next d) with next_version; rewrite EH, Eh; cbn [rbind]; rewrite Et; cbn [rbind].
  rewrite (calculateCumulativeBlocksizeLimit_spec currency d s parent W Hs true next Hrw); cbn [rbind].
  change (Z.max _ _) with next_median; destruct (mine_median M).
  rewrite wrap_small by (unfold in_u; lia); rewrite Z.mul_comm, Z.div_mul by done.
  rewrite getAlreadyGeneratedCoins_chain, Ea by (done || lia); cbn [fmap option_fmap option_map of_option rbind]; rewrite Ef; cbn [rbind]; done.
Qed.

Lemma getBlockTemplate_spec difficulty : core_getDifficultyForNextBlock true currency d s parent = Ok difficulty -> difficulty <> 0 ->
  exists r pool', getTemplate = Ok (r, pool') /\ pool_inv (transactionPool pool') /\
    (forall f, fill = Ok f -> f_size f + 1000 <= next_median -> is_Some r) /\
    match r with
    | Some t => t_difficulty t = difficulty /\ exists sel info reward e n, template_ok t sel info reward e n
    | None => True
    end.
Proof.
  intros Ed Hd; destruct (getBlockTemplate_steps difficulty Ed Hd) as (minor & pb & info & timestamp & f & sel & EH & Ea & Et & Ef & T & EG).
  destruct (mine_keys M) as [KV KS]; destruct (mine_currency M) as (Hdust & _ & _); destruct (mine_median M) as [HM HD].
  assert (HMz : Z.max next_median (blockGrantedFullRewardZoneByBlockVersion currency next_version) = next_median) by (unfold next_median; lia).
  assert (Hdef : forall size, getBlockReward true currency next_version next_median size (bi_alreadyGeneratedCoins info) (f_fee f) <> None).
  { intros size; apply reward_release; rewrite HMz; done. }
  rewrite EG; cbv zeta; pose proof (taken_pool _ _ _ _ _ _ _ T) as HI.
  assert (H0 : 0 <= f_size f).
  { rewrite (taken_size _ _ _ _ _ _ _ T); apply sumZ_nonneg, Forall_map, Forall_true; intros x; unfold blobSize; lia. }
  destruct (build_cases true currency V v S sec KV KS Hdust rnd next_version next next_median (bi_alreadyGeneratedCoins info) (f_fee f)
    extraNonce (mine_random M) (mine_nonce M) Hdef O (f_size f) (mkTransaction zero_prefix []) eq_refl)
    as [[En E]|(reward & e & tx & Er & E & P & Es)]; cbn beta in E; rewrite E; cbn [rbind].
  - eexists _, _; split; [reflexivity|]; split_and!; [done| |done]; intros f' Ef' Hf'; rewrite Ef in Ef'; injection Ef' as <-.
    destruct (reward_small currency next_version next_median (bi_alreadyGeneratedCoins info) (f_fee f) (f_size f)) as [e Er];
      [lia|unfold next_median in *; lia|]; by rewrite Er in En.
  - destruct (fit_miner_tx_spec true currency V v S sec KV KS Hdust rnd next_version next next_median (bi_alreadyGeneratedCoins info) (f_fee f)
      extraNonce (mine_random M) (mine_nonce M) Hdef 10 1 (f_size f) (u64 (f_size f + getObjectBinarySize tx)) tx Es) as (r & Er' & Hr).
    rewrite Er'; cbn [rbind]; eexists _, _; split; [reflexivity|]; split_and!; [done| |].
    + intros f' Ef' Hf'; rewrite Ef in Ef'; injection Ef' as <-; destruct next_block_range as [Hn _].
      assert (HZ : 0 <= getObjectBinarySize tx <= 1000).
      { apply (miner_size_bound tx next); [rewrite (pays_version _ _ _ _ _ _ _ _ _ _ _ P); done| |unfold in_u; lia|apply P|done|apply P|apply P|].
        - rewrite (pays_unlock _ _ _ _ _ _ _ _ _ _ _ P); pose proof (wrap_range 32 (next + m_minedMoneyUnlockWindow currency) ltac:(done)).
          unfold in_u in *; lia.
        - rewrite (pays_extra_length _ _ _ _ _ _ _ _ _ _ P); pose proof (mine_nonce M) as Hx; change TX_EXTRA_NONCE_MAX_COUNT with 255 in Hx.
          unfold nonce_field; destruct extraNonce; cbn [length] in *; lia. }
      pose proof (reward_small currency next_version next_median (bi_alreadyGeneratedCoins info) (f_fee f)) as RS.
      rewrite HMz in RS; destruct (RS (f_size f) ltac:(lia) ltac:(lia)) as [e1 R1]; rewrite R1 in Er; injection Er as <- <-.
      destruct (RS (f_size f + getObjectBinarySize tx) ltac:(lia) ltac:(lia)) as [e2 R2].
      destruct (fit_miner_tx_first true currency V v S sec KV KS Hdust rnd next_version next next_median (bi_alreadyGeneratedCoins info) (f_fee f)
        extraNonce (mine_random M) (mine_nonce M) Hdef 9 1 (f_size f) tx _ e2 Es H0 ltac:(lia) P) as [tx' E'].
      { by rewrite wrap_small by (unfold in_u; lia). }
      rewrite E' in Er'; injection Er' as <-; by eexists.
    + destruct r as [tx'|]; cbn [mbind option_bind]; [|done]; split; [done|]; destruct Hr as (reward' & e' & n & R' & P' & Es').
      rewrite (taken_size _ _ _ _ _ _ _ T), (taken_fee _ _ _ _ _ _ _ T) in R'.
      exists sel, info, reward', e', n; split; try done; [by exists minor|apply T].
Qed.
End Template.

(** ** A mined template passes the checks *)

Definition with_nonce (nonce : Z) (b : BlockTemplate) : BlockTemplate :=
  mkBlockTemplate (mkBlockHeader (bh_majorVersion b) (bh_minorVersion b) nonce (bh_timestamp b) (bh_previousBlockHash b))
    (bt_parentBlock b) (bt_baseTransaction b) (bt_transactionHashes b).

Lemma getBlockReward_zone (c : Currency) version m size coins fee :
  getBlockReward true c version (Z.max m (blockGrantedFullRewardZoneByBlockVersion c version)) size coins fee =
  getBlockReward true c version m size coins fee.
Proof. unfold getBlockReward; rewrite <- Z.max_assoc, Z.max_id; done. Qed.

Lemma template_parent_size {FH : FastHash} currency version minor pb timestamp nonce b : version >= BLOCK_MAJOR_VERSION_2 ->
  template_header currency version = Some (minor, pb) -> in_u 64 timestamp -> bt_parentBlock b = pb -> bh_timestamp b = timestamp ->
  bh_nonce b = nonce -> pb_majorVersion pb = 0 /\ exists ba, getParentBlockBinaryArray b = Ok ba /\ Z.of_nat (length ba) <= 2048.
Proof.
  intros Hv E Ht Eb Et En; unfold template_header in E; change BLOCK_MAJOR_VERSION_2 with 2 in *; change BLOCK_MAJOR_VERSION_1 with 1 in E.
  rewrite (proj2 (Z.eqb_neq _ _)), (proj2 (Z.geb_le _ _)) in E by lia.
  set (x := appendMergeMiningTagToExtra [] (mkTag 0 zero_hash)) in E; vm_compute in x; subst x; cbn [mbind option_bind] in E; injection E as _ <-.
  split; [done|]; unfold getParentBlockBinaryArray; rewrite Eb, Et, En.
  unfold Block.put_ParentBlock; cbn [pb_majorVersion pb_minorVersion pb_previousBlockHash pb_transactionCount pb_baseTransactionBranch pb_baseTransaction
    pb_blockchainBranch].
  match goal with |- context [Block.put_nonce nonce +++ (?a +++ ?r)] => set (tail := a +++ r) end; vm_compute in tail.
  unfold Block.put_nonce, put_varint, put_binary, wseq, tail; cbn [rbind]; eexists; split; [reflexivity|].
  pose proof (writeVarint_length timestamp Ht); rewrite !length_app, le_bytes_length; cbn [length zero_hash repeat].
  change BLOCK_MINOR_VERSION_0 with 0; change (length (Varint.writeVarint 0)) with 1%nat; lia.
Qed.

Section Passes.
Context {FH : FastHash}.
Context (currency : Currency) (d : UpgradeManager.detectors) (s : segment) (parent : cache).
Context (V v S sec : list Z) (now : Z) (extraNonce : BinaryArray) (pool : TransactionPoolCleanWrapper).
Hypothesis W : wf_cache (s :: parent).
Hypothesis Hs : blockInfos s <> [].

Abbreviation chain := (infos (s :: parent)).
Abbreviation next := (height (s :: parent)).

Context (t : block_template) (sel : list CachedTransaction) (info : CachedBlockInfo) (reward e : Z) (n : nat).
Hypothesis T : template_ok currency d s parent V v S sec now extraNonce pool t sel info reward e n.

Context (nonce now' : Z).
Abbreviation b := (with_nonce nonce (t_block t)).

Lemma template_index : Block.getBlockIndex b = next.
Proof. unfold Block.getBlockIndex; cbn [bt_baseTransaction with_nonce]; by rewrite (pays_input _ _ _ _ _ _ _ _ _ _ _ (tok_coinbase _ _ _ _ _ _ _ _ _ _ _ _ _ _ _ _ _ T)). Qed.

Lemma template_version_passes : in_u 64 (bh_timestamp (t_block t)) -> check_version d b = accept tt.
Proof.
  intros Ht; unfold check_version; rewrite template_index; cbn [bh_majorVersion bt_header with_nonce].
  rewrite (tok_version _ _ _ _ _ _ _ _ _ _ _ _ _ _ _ _ _ T); unfold next_version; rewrite Z.eqb_refl; cbn [negb].
  change (UpgradeManager.getBlockMajorVersion next d) with (next_version d s parent).
  rewrite Z.geb_leb; destruct (Z.leb_spec BLOCK_MAJOR_VERSION_2 (next_version d s parent)) as [Hv|Hv]; [|done].
  destruct (tok_parent _ _ _ _ _ _ _ _ _ _ _ _ _ _ _ _ _ T) as [minor EH].
  destruct (template_parent_size currency _ _ _ (bh_timestamp (t_block t)) nonce b (Z.le_ge _ _ Hv) EH Ht eq_refl eq_refl eq_refl) as (E0 & ba & -> & Hl).
  cbn [bt_parentBlock with_nonce]; rewrite E0; change (0 >? BLOCK_MAJOR_VERSION_1) with false; rewrite andb_false_r; cbn [rbind]; by rewrite Z.gtb_ltb, (proj2 (Z.ltb_ge _ _)) by lia.
Qed.

(** The validation looks at the same window of time stamps. *)
Definition same_window : Prop := m_timestampCheckWindow currency = BLOCKCHAIN_TIMESTAMP_CHECK_WINDOW /\
  (next < LWMA_2_DIFFICULTY_BLOCK_INDEX \/ LWMA_2_DIFFICULTY_BLOCK_INDEX_V3 <= next).

Lemma template_window_same : same_window -> timestampCheckWindow currency next = template_window next.
Proof.
  intros [E H]; unfold timestampCheckWindow, template_window; rewrite E, !Z.geb_leb.
  change LWMA_2_DIFFICULTY_BLOCK_INDEX_V3 with 800000 in *; change LWMA_2_DIFFICULTY_BLOCK_INDEX with 620000 in *.
  destruct (Z.leb_spec 800000 next), (Z.leb_spec 620000 next); done || lia.
Qed.

Lemma template_timestamp_passes ndebug : same_window -> bh_timestamp (t_block t) <= u64 (now' + blockFutureTimeLimit currency next) ->
  check_timestamp ndebug currency now' b (s :: parent) (next - 1) = accept tt.
Proof.
  intros Hw Hf; pose proof (next_range s parent W Hs) as Hn; unfold check_timestamp; cbn [bh_timestamp bt_header with_nonce].
  assert (En : u32 (next - 1 + 1) = next) by (rewrite wrap_small by (unfold in_u; lia); lia); rewrite En.
  rewrite Z.gtb_ltb, (proj2 (Z.ltb_ge _ _)) by done; rewrite template_window_same by done.
  assert (H0 : 0 <= template_window next) by (unfold template_window; by destruct (_ >=? _)).
  unfold getLastTimestamps; rewrite getLastUnits_chain by (done || lia); cbn [rbind]; rewrite length_map.
  destruct (template_timestamp_spec s parent W Hs now) as (ts & Et & _ & Hm & _).
  rewrite (tok_time _ _ _ _ _ _ _ _ _ _ _ _ _ _ _ _ _ T) in Et; injection Et as <-.
  rewrite Z.geb_leb; destruct (Z.leb_spec (template_window next) next) as [H|H].
  - rewrite (proj2 (Z.ltb_ge (bh_timestamp (t_block t)) _)), andb_false_r by (by apply Hm); done.
  - rewrite (proj2 (Z.leb_gt _ _)); [done|]; unfold last_units; cbn [negb andb]; rewrite length_drop, length_take; unfold height in *; lia.
Qed.

Lemma template_base_passes : check_base currency b (next - 1) = accept tt.
Proof.
  pose proof (next_range s parent W Hs) as Hn; unfold check_base; rewrite template_index; cbn [bt_baseTransaction with_nonce].
  pose proof (tok_coinbase _ _ _ _ _ _ _ _ _ _ _ _ _ _ _ _ _ T) as P; rewrite (pays_input _ _ _ _ _ _ _ _ _ _ _ P), (pays_unlock _ _ _ _ _ _ _ _ _ _ _ P).
  assert (En : u32 (next - 1 + 1) = next) by (rewrite wrap_small by (unfold in_u; lia); lia); rewrite En, Z.eqb_refl; cbn [negb].
  replace (next - 1 + 1 + m_minedMoneyUnlockWindow currency) with (next + m_minedMoneyUnlockWindow currency) by lia; rewrite Z.eqb_refl; cbn [negb].
  rewrite (tok_signatures _ _ _ _ _ _ _ _ _ _ _ _ _ _ _ _ _ T), bool_decide_eq_true_2, andb_false_r by done; done.
Qed.

Lemma template_validates ndebug : same_window -> in_u 64 (bh_timestamp (t_block t)) ->
  bh_timestamp (t_block t) <= u64 (now' + blockFutureTimeLimit currency next) ->
  validateBlock ndebug currency now' d b s parent = accept reward.
Proof.
  intros Hw Ht Hf; destruct (top_hash s parent W Hs) as (info' & Ea & _ & Eb).
  rewrite (tok_top _ _ _ _ _ _ _ _ _ _ _ _ _ _ _ _ _ T) in Ea; injection Ea as <-.
  unfold validateBlock; cbn [bh_previousBlockHash bt_header with_nonce].
  rewrite (tok_previous _ _ _ _ _ _ _ _ _ _ _ _ _ _ _ _ _ T), Eb; cbn [rbind].
  rewrite template_version_passes by done; cbn [cbind accept rbind]; rewrite template_timestamp_passes by done; cbn [cbind accept rbind].
  rewrite template_base_passes; cbn [cbind accept rbind bt_baseTransaction with_nonce].
  pose proof (tok_coinbase _ _ _ _ _ _ _ _ _ _ _ _ _ _ _ _ _ T) as P; apply check_outputs_spec; [apply P|done|].
  pose proof (getBlockReward_range _ _ _ _ _ _ _ _ _ (tok_reward _ _ _ _ _ _ _ _ _ _ _ _ _ _ _ _ _ T)) as Hr.
  rewrite (pays_total _ _ _ _ _ _ _ _ _ _ _ P); split_and!; [apply P|done|]; unfold in_u in Hr; lia.
Qed.

(** addBlock computes the same reward. *)
Lemma template_reward_passes : 0 <= m_rewardBlocksWindow currency <= next - 1 ->
  exists sizes, getLastBlocksSizes true (m_rewardBlocksWindow currency) (next - 1) true (s :: parent) = Ok sizes /\
    getBlockReward true currency (bh_majorVersion b) (medianValue sizes)
      (u64 (getObjectBinarySize (bt_baseTransaction b) + sumZ (map blobSize sel))) (bi_alreadyGeneratedCoins info)
      (u64 (sumZ (map getTransactionFee sel))) = Some (Some (reward, e)).
Proof.
  intros Hw; pose proof (next_range s parent W Hs) as Hn; unfold getLastBlocksSizes; rewrite getLastUnits_chain by (done || lia).
  eexists; split; [reflexivity|]; rewrite <- (tok_reward _ _ _ _ _ _ _ _ _ _ _ _ _ _ _ _ _ T); unfold next_median.
  rewrite getBlockReward_zone, (last_units_genesis _ _ _ false) by lia; cbn [bh_majorVersion bt_header with_nonce bt_baseTransaction].
  rewrite (tok_version _ _ _ _ _ _ _ _ _ _ _ _ _ _ _ _ _ T); by rewrite (Z.add_comm (getObjectBinarySize _)).
Qed.
End Passes.

(** The difficulty of a template is the one addBlock asks for, unless the next block has another
    version than the top block. *)
Lemma core_difficulty_same ndebug currency d s parent : wf_cache (s :: parent) -> blockInfos s <> [] ->
  getBlockMajorVersionForHeight ndebug currency (height (s :: parent)) =
    Ok (UpgradeManager.getBlockMajorVersion (height (s :: parent) - 1) d) ->
  getDifficultyForNextBlock ndebug currency (height (s :: parent) - 1) (s :: parent) = core_getDifficultyForNextBlock ndebug currency d s parent.
Proof.
  intros W Hs Ev; pose proof (next_range s parent W Hs) as Hn; unfold getDifficultyForNextBlock, core_getDifficultyForNextBlock.
  rewrite (chain_top_index s parent W Hs), (proj1 (wf_parent_top _ _ W Hs)), Z.leb_refl; unfold assert_res; rewrite orb_true_r; cbn [rbind].
  assert (En : u32 (height (s :: parent) - 1 + 1) = height (s :: parent)) by (rewrite wrap_small by (unfold in_u; lia); lia); rewrite En, Ev; cbn [rbind].
  set (v := UpgradeManager.getBlockMajorVersion _ d); set (top := height (s :: parent) - 1) in *.
  assert (Hc : 0 <= difficultyBlocksCountByBlockVersion currency v top).
  { unfold difficultyBlocksCountByBlockVersion; destruct (_ >=? _); [done|]; by apply (wrap_range 64). }
  set (count := difficultyBlocksCountByBlockVersion currency v top) in *.
  assert (EU : last_units (Z.min top count) top false (infos (s :: parent)) = last_units count top false (infos (s :: parent))).
  { unfold last_units; destruct (Z.leb_spec count top).
    - by rewrite (Z.min_r top count) by done.
    - rewrite (Z.min_l top count), (Z.min_r count), (Z.min_l top) by lia; replace (top + 1 - (top + 1)) with 0 by lia; replace (top + 1 - top) with 1 by lia.
      cbn [negb andb]; rewrite (proj2 (Z.eqb_neq (top + 1) 0)) by lia; done. }
  unfold getLastTimestamps, getLastCumulativeDifficulties; rewrite !getLastUnits_chain by (done || lia); cbn [rbind]; by rewrite EU.
Qed.

(** ** The theorems *)

(** The ranges in which the reward is computed without a failed assertion in any build. *)
Record reward_domain (currency : Currency) (version median size coins fee : Z) : Prop := {
  rd_coins : 0 <= coins <= m_moneySupply currency;
  rd_speed : 0 < m_emissionSpeedFactor currency <= 64;
  rd_genesis : in_u 64 (m_genesisBlockReward currency);
  rd_median : 0 <= Z.max median (blockGrantedFullRewardZoneByBlockVersion currency version) < 2 ^ 32;
  rd_size : 0 <= size < 2 ^ 32;
  rd_fee : in_u 64 fee }.

Lemma reward_domain_defined ndebug currency version median size coins fee :
  reward_domain currency version median size coins fee ->
  getBlockReward ndebug currency version median size coins fee <> None.
Proof.
  intros [Hc He Hg Hm Hs Hf]; unfold getBlockReward; rewrite !(proj2 (Z.leb_le _ _)), (proj2 (Z.ltb_lt _ _)), orb_true_r by lia.
  cbn [negb]; set (m := Z.max _ _) in *; cbv zeta; destruct (Z.gtb_spec size (u64 (2 * m))) as [|Hle]; [done|].
  rewrite wrap_small in Hle by (unfold in_u; lia).
  assert (Hb : in_u 64 (base_reward currency coins)).
  { unfold base_reward; destruct (_ && _); [done|]; apply in_u_shiftr; [lia..|]; by apply wrap_range. }
  rewrite !getPenalizedAmount_spec by (done || lia); cbn [mbind option_bind]; by destruct (_ >=? _).
Qed.

Lemma too_big_size ndebug currency version median size coins fee :
  reward_domain currency version median size coins fee ->
  getBlockReward ndebug currency version median size coins fee = Some None ->
  2 * Z.max median (blockGrantedFullRewardZoneByBlockVersion currency version) < size.
Proof.
  intros [_ _ _ Hm Hs _]; unfold getBlockReward; destruct (negb _); [done|]; set (m := Z.max _ _) in *; cbv zeta.
  rewrite wrap_small by (unfold in_u; lia); destruct (Z.gtb_spec size (2 * m)); [done|].
  destruct (getPenalizedAmount _ (base_reward _ _) _ _); cbn [mbind option_bind]; [|done].
  destruct (if _ >=? _ then _ else _); done.
Qed.



(** C15. A block mined from a template of a release build, with any nonce,
    passes the checks of addBlock on the header and the coinbase, if the miner
    and the validator use the same window of time stamps at its height and the
    time stamp is not too far in the future. Once the chain is longer than the
    window of the reward, so that the genesis block is outside, the coinbase
    pays the reward that addBlock computes from the same chain, sizes and
    fees; at all heights where the version of the next block is that of the
    top, the difficulty of the template is the one addBlock asks for. *)
Theorem mined_template_passes {FH : FastHash} currency d V v S sec rnd now extraNonce s parent pool pool' t difficulty ndebug nonce now' :
  mineable currency d s parent V v S sec rnd extraNonce pool ->
  core_getDifficultyForNextBlock true currency d s parent = Ok difficulty -> difficulty <> 0 ->
  getBlockTemplate true currency d rnd now (mkAddress S V) extraNonce s parent pool = Ok (Some t, pool') ->
  same_window currency s parent -> in_u 64 (bh_timestamp (t_block t)) ->
  bh_timestamp (t_block t) <= u64 (now' + blockFutureTimeLimit currency (height (s :: parent))) ->
  exists sel info reward e, bt_transactionHashes (t_block t) = map getTransactionHash sel /\
    at_index (infos (s :: parent)) (height (s :: parent) - 1) = Some info /\
    validateBlock ndebug currency now' d (with_nonce nonce (t_block t)) s parent = accept reward /\
    (0 <= m_rewardBlocksWindow currency <= height (s :: parent) - 1 ->
      exists sizes, getLastBlocksSizes true (m_rewardBlocksWindow currency) (height (s :: parent) - 1) true (s :: parent) = Ok sizes /\
        getBlockReward true currency (bh_majorVersion (with_nonce nonce (t_block t))) (medianValue sizes)
          (u64 (getObjectBinarySize (bt_baseTransaction (with_nonce nonce (t_block t))) + sumZ (map blobSize sel)))
          (bi_alreadyGeneratedCoins info) (u64 (sumZ (map getTransactionFee sel))) = Some (Some (reward, e))) /\
    (getBlockMajorVersionForHeight true currency (height (s :: parent)) =
        Ok (UpgradeManager.getBlockMajorVersion (height (s :: parent) - 1) d) ->
      getDifficultyForNextBlock true currency (height (s :: parent) - 1) (s :: parent) = Ok (t_difficulty t)).
Proof.
  intros M Ed Hd E Hw Ht Hf; destruct (mine_chain _ _ _ _ _ _ _ _ _ _ _ M) as [W Hs].
  destruct (getBlockTemplate_spec currency d s parent V v S sec rnd now extraNonce pool M difficulty Ed Hd) as (r & p & E' & _ & _ & H).
  rewrite E in E'; injection E' as <- <-; destruct H as (Et & sel & info & reward & e & n & T).
  exists sel, info, reward, e; split_and!; [apply T|apply T| | |].
  - by eapply template_validates.
  - intros Hwin; by eapply template_reward_passes.
  - intros Ev; rewrite (core_difficulty_same true currency d s parent W Hs Ev), Et; done.
Qed.

(** ** A template on top of the genesis block *)

Section Sample.
Import Ledger.
#[local] Existing Instance TreeHash.weak_FastHash.
#[local] Existing Instance sample_blocks.

Definition sample_rnd (k : nat) : list Z := repeat 7 64.
Definition sample_view : list Z := enc_scalar 2.
Definition sample_spend : list Z := enc_scalar 3.
Definition public_of (sec : list Z) : list Z := PointCodec.encode (base_mul (le_val sec)).
Definition template_pool : TransactionPoolCleanWrapper := mkWrapper empty_pool ∅ 1000.

Lemma sample_key n : key_pair (public_of (enc_scalar n)) (enc_scalar n).
Proof. split; [apply enc_scalar_ok|reflexivity]. Qed.

Lemma sample_random : random64 (repeat 7 64).
Proof. split; [reflexivity|]; apply Forall_forall; intros x Hx; apply list_elem_of_In, repeat_spec in Hx as ->; done. Qed.

(** CurrencyBuilder::rewardBlocksWindow *)
Definition rewardBlocksWindow (val : Z) (c : Currency) : Currency :=
  match c with
  | mkCurrency f1 f2 f3 f4 f5 f6 f7 f8 f9 f10 _ f12 f13 f14 f15 f16 f17 f18 f19 f20 f21 f22 f23 f24 f25 f26 f27 f28 f29 f30 f31
    f32 f33 f34 f35 f36 f37 f38 f39 f40 f41 f42 f43 f44 =>
    mkCurrency f1 f2 f3 f4 f5 f6 f7 f8 f9 f10 val f12 f13 f14 f15 f16 f17 f18 f19 f20 f21 f22 f23 f24 f25 f26 f27 f28 f29 f30 f31
    f32 f33 f34 f35 f36 f37 f38 f39 f40 f41 f42 f43 f44
  end.

(** A currency whose reward looks at no earlier block. *)
Definition short_window : Currency := rewardBlocksWindow 0 mainnet.

Lemma template_median c : c = mainnet \/ c = short_window -> next_median c [] genesis_segment [] = 10000.
Proof. intros [-> | ->]; vm_compute; reflexivity. Qed.

Lemma sample_mineable c : c = mainnet \/ c = short_window ->
  mineable c [] genesis_segment [] (public_of sample_view) sample_view (public_of sample_spend) sample_spend
  sample_rnd [1; 2; 3] template_pool.
Proof.
  intros Hc; pose proof (built_represents _ _ _ _ _ _ _ _ _ _ _ sample_built_genesis) as R; split.
  - split; [apply R|done].
  - split; apply sample_key.
  - intros k; exact sample_random.
  - done.
  - destruct Hc as [-> | ->]; done.
  - rewrite template_median by done; split; [lia|done].
  - apply (pool_reachable_inv false); apply rtc_refl.
  - constructor.
Qed.

Lemma none_taken sel : Forall (fun c => c ∈ getPoolTransactions (transactionPool template_pool)) sel -> sel = [].
Proof.
  change (getPoolTransactions _) with (@nil CachedTransaction); destruct sel as [|c sel]; [done|].
  intros [H _]%Forall_cons; by apply not_elem_of_nil in H.
Qed.

Lemma sample_difficulty c : c = mainnet \/ c = short_window -> core_getDifficultyForNextBlock true c [] genesis_segment [] = Ok 1.
Proof. intros [-> | ->]; vm_compute; reflexivity. Qed.


Definition template_core : Core.Core :=
  Core.mkCore {[O := Core.mkNode genesis_segment None [] true]} [O] [O] {[O]} [mkRawBlock [0] []] template_pool 10000 true.


Lemma mined_template_passes_witness : exists t pool' info reward e,
  getBlockTemplate true short_window [] sample_rnd 10000 (mkAddress (public_of sample_spend) (public_of sample_view)) [1; 2; 3] genesis_segment []
    template_pool = Ok (Some t, pool') /\
  at_index (infos [genesis_segment]) 0 = Some info /\
  validateBlock false short_window 10010 [] (with_nonce 77 (t_block t)) genesis_segment [] = accept reward /\
  getBlockReward true short_window (bh_majorVersion (t_block t)) 0 (u64 (getObjectBinarySize (bt_baseTransaction (t_block t)) + 0))
    (bi_alreadyGeneratedCoins info) 0 = Some (Some (reward, e)) /\
  getDifficultyForNextBlock true short_window 0 [genesis_segment] = Ok (t_difficulty t).
Proof.
  pose proof (sample_mineable short_window (or_intror eq_refl)) as M.
  pose proof (sample_difficulty short_window (or_intror eq_refl)) as D.
  assert (H1 : in_u 64 10000) by done.
  assert (H2 : 10000 <= u64 (10010 + blockFutureTimeLimit short_window (height [genesis_segment]))) by (vm_compute; discriminate).
  destruct (getBlockTemplate_spec short_window [] genesis_segment [] (public_of sample_view) sample_view (public_of sample_spend) sample_spend
    sample_rnd 10000 [1; 2; 3] template_pool M 1 D ltac:(done)) as (r & pool' & E & _ & Hl & H).
  destruct (Hl (mkFilling [] 0 0 ∅ template_pool)) as [t ->]; [by rewrite template_median by (by right)|by rewrite template_median by (by right)|].
  destruct H as (_ & sel & info & reward & e & n & T).
  assert (Et : bh_timestamp (t_block t) = 10000).
  { pose proof (tok_time _ _ _ _ _ _ _ _ _ _ _ _ _ _ _ _ _ T) as Ht; vm_compute in Ht; by injection Ht. }
  assert (Hh : bt_transactionHashes (t_block t) = []).
  { rewrite (tok_hashes _ _ _ _ _ _ _ _ _ _ _ _ _ _ _ _ _ T).
    rewrite (none_taken sel (taken_from _ _ _ _ _ _ _ (tok_taken _ _ _ _ _ _ _ _ _ _ _ _ _ _ _ _ _ T))); reflexivity. }
  destruct (mined_template_passes short_window [] (public_of sample_view) sample_view (public_of sample_spend) sample_spend sample_rnd 10000 [1; 2; 3]
    genesis_segment [] template_pool pool' t 1 false 77 10010 M D ltac:(done) E) as (sel' & info' & reward' & e' & Hs & Ha & HV & HR & HD).
  - split; [reflexivity|]; left; vm_compute; reflexivity.
  - rewrite Et; exact H1.
  - rewrite Et; exact H2.
  - rewrite Hh in Hs; symmetry in Hs; apply map_eq_nil in Hs as ->.
    destruct (HR ltac:(vm_compute; split; discriminate)) as (sizes & Ez & ER).
    assert (Es : sizes = []) by (vm_compute in Ez; by injection Ez). rewrite Es in ER.
    exists t, pool', info', reward', e'; split; [exact E|]; split; [exact Ha|]; split; [exact HV|]; split; [exact ER|].
    apply HD; vm_compute; reflexivity.
Defined.
End Sample.

End MiningSpec.
