(* ===== verification/Startup.v ===== *)
(** Start of a node: findCommonRoot, cutSegment, importBlocksFromStorage and load of
    src/src/CryptoNoteCore/Core.cpp.

    The storage of the main chain is the list of its raw blocks.  The loop of findCommonRoot has
    fuel for the whole range; it halves the range, so the fuel is never used up. *)

From S2P Require Import Prelude.
From S2P Require Import Types.
From S2P Require Import Keccak.
From S2P Require Import Currency.
From S2P Require Import Serialization.
From S2P Require Import Block.
From S2P Require Import CachedTransaction.
From S2P Require Import ChainRules.
From S2P Require Import BlockchainCache.
From S2P Require Import Validation.
From S2P Require Import Core.

Module Startup.

Import Currency Serialization CachedTransaction BlockchainCache Validation Core.

Section Startup.
Context {FH : FastHash}.
Context (ndebug : bool) (currency : Currency) (d : UpgradeManager.detectors) (b0 : BlockTemplate).

Definition extractBlockTemplate (block : RawBlock) : res BlockTemplate :=
  match fromBinaryArray (Block.get_BlockTemplate b0) (rb_block block) with Ok b => Ok b | Err _ => Err RuntimeError end.

(** CachedBlock(blockTemplate) with its hash. *)
Definition cached_block (blockTemplate : BlockTemplate) : res CachedBlock :=
  match Block.getBlockHash blockTemplate with Ok h => Ok (mkCachedBlock blockTemplate h) | Err _ => Err RuntimeError end.

(** getBlockHash(const RawBlock&) *)
Definition rawBlockHash (block : RawBlock) : res Hash :=
  let! blockTemplate := extractBlockTemplate block in
  let! cachedBlock := cached_block blockTemplate in Ok (cb_hash cachedBlock).

(** MainChainStorage::getBlockByIndex *)
Definition mainStorage_getBlockByIndex (storage : list RawBlock) (index : Z) : res RawBlock :=
  of_option OutOfRange (at_index storage index).

(** The hashes at [index] are equal. *)
Definition same_block (storage : list RawBlock) (rootSegment : cache) (index : Z) : res bool :=
  let! block := mainStorage_getBlockByIndex storage index in
  let! h := rawBlockHash block in
  let! h' := getBlockHash index rootSegment in
  Ok (bool_decide (h = h')).

Fixpoint common_loop (fuel : nat) (storage : list RawBlock) (rootSegment : cache) (left right : Z) : res Z :=
  if left =? right then Ok left
  else
    match fuel with
    | O => Err Undefined
    | S fuel =>
      let! _ := assert_res ndebug (right >=? left) in
      let checkElement := u32 (left + u32 (right - left) / 2 + 1) in
      let! same := same_block storage rootSegment checkElement in
      if same : bool then common_loop fuel storage rootSegment checkElement right
      else common_loop fuel storage rootSegment left (u32 (checkElement - 1))
    end.

Definition findCommonRoot (storage : list RawBlock) (rootSegment : segment) : res Z :=
  let storageCount := Z.of_nat (length storage) in
  let! _ := assert_res ndebug (negb (storageCount =? 0)) in
  let! _ := assert_res ndebug (negb (getBlockCount rootSegment =? 0)) in
  let! _ := assert_res ndebug (startIndex rootSegment =? 0) in
  let! _ := (if ndebug then Ok tt else let! same := same_block storage [rootSegment] 0 in assert_res ndebug same) in
  let right := Z.min (u32 (storageCount - 1)) (u32 (getBlockCount rootSegment - 1)) in
  common_loop (Z.to_nat right) storage [rootSegment] 0 right.

(** The upper part is destroyed at the end. *)
Definition cutSegment (p : ptr) (startIndex : Z) (st : Core) : res Core :=
  let! n := get_node p st in
  let! top := getTopBlockIndex ndebug (n_segment n) in
  if top <? startIndex then Ok st
  else
    let! r := splitSegment ndebug p startIndex st in
    let '(childCache, st) := r in
    let! n := get_node p st in
    Ok (with_heap (delete childCache (<[p := (deleteChild childCache n).2]> (heap st))) st).

Definition getEmissionChange (c : cache) (previousBlockIndex : Z) (cachedBlock : CachedBlock) (cumulativeSize cumulativeFee : Z) : res Z :=
  let! alreadyGeneratedCoins := getAlreadyGeneratedCoins previousBlockIndex c in
  let! lastBlocksSizes := getLastBlocksSizes ndebug (m_rewardBlocksWindow currency) previousBlockIndex true c in
  let! blockReward := of_option Undefined
    (getBlockReward ndebug currency (bh_majorVersion (cb_block cachedBlock)) (medianValue lastBlocksSizes) cumulativeSize
       alreadyGeneratedCoins cumulativeFee) in
  match blockReward with
  | None => Err RuntimeError
  | Some (_, emissionChange) => Ok emissionChange
  end.

(** One turn of the loop of importBlocksFromStorage, for the chain of chainsLeaves[0]: the new
    previousBlockHash and the chain. *)
Definition import_block (i : Z) (rawBlock : RawBlock) (previousBlockHash : Hash) (c : cache) : res (Hash * cache) :=
  let! blockTemplate := extractBlockTemplate rawBlock in
  let! cachedBlock := cached_block blockTemplate in
  if negb (bool_decide (bh_previousBlockHash blockTemplate = previousBlockHash)) then Err RuntimeError
  else
    match extractTransactions currency (rb_transactions rawBlock) 0 with
    | None => Err RuntimeError
    | Some (txs, cumulativeSize) =>
      let cumulativeSize := u64 (cumulativeSize + getObjectBinarySize (bt_baseTransaction blockTemplate)) in
      let! spentOutputs := of_option Undefined (extractSpentOutputs_all ndebug txs) in
      let! currentDifficulty := getDifficultyForNextBlock ndebug currency (u32 (i - 1)) c in
      let cumulativeFee := fold_left (fun fee tx => u64 (fee + getTransactionFee tx)) txs 0 in
      let! emissionChange := getEmissionChange c (u32 (i - 1)) cachedBlock cumulativeSize cumulativeFee in
      let! c := doPushBlock ndebug cachedBlock txs spentOutputs cumulativeSize emissionChange currentDifficulty rawBlock c in
      Ok (cb_hash cachedBlock, c)
    end.

Fixpoint import_loop (i : Z) (blocks : list RawBlock) (previousBlockHash : Hash) (c : cache) : res cache :=
  match blocks with
  | [] => Ok c
  | rawBlock :: blocks =>
    let! r := import_block i rawBlock previousBlockHash c in
    import_loop (i + 1) blocks r.1 r.2
  end.

Definition importBlocksFromStorage (st : Core) : res Core :=
  let! leaf := main_leaf st in
  let! n := get_node leaf st in
  let! commonIndex := findCommonRoot (mainChainStorage st) (n_segment n) in
  let! _ := assert_res ndebug (commonIndex <=? Z.of_nat (length (mainChainStorage st))) in
  let! st := cutSegment leaf (u32 (commonIndex + 1)) st in
  let! block := mainStorage_getBlockByIndex (mainChainStorage st) commonIndex in
  let! previousBlockHash := rawBlockHash block in
  let! c := cache_of (heap st) leaf in
  let! c := import_loop (commonIndex + 1) (drop (Z.to_nat (commonIndex + 1)) (mainChainStorage st)) previousBlockHash c in
  let! n := get_node leaf st in
  let! s := of_option Undefined (head c) in
  Ok (with_heap (<[leaf := with_segment s n]> (heap st)) st).

Definition with_initialized (b : bool) (st : Core) : Core :=
  mkCore (heap st) (chainsStorage st) (chainsLeaves st) (mainChainSet st) (mainChainStorage st) (transactionPool st)
    (blockMedianSize st) b.

(** load after initRootSegment *)
Definition synchronize (st : Core) : res Core :=
  let! leaf := main_leaf st in
  let! n := get_node leaf st in
  let! top := getTopBlockIndex ndebug (n_segment n) in
  let dbBlocksCount := u32 (top + 1) in
  let storageBlocksCount := Z.of_nat (length (mainChainStorage st)) in
  let! _ := assert_res ndebug (negb (storageBlocksCount =? 0)) in
  let! st := (if storageBlocksCount >? dbBlocksCount then importBlocksFromStorage st
    else if storageBlocksCount <? dbBlocksCount then
      let! common := findCommonRoot (mainChainStorage st) (n_segment n) in
      let! st := cutSegment leaf (u32 (common + 1)) st in
      let! n := get_node leaf st in
      let! top := getTopBlockIndex ndebug (n_segment n) in
      let! _ := assert_res ndebug (u32 (top + 1) =? storageBlocksCount) in
      Ok st
    else
      let! block := mainStorage_getBlockByIndex (mainChainStorage st) (u32 (storageBlocksCount - 1)) in
      let! h := rawBlockHash block in
      let! h' := getTopBlockHash (n_segment n) in
      if bool_decide (h <> h') then importBlocksFromStorage st else Ok st) in
  Ok (with_initialized true st).

(** The root of the in-memory class. *)
Definition load (genesisBlock : CachedBlock) (genesisBlob : BinaryArray) (st : Core) : res Core :=
  let! st := initRootSegment ndebug currency d genesisBlock genesisBlob st in synchronize st.
End Startup.

End Startup.
