(* ===== verification/StartupSpec.v ===== *)
(** What a node finds again when it starts: the search for the common block is exact, importing
    a stored block repeats what addBlock did with it, and the whole chain is restored. *)

From S2P Require Import Prelude.
From S2P Require Import Types.
From S2P Require Import Keccak.
From S2P Require Import FormatUtils.
From S2P Require Import Currency.
From S2P Require Import TreeHash.
From S2P Require Import Serialization.
From S2P Require Import Block.
From S2P Require Import CachedTransaction.
From S2P Require Import TransactionPool.
From S2P Require Import ChainRules.
From S2P Require Import BlockchainCache.
From S2P Require Import ChainView.
From S2P Require Import ChainSplit.
From S2P Require Import ChainPush.
From S2P Require Import Validation.
From S2P Require Import ValidationSpec.
From S2P Require Import Ledger.
From S2P Require Import Core.
From S2P Require Import CoreTree.
From S2P Require Import CoreSpec.
From S2P Require Import Consensus.
From S2P Require Import Startup.

Module StartupSpec.

Import FormatUtils Serialization CachedTransaction BlockchainCache ChainView ChainPush Validation ValidationSpec Ledger Core CoreTree CoreSpec Consensus Startup.

(** ** The common block *)

Section Common.
Context {FH : FastHash}.
Context (ndebug : bool) (b0 : BlockTemplate) (storage : list RawBlock) (c : cache).

Abbreviation same := (same_block b0 storage c).

Lemma common_loop_spec fuel : forall left right, 0 <= left <= right -> right < 2 ^ 32 -> right - left <= Z.of_nat fuel ->
  (forall i, left < i <= right -> exists b, same i = Ok b) ->
  exists r, common_loop ndebug b0 fuel storage c left right = Ok r /\ left <= r <= right /\
    (r = left \/ same r = Ok true) /\ (r = right \/ same (r + 1) = Ok false).
Proof.
  induction fuel as [|fuel IH]; intros left right H0 Hr Hf Hs; cbn [common_loop];
    (destruct (Z.eqb_spec left right) as [->|Hne]; [exists right; split_and!; auto with lia; lia|]); [lia|].
  unfold assert_res; rewrite (proj2 (Z.geb_le _ _)), orb_true_r by lia; cbn [rbind].
  rewrite (wrap_small 32 (right - left)) by (unfold in_u; lia).
  pose proof (Z.div_pos (right - left) 2 ltac:(lia) ltac:(lia)); pose proof (Z.div_lt (right - left) 2 ltac:(lia) ltac:(lia)).
  rewrite wrap_small by (unfold in_u; lia); set (k := left + (right - left) / 2 + 1) in *.
  destruct (Hs k ltac:(lia)) as [b Eb]; rewrite Eb; cbn [rbind]; destruct b.
  - destruct (IH k right) as (r & E & R1 & R2 & R3); [lia|lia|lia|intros i Hi; apply Hs; lia|].
    exists r; split_and!; [done|lia|lia| |done]; right; destruct R2 as [->|R2]; done.
  - rewrite wrap_small by (unfold in_u; lia); destruct (IH left (k - 1)) as (r & E & R1 & R2 & R3); [lia|lia|lia|intros i Hi; apply Hs; lia|].
    exists r; split_and!; [done|lia|lia|done|]; right; destruct R3 as [->|R3]; [|done]; by replace (k - 1 + 1) with k by lia.
Qed.

Lemma same_block_total i : wf_cache c -> c <> [] -> Forall (fun b => exists h, rawBlockHash b0 b = Ok h) storage ->
  0 <= i < Z.of_nat (length storage) -> i < height c -> exists b, same i = Ok b.
Proof.
  intros W Hc Hr Hi Hh; unfold same_block, mainStorage_getBlockByIndex.
  destruct (proj2 (at_index_range storage i) Hi) as [raw E]; rewrite E; cbn [of_option rbind].
  assert (Hin : raw ∈ storage) by (unfold at_index in E; destruct (_ <? _); [done|]; by eapply list_elem_of_lookup_2).
  rewrite Forall_forall in Hr; destruct (Hr raw Hin) as [h ->]; cbn [rbind]; rewrite getBlockHash_chain by (done || lia).
  destruct (proj2 (at_index_range (infos c) i)) as [info ->]; [unfold height in Hh; lia|]; by eexists.
Qed.
End Common.

Lemma findCommonRoot_spec {FH : FastHash} ndebug b0 storage s : wf_cache [s] -> blockInfos s <> [] ->
  0 < Z.of_nat (length storage) < 2 ^ 32 -> Forall (fun b => exists h, rawBlockHash b0 b = Ok h) storage -> same_block b0 storage [s] 0 = Ok true ->
  exists r, findCommonRoot ndebug b0 storage s = Ok r /\ 0 <= r < Z.min (Z.of_nat (length storage)) (height [s]) /\
    same_block b0 storage [s] r = Ok true /\
    (r + 1 = Z.min (Z.of_nat (length storage)) (height [s]) \/ same_block b0 storage [s] (r + 1) = Ok false).
Proof.
  intros W Hs Hl Hr H0; pose proof (proj2 (wf_parent_top _ _ W Hs)) as Hh; pose proof (seg_start _ _ (proj1 W)) as E0.
  pose proof (seg_bound _ _ (proj1 W)) as Hb; rewrite <- (height_cons _ _ (proj1 W)) in Hb.
  assert (EC : getBlockCount s = height [s]) by (rewrite (height_cons _ _ (proj1 W)); unfold end_index; rewrite E0; unfold height; simpl; lia).
  change (height []) with 0 in E0; unfold findCommonRoot, assert_res; rewrite EC, E0, Z.eqb_refl, !(proj2 (Z.eqb_neq _ _)) by lia.
  cbn [negb]; rewrite !orb_true_r; cbn [rbind].
  rewrite !wrap_small by (unfold in_u; lia); set (right := Z.min _ _).
  destruct (common_loop_spec ndebug b0 storage [s] (Z.to_nat right) 0 right) as (r & E & R1 & R2 & R3); [lia|lia|lia| |].
  { intros i Hi; apply same_block_total; done || lia. }
  exists r; split_and!; [|lia|lia| |].
  - destruct ndebug; cbn [rbind]; [exact E|]; rewrite H0; cbn [rbind]; exact E.
  - destruct R2 as [->|R2]; done.
  - destruct R3 as [->|R3]; [left; lia|by right].
Qed.

(** findCommonRoot returns for every storage and root segment that share
    the genesis block: where the two agree up to some block and nowhere above,
    it is the last block at which they agree, found by halving the range. *)
Theorem common_root_exact {FH : FastHash} ndebug b0 storage s : wf_cache [s] -> blockInfos s <> [] ->
  0 < Z.of_nat (length storage) < 2 ^ 32 -> Forall (fun b => exists h, rawBlockHash b0 b = Ok h) storage ->
  same_block b0 storage [s] 0 = Ok true ->
  (forall i j, 0 <= i <= j -> j < Z.min (Z.of_nat (length storage)) (height [s]) ->
     same_block b0 storage [s] j = Ok true -> same_block b0 storage [s] i = Ok true) ->
  exists r, findCommonRoot ndebug b0 storage s = Ok r /\
    forall i, 0 <= i < Z.min (Z.of_nat (length storage)) (height [s]) -> same_block b0 storage [s] i = Ok (i <=? r).
Proof.
  intros W Hs Hl Hr H0 Hd; destruct (findCommonRoot_spec ndebug b0 storage s W Hs Hl Hr H0) as (r & E & Hb & Et & Hn).
  exists r; split; [done|]; intros i Hi; destruct (Z.leb_spec i r) as [Hir|Hir]; [apply (Hd i r); (done || lia)|].
  destruct (same_block_total b0 storage [s] i W ltac:(done) Hr ltac:(lia) ltac:(lia)) as [[] Ei]; [|done].
  destruct Hn as [Hn|Hn]; [lia|]; rewrite (Hd (r + 1) i) in Hn by (done || lia); done.
Qed.

(** ** Importing a block *)

Lemma extractSpentOutputs_all_ok nd txs : Forall spends_once txs ->
  extractSpentOutputs_all nd txs = Some (mkValidatorState (list_to_set (all_images txs))).
Proof.
  intros H; unfold extractSpentOutputs_all.
  assert (G : forall acc, fold_left (fun acc c => result ← acc; outputs ← extractSpentOutputs nd c; Some (mergeStates result outputs)) txs
    (Some (mkValidatorState acc)) = Some (mkValidatorState (acc ∪ list_to_set (all_images txs)))).
  { induction H as [|c txs Hc _ IH]; intros acc; cbn [fold_left]; [do 2 f_equal; unfold all_images; simpl; set_solver|].
    cbn [mbind option_bind]; rewrite extractSpentOutputs_ok by done; cbn [mbind option_bind]; unfold mergeStates; cbn [CachedTransaction.spentKeyImages].
    rewrite IH, all_images_cons; do 2 f_equal; set_solver. }
  rewrite G; do 2 f_equal; set_solver.
Qed.

(** Two chains with the same blocks up to [i] give the same values there. *)
Lemma coins_prefix c c' i : wf_cache c -> wf_cache c' -> c <> [] -> c' <> [] -> 0 <= i -> infos c = take (Z.to_nat (i + 1)) (infos c') ->
  getAlreadyGeneratedCoins i c = getAlreadyGeneratedCoins i c'.
Proof.
  intros W W' N N' Hi E; rewrite !getAlreadyGeneratedCoins_chain, E by done; unfold at_index.
  destruct (i <? 0); [done|]; by rewrite lookup_take_lt by lia.
Qed.

Lemma units_prefix {A} ndebug (f : CachedBlockInfo -> A) c c' count g i : wf_cache c -> wf_cache c' -> 0 <= count -> 0 <= i ->
  i < height c -> i < height c' -> infos c = take (Z.to_nat (i + 1)) (infos c') ->
  getLastUnits ndebug count i g f c = getLastUnits ndebug count i g f c'.
Proof.
  intros W W' Hc Hi H H' E; rewrite !getLastUnits_chain, E by (done || lia).
  unfold last_units; by rewrite take_take, Nat.min_id.
Qed.

#[local] Existing Instance any_block.

Section Import.
Import Currency.
Context {FH : FastHash}.
Context (ndebug : bool) (currency : Currency) (checkpoints : list (Z * Hash)).
Context (cn_slow_hash_v0 cn_lite_slow_hash_v1 cn_turtle_lite_slow_hash_v2 : list Z -> Hash) (genesisBlockHash : Hash).
Context (d : UpgradeManager.detectors) (b0 : BlockTemplate).

Abbreviation checks now := (addBlock_checks ndebug currency checkpoints now cn_slow_hash_v0 cn_lite_slow_hash_v1
  cn_turtle_lite_slow_hash_v2 genesisBlockHash d).
Abbreviation push cb vb raw := (doPushBlock ndebug cb (vb_transactions vb) (vb_validatorState vb) (vb_cumulativeBlockSize vb)
  (vb_emissionChange vb) (vb_currentDifficulty vb) raw).

(** The bytes of the raw block are those of the block. *)
Definition block_bytes (cb : CachedBlock) (raw : RawBlock) : Prop :=
  extractBlockTemplate b0 raw = Ok (cb_block cb) /\ cached_block (cb_block cb) = Ok cb.

Lemma block_bytes_hash cb raw : block_bytes cb raw -> rawBlockHash b0 raw = Ok (cb_hash cb).
Proof. intros [E1 E2]; unfold rawBlockHash; rewrite E1; cbn [rbind]; rewrite E2; done. Qed.

Lemma acceptable_fee now chain i c : ok_transaction (ct_transaction c) -> acceptable ndebug currency checkpoints now chain i c ->
  spends_once c /\ getTransactionFee c = tx_fee c.
Proof.
  intros Hok [G _]; pose proof (good_inputs _ _ G) as Hg; pose proof (good_balance _ _ G) as Hb.
  assert (Hk : Forall is_key (tx_inputs (ct_transaction c))) by (eapply Forall_impl; [exact Hg|]; by intros [|k]).
  split; [split; [done|apply G]|]; apply getTransactionFee_exact; [done| |lia].
  destruct Hok as [(_ & _ & _ & [Ho _] & _) _]; pose proof (ok_outputs_nonneg _ Ho); lia.
Qed.

(** The import of a block computes what addBlock computed when it accepted the block, on any
    chain with the same blocks up to the previous one. *)
Lemma import_replays now cb raw s parent vb l i c : represents (s :: parent) l -> checks now cb raw s parent = Ok (Ok vb) ->
  readable_block cb raw -> getBlockIndex (bh_previousBlockHash (cb_block cb)) s = Ok i -> block_bytes cb raw ->
  wf_cache c -> c <> [] -> infos c = take (Z.to_nat (i + 1)) (infos (s :: parent)) -> 0 <= m_rewardBlocksWindow currency ->
  import_block ndebug currency b0 (i + 1) raw (bh_previousBlockHash (cb_block cb)) c =
    let! c := push cb vb raw c in Ok (cb_hash cb, c).
Proof.
  intros R HC HB Ei [E1 E2] W Hc EI Hw; pose proof (rep_wf _ _ R) as Ws.
  destruct (addBlock_checks_accepted _ _ _ _ _ _ _ _ _ _ _ _ _ _ HC) as (i' & reward & fee & A).
  rewrite (acc_previous _ _ _ _ _ _ _ _ _ _ _ _ _ _ _ _ _ A) in Ei; injection Ei as ->.
  destruct (accepted_transactions _ _ _ _ _ _ _ _ _ _ _ _ _ _ _ _ _ _ R A HB) as (Em & Hcd & Ha & Hn & Hst & Ef & Hi & Hi0).
  assert (Hh : i < height (s :: parent)) by (rewrite (height_cons _ _ (proj1 Ws)); unfold in_segment in Hi; lia).
  assert (Hb : i + 1 < 2 ^ 32) by (pose proof (seg_bound _ _ (proj1 Ws)); rewrite (height_cons _ _ (proj1 Ws)) in Hh; lia).
  assert (Hhc : height c = i + 1) by (unfold height in *; rewrite EI, length_take; lia).
  unfold import_block; rewrite E1; cbn [rbind]; rewrite E2; cbn [rbind]; rewrite bool_decide_eq_true_2 by done; cbn [negb].
  destruct (acc_extract _ _ _ _ _ _ _ _ _ _ _ _ _ _ _ _ _ A) as (size & -> & Esz).
  assert (HF : Forall (fun c => spends_once c /\ getTransactionFee c = tx_fee c) (vb_transactions vb)).
  { apply Forall_forall; intros x Hx; rewrite Forall_forall in Ha, Hcd; apply (acceptable_fee now (s :: parent) i); [apply (Hcd x Hx)|by apply Ha]. }
  apply Forall_and in HF as [HF1 HF2]; rewrite extractSpentOutputs_all_ok by done; cbn [of_option rbind].
  replace (u32 (i + 1 - 1)) with i by (rewrite wrap_small by (unfold in_u; lia); lia).
  rewrite (getDifficultyForNextBlock_chain ndebug currency c i W) by lia.
  rewrite EI, take_take, Nat.min_id, <- (getDifficultyForNextBlock_chain ndebug currency (s :: parent) i Ws) by lia.
  rewrite (proj1 (acc_difficulty _ _ _ _ _ _ _ _ _ _ _ _ _ _ _ _ _ A)); cbn [rbind].
  destruct (acc_reward _ _ _ _ _ _ _ _ _ _ _ _ _ _ _ _ _ A) as (coins & sizes & Ec & Es & Er); unfold getEmissionChange.
  rewrite (coins_prefix c (s :: parent) i), Ec by (done || lia); cbn [rbind].
  unfold getLastBlocksSizes in *; rewrite (units_prefix ndebug bi_blockSize c (s :: parent)), Es by (done || lia); cbn [rbind].
  replace (fold_left _ _ _) with fee.
  2:{ rewrite Ef; rewrite (fold_u64_total getTransactionFee _ 0); f_equal; rewrite Z.add_0_l; f_equal.
      clear -HF2; induction HF2 as [|x xs Hx _ IH]; [done|]; cbn [map]; by rewrite Hx, IH. }
  replace (u64 (size + _)) with (vb_cumulativeBlockSize vb) by (rewrite Esz; f_equal; lia).
  rewrite Er; cbn [rbind]; destruct (vb_validatorState vb) as [st] eqn:Est; cbn in Hst; by rewrite Hst.
Qed.

(** The blocks of a chain and its ledger: the genesis block, then blocks that addBlock accepted on
    some chain with the same blocks up to the previous one. *)
Inductive history : list RawBlock -> segment -> ledger -> Prop :=
| history_genesis genesis blob base t :
    push_ok genesis base [] (mkValidatorState ∅) (getObjectBinarySize (bt_baseTransaction (cb_block genesis))) 1 (new_segment 0) [] ->
    ok_transaction (ct_transaction base) -> ct_transaction base = bt_baseTransaction (cb_block genesis) ->
    block_bytes genesis (mkRawBlock blob []) -> new_root ndebug genesis blob = Ok [t] ->
    history [mkRawBlock blob []] t [mkEntry (ct_transaction base) []]
| history_block raws t lt now cb raw s parent vb base l t' :
    history raws t lt -> represents (s :: parent) l -> checks now cb raw s parent = Ok (Ok vb) -> readable_block cb raw ->
    block_bytes cb raw -> getBlockIndex (bh_previousBlockHash (cb_block cb)) s = Ok (height [t] - 1) ->
    infos [t] = take (length (infos [t])) (infos (s :: parent)) -> lt = take (length (infos [t])) l ->
    room checkpoints cb base vb (height [t] - 1) t [] -> push cb vb raw [t] = Ok [t'] ->
    history (raws ++ [raw]) t' (lt ++ [mkEntry (bt_baseTransaction (cb_block cb)) (vb_transactions vb)]).

Abbreviation stored_as raws t := (Forall2 (fun raw info => rawBlockHash b0 raw = Ok (bi_blockHash info)) raws (infos [t])).

Lemma history_facts raws t l : history raws t l -> represents [t] l /\ raw_blocks [t] = raws /\ stored_as raws t /\ raws <> [].
Proof.
  induction 1 as [genesis blob base t P Hok Eb Hb E|raws t lt now cb raw s parent vb base l t' _ (RT & ER & HS & Hne) R HC HB Hb Ei EI -> RM E].
  - destruct (root_represents _ _ _ _ _ P Hok Eb I E) as (s & info & [= <-] & R & EI & ER & EH); split_and!; [done..| |done].
    rewrite EI; constructor; [by rewrite EH; apply block_bytes_hash|constructor].
  - destruct (block_extends ndebug currency checkpoints now _ _ _ _ _ cb raw s parent vb base (height [t] - 1) l t [] R HC HB Ei) as (t2 & E2 & R2 & EI2 & ER2).
    + replace (Z.to_nat _) with (length (infos [t])) by (unfold height; lia); done.
    + done.
    + rewrite E in E2; injection E2 as <-; replace (Z.to_nat _) with (length (infos [t])) in R2 by (unfold height; lia).
      split_and!; [done|by rewrite ER2, ER| |by destruct raws]; rewrite EI2; apply Forall2_app; [done|]; constructor; [|constructor].
      rewrite (block_bytes_hash _ _ Hb); unfold new_info; by destruct (totals [t]) as [[? ?] ?].
Qed.

Lemma history_height raws t l : history raws t l -> height [t] = Z.of_nat (length raws) /\ 0 < height [t] < 2 ^ 32 /\ blockInfos t <> [].
Proof.
  intros H; destruct (history_facts _ _ _ H) as (R & <- & _ & Hne); pose proof (raw_blocks_length [t] (rep_wf _ _ R)) as L.
  pose proof (seg_bound _ _ (proj1 (rep_wf _ _ R))) as Hb; rewrite <- (height_cons _ _ (proj1 (rep_wf _ _ R))) in Hb.
  unfold height in *; cbn [infos app raw_blocks] in *; destruct (storage t); [done|]; cbn [length] in *; split_and!; [lia..|].
  by intros E; rewrite E in L.
Qed.

(** The blocks of the storage are those of the chain. *)
Lemma stored_hash raws t l i raw : history raws t l -> at_index raws i = Some raw ->
  exists info, at_index (infos [t]) i = Some info /\ rawBlockHash b0 raw = Ok (bi_blockHash info).
Proof.
  intros H; destruct (history_facts _ _ _ H) as (_ & _ & HS & _); unfold at_index; destruct (i <? 0); [done|].
  intros E; destruct (Forall2_lookup_l _ _ _ _ _ HS E) as (info & ? & ?); by exists info.
Qed.

(** One more block. *)
Lemma history_import raws t lt now cb raw s parent vb l t' : history raws t lt -> 0 <= m_rewardBlocksWindow currency ->
  represents (s :: parent) l -> checks now cb raw s parent = Ok (Ok vb) -> readable_block cb raw ->
  block_bytes cb raw -> getBlockIndex (bh_previousBlockHash (cb_block cb)) s = Ok (height [t] - 1) ->
  infos [t] = take (length (infos [t])) (infos (s :: parent)) -> push cb vb raw [t] = Ok [t'] ->
  (exists last, at_index raws (height [t] - 1) = Some last /\ rawBlockHash b0 last = Ok (bh_previousBlockHash (cb_block cb))) /\
  import_block ndebug currency b0 (height [t]) raw (bh_previousBlockHash (cb_block cb)) [t] = Ok (cb_hash cb, [t']).
Proof.
  intros H Hw R HC HB Hb Ei EI E; destruct (history_height _ _ _ H) as (EL & Hh & _); destruct (history_facts _ _ _ H) as (RT & _).
  split.
  - destruct (proj2 (at_index_range raws (height [t] - 1)) ltac:(lia)) as [raw0 E0]; exists raw0; split; [done|].
    destruct (stored_hash _ _ _ _ _ H E0) as (info & Ea & ->); f_equal.
    destruct (getBlockIndex_range _ _ _ _ (proj1 (rep_wf _ _ R)) Ei) as (Hr & info' & Ea' & <-).
    pose proof (seg_start _ _ (proj1 (rep_wf _ _ R))) as Es; unfold in_segment in Hr; rewrite EI, at_index_take in Ea.
    destruct (_ <? _); [|done]; cbn [infos] in Ea; rewrite at_index_app, (proj2 (Z.ltb_ge _ _)) in Ea by (unfold height in Es; lia).
    unfold height in Es; rewrite <- Es, Ea' in Ea; by injection Ea as ->.
  - pose proof (import_replays now cb raw s parent vb l (height [t] - 1) [t] R HC HB Ei Hb (rep_wf _ _ RT)) as HI.
    replace (height [t] - 1 + 1) with (height [t]) in HI by lia; rewrite HI, E; [done|done| |done].
    rewrite EI at 1; f_equal; unfold height; lia.
Qed.

(** The history of a chain is determined by its raw blocks. *)
Lemma block_bytes_det cb cb' raw : block_bytes cb raw -> block_bytes cb' raw -> cb = cb'.
Proof. intros [E1 E2] [E1' E2']; rewrite E1 in E1'; injection E1' as E1'; rewrite E1' in E2; rewrite E2 in E2'; by injection E2'. Qed.

Lemma checks_transactions now cb raw s parent vb : checks now cb raw s parent = Ok (Ok vb) ->
  exists size, extractTransactions currency (rb_transactions raw) 0 = Some (vb_transactions vb, size).
Proof.
  intros HC; destruct (addBlock_checks_accepted _ _ _ _ _ _ _ _ _ _ _ _ _ _ HC) as (i & reward & fee & A).
  destruct (acc_extract _ _ _ _ _ _ _ _ _ _ _ _ _ _ _ _ _ A) as (size & E & _); by exists size.
Qed.

Lemma history_det raws t l t' l' : 0 <= m_rewardBlocksWindow currency -> history raws t l -> history raws t' l' -> t = t' /\ l = l'.
Proof.
  intros Hw H; revert t' l'.
  induction H as [genesis blob base t P Hok Eb Hb E|raws t lt now cb raw s parent vb base l t' H IH R HC HB Hb Ei EI El RM E];
    intros t2 l2 H2.
  - inversion H2 as [genesis' blob' base' ? P' Hok' Eb' Hb' E' E1|raws' ? ? ? ? ? ? ? ? ? ? ? H' ? ? ? ? ? ? ? ? ? E1]; subst.
    + pose proof (block_bytes_det _ _ _ Hb Hb'); subst genesis'; rewrite E in E'; injection E' as ->; by rewrite Eb, Eb'.
    + destruct (history_facts _ _ _ H') as (_ & _ & _ & Hne); destruct raws' as [|? [|]]; done.
  - inversion H2 as [? ? ? ? ? ? ? ? ? E1|raws' u lu now' cb' raw' s' parent' vb' base' k u' H' R' HC' HB' Hb' Ei' EI' El' RM' E' E1].
    { destruct (history_facts _ _ _ H) as (_ & _ & _ & Hne); destruct raws as [|? [|]]; done. }
    apply app_inj_tail in E1 as [-> ->]; destruct (IH _ _ H') as [-> ->]; pose proof (block_bytes_det _ _ _ Hb Hb'); subst cb'.
    pose proof (proj2 (history_import _ _ _ _ _ _ _ _ _ _ _ H Hw R HC HB Hb Ei EI E)) as I1.
    pose proof (proj2 (history_import _ _ _ _ _ _ _ _ _ _ _ H Hw R' HC' HB' Hb' Ei' EI' E')) as I2.
    rewrite I1 in I2; injection I2 as ->; split; [done|]; do 3 f_equal.
    destruct (checks_transactions _ _ _ _ _ _ HC) as [? X1]; destruct (checks_transactions _ _ _ _ _ _ HC') as [? X2].
    rewrite X1 in X2; by injection X2.
Qed.

(** The hash of the last block of [raws]. *)
Definition top_hash (raws : list RawBlock) (h : Hash) : Prop :=
  exists raw, at_index raws (Z.of_nat (length raws) - 1) = Some raw /\ rawBlockHash b0 raw = Ok h.

Lemma import_loop_snoc bs raw : forall i h c c1 h1, import_loop ndebug currency b0 i bs h c = Ok c1 ->
  (bs = [] -> h1 = h) -> (bs <> [] -> top_hash bs h1) ->
  import_loop ndebug currency b0 i (bs ++ [raw]) h c =
    let! r := import_block ndebug currency b0 (i + Z.of_nat (length bs)) raw h1 c1 in Ok r.2.
Proof.
  induction bs as [|b bs IH]; intros i h c c1 h1 E H1 H2.
  { injection E as <-; rewrite (H1 eq_refl), Z.add_0_r; cbn [app import_loop]; by destruct (import_block _ _ _ _ _ _ _). }
  cbn [app import_loop] in *; destruct (import_block ndebug currency b0 i b h c) as [[h0 c0]|] eqn:Eb; cbn [rbind fst snd] in *; [|done].
  rewrite (IH (i + 1) h0 c0 c1 h1 E); [do 2 f_equal; simpl length; lia| |].
  - intros ->; destruct (H2 ltac:(done)) as (r & [= <-] & Er); unfold import_block in Eb; unfold rawBlockHash in Er.
    destruct (extractBlockTemplate b0 b) as [tb|]; cbn [rbind] in *; [|done]; destruct (cached_block tb) as [cbk|]; cbn [rbind] in *; [|done].
    injection Er as <-; destruct (negb _); [done|]; destruct (extractTransactions _ _ _) as [[? ?]|]; [|done].
    do 4 (match type of Eb with context [rbind ?m _] => destruct m; cbn [rbind] in Eb; [|done] end); by injection Eb.
  - intros Hne; destruct (H2 ltac:(done)) as (r & Er & Eh); exists r; split; [|done]; unfold at_index in *; cbn [length] in Er.
    destruct bs as [|b' bs]; [done|]; cbn [length] in *.
    rewrite (proj2 (Z.ltb_ge _ _)) in Er by lia; rewrite (proj2 (Z.ltb_ge _ _)) by lia.
    replace (Z.to_nat _) with (Datatypes.S (length bs)) in Er by lia; by replace (Z.to_nat _) with (length bs) by lia.
Qed.

(** Importing the rest of the blocks restores the chain. *)
Lemma import_restores raws t l : 0 <= m_rewardBlocksWindow currency -> history raws t l -> forall raws1 raws2, raws = raws1 ++ raws2 -> raws1 <> [] ->
  exists t1 l1 h, history raws1 t1 l1 /\ top_hash raws1 h /\
    import_loop ndebug currency b0 (Z.of_nat (length raws1)) raws2 h [t1] = Ok [t].
Proof.
  intros Hw; assert (HT : forall raws t l, history raws t l -> exists h, top_hash raws h).
  { intros rs u k H; destruct (history_height _ _ _ H) as (EL & Hh & _); unfold top_hash.
    destruct (proj2 (at_index_range rs (Z.of_nat (length rs) - 1)) ltac:(lia)) as [x E0]; destruct (stored_hash _ _ _ _ _ H E0) as (info & _ & Ex).
    by exists (bi_blockHash info), x. }
  induction 1 as [genesis blob base t P Hok Eb Hb E|raws t lt now cb raw s parent vb base l t' H IH R HC HB Hb Ei EI El RM E];
    intros raws1 raws2 Er Hne.
  - destruct raws1 as [|r [|]], raws2; try done; injection Er as <-.
    pose proof (history_genesis genesis blob base t P Hok Eb Hb E) as H; destruct (HT _ _ _ H) as [h Hh].
    by exists t, [mkEntry (ct_transaction base) []], h.
  - destruct (decide (raws2 = [])) as [->|H2].
    { rewrite app_nil_r in Er; subst raws1.
      pose proof (history_block _ _ _ _ _ _ _ _ _ _ _ _ H R HC HB Hb Ei EI El RM E) as H'; destruct (HT _ _ _ H') as [h Hh].
      by exists t', (lt ++ [mkEntry (bt_baseTransaction (cb_block cb)) (vb_transactions vb)]), h. }
    destruct (exists_last H2) as (r2 & x & ->); rewrite app_assoc in Er; apply app_inj_tail in Er as [-> <-].
    destruct (IH _ _ eq_refl Hne) as (t1 & l1 & h & H1 & Hh & El1); exists t1, l1, h; split; [done|]; split; [done|].
    destruct (history_height _ _ _ H) as (EL & _).
    destruct (history_import _ _ _ _ _ _ _ _ _ _ _ H Hw R HC HB Hb Ei EI E) as [(lastb & Ea & Eh) EI1].
    rewrite (import_loop_snoc r2 raw _ _ _ _ (bh_previousBlockHash (cb_block cb)) El1).
    + rewrite <- Nat2Z.inj_add, <- length_app, <- EL, EI1; done.
    + intros ->; destruct Hh as (x & Ex & Eh'); rewrite app_nil_r in *; rewrite EL, Ex in Ea; injection Ea as ->.
      rewrite Eh in Eh'; by injection Eh'.
    + intros Hn; exists lastb; split; [|done]; rewrite EL, length_app, at_index_app, (proj2 (Z.ltb_ge _ _)) in Ea by (destruct r2; [done|simpl length; lia]).
      rewrite <- Ea; f_equal; lia.
Qed.

(** ** The start of a node *)

Section Synchronize.
Context (raws1 raws2 : list RawBlock) (s1 t : segment) (l1 l : ledger) (st : Core) (p : ptr) (n : node).
Hypothesis Hw : 0 <= m_rewardBlocksWindow currency.
Hypothesis H1 : history raws1 s1 l1.
Hypothesis H : history (raws1 ++ raws2) t l.
Hypothesis Hp : head (chainsLeaves st) = Some p.
Hypothesis Hn : heap st !! p = Some n.
Hypothesis Hseg : n_segment n = s1.
Hypothesis Hroot : n_parent n = None.
Hypothesis Hst : mainChainStorage st = raws1 ++ raws2.

Lemma same_below i : 0 <= i < Z.of_nat (length raws1) -> same_block b0 (raws1 ++ raws2) [s1] i = Ok true.
Proof.
  intros Hi; destruct (proj2 (at_index_range raws1 i) Hi) as [raw E]; destruct (stored_hash _ _ _ _ _ H1 E) as (info & Ea & Eh).
  destruct (history_facts _ _ _ H1) as (R & _); unfold same_block, mainStorage_getBlockByIndex.
  rewrite at_index_app, (proj2 (Z.ltb_lt _ _)), E by lia; cbn [of_option rbind]; rewrite Eh; cbn [rbind].
  rewrite getBlockHash_chain by (done || apply R || lia); rewrite Ea; cbn [fmap option_fmap option_map of_option rbind].
  by rewrite bool_decide_eq_true_2.
Qed.

Lemma common_at_top : findCommonRoot ndebug b0 (raws1 ++ raws2) s1 = Ok (Z.of_nat (length raws1) - 1).
Proof.
  destruct (history_facts _ _ _ H1) as (R1 & _); destruct (history_height _ _ _ H1) as (EL1 & Hh1 & Hs1).
  destruct (history_height _ _ _ H) as (EL & Hh & _); rewrite length_app in EL.
  destruct (findCommonRoot_spec ndebug b0 (raws1 ++ raws2) s1 (rep_wf _ _ R1) Hs1) as (r & E & Hr & _ & [Er|Er]).
  - rewrite length_app; lia.
  - apply Forall_forall; intros raw (k & Ek)%list_elem_of_lookup; destruct (history_facts _ _ _ H) as (_ & _ & HS & _).
    destruct (Forall2_lookup_l _ _ _ _ _ HS Ek) as (info & _ & ->); by eexists.
  - apply same_below; lia.
  - rewrite E; f_equal; rewrite length_app in Er; lia.
  - rewrite E; f_equal; rewrite length_app in Hr; destruct (Z.eq_dec (r + 1) (Z.of_nat (length raws1))); [lia|].
    rewrite same_below in Er by lia; done.
Qed.

Lemma root_top : getTopBlockIndex ndebug s1 = Ok (Z.of_nat (length raws1) - 1).
Proof.
  destruct (history_facts _ _ _ H1) as (R1 & _); destruct (history_height _ _ _ H1) as (EL1 & Hh1 & Hs1).
  unfold getTopBlockIndex, assert_res; rewrite bool_decide_eq_true_2, orb_true_r by done; cbn [rbind].
  destruct (wf_parent_top _ _ (rep_wf _ _ R1) Hs1) as [-> _]; by rewrite EL1.
Qed.

Lemma import_stored : importBlocksFromStorage ndebug currency b0 st = Ok (with_heap (<[p := with_segment t n]> (heap st)) st).
Proof.
  destruct (history_height _ _ _ H1) as (EL1 & Hh1 & Hs1); destruct (history_height _ _ _ H) as (EL & Hh & _).
  destruct (import_restores _ _ _ Hw H raws1 raws2 eq_refl) as (t1 & k1 & h & H1' & (lastb & Ea & Eh) & EI); [apply (history_facts _ _ _ H1)|].
  destruct (history_det _ _ _ _ _ Hw H1 H1') as [<- <-]; rewrite length_app in EL.
  unfold importBlocksFromStorage, main_leaf; rewrite Hp; cbn [of_option rbind]; unfold get_node at 1; rewrite Hn; cbn [of_option rbind].
  rewrite Hseg, Hst, common_at_top; cbn [rbind]; rewrite length_app; unfold assert_res at 1.
  rewrite (proj2 (Z.leb_le _ _)), orb_true_r by lia; cbn [rbind].
  replace (Z.of_nat (length raws1) - 1 + 1) with (Z.of_nat (length raws1)) by lia; unfold cutSegment, get_node at 1; rewrite Hn; cbn [of_option rbind].
  rewrite Hseg, root_top; cbn [rbind]; rewrite wrap_small by (unfold in_u; lia); rewrite (proj2 (Z.ltb_lt _ _)) by lia; cbn [rbind].
  rewrite Hst; unfold mainStorage_getBlockByIndex; rewrite at_index_app, (proj2 (Z.ltb_lt _ _)), Ea by lia; cbn [of_option rbind]; rewrite Eh; cbn [rbind].
  rewrite (chain_of_cache st p [s1]); [cbn [rbind]|exists [p]; split; [by eapply path_root|by rewrite (segs_cons _ _ _ _ Hn), Hseg]].
  rewrite Nat2Z.id, drop_app_length, EI; cbn [rbind]; unfold get_node; rewrite Hn; done.
Qed.

Lemma synchronize_restores : synchronize ndebug currency b0 st = Ok (with_initialized true (with_heap (<[p := with_segment t n]> (heap st)) st)).
Proof.
  destruct (history_height _ _ _ H1) as (EL1 & Hh1 & Hs1); destruct (history_height _ _ _ H) as (EL & Hh & _); rewrite length_app in EL.
  unfold synchronize, main_leaf; rewrite Hp; cbn [of_option rbind]; unfold get_node at 1; rewrite Hn; cbn [of_option rbind].
  rewrite Hseg, root_top; cbn [rbind]; rewrite Hst, length_app; unfold assert_res at 1; rewrite (proj2 (Z.eqb_neq _ _)), orb_true_r by lia; cbn [negb rbind].
  replace (Z.of_nat (length raws1) - 1 + 1) with (Z.of_nat (length raws1)) by lia; rewrite wrap_small by (unfold in_u; lia).
  destruct (decide (raws2 = [])) as [E2|E2].
  - rewrite E2; cbn [length]; rewrite Nat.add_0_r, (proj2 (Z.ltb_ge _ _)) by lia.
    destruct (Z.gtb_spec (Z.of_nat (length raws1)) (Z.of_nat (length raws1))); [lia|]; rewrite wrap_small by (unfold in_u; lia).
    unfold mainStorage_getBlockByIndex; rewrite at_index_app, (proj2 (Z.ltb_lt _ _)) by lia.
    destruct (proj2 (at_index_range raws1 (Z.of_nat (length raws1) - 1)) ltac:(lia)) as [raw E]; rewrite E; cbn [of_option rbind].
    destruct (stored_hash _ _ _ _ _ H1 E) as (info & _ & ->); cbn [rbind]; unfold getTopBlockHash.
    destruct (last (blockInfos s1)) as [x|] eqn:Ex; [|by apply last_None in Ex]; cbn [fmap option_fmap option_map of_option rbind].
    case_bool_decide; [by rewrite import_stored|]; cbn [rbind]; do 2 f_equal.
    assert (Ht : t = s1) by (apply (history_det raws1 t l s1 l1 Hw); [pose proof H as HH; by rewrite E2, app_nil_r in HH|done]).
    rewrite insert_id; [by destruct st|]; rewrite Hn, Ht, <- Hseg; by destruct n.
  - rewrite (proj2 (Z.gtb_lt _ _)) by (destruct raws2; [done|simpl length; lia]); by rewrite import_stored.
Qed.
End Synchronize.

Lemma history_root genesis blob raws t l : 0 <= m_rewardBlocksWindow currency -> block_bytes genesis (mkRawBlock blob []) ->
  history (mkRawBlock blob [] :: raws) t l -> exists t0 l0, new_root ndebug genesis blob = Ok [t0] /\ history [mkRawBlock blob []] t0 l0.
Proof.
  intros Hw Hb H; destruct (import_restores _ _ _ Hw H [mkRawBlock blob []] raws eq_refl ltac:(done)) as (t0 & l0 & h & H0 & _).
  exists t0, l0; split; [|done]; inversion H0 as [genesis' ? ? ? P Hok Eb Hb' E E1|raws' ? ? ? ? ? ? ? ? ? ? ? H' ? ? ? ? ? ? ? ? ? E1]; subst.
  - by rewrite (block_bytes_det _ _ _ Hb Hb').
  - destruct (history_facts _ _ _ H') as (_ & _ & _ & Hne); destruct raws' as [|? [|]]; done.
Qed.

(** C8. A node that starts with an empty database from the raw blocks in its
    storage has the chain it had built: if each block after the genesis block
    had been accepted by the checks of addBlock, at any time and on any chain
    with the same blocks up to its previous one, then load returns, its root
    is exactly the segment that these blocks make, which represents the same
    ledger, and the root is the only leaf and the main chain. Assumed as for
    pushing a block: blocks read from bytes, new and different transaction
    hashes, heights, sizes and counts within their fields, and no spent key
    image in a block of the checkpoint zone. *)
Theorem load_restores genesis blob raws t l st : 0 <= m_rewardBlocksWindow currency ->
  block_bytes genesis (mkRawBlock blob []) -> history (mkRawBlock blob [] :: raws) t l ->
  heap st = ∅ -> chainsStorage st = [] -> chainsLeaves st = [] -> mainChainSet st = ∅ -> mainChainStorage st = mkRawBlock blob [] :: raws ->
  represents [t] l /\ raw_blocks [t] = mainChainStorage st /\
  exists p median, load ndebug currency d b0 genesis blob st =
    Ok (mkCore {[p := mkNode t None [] true]} [p] [p] {[p]} (mainChainStorage st) (transactionPool st) median true).
Proof.
  intros Hw Hb H E1 E2 E3 E4 Es; destruct (history_facts _ _ _ H) as (R & Er & _); split; [done|]; split; [by rewrite Er|].
  destruct (history_root _ _ _ _ _ Hw Hb H) as (t0 & l0 & E0 & H0); destruct (history_facts _ _ _ H0) as (R0 & _).
  destruct (history_height _ _ _ H0) as (_ & Hh0 & Hs0).
  unfold load, initRootSegment; rewrite E0; cbn [head of_option rbind]; set (p := fresh _).
  cbn [with_chains with_mainChainSet with_heap chainsStorage chainsLeaves mainChainSet mainChainStorage transactionPool blockMedianSize initialized heap].
  rewrite E1, E2, E3, E4, insert_empty, union_empty_r_L; cbn [app].
  set (st1 := with_chains _ _ _); assert (Hn : heap st1 !! p = Some (mkNode t0 None [] true)) by (by apply lookup_singleton_eq).
  assert (exists median, updateBlockMedianSize ndebug currency d st1 = Ok (with_median median st1)) as [median ->]; [|cbn [rbind]; unfold database_load].
  { unfold updateBlockMedianSize, main_cache, main_leaf; change (head (chainsLeaves st1)) with (Some p); cbn [of_option rbind].
    rewrite (chain_of_cache st1 p [t0]); [|exists [p]; split; [by eapply path_root|by rewrite (segs_cons _ _ _ _ Hn)]]; cbn [rbind fst snd].
    unfold Validation.updateBlockMedianSize, getTopBlockIndex, assert_res; rewrite bool_decide_eq_true_2, orb_true_r by done; cbn [rbind].
    destruct (wf_parent_top _ _ (rep_wf _ _ R0) Hs0) as [-> _]; unfold getLastBlocksSizes.
    rewrite getLastUnits_chain by (apply R0 || lia); cbn [rbind]; by eexists. }
  rewrite (synchronize_restores [mkRawBlock blob []] raws t0 t l0 l (with_median median st1) p (mkNode t0 None [] true)); try done.
  exists p, median; unfold st1, with_initialized, with_chains, with_mainChainSet, with_heap, with_median, with_segment; cbn.
  by rewrite insert_singleton_eq.
Qed.
End Import.

(** ** A chain of two blocks in the storage *)

Section Sample.
Import Currency.
#[local] Existing Instance TreeHash.weak_FastHash.

Abbreviation no_hash := (fun _ : list Z => repeat 0 32).

Definition stored_template (h : Z) (previous : Hash) (tx : Transaction) : BlockTemplate :=
  mkBlockTemplate (mkBlockHeader 1 0 7 (1000 + 19000 * h) previous) (mkParentBlock 1 0 (repeat 0 32) 1 [] genesis_tx []) tx [].
Definition hashed (b : BlockTemplate) : CachedBlock :=
  mkCachedBlock b (match Block.getBlockHash b with Ok h => h | Err _ => [] end).
Definition stored_genesis : CachedBlock := hashed (stored_template 0 (repeat 0 32) genesis_tx).
Definition stored_next : CachedBlock := hashed (stored_template 1 (cb_hash stored_genesis) miner_tx).
Definition raw_of (b : BlockTemplate) : RawBlock := mkRawBlock (match Block.put_BlockTemplate b with Ok ba => ba | Err _ => [] end) [].


Definition stored_root : segment :=
  mkSegment 0 [mkTransactionInfo 0 0 (0 :: repeat 0 31) 40 [OutKey identity_image] [0]] ∅
    [mkBlockInfo (cb_hash stored_genesis) 1000 1 100 1 41] {[100 := mkGlobalIndexes 0 [mkOutIndex 0 0 0]]} [] [raw_of (cb_block stored_genesis)].

Lemma stored_root_ok : new_root false stored_genesis (rb_block (raw_of (cb_block stored_genesis))) = Ok [stored_root].
Proof. vm_compute; reflexivity. Qed.

Lemma stored_bytes cb : cb = stored_genesis \/ cb = stored_next -> block_bytes (cb_block stored_genesis) cb (raw_of (cb_block cb)).
Proof. intros [-> | ->]; split; vm_compute; reflexivity. Qed.

Lemma stored_accepted : addBlock_checks false mainnet [] 20000 no_hash no_hash no_hash (repeat 0 32) [] stored_next
  (raw_of (cb_block stored_next)) stored_root [] = Ok (Ok next_validated).
Proof.
  assert (E : check_outputs (tx_outputs (bt_baseTransaction (cb_block stored_next))) 0 = Ok (Ok 2980)).
  { apply check_outputs_spec; [|done|].
    - apply Forall_singleton; split; [done|exact identity_bytes].
    - split; [|done]; apply Forall_singleton; split; [done|exact identity_point]. }
  unfold addBlock_checks, validateBlock; rewrite E; vm_compute; reflexivity.
Qed.

Lemma stored_push_ok : push_ok stored_genesis (cached_tx genesis_tx) [] (mkValidatorState ∅)
  (getObjectBinarySize (bt_baseTransaction (cb_block stored_genesis))) 1 (new_segment 0) [].
Proof. destruct root_push_ok; split; try done; apply not_elem_of_nil. Qed.

Lemma stored_room : room [] stored_next (cached_tx miner_tx) next_validated 0 stored_root [].
Proof.
  destruct sample_room as [R1 R2 R3 R4 R5 R6 R7 R8 R9]; split; try done.
  intros H; apply list_elem_of_singleton in H; vm_compute in H; discriminate H.
Qed.

Abbreviation stored_history := (history false mainnet [] no_hash no_hash no_hash (repeat 0 32) [] (cb_block stored_genesis)).

Lemma stored_history_ok : exists t, stored_history [raw_of (cb_block stored_genesis); raw_of (cb_block stored_next)] t
  [mkEntry genesis_tx []; mkEntry miner_tx []].
Proof.
  pose proof (history_genesis false mainnet [] no_hash no_hash no_hash (repeat 0 32) [] (cb_block stored_genesis) stored_genesis
    (rb_block (raw_of (cb_block stored_genesis))) (cached_tx genesis_tx) stored_root stored_push_ok root_tx_ok eq_refl
    (stored_bytes _ (or_introl eq_refl)) stored_root_ok) as H0.
  destruct (history_facts _ _ _ _ _ _ _ _ _ _ _ _ H0) as (R & _).
  assert (Ei : getBlockIndex (bh_previousBlockHash (cb_block stored_next)) stored_root = Ok 0) by (vm_compute; reflexivity).
  assert (HB : readable_block stored_next (raw_of (cb_block stored_next))) by (exact (conj I (proj2 sample_readable))).
  destruct (block_extends false mainnet [] 20000 no_hash no_hash no_hash (repeat 0 32) [] stored_next (raw_of (cb_block stored_next))
    stored_root [] next_validated (cached_tx miner_tx) 0 _ stored_root [] R stored_accepted HB Ei R stored_room) as (t & E & _).
  exists t; exact (history_block _ _ _ _ _ _ _ _ _ [raw_of (cb_block stored_genesis)] stored_root _ 20000 stored_next
    (raw_of (cb_block stored_next)) stored_root [] next_validated (cached_tx miner_tx) _ t H0 R stored_accepted HB
    (stored_bytes _ (or_intror eq_refl)) Ei eq_refl eq_refl stored_room E).
Qed.

Definition stored_start : Core :=
  mkCore ∅ [] [] ∅ [raw_of (cb_block stored_genesis); raw_of (cb_block stored_next)] sample_wrapper 0 false.

Lemma load_restores_witness : exists t p median, represents [t] [mkEntry genesis_tx []; mkEntry miner_tx []] /\
  load false mainnet [] (cb_block stored_genesis) stored_genesis (rb_block (raw_of (cb_block stored_genesis))) stored_start =
    Ok (mkCore {[p := mkNode t None [] true]} [p] [p] {[p]} (mainChainStorage stored_start) sample_wrapper median true).
Proof.
  destruct stored_history_ok as [t H].
  destruct (load_restores false mainnet [] no_hash no_hash no_hash (repeat 0 32) [] (cb_block stored_genesis) stored_genesis
    (rb_block (raw_of (cb_block stored_genesis))) [raw_of (cb_block stored_next)] t [mkEntry genesis_tx []; mkEntry miner_tx []] stored_start) as (R & _ & p & median & E);
    [done|exact (stored_bytes _ (or_introl eq_refl))|exact H|reflexivity..|].
  exists t, p, median; exact (conj R E).
Defined.

(** The storage has the genesis block and the next one, the chain only the genesis block. *)
Lemma common_root_exact_witness : exists r, findCommonRoot false (cb_block stored_genesis) (mainChainStorage stored_start) stored_root = Ok r.
Proof.
  assert (S0 : same_block (cb_block stored_genesis) (mainChainStorage stored_start) [stored_root] 0 = Ok true) by (vm_compute; reflexivity).
  destruct stored_history_ok as [t H].
  assert (R : represents [stored_root] [mkEntry genesis_tx []]).
  { eapply (history_facts false mainnet [] no_hash no_hash no_hash (repeat 0 32) [] (cb_block stored_genesis));
      exact (history_genesis false mainnet [] no_hash no_hash no_hash (repeat 0 32) [] (cb_block stored_genesis) stored_genesis
        (rb_block (raw_of (cb_block stored_genesis))) (cached_tx genesis_tx) stored_root stored_push_ok root_tx_ok eq_refl
        (stored_bytes _ (or_introl eq_refl)) stored_root_ok). }
  destruct (common_root_exact false (cb_block stored_genesis) (mainChainStorage stored_start) stored_root) as (r & E & _).
  - apply R.
  - done.
  - done.
  - repeat constructor; eexists; vm_compute; reflexivity.
  - exact S0.
  - intros i j Hi Hj _; change (Z.min _ _) with 1 in Hj; replace i with 0 by lia; exact S0.
  - exists r; exact E.
Defined.
End Sample.

End StartupSpec.
