(* ===== verification/Addresses.v ===== *)
(** Account addresses as text: getAccountAddressAsStr and parseAccountAddressString of
    src/src/CryptoNoteCore/CryptoNoteBasicImpl.cpp and the conversions of
    src/src/Utilities/Addresses.cpp.

    A string is the list of its bytes.  [RuntimeError] is an exception; [Undefined] is the use of
    a key that a failed conversion has left uninitialised. *)

From S2P Require Import Prelude.
From S2P Require Import Config.
From S2P Require Import Types.
From S2P Require Import Keccak.
From S2P Require Import Base58.
From S2P Require Import Serialization.
From S2P Require Import PointCodec.
From S2P Require Import Crypto.
From S2P Require Import CryptoSpec.
From S2P Require Import BlockchainCache.

Module Addresses.

Import parameters Base58 Serialization Crypto BlockchainCache.

Section Addresses.
Context {FH : FastHash}.

(** The result of encode_addr is never missing for bytes. *)
Definition getAccountAddressAsStr (prefix : Z) (adr : AccountPublicAddress) : res (list Z) :=
  match put_AccountPublicAddress adr with
  | Ok ba => of_option Undefined (encode_addr prefix ba)
  | Err _ => Err Undefined
  end.

(** [None] is the result false. *)
Definition parseAccountAddressString (str : list Z) : res (option (Z * AccountPublicAddress)) :=
  match decode_addr str with
  | None => Ok None
  | Some (prefix, data) =>
    match fromBinaryArray get_AccountPublicAddress data with
    | Err _ => Ok None
    | Ok adr =>
      let! spend := of_option Undefined (check_key (spendPublicKey adr)) in
      if negb spend then Ok None
      else
        let! view := of_option Undefined (check_key (viewPublicKey adr)) in
        Ok (if view : bool then Some (prefix, adr) else None)
    end
  end.

Definition addressToKeys (address : list Z) : res (PublicKey * PublicKey) :=
  let! r := parseAccountAddressString address in
  match r with
  | None => Err RuntimeError
  | Some (prefix, parsedAddress) =>
    if negb (prefix =? CRYPTONOTE_PUBLIC_ADDRESS_BASE58_PREFIX) then Err RuntimeError
    else Ok (spendPublicKey parsedAddress, viewPublicKey parsedAddress)
  end.

Definition publicKeysToAddress (publicSpendKey publicViewKey : PublicKey) : res (list Z) :=
  getAccountAddressAsStr CRYPTONOTE_PUBLIC_ADDRESS_BASE58_PREFIX (mkAddress publicSpendKey publicViewKey).

(** The public key of a secret key, whose validity the callers do not test. *)
Definition public_key (privateKey : SecretKey) : res PublicKey :=
  let! r := of_option Undefined (secret_key_to_public_key privateKey) in of_option Undefined r.

Definition privateKeysToAddress (privateSpendKey privateViewKey : SecretKey) : res (list Z) :=
  let! publicSpendKey := public_key privateSpendKey in
  let! publicViewKey := public_key privateViewKey in
  publicKeysToAddress publicSpendKey publicViewKey.

(** ** Round trips *)

Import CryptoSpec.

Lemma public_key_ok s : scalar s -> public_key s = Ok (PointCodec.encode (base_mul (le_val s))).
Proof.
  intros Hs; unfold public_key; rewrite secret_key_to_public_key_spec by apply Hs.
  by rewrite (proj2 (Z.ltb_lt _ _)) by apply Hs.
Qed.

Lemma key_bytes key P : key_of key P -> wf_key key.
Proof. intros ->; split; [apply PointCodec.encode_length|apply PointCodec.encode_bytes]. Qed.

(** C39. The address of two public keys, or of two secret keys, can always be
    written, and addressToKeys reads the same public keys back from it. *)
Theorem account_address_roundtrip S V s v : (exists P, key_of S P) -> (exists P, key_of V P) -> scalar s -> scalar v ->
  (exists address, publicKeysToAddress S V = Ok address /\ addressToKeys address = Ok (S, V)) /\
  (exists address, privateKeysToAddress s v = Ok address /\
    addressToKeys address = Ok (PointCodec.encode (base_mul (le_val s)), PointCodec.encode (base_mul (le_val v)))).
Proof.
  assert (H : forall S V P Q, key_of S P -> key_of V Q -> exists address, publicKeysToAddress S V = Ok address /\ addressToKeys address = Ok (S, V)).
  { intros S0 V0 P Q HS HV; unfold publicKeysToAddress, getAccountAddressAsStr.
    assert (Hok : ok_address (mkAddress S0 V0)) by (split; [apply (key_bytes _ _ HS)|apply (key_bytes _ _ HV)]).
    assert (E : put_AccountPublicAddress (mkAddress S0 V0) = Ok (S0 ++ V0)) by reflexivity.
    assert (Hb : Forall is_byte (S0 ++ V0)) by (apply Forall_app; split; [apply (key_bytes _ _ HS)|apply (key_bytes _ _ HV)]).
    destruct (address_roundtrip CRYPTONOTE_PUBLIC_ADDRESS_BASE58_PREFIX (S0 ++ V0)) as (address & Ea & Ed); [done|done|].
    rewrite E, Ea; exists address; split; [done|]; unfold addressToKeys, parseAccountAddressString; rewrite Ed.
    rewrite (proj2 (fromBinaryArray_exact get_AccountPublicAddress _ _ _ _ Hb) (conj Hok E)); cbn [spendPublicKey viewPublicKey].
    by rewrite (check_key_ok _ _ HS), (check_key_ok _ _ HV). }
  intros [P HS] [Q HV] Hs Hv; split; [by apply (H S V P Q)|].
  unfold privateKeysToAddress; rewrite !public_key_ok by done; cbn [rbind]; by eapply H.
Qed.
End Addresses.

Lemma account_address_roundtrip_witness :
  let S := PointCodec.encode (CryptoSpec.base_mul 5) in let V := PointCodec.encode (CryptoSpec.base_mul 6) in
  exists address, publicKeysToAddress (FH := Keccak.keccak_FastHash) S V = Ok address /\
    addressToKeys (FH := Keccak.keccak_FastHash) address = Ok (S, V).
Proof.
  intros S V; exact (proj1 (account_address_roundtrip (FH := Keccak.keccak_FastHash) S V (CryptoSpec.enc_scalar 5) (CryptoSpec.enc_scalar 6)
    (ex_intro _ _ eq_refl) (ex_intro _ _ eq_refl) (CryptoSpec.enc_scalar_ok 5) (CryptoSpec.enc_scalar_ok 6))).
Defined.

End Addresses.
