(* ===== verification/Wallet.v ===== *)
(** Wallets: src/src/SubWallets/SubWallet.cpp and SubWallets.cpp,
    src/src/WalletBackend/SynchronizationStatus.cpp, and the processing of blocks in
    src/src/WalletBackend/WalletSynchronizer.cpp.

    std::unordered_map is a [gmap]; a loop over one takes its elements in the order of the [gmap],
    where the order of the source is unspecified.  The clock, the random bytes, the permutation
    that std::shuffle makes and the answers of the daemon are arguments.  An exception is
    [RuntimeError] or, for at(), [OutOfRange]; the use of a key that a failed function of
    crypto.cpp has left uninitialised is [Undefined].  Locks and events are not modelled. *)

From S2P Require Import Prelude.
From S2P Require Import Config.
From S2P Require Import Types.
From S2P Require Import Keccak.
From S2P Require Import Crypto.
From S2P Require Import BlockchainCache.
From S2P Require Import Addresses.

Module Wallet.

Import parameters Crypto BlockchainCache Addresses.

(** ** Data *)

(** WalletTypes::KeyOutput *)
Record KeyOutput := mkKeyOutput {
  ko_key : PublicKey;
  ko_amount : Z;
  ko_globalOutputIndex : option Z }.

Record RawCoinbaseTransaction := mkRawCoinbase {
  rc_keyOutputs : list KeyOutput;
  rc_hash : Hash;
  rc_transactionPublicKey : PublicKey;
  rc_unlockTime : Z }.

Record RawTransaction := mkRawTransaction {
  rt_base :> RawCoinbaseTransaction;
  rt_paymentID : list Z;
  rt_keyInputs : list KeyInput }.

Record WalletBlockInfo := mkWalletBlock {
  wb_coinbaseTransaction : RawCoinbaseTransaction;
  wb_transactions : list RawTransaction;
  wb_blockHeight : Z;
  wb_blockHash : Hash;
  wb_blockTimestamp : Z }.

(** WalletTypes::TransactionInput *)
Record WalletInput := mkWalletInput {
  wi_keyImage : KeyImage;
  wi_amount : Z;
  wi_blockHeight : Z;
  wi_transactionPublicKey : PublicKey;
  wi_transactionIndex : Z;
  wi_globalOutputIndex : option Z;
  wi_key : PublicKey;
  wi_spendHeight : Z;
  wi_unlockTime : Z;
  wi_parentTransactionHash : Hash }.

Definition with_spendHeight (h : Z) (i : WalletInput) : WalletInput :=
  mkWalletInput (wi_keyImage i) (wi_amount i) (wi_blockHeight i) (wi_transactionPublicKey i) (wi_transactionIndex i)
    (wi_globalOutputIndex i) (wi_key i) h (wi_unlockTime i) (wi_parentTransactionHash i).
Definition with_globalIndex (g : option Z) (i : WalletInput) : WalletInput :=
  mkWalletInput (wi_keyImage i) (wi_amount i) (wi_blockHeight i) (wi_transactionPublicKey i) (wi_transactionIndex i)
    g (wi_key i) (wi_spendHeight i) (wi_unlockTime i) (wi_parentTransactionHash i).

Record UnconfirmedInput := mkUnconfirmed {
  ui_amount : Z;
  ui_key : PublicKey;
  ui_parentTransactionHash : Hash }.

Record TxInputAndOwner := mkOwned {
  io_input : WalletInput;
  io_publicSpendKey : PublicKey;
  io_privateSpendKey : SecretKey }.

(** WalletTypes::Transaction *)
Record WalletTransaction := mkWalletTransaction {
  wt_transfers : gmap PublicKey Z;
  wt_hash : Hash;
  wt_fee : Z;
  wt_timestamp : Z;
  wt_blockHeight : Z;
  wt_paymentID : list Z;
  wt_unlockTime : Z;
  wt_isCoinbaseTransaction : bool }.

Record SubWallet := mkSubWallet {
  m_unspentInputs : list WalletInput;
  m_lockedInputs : list WalletInput;
  m_spentInputs : list WalletInput;
  m_unconfirmedIncomingAmounts : list UnconfirmedInput;
  m_publicSpendKey : PublicKey;
  m_privateSpendKey : SecretKey;
  m_syncStartTimestamp : Z;
  m_syncStartHeight : Z;
  m_address : list Z;
  m_isPrimaryAddress : bool }.

(** A subwallet with other inputs. *)
Definition with_inputs (unspent locked spent : list WalletInput) (unconfirmed : list UnconfirmedInput) (w : SubWallet) : SubWallet :=
  mkSubWallet unspent locked spent unconfirmed (m_publicSpendKey w) (m_privateSpendKey w) (m_syncStartTimestamp w)
    (m_syncStartHeight w) (m_address w) (m_isPrimaryAddress w).

Definition with_start (timestamp height : Z) (w : SubWallet) : SubWallet :=
  mkSubWallet (m_unspentInputs w) (m_lockedInputs w) (m_spentInputs w) (m_unconfirmedIncomingAmounts w) (m_publicSpendKey w)
    (m_privateSpendKey w) timestamp height (m_address w) (m_isPrimaryAddress w).

(** ** Utilities *)

(** The time is an argument. *)
Definition isInputUnlocked (now unlockTime currentHeight : Z) : bool :=
  if unlockTime =? 0 then true
  else if unlockTime >=? CRYPTONOTE_MAX_BLOCK_NUMBER then
    u64 (u64 now + CRYPTONOTE_LOCKED_TX_ALLOWED_DELTA_SECONDS) >=? unlockTime
  else u64 (currentHeight + CRYPTONOTE_LOCKED_TX_ALLOWED_DELTA_BLOCKS) >=? unlockTime.

(** The time, reduced by the largest of the limits on future blocks. *)
Definition getCurrentTimestampAdjusted (now : Z) : Z :=
  u64 (u64 now - Z.max CRYPTONOTE_BLOCK_FUTURE_TIME_LIMIT
    (Z.max CRYPTONOTE_BLOCK_FUTURE_TIME_LIMIT_V3 CRYPTONOTE_BLOCK_FUTURE_TIME_LIMIT_V4)).

Definition getLowerBound (val nearestMultiple : Z) : Z := u64 (val - val mod nearestMultiple).
Definition getUpperBound (val nearestMultiple : Z) : Z := u64 (getLowerBound val nearestMultiple + nearestMultiple).

(** ** One subwallet: the member functions of SubWallet *)

Definition BLANK_SECRET_KEY : SecretKey := repeat 0 32.
Definition zero_image : KeyImage := repeat 0 32.

Section Keys.
Context {FH : FastHash} (ndebug : bool).

Definition sub_getTxInputKeyImage (derivation : KeyDerivation) (outputIndex : Z) (isViewWallet : bool) (w : SubWallet) : res KeyImage :=
  if negb isViewWallet then
    let! r := of_option Undefined (derive_public_key derivation outputIndex (m_publicSpendKey w)) in
    let! publicKey := of_option Undefined r in
    let! secretKey := of_option Undefined (derive_secret_key ndebug derivation outputIndex (m_privateSpendKey w)) in
    of_option Undefined (generate_key_image ndebug publicKey secretKey)
  else Ok zero_image.
End Keys.

Definition sub_storeTransactionInput (input : WalletInput) (isViewWallet : bool) (w : SubWallet) : SubWallet :=
  let unconfirmed := if negb isViewWallet
    then filter (fun storedInput => ui_key storedInput <> wi_key input) (m_unconfirmedIncomingAmounts w)
    else m_unconfirmedIncomingAmounts w in
  with_inputs (m_unspentInputs w ++ [input]) (m_lockedInputs w) (m_spentInputs w) unconfirmed w.

(** The unlocked and the locked balance. *)
Definition sub_getBalance (now currentHeight : Z) (w : SubWallet) : Z * Z :=
  let '(unlockedBalance, lockedBalance) :=
    fold_left (fun '(unlocked, locked) input =>
      if isInputUnlocked now (wi_unlockTime input) currentHeight then (u64 (unlocked + wi_amount input), locked)
      else (unlocked, u64 (locked + wi_amount input))) (m_unspentInputs w) (0, 0) in
  (unlockedBalance, fold_left (fun locked input => u64 (locked + ui_amount input)) (m_unconfirmedIncomingAmounts w) lockedBalance).

Definition sub_reset (scanHeight : Z) (w : SubWallet) : SubWallet := with_start 0 scanHeight (with_inputs [] [] [] [] w).

Definition sub_hasKeyImage (keyImage : KeyImage) (w : SubWallet) : bool :=
  existsb (fun input => bool_decide (wi_keyImage input = keyImage)) (m_unspentInputs w) ||
  existsb (fun input => bool_decide (wi_keyImage input = keyImage)) (m_lockedInputs w).

(** std::find_if for the key image and erase: the input and the other inputs. *)
Fixpoint extract_input (keyImage : KeyImage) (inputs : list WalletInput) : option (WalletInput * list WalletInput) :=
  match inputs with
  | [] => None
  | x :: inputs =>
    if bool_decide (wi_keyImage x = keyImage) then Some (x, inputs)
    else match extract_input keyImage inputs with None => None | Some (y, rest) => Some (y, x :: rest) end
  end.

Definition sub_markInputAsSpent (keyImage : KeyImage) (spendHeight : Z) (w : SubWallet) : res SubWallet :=
  match extract_input keyImage (m_unspentInputs w) with
  | Some (input, rest) =>
    Ok (with_inputs rest (m_lockedInputs w) (m_spentInputs w ++ [with_spendHeight spendHeight input]) (m_unconfirmedIncomingAmounts w) w)
  | None =>
    match extract_input keyImage (m_lockedInputs w) with
    | Some (input, rest) =>
      Ok (with_inputs (m_unspentInputs w) rest (m_spentInputs w ++ [with_spendHeight spendHeight input]) (m_unconfirmedIncomingAmounts w) w)
    | None => Err RuntimeError
    end
  end.

Definition sub_markInputAsLocked (keyImage : KeyImage) (w : SubWallet) : res SubWallet :=
  match extract_input keyImage (m_unspentInputs w) with
  | None => Err RuntimeError
  | Some (input, rest) =>
    Ok (with_inputs rest (m_lockedInputs w ++ [input]) (m_spentInputs w) (m_unconfirmedIncomingAmounts w) w)
  end.

(** The predicate of std::remove_if appends what it removes to the unspent inputs. *)
Definition sub_removeForkedInputs (forkHeight : Z) (w : SubWallet) : SubWallet :=
  let unspent := filter (fun input => wi_blockHeight input < forkHeight) (m_unspentInputs w) in
  let returned := filter (fun input => forkHeight <= wi_spendHeight input) (m_spentInputs w) in
  with_inputs (unspent ++ map (with_spendHeight 0) returned) []
    (filter (fun input => wi_spendHeight input < forkHeight) (m_spentInputs w)) [] w.

Definition sub_removeCancelledTransactions (cancelledTransactions : gset Hash) (w : SubWallet) : SubWallet :=
  let returned := filter (fun input => wi_parentTransactionHash input ∈ cancelledTransactions) (m_lockedInputs w) in
  with_inputs (m_unspentInputs w ++ map (with_spendHeight 0) returned)
    (filter (fun input => wi_parentTransactionHash input ∉ cancelledTransactions) (m_lockedInputs w)) (m_spentInputs w)
    (filter (fun input => ui_parentTransactionHash input ∉ cancelledTransactions) (m_unconfirmedIncomingAmounts w)) w.

Definition sub_getSpendableInputs (now height : Z) (w : SubWallet) : list TxInputAndOwner :=
  map (fun input => mkOwned input (m_publicSpendKey w) (m_privateSpendKey w))
    (filter (fun input => isInputUnlocked now (wi_unlockTime input) height = true) (m_unspentInputs w)).

Definition sub_storeUnconfirmedIncomingInput (input : UnconfirmedInput) (w : SubWallet) : SubWallet :=
  with_inputs (m_unspentInputs w) (m_lockedInputs w) (m_spentInputs w) (m_unconfirmedIncomingAmounts w ++ [input]) w.

Definition sub_convertSyncTimestampToHeight (timestamp height : Z) (w : SubWallet) : SubWallet :=
  if negb (m_syncStartTimestamp w =? 0) then with_start timestamp height w else w.

(** ** The container: the member functions of SubWallets *)

Inductive ErrorCode :=
| SUCCESS
| ADDRESS_NOT_IN_WALLET
| ILLEGAL_VIEW_WALLET_OPERATION
| ILLEGAL_NON_VIEW_WALLET_OPERATION
| CANNOT_DELETE_PRIMARY_ADDRESS
| SUBWALLET_ALREADY_EXISTS.

Record SubWallets := mkSubWallets {
  m_subWallets : gmap PublicKey SubWallet;
  m_transactions : list WalletTransaction;
  m_lockedTransactions : list WalletTransaction;
  m_privateViewKey : SecretKey;
  m_isViewWallet : bool;
  m_publicSpendKeys : list PublicKey;
  m_transactionPrivateKeys : gmap Hash SecretKey }.

Definition with_subWallets (m : gmap PublicKey SubWallet) (ws : SubWallets) : SubWallets :=
  mkSubWallets m (m_transactions ws) (m_lockedTransactions ws) (m_privateViewKey ws) (m_isViewWallet ws) (m_publicSpendKeys ws)
    (m_transactionPrivateKeys ws).
Definition with_transactions (txs locked : list WalletTransaction) (ws : SubWallets) : SubWallets :=
  mkSubWallets (m_subWallets ws) txs locked (m_privateViewKey ws) (m_isViewWallet ws) (m_publicSpendKeys ws)
    (m_transactionPrivateKeys ws).
Definition with_publicSpendKeys (keys : list PublicKey) (ws : SubWallets) : SubWallets :=
  mkSubWallets (m_subWallets ws) (m_transactions ws) (m_lockedTransactions ws) (m_privateViewKey ws) (m_isViewWallet ws) keys
    (m_transactionPrivateKeys ws).
Definition with_privateKeys (keys : gmap Hash SecretKey) (ws : SubWallets) : SubWallets :=
  mkSubWallets (m_subWallets ws) (m_transactions ws) (m_lockedTransactions ws) (m_privateViewKey ws) (m_isViewWallet ws)
    (m_publicSpendKeys ws) keys.

(** A subwallet without inputs. *)
Definition new_SubWallet (publicSpendKey : PublicKey) (privateSpendKey : SecretKey) (address : list Z) (scanHeight scanTimestamp : Z)
    (isPrimaryAddress : bool) : SubWallet :=
  mkSubWallet [] [] [] [] publicSpendKey privateSpendKey scanTimestamp scanHeight address isPrimaryAddress.

(** The new subwallet and its key, at the end of the keys. *)
Definition add_subWallet (w : SubWallet) (ws : SubWallets) : SubWallets :=
  with_publicSpendKeys (m_publicSpendKeys ws ++ [m_publicSpendKey w])
    (with_subWallets (<[m_publicSpendKey w := w]> (m_subWallets ws)) ws).

Section Create.
Context {FH : FastHash}.

Definition new_SubWallets (privateSpendKey privateViewKey : SecretKey) (address : list Z) (scanHeight : Z) (newWallet : bool) (now : Z)
  : res SubWallets :=
  let! publicSpendKey := public_key privateSpendKey in
  let timestamp := if newWallet then getCurrentTimestampAdjusted now else 0 in
  Ok (add_subWallet (new_SubWallet publicSpendKey privateSpendKey address scanHeight timestamp true)
       (mkSubWallets ∅ [] [] privateViewKey false [] ∅)).

Definition new_ViewSubWallets (privateViewKey : SecretKey) (address : list Z) (scanHeight : Z) (newWallet : bool) (now : Z)
  : res SubWallets :=
  let! keys := addressToKeys address in
  let timestamp := if newWallet then getCurrentTimestampAdjusted now else 0 in
  Ok (add_subWallet (new_SubWallet keys.1 BLANK_SECRET_KEY address scanHeight timestamp true)
       (mkSubWallets ∅ [] [] privateViewKey true [] ∅)).

(** [tmp] are the random bytes of the spend key. *)
Definition addSubWallet (tmp : list Z) (now : Z) (ws : SubWallets) : res (ErrorCode * list Z * SecretKey * SubWallets) :=
  if m_isViewWallet ws then Ok (ILLEGAL_VIEW_WALLET_OPERATION, [], repeat 0 32, ws)
  else
    let! spendKey := of_option Undefined (generate_keys tmp) in
    let! address := privateKeysToAddress spendKey.2 (m_privateViewKey ws) in
    Ok (SUCCESS, address, spendKey.2,
        add_subWallet (new_SubWallet spendKey.1 spendKey.2 address 0 (getCurrentTimestampAdjusted now) false) ws).

Definition importSubWallet (privateSpendKey : SecretKey) (scanHeight : Z) (ws : SubWallets) : res (ErrorCode * list Z * SubWallets) :=
  if m_isViewWallet ws then Ok (ILLEGAL_VIEW_WALLET_OPERATION, [], ws)
  else
    let! publicSpendKey := public_key privateSpendKey in
    let! address := privateKeysToAddress privateSpendKey (m_privateViewKey ws) in
    match m_subWallets ws !! publicSpendKey with
    | Some _ => Ok (SUBWALLET_ALREADY_EXISTS, [], ws)
    | None => Ok (SUCCESS, address, add_subWallet (new_SubWallet publicSpendKey privateSpendKey address scanHeight 0 false) ws)
    end.

Definition importViewSubWallet (publicSpendKey : PublicKey) (scanHeight : Z) (ws : SubWallets) : res (ErrorCode * list Z * SubWallets) :=
  if negb (m_isViewWallet ws) then Ok (ILLEGAL_NON_VIEW_WALLET_OPERATION, [], ws)
  else
    match m_subWallets ws !! publicSpendKey with
    | Some _ => Ok (SUBWALLET_ALREADY_EXISTS, [], ws)
    | None =>
      let! publicViewKey := public_key (m_privateViewKey ws) in
      let! address := publicKeysToAddress publicSpendKey publicViewKey in
      Ok (SUCCESS, address, add_subWallet (new_SubWallet publicSpendKey BLANK_SECRET_KEY address scanHeight 0 false) ws)
    end.

(** A transaction of the subwallet alone is dropped, else the transfer of the subwallet is. *)
Definition deleteAddressTransactions (txs : list WalletTransaction) (spendKey : PublicKey) : list WalletTransaction :=
  omap (fun tx =>
    match wt_transfers tx !! spendKey with
    | None => Some tx
    | Some _ =>
      if Z.of_nat (size (wt_transfers tx)) =? 1 then None
      else Some (mkWalletTransaction (delete spendKey (wt_transfers tx)) (wt_hash tx) (wt_fee tx) (wt_timestamp tx) (wt_blockHeight tx)
             (wt_paymentID tx) (wt_unlockTime tx) (wt_isCoinbaseTransaction tx))
    end) txs.

Definition deleteSubWallet (address : list Z) (ws : SubWallets) : res (ErrorCode * SubWallets) :=
  let! keys := addressToKeys address in
  let spendKey := keys.1 in
  match m_subWallets ws !! spendKey with
  | None => Ok (ADDRESS_NOT_IN_WALLET, ws)
  | Some w =>
    if m_isPrimaryAddress w then Ok (CANNOT_DELETE_PRIMARY_ADDRESS, ws)
    else
      let ws := with_subWallets (delete spendKey (m_subWallets ws)) ws in
      let ws := with_transactions (deleteAddressTransactions (m_transactions ws) spendKey)
                  (deleteAddressTransactions (m_lockedTransactions ws) spendKey) ws in
      Ok (SUCCESS, with_publicSpendKeys (filter (fun key => key <> spendKey) (m_publicSpendKeys ws)) ws)
  end.
End Create.

(** m_subWallets.find and at, for the functions that change a subwallet. *)
Definition update_subWallet (e : cache_error) (publicSpendKey : PublicKey) (f : SubWallet -> res SubWallet) (ws : SubWallets) : res SubWallets :=
  match m_subWallets ws !! publicSpendKey with
  | None => Err e
  | Some w => let! w := f w in Ok (with_subWallets (<[publicSpendKey := w]> (m_subWallets ws)) ws)
  end.

Definition throwIfViewWallet (ws : SubWallets) : res unit := if m_isViewWallet ws then Err RuntimeError else Ok tt.

Definition has_hash (hash : Hash) (txs : list WalletTransaction) : bool := existsb (fun tx => bool_decide (hash = wt_hash tx)) txs.

Definition addUnconfirmedTransaction (tx : WalletTransaction) (ws : SubWallets) : res SubWallets :=
  if has_hash (wt_hash tx) (m_lockedTransactions ws) then Err RuntimeError
  else Ok (with_transactions (m_transactions ws) (m_lockedTransactions ws ++ [tx]) ws).

(** The transaction leaves the locked ones even when the exception follows. *)
Definition addTransaction (tx : WalletTransaction) (ws : SubWallets) : res SubWallets :=
  let locked := filter (fun transaction => wt_hash tx <> wt_hash transaction) (m_lockedTransactions ws) in
  if has_hash (wt_hash tx) (m_transactions ws) then Err RuntimeError
  else Ok (with_transactions (m_transactions ws ++ [tx]) locked ws).

Definition storeTransactionInput (publicSpendKey : PublicKey) (input : WalletInput) (ws : SubWallets) : res SubWallets :=
  update_subWallet RuntimeError publicSpendKey (fun w => Ok (sub_storeTransactionInput input (m_isViewWallet ws) w)) ws.

(** The key of the first subwallet with the key image. *)
Definition getKeyImageOwner (keyImage : KeyImage) (ws : SubWallets) : option PublicKey :=
  if m_isViewWallet ws then None
  else match list_find (fun kw => sub_hasKeyImage keyImage kw.2 = true) (map_to_list (m_subWallets ws)) with
  | Some (_, (_, w)) => Some (m_publicSpendKey w)
  | None => None
  end.

(** m_subWallets.at for every key. *)
Fixpoint wallets_at (keys : list PublicKey) (ws : SubWallets) : res (list SubWallet) :=
  match keys with
  | [] => Ok []
  | publicKey :: keys =>
    let! w := of_option OutOfRange (m_subWallets ws !! publicKey) in
    let! rest := wallets_at keys ws in Ok (w :: rest)
  end.

Fixpoint collect_inputs (amount foundMoney : Z) (available inputsToUse : list TxInputAndOwner) : res (list TxInputAndOwner * Z) :=
  match available with
  | [] => Err RuntimeError
  | walletAmount :: available =>
    let inputsToUse := inputsToUse ++ [walletAmount] in
    let foundMoney := u64 (foundMoney + wi_amount (io_input walletAmount)) in
    if foundMoney >=? amount then Ok (inputsToUse, foundMoney) else collect_inputs amount foundMoney available inputsToUse
  end.

(** [shuffle] is the permutation of std::shuffle. *)
Definition getTransactionInputsForAmount (shuffle : list TxInputAndOwner -> list TxInputAndOwner) (now amount : Z) (takeFromAll : bool)
    (subWalletsToTakeFrom : list PublicKey) (height : Z) (ws : SubWallets) : res (list TxInputAndOwner * Z) :=
  let! _ := throwIfViewWallet ws in
  let! wallets := wallets_at (if takeFromAll then m_publicSpendKeys ws else subWalletsToTakeFrom) ws in
  let availableInputs := concat (map (sub_getSpendableInputs now height) wallets) in
  collect_inputs amount 0 (shuffle availableInputs) [].

Definition getBalance (now : Z) (subWalletsToTakeFrom : list PublicKey) (takeFromAll : bool) (currentHeight : Z) (ws : SubWallets)
  : res (Z * Z) :=
  let! wallets := wallets_at (if takeFromAll then m_publicSpendKeys ws else subWalletsToTakeFrom) ws in
  Ok (fold_left (fun '(unlockedBalance, lockedBalance) w =>
        let '(unlocked, locked) := sub_getBalance now currentHeight w in
        (u64 (unlockedBalance + unlocked), u64 (lockedBalance + locked))) wallets (0, 0)).

Definition markInputAsSpent (keyImage : KeyImage) (publicKey : PublicKey) (spendHeight : Z) (ws : SubWallets) : res SubWallets :=
  let! _ := throwIfViewWallet ws in
  update_subWallet OutOfRange publicKey (sub_markInputAsSpent keyImage spendHeight) ws.

Definition markInputAsLocked (keyImage : KeyImage) (publicKey : PublicKey) (ws : SubWallets) : res SubWallets :=
  let! _ := throwIfViewWallet ws in
  update_subWallet OutOfRange publicKey (sub_markInputAsLocked keyImage) ws.

Definition removeForkedTransactions (forkHeight : Z) (ws : SubWallets) : SubWallets :=
  with_subWallets (sub_removeForkedInputs forkHeight <$> m_subWallets ws)
    (with_transactions (filter (fun tx => wt_blockHeight tx < forkHeight) (m_transactions ws)) (m_lockedTransactions ws) ws).

Definition removeCancelledTransactions (cancelledTransactions : gset Hash) (ws : SubWallets) : res SubWallets :=
  let! _ := throwIfViewWallet ws in
  Ok (with_subWallets (sub_removeCancelledTransactions cancelledTransactions <$> m_subWallets ws)
       (with_transactions (m_transactions ws) (filter (fun tx => wt_hash tx ∉ cancelledTransactions) (m_lockedTransactions ws)) ws)).

Definition getLockedTransactionsHashes (ws : SubWallets) : res (gset Hash) :=
  let! _ := throwIfViewWallet ws in Ok (list_to_set (map wt_hash (m_lockedTransactions ws))).

Definition reset (scanHeight : Z) (ws : SubWallets) : SubWallets :=
  with_subWallets (sub_reset scanHeight <$> m_subWallets ws) (with_privateKeys ∅ (with_transactions [] [] ws)).

Definition storeTxPrivateKey (txPrivateKey : SecretKey) (txHash : Hash) (ws : SubWallets) : SubWallets :=
  with_privateKeys (<[txHash := txPrivateKey]> (m_transactionPrivateKeys ws)) ws.

Definition storeUnconfirmedIncomingInput (input : UnconfirmedInput) (publicSpendKey : PublicKey) (ws : SubWallets) : SubWallets :=
  match m_subWallets ws !! publicSpendKey with
  | None => ws
  | Some w => with_subWallets (<[publicSpendKey := sub_storeUnconfirmedIncomingInput input w]> (m_subWallets ws)) ws
  end.

(** The loop variable is a copy: the subwallets stay as they are. *)
Definition convertSyncTimestampToHeight (timestamp height : Z) (ws : SubWallets) : SubWallets :=
  let _ := sub_convertSyncTimestampToHeight timestamp height <$> m_subWallets ws in ws.

(** ** SynchronizationStatus *)

Definition LAST_KNOWN_BLOCK_HASHES_SIZE : Z := 100.
Definition BLOCK_HASH_CHECKPOINTS_INTERVAL : Z := 5000.
Definition GLOBAL_INDEXES_OBSCURITY : Z := 10.

Record SynchronizationStatus := mkSyncStatus {
  m_blockHashCheckpoints : list Hash;
  m_lastKnownBlockHashes : list Hash;
  m_lastKnownBlockHeight : Z }.

Definition storeBlockHash (hash : Hash) (height : Z) (s : SynchronizationStatus) : res SynchronizationStatus :=
  if (height >? m_lastKnownBlockHeight s) && negb (m_lastKnownBlockHeight s =? 0) &&
     negb (height =? u64 (m_lastKnownBlockHeight s + 1)) then Err RuntimeError
  else
    let checkpoints := if height mod BLOCK_HASH_CHECKPOINTS_INTERVAL =? 0 then hash :: m_blockHashCheckpoints s else m_blockHashCheckpoints s in
    let known := hash :: m_lastKnownBlockHashes s in
    let known := if Z.of_nat (length known) >? LAST_KNOWN_BLOCK_HASHES_SIZE then take (length known - 1) known else known in
    Ok (mkSyncStatus checkpoints known height).

Definition getBlockHashCheckpoints (s : SynchronizationStatus) : list Hash := m_lastKnownBlockHashes s ++ m_blockHashCheckpoints s.

(** ** WalletSynchronizer *)

Record WalletSynchronizer := mkSynchronizer {
  m_wallets : SubWallets;
  m_syncStatus : SynchronizationStatus;
  m_startTimestamp : Z;
  m_startHeight : Z;
  m_viewKey : SecretKey }.

Definition with_wallets (ws : SubWallets) (y : WalletSynchronizer) : WalletSynchronizer :=
  mkSynchronizer ws (m_syncStatus y) (m_startTimestamp y) (m_startHeight y) (m_viewKey y).

(** WalletSynchronizer::reset *)
Definition synchronizer_reset (startHeight : Z) (y : WalletSynchronizer) : WalletSynchronizer :=
  mkSynchronizer (m_wallets y) (mkSyncStatus [] [] 0) 0 startHeight (m_viewKey y).

Section Scan.
Context {FH : FastHash} (ndebug : bool).

Definition getTxInputKeyImage (publicSpendKey : PublicKey) (derivation : KeyDerivation) (outputIndex : Z) (ws : SubWallets) : res KeyImage :=
  match m_subWallets ws !! publicSpendKey with
  | None => Err RuntimeError
  | Some w => sub_getTxInputKeyImage ndebug derivation outputIndex (m_isViewWallet ws) w
  end.

(** The loop over the outputs; [derivation] is missing where generate_key_derivation has failed. *)
Fixpoint output_loop (derivation : option KeyDerivation) (rawTX : RawCoinbaseTransaction) (blockHeight : Z) (ws : SubWallets)
    (outputIndex : Z) (outputs : list KeyOutput) : res (list (PublicKey * WalletInput)) :=
  match outputs with
  | [] => Ok []
  | output :: outputs =>
    let! derivation' := of_option Undefined derivation in
    let! r := of_option Undefined (underive_public_key derivation' outputIndex (ko_key output)) in
    let! derivedSpendKey := of_option Undefined r in
    let! found := (if bool_decide (derivedSpendKey ∈ m_publicSpendKeys ws) then
        let! keyImage := getTxInputKeyImage derivedSpendKey derivation' outputIndex ws in
        Ok [(derivedSpendKey, mkWalletInput keyImage (ko_amount output) blockHeight (rc_transactionPublicKey rawTX) outputIndex
              (ko_globalOutputIndex output) (ko_key output) 0 (rc_unlockTime rawTX) (rc_hash rawTX))]
      else Ok []) in
    let! rest := output_loop derivation rawTX blockHeight ws (u64 (outputIndex + 1)) outputs in
    Ok (found ++ rest)
  end.

Definition processTransactionOutputs (viewKey : SecretKey) (rawTX : RawCoinbaseTransaction) (blockHeight : Z) (ws : SubWallets)
  : res (list (PublicKey * WalletInput)) :=
  let! derivation := of_option Undefined (generate_key_derivation ndebug (rc_transactionPublicKey rawTX) viewKey) in
  output_loop derivation rawTX blockHeight ws 0 (rc_keyOutputs rawTX).

Fixpoint outputs_of (viewKey : SecretKey) (txs : list RawCoinbaseTransaction) (blockHeight : Z) (ws : SubWallets)
  : res (list (PublicKey * WalletInput)) :=
  match txs with
  | [] => Ok []
  | tx :: txs =>
    let! newInputs := processTransactionOutputs viewKey tx blockHeight ws in
    let! rest := outputs_of viewKey txs blockHeight ws in Ok (newInputs ++ rest)
  end.

(** Coinbase transactions are processed, WalletConfig::processCoinbaseTransactions. *)
Definition processBlockOutputs (viewKey : SecretKey) (block : WalletBlockInfo) (ws : SubWallets) : res (list (PublicKey * WalletInput)) :=
  outputs_of viewKey (wb_coinbaseTransaction block :: map rt_base (wb_transactions block)) (wb_blockHeight block) ws.

(** transfers[key] += amount, on int64_t *)
Definition add_transfer (key : PublicKey) (amount : Z) (transfers : gmap PublicKey Z) : gmap PublicKey Z :=
  <[key := swrap 64 (default 0 (transfers !! key) + amount)]> transfers.

Definition received_transfers (inputs : list (PublicKey * WalletInput)) (hash : Hash) : gmap PublicKey Z :=
  fold_left (fun transfers ki => add_transfer ki.1 (wi_amount ki.2) transfers)
    (filter (fun ki => wi_parentTransactionHash ki.2 = hash) inputs) ∅.

Definition processCoinbaseTransaction (block : WalletBlockInfo) (inputs : list (PublicKey * WalletInput)) : option WalletTransaction :=
  let tx := wb_coinbaseTransaction block in
  let transfers := received_transfers inputs (rc_hash tx) in
  if bool_decide (transfers = ∅) then None
  else Some (mkWalletTransaction transfers (rc_hash tx) 0 (wb_blockTimestamp block) (wb_blockHeight block) [] (rc_unlockTime tx) true).

(** The transfers and the key images of the inputs that belong to the wallet. *)
Fixpoint spend_loop (keyInputs : list KeyInput) (ws : SubWallets) (transfers : gmap PublicKey Z)
  : gmap PublicKey Z * list (PublicKey * KeyImage) :=
  match keyInputs with
  | [] => (transfers, [])
  | input :: keyInputs =>
    match getKeyImageOwner (ki_keyImage input) ws with
    | Some publicSpendKey =>
      let '(transfers, spent) := spend_loop keyInputs ws (add_transfer publicSpendKey (- ki_amount input) transfers) in
      (transfers, (publicSpendKey, ki_keyImage input) :: spent)
    | None => spend_loop keyInputs ws transfers
    end
  end.

Definition processTransaction (block : WalletBlockInfo) (inputs : list (PublicKey * WalletInput)) (tx : RawTransaction) (ws : SubWallets)
  : option WalletTransaction * list (PublicKey * KeyImage) :=
  let '(transfers, spentKeyImages) := spend_loop (rt_keyInputs tx) ws (received_transfers inputs (rc_hash tx)) in
  if bool_decide (transfers = ∅) then (None, [])
  else
    let fee := fold_left (fun fee input => u64 (fee + ki_amount input)) (rt_keyInputs tx) 0 in
    let fee := fold_left (fun fee output => u64 (fee - ko_amount output)) (rc_keyOutputs tx) fee in
    (Some (mkWalletTransaction transfers (rc_hash tx) fee (wb_blockTimestamp block) (wb_blockHeight block) (rt_paymentID tx)
       (rc_unlockTime tx) false), spentKeyImages).

Record BlockScanTmpInfo := mkScanInfo {
  transactionsToAdd : list WalletTransaction;
  inputsToAdd : list (PublicKey * WalletInput);
  keyImagesToMarkSpent : list (PublicKey * KeyImage) }.

Definition processBlockTransactions (block : WalletBlockInfo) (inputs : list (PublicKey * WalletInput)) (ws : SubWallets) : BlockScanTmpInfo :=
  let results := map (fun rawTX => processTransaction block inputs rawTX ws) (wb_transactions block) in
  mkScanInfo (option_list (processCoinbaseTransaction block inputs) ++ omap fst results) inputs (concat (map snd results)).

(** What the daemon answers for a range of blocks, the same at each call for one block; missing
    where the call fails. *)
Context (getGlobalIndexesForRange : Z -> Z -> option (gmap Hash (list Z))).

Definition getGlobalIndexes (blockHeight : Z) : gmap Hash (list Z) :=
  default ∅ (getGlobalIndexesForRange (getLowerBound blockHeight GLOBAL_INDEXES_OBSCURITY) (getUpperBound blockHeight GLOBAL_INDEXES_OBSCURITY)).

(** [None]: the daemon has no index for one of the inputs. *)
Fixpoint fill_indexes (blockHeight : Z) (isViewWallet : bool) (inputs : list (PublicKey * WalletInput)) : option (list (PublicKey * WalletInput)) :=
  match inputs with
  | [] => Some []
  | (publicKey, input) :: inputs =>
    input ← (match wi_globalOutputIndex input with
      | None => if isViewWallet then Some input
                else indexes ← getGlobalIndexes blockHeight !! wi_parentTransactionHash input;
                     index ← at_index indexes (wi_transactionIndex input);
                     Some (with_globalIndex (Some index) input)
      | Some _ => Some input
      end);
    rest ← fill_indexes blockHeight isViewWallet inputs;
    Some ((publicKey, input) :: rest)
  end.

Fixpoint add_all {A} (f : A -> SubWallets -> res SubWallets) (l : list A) (ws : SubWallets) : res SubWallets :=
  match l with [] => Ok ws | a :: l => let! ws := f a ws in add_all f l ws end.

Definition processBlock (block : WalletBlockInfo) (y : WalletSynchronizer) : res WalletSynchronizer :=
  let ws := if m_lastKnownBlockHeight (m_syncStatus y) >=? wb_blockHeight block
            then removeForkedTransactions (wb_blockHeight block) (m_wallets y) else m_wallets y in
  let! ourInputs := processBlockOutputs (m_viewKey y) block ws in
  match fill_indexes (wb_blockHeight block) (m_isViewWallet ws) ourInputs with
  | None => Ok (with_wallets ws y)
  | Some ourInputs =>
    let blockScanInfo := processBlockTransactions block ourInputs ws in
    let! ws := add_all addTransaction (transactionsToAdd blockScanInfo) ws in
    let! ws := add_all (fun ki => storeTransactionInput ki.1 ki.2) (inputsToAdd blockScanInfo) ws in
    let! ws := add_all (fun ki => markInputAsSpent ki.2 ki.1 (wb_blockHeight block)) (keyImagesToMarkSpent blockScanInfo) ws in
    let! status := storeBlockHash (wb_blockHash block) (wb_blockHeight block) (m_syncStatus y) in
    Ok (mkSynchronizer ws status (m_startTimestamp y) (m_startHeight y) (m_viewKey y))
  end.

(** [localDaemonBlockCount] and [getWalletSyncData] are the answers of the daemon. *)
Definition downloadBlocks (localDaemonBlockCount : Z)
    (getWalletSyncData : list Hash -> Z -> Z -> option (list WalletBlockInfo)) (y : WalletSynchronizer)
  : list WalletBlockInfo * WalletSynchronizer :=
  if localDaemonBlockCount <? m_lastKnownBlockHeight (m_syncStatus y) then ([], y)
  else
    let blockCheckpoints := getBlockHashCheckpoints (m_syncStatus y) in
    match getWalletSyncData blockCheckpoints (m_startHeight y) (m_startTimestamp y) with
    | None | Some [] => ([], y)
    | Some (front :: _ as blocks) =>
      let y := if negb (m_startTimestamp y =? 0)
        then mkSynchronizer (convertSyncTimestampToHeight 0 (wb_blockHeight front) (m_wallets y)) (m_syncStatus y) 0 (wb_blockHeight front) (m_viewKey y)
        else y in
      (if bool_decide (blockCheckpoints = []) && (m_startTimestamp y =? 0) && negb (wb_blockHeight front =? m_startHeight y) then [] else blocks, y)
    end.

(** [getTransactionsStatus] gives the transactions the daemon does not know. *)
Definition checkLockedTransactions (getTransactionsStatus : gset Hash -> option (gset Hash)) (y : WalletSynchronizer) : res WalletSynchronizer :=
  let! lockedTxHashes := getLockedTransactionsHashes (m_wallets y) in
  if bool_decide (lockedTxHashes = ∅) then Ok y
  else
    match getTransactionsStatus lockedTxHashes with
    | None => Ok y
    | Some cancelledTransactions =>
      if bool_decide (cancelledTransactions = ∅) then Ok y
      else let! ws := removeCancelledTransactions cancelledTransactions (m_wallets y) in Ok (with_wallets ws y)
    end.

(** The blocks of one download, while the thread is not asked to stop. *)
Fixpoint process_blocks (blocks : list WalletBlockInfo) (y : WalletSynchronizer) : res WalletSynchronizer :=
  match blocks with
  | [] => Ok y
  | block :: blocks => let! y := processBlock block y in process_blocks blocks y
  end.

(** One round of the loop of the thread; [localDaemonBlockCount'] is the second answer of the daemon. *)
Definition mainLoop_round (localDaemonBlockCount : Z) (getWalletSyncData : list Hash -> Z -> Z -> option (list WalletBlockInfo))
    (localDaemonBlockCount' : Z) (getTransactionsStatus : gset Hash -> option (gset Hash)) (y : WalletSynchronizer) : res WalletSynchronizer :=
  let '(blocks, y) := downloadBlocks localDaemonBlockCount getWalletSyncData y in
  let! y := process_blocks blocks y in
  if bool_decide (blocks = []) && ((m_lastKnownBlockHeight (m_syncStatus y) >=? localDaemonBlockCount') && negb (m_isViewWallet (m_wallets y)))
  then checkLockedTransactions getTransactionsStatus y else Ok y.
End Scan.

End Wallet.
