(* ===== verification/WalletSpec.v ===== *)
(** What a wallet ([Wallet]) finds in a transaction: exactly the outputs made for its keys.  The
    second part describes how the operations that scan a block move inputs; [WalletChain] builds
    the runs of a wallet on it. *)

From S2P Require Import Prelude.
From S2P Require Import Config.
From S2P Require Import Types.
From S2P Require Import Keccak.
From S2P Require Import Group.
From S2P Require Import Curve.
From S2P Require Import PointCodec.
From S2P Require Import BasePoint.
From S2P Require Import Scalar.
From S2P Require Import GroupOrder.
From S2P Require Import Crypto.
From S2P Require Import CryptoSpec.
From S2P Require Import RingSignatures.
From S2P Require Import CachedTransaction.
From S2P Require Import BlockchainCache.
From S2P Require Import Addresses.
From S2P Require Import Wallet.

Module WalletSpec.

Import Group Crypto CryptoSpec RingSignatures BlockchainCache Addresses Wallet.

(** ** The outputs of a transaction *)

Section Outputs.
Context {FH : FastHash} (ndebug : bool).

Definition is_public (key : PublicKey) : Prop := exists P, key_of key P.

(** The secret key of a public key is unique. *)
Lemma secret_unique P x x' : key_pair P x -> key_pair P x' -> x = x'.
Proof.
  intros [Hx EP] [Hx' EP']; apply scalar_eq; [done|done|]; unfold key_of in *; rewrite EP in EP'; apply PointCodec.encode_inj in EP'.
  assert (E : zmul (le_val x - le_val x') BasePoint.base_point = gzero).
  { unfold base_mul in EP'; unfold Z.sub; rewrite zmul_add, zmul_opp, EP'; apply gadd_opp_r. }
  apply (GroupOrder.prime_order_divides Scalar.L) in E; [|apply GroupOrder.prime_group_order|apply BasePoint.base_point_order|apply GroupOrder.base_point_nz].
  pose proof (scalar_range x Hx); pose proof (scalar_range x' Hx'); destruct E as [q Eq]; assert (q = 0) by nia; subst q; lia.
Qed.

(** underive_public_key inverts derive_public_key. *)
Lemma underive_exact D i key : in_u 64 i -> is_public key ->
  exists S, underive_public_key D i key = Some (Some S) /\
    forall T, is_public T -> derive_public_key D i T = Some (Some key) <-> T = S.
Proof.
  intros Hi [P HP]; destruct (derivation_to_scalar_ok D i Hi) as (h & Eh & Hh & _).
  destruct (underive_with_ok (derivation_to_scalar D i) (fun b _ => b) key P h Eh Hh HP) as (S & ES & HS).
  exists S; split; [exact ES|]; intros T [Q HQ]; destruct (derive_with_ok (derivation_to_scalar D i) T Q h Eh Hh HQ) as (key' & EK & HK).
  change (derive_public_key D i T = Some (Some key')) in EK; rewrite EK; split.
  - intros [= ->]; unfold key_of in *; rewrite HP in HK; apply PointCodec.encode_inj in HK; subst P.
    rewrite HS, HQ, gadd_sub_cancel; done.
  - intros ->; do 2 f_equal; unfold key_of in *; rewrite HP, HK; f_equal.
    rewrite HS in HQ; apply PointCodec.encode_inj in HQ; subst Q.
    by rewrite <- gadd_assoc, gadd_opp_l, gadd_0_r.
Qed.

(** The keys of a container: one subwallet per spend key, with the pair of keys unless it is a
    view wallet. *)
Record keyed (ws : SubWallets) : Prop := {
  keyed_key S w : m_subWallets ws !! S = Some w -> m_publicSpendKey w = S /\ (m_isViewWallet ws = false -> key_pair S (m_privateSpendKey w));
  keyed_all S : S ∈ m_publicSpendKeys ws <-> is_Some (m_subWallets ws !! S);
  keyed_public S : S ∈ m_publicSpendKeys ws -> is_public S }.

Lemma add_keyed w ws : keyed ws -> key_pair (m_publicSpendKey w) (m_privateSpendKey w) -> is_public (m_publicSpendKey w) -> keyed (add_subWallet w ws).
Proof.
  intros [K1 K2 K3] KS PS; unfold add_subWallet; split; cbn [with_publicSpendKeys with_subWallets m_subWallets m_isViewWallet m_publicSpendKeys].
  - by intros S w' [[<- <-]|[_ E]]%lookup_insert_Some; [split|apply K1].
  - intros S; rewrite elem_of_app, K2, list_elem_of_singleton, lookup_insert_is_Some; destruct (decide (m_publicSpendKey w = S)) as [<-|Hne]; [tauto|].
    split; [intros [?|E]; [by right|by rewrite E in Hne]|]; intros [?|[_ ?]]; [done|by left].
  - intros S [?| ->%list_elem_of_singleton]%elem_of_app; [by apply K3|done].
Qed.

Lemma empty_keyed v view : keyed (mkSubWallets ∅ [] [] v view [] ∅).
Proof.
  split; cbn [m_subWallets m_publicSpendKeys].
  - intros S w E; by rewrite lookup_empty in E.
  - intros S; rewrite lookup_empty; split; [by intros ?%not_elem_of_nil|by intros [? ?]].
  - by intros S ?%not_elem_of_nil.
Qed.

(** [input] is the [i]-th output [o] of the transaction, made for the spend key [S]; its key image
    is the one of the one-time key, which only the owner of [S] can compute. *)
Definition made_for (ws : SubWallets) (D : KeyDerivation) (rawTX : RawCoinbaseTransaction) (h i : Z) (o : KeyOutput)
    (S : PublicKey) (input : WalletInput) : Prop :=
  S ∈ m_publicSpendKeys ws /\ derive_public_key D i S = Some (Some (ko_key o)) /\
  input = mkWalletInput (wi_keyImage input) (ko_amount o) h (rc_transactionPublicKey rawTX) i (ko_globalOutputIndex o) (ko_key o) 0
    (rc_unlockTime rawTX) (rc_hash rawTX) /\
  if m_isViewWallet ws then wi_keyImage input = zero_image
  else exists x, key_pair (ko_key o) x /\ generate_key_image ndebug (ko_key o) x = Some (wi_keyImage input).

Lemma own_key_image ws D i S w key : keyed ws -> m_subWallets ws !! S = Some w -> in_u 64 i -> is_public S ->
  derive_public_key D i S = Some (Some key) ->
  exists image, sub_getTxInputKeyImage ndebug D i (m_isViewWallet ws) w = Ok image /\
    if m_isViewWallet ws then image = zero_image else exists x, key_pair key x /\ generate_key_image ndebug key x = Some image.
Proof.
  intros K Ew Hi [T HT] Ed; destruct (keyed_key _ K _ _ Ew) as [Ek Kp]; unfold sub_getTxInputKeyImage.
  destruct (m_isViewWallet ws); cbn [negb]; [by exists zero_image|]; specialize (Kp eq_refl).
  rewrite Ek, Ed; cbn [of_option rbind]; destruct (derivation_to_scalar_ok D i Hi) as (h & Eh & Hh & _).
  destruct (derive_secret_with_ok ndebug (derivation_to_scalar D i) (m_privateSpendKey w) h Eh Hh (proj1 Kp)) as (x & Ex & Hx & Vx).
  change (derive_secret_key ndebug D i (m_privateSpendKey w) = Some x) in Ex; rewrite Ex; cbn [of_option rbind].
  destruct (derive_with_ok (derivation_to_scalar D i) S _ h Eh Hh (proj2 Kp)) as (key' & E' & HK).
  change (derive_public_key D i S = Some (Some key')) in E'; rewrite Ed in E'; injection E' as <-.
  destruct (hash_to_ec_ok key) as (Q & HQ & _); destruct (generate_key_image_ok ndebug key x Q Hx HQ) as (image & Ei & _).
  exists image; rewrite Ei; split; [done|]; exists x; split; [|done]; by apply (derived_pair S (m_privateSpendKey w) h).
Qed.

Lemma output_loop_exact ws D rawTX h outs : keyed ws -> Forall (fun o => is_public (ko_key o)) outs ->
  forall k, 0 <= k -> k + Z.of_nat (length outs) < 2 ^ 64 ->
  exists ins, output_loop ndebug (Some D) rawTX h ws k outs = Ok ins /\
    forall S input, (S, input) ∈ ins <-> exists j o, outs !! j = Some o /\ made_for ws D rawTX h (k + Z.of_nat j) o S input.
Proof.
  intros K; induction 1 as [|o outs Ho _ IH]; intros k Hk Hl; cbn [output_loop].
  { exists []; split; [done|]; intros S input; split; [by intros ?%not_elem_of_nil|by intros (j & o & ? & _)]. }
  cbn [length of_option rbind] in *; destruct (underive_exact D k (ko_key o) ltac:(unfold in_u; lia) Ho) as (B & EB & HB).
  rewrite EB; cbn [of_option rbind]; destruct (IH (k + 1) ltac:(lia) ltac:(lia)) as (rest & ER & HR).
  assert (HF : exists found, (if bool_decide (B ∈ m_publicSpendKeys ws) then
      let! keyImage := getTxInputKeyImage ndebug B D k ws in
      Ok [(B, mkWalletInput keyImage (ko_amount o) h (rc_transactionPublicKey rawTX) k (ko_globalOutputIndex o) (ko_key o) 0 (rc_unlockTime rawTX) (rc_hash rawTX))]
    else Ok []) = Ok found /\ forall S input, (S, input) ∈ found <-> made_for ws D rawTX h k o S input).
  { case_bool_decide as Hin.
    - destruct (proj1 (keyed_all _ K B) Hin) as [w Ew]; pose proof (keyed_public _ K B Hin) as Hpub.
      destruct (own_key_image ws D k B w (ko_key o) K Ew ltac:(unfold in_u; lia) Hpub) as (image & Ei & Hi); [by apply HB|].
      unfold getTxInputKeyImage; rewrite Ew, Ei; cbn [rbind]; eexists; split; [done|]; intros S input; rewrite list_elem_of_singleton; split.
      + intros [= -> ->]; split_and!; [done|by apply HB|done|exact Hi].
      + intros (HS & Ed & -> & Him); apply HB in Ed as ->; [|by apply (keyed_public _ K)]; f_equal; f_equal.
        cbn [wi_keyImage] in Him; destruct (m_isViewWallet ws); [congruence|].
        destruct Hi as (x & Kx & Ex), Him as (x' & Kx' & Ex').
        rewrite (secret_unique _ _ _ Kx' Kx), Ex in Ex'; by injection Ex'.
    - exists []; split; [done|]; intros S input; split; [by intros ?%not_elem_of_nil|]; intros (HS & Ed & _).
      apply HB in Ed as ->; [done|by apply (keyed_public _ K)]. }
  destruct HF as (found & EF & HF); rewrite EF; cbn [rbind]; rewrite wrap_small by (unfold in_u; lia); rewrite ER; cbn [rbind].
  exists (found ++ rest); split; [done|]; intros S input; rewrite elem_of_app, HF, HR; split.
  - intros [H|(j & o' & Ej & H)]; [exists O, o; split; [done|]; by rewrite Z.add_0_r|].
    exists (Datatypes.S j), o'; split; [done|]; by replace (k + Z.of_nat (Datatypes.S j)) with (k + 1 + Z.of_nat j) by lia.
  - intros ([|j] & o' & Ej & H); [left; injection Ej as <-; by rewrite Z.add_0_r in H|right].
    exists j, o'; split; [done|]; by replace (k + 1 + Z.of_nat j) with (k + Z.of_nat (Datatypes.S j)) by lia.
Qed.

(** C11. processTransactionOutputs returns for every transaction whose keys
    are points of the curve, and finds exactly the outputs that a sender has
    made for one of the spend keys of the wallet, with the derivation that
    sender and receiver share; each is recorded with the key image of its
    one-time secret key, or with none in a view wallet. *)
Theorem wallet_finds_outputs ws v rawTX h : keyed ws -> scalar v -> is_public (rc_transactionPublicKey rawTX) ->
  Forall (fun o => is_public (ko_key o)) (rc_keyOutputs rawTX) -> Z.of_nat (length (rc_keyOutputs rawTX)) < 2 ^ 64 ->
  exists D ins, processTransactionOutputs ndebug v rawTX h ws = Ok ins /\
    (forall r V, key_pair V v -> key_pair (rc_transactionPublicKey rawTX) r -> generate_key_derivation ndebug V r = Some (Some D)) /\
    forall S input, (S, input) ∈ ins <->
      exists j o, rc_keyOutputs rawTX !! j = Some o /\ made_for ws D rawTX h (Z.of_nat j) o S input.
Proof.
  intros K Hv [P HP] Ho Hl; destruct (generate_key_derivation_ok ndebug _ P v HP Hv) as (D & ED & _).
  destruct (output_loop_exact ws D rawTX h _ K Ho 0 ltac:(lia) ltac:(lia)) as (ins & EI & HI).
  exists D, ins; unfold processTransactionOutputs; rewrite ED; cbn [of_option rbind]; split; [done|]; split; [|done].
  intros r V KV KR; destruct (shared_derivation ndebug _ r V v KR KV) as (D' & E1 & E2); rewrite ED in E2; by injection E2 as ->.
Qed.
End Outputs.

Lemma wallet_finds_outputs_witness :
  let key n := PointCodec.encode (base_mul (le_val (enc_scalar n))) in
  let ws := add_subWallet (new_SubWallet (key 3) (enc_scalar 3) [] 0 0 true) (mkSubWallets ∅ [] [] (enc_scalar 2) false [] ∅) in
  let tx := mkRawCoinbase [mkKeyOutput (key 5) 100 None] [1] (key 1) 0 in
  exists D ins, processTransactionOutputs (FH := Keccak.keccak_FastHash) false (enc_scalar 2) tx 1 ws = Ok ins /\
    forall S input, (S, input) ∈ ins <->
      exists j o, rc_keyOutputs tx !! j = Some o /\ made_for (FH := Keccak.keccak_FastHash) false ws D tx 1 (Z.of_nat j) o S input.
Proof.
  intros key ws tx; assert (KP : key_pair (key 3) (enc_scalar 3)) by exact (conj (enc_scalar_ok 3) eq_refl).
  assert (PK : forall n, is_public (key n)) by (intros n; exact (ex_intro _ _ eq_refl)).
  assert (K : keyed ws) by exact (add_keyed (new_SubWallet (key 3) (enc_scalar 3) [] 0 0 true) _ (empty_keyed _ _) KP (PK 3)).
  assert (HO : Forall (fun o => is_public (ko_key o)) (rc_keyOutputs tx)) by (constructor; [exact (PK 5)|constructor]).
  destruct (wallet_finds_outputs (FH := Keccak.keccak_FastHash) false ws (enc_scalar 2) tx 1 K (enc_scalar_ok 2) (PK 1) HO
    ltac:(reflexivity)) as (D & ins & E & _ & H).
  exact (ex_intro _ D (ex_intro _ ins (conj E H))).
Defined.

(** ** Moving inputs *)

Abbreviation images l := (map wi_keyImage l).

Lemma extract_first x l :
  match extract_input x l with
  | Some (i, rest) => wi_keyImage i = x /\ l ≡ₚ i :: rest
  | None => x ∉ images l
  end.
Proof.
  induction l as [|y l IH]; cbn [extract_input]; [apply not_elem_of_nil|]; case_bool_decide as E; [done|].
  destruct (extract_input x l) as [[i rest]|].
  - destruct IH as [E1 E2]; split; [done|]; rewrite E2; apply Permutation_swap.
  - cbn [map]; rewrite not_elem_of_cons; split; [congruence|done].
Qed.

(** The inputs of a subwallet that it does not list as spent. *)
Abbreviation held w := (m_unspentInputs w ++ m_lockedInputs w).

(** [w'] is [w] with one input for each of the key images [X] spent at height [h]. *)
Record moved (X : list KeyImage) (h : Z) (w w' : SubWallet) : Prop := {
  mov_inputs : exists l, images l = X /\ held w ≡ₚ l ++ held w' /\ m_spentInputs w' = m_spentInputs w ++ map (with_spendHeight h) l;
  mov_keys : m_publicSpendKey w' = m_publicSpendKey w /\ m_privateSpendKey w' = m_privateSpendKey w }.

Lemma moved_nil h w : moved [] h w w.
Proof. split; [|done]; exists []; cbn; by rewrite app_nil_r. Qed.

Lemma list_filter_iff_in {A} (P Q : A -> Prop) `{!forall a, Decision (P a), !forall a, Decision (Q a)} (l : list A) :
  (forall a, a ∈ l -> P a <-> Q a) -> filter P l = filter Q l.
Proof.
  induction l as [|a l IH]; intros HQ; [done|]; rewrite !filter_cons, (IH (fun b Hb => HQ b (list_elem_of_further _ _ _ Hb))).
  pose proof (HQ a (list_elem_of_here _ _)); destruct (decide (P a)), (decide (Q a)); tauto.
Qed.

Lemma filter_two {A} (P Q R : A -> Prop) `{!forall a, Decision (P a), !forall a, Decision (Q a), !forall a, Decision (R a)} l :
  (forall a, a ∈ l -> R a <-> P a \/ Q a) -> filter R l ≡ₚ filter P l ++ filter Q (filter (fun a => ~ P a) l).
Proof.
  induction l as [|a l IH]; intros HR; [done|]; rewrite !filter_cons.
  assert (IH' := IH (fun b Hb => HR b (list_elem_of_further _ _ _ Hb))); pose proof (HR a (list_elem_of_here _ _)) as Ha.
  destruct (decide (P a)) as [HP|HP], (decide (~ P a)) as [HP'|HP']; try tauto.
  - destruct (decide (R a)); [|tauto]; by rewrite IH'.
  - rewrite filter_cons; destruct (decide (R a)), (decide (Q a)); try tauto; rewrite IH'; by rewrite ?Permutation_middle.
Qed.

Lemma moved_app X Y h w w1 w2 : moved X h w w1 -> moved Y h w1 w2 -> moved (X ++ Y) h w w2.
Proof.
  intros [(l1 & E1 & P1 & S1) [K1 K1']] [(l2 & E2 & P2 & S2) [K2 K2']]; split; [|split; congruence]; exists (l1 ++ l2).
  split; [by rewrite map_app, E1, E2|]; split; [by rewrite P1, P2, app_assoc|]; by rewrite S2, S1, map_app, app_assoc.
Qed.

Lemma mark_spec x h w : x ∈ images (held w) -> exists w', sub_markInputAsSpent x h w = Ok w' /\ moved [x] h w w'.
Proof.
  rewrite map_app, elem_of_app; intros Hx; unfold sub_markInputAsSpent; pose proof (extract_first x (m_unspentInputs w)) as HU.
  destruct (extract_input x (m_unspentInputs w)) as [[i rest]|].
  - destruct HU as [E P]; eexists; split; [done|]; split; [|done]; exists [i]; cbn; by rewrite E, P.
  - pose proof (extract_first x (m_lockedInputs w)) as HL; destruct (extract_input x (m_lockedInputs w)) as [[i rest]|]; [|tauto].
    destruct HL as [E P]; eexists; split; [done|]; split; [|done]; exists [i]; cbn; rewrite E; split; [done|]; split; [|done].
    rewrite P; symmetry; apply Permutation_middle.
Qed.

(** What is left of the key images after the move. *)
Lemma moved_held X h w w' y : moved X h w w' -> y ∉ X -> y ∈ images (held w) -> y ∈ images (held w').
Proof. intros [(l & E & P & _) _] Hy; rewrite P, map_app, elem_of_app, E; tauto. Qed.

(** ** The container *)

(** The elements of the pairs with the key [S]. *)
Definition at_key {A} (S : PublicKey) (l : list (PublicKey * A)) : list A := map snd (filter (fun p => p.1 = S) l).

Lemma at_key_cons {A} S k (a : A) l : at_key S ((k, a) :: l) = if decide (k = S) then a :: at_key S l else at_key S l.
Proof. unfold at_key; rewrite filter_cons; cbn [fst]; by destruct (decide (k = S)). Qed.

Lemma at_key_app {A} S (l l' : list (PublicKey * A)) : at_key S (l ++ l') = at_key S l ++ at_key S l'.
Proof. unfold at_key; by rewrite filter_app, map_app. Qed.

Lemma elem_of_at_key {A} S (a : A) l : a ∈ at_key S l <-> (S, a) ∈ l.
Proof.
  unfold at_key; rewrite list_elem_of_fmap; split.
  - by intros ([k b] & -> & [<- H]%list_elem_of_filter).
  - intros H; exists (S, a); split; [done|]; by apply list_elem_of_filter.
Qed.

(** The subwallets change by [R] at every key, nothing else does. *)
Record changed (R : PublicKey -> SubWallet -> SubWallet -> Prop) (ws ws' : SubWallets) : Prop := {
  chg_subs S : option_Forall2 (R S) (m_subWallets ws !! S) (m_subWallets ws' !! S);
  chg_rest : ws' = with_subWallets (m_subWallets ws') ws }.

Lemma changed_at R ws ws' S w' : changed R ws ws' -> m_subWallets ws' !! S = Some w' -> exists w, m_subWallets ws !! S = Some w /\ R S w w'.
Proof. intros C E; pose proof (chg_subs _ _ _ C S) as H; rewrite E in H; inversion H; subst; by eexists. Qed.

Lemma changed_refl R ws : (forall S w, R S w w) -> changed R ws ws.
Proof. intros HR; split; [|by destruct ws]; intros S; destruct (m_subWallets ws !! S); by constructor. Qed.

Lemma changed_trans R1 R2 R ws ws1 ws2 : (forall S w w1 w2, R1 S w w1 -> R2 S w1 w2 -> R S w w2) ->
  changed R1 ws ws1 -> changed R2 ws1 ws2 -> changed R ws ws2.
Proof.
  intros HR C1 C2; split.
  - intros S; pose proof (chg_subs _ _ _ C1 S) as H1; pose proof (chg_subs _ _ _ C2 S) as H2.
    destruct H1; inversion H2; subst; constructor; by eapply HR.
  - rewrite (chg_rest _ _ _ C2), (chg_rest _ _ _ C1); done.
Qed.

Lemma update_changed e S0 f R ws w w' : m_subWallets ws !! S0 = Some w -> f w = Ok w' -> R S0 w w' ->
  (forall S v, S <> S0 -> R S v v) ->
  exists ws', update_subWallet e S0 f ws = Ok ws' /\ changed R ws ws'.
Proof.
  intros Ew Ef HR Hid; unfold update_subWallet; rewrite Ew, Ef; cbn [rbind]; eexists; split; [done|]; split; [|done].
  intros S; cbn [with_subWallets m_subWallets]; destruct (decide (S = S0)) as [->|Hne].
  - rewrite Ew, lookup_insert_eq; by constructor.
  - rewrite lookup_insert_ne by done; destruct (m_subWallets ws !! S); constructor; by apply Hid.
Qed.

(** The subwallet with the new inputs [l]. *)
Definition received (l : list WalletInput) (w w' : SubWallet) : Prop :=
  m_unspentInputs w' = m_unspentInputs w ++ l /\ m_lockedInputs w' = m_lockedInputs w /\ m_spentInputs w' = m_spentInputs w /\
  m_publicSpendKey w' = m_publicSpendKey w /\ m_privateSpendKey w' = m_privateSpendKey w.

Lemma store_all l : forall ws, (forall S i, (S, i) ∈ l -> is_Some (m_subWallets ws !! S)) ->
  exists ws', add_all (fun ki => storeTransactionInput ki.1 ki.2) l ws = Ok ws' /\ changed (fun S => received (at_key S l)) ws ws'.
Proof.
  induction l as [|[k i] l IH]; intros ws Hk; cbn [add_all fst snd].
  { exists ws; split; [done|]; apply changed_refl; intros S w; split_and!; [by rewrite app_nil_r|done..]. }
  destruct (Hk k i (list_elem_of_here _ _)) as [w Ew].
  destruct (update_changed RuntimeError k (fun w => Ok (sub_storeTransactionInput i (m_isViewWallet ws) w))
    (fun S => received (if decide (k = S) then [i] else [])) ws w _ Ew eq_refl) as (ws1 & E1 & C1).
  { rewrite decide_True by done; by split_and!. }
  { intros S v Hne; rewrite decide_False by done; split_and!; [by rewrite app_nil_r|done..]. }
  unfold storeTransactionInput at 1; rewrite E1; cbn [rbind]; destruct (IH ws1) as (ws2 & E2 & C2).
  { intros S j Hj; pose proof (chg_subs _ _ _ C1 S) as H; destruct (Hk S j (list_elem_of_further _ _ _ Hj)) as [v Ev].
    rewrite Ev in H; inversion H; by eexists. }
  exists ws2; split; [done|]; eapply changed_trans; [|exact C1|exact C2]; intros S v v1 v2 (U1 & L1 & P1 & K1 & K1') (U2 & L2 & P2 & K2 & K2').
  rewrite at_key_cons; split_and!; [rewrite U2, U1, <- app_assoc; f_equal; by destruct (decide (k = S))|congruence..].
Qed.

Lemma mark_all h l : forall ws, m_isViewWallet ws = false -> NoDup (map snd l) ->
  (forall S x, (S, x) ∈ l -> exists w, m_subWallets ws !! S = Some w /\ x ∈ images (held w)) ->
  exists ws', add_all (fun ki => markInputAsSpent ki.2 ki.1 h) l ws = Ok ws' /\ changed (fun S => moved (at_key S l) h) ws ws'.
Proof.
  induction l as [|[k x] l IH]; intros ws Hv Hn Hl; cbn [add_all fst snd].
  { exists ws; split; [done|]; apply changed_refl; intros S w; apply moved_nil. }
  cbn [map snd] in Hn; apply NoDup_cons in Hn as [Hx Hn]; destruct (Hl k x (list_elem_of_here _ _)) as (w & Ew & Hw).
  destruct (mark_spec x h w Hw) as (w1 & Em & Hm).
  destruct (update_changed OutOfRange k (sub_markInputAsSpent x h) (fun S => moved (if decide (k = S) then [x] else []) h) ws w w1 Ew Em)
    as (ws1 & E1 & C1); [by rewrite decide_True by done|intros S v Hne; rewrite decide_False by done; apply moved_nil|].
  unfold markInputAsSpent at 1, throwIfViewWallet; rewrite Hv; cbn [rbind]; rewrite E1; cbn [rbind].
  destruct (IH ws1) as (ws2 & E2 & C2).
  - by rewrite (chg_rest _ _ _ C1).
  - done.
  - intros S y Hy; destruct (Hl S y (list_elem_of_further _ _ _ Hy)) as (v & Ev & Hyv).
    pose proof (chg_subs _ _ _ C1 S) as H; rewrite Ev in H; inversion H as [? v' Hmv Ea Eb|]; subst; exists v'; split; [done|].
    apply (moved_held _ _ _ _ _ Hmv); [|done]; destruct (decide (k = S)); [|apply not_elem_of_nil]; rewrite list_elem_of_singleton; intros ->.
    by apply Hx, (list_elem_of_fmap_2 snd _ (S, x)).
  - exists ws2; split; [done|]; eapply changed_trans; [|exact C1|exact C2]; intros S v v1 v2 M1 M2; rewrite at_key_cons.
    assert (EK : (if decide (k = S) then x :: at_key S l else at_key S l) = (if decide (k = S) then [x] else []) ++ at_key S l) by (by destruct (decide (k = S))).
    rewrite EK; exact (moved_app _ _ h v v1 v2 M1 M2).
Qed.

(** ** The transactions of a block *)

Definition spent_in (b : WalletBlockInfo) : list KeyImage := concat (map (fun tx => map ki_keyImage (rt_keyInputs tx)) (wb_transactions b)).
Definition hashes_in (b : WalletBlockInfo) : list Hash := rc_hash (wb_coinbaseTransaction b) :: map (fun tx : RawTransaction => rc_hash tx) (wb_transactions b).

Lemma hasKeyImage_spec x w : sub_hasKeyImage x w = true <-> x ∈ images (held w).
Proof.
  assert (H : forall l, existsb (fun input => bool_decide (wi_keyImage input = x)) l = true <-> x ∈ images l).
  { intros l; rewrite existsb_exists, list_elem_of_fmap; split.
    - intros (i & Hi & E); apply bool_decide_eq_true in E; exists i; split; [done|]; by apply list_elem_of_In.
    - intros (i & -> & Hi); exists i; split; [by apply list_elem_of_In|]; by apply bool_decide_eq_true. }
  unfold sub_hasKeyImage; rewrite orb_true_iff, !H, map_app, elem_of_app; done.
Qed.

Section Owner.
Context (ws : SubWallets) (K : forall S w, m_subWallets ws !! S = Some w -> m_publicSpendKey w = S) (Hv : m_isViewWallet ws = false).

Lemma owner_some x S : getKeyImageOwner x ws = Some S -> exists w, m_subWallets ws !! S = Some w /\ x ∈ images (held w).
Proof.
  unfold getKeyImageOwner; rewrite Hv; destruct (list_find _ _) as [[k [S' w]]|] eqn:E; [|done]; intros [= <-].
  apply list_find_Some in E as (Ek & Eh & _); apply list_elem_of_lookup_2, elem_of_map_to_list in Ek.
  rewrite (K _ _ Ek); exists w; split; [done|]; by apply hasKeyImage_spec.
Qed.

Lemma owner_is_some x S w : m_subWallets ws !! S = Some w -> x ∈ images (held w) -> is_Some (getKeyImageOwner x ws).
Proof.
  intros Ew Hx; unfold getKeyImageOwner; rewrite Hv; destruct (list_find _ _) as [[k [S' w']]|] eqn:E; [by eexists|].
  apply list_find_None in E; rewrite Forall_forall in E; destruct (E (S, w)); [by apply elem_of_map_to_list|by apply hasKeyImage_spec].
Qed.

(** The key images of the list that the wallet holds, with their owners. *)
Definition owned (xs : list KeyImage) : list (PublicKey * KeyImage) := omap (fun x => (fun S => (S, x)) <$> getKeyImageOwner x ws) xs.

Lemma owned_app xs ys : owned (xs ++ ys) = owned xs ++ owned ys.
Proof. apply omap_app. Qed.

Lemma elem_of_owned S x xs : (S, x) ∈ owned xs <-> x ∈ xs /\ getKeyImageOwner x ws = Some S.
Proof.
  unfold owned; rewrite list_elem_of_omap; split.
  - intros (y & Hy & E); destruct (getKeyImageOwner y ws) as [S'|] eqn:EO; [|done]; by injection E as -> ->.
  - intros [Hx E]; exists x; split; [done|]; by rewrite E.
Qed.

Lemma owned_images xs : map snd (owned xs) `sublist_of` xs.
Proof.
  induction xs as [|x xs IH]; [done|]; unfold owned in *; cbn [omap list_omap]; destruct (getKeyImageOwner x ws); simpl; by constructor.
Qed.

Lemma spend_loop_spec kis : forall tr, (spend_loop kis ws tr).2 = owned (map ki_keyImage kis) /\
  (tr <> ∅ \/ (spend_loop kis ws tr).2 <> [] -> (spend_loop kis ws tr).1 <> ∅).
Proof.
  induction kis as [|k kis IH]; intros tr; cbn [spend_loop map]; [split; [done|]; by intros [?|?]|].
  unfold owned; cbn [omap list_omap]; destruct (getKeyImageOwner (ki_keyImage k) ws) as [S|]; cbn [fmap option_fmap option_map].
  - destruct (IH (add_transfer S (- ki_amount k) tr)) as [E1 E2]; destruct (spend_loop kis ws _) as [tr' l]; cbn [fst snd] in *.
    split; [by rewrite E1|]; intros _; apply E2; left; unfold add_transfer; apply insert_non_empty.
  - apply IH.
Qed.

Lemma processTransaction_spec b ins tx : (processTransaction b ins tx ws).2 = owned (map ki_keyImage (rt_keyInputs tx)) /\
  forall t, (processTransaction b ins tx ws).1 = Some t -> wt_hash t = rc_hash tx /\ wt_blockHeight t = wb_blockHeight b.
Proof.
  unfold processTransaction; destruct (spend_loop_spec (rt_keyInputs tx) (received_transfers ins (rc_hash tx))) as [E1 E2].
  destruct (spend_loop _ _ _) as [tr l]; cbn [fst snd] in *; case_bool_decide as Et; cbn [fst snd].
  - split; [|done]; rewrite <- E1; destruct l; [done|]; destruct (E2 ltac:(by right) Et).
  - split; [done|]; by intros t [= <-].
Qed.

Lemma processBlockTransactions_spec b ins : keyImagesToMarkSpent (processBlockTransactions b ins ws) = owned (spent_in b) /\
  inputsToAdd (processBlockTransactions b ins ws) = ins /\
  map wt_hash (transactionsToAdd (processBlockTransactions b ins ws)) `sublist_of` hashes_in b /\
  Forall (fun t => wt_blockHeight t = wb_blockHeight b) (transactionsToAdd (processBlockTransactions b ins ws)).
Proof.
  unfold processBlockTransactions; cbn [keyImagesToMarkSpent inputsToAdd transactionsToAdd]; split_and!; [|done|..].
  - unfold spent_in; induction (wb_transactions b) as [|tx txs IH]; [done|]; cbn [map concat]; rewrite owned_app, <- IH; f_equal.
    apply processTransaction_spec.
  - rewrite map_app; apply (sublist_app _ [rc_hash (wb_coinbaseTransaction b)]).
    + unfold processCoinbaseTransaction; case_bool_decide; cbn [option_list map wt_hash]; [constructor; constructor|done].
    + induction (wb_transactions b) as [|tx txs IH]; [done|]; cbn [map omap list_omap].
      destruct (processTransaction_spec b ins tx) as [_ Hh]; destruct ((processTransaction b ins tx ws).1) as [t|]; cbn [map]; [|by constructor].
      rewrite (proj1 (Hh t eq_refl)); by constructor.
  - apply Forall_app; split; [unfold processCoinbaseTransaction; case_bool_decide; by repeat constructor|].
    apply Forall_forall; intros t Ht; apply list_elem_of_omap in Ht as (r & Hr & Et); apply list_elem_of_fmap in Hr as (tx & -> & _).
    by apply (processTransaction_spec b ins tx).
Qed.
End Owner.

Lemma addTransaction_all txs : forall ws, NoDup (map wt_hash (m_transactions ws ++ txs)) ->
  exists ws', add_all addTransaction txs ws = Ok ws' /\ m_transactions ws' = m_transactions ws ++ txs /\
    ws' = with_transactions (m_transactions ws') (m_lockedTransactions ws') ws.
Proof.
  induction txs as [|tx txs IH]; intros ws Hn; cbn [add_all].
  { exists ws; rewrite app_nil_r; split_and!; [done..|by destruct ws]. }
  unfold addTransaction at 1; assert (Hh : has_hash (wt_hash tx) (m_transactions ws) = false).
  { apply not_true_is_false; unfold has_hash; rewrite existsb_exists; intros (t & Ht & E); apply bool_decide_eq_true in E.
    rewrite map_app in Hn; apply NoDup_app in Hn as (_ & Hd & _); apply (Hd (wt_hash tx)); [rewrite E; by apply list_elem_of_fmap_2, list_elem_of_In|].
    apply list_elem_of_here. }
  rewrite Hh; cbn [rbind]; destruct (IH (with_transactions (m_transactions ws ++ [tx])
    (filter (fun transaction => wt_hash tx <> wt_hash transaction) (m_lockedTransactions ws)) ws)) as (ws' & E & Et & Ew).
  { cbn [with_transactions m_transactions]; by rewrite <- app_assoc. }
  exists ws'; cbn [with_transactions m_transactions] in *; rewrite <- app_assoc in Et; split_and!; [done..|]; rewrite Ew at 1; done.
Qed.

End WalletSpec.
