(* ===== verification/WalletChain.v ===== *)
(** The runs of a wallet: its inputs are those that the scanned blocks bring, whatever the one-time
    keys; if every one-time key comes once, the unspent ones are those the chain has not spent, after
    blocks, forks, sent and cancelled transactions. A block without global indexes is left out. *)

From S2P Require Import Prelude.
From S2P Require Import Config.
From S2P Require Import Types.
From S2P Require Import Keccak.
From S2P Require Import Group.
From S2P Require Import Curve.
From S2P Require Import PointCodec.
From S2P Require Import BasePoint.
From S2P Require Import Scalar.
From S2P Require Import GroupOrder.
From S2P Require Import Crypto.
From S2P Require Import CryptoSpec.
From S2P Require Import RingSignatures.
From S2P Require Import CachedTransaction.
From S2P Require Import BlockchainCache.
From S2P Require Import Addresses.
From S2P Require Import Wallet.
From S2P Require Import WalletSpec.

Module WalletChain.

Import Group Crypto CryptoSpec RingSignatures BlockchainCache Addresses Wallet WalletSpec.

(** ** The wallet follows the chain *)

(** The scanned blocks, each with the inputs it brings. *)
Abbreviation scanned := (list (WalletBlockInfo * list (PublicKey * WalletInput))).

Definition incoming (S : PublicKey) (bs : scanned) : list WalletInput := at_key S (concat (map snd bs)).
Definition spent_images (bs : scanned) : list KeyImage := concat (map (fun b => spent_in b.1) bs).
Definition known_hashes (bs : scanned) : list Hash := concat (map (fun b => hashes_in b.1) bs).
Definition all_incoming (bs : scanned) : list WalletInput := map snd (concat (map snd bs)).

Lemma incoming_snoc S bs b : incoming S (bs ++ [b]) = incoming S bs ++ at_key S b.2.
Proof. unfold incoming; rewrite map_app, concat_app; cbn [map concat]; by rewrite app_nil_r, at_key_app. Qed.
Lemma spent_images_snoc bs b : spent_images (bs ++ [b]) = spent_images bs ++ spent_in b.1.
Proof. unfold spent_images; rewrite map_app, concat_app; cbn [map concat]; by rewrite app_nil_r. Qed.
Lemma known_hashes_snoc bs b : known_hashes (bs ++ [b]) = known_hashes bs ++ hashes_in b.1.
Proof. unfold known_hashes; rewrite map_app, concat_app; cbn [map concat]; by rewrite app_nil_r. Qed.
Lemma all_incoming_snoc bs b : all_incoming (bs ++ [b]) = all_incoming bs ++ map snd b.2.
Proof. unfold all_incoming; rewrite map_app, concat_app; cbn [map concat]; by rewrite app_nil_r, map_app. Qed.

Lemma incoming_sublist S bs : incoming S bs `sublist_of` all_incoming bs.
Proof. unfold incoming, all_incoming, at_key; apply fmap_sublist, sublist_filter. Qed.

Lemma incoming_owner S S' bs i j : NoDup (images (all_incoming bs)) -> i ∈ incoming S bs -> j ∈ incoming S' bs ->
  wi_keyImage i = wi_keyImage j -> S = S'.
Proof.
  unfold incoming, all_incoming; intros Hn Hi Hj E; rewrite elem_of_at_key in Hi, Hj.
  apply list_elem_of_lookup in Hi as [k Ek], Hj as [k' Ek'].
  assert (k = k') as <-; [|rewrite Ek in Ek'; by injection Ek'].
  apply (NoDup_lookup _ k k' (wi_keyImage i) Hn); rewrite !list_lookup_fmap, ?Ek, ?Ek'; simpl; [done|by rewrite E].
Qed.

Section Follow.
Context {FH : FastHash} (ndebug : bool) (indexes : Z -> Z -> option (gmap Hash (list Z))).

(** Whether the chain is known to bring every one-time key once. *)
Context (once : bool).

(** [ins] are the inputs of the block for the keys of the wallet, with their global indexes. *)
Definition credited (y : WalletSynchronizer) (b : WalletBlockInfo) (ins : list (PublicKey * WalletInput)) : Prop :=
  exists ins0, processBlockOutputs ndebug (m_viewKey y) b (m_wallets y) = Ok ins0 /\
    fill_indexes indexes (wb_blockHeight b) (m_isViewWallet (m_wallets y)) ins0 = Some ins.

(** The daemon does not give a global index for an input of the block. *)
Definition unindexed (y : WalletSynchronizer) (b : WalletBlockInfo) : Prop :=
  exists ins0, processBlockOutputs ndebug (m_viewKey y) b (m_wallets y) = Ok ins0 /\
    fill_indexes indexes (wb_blockHeight b) (m_isViewWallet (m_wallets y)) ins0 = None.

(** The state of the wallet after the blocks [bs]: what it holds and what it lists as spent is what
    it received; where every one-time key comes once, what it holds is what the chain has not spent. *)
Record follows (y : WalletSynchronizer) (bs : scanned) : Prop := {
  fol_keyed : keyed (m_wallets y);
  fol_full : m_isViewWallet (m_wallets y) = false;
  fol_all S w : m_subWallets (m_wallets y) !! S = Some w ->
    held w ++ map (with_spendHeight 0) (m_spentInputs w) ≡ₚ incoming S bs;
  fol_heights S w i : m_subWallets (m_wallets y) !! S = Some w -> i ∈ m_spentInputs w ->
    exists b, b ∈ map fst bs /\ wi_keyImage i ∈ spent_in b /\ wi_spendHeight i = wb_blockHeight b;
  fol_order S w i : m_subWallets (m_wallets y) !! S = Some w -> i ∈ m_spentInputs w -> wi_blockHeight i <= wi_spendHeight i;
  fol_hashes : NoDup (map wt_hash (m_transactions (m_wallets y)));
  fol_transactions tx : tx ∈ m_transactions (m_wallets y) ->
    exists b, b ∈ map fst bs /\ wt_hash tx ∈ hashes_in b /\ wt_blockHeight tx = wb_blockHeight b;
  fol_spent_once : NoDup (spent_images bs);
  fol_new b ins S i : (b, ins) ∈ bs -> (S, i) ∈ ins -> wi_spendHeight i = 0 /\ wi_blockHeight i = wb_blockHeight b;
  fol_owner b ins S i : (b, ins) ∈ bs -> (S, i) ∈ ins -> is_Some (m_subWallets (m_wallets y) !! S);
  fol_unspent S w i : once = true -> m_subWallets (m_wallets y) !! S = Some w -> i ∈ held w -> wi_keyImage i ∉ spent_images bs;
  fol_once : once = true -> NoDup (images (all_incoming bs));
  fol_after b ins S i b' : once = true -> (b, ins) ∈ bs -> (S, i) ∈ ins -> b' ∈ map fst bs -> wi_keyImage i ∈ spent_in b' ->
    wb_blockHeight b < wb_blockHeight b' }.

(** A block that comes next on the chain of [bs]: the chain spends no key image twice and repeats no
    transaction; if it is known to bring every one-time key once, then none before it is spent. *)
Record next_block (y : WalletSynchronizer) (bs : scanned) (b : WalletBlockInfo) (ins : list (PublicKey * WalletInput)) : Prop := {
  nb_above b' : b' ∈ map fst bs -> wb_blockHeight b' < wb_blockHeight b;
  nb_credited : credited y b ins;
  nb_spent : NoDup (spent_images (bs ++ [(b, ins)]));
  nb_hashes : NoDup (known_hashes (bs ++ [(b, ins)]));
  nb_once : once = true -> NoDup (images (all_incoming (bs ++ [(b, ins)])));
  nb_later x : once = true -> x ∈ images (map snd ins) -> x ∉ spent_images (bs ++ [(b, ins)]) }.

(** The height of the block is one that the synchronisation status accepts. *)
Definition connected (y : WalletSynchronizer) (b : WalletBlockInfo) : Prop :=
  m_lastKnownBlockHeight (m_syncStatus y) < wb_blockHeight b ->
  m_lastKnownBlockHeight (m_syncStatus y) = 0 \/ wb_blockHeight b = u64 (m_lastKnownBlockHeight (m_syncStatus y) + 1).

#[export] Instance connected_dec y b : Decision (connected y b).
Proof. unfold connected; apply _. Defined.

(** What scanning leaves alone in an input, and where it puts it. *)
Lemma output_loop_new D rawTX h ws outs : forall k ins, output_loop ndebug D rawTX h ws k outs = Ok ins ->
  Forall (fun ki => wi_spendHeight ki.2 = 0 /\ wi_blockHeight ki.2 = h /\ ki.1 ∈ m_publicSpendKeys ws) ins.
Proof.
  induction outs as [|o outs IH]; intros k ins E; cbn [output_loop] in E; [by injection E as <-|].
  apply rbind_Ok in E as (D' & _ & E); apply rbind_Ok in E as (r & _ & E); apply rbind_Ok in E as (B & _ & E).
  apply rbind_Ok in E as (found & Ef & E); apply rbind_Ok in E as (rest & Er & [= <-]); apply Forall_app; split; [|by eapply IH].
  case_bool_decide; [|by injection Ef as <-]; apply rbind_Ok in Ef as (image & _ & [= <-]); by apply Forall_singleton.
Qed.

Lemma outputs_of_new v txs h ws : forall ins, outputs_of ndebug v txs h ws = Ok ins ->
  Forall (fun ki => wi_spendHeight ki.2 = 0 /\ wi_blockHeight ki.2 = h /\ ki.1 ∈ m_publicSpendKeys ws) ins.
Proof.
  induction txs as [|tx txs IH]; intros ins E; cbn [outputs_of] in E; [by injection E as <-|].
  apply rbind_Ok in E as (l & El & E); apply rbind_Ok in E as (rest & Er & [= <-]); apply Forall_app; split; [|by eapply IH].
  unfold processTransactionOutputs in El; apply rbind_Ok in El as (D & _ & El); by eapply output_loop_new.
Qed.

Lemma fill_indexes_same h v ins : forall ins', fill_indexes indexes h v ins = Some ins' ->
  Forall2 (fun ki ki' => ki'.1 = ki.1 /\ wi_spendHeight ki'.2 = wi_spendHeight ki.2 /\ wi_blockHeight ki'.2 = wi_blockHeight ki.2) ins ins'.
Proof.
  induction ins as [|[k i] ins IH]; intros ins' E; cbn [fill_indexes] in E; [injection E as <-; constructor|].
  apply bind_Some in E as (i' & Ei & E); apply bind_Some in E as (rest & Er & [= <-]); constructor; [|by apply IH].
  cbn [fst snd]; destruct (wi_globalOutputIndex i); [by injection Ei as <-|]; destruct v; [by injection Ei as <-|].
  apply bind_Some in Ei as (l & _ & Ei); apply bind_Some in Ei as (x & _ & [= <-]); done.
Qed.

Lemma credited_new y b ins : credited y b ins ->
  Forall (fun ki => wi_spendHeight ki.2 = 0 /\ wi_blockHeight ki.2 = wb_blockHeight b /\ ki.1 ∈ m_publicSpendKeys (m_wallets y)) ins.
Proof.
  intros (ins0 & E0 & E1); unfold processBlockOutputs in E0; apply outputs_of_new in E0; apply fill_indexes_same in E1.
  induction E1 as [|ki ki' l l' (E1 & E2 & E3) _ IH]; [constructor|]; apply Forall_cons in E0 as [[H1 H2] E0].
  constructor; [by rewrite E1, E2, E3|by apply IH].
Qed.

Lemma elem_of_spent x bs : x ∈ spent_images bs <-> exists b, b ∈ map fst bs /\ x ∈ spent_in b.
Proof.
  unfold spent_images; rewrite list_elem_of_In, in_concat; split.
  - intros (l & Hl & Hx); apply in_map_iff in Hl as (p & <- & Hp); exists p.1; split; [apply list_elem_of_fmap_2|]; by apply list_elem_of_In.
  - intros (b & Hb & Hx); apply list_elem_of_fmap in Hb as (p & -> & Hp); exists (spent_in p.1); split; [|by apply list_elem_of_In].
    apply (in_map (fun b : WalletBlockInfo * list (PublicKey * WalletInput) => spent_in b.1)); by apply list_elem_of_In.
Qed.

Lemma elem_of_incoming S i bs : i ∈ incoming S bs <-> exists b ins, (b, ins) ∈ bs /\ (S, i) ∈ ins.
Proof.
  unfold incoming; rewrite elem_of_at_key, list_elem_of_In, in_concat; split.
  - intros (l & Hl & Hi); apply in_map_iff in Hl as ([b ins] & <- & Hb); exists b, ins; by rewrite !list_elem_of_In.
  - intros (b & ins & Hb & Hi); exists ins; rewrite list_elem_of_In in Hi; split; [|done].
    apply in_map_iff; exists (b, ins); by rewrite <- list_elem_of_In.
Qed.

Lemma incoming_new y bs : follows y bs -> forall S i, i ∈ incoming S bs -> wi_spendHeight i = 0.
Proof. intros F S i (b & ins & Hb & Hi)%elem_of_incoming; by apply (fol_new _ _ F b ins S). Qed.

Lemma filter_halves {A} (P : A -> Prop) `{!forall a, Decision (P a)} (l k : list A) :
  Forall (fun a => ~ P a) l -> Forall P k -> filter P (l ++ k) = k /\ filter (fun a => ~ P a) (l ++ k) = l.
Proof.
  intros Hl Hk; rewrite !filter_app, (list_filter_none P l Hl), (list_filter_all P k Hk), (list_filter_all _ l Hl).
  rewrite (list_filter_none (fun a => ~ P a) k) by (eapply Forall_impl; [exact Hk|]; cbn; tauto); by rewrite app_nil_r.
Qed.

Lemma submseteq_NoDup {A} (l k : list A) : l ⊆+ k -> NoDup k -> NoDup l.
Proof. intros [m ->]%submseteq_Permutation Hn; by apply NoDup_app in Hn as [? _]. Qed.

(** Where every one-time key comes once, the chain decides what is held and what is spent. *)
Lemma follows_exact y bs S w : once = true -> follows y bs -> m_subWallets (m_wallets y) !! S = Some w ->
  held w ≡ₚ filter (fun i => wi_keyImage i ∉ spent_images bs) (incoming S bs) /\
  map (with_spendHeight 0) (m_spentInputs w) ≡ₚ filter (fun i => wi_keyImage i ∈ spent_images bs) (incoming S bs).
Proof.
  intros HO F Ew; destruct (filter_halves (fun i => wi_keyImage i ∈ spent_images bs) (held w) (map (with_spendHeight 0) (m_spentInputs w))) as [E1 E2].
  - apply Forall_forall; intros i; by apply (fol_unspent _ _ F S w).
  - apply Forall_forall; intros i (j & -> & Hj)%list_elem_of_fmap; destruct (fol_heights _ _ F S w j Ew Hj) as (b & Hb & Hx & _).
    apply elem_of_spent; by exists b.
  - split; [rewrite <- E2 at 1|rewrite <- E1 at 1]; apply filter_Permutation, (fol_all _ _ F S w Ew).
Qed.

(** *** The next block *)

Lemma reset_spendHeight h i : wi_spendHeight i = 0 -> with_spendHeight 0 (with_spendHeight h i) = i.
Proof. destruct i; unfold with_spendHeight; cbn; by intros ->. Qed.

Section Block.
Context (y : WalletSynchronizer) (bs : scanned) (b : WalletBlockInfo) (ins : list (PublicKey * WalletInput)).
Hypothesis F : follows y bs.
Hypothesis N : next_block y bs b ins.
Let ws := m_wallets y.
Let bs' := bs ++ [(b, ins)].

Lemma block_keys S w : m_subWallets ws !! S = Some w -> m_publicSpendKey w = S.
Proof. apply (keyed_key _ (fol_keyed _ _ F)). Qed.

Section Sub.
Context (S : PublicKey) (w w2 w3 : SubWallet).
Hypothesis Ew : m_subWallets ws !! S = Some w.
Hypothesis H2 : received (at_key S ins) w w2.
Let X := at_key S (owned ws (spent_in b)).
Hypothesis H3 : moved X (wb_blockHeight b) w2 w3.

Lemma held_received : held w2 ≡ₚ held w ++ at_key S ins.
Proof. destruct H2 as (-> & -> & _); rewrite <- !app_assoc; apply Permutation_app_head, Permutation_app_comm. Qed.

Lemma own_incoming i : i ∈ held w -> i ∈ incoming S bs.
Proof. intros Hi; rewrite <- (fol_all _ _ F S w Ew), elem_of_app; by left. Qed.

Lemma received_incoming i : i ∈ held w2 -> i ∈ incoming S bs'.
Proof.
  rewrite held_received, elem_of_app; unfold bs'; rewrite incoming_snoc; intros [Hi|Hi]; apply elem_of_app; [left; by apply own_incoming|by right].
Qed.

Lemma incoming_next i : i ∈ incoming S bs' -> wi_spendHeight i = 0 /\ wi_blockHeight i <= wb_blockHeight b.
Proof.
  unfold bs'; rewrite incoming_snoc, elem_of_app; intros [Hi|Hi].
  - apply elem_of_incoming in Hi as (b0 & ins0 & Hb & Hi); destruct (fol_new _ _ F b0 ins0 S i Hb Hi) as [? ->]; split; [done|].
    apply Z.lt_le_incl, (nb_above _ _ _ _ N), (list_elem_of_fmap_2 fst _ (b0, ins0) Hb).
  - rewrite elem_of_at_key in Hi; pose proof (credited_new _ _ _ (nb_credited _ _ _ _ N)) as H; rewrite Forall_forall in H.
    destruct (H _ Hi) as (? & E & _); cbn [snd] in E; rewrite E; split; [done|lia].
Qed.

Lemma next_all : held w3 ++ map (with_spendHeight 0) (m_spentInputs w3) ≡ₚ incoming S bs'.
Proof.
  destruct (mov_inputs _ _ _ _ H3) as (l & _ & HP & HS); destruct H2 as (_ & _ & ES & _); rewrite HS, ES, map_app, map_map.
  assert (EL : map (fun i => with_spendHeight 0 (with_spendHeight (wb_blockHeight b) i)) l = l).
  { rewrite (map_ext_Forall _ id), map_id; [done|]; apply Forall_forall; intros i Hi.
    apply reset_spendHeight, incoming_next, received_incoming; rewrite HP, elem_of_app; by left. }
  rewrite EL; unfold bs'; rewrite incoming_snoc, <- (fol_all _ _ F S w Ew); cbn [snd]; rewrite held_received in HP.
  transitivity ((l ++ held w3) ++ map (with_spendHeight 0) (m_spentInputs w)).
  - generalize (held w3), (map (with_spendHeight 0) (m_spentInputs w)); intros p q; by rewrite <- app_assoc, (Permutation_app_comm l), <- app_assoc.
  - rewrite <- HP; generalize (held w); intros p; rewrite <- !(app_assoc p); apply Permutation_app_head, Permutation_app_comm.
Qed.

Lemma next_spent i : i ∈ m_spentInputs w3 -> wi_blockHeight i <= wi_spendHeight i /\
  exists b', b' ∈ map fst bs' /\ wi_keyImage i ∈ spent_in b' /\ wi_spendHeight i = wb_blockHeight b'.
Proof.
  destruct (mov_inputs _ _ _ _ H3) as (l & HX & HP & ->); destruct H2 as (_ & _ & -> & _); rewrite elem_of_app; intros [Hi|Hi].
  - split; [by apply (fol_order _ _ F S w)|]; destruct (fol_heights _ _ F S w i Ew Hi) as (b' & Hb & ? & ?); exists b'; split; [|done].
    unfold bs'; rewrite map_app, elem_of_app; by left.
  - apply list_elem_of_fmap in Hi as (j & -> & Hj); cbn [with_spendHeight wi_keyImage wi_spendHeight wi_blockHeight].
    split; [apply incoming_next, received_incoming; rewrite HP, elem_of_app; by left|]; exists b.
    assert (HXj : wi_keyImage j ∈ X) by (rewrite <- HX; by apply list_elem_of_fmap_2).
    unfold X in HXj; rewrite elem_of_at_key, elem_of_owned in HXj; split; [|split; [apply HXj|done]].
    unfold bs'; rewrite map_app, elem_of_app; right; apply list_elem_of_here.
Qed.

Section Once.
Hypothesis HO : once = true.

Lemma received_unspent i : i ∈ at_key S ins -> wi_keyImage i ∉ spent_images bs'.
Proof.
  intros Hi; apply (nb_later _ _ _ _ N _ HO), list_elem_of_fmap_2; rewrite elem_of_at_key in Hi.
  by apply (list_elem_of_fmap_2 snd _ (S, i)).
Qed.

Lemma own_spent i : i ∈ held w -> wi_keyImage i ∈ spent_in b -> wi_keyImage i ∈ X.
Proof.
  intros Hi Hs; unfold X; rewrite elem_of_at_key, elem_of_owned; split; [done|].
  destruct (owner_is_some ws (fol_full _ _ F) (wi_keyImage i) S w Ew) as [S' E]; [by apply list_elem_of_fmap_2|]; rewrite E; f_equal.
  destruct (owner_some ws block_keys (fol_full _ _ F) _ _ E) as (w' & Ew' & Hj); apply list_elem_of_fmap in Hj as (j & Ej & Hj).
  symmetry; apply (incoming_owner S S' bs i j (fol_once _ _ F HO)); [by apply own_incoming| |done].
  rewrite <- (fol_all _ _ F S' w' Ew'), elem_of_app; by left.
Qed.

Lemma next_unspent i : i ∈ held w3 -> wi_keyImage i ∉ spent_images bs'.
Proof.
  destruct (mov_inputs _ _ _ _ H3) as (l & HX & HP & _); intros Hi; assert (Hi2 : i ∈ held w2) by (rewrite HP, elem_of_app; by right).
  rewrite held_received, elem_of_app in Hi2; destruct Hi2 as [Hw|Hn]; [|by apply received_unspent]; unfold bs'; rewrite spent_images_snoc, elem_of_app.
  intros [Hs|Hs]; [by apply (fol_unspent _ _ F S w i HO Ew Hw)|]; apply (own_spent i Hw) in Hs.
  assert (HN : NoDup (images (l ++ held w3))).
  { rewrite <- HP, held_received; eapply (submseteq_NoDup _ (images (all_incoming bs'))); [|by apply (nb_once _ _ _ _ N)]; apply fmap_submseteq.
    unfold bs'; rewrite all_incoming_snoc; apply submseteq_app; [|by apply sublist_submseteq, fmap_sublist, sublist_filter].
    transitivity (incoming S bs); [|apply sublist_submseteq, incoming_sublist]; rewrite <- (fol_all _ _ F S w Ew); by apply submseteq_inserts_r. }
  rewrite map_app, NoDup_app, HX in HN; destruct HN as (_ & HD & _); by apply (HD _ Hs), list_elem_of_fmap_2.
Qed.
End Once.
End Sub.

(** *** Scanning it *)

Lemma block_recorded : exists ws1, add_all addTransaction (transactionsToAdd (processBlockTransactions b ins ws)) ws = Ok ws1 /\
  NoDup (map wt_hash (m_transactions ws1)) /\
  (forall tx, tx ∈ m_transactions ws1 -> exists b', b' ∈ map fst bs' /\ wt_hash tx ∈ hashes_in b' /\ wt_blockHeight tx = wb_blockHeight b') /\
  ws1 = with_transactions (m_transactions ws1) (m_lockedTransactions ws1) ws.
Proof.
  destruct (processBlockTransactions_spec ws b ins) as (_ & _ & HT & HH); set (new := transactionsToAdd _) in *.
  pose proof (nb_hashes _ _ _ _ N) as Hn; rewrite known_hashes_snoc in Hn; apply NoDup_app in Hn as (_ & Hd & Hn).
  assert (HN : NoDup (map wt_hash (m_transactions ws ++ new))).
  { rewrite map_app; apply NoDup_app; split_and!; [apply (fol_hashes _ _ F)| |exact (sublist_NoDup _ _ Hn HT)].
    intros x Hx Hx'; apply list_elem_of_fmap in Hx as (tx & -> & Htx); destruct (fol_transactions _ _ F tx Htx) as (b' & Hb & Hh & _).
    apply (Hd (wt_hash tx)); [|by eapply elem_of_sublist; [exact Hx'|]].
    apply list_elem_of_fmap in Hb as (p & -> & Hp); unfold known_hashes; apply list_elem_of_In, in_concat; eexists; split; [|by apply list_elem_of_In].
    apply (in_map (fun b0 : WalletBlockInfo * _ => hashes_in b0.1)); by apply list_elem_of_In. }
  destruct (addTransaction_all new ws HN) as (ws1 & E & Et & Ew); exists ws1; rewrite Et; split_and!; [done|done| |by rewrite <- Et].
  intros tx [Htx|Htx]%elem_of_app.
  - destruct (fol_transactions _ _ F tx Htx) as (b' & Hb & ? & ?); exists b'; split; [|done].
    unfold bs'; rewrite map_app, elem_of_app; by left.
  - exists b; split; [unfold bs'; rewrite map_app, elem_of_app; right; apply list_elem_of_here|].
    rewrite Forall_forall in HH; split; [|by apply HH]; eapply elem_of_sublist; [|exact HT]; by apply list_elem_of_fmap_2.
Qed.

Lemma block_credited S i : (S, i) ∈ ins -> wi_spendHeight i = 0 /\ wi_blockHeight i = wb_blockHeight b /\ is_Some (m_subWallets ws !! S).
Proof.
  intros Hi; pose proof (credited_new _ _ _ (nb_credited _ _ _ _ N)) as H; rewrite Forall_forall in H; destruct (H _ Hi) as (H1 & H2 & H3).
  split; [done|]; split; [done|]; by apply (keyed_all _ (fol_keyed _ _ F)).
Qed.

(** The subwallets after the block. *)
Lemma block_stored ws1 : ws1 = with_transactions (m_transactions ws1) (m_lockedTransactions ws1) ws ->
  exists ws2 ws3, add_all (fun ki => storeTransactionInput ki.1 ki.2) ins ws1 = Ok ws2 /\
    add_all (fun ki => markInputAsSpent ki.2 ki.1 (wb_blockHeight b)) (owned ws (spent_in b)) ws2 = Ok ws3 /\
    changed (fun S w w3 => exists w2, received (at_key S ins) w w2 /\ moved (at_key S (owned ws (spent_in b))) (wb_blockHeight b) w2 w3) ws1 ws3.
Proof.
  intros E1; assert (ES : m_subWallets ws1 = m_subWallets ws) by (by rewrite E1).
  destruct (store_all ins ws1) as (ws2 & E2 & C2); [intros S i Hi; rewrite ES; by apply (block_credited S i)|].
  destruct (mark_all (wb_blockHeight b) (owned ws (spent_in b)) ws2) as (ws3 & E3 & C3).
  - rewrite (chg_rest _ _ _ C2), E1; apply (fol_full _ _ F).
  - pose proof (nb_spent _ _ _ _ N) as Hn; rewrite spent_images_snoc in Hn; apply NoDup_app in Hn as (_ & _ & Hn).
    apply (sublist_NoDup _ _ Hn), owned_images.
  - intros S x [Hx Eo]%elem_of_owned; destruct (owner_some ws block_keys (fol_full _ _ F) _ _ Eo) as (w & Ew & Hw).
    pose proof (chg_subs _ _ _ C2 S) as H; rewrite ES, Ew in H; inversion H as [? w2 H2 Ea Eb|]; subst; exists w2; split; [done|].
    destruct H2 as (-> & -> & _); revert Hw; rewrite !map_app, !elem_of_app; tauto.
  - exists ws2, ws3; split_and!; [done..|]; eapply changed_trans; [|exact C2|exact C3]; intros S w w2 w3 ? ?; by exists w2.
Qed.

Lemma block_follows ws1 ws3 y' : NoDup (map wt_hash (m_transactions ws1)) ->
  (forall tx, tx ∈ m_transactions ws1 -> exists b', b' ∈ map fst bs' /\ wt_hash tx ∈ hashes_in b' /\ wt_blockHeight tx = wb_blockHeight b') ->
  ws1 = with_transactions (m_transactions ws1) (m_lockedTransactions ws1) ws ->
  changed (fun S w w3 => exists w2, received (at_key S ins) w w2 /\ moved (at_key S (owned ws (spent_in b))) (wb_blockHeight b) w2 w3) ws1 ws3 ->
  m_wallets y' = ws3 -> follows y' bs'.
Proof.
  intros Hh Ht R1 C Ey; assert (HS : forall S w3, m_subWallets ws3 !! S = Some w3 -> exists w w2, m_subWallets ws !! S = Some w /\
    received (at_key S ins) w w2 /\ moved (at_key S (owned ws (spent_in b))) (wb_blockHeight b) w2 w3).
  { intros S w3 Ew3; destruct (changed_at _ _ _ _ _ C Ew3) as (w & Ew & w2 & H2 & H3); rewrite R1 in Ew; by exists w, w2. }
  destruct (fol_keyed _ _ F) as [K1 K2 K3]; split; rewrite ?Ey.
  - split.
    + intros S w3 Ew3; destruct (HS S w3 Ew3) as (w & w2 & Ew & (_ & _ & _ & R4 & R5) & H3); destruct (mov_keys _ _ _ _ H3) as [-> ->].
      rewrite R4, R5, (chg_rest _ _ _ C), R1; by apply K1.
    + intros S; pose proof (chg_subs _ _ _ C S) as H; rewrite R1 in H; cbn [with_transactions m_subWallets] in H.
      rewrite (chg_rest _ _ _ C), R1; cbn [with_subWallets with_transactions m_publicSpendKeys m_subWallets]; unfold ws in H |- *; rewrite (K2 S).
      inversion H; split; intros [? ?]; try done; by eexists.
    + rewrite (chg_rest _ _ _ C), R1; exact K3.
  - rewrite (chg_rest _ _ _ C), R1; apply (fol_full _ _ F).
  - intros S w3 Ew3; destruct (HS S w3 Ew3) as (w & w2 & Ew & H2 & H3); by apply (next_all S w w2 w3).
  - intros S w3 i Ew3; destruct (HS S w3 Ew3) as (w & w2 & Ew & H2 & H3); by apply (next_spent S w w2 w3).
  - intros S w3 i Ew3; destruct (HS S w3 Ew3) as (w & w2 & Ew & H2 & H3); by apply (next_spent S w w2 w3).
  - rewrite (chg_rest _ _ _ C); exact Hh.
  - rewrite (chg_rest _ _ _ C); exact Ht.
  - apply (nb_spent _ _ _ _ N).
  - intros b' ins' S i [Hb|Hb]%elem_of_app Hi; [by apply (fol_new _ _ F b' ins' S)|].
    apply list_elem_of_singleton in Hb; injection Hb as -> ->; destruct (block_credited S i Hi) as (? & ? & _); done.
  - intros b' ins' S i Hb Hi; pose proof (chg_subs _ _ _ C S) as H; rewrite R1 in H; cbn [with_transactions m_subWallets] in H.
    assert (HO : is_Some (m_subWallets ws !! S)).
    { apply elem_of_app in Hb as [Hb|Hb]; [by apply (fol_owner _ _ F b' ins' S i)|].
      apply list_elem_of_singleton in Hb; injection Hb as -> ->; by apply (block_credited S i). }
    destruct HO as [w Ew]; rewrite Ew in H; inversion H; by eexists.
  - intros S w3 i HO Ew3; destruct (HS S w3 Ew3) as (w & w2 & Ew & H2 & H3); by apply (next_unspent S w w2 w3).
  - apply (nb_once _ _ _ _ N).
  - intros b' ins' S i b'' HO Hb Hi Hb'' Hs; apply elem_of_app in Hb as [Hb|Hb].
    + unfold bs' in Hb''; rewrite map_app in Hb''; apply elem_of_app in Hb'' as [Hb''|Hb'']; [by apply (fol_after _ _ F b' ins' S i)|].
      apply list_elem_of_singleton in Hb'' as ->; by apply (nb_above _ _ _ _ N), (list_elem_of_fmap_2 fst _ (b', ins')).
    + apply list_elem_of_singleton in Hb; injection Hb as -> ->; destruct (nb_later _ _ _ _ N (wi_keyImage i) HO).
      * by apply list_elem_of_fmap_2, (list_elem_of_fmap_2 snd _ (S, i)).
      * apply elem_of_spent; by exists b''.
Qed.

(** [y0] is the wallet before the rollback that leads to [y]; all that is left is the height. *)
Lemma processBlock_eq y0 :
  (if m_lastKnownBlockHeight (m_syncStatus y0) >=? wb_blockHeight b then removeForkedTransactions (wb_blockHeight b) (m_wallets y0) else m_wallets y0) = ws ->
  m_viewKey y0 = m_viewKey y ->
  exists ws', (forall y', m_wallets y' = ws' -> follows y' bs') /\ processBlock ndebug indexes b y0 =
    (let! status := storeBlockHash (wb_blockHash b) (wb_blockHeight b) (m_syncStatus y0) in
     Ok (mkSynchronizer ws' status (m_startTimestamp y0) (m_startHeight y0) (m_viewKey y0))).
Proof.
  intros E0 EV; destruct block_recorded as (ws1 & E1 & Hh & Ht & R1); destruct (block_stored ws1 R1) as (ws2 & ws3 & E2 & E3 & C).
  destruct (nb_credited _ _ _ _ N) as (ins0 & EI & EF); destruct (processBlockTransactions_spec ws b ins) as (Em & Ei & _).
  exists ws3; split; [intros y' Ey; by apply (block_follows ws1 ws3)|]; unfold processBlock; rewrite E0, EV; unfold ws at 1; rewrite EI.
  cbn [rbind]; unfold ws at 1; rewrite EF; cbn zeta; rewrite E1; cbn [rbind]; rewrite Ei, E2; cbn [rbind]; by rewrite Em, E3.
Qed.

Lemma processBlock_follows y0 :
  (if m_lastKnownBlockHeight (m_syncStatus y0) >=? wb_blockHeight b then removeForkedTransactions (wb_blockHeight b) (m_wallets y0) else m_wallets y0) = ws ->
  m_viewKey y0 = m_viewKey y -> connected y0 b ->
  exists y', processBlock ndebug indexes b y0 = Ok y' /\ follows y' bs' /\ m_viewKey y' = m_viewKey y0 /\
    m_lastKnownBlockHeight (m_syncStatus y') = wb_blockHeight b.
Proof.
  intros E0 EV Hc; destruct (processBlock_eq y0 E0 EV) as (ws' & F' & ->).
  assert (EH : exists st, storeBlockHash (wb_blockHash b) (wb_blockHeight b) (m_syncStatus y0) = Ok st /\ m_lastKnownBlockHeight st = wb_blockHeight b).
  { unfold storeBlockHash, connected in *; destruct (Z.gtb_spec (wb_blockHeight b) (m_lastKnownBlockHeight (m_syncStatus y0))) as [H|H]; [|by eexists].
    destruct (Hc H) as [H'|H']; rewrite H', Z.eqb_refl, andb_false_r; by eexists. }
  destruct EH as (st & -> & Hst); cbn [rbind]; eexists; split; [reflexivity|]; split; [by apply F'|by split].
Qed.
End Block.

(** *** Other operations *)

(** What is not scanned may move between the unspent and the locked inputs. *)
Definition same_inputs (w w' : SubWallet) : Prop :=
  held w' ≡ₚ held w /\ m_spentInputs w' = m_spentInputs w /\ m_publicSpendKey w' = m_publicSpendKey w /\ m_privateSpendKey w' = m_privateSpendKey w.

Lemma follows_same y y' bs : follows y bs ->
  (forall S, option_Forall2 same_inputs (m_subWallets (m_wallets y) !! S) (m_subWallets (m_wallets y') !! S)) ->
  m_transactions (m_wallets y') = m_transactions (m_wallets y) -> m_isViewWallet (m_wallets y') = m_isViewWallet (m_wallets y) ->
  m_publicSpendKeys (m_wallets y') = m_publicSpendKeys (m_wallets y) -> follows y' bs.
Proof.
  intros F HS ET EV EK; destruct (fol_keyed _ _ F) as [K1 K2 K3].
  assert (HW : forall S w', m_subWallets (m_wallets y') !! S = Some w' -> exists w, m_subWallets (m_wallets y) !! S = Some w /\ same_inputs w w').
  { intros S w' Ew; specialize (HS S); rewrite Ew in HS; inversion HS; subst; by eexists. }
  split; rewrite ?ET, ?EV.
  - split; rewrite ?EK, ?EV; [|intros S; rewrite K2; destruct (HS S); split; intros [? ?]; try done; by eexists|done].
    intros S w' (w & Ew & _ & _ & -> & ->)%HW; by apply K1.
  - apply (fol_full _ _ F).
  - intros S w' (w & Ew & -> & -> & _)%HW; by apply (fol_all _ _ F).
  - intros S w' i (w & Ew & _ & -> & _)%HW; by apply (fol_heights _ _ F S w).
  - intros S w' i (w & Ew & _ & -> & _)%HW; by apply (fol_order _ _ F S w).
  - apply (fol_hashes _ _ F).
  - apply (fol_transactions _ _ F).
  - apply (fol_spent_once _ _ F).
  - apply (fol_new _ _ F).
  - intros b ins S i Hb Hi; destruct (fol_owner _ _ F b ins S i Hb Hi) as [w Ew]; specialize (HS S); rewrite Ew in HS; inversion HS; by eexists.
  - intros S w' i HO (w & Ew & HH & _)%HW; rewrite HH; by apply (fol_unspent _ _ F S w).
  - apply (fol_once _ _ F).
  - apply (fol_after _ _ F).
Qed.

Lemma same_inputs_refl w : same_inputs w w.
Proof. done. Qed.

Lemma extract_perm x l : match extract_input x l with Some (i, rest) => l ≡ₚ i :: rest | None => True end.
Proof.
  induction l as [|a l IH]; [done|]; cbn [extract_input]; case_bool_decide; [done|].
  destruct (extract_input x l) as [[i rest]|]; [|done]; rewrite IH; apply Permutation_swap.
Qed.

Lemma update_same e S0 f ws ws' : (forall w w', f w = Ok w' -> same_inputs w w') -> update_subWallet e S0 f ws = Ok ws' ->
  (forall S, option_Forall2 same_inputs (m_subWallets ws !! S) (m_subWallets ws' !! S)) /\ ws' = with_subWallets (m_subWallets ws') ws.
Proof.
  intros Hf; unfold update_subWallet; destruct (m_subWallets ws !! S0) as [w|] eqn:Ew; [|done]; intros (w' & Ef & [= <-])%rbind_Ok.
  split; [|done]; intros S; cbn [with_subWallets m_subWallets]; destruct (decide (S = S0)) as [->|Hne].
  - rewrite Ew, lookup_insert_eq; constructor; by apply Hf.
  - rewrite lookup_insert_ne by done; destruct (m_subWallets ws !! S); by constructor.
Qed.

Lemma lock_same x w w' : sub_markInputAsLocked x w = Ok w' -> same_inputs w w'.
Proof.
  unfold sub_markInputAsLocked; pose proof (extract_perm x (m_unspentInputs w)) as H; destruct (extract_input _ _) as [[i rest]|]; [|done].
  intros [= <-]; unfold same_inputs; cbn [with_inputs m_unspentInputs m_lockedInputs m_spentInputs m_publicSpendKey m_privateSpendKey].
  split_and!; try done; rewrite H; cbn [app]; rewrite (Permutation_app_comm (m_lockedInputs w)); cbn [app]; by rewrite Permutation_middle.
Qed.

Lemma cancel_same c w : Forall (fun i => wi_spendHeight i = 0) (m_lockedInputs w) -> same_inputs w (sub_removeCancelledTransactions c w).
Proof.
  intros H0; unfold same_inputs, sub_removeCancelledTransactions; cbn [with_inputs m_unspentInputs m_lockedInputs m_spentInputs m_publicSpendKey m_privateSpendKey].
  split_and!; try done; rewrite <- app_assoc; apply Permutation_app_head; rewrite (map_ext_Forall _ id), map_id.
  - apply filter_app_complement.
  - apply Forall_forall; intros i [_ Hi]%list_elem_of_filter; rewrite Forall_forall in H0; specialize (H0 i Hi); destruct i; cbn in H0 |- *; by subst.
Qed.

(** ** Forks *)

(** The scanned blocks below the height of the fork. *)
Definition kept (h : Z) (bs : scanned) : scanned := filter (fun b => wb_blockHeight b.1 < h) bs.

(** The inputs received and spent at or above that height. *)
Definition undone (h : Z) (w : SubWallet) : list WalletInput :=
  filter (fun i => h <= wi_spendHeight i /\ h <= wi_blockHeight i) (m_spentInputs w).

Lemma filter_map {A B} (f : A -> B) (P : B -> Prop) `{!forall b, Decision (P b)} (l : list A) :
  filter P (map f l) = map f (filter (fun a => P (f a)) l).
Proof. induction l as [|a l IH]; [done|]; cbn [map]; rewrite !filter_cons, IH; by destruct (decide (P (f a))). Qed.

Lemma spent_once bs : NoDup (spent_images bs) -> forall b b' x, b ∈ map fst bs -> b' ∈ map fst bs -> x ∈ spent_in b -> x ∈ spent_in b' -> b = b'.
Proof.
  induction bs as [|p bs IH]; intros Hn b b' x Hb Hb' Hx Hx'; [by apply not_elem_of_nil in Hb|].
  unfold spent_images in *; cbn [map concat] in *; apply NoDup_app in Hn as (_ & Hd & Hn).
  assert (HD : forall c, c ∈ map fst bs -> x ∈ spent_in c -> x ∈ spent_in p.1 -> False).
  { intros c Hc Hxc Hxp; apply (Hd x Hxp); by apply (proj2 (elem_of_spent x bs)); exists c. }
  apply elem_of_cons in Hb as [->|Hb], Hb' as [->|Hb']; [done|by destruct (HD b')|by destruct (HD b)|by apply (IH Hn b b' x)].
Qed.

Lemma kept_incoming h S bs : (forall b ins i, (b, ins) ∈ bs -> (S, i) ∈ ins -> wi_blockHeight i = wb_blockHeight b) ->
  incoming S (kept h bs) = filter (fun i => wi_blockHeight i < h) (incoming S bs).
Proof.
  induction bs as [|[b ins] bs IH]; intros Hb; [done|]; unfold kept, incoming in *; rewrite filter_cons; cbn [fst map concat].
  rewrite at_key_app, filter_app, <- IH by (intros; eapply Hb; [by apply list_elem_of_further|done]).
  assert (HI : forall i, i ∈ at_key S ins -> wi_blockHeight i = wb_blockHeight b)
    by (intros i Hi%elem_of_at_key; apply (Hb b ins i); [apply list_elem_of_here|done]).
  destruct (decide (wb_blockHeight b < h)) as [Hlt|Hge]; cbn [map concat snd].
  - rewrite at_key_app, (list_filter_all _ (at_key S ins)); [done|]; apply Forall_forall; intros i Hi; by rewrite (HI i Hi).
  - rewrite (list_filter_none _ (at_key S ins)); [done|]; apply Forall_forall; intros i Hi; by rewrite (HI i Hi).
Qed.

Lemma elem_of_kept h b bs : b ∈ map fst (kept h bs) <-> b ∈ map fst bs /\ wb_blockHeight b < h.
Proof.
  rewrite !list_elem_of_fmap; split.
  - by intros (p & -> & [Hh Hp]%list_elem_of_filter); split; [exists p|].
  - intros [(p & -> & Hp) Hh]; exists p; split; [done|]; by apply list_elem_of_filter.
Qed.

Section Rollback.
Context (y : WalletSynchronizer) (bs : scanned) (h : Z) (S : PublicKey) (w : SubWallet).
Hypothesis F : follows y bs.
Hypothesis Ew : m_subWallets (m_wallets y) !! S = Some w.

Lemma kept_received : incoming S (kept h bs) ≡ₚ
  filter (fun i => wi_blockHeight i < h) (held w) ++ map (with_spendHeight 0) (filter (fun i => wi_blockHeight i < h) (m_spentInputs w)).
Proof.
  rewrite kept_incoming by (intros b ins i Hb Hi; by apply (fol_new _ _ F b ins S)).
  by rewrite <- (fol_all _ _ F S w Ew), filter_app, filter_map.
Qed.

(** What the fork undoes of the spent inputs, and what it keeps. *)
Lemma spent_split : filter (fun i => h <= wi_spendHeight i) (m_spentInputs w) ++ filter (fun i => wi_spendHeight i < h) (m_spentInputs w) ≡ₚ
  filter (fun i => wi_blockHeight i < h) (m_spentInputs w) ++ undone h w.
Proof.
  unfold undone; transitivity (m_spentInputs w); [|symmetry].
  - rewrite (list_filter_iff (fun i => wi_spendHeight i < h) (fun i => ~ h <= wi_spendHeight i)) by (intros; lia); apply filter_app_complement.
  - rewrite (list_filter_iff_in (fun i => h <= wi_spendHeight i /\ h <= wi_blockHeight i) (fun i => ~ wi_blockHeight i < h)).
    + apply filter_app_complement.
    + intros i Hi; pose proof (fol_order _ _ F S w i Ew Hi); lia.
Qed.

Lemma rollback_all : (held (sub_removeForkedInputs h w) ++ map (with_spendHeight 0) (m_spentInputs (sub_removeForkedInputs h w))) ++
    filter (fun i => wi_blockHeight i < h) (m_lockedInputs w) ≡ₚ
  incoming S (kept h bs) ++ map (with_spendHeight 0) (undone h w).
Proof.
  rewrite kept_received, <- (app_assoc (filter _ (held w))), <- map_app, <- spent_split, map_app, filter_app.
  unfold sub_removeForkedInputs; cbn [with_inputs m_unspentInputs m_lockedInputs m_spentInputs].
  rewrite app_nil_r, <- !app_assoc; apply Permutation_app_head; rewrite app_assoc; apply Permutation_app_comm.
Qed.

Lemma rollback_kept i : i ∈ m_spentInputs (sub_removeForkedInputs h w) ->
  exists b, b ∈ map fst (kept h bs) /\ wi_keyImage i ∈ spent_in b /\ wi_spendHeight i = wb_blockHeight b.
Proof.
  intros [Hlt Hi]%list_elem_of_filter; destruct (fol_heights _ _ F S w i Ew Hi) as (b & Hb & Hx & Eh).
  exists b; rewrite elem_of_kept; split_and!; [done|lia|done|done].
Qed.

Lemma rollback_unspent i : once = true -> i ∈ held (sub_removeForkedInputs h w) -> wi_keyImage i ∉ spent_images (kept h bs).
Proof.
  unfold sub_removeForkedInputs; cbn [with_inputs m_unspentInputs m_lockedInputs]; rewrite app_nil_r, elem_of_app, elem_of_spent; intros HO Hi (b & [Hb Hlt]%elem_of_kept & Hx).
  destruct Hi as [[_ Hi]%list_elem_of_filter|(j & -> & [Hj Hi]%list_elem_of_filter)%list_elem_of_fmap].
  - apply (fol_unspent _ _ F S w i HO Ew); [apply elem_of_app; by left|]; apply elem_of_spent; by exists b.
  - destruct (fol_heights _ _ F S w j Ew Hi) as (b' & Hb' & Hx' & Eh); cbn [with_spendHeight wi_keyImage] in Hx.
    rewrite (spent_once bs (fol_spent_once _ _ F) b b' (wi_keyImage j)) in Hlt by done; lia.
Qed.
End Rollback.

(** No locked input from below the height, and none both received and spent above. *)
Definition clean_fork (h : Z) (y : WalletSynchronizer) : Prop := forall S w, m_subWallets (m_wallets y) !! S = Some w ->
  Forall (fun i => h <= wi_blockHeight i) (m_lockedInputs w) /\ undone h w = [].

Definition rolled_back (h : Z) (y : WalletSynchronizer) : WalletSynchronizer := with_wallets (removeForkedTransactions h (m_wallets y)) y.

Lemma kept_sublist h bs : kept h bs `sublist_of` bs.
Proof. apply sublist_filter. Qed.

Lemma concat_sublist {A B} (f : A -> list B) l l' : l `sublist_of` l' -> concat (map f l) `sublist_of` concat (map f l').
Proof. induction 1; cbn [map concat]; [done|by apply sublist_app|by apply sublist_inserts_l]. Qed.

Lemma rollback_follows y bs h : follows y bs -> clean_fork h y -> follows (rolled_back h y) (kept h bs).
Proof.
  intros F C; pose proof (kept_sublist h bs) as HK; destruct (fol_keyed _ _ F) as [K1 K2 K3].
  assert (HW : forall S w', m_subWallets (m_wallets (rolled_back h y)) !! S = Some w' ->
    exists w, m_subWallets (m_wallets y) !! S = Some w /\ w' = sub_removeForkedInputs h w).
  { intros S w' E; cbn in E; rewrite lookup_fmap in E; destruct (m_subWallets (m_wallets y) !! S) as [w|]; [|done]; injection E as <-; by exists w. }
  split.
  - split; [intros S w' (w & Ew & ->)%HW; exact (K1 S w Ew)| |exact K3].
    intros S; cbn; rewrite lookup_fmap, fmap_is_Some; apply K2.
  - apply (fol_full _ _ F).
  - intros S w' (w & Ew & ->)%HW; destruct (C S w Ew) as [CL CU]; pose proof (rollback_all y bs h S w F Ew) as H.
    rewrite CU, (list_filter_none _ (m_lockedInputs w)) in H by (eapply Forall_impl; [exact CL|]; cbn; lia).
    rewrite (app_nil_r (_ ++ _)), (app_nil_r (incoming _ _)) in H; exact H.
  - intros S w' i (w & Ew & ->)%HW; by apply (rollback_kept y bs h S).
  - intros S w' i (w & Ew & ->)%HW [_ Hi]%list_elem_of_filter; by apply (fol_order _ _ F S w).
  - apply (sublist_NoDup _ _ (fol_hashes _ _ F)), fmap_sublist, sublist_filter.
  - intros tx [Hlt Hi]%list_elem_of_filter; destruct (fol_transactions _ _ F tx Hi) as (b & Hb & Hx & Eh).
    exists b; rewrite elem_of_kept; split_and!; [done|lia|done|done].
  - apply (sublist_NoDup _ _ (fol_spent_once _ _ F)), concat_sublist, HK.
  - intros b ins S i [_ Hb]%list_elem_of_filter; by apply (fol_new _ _ F).
  - intros b ins S i [_ Hb]%list_elem_of_filter Hi; cbn; rewrite lookup_fmap, fmap_is_Some; by apply (fol_owner _ _ F b ins S i).
  - intros S w' i HO (w & Ew & ->)%HW; by apply (rollback_unspent y bs h S w).
  - intros HO; apply (sublist_NoDup _ _ (fol_once _ _ F HO)), fmap_sublist, fmap_sublist, concat_sublist, HK.
  - intros b ins S i b' HO [_ Hb]%list_elem_of_filter Hi [Hb' _]%elem_of_kept; by apply (fol_after _ _ F b ins S i).
Qed.

(** Where every one-time key comes once, what the fork keeps is decided by the blocks it keeps. *)
Lemma rollback_exact y bs h S w : once = true -> follows y bs -> m_subWallets (m_wallets y) !! S = Some w ->
  m_unspentInputs (sub_removeForkedInputs h w) ++ filter (fun i => wi_blockHeight i < h) (m_lockedInputs w) ≡ₚ
    filter (fun i => wi_keyImage i ∉ spent_images (kept h bs)) (incoming S (kept h bs)) ++ map (with_spendHeight 0) (undone h w) /\
  map (with_spendHeight 0) (m_spentInputs (sub_removeForkedInputs h w)) ≡ₚ
    filter (fun i => wi_keyImage i ∈ spent_images (kept h bs)) (incoming S (kept h bs)).
Proof.
  intros HO F Ew; pose proof (rollback_all y bs h S w F Ew) as HP; set (P i := wi_keyImage i ∈ spent_images (kept h bs)).
  set (w' := sub_removeForkedInputs h w) in *; assert (HU : Forall (fun i => ~ P i) (held w')) by (apply Forall_forall; intros i; by apply (rollback_unspent y bs h S w)).
  assert (HL : Forall (fun i => ~ P i) (filter (fun i => wi_blockHeight i < h) (m_lockedInputs w))).
  { apply Forall_forall; intros i [_ Hi]%list_elem_of_filter (b & [Hb _]%elem_of_kept & Hx)%elem_of_spent.
    apply (fol_unspent _ _ F S w i HO Ew); [apply elem_of_app; by right|apply elem_of_spent; by exists b]. }
  assert (HD : Forall (fun i => ~ P i) (map (with_spendHeight 0) (undone h w))).
  { rewrite Forall_forall in HU |- *; intros i (j & -> & [[Hs _] Hj]%list_elem_of_filter)%list_elem_of_fmap; apply HU, elem_of_app; left.
    apply elem_of_app; right; by apply list_elem_of_fmap_2, list_elem_of_filter. }
  assert (HS : Forall P (map (with_spendHeight 0) (m_spentInputs w'))).
  { apply Forall_forall; intros i (j & -> & Hj)%list_elem_of_fmap; apply elem_of_spent.
    destruct (rollback_kept y bs h S w F Ew j Hj) as (b & Hb & Hx & _); by exists b. }
  rewrite app_nil_r in HP, HU; split.
  - apply (filter_Permutation (fun i => ~ P i)) in HP; rewrite !filter_app in HP.
    rewrite (list_filter_all _ _ HU), (list_filter_all _ _ HL), (list_filter_all _ _ HD), (list_filter_none _ (map _ (m_spentInputs w'))), app_nil_r in HP; [exact HP|].
    eapply Forall_impl; [exact HS|]; cbn; tauto.
  - apply (filter_Permutation P) in HP; rewrite !filter_app in HP.
    by rewrite (list_filter_none _ _ HU), (list_filter_none _ _ HL), (list_filter_none _ _ HD), (list_filter_all _ _ HS), !app_nil_r in HP.
Qed.

(** ** The runs of a wallet *)

(** The wallet and the blocks that [b] is processed on. *)
Definition rewinds (b : WalletBlockInfo) (y : WalletSynchronizer) : bool := m_lastKnownBlockHeight (m_syncStatus y) >=? wb_blockHeight b.
Definition base (b : WalletBlockInfo) (y : WalletSynchronizer) : WalletSynchronizer :=
  if rewinds b y then rolled_back (wb_blockHeight b) y else y.
Definition base_blocks (b : WalletBlockInfo) (y : WalletSynchronizer) (bs : scanned) : scanned :=
  if rewinds b y then kept (wb_blockHeight b) bs else bs.

(** A fork at the height of the block is clean. *)
Definition clean_base (b : WalletBlockInfo) (y : WalletSynchronizer) : Prop := rewinds b y = true -> clean_fork (wb_blockHeight b) y.

(** A block the daemon may send next; where it starts a fork, the fork is clean. *)
Definition follows_on (y : WalletSynchronizer) (bs : scanned) (b : WalletBlockInfo) (ins : list (PublicKey * WalletInput)) : Prop :=
  clean_base b y /\ next_block (base b y) (base_blocks b y bs) b ins.
Definition arrives (y : WalletSynchronizer) (bs : scanned) (b : WalletBlockInfo) (ins : list (PublicKey * WalletInput)) : Prop :=
  connected y b /\ follows_on y bs b ins.

(** The states of a wallet that has a spend key, with the blocks it has scanned. *)
Inductive wallet_run : WalletSynchronizer -> scanned -> Prop :=
| run_start privateSpendKey viewKey address scanHeight newWallet now ws startTimestamp : scalar privateSpendKey ->
    new_SubWallets privateSpendKey viewKey address scanHeight newWallet now = Ok ws ->
    wallet_run (mkSynchronizer ws (mkSyncStatus [] [] 0) startTimestamp scanHeight viewKey) []
| run_block y bs b ins y' : wallet_run y bs -> arrives y bs b ins -> processBlock ndebug indexes b y = Ok y' ->
    wallet_run y' (base_blocks b y bs ++ [(b, ins)])
| run_skip y bs b y' : wallet_run y bs -> clean_base b y -> unindexed (base b y) b -> processBlock ndebug indexes b y = Ok y' ->
    wallet_run y' (base_blocks b y bs)
| run_import y bs privateSpendKey scanHeight address ws : wallet_run y bs -> scalar privateSpendKey ->
    importSubWallet privateSpendKey scanHeight (m_wallets y) = Ok (SUCCESS, address, ws) -> wallet_run (with_wallets ws y) bs
| run_lock y bs x S ws : wallet_run y bs -> markInputAsLocked x S (m_wallets y) = Ok ws -> wallet_run (with_wallets ws y) bs
| run_sent y bs tx ws : wallet_run y bs -> addUnconfirmedTransaction tx (m_wallets y) = Ok ws -> wallet_run (with_wallets ws y) bs
| run_expect y bs input S : wallet_run y bs -> wallet_run (with_wallets (storeUnconfirmedIncomingInput input S (m_wallets y)) y) bs
| run_key y bs key hash : wallet_run y bs -> wallet_run (with_wallets (storeTxPrivateKey key hash (m_wallets y)) y) bs
| run_download y bs localDaemonBlockCount getWalletSyncData : wallet_run y bs ->
    wallet_run (downloadBlocks localDaemonBlockCount getWalletSyncData y).2 bs
| run_cancel y bs getTransactionsStatus y' : wallet_run y bs -> checkLockedTransactions getTransactionsStatus y = Ok y' -> wallet_run y' bs
| run_reset y bs scanHeight : wallet_run y bs ->
    wallet_run (with_wallets (reset scanHeight (m_wallets y)) (synchronizer_reset scanHeight y)) [].

Lemma base_follows y bs b : follows y bs -> clean_base b y -> follows (base b y) (base_blocks b y bs).
Proof. intros F C; unfold base, base_blocks, clean_base in *; destruct (rewinds b y); [|done]; by apply rollback_follows, C. Qed.

Lemma base_wallets b y : (if m_lastKnownBlockHeight (m_syncStatus y) >=? wb_blockHeight b then removeForkedTransactions (wb_blockHeight b) (m_wallets y) else m_wallets y) =
  m_wallets (base b y).
Proof. unfold base, rewinds; by destruct (_ >=? _). Qed.

Lemma base_rest b y : m_viewKey (base b y) = m_viewKey y /\ m_syncStatus (base b y) = m_syncStatus y.
Proof. unfold base; by destruct (rewinds b y). Qed.

Lemma arrives_follows y bs b ins : follows y bs -> arrives y bs b ins ->
  exists y', processBlock ndebug indexes b y = Ok y' /\ follows y' (base_blocks b y bs ++ [(b, ins)]) /\ m_viewKey y' = m_viewKey y /\
    m_lastKnownBlockHeight (m_syncStatus y') = wb_blockHeight b.
Proof.
  intros F (Hc & C & N); pose proof (base_follows _ _ _ F C) as FB.
  apply (processBlock_follows (base b y) (base_blocks b y bs) b ins FB N y); [apply base_wallets|by rewrite (proj1 (base_rest b y))|done].
Qed.

(** A block above the next one ends the scan. *)
Lemma processBlock_missed y bs b ins : follows y bs -> follows_on y bs b ins -> ~ connected y b -> processBlock ndebug indexes b y = Err RuntimeError.
Proof.
  intros F (C & N) Hc; pose proof (base_follows _ _ _ F C) as FB.
  destruct (processBlock_eq (base b y) (base_blocks b y bs) b ins FB N y) as (ws' & _ & ->);
    [apply base_wallets|by rewrite (proj1 (base_rest b y))|].
  unfold storeBlockHash; unfold connected in Hc; destruct (Z.gtb_spec (wb_blockHeight b) (m_lastKnownBlockHeight (m_syncStatus y))); [|lia].
  rewrite (proj2 (Z.eqb_neq (m_lastKnownBlockHeight _) 0)), (proj2 (Z.eqb_neq (wb_blockHeight b) _)) by (intros E; apply Hc; auto); done.
Qed.

(** A block without indexes is left out; a fork it starts is rolled back. *)
Lemma processBlock_unindexed y b : unindexed (base b y) b -> processBlock ndebug indexes b y = Ok (base b y).
Proof.
  intros (ins & EO & EF); unfold processBlock; rewrite base_wallets, <- (proj1 (base_rest b y)), EO; cbn [rbind]; rewrite EF.
  unfold base; destruct (rewinds b y); [done|by destruct y].
Qed.

Lemma key_of_secret s S : scalar s -> public_key s = Ok S -> key_pair S s /\ is_public S.
Proof. intros Hs; rewrite public_key_ok by done; intros [= <-]; split; [by split|by eexists]. Qed.

Lemma empty_follows y : keyed (m_wallets y) -> m_isViewWallet (m_wallets y) = false -> m_transactions (m_wallets y) = [] ->
  (forall S w, m_subWallets (m_wallets y) !! S = Some w -> m_unspentInputs w = [] /\ m_lockedInputs w = [] /\ m_spentInputs w = []) -> follows y [].
Proof.
  intros K V T HW; split; rewrite ?T; [done|done|..].
  - by intros S w (-> & -> & ->)%HW.
  - by intros S w i (_ & _ & ->)%HW Hi%not_elem_of_nil.
  - by intros S w i (_ & _ & ->)%HW Hi%not_elem_of_nil.
  - constructor.
  - by intros tx Hi%not_elem_of_nil.
  - constructor.
  - by intros b ins S i Hb%not_elem_of_nil.
  - by intros b ins S i Hb%not_elem_of_nil.
  - by intros S w i _ (-> & -> & _)%HW Hi%not_elem_of_nil.
  - constructor.
  - by intros b ins S i b' _ Hb%not_elem_of_nil.
Qed.

Lemma start_follows s v address h new now ws y : scalar s -> new_SubWallets s v address h new now = Ok ws -> m_wallets y = ws -> follows y [].
Proof.
  intros Hs; unfold new_SubWallets; intros (S & ES & E)%rbind_Ok Ey; injection E as E; destruct (key_of_secret s S Hs ES) as [KS PS].
  rewrite <- E in Ey; clear E; apply empty_follows; rewrite Ey; [apply add_keyed; [apply empty_keyed|done..]|done|done|].
  intros S' w; unfold add_subWallet; cbn [with_publicSpendKeys with_subWallets m_subWallets].
  intros [[_ <-]|[_ E]]%lookup_insert_Some; [done|]; by rewrite lookup_empty in E.
Qed.

Lemma import_follows y bs s h address ws : follows y bs -> scalar s ->
  importSubWallet s h (m_wallets y) = Ok (SUCCESS, address, ws) -> follows (with_wallets ws y) bs.
Proof.
  intros F Hs; unfold importSubWallet; rewrite (fol_full _ _ F); intros (S & ES & E)%rbind_Ok; apply rbind_Ok in E as (a & _ & E).
  destruct (m_subWallets (m_wallets y) !! S) eqn:EN; [discriminate E|]; injection E as _ <-; destruct (key_of_secret s S Hs ES) as [KS PS].
  set (w0 := new_SubWallet S s a h 0 false); set (y' := with_wallets _ y).
  assert (HW : forall S' w, m_subWallets (m_wallets y') !! S' = Some w -> (S' = S /\ w = w0) \/ m_subWallets (m_wallets y) !! S' = Some w).
  { intros S' w; cbn; intros [[<- <-]|[_ E]]%lookup_insert_Some; [by left|by right]. }
  assert (HI : incoming S bs = []).
  { destruct (incoming S bs) as [|i l] eqn:EI; [done|]; destruct (proj1 (elem_of_incoming S i bs)) as (b & ins & Hb & Hi); [rewrite EI; apply list_elem_of_here|].
    destruct (fol_owner _ _ F b ins S i Hb Hi) as [? E]; congruence. }
  split; [apply add_keyed; [apply (fol_keyed _ _ F)|done..]|..].
  - apply (fol_full _ _ F).
  - intros S' w [[-> ->]|E]%HW; [by rewrite HI|by apply (fol_all _ _ F)].
  - intros S' w i [[-> ->]|E]%HW; [by intros Hi%not_elem_of_nil|by apply (fol_heights _ _ F S')].
  - intros S' w i [[-> ->]|E]%HW; [by intros Hi%not_elem_of_nil|by apply (fol_order _ _ F S')].
  - apply (fol_hashes _ _ F).
  - apply (fol_transactions _ _ F).
  - apply (fol_spent_once _ _ F).
  - apply (fol_new _ _ F).
  - intros b ins S' i Hb Hi; cbn; apply lookup_insert_is_Some; destruct (decide (S = S')); [by left|right; split; [done|]].
    by apply (fol_owner _ _ F b ins S' i).
  - intros S' w i HO [[-> ->]|E]%HW; [by intros Hi%not_elem_of_nil|by apply (fol_unspent _ _ F S')].
  - apply (fol_once _ _ F).
  - apply (fol_after _ _ F).
Qed.

Lemma update_follows y bs e S f ws : follows y bs -> (forall w w', f w = Ok w' -> same_inputs w w') ->
  update_subWallet e S f (m_wallets y) = Ok ws -> follows (with_wallets ws y) bs.
Proof. intros F Hf E; destruct (update_same _ _ _ _ _ Hf E) as [H1 H2]; apply (follows_same y); [done|exact H1|by rewrite H2..]. Qed.

Lemma cancel_follows y bs st y' : follows y bs -> checkLockedTransactions st y = Ok y' -> follows y' bs.
Proof.
  intros F; unfold checkLockedTransactions; intros (hs & _ & E)%rbind_Ok; case_bool_decide; [by injection E as <-|].
  destruct (st hs) as [c|]; [|by injection E as <-]; case_bool_decide; [by injection E as <-|].
  unfold removeCancelledTransactions, throwIfViewWallet in E; rewrite (fol_full _ _ F) in E; cbn [rbind] in E; injection E as <-.
  apply (follows_same y); [done| |done..]; intros S; cbn; rewrite lookup_fmap; destruct (m_subWallets (m_wallets y) !! S) as [w|] eqn:Ew; constructor.
  apply cancel_same, Forall_forall; intros i Hi; apply (incoming_new y bs F S).
  rewrite <- (fol_all _ _ F S w Ew), elem_of_app; left; apply elem_of_app; by right.
Qed.

Lemma reset_follows y bs h : follows y bs -> follows (with_wallets (reset h (m_wallets y)) (synchronizer_reset h y)) [].
Proof.
  intros F; destruct (fol_keyed _ _ F) as [K1 K2 K3].
  assert (HW : forall S w, m_subWallets (reset h (m_wallets y)) !! S = Some w -> exists w0, m_subWallets (m_wallets y) !! S = Some w0 /\ w = sub_reset h w0).
  { intros S w; cbn; rewrite lookup_fmap; destruct (m_subWallets (m_wallets y) !! S) as [w0|]; [|done]; intros [= <-]; by exists w0. }
  apply empty_follows; cbn [with_wallets m_wallets]; [|apply (fol_full _ _ F)|done|by intros S w (w0 & _ & ->)%HW].
  split; [intros S w (w0 & E & ->)%HW; exact (K1 S w0 E)| |exact K3]; intros S; cbn; by rewrite lookup_fmap, fmap_is_Some.
Qed.

Lemma run_follows y bs : wallet_run y bs -> follows y bs.
Proof.
  induction 1 as [s v a h new now ws st Hs E|y bs b ins y' _ F A E|y bs b y' _ F C U E|y bs s h a ws _ F Hs E|y bs x S ws _ F E|y bs tx ws _ F E|y bs i S _ F|y bs k x _ F|y bs n f _ F|
    y bs st y' _ F E|y bs h _ F].
  - by eapply start_follows.
  - destruct (arrives_follows y bs b ins F A) as (y0 & E0 & F0 & _); rewrite E in E0; by injection E0 as <-.
  - rewrite (processBlock_unindexed y b U) in E; injection E as <-; by apply base_follows.
  - by eapply import_follows.
  - unfold markInputAsLocked, throwIfViewWallet in E; rewrite (fol_full _ _ F) in E; cbn [rbind] in E; eapply update_follows; [done| |exact E].
    apply lock_same.
  - unfold addUnconfirmedTransaction in E; destruct (has_hash _ _); [done|]; injection E as <-; apply (follows_same y); [done| |done..].
    intros S; cbn; destruct (m_subWallets (m_wallets y) !! S); by constructor.
  - apply (follows_same y); [done| |by unfold storeUnconfirmedIncomingInput; cbn; destruct (m_subWallets (m_wallets y) !! S)..].
    intros S'; unfold storeUnconfirmedIncomingInput; cbn; destruct (m_subWallets (m_wallets y) !! S) as [w|] eqn:Ew; [|by destruct (_ !! S'); constructor].
    cbn; destruct (decide (S' = S)) as [->|Hne]; [rewrite Ew, lookup_insert_eq; by constructor|].
    rewrite lookup_insert_ne by done; destruct (m_subWallets (m_wallets y) !! S'); by constructor.
  - apply (follows_same y); [done| |done..]; intros S; cbn; destruct (m_subWallets (m_wallets y) !! S); by constructor.
  - assert (E : m_wallets (downloadBlocks n f y).2 = m_wallets y).
    { unfold downloadBlocks; destruct (n <? _); [done|]; destruct (f _ _ _) as [[|b bl]|]; [done| |done]; by destruct (negb _). }
    apply (follows_same y); rewrite ?E; [done| |done..]; intros S; destruct (m_subWallets (m_wallets y) !! S); by constructor.
  - by eapply cancel_follows.
  - by eapply reset_follows.
Qed.

(** C10. In every run of a wallet with a spend key (created or extended by
    imported keys, scanning blocks and forks, leaving out blocks for which the
    daemon has no global indexes, sending, cancelling and resetting), the
    unspent, locked and spent inputs of each subwallet together are exactly
    the inputs that the scanned blocks bring it, and each spent one has a key
    image that a scanned block spends, with the height of that block. If
    moreover the chain brings no one-time key twice and spends none in or
    before the block that brings it, the unspent and locked inputs are exactly
    those that no scanned block spends. Every block that may come next is
    scanned without an error and continues the run. Assumed of the scanned
    blocks: each is above the ones it follows and at a height the
    synchronisation status accepts, the daemon gives the global indexes of its
    outputs, no key image is spent twice and no transaction hash repeated on
    the chain, and a fork finds no locked input received below it and none
    received and spent above it. *)
Theorem wallet_follows_chain y bs : wallet_run y bs ->
  (forall S w, m_subWallets (m_wallets y) !! S = Some w ->
    (m_unspentInputs w ++ m_lockedInputs w) ++ map (with_spendHeight 0) (m_spentInputs w) ≡ₚ incoming S bs /\
    (forall i, i ∈ m_spentInputs w -> exists b, b ∈ map fst bs /\ wi_keyImage i ∈ spent_in b /\ wi_spendHeight i = wb_blockHeight b) /\
    (once = true ->
     m_unspentInputs w ++ m_lockedInputs w ≡ₚ filter (fun i => wi_keyImage i ∉ spent_images bs) (incoming S bs) /\
     map (with_spendHeight 0) (m_spentInputs w) ≡ₚ filter (fun i => wi_keyImage i ∈ spent_images bs) (incoming S bs))) /\
  (forall b ins, arrives y bs b ins ->
    exists y', processBlock ndebug indexes b y = Ok y' /\ wallet_run y' (base_blocks b y bs ++ [(b, ins)])).
Proof.
  intros R; pose proof (run_follows _ _ R) as F; split.
  - intros S w Ew; split; [by apply (fol_all _ _ F)|]; split; [intros i; by apply (fol_heights _ _ F S)|]; intros HO; by apply (follows_exact y).
  - intros b ins A; destruct (arrives_follows y bs b ins F A) as (y' & E & _); exists y'; split; [done|]; by apply (run_block y).
Qed.

(** C36. If the daemon has no global index for an input of a block,
    processBlock returns and leaves the block out; of the wallet it changes
    only what a fork that the block starts rolls back. If the next block of
    the same download, valid and with indexes, lies higher than one above the
    last known height, which is not zero, it ends the thread with the
    exception for missed blocks. In all other cases (the first block scanned,
    or one of a fork) it is scanned without an error and the wallet goes on
    without the block left out. Blocks and forks are those of the runs of a
    wallet. *)
Theorem missing_indexes_stop y bs b1 b2 ins2 rest : wallet_run y bs ->
  clean_base b1 y -> unindexed (base b1 y) b1 -> follows_on (base b1 y) (base_blocks b1 y bs) b2 ins2 ->
  processBlock ndebug indexes b1 y = Ok (base b1 y) /\
  if decide (connected y b2) then
    exists y2, process_blocks ndebug indexes [b1; b2] y = Ok y2 /\
      wallet_run y2 (base_blocks b2 (base b1 y) (base_blocks b1 y bs) ++ [(b2, ins2)])
  else process_blocks ndebug indexes (b1 :: b2 :: rest) y = Err RuntimeError.
Proof.
  intros R C U N; pose proof (processBlock_unindexed y b1 U) as EP; split; [exact EP|].
  pose proof (run_skip y bs b1 _ R C U EP) as R1; pose proof (run_follows _ _ R1) as F1; cbn [process_blocks]; rewrite EP; cbn [rbind].
  assert (EC : connected (base b1 y) b2 <-> connected y b2) by (unfold connected; by rewrite (proj2 (base_rest b1 y))).
  destruct (decide (connected y b2)) as [Hc|Hc].
  - destruct (arrives_follows _ _ b2 ins2 F1 (conj (proj2 EC Hc) N)) as (y2 & E2 & _); exists y2; rewrite E2; split; [done|].
    exact (run_block _ _ b2 ins2 y2 R1 (conj (proj2 EC Hc) N) E2).
  - by rewrite (processBlock_missed _ _ b2 ins2 F1 N) by by rewrite EC.
Qed.
End Follow.

(** ** What a fork leaves *)

(** C35. What removeForkedTransactions leaves of a subwallet, in every run on
    a chain that brings every one-time key once: the spent inputs are exactly
    those of the blocks below the fork; the unspent ones are those the blocks
    below the fork bring and do not spend, without the ones that were locked,
    and in addition every input that was both received and spent at or above
    the fork, which no block that remains brings. *)
Theorem wallet_rollback_exact {FH : FastHash} ndebug indexes y bs h S w :
  wallet_run ndebug indexes true y bs -> m_subWallets (m_wallets y) !! S = Some w ->
  exists w', m_subWallets (removeForkedTransactions h (m_wallets y)) !! S = Some w' /\ m_lockedInputs w' = [] /\
    m_unspentInputs w' ++ filter (fun i => wi_blockHeight i < h) (m_lockedInputs w) ≡ₚ
      filter (fun i => wi_keyImage i ∉ spent_images (kept h bs)) (incoming S (kept h bs)) ++ map (with_spendHeight 0) (undone h w) /\
    map (with_spendHeight 0) (m_spentInputs w') ≡ₚ filter (fun i => wi_keyImage i ∈ spent_images (kept h bs)) (incoming S (kept h bs)).
Proof.
  intros R Ew; pose proof (run_follows _ _ _ _ _ R) as F; exists (sub_removeForkedInputs h w); split; [cbn; by rewrite lookup_fmap, Ew|].
  split; [done|]; by eapply rollback_exact.
Qed.

(** ** A run with a payment that is received and spent *)

Section Example.
Context {FH : FastHash} (ndebug : bool) (indexes : Z -> Z -> option (gmap Hash (list Z))).

Context (R S : PublicKey) (spendKey viewKey : SecretKey).
Hypothesis KR : is_public R.
Hypothesis KS : key_pair S spendKey.
Hypothesis Kv : scalar viewKey.

Definition payment_block (P : PublicKey) (h : Z) (g : option Z) : WalletBlockInfo := mkWalletBlock (mkRawCoinbase [mkKeyOutput P 100 g] [h] R 0) [] h [h] 0.
Definition empty_block (h : Z) : WalletBlockInfo := mkWalletBlock (mkRawCoinbase [] [h] R 0) [] h [h] 0.
Definition spending_block (x : KeyImage) : WalletBlockInfo :=
  mkWalletBlock (mkRawCoinbase [] [2] R 0) [mkRawTransaction (mkRawCoinbase [] [3] R 0) [] [mkKeyInput 100 [] x]] 2 [2] 0.

Lemma example_public : is_public S.
Proof. destruct KS as [_ E]; by eexists. Qed.

Lemma example_start : exists ws, new_SubWallets spendKey viewKey [] 0 false 0 = Ok ws /\ keyed ws /\ S ∈ m_publicSpendKeys ws /\ m_isViewWallet ws = false.
Proof.
  unfold new_SubWallets, public_key; rewrite (secret_key_pair _ _ KS); cbn [of_option rbind]; eexists; split; [done|]; split; [|split; [|done]].
  - apply add_keyed; [apply empty_keyed|exact KS|exact example_public].
  - unfold add_subWallet; cbn; apply list_elem_of_here.
Qed.

Lemma no_outputs ws h cb : rc_keyOutputs cb = [] -> rc_transactionPublicKey cb = R -> processTransactionOutputs ndebug viewKey cb h ws = Ok [].
Proof.
  intros E1 E2; unfold processTransactionOutputs; rewrite E1, E2; destruct KR as [PR HR].
  destruct (generate_key_derivation_ok ndebug R _ viewKey HR Kv) as (D & -> & _); done.
Qed.

Lemma example_payment ws hb g : keyed ws -> S ∈ m_publicSpendKeys ws ->
  exists P i, processBlockOutputs ndebug viewKey (payment_block P hb g) ws = Ok [(S, i)] /\ wi_globalOutputIndex i = g.
Proof.
  intros K HS; destruct KR as [PR HR]; destruct (generate_key_derivation_ok ndebug R _ viewKey HR Kv) as (D & ED & _).
  destruct (derivation_to_scalar_ok D 0 ltac:(split; done)) as (h & Eh & Hh & _).
  destruct (derive_with_ok (derivation_to_scalar D 0) S _ h Eh Hh (proj2 KS)) as (P & EP & HP).
  change (derive_public_key D 0 S = Some (Some P)) in EP.
  set (cb := wb_coinbaseTransaction (payment_block P hb g)).
  assert (HO : Forall (fun o => is_public (ko_key o)) (rc_keyOutputs cb)) by (apply Forall_singleton; by eexists).
  destruct (output_loop_exact ndebug ws D cb hb (rc_keyOutputs cb) K HO 0 ltac:(lia) ltac:(done)) as (ins & EI & HI).
  destruct (keyed_all _ K S) as [[w Ew] _]; [done|].
  destruct (own_key_image ndebug ws D 0 S w P K Ew ltac:(split; done) example_public EP) as (image & _ & Him).
  set (i := mkWalletInput image 100 hb R 0 g P 0 0 [hb]).
  assert (Hi : (S, i) ∈ ins) by (apply HI; exists O, (mkKeyOutput P 100 g); split; [done|]; by split_and!).
  exists P, i; split; [|done]; assert (EX : processTransactionOutputs ndebug viewKey cb hb ws = Ok ins).
  { unfold processTransactionOutputs; change (rc_transactionPublicKey cb) with R; rewrite ED; exact EI. }
  change (outputs_of ndebug viewKey [cb] hb ws = Ok [(S, i)]); cbn [outputs_of]; rewrite EX; cbn [rbind]; rewrite app_nil_r; f_equal.
  change (rc_keyOutputs cb) with [mkKeyOutput P 100 g] in EI.
  cbn [output_loop of_option rbind] in EI; apply rbind_Ok in EI as (r & _ & EI); apply rbind_Ok in EI as (B & _ & EI); apply rbind_Ok in EI as (found & Ef & EI).
  injection EI as EI; rewrite app_nil_r in EI; subst found; case_bool_decide.
  - apply rbind_Ok in Ef as (x & _ & Ef); injection Ef as Ef; rewrite <- Ef in Hi |- *; by apply list_elem_of_singleton in Hi as ->.
  - injection Ef as Ef; rewrite <- Ef in Hi; by apply not_elem_of_nil in Hi.
Qed.

Lemma example_first ws : new_SubWallets spendKey viewKey [] 0 false 0 = Ok ws -> keyed ws -> S ∈ m_publicSpendKeys ws ->
  exists P i y, wallet_run ndebug indexes true y [(payment_block P 1 (Some 7), [(S, i)])] /\ m_viewKey y = viewKey /\ m_lastKnownBlockHeight (m_syncStatus y) = 1 /\
    keyed (m_wallets y) /\ S ∈ m_publicSpendKeys (m_wallets y).
Proof.
  intros E K HS; destruct (example_payment ws 1 (Some 7) K HS) as (P & i & EP & Hg); exists P, i.
  set (y0 := mkSynchronizer ws (mkSyncStatus [] [] 0) 0 0 viewKey); set (b := payment_block P 1 (Some 7)).
  assert (R0 : wallet_run ndebug indexes true y0 []) by (by apply (run_start ndebug indexes true spendKey viewKey [] 0 false 0); [apply KS|]).
  assert (A : arrives ndebug indexes true y0 [] b [(S, i)]).
  { split; [by left|]; split; [by unfold clean_base|]; split.
    - by intros b' Hb%not_elem_of_nil.
    - exists [(S, i)]; split; [exact EP|]; cbn [fill_indexes]; by rewrite Hg.
    - constructor.
    - apply NoDup_singleton.
    - intros _; apply NoDup_singleton.
    - intros x _ _ Hx%not_elem_of_nil; done. }
  destruct (arrives_follows ndebug indexes true y0 [] b _ (run_follows ndebug indexes true _ _ R0) A) as (y & Ey & F & Ev & Eh); exists y.
  split; [exact (run_block ndebug indexes true y0 [] b _ y R0 A Ey)|]; split; [done|]; split; [done|]; split; [apply (fol_keyed _ _ _ F)|].
  apply (keyed_all _ (fol_keyed _ _ _ F)); apply (fol_owner _ _ _ F b [(S, i)] S i); apply list_elem_of_here.
Qed.

Lemma example_run : exists y P i w, wallet_run ndebug indexes true y [(payment_block P 1 (Some 7), [(S, i)]); (spending_block (wi_keyImage i), [])] /\
  m_subWallets (m_wallets y) !! S = Some w.
Proof.
  destruct example_start as (ws & E & K & HS & _); destruct (example_first ws E K HS) as (P & i & y1 & R1 & Ev & Eh & _).
  set (b := spending_block (wi_keyImage i)); assert (ER : rewinds b y1 = false) by (unfold rewinds; rewrite Eh; done).
  pose proof (run_follows ndebug indexes true _ _ R1) as F1.
  assert (A : arrives ndebug indexes true y1 [(payment_block P 1 (Some 7), [(S, i)])] b []).
  { split; [right; by rewrite Eh|]; split; [by unfold clean_base; rewrite ER|]; unfold base, base_blocks; rewrite ER; split.
    - by intros b' ->%list_elem_of_singleton.
    - exists []; split; [|done]; unfold processBlockOutputs; cbn [outputs_of map wb_transactions b spending_block rt_base]; rewrite Ev, !no_outputs by done; done.
    - apply NoDup_singleton.
    - change (NoDup [[1]; [2]; [3 : Z]]); apply (bool_decide_unpack _); vm_compute; exact I.
    - intros _; apply NoDup_singleton.
    - by intros x _ ?%not_elem_of_nil. }
  destruct (arrives_follows ndebug indexes true y1 _ b _ F1 A) as (y & Ey & F & _).
  pose proof (run_block ndebug indexes true y1 _ b _ y R1 A Ey) as RY; unfold base_blocks in RY, F; rewrite ER in RY, F.
  destruct (fol_owner _ _ _ F (payment_block P 1 (Some 7)) [(S, i)] S i) as [w Ew]; [apply list_elem_of_here..|]; by exists y, P, i, w.
Qed.

Lemma Permutation_map_singleton {A B} (f : A -> B) l b : map f l ≡ₚ [b] -> exists a, l = [a] /\ f a = b.
Proof. intros H%Permutation_singleton_r; destruct l as [|a [|a' l]]; [done| |done]; injection H as H; by exists a. Qed.

(** A fork below both blocks. *)
Lemma example_undone : exists y bs w, wallet_run ndebug indexes true y bs /\ m_subWallets (m_wallets y) !! S = Some w /\ kept 1 bs = [] /\
  m_lockedInputs w = [] /\ undone 1 w <> [].
Proof.
  destruct example_run as (y & P & i & w & Ry & Ew); eexists y, _, w; split; [exact Ry|]; split; [exact Ew|].
  pose proof (run_follows ndebug indexes true _ _ Ry) as F; split; [done|].
  assert (EI : incoming S [(payment_block P 1 (Some 7), [(S, i)]); (spending_block (wi_keyImage i), [])] = [i]).
  { unfold incoming; cbn [map snd concat app]; rewrite at_key_cons; by rewrite decide_True by done. }
  destruct (follows_exact true _ _ S w eq_refl F Ew) as [HH HS]; rewrite EI in HH, HS.
  change (spent_images _) with [wi_keyImage i] in HH, HS; rewrite filter_cons in HH, HS.
  rewrite decide_False in HH by (rewrite list_elem_of_singleton; tauto); rewrite decide_True in HS by apply list_elem_of_here.
  apply Permutation_nil_r, app_eq_nil in HH as [_ HL]; split; [done|].
  apply Permutation_map_singleton in HS as (j & Ej & Eij).
  destruct (fol_heights _ _ _ F S w j Ew) as (b & Hb & Hx & Hj); [rewrite Ej; apply list_elem_of_here|].
  destruct (fol_new _ _ _ F (payment_block P 1 (Some 7)) [(S, i)] S i) as [_ Hi]; [apply list_elem_of_here..|]; cbn in Hi.
  unfold undone; rewrite Ej, filter_cons, decide_True; [done|].
  assert (Hjb : wi_blockHeight j = 1) by (rewrite <- Hi, <- Eij; done).
  rewrite Hj, Hjb; split; [|done]; apply elem_of_cons in Hb as [->| ->%list_elem_of_singleton]; by cbn.
Qed.

(** A daemon that gives no indexes. *)
Lemma example_missing : (forall a b, indexes a b = None) -> exists y bs P,
  wallet_run ndebug indexes true y bs /\ m_lastKnownBlockHeight (m_syncStatus y) = 1 /\
  unindexed ndebug indexes y (payment_block P 2 None) /\ next_block ndebug indexes true y bs (empty_block 3) [].
Proof.
  intros HI; destruct example_start as (ws & E & K & HS & _); destruct (example_first ws E K HS) as (P1 & i1 & y & Ry & Ev & Eh & Ky & Sy).
  destruct (example_payment (m_wallets y) 2 None Ky Sy) as (P & i & EP & Hg).
  exists y, [(payment_block P1 1 (Some 7), [(S, i1)])], P; split_and!; [done|done|..].
  - exists [(S, i)]; rewrite Ev; split; [exact EP|].
    cbn [fill_indexes]; rewrite Hg, (fol_full _ _ _ (run_follows ndebug indexes true _ _ Ry)); unfold getGlobalIndexes; rewrite HI; cbn [default].
    by rewrite lookup_empty.
  - split.
    + by intros b' ->%list_elem_of_singleton.
    + exists []; split; [|done]; unfold processBlockOutputs; cbn [outputs_of map wb_transactions empty_block]; rewrite Ev, !no_outputs by done; done.
    + constructor.
    + change (NoDup [[1]; [3 : Z]]); apply (bool_decide_unpack _); vm_compute; exact I.
    + intros _; apply NoDup_singleton.
    + by intros x _ ?%not_elem_of_nil.
Qed.
End Example.

Lemma base_ahead b y : m_lastKnownBlockHeight (m_syncStatus y) < wb_blockHeight b -> rewinds b y = false /\ base b y = y /\ forall bs, base_blocks b y bs = bs.
Proof. intros H; assert (E : rewinds b y = false) by (unfold rewinds; lia); unfold base, base_blocks; by rewrite E. Qed.

Lemma missing_indexes_stop_witness : exists y b1 b2, m_lastKnownBlockHeight (m_syncStatus y) = 1 /\
  processBlock (FH := Keccak.keccak_FastHash) false (fun _ _ => None) b1 y = Ok y /\
  process_blocks (FH := Keccak.keccak_FastHash) false (fun _ _ => None) [b1; b2] y = Err RuntimeError.
Proof.
  destruct (example_missing (FH := Keccak.keccak_FastHash) false (fun _ _ => None) (PointCodec.encode (base_mul (le_val (enc_scalar 1))))
    (PointCodec.encode (base_mul (le_val (enc_scalar 3)))) (enc_scalar 3) (enc_scalar 2)
    (ex_intro _ _ eq_refl) (conj (enc_scalar_ok 3) eq_refl) (enc_scalar_ok 2) (fun _ _ => eq_refl)) as (y & bs & P & Ry & Eh & U & N).
  set (b1 := payment_block _ P 2 None) in U; set (b2 := empty_block _ 3) in N; exists y, b1, b2; split; [exact Eh|].
  destruct (base_ahead b1 y ltac:(rewrite Eh; reflexivity)) as (W1 & E1 & B1); destruct (base_ahead b2 y ltac:(rewrite Eh; reflexivity)) as (W2 & E2 & B2).
  pose proof (missing_indexes_stop (FH := Keccak.keccak_FastHash) false (fun _ _ => None) true y bs b1 b2 [] [] Ry) as H.
  rewrite !E1, !B1 in H; destruct (H ltac:(intros E; by rewrite W1 in E) U) as [HP HS].
  { split; [intros E; by rewrite W2 in E|]; rewrite E2, B2; exact N. }
  rewrite decide_False in HS; [exact (conj HP HS)|]; unfold connected; rewrite Eh; intros Hc; destruct (Hc ltac:(reflexivity)) as [E|E]; discriminate E.
Defined.

Lemma wallet_follows_chain_witness : exists y bs S w, wallet_run (FH := Keccak.keccak_FastHash) false (fun _ _ => None) true y bs /\ length bs = 2%nat /\
  m_subWallets (m_wallets y) !! S = Some w /\
  m_unspentInputs w ++ m_lockedInputs w ≡ₚ filter (fun i => wi_keyImage i ∉ spent_images bs) (incoming S bs).
Proof.
  destruct (example_run (FH := Keccak.keccak_FastHash) false (fun _ _ => None) (PointCodec.encode (base_mul (le_val (enc_scalar 1))))
    (PointCodec.encode (base_mul (le_val (enc_scalar 3)))) (enc_scalar 3) (enc_scalar 2)
    (ex_intro _ _ eq_refl) (conj (enc_scalar_ok 3) eq_refl) (enc_scalar_ok 2)) as (y & P & i & w & Ry & Ew).
  eexists y, _, _, w; split; [exact Ry|]; split; [exact eq_refl|]; split; [exact Ew|].
  exact (proj1 (proj2 (proj2 (proj1 (wallet_follows_chain (FH := Keccak.keccak_FastHash) false (fun _ _ => None) true y _ Ry) _ w Ew)) eq_refl)).
Defined.

Lemma wallet_rollback_exact_witness : exists y bs S w w', wallet_run (FH := Keccak.keccak_FastHash) false (fun _ _ => None) true y bs /\
  m_subWallets (removeForkedTransactions 1 (m_wallets y)) !! S = Some w' /\ kept 1 bs = [] /\
  m_unspentInputs w' ≡ₚ map (with_spendHeight 0) (undone 1 w) /\ undone 1 w <> [].
Proof.
  destruct (example_undone (FH := Keccak.keccak_FastHash) false (fun _ _ => None) (PointCodec.encode (base_mul (le_val (enc_scalar 1))))
    (PointCodec.encode (base_mul (le_val (enc_scalar 3)))) (enc_scalar 3) (enc_scalar 2)
    (ex_intro _ _ eq_refl) (conj (enc_scalar_ok 3) eq_refl) (enc_scalar_ok 2)) as (y & bs & w & Ry & Ew & Ek & El & Hu).
  destruct (wallet_rollback_exact (FH := Keccak.keccak_FastHash) false (fun _ _ => None) y bs 1 _ w Ry Ew) as (w' & Ew' & _ & HH & _).
  rewrite El, Ek, app_nil_r in HH; eexists y, bs, _, w, w'; exact (conj Ry (conj Ew' (conj Ek (conj HH Hu)))).
Defined.

End WalletChain.
