(* ===== verification/WalletSelection.v ===== *)
(** The balance of a wallet and the selection of inputs ([Wallet]): an amount is found exactly
    when the unlocked balance covers it, from unspent inputs that are unlocked. *)

From S2P Require Import Prelude.
From S2P Require Import Config.
From S2P Require Import Types.
From S2P Require Import Keccak.
From S2P Require Import PointCodec.
From S2P Require Import Crypto.
From S2P Require Import CryptoSpec.
From S2P Require Import BlockchainCache.
From S2P Require Import Addresses.
From S2P Require Import Wallet.
From S2P Require Import WalletSpec.

Module WalletSelection.

Import Crypto CryptoSpec BlockchainCache Addresses Wallet WalletSpec.

Definition amount_of (u : TxInputAndOwner) : Z := wi_amount (io_input u).
Definition total (us : list TxInputAndOwner) : Z := foldr (fun u n => amount_of u + n) 0 us.

Lemma total_app us vs : total (us ++ vs) = total us + total vs.
Proof. induction us as [|u us IH]; [done|]; unfold total in *; cbn [foldr app]; lia. Qed.

Lemma total_nonneg us : Forall (fun u => 0 <= amount_of u) us -> 0 <= total us.
Proof. unfold total; induction 1; cbn [foldr]; lia. Qed.

#[export] Instance total_proper : Proper ((≡ₚ) ==> eq) total.
Proof. unfold total; induction 1; cbn [foldr]; lia. Qed.

(** ** The selection *)

Lemma collect_exact amount avail : Forall (fun u => 0 <= amount_of u) avail -> forall found used, 0 <= found < amount -> found + total avail < 2 ^ 64 ->
  if amount <=? found + total avail then
    exists front u rest, avail = front ++ u :: rest /\
      collect_inputs amount found avail used = Ok (used ++ front ++ [u], found + total (front ++ [u])) /\
      found + total front < amount <= found + total (front ++ [u])
  else collect_inputs amount found avail used = Err RuntimeError.
Proof.
  induction 1 as [|u avail Hu Ha IH]; intros found used Hf Ht; cbn [collect_inputs].
  { unfold total; cbn [foldr]; by rewrite (proj2 (Z.leb_gt _ _)) by lia. }
  pose proof (total_nonneg _ Ha); change (total (u :: avail)) with (amount_of u + total avail) in *; fold (amount_of u).
  rewrite wrap_small by (unfold in_u; lia); destruct (Z.geb_spec (found + amount_of u) amount) as [Hge|Hlt].
  - rewrite (proj2 (Z.leb_le _ _)) by lia; exists [], u, avail; unfold total; cbn [app foldr]; rewrite Z.add_0_r; split; [done|split; [done|lia]].
  - specialize (IH (found + amount_of u) (used ++ [u]) ltac:(lia) ltac:(lia)); rewrite Z.add_assoc; destruct (amount <=? _); [|done].
    destruct IH as (front & v & rest & -> & E & Hb); exists (u :: front), v, rest; split; [done|].
    change (total (u :: front)) with (amount_of u + total front); change (total ((u :: front) ++ [v])) with (amount_of u + total (front ++ [v])).
    rewrite E, <- app_assoc; cbn [app]; rewrite !Z.add_assoc; done.
Qed.

(** ** The balance *)

Lemma spendable_balance now h w : total (sub_getSpendableInputs now h w) < 2 ^ 64 -> Forall (fun u => 0 <= amount_of u) (sub_getSpendableInputs now h w) ->
  (sub_getBalance now h w).1 = total (sub_getSpendableInputs now h w).
Proof.
  unfold sub_getBalance, sub_getSpendableInputs.
  set (step := fun '(unlocked, locked) input => if isInputUnlocked now (wi_unlockTime input) h then (u64 (unlocked + wi_amount input), locked) else (unlocked, u64 (locked + wi_amount input))).
  set (own := fun input => mkOwned input (m_publicSpendKey w) (m_privateSpendKey w)).
  assert (HI : forall l n m, 0 <= n -> let s := map own (filter (fun i => isInputUnlocked now (wi_unlockTime i) h = true) l) in
    n + total s < 2 ^ 64 -> Forall (fun u => 0 <= amount_of u) s -> (fold_left step l (n, m)).1 = n + total s).
  { induction l as [|i l IH]; intros n m Hn s Hs Hp; subst s; cbn [fold_left]; [unfold total; cbn; lia|]; rewrite filter_cons in *; cbn [step].
    destruct (isInputUnlocked now (wi_unlockTime i) h) eqn:Ei.
    - rewrite decide_True in * by done; cbn [map] in *; apply Forall_cons in Hp as [Hi Hp]; pose proof (total_nonneg _ Hp).
      change (total (own i :: ?l)) with (wi_amount i + total l) in *; change (amount_of (own i)) with (wi_amount i) in Hi.
      rewrite wrap_small by (unfold in_u; lia); rewrite IH by (done || lia); lia.
    - rewrite decide_False in * by done; by apply IH. }
  intros Ht Hp; specialize (HI (m_unspentInputs w) 0 0 ltac:(lia) Ht Hp); destruct (fold_left step _ _) as [n m]; exact HI.
Qed.

Lemma wallets_balance now h wallets : forall n m, 0 <= n ->
  let s := concat (map (sub_getSpendableInputs now h) wallets) in n + total s < 2 ^ 64 -> Forall (fun u => 0 <= amount_of u) s ->
  (fold_left (fun '(unlockedBalance, lockedBalance) w => let '(unlocked, locked) := sub_getBalance now h w in
     (u64 (unlockedBalance + unlocked), u64 (lockedBalance + locked))) wallets (n, m)).1 = n + total s.
Proof.
  induction wallets as [|w wallets IH]; intros n m Hn s Hs Hp; subst s; cbn [fold_left map concat] in *; [unfold total; cbn; lia|].
  rewrite total_app in *; apply Forall_app in Hp as [H1 H2]; pose proof (total_nonneg _ H1); pose proof (total_nonneg _ H2).
  pose proof (spendable_balance now h w ltac:(lia) H1) as E; destruct (sub_getBalance now h w) as [u l]; cbn [fst] in E; subst u.
  rewrite wrap_small by (unfold in_u; lia); rewrite IH by (done || lia); lia.
Qed.

(** ** Owners *)

Lemma wallets_at_elem keys ws wallets w : wallets_at keys ws = Ok wallets -> w ∈ wallets -> exists S, m_subWallets ws !! S = Some w.
Proof.
  revert wallets; induction keys as [|S keys IH]; intros wallets E; cbn [wallets_at] in E; [injection E as <-; by intros ?%not_elem_of_nil|].
  destruct (m_subWallets ws !! S) as [v|] eqn:ES; [|done]; cbn [of_option rbind] in E; apply rbind_Ok in E as (rest & Er & E); injection E as <-.
  intros [->|Hw]%elem_of_cons; [by exists S|by apply (IH rest)].
Qed.

Lemma spendable_owned now h keys ws wallets u : keyed ws -> m_isViewWallet ws = false -> wallets_at keys ws = Ok wallets ->
  u ∈ concat (map (sub_getSpendableInputs now h) wallets) ->
  exists w, m_subWallets ws !! io_publicSpendKey u = Some w /\ io_input u ∈ m_unspentInputs w /\
    isInputUnlocked now (wi_unlockTime (io_input u)) h = true /\ key_pair (io_publicSpendKey u) (io_privateSpendKey u).
Proof.
  intros K V E Hu; apply list_elem_of_In, in_concat in Hu as (l & Hl & Hu); apply in_map_iff in Hl as (w & <- & Hw).
  apply list_elem_of_In in Hu, Hw; apply list_elem_of_fmap in Hu as (i & -> & [Hi Hin]%list_elem_of_filter).
  destruct (wallets_at_elem _ _ _ _ E Hw) as [S ES]; destruct (keyed_key _ K S w ES) as [ED KP]; cbn [io_input io_publicSpendKey io_privateSpendKey].
  rewrite ED; exists w; split_and!; [done..|by apply KP].
Qed.

Lemma filter_submseteq_mono {A} (P : A -> Prop) `{!forall x, Decision (P x)} (l k : list A) : l ⊆+ k -> filter P l ⊆+ filter P k.
Proof.
  induction 1 as [|x l k _ IH|x y l|x l k _ IH|l k m _ IH1 _ IH2]; [done| | | |by etrans].
  - rewrite !filter_cons; case_decide; [by apply submseteq_skip|done].
  - rewrite !filter_cons; repeat case_decide; try done; apply submseteq_swap.
  - rewrite (filter_cons P x k); case_decide; [by apply submseteq_cons|done].
Qed.

Abbreviation owned_by S us := (filter (fun u => io_publicSpendKey u = S) us).

Lemma owned_by_own now h w S : m_publicSpendKey w = S -> owned_by S (sub_getSpendableInputs now h w) = sub_getSpendableInputs now h w.
Proof.
  intros ES; unfold sub_getSpendableInputs; induction (filter _ (m_unspentInputs w)) as [|i l IH]; [done|]; cbn [map].
  by rewrite filter_cons, decide_True, IH by done.
Qed.

Lemma owned_by_other now h w S : m_publicSpendKey w <> S -> owned_by S (sub_getSpendableInputs now h w) = [].
Proof.
  intros ES; unfold sub_getSpendableInputs; induction (filter _ (m_unspentInputs w)) as [|i l IH]; [done|]; cbn [map].
  by rewrite filter_cons, decide_False.
Qed.

(** Of the spendable inputs of distinct subwallets, those of one subwallet are its own, once each. *)
Lemma spendable_once now h ws S w : keyed ws -> m_subWallets ws !! S = Some w -> forall keys wallets, NoDup keys -> wallets_at keys ws = Ok wallets ->
  owned_by S (concat (map (sub_getSpendableInputs now h) wallets)) = if decide (S ∈ keys) then sub_getSpendableInputs now h w else [].
Proof.
  intros K ES; induction keys as [|T keys IH]; intros wallets HN E; cbn [wallets_at] in E.
  { injection E as <-; by rewrite decide_False by apply not_elem_of_nil. }
  destruct (m_subWallets ws !! T) as [v|] eqn:ET; [|done]; cbn [of_option rbind] in E; apply rbind_Ok in E as (rest & Er & E); injection E as <-.
  apply NoDup_cons in HN as [HT HN]; cbn [map concat]; rewrite filter_app, (IH rest HN Er); pose proof (proj1 (keyed_key _ K T v ET)) as EK.
  destruct (decide (T = S)) as [->|Hne].
  - assert (v = w) as -> by congruence; rewrite (owned_by_own now h w S EK), (decide_True _ _ (list_elem_of_here _ _)), decide_False by done.
    apply app_nil_r.
  - rewrite (owned_by_other now h v S) by congruence; cbn [app].
    destruct (decide (S ∈ keys)) as [Hi|Hi]; [by rewrite decide_True by by apply list_elem_of_further|].
    by rewrite decide_False by (intros [->|?]%elem_of_cons; done).
Qed.

Lemma used_once now h ws keys wallets used S w : keyed ws -> NoDup keys -> wallets_at keys ws = Ok wallets ->
  used ⊆+ concat (map (sub_getSpendableInputs now h) wallets) -> m_subWallets ws !! S = Some w ->
  map io_input (owned_by S used) ⊆+ m_unspentInputs w.
Proof.
  intros K HN E HU ES; apply (filter_submseteq_mono (fun u => io_publicSpendKey u = S)) in HU; rewrite (spendable_once now h ws S w K ES keys wallets HN E) in HU.
  apply (fmap_submseteq io_input) in HU; etrans; [exact HU|]; destruct (decide (S ∈ keys)); [|apply submseteq_nil_l].
  unfold sub_getSpendableInputs; change (io_input <$> map ?f ?l) with (map io_input (map f l)); rewrite map_map; cbn [io_input]; rewrite map_id.
  apply sublist_submseteq, sublist_filter.
Qed.

(** C17. In a wallet with spend keys, for a positive amount and amounts whose
    sum is below 2^64: getBalance gives the sum of the unlocked inputs of the
    given subwallets, and getTransactionInputsForAmount succeeds exactly when
    that balance covers the amount, whatever the shuffle. The chosen inputs
    are unlocked unspent inputs, each with the secret key of its owner, their
    sum is reported exactly and covers the amount, and without the last one it
    does not. If no subwallet is given twice, each subwallet is asked for no
    input more often than it holds it; a subwallet that is given twice counts
    and is asked twice, in both functions. *)
Theorem wallet_selection_exact (shuffle : list TxInputAndOwner -> list TxInputAndOwner) now amount (takeFromAll : bool) keys height ws wallets :
  keyed ws -> m_isViewWallet ws = false -> (forall l, shuffle l ≡ₚ l) -> 0 < amount ->
  wallets_at (if takeFromAll then m_publicSpendKeys ws else keys) ws = Ok wallets ->
  let spendable := concat (map (sub_getSpendableInputs now height) wallets) in
  Forall (fun u => 0 <= amount_of u) spendable -> total spendable < 2 ^ 64 ->
  (exists locked, getBalance now keys takeFromAll height ws = Ok (total spendable, locked)) /\
  if amount <=? total spendable then
    exists front u, getTransactionInputsForAmount shuffle now amount takeFromAll keys height ws = Ok (front ++ [u], total (front ++ [u])) /\
      front ++ [u] ⊆+ spendable /\ total front < amount <= total (front ++ [u]) /\
      (forall v, v ∈ front ++ [u] -> exists w, m_subWallets ws !! io_publicSpendKey v = Some w /\ io_input v ∈ m_unspentInputs w /\
        isInputUnlocked now (wi_unlockTime (io_input v)) height = true /\ key_pair (io_publicSpendKey v) (io_privateSpendKey v)) /\
      (NoDup (if takeFromAll then m_publicSpendKeys ws else keys) ->
       forall S w, m_subWallets ws !! S = Some w -> map io_input (owned_by S (front ++ [u])) ⊆+ m_unspentInputs w)
  else getTransactionInputsForAmount shuffle now amount takeFromAll keys height ws = Err RuntimeError.
Proof.
  intros K V HS Ha Ew spendable Hp Ht; split.
  { unfold getBalance; rewrite Ew; cbn [rbind]; pose proof (wallets_balance now height wallets 0 0 ltac:(lia) Ht Hp) as E.
    destruct (fold_left _ _ _) as [n m]; cbn [fst] in E; exists m; subst n; done. }
  unfold getTransactionInputsForAmount, throwIfViewWallet; rewrite V, Ew; cbn [rbind]; fold spendable.
  pose proof (HS spendable) as HP; pose proof (total_proper _ _ HP) as ET.
  pose proof (collect_exact amount (shuffle spendable) ltac:(by rewrite HP) 0 [] ltac:(lia) ltac:(lia)) as HC; rewrite ET, Z.add_0_l in HC.
  destruct (amount <=? total spendable); [|done]; destruct HC as (front & u & rest & ES & E & Hb); exists front, u; split; [exact E|].
  assert (HSub : front ++ [u] ⊆+ spendable).
  { rewrite <- HP, ES; change (u :: rest) with ([u] ++ rest); rewrite app_assoc; apply submseteq_inserts_r; done. }
  split; [done|]; split; [lia|]; split; [|intros HN S w Hw; exact (used_once now height ws _ wallets _ S w K HN Ew HSub Hw)].
  intros v Hv; eapply (spendable_owned now height); [done|done|exact Ew|]; by eapply elem_of_submseteq.
Qed.

(** An unlocked input of 60 and one of 50; the shuffle reverses. *)
Lemma wallet_selection_exact_witness :
  let key := PointCodec.encode (base_mul (le_val (enc_scalar 3))) in
  let input x a := mkWalletInput [x] a 1 [] 0 None [x] 0 0 [x] in
  let w := mkSubWallet [input 1 60; input 2 50] [] [] [] key (enc_scalar 3) 0 0 [] true in
  let ws := add_subWallet w (mkSubWallets ∅ [] [] (enc_scalar 2) false [] ∅) in
  exists front u, getTransactionInputsForAmount (@rev TxInputAndOwner) 0 100 true [] 5 ws = Ok (front ++ [u], total (front ++ [u])) /\
    total front < 100 <= total (front ++ [u]) /\ map io_input (owned_by key (front ++ [u])) ⊆+ [input 1 60; input 2 50].
Proof.
  intros key input w ws; assert (KP : key_pair key (enc_scalar 3)) by exact (conj (enc_scalar_ok 3) eq_refl).
  assert (PK : is_public key) by exact (ex_intro _ _ eq_refl).
  assert (K : keyed ws) by exact (add_keyed w _ (empty_keyed _ _) KP PK).
  assert (Ew : wallets_at (m_publicSpendKeys ws) ws = Ok [w])
    by (unfold ws, add_subWallet; cbn [wallets_at with_publicSpendKeys with_subWallets m_publicSpendKeys m_subWallets app]; rewrite lookup_insert_eq; exact eq_refl).
  destruct (wallet_selection_exact (@rev TxInputAndOwner) 0 100 true [] 5 ws [w] K eq_refl
    (fun l => symmetry (Permutation_rev l)) ltac:(lia) Ew ltac:(repeat constructor; cbn; lia) ltac:(reflexivity)) as [_ (front & u & E & _ & H & _ & HO)].
  assert (HN : NoDup (m_publicSpendKeys ws)) by (cbn [ws add_subWallet with_publicSpendKeys m_publicSpendKeys app]; apply NoDup_singleton).
  exact (ex_intro _ front (ex_intro _ u (conj E (conj H (HO HN key w (lookup_insert_eq _ _ _)))))).
Defined.

End WalletSelection.
